(* ===== verification/_CoqProject ===== *)
-Q . S2P
Prelude.v
Position.v
Range.v
Selection.v
Intervals.v
OffsetRange.v
LineRange.v
PrefixSum.v
Buffer.v
TextChange.v
EditStack.v
RBTree.v
RBTreeRep.v
RBTreeOps.v
RBTreeInsert.v
RBTreeDelete.v
RBTreeRemove.v
PieceBuffers.v
PieceTree.v
PieceTreeEdit.v
PieceTreeNodes.v
PieceTreeRead.v
PieceTreeList.v
PieceTreeText.v
PieceTreePieces.v
PieceTreeChange.v
PieceTreeSeal.v
PieceTreeInsert.v
PieceTreeDocument.v
PieceTreeErase.v
PieceTreeCreate.v
PieceTreeChars.v
PieceTreeLines.v
PieceTreeRange.v
PieceTreeContent.v
PieceTreeSession.v
PieceTreeReads.v
Strings.v
TextBuffer.v
TextBufferBuilder.v
TextBufferLoad.v
TextBufferSort.v
TextEdits.v
TextBufferEdits.v
TextBufferInverse.v
TextBufferApply.v
TextBufferSession.v
TextLines.v
TextModelEvents.v
TextModel.v
TextModelReads.v
TextModelRaw.v
TextModelEdits.v
MirrorTextModel.v
MirrorSync.v
Diff.v
DiffAligned.v
DiffTables.v
DiffJoin.v
MyersSteps.v
MyersBounds.v
MyersPaths.v
MyersRounds.v
MyersLow.v
MyersInvariant.v
MyersDiff.v
Linked.v
LinkedList.v
LinkedListOps.v
LinkedMap.v
LinkedMapOps.v
LinkedMapShows.v
LinkedMapSession.v
LRUSession.v
