(* ===== verification/Prelude.v ===== *)
(** * The text model core of the editor: a verification library

    The repository is a distribution of an editor.  Its core is the text model under
    [src/src/vs/editor/common]: positions and ranges ([core/]), the piece table that
    stores a document ([model/pieceTreeTextBuffer/]), the text buffer in front of it,
    which applies batches of edits, the text model that owns the buffer
    ([model/textModel.ts]) and the events it tells its listeners, the mirror other
    processes keep of it ([model/mirrorTextModel.ts]), and the elements of the undo stack
    ([model/editStack.ts]).  Beside it stand the diff algorithms of the editor
    ([diff/algorithms/]) and the linked lists, linked maps and caches of the base library
    ([src/src/vs/base/common]).  This library translates those parts to Rocq, operation by
    operation, and proves them correct.

    ** How the parts interact

    A file is read in chunks by [PieceTreeTextBufferBuilder], which makes a factory,
    which makes a [PieceTreeTextBuffer].  The text buffer owns one [PieceTreeBase]: a
    red-black tree whose nodes hold pieces, ranges of append-only string buffers; the
    document is the concatenation of the pieces in order.  [TextModel.applyEdits] validates the ranges of a batch of edits and hands it
    to [applyEdits] of the text buffer, which sorts the edits, computes their
    inverse as text changes, and calls [delete] and [insert] of the piece table from
    the last to the first; the model then counts a version, moves its decorations, and
    fires one event with the content changes and the raw line changes, which a
    [DidChangeContentEmitter] holds back and merges while emissions are deferred.  A
    [MirrorTextModel] follows those events.  The undo stack composes the text changes of consecutive
    edits ([compressConsecutiveTextChanges]), stores them as bytes, and hands them back
    to the model.

    The diff algorithms take two sequences of numbers (hashed lines, or characters) and a
    timeout; [DynamicProgrammingDiffing] fills tables, [MyersDiffAlgorithm] searches along
    diagonals, and [optimizeSequenceDiffs] joins and shifts what they return.  [LRUCache]
    is a [LinkedMap] that trims itself; a [LinkedMap] is a JavaScript map of items that
    are also linked in order; [LinkedList] hands out functions that remove what was
    inserted.

    ** Files, in dependency order

    - [Prelude]: numbers at their width, JavaScript's array and string operations on
      lists, the result type [res] (a value or a thrown error), tactics, the hint
      database, and generic lemmas.
    - [Position], [Range], [Selection]: [core/position.ts], [core/range.ts],
      [core/selection.ts], one Module per class.
    - [Intervals], [OffsetRange], [LineRange]: [core/offsetRange.ts] and
      [core/lineRange.ts]; both classes are instances of one interface, [Interval].
    - [PrefixSum]: [model/prefixSumComputer.ts], [base/common/uint.ts].
    - [Buffer], [TextChange], [EditStack]: the byte readers and writers of
      [base/common/buffer.ts], [decodeUTF16LE] of [core/stringBuilder.ts],
      [core/textChange.ts], [model/editStack.ts].  The text models the undo elements
      call are an interface (class [ITextModels]).
    - [RBTree]: [rbTreeBase.ts] as programs on a heap of nodes ([gmap] from references
      to nodes, [SENTINEL] among them) in a state monad with errors.  [RBTreeRep],
      [RBTreeOps], [RBTreeInsert], [RBTreeDelete], [RBTreeRemove]: the functional trees
      such heaps represent, and what each operation does to them.
    - [PieceBuffers], [PieceTree], [PieceTreeEdit]: [pieceTreeBase.ts]: one text
      buffer and its line starts; the state with its search cache and the reading
      operations; the editing operations.
    - [PieceTreeNodes] .. [PieceTreeContent]: the proofs, bottom up: the tree as a list
      of pieces ([PieceTreeNodes], [PieceTreeRead], [PieceTreeList]); texts and their
      line breaks ([PieceTreeText]); new pieces ([PieceTreePieces]); changes of one
      node and the repair of CR LF pairs ([PieceTreeChange], [PieceTreeSeal]);
      [insert], [delete], [create] and [setEOL] on documents ([PieceTreeInsert],
      [PieceTreeDocument], [PieceTreeErase], [PieceTreeCreate]); characters, lines,
      ranges and line contents ([PieceTreeChars], [PieceTreeLines], [PieceTreeRange],
      [PieceTreeContent]).
    - [PieceTreeSession], [PieceTreeReads]: the contract of [PieceTreeBase]: an
      abstract document (a text, its line end, whether it is normalized), the edits on
      it, reachable states, and the claims on editing and reading.
    - [Strings]: the functions of [base/common/strings.ts] and [core/eolCounter.ts]
      the text buffer calls.
    - [TextBuffer]: [pieceTreeTextBuffer.ts].  [TextBufferBuilder]:
      [pieceTreeTextBufferBuilder.ts].  [TextBufferLoad]: loading a file.
      [TextBufferSort], [TextEdits], [TextBufferEdits], [TextBufferInverse],
      [TextBufferApply], [TextBufferSession]: the stable sort, simultaneous
      replacements in a text, the plan of [_toSingleEditOperation] and its inverse, the
      claims on [applyEdits], and the invariant of a text buffer in use.
    - [TextLines]: the lines of a text and what a replacement does to them.
    - [TextModelEvents]: [textModelEvents.ts], [ArrayQueue] of [base/common/arrays.ts]
      and the emitter [DidChangeContentEmitter] of [textModel.ts].  [TextModel]:
      [textModel.ts], with the decorations as an interface (class [Decorations]).
      [TextModelReads], [TextModelRaw], [TextModelEdits]: the claims on validation,
      the raw line changes, and the claims on edits, undo and redo.
    - [MirrorTextModel], [MirrorSync]: [mirrorTextModel.ts], and that a mirror stays
      equal to its model.
    - [Diff]: [diffAlgorithm.ts], [dynamicProgrammingDiffing.ts],
      [myersDiffAlgorithm.ts], [joinSequenceDiffs.ts] and [utils.ts] of
      [diff/algorithms/]; scores are an interface (class [Score]).  [DiffAligned]: what
      differences promise (the sequences are equal outside of them).  [DiffTables]: the
      algorithm with tables.  [DiffJoin]: joining, smoothing and shifting.
    - [MyersSteps], [MyersBounds], [MyersPaths], [MyersRounds], [MyersLow],
      [MyersInvariant], [MyersDiff]: the algorithm of Myers: one diagonal and one round on
      the growing arrays; which diagonals a round visits; paths of snakes; the invariant
      above and below; a whole round; all rounds and the claim.
    - [Linked]: nodes that name their neighbours (class [Linked], with laws) and the
      segments of such nodes in a heap.  [LinkedList], [LinkedListOps]: [linkedList.ts]
      and its claims.  [LinkedMap]: classes [LinkedMap] and [LRUCache] of [map.ts].
      [LinkedMapOps], [LinkedMapShows], [LinkedMapSession], [LRUSession]: the list of
      items; each operation on the list of pairs; loops, iterators and sessions; caches
      and the claims.

    ** How the code is represented

    Line numbers, columns, offsets and code units are [Z]; truncation to a width is
    written where the code truncates ([| 0], typed arrays).  A string is the list of its
    UTF-16 units.  An operation that can throw returns [res]; one that changes an
    object takes and returns its state ([M] for the tree, [P] for the piece table, [B]
    for the text buffer, [T] for the text model).  Objects the code shares and mutates (tree nodes) live in a
    heap; the search cache, which several readers fill, is part of the state, so a
    reading operation returns a state too.  Arrays read out of range give [undefined]
    and a use of it throws, as in the code.

    ** What the theorems show

    - Piece table, editing: from a file's chunks, every session of insertions,
      deletions and line-end changes runs without an exception and the store then reads
      as the text edited the same way, with right length and line count; each operation
      splices the text it names; what happens outside of the document.
    - Piece table, reading: offsets and positions are inverse, ranges and lines read
      the current document in every state reached by edits and reads, so the search
      cache and the remembered line are never stale; snapshots.
    - Red-black tree: insertion and deletion refine insertion and deletion in a list,
      keep the tree balanced and the size and line-feed metadata right.
    - Text buffer: a file cut into chunks anywhere loads as its text, and where it
      does not; a batch of edits that do not overlap takes effect as simultaneous
      replacements, whatever its order, and its inverse is right; overlapping edits are
      refused before anything changes.
    - Text model: every position and range is validated into the document; an edit
      batch leaves the simultaneous replacement of its validated ranges, counts one
      version and fires one event; the raw line changes, replayed on the old lines, give
      the new ones; undo then redo restores both texts; undo also restores the line end
      an element changed, and redo of such an element misplaces an insertion by the
      number of line breaks before it.
    - Mirror: a mirror that hears every event of its model has its lines, line end and
      version after every session of edits.
    - Undo: composition of changes, byte round trips of data that fit their fields, and
      that undo and redo of an element lead between its first and last moment: text, line
      end, version and cursors.
    - Ranges, offset sets, line sets, prefix sums: agreement with sets of positions,
      offsets or lines and with sums of lists.
    - Diffs: both algorithms return, for all sequences and timeouts, ordered differences
      that turn the first sequence into the second; that of Myers does so within a number
      of rounds linear in the lengths, although it reads its arrays past their end (an
      example shows that the differences are then not the least ones).  Joining keeps that
      promise; shifting takes the position with the best score, keeps the promise under
      conditions, and breaks it where an insertion reaches into the replacement before it.
    - Linked lists, linked maps and caches: sessions of calls behave like the calls on
      plain lists and on ordered lists of pairs; iterators fail when the order changed; a
      cache never exceeds its limit; what a removing function called after [shift] or
      [clear] does to a list.

    ** Bounds and fuel

    A loop that walks the tree runs with [path_fuel], the size of the heap plus two:
    a path visits each node at most once, and every theorem about such a loop proves that
    it returns within that.  [compress] runs with the number of its edits and units,
    [largePieces] with the length of the text, the binary searches with the length of
    the array, the rounds of the algorithm of Myers with four times the two lengths plus
    16, loops over linked nodes with the number of nodes; each is proved enough.  [Fuel] exhaustion is an error value of its own
    that no theorem ever excludes by assumption.  Texts and buffers are bounded by
    [2 ^ 31 - 1] units where the code stores offsets in typed arrays; engines allow
    no longer strings.

    ** Not modelled

    The regular-expression search of the piece table, the text buffer and the model
    ([findMatchesLineByLine] and its helpers), which drives the JavaScript RegExp
    engine; [getNearestChunk]; the [toString] methods; of the text model its
    decorations (behind the interface [Decorations]), tokens, brackets and options, and
    class [EditStack] with the undo/redo service; the interval tree of decorations
    ([model/intervalTree.ts]), a second red-black tree with offsets pushed down lazily,
    which the text model sees through that interface.  Of the diffs [removeRandomMatches]
    and [removeRandomLineMatches] (powers of floating-point numbers, regular
    expressions), the clock of [DateTimeout], and the line differs built on top.  Of
    [map.ts] the maps keyed by resources.  The rest of the repository (workbench,
    platform services, rendering, extensions, the command line) is input and output or
    glue over services, or a separate program. *)

From stdpp Require Export base tactics numbers list list_numbers sorting sets.
From stdpp Require Import options.

(** ** Notation scope of the development *)

Declare Scope js_scope.
Delimit Scope js_scope with js.
Open Scope Z_scope.
Open Scope bool_scope.

(** ** Numbers

    Line numbers, columns and offsets are JavaScript numbers.  The code only
    ever puts integers in them, so they are [Z]; the operators that truncate
    to a machine width are written out. *)

(** [v | 0]: ECMAScript's ToInt32. *)
Definition int32 (v : Z) : Z := (v + 2 ^ 31) mod 2 ^ 32 - 2 ^ 31.

(** A store into a [Uint32Array] element: ToUint32. *)
Definition uint32 (v : Z) : Z := v mod 2 ^ 32.

(** A store into a [Uint8Array] element: ToUint8. *)
Definition uint8 (v : Z) : Z := v mod 2 ^ 8.

(** JavaScript's [%] on integers: the remainder takes the sign of the
    dividend. *)
Definition js_rem (a b : Z) : Z := Z.rem a b.

Definition in_int32 (v : Z) : Prop := - 2 ^ 31 <= v < 2 ^ 31.
Definition in_uint32 (v : Z) : Prop := 0 <= v < 2 ^ 32.

(** The strict comparison of two numbers, as a boolean: [a === b] *)
Notation "a === b" := (Z.eqb a b) (at level 70, no associativity) : js_scope.
Notation "a !== b" := (negb (Z.eqb a b)) (at level 70, no associativity) : js_scope.
Open Scope js_scope.

(** ** Arrays and strings

    An array is a list, a string the list of its UTF-16 code units. *)

Definition jsstring : Type := list Z.

Section Arrays.
Context {A : Type}.
Implicit Types (l : list A) (n i s e : Z).

(** [l.length] *)
Definition zlen l : Z := Z.of_nat (length l).

(** [l[i]]; [None] is [undefined] *)
Definition znth l i : option A :=
  if i <? 0 then None else l !! Z.to_nat i.

(** the first [n] elements, and the elements from index [n] on *)
Definition ztake n l : list A := take (Z.to_nat n) l.
Definition zdrop n l : list A := drop (Z.to_nat n) l.

(** [l.slice(s, e)] *)
Definition js_index (len i : Z) : Z :=
  if i <? 0 then Z.max 0 (len + i) else Z.min i len.
Definition js_slice l s e : list A :=
  let s := js_index (zlen l) s in
  let e := js_index (zlen l) e in
  ztake (e - s) (zdrop s l).

(** [l.splice(start, deleteCount, ...items)], as the resulting array *)
Definition js_splice l s n (items : list A) : list A :=
  let s := js_index (zlen l) s in
  let n := Z.min (Z.max n 0) (zlen l - s) in
  ztake s l ++ items ++ zdrop (s + n) l.

(** [str.substring(s, e)]: both ends are clamped, then ordered *)
Definition js_substring l s e : list A :=
  let s := Z.min (Z.max s 0) (zlen l) in
  let e := Z.min (Z.max e 0) (zlen l) in
  ztake (Z.max s e - Z.min s e) (zdrop (Z.min s e) l).

(** [str.substr(s, n)] and [str.substr(s)] *)
Definition js_substr l s n : list A :=
  let s := js_index (zlen l) s in
  ztake (Z.min n (zlen l - s)) (zdrop s l).
Definition js_substr_from l s : list A := zdrop (js_index (zlen l) s) l.
End Arrays.

Arguments zlen : simpl never.
Arguments znth : simpl never.
Arguments ztake : simpl never.
Arguments zdrop : simpl never.

(** The index a loop [while (i < l.length && p(l[i])) i++] started at 0 stops
    at; started at [i0] it stops at [i0 + js_scan p (drop i0 l)]. *)
Fixpoint js_scan {A} (p : A -> bool) (l : list A) : nat :=
  match l with
  | [] => 0
  | x :: l => if p x then S (js_scan p l) else 0
  end.

(** *** Typed arrays

    A [Uint32Array] (or [Uint8Array]) is the list of its elements.  A store
    truncates the value, and does nothing out of range; [set] throws when the
    source does not fit. *)
Definition ta_write (conv : Z -> Z) (l : list Z) (i v : Z) : list Z :=
  if i <? 0 then l else <[Z.to_nat i := conv v]> l.

(** ** Exceptions

    A call that can throw returns a [res]. *)

Inductive js_error :=
| Error
| BugIndicatingError
| TypeError
| RangeError
| SparseArray   (** not an exception: a store that would leave holes in an array,
                    where the model stops *)
| NotANumber    (** not an exception: a number that would be NaN, where the model
                    stops *)
| OutOfFuel.    (** not an exception: a loop bound of the model was too small *)

Inductive res (A : Type) := Ret (a : A) | Throw (e : js_error).
Arguments Ret {A} a.
Arguments Throw {A} e.

Definition res_bind {A B} (c : res A) (k : A -> res B) : res B :=
  match c with Ret a => k a | Throw e => Throw e end.

Notation "'let*' x := c 'in' k" := (res_bind c (fun x => k))
  (at level 10, x name, c at level 200, k at level 200) : js_scope.

(** [x!]: reading a property of [undefined] is a TypeError *)
Definition js_get {A} (o : option A) : res A :=
  match o with Some a => Ret a | None => Throw TypeError end.

(** [target.set(src, offset)] *)
Definition ta_set (target src : list Z) (offset : Z) : res (list Z) :=
  if zlen target <? zlen src + offset then Throw RangeError
  else Ret (ztake offset target ++ src ++ zdrop (offset + zlen src) target).

(** A store into an ordinary array: it grows by one at the end. *)
Definition js_store {A} (l : list A) (i : Z) (v : A) : res (list A) :=
  if (i <? 0) || (zlen l <? i) then Throw SparseArray
  else if i === zlen l then Ret (l ++ [v])
  else Ret (<[Z.to_nat i := v]> l).

(** ** Automation *)

Create HintDb s2core.

(** Splits every conditional on an integer comparison and closes what linear
    arithmetic can. *)
Ltac zcase :=
  repeat match goal with
    | |- context [if ?b then _ else _] => destruct b eqn:?; simpl in *
    | H : context [if ?b then _ else _] |- _ => destruct b eqn:?; simpl in *
    end.
Ltac zsolve := zcase; try lia; try congruence.

(** Names the bound of a [mod] before [lia]. *)
Ltac zmod :=
  unfold int32, uint32, uint8, in_int32, in_uint32 in *;
  Z.to_euclidean_division_equations; lia.

(** ** Lemmas the components share *)

Lemma int32_id v : in_int32 v -> int32 v = v.
Proof. zmod. Qed.

Lemma int32_range v : in_int32 (int32 v).
Proof. zmod. Qed.

Lemma uint32_id v : in_uint32 v -> uint32 v = v.
Proof. zmod. Qed.

Lemma uint32_range v : in_uint32 (uint32 v).
Proof. zmod. Qed.

Section ArrayLemmas.
Context {A : Type}.
Implicit Types (l k : list A) (n i : Z).

Lemma zlen_nonneg l : 0 <= zlen l.
Proof. unfold zlen; lia. Qed.

Lemma zlen_nil : zlen (@nil A) = 0.
Proof. done. Qed.

Lemma zlen_cons (x : A) l : zlen (x :: l) = 1 + zlen l.
Proof. unfold zlen; simpl; lia. Qed.

Lemma zlen_app l k : zlen (l ++ k) = zlen l + zlen k.
Proof. unfold zlen; rewrite length_app; lia. Qed.

Lemma zlen_0 l : zlen l = 0 -> l = [].
Proof. destruct l; unfold zlen; simpl; [done | lia]. Qed.

Lemma ztake_zdrop n l : ztake n l ++ zdrop n l = l.
Proof. apply take_drop. Qed.

Lemma zlen_ztake n l : 0 <= n <= zlen l -> zlen (ztake n l) = n.
Proof. unfold zlen, ztake; rewrite length_take; lia. Qed.

Lemma zlen_zdrop n l : 0 <= n <= zlen l -> zlen (zdrop n l) = zlen l - n.
Proof. unfold zlen, zdrop; rewrite length_drop; lia. Qed.

Lemma ztake_0 l : ztake 0 l = [].
Proof. done. Qed.

Lemma zdrop_0 l : zdrop 0 l = l.
Proof. done. Qed.

Lemma ztake_all n l : zlen l <= n -> ztake n l = l.
Proof. intros; apply take_ge; unfold zlen in *; lia. Qed.

Lemma zdrop_all n l : zlen l <= n -> zdrop n l = [].
Proof. intros; apply drop_ge; unfold zlen in *; lia. Qed.

Lemma ztake_app_l n l k : n <= zlen l -> ztake n (l ++ k) = ztake n l.
Proof. intros; apply take_app_le; unfold zlen in *; lia. Qed.

Lemma ztake_app_r n l k :
  zlen l <= n -> ztake n (l ++ k) = l ++ ztake (n - zlen l) k.
Proof.
  intros. unfold ztake. rewrite take_app_ge by (unfold zlen in *; lia).
  do 2 f_equal. unfold zlen in *; lia.
Qed.

Lemma zdrop_app_l n l k : n <= zlen l -> zdrop n (l ++ k) = zdrop n l ++ k.
Proof. intros; apply drop_app_le; unfold zlen in *; lia. Qed.

Lemma zdrop_app_r n l k :
  zlen l <= n -> zdrop n (l ++ k) = zdrop (n - zlen l) k.
Proof.
  intros. unfold zdrop. rewrite drop_app_ge by (unfold zlen in *; lia).
  f_equal. unfold zlen in *; lia.
Qed.

Lemma zdrop_zdrop n m l : 0 <= n -> 0 <= m -> zdrop n (zdrop m l) = zdrop (m + n) l.
Proof. intros. unfold zdrop. rewrite drop_drop. f_equal. lia. Qed.

Lemma znth_Some l i x : znth l i = Some x -> 0 <= i < zlen l.
Proof.
  unfold znth, zlen. case_match; [done |].
  intros Hx%lookup_lt_Some. lia.
Qed.

Lemma znth_is_Some l i : 0 <= i < zlen l -> is_Some (znth l i).
Proof.
  unfold znth, zlen; intros. rewrite (proj2 (Z.ltb_ge i 0)) by lia.
  apply lookup_lt_is_Some; lia.
Qed.

Lemma js_slice_id l s e :
  0 <= s <= e -> e <= zlen l -> js_slice l s e = ztake (e - s) (zdrop s l).
Proof. intros; unfold js_slice, js_index. zcase; try lia. rewrite !Z.min_l by lia. done. Qed.
End ArrayLemmas.

Create Rewrite HintDb s2len.
#[export] Hint Rewrite @zlen_app @zlen_cons @zlen_nil : s2len.

(** *** Typed arrays, and reads of appended arrays *)

Lemma znth_app_l {A} (l k : list A) i : i < zlen l -> znth (l ++ k) i = znth l i.
Proof. intros. unfold znth, zlen in *. case_match; [done |]. apply lookup_app_l. lia. Qed.

Lemma znth_app_r {A} (l k : list A) i :
  zlen l <= i -> znth (l ++ k) i = znth k (i - zlen l).
Proof.
  intros. pose proof (zlen_nonneg l). unfold znth, zlen in *.
  rewrite !(proj2 (Z.ltb_ge _ _)) by lia. rewrite lookup_app_r by lia. f_equal. lia.
Qed.

Lemma znth_ztake {A} (l : list A) n i : i < n -> znth (ztake n l) i = znth l i.
Proof. intros. unfold znth, ztake. case_match; [done |]. apply lookup_take_lt. lia. Qed.

Lemma zlen_ta_write conv l i v : zlen (ta_write conv l i v) = zlen l.
Proof. unfold ta_write, zlen. case_match; [done |]. by rewrite length_insert. Qed.

Lemma znth_ta_write_eq conv l i v :
  0 <= i < zlen l -> znth (ta_write conv l i v) i = Some (conv v).
Proof.
  unfold ta_write, znth, zlen. intros. rewrite !(proj2 (Z.ltb_ge _ _)) by lia.
  apply list_lookup_insert_eq. lia.
Qed.

Lemma znth_ta_write_ne conv l i j v :
  i <> j -> znth (ta_write conv l i v) j = znth l j.
Proof.
  unfold ta_write, znth. intros. repeat case_match; try done.
  apply list_lookup_insert_ne. lia.
Qed.

Lemma ta_write_mid conv p x s v i :
  i = zlen p -> ta_write conv (p ++ x :: s) i v = p ++ conv v :: s.
Proof.
  intros ->. unfold ta_write, zlen. rewrite (proj2 (Z.ltb_ge _ _)), Nat2Z.id by lia.
  rewrite insert_app_r_alt, Nat.sub_diag by lia. done.
Qed.

Lemma znth_mid {A} (p : list A) x s i : i = zlen p -> znth (p ++ x :: s) i = Some x.
Proof. intros ->. rewrite znth_app_r, Z.sub_diag by lia. done. Qed.

Lemma mjoin_fmap_cons {A B} (f : A -> list B) x l :
  mjoin (f <$> x :: l) = f x ++ mjoin (f <$> l).
Proof. done. Qed.

(** Overwriting a middle segment of the same length. *)
Lemma ta_set_mid a b c src off :
  off = zlen a -> zlen b = zlen src -> ta_set (a ++ b ++ c) src off = Ret (a ++ src ++ c).
Proof.
  intros -> Hb. unfold ta_set. autorewrite with s2len in *.
  pose proof (zlen_nonneg c). pose proof (zlen_nonneg src). zcase; [lia |].
  rewrite ztake_app_l, ztake_all by lia. rewrite zdrop_app_r by lia.
  rewrite zdrop_app_r by lia.
  replace (zlen a + zlen src - zlen a - zlen b) with 0 by lia. done.
Qed.

Lemma ta_set_head b c src : zlen b = zlen src -> ta_set (b ++ c) src 0 = Ret (src ++ c).
Proof. intros. by apply (ta_set_mid [] b c). Qed.

Definition zeros (n : Z) : list Z := replicate (Z.to_nat n) 0.

Lemma zlen_zeros n : 0 <= n -> zlen (zeros n) = n.
Proof. intros. unfold zeros, zlen. rewrite length_replicate. lia. Qed.

Lemma zeros_add a b : 0 <= a -> 0 <= b -> zeros (a + b) = zeros a ++ zeros b.
Proof. intros. unfold zeros. rewrite <- replicate_add. f_equal. lia. Qed.

(** *** Sums *)

Definition zsum (l : list Z) : Z := fold_right Z.add 0 l.

Lemma zsum_cons x l : zsum (x :: l) = x + zsum l.
Proof. done. Qed.

Lemma zsum_app l k : zsum (l ++ k) = zsum l + zsum k.
Proof. induction l; simpl; lia. Qed.

Lemma zsum_nonneg l : Forall (Z.le 0) l -> 0 <= zsum l.
Proof. induction 1; simpl; lia. Qed.

(** The sum of the first [i] elements. *)
Definition prefix (l : list Z) (i : Z) : Z := zsum (ztake i l).

Lemma prefix_succ l i x :
  znth l i = Some x -> prefix l (i + 1) = prefix l i + x.
Proof.
  intros H. pose proof (znth_Some _ _ _ H). unfold znth in H.
  rewrite (proj2 (Z.ltb_ge i 0)) in H by lia. unfold prefix, ztake.
  replace (Z.to_nat (i + 1)) with (S (Z.to_nat i)) by lia.
  rewrite (take_S_r _ _ _ H), zsum_app. simpl. lia.
Qed.

Lemma prefix_0 l : prefix l 0 = 0.
Proof. done. Qed.

Lemma prefix_all l i : zlen l <= i -> prefix l i = zsum l.
Proof. intros. unfold prefix. by rewrite ztake_all. Qed.

Lemma prefix_mono l i j : Forall (Z.le 0) l -> 0 <= i <= j -> prefix l i <= prefix l j.
Proof.
  intros Hl Hij. unfold prefix, ztake.
  replace (Z.to_nat j) with (Z.to_nat i + Z.to_nat (j - i))%nat by lia.
  rewrite <- take_take_drop, zsum_app.
  pose proof (zsum_nonneg _ (Forall_take _ (Z.to_nat (j - i)) _ (Forall_drop _ (Z.to_nat i) _ Hl))).
  lia.
Qed.

(** Where a scan stops: everything before satisfies the test, the element it
    stops at does not. *)
Lemma js_scan_spec {A} (p : A -> bool) (l : list A) :
  exists l1 l2, l = l1 ++ l2 /\ length l1 = js_scan p l /\
    Forall (fun x => p x = true) l1 /\
    (forall x l', l2 = x :: l' -> p x = false).
Proof.
  induction l as [| x l (l1 & l2 & -> & Hl & H1 & H2)]; simpl.
  - exists [], []. repeat split; [constructor | done].
  - destruct (p x) eqn:Hx.
    + exists (x :: l1), l2. simpl. repeat split; auto.
    + exists [], (x :: l1 ++ l2). repeat split; [constructor |]. intros ?? [= <- <-]. done.
Qed.

Lemma js_scan_app {A} (p : A -> bool) (l1 l2 : list A) :
  Forall (fun x => p x = true) l1 ->
  js_scan p (l1 ++ l2) = (length l1 + js_scan p l2)%nat.
Proof. induction 1; simpl; [done |]. by rewrite H, IHForall. Qed.

