(* ===== verification/Position.v ===== *)
(** * Positions in a document

    [src/src/vs/editor/common/core/position.ts]: a line number and a column,
    both starting at 1, with the order the whole editor relies on. *)

From S2P Require Import Prelude.

Module Position.

(** [class Position] (and [interface IPosition]) *)
Record t : Type := new { lineNumber : Z; column : Z }.

#[global] Instance t_eq_dec : EqDecision t.
Proof. solve_decision. Defined.

(** [with(newLineNumber, newColumn)]; [None] is an argument left out *)
Definition with_ (this : t) (newLineNumber newColumn : option Z) : t :=
  let newLineNumber := default (lineNumber this) newLineNumber in
  let newColumn := default (column this) newColumn in
  if (newLineNumber === lineNumber this) && (newColumn === column this)
  then this
  else new newLineNumber newColumn.

(** [delta(deltaLineNumber, deltaColumn)] *)
Definition delta (this : t) (deltaLineNumber deltaColumn : option Z) : t :=
  with_ this (Some (lineNumber this + default 0 deltaLineNumber))
    (Some (column this + default 0 deltaColumn)).

(** [Position.equals(a, b)] on nullable positions *)
Definition equals (a b : option t) : bool :=
  match a, b with
  | None, None => true
  | Some a, Some b => (lineNumber a === lineNumber b) && (column a === column b)
  | _, _ => false
  end.

Definition isBefore (a b : t) : bool :=
  if lineNumber a <? lineNumber b then true
  else if lineNumber b <? lineNumber a then false
  else column a <? column b.

Definition isBeforeOrEqual (a b : t) : bool :=
  if lineNumber a <? lineNumber b then true
  else if lineNumber b <? lineNumber a then false
  else column a <=? column b.

(** [Position.compare]: both coordinates go through [| 0] *)
Definition compare (a b : t) : Z :=
  let aLineNumber := int32 (lineNumber a) in
  let bLineNumber := int32 (lineNumber b) in
  if aLineNumber === bLineNumber then
    let aColumn := int32 (column a) in
    let bColumn := int32 (column b) in
    aColumn - bColumn
  else aLineNumber - bLineNumber.

Definition clone (this : t) : t := new (lineNumber this) (column this).

Definition lift (pos : t) : t := new (lineNumber pos) (column pos).

(** ** The order on positions, as a relation *)

Definition lt (a b : t) : Prop :=
  lineNumber a < lineNumber b \/ (lineNumber a = lineNumber b /\ column a < column b).

Definition le (a b : t) : Prop :=
  lineNumber a < lineNumber b \/ (lineNumber a = lineNumber b /\ column a <= column b).

(** A position whose coordinates survive [| 0]. *)
Definition small (a : t) : Prop := in_int32 (lineNumber a) /\ in_int32 (column a).

(** Exposes the coordinates of every position in sight. *)
Ltac crush :=
  repeat match goal with p : t |- _ => destruct p end;
  unfold lt, le, small, isBefore, isBeforeOrEqual, equals in *; simpl in *;
  try (zcase; simpl in *; intuition (try lia; try congruence)).

Lemma isBefore_lt a b : isBefore a b = true <-> lt a b.
Proof. crush. Qed.

Lemma isBeforeOrEqual_le a b : isBeforeOrEqual a b = true <-> le a b.
Proof. crush. Qed.

Lemma le_refl a : le a a.
Proof. crush. Qed.

Lemma le_trans a b c : le a b -> le b c -> le a c.
Proof. crush. Qed.

Lemma lt_le_trans a b c : lt a b -> le b c -> lt a c.
Proof. crush. Qed.

Lemma le_antisym a b : le a b -> le b a -> a = b.
Proof. crush; f_equal; lia. Qed.

Lemma le_total a b : le a b \/ le b a.
Proof. crush; lia. Qed.

Lemma lt_not_le a b : lt a b <-> ~ le b a.
Proof. crush; lia. Qed.

Lemma equals_eq a b : equals a b = true <-> a = b.
Proof.
  destruct a as [[]|], b as [[]|]; simpl; split; intros; simplify_eq; try done.
  - f_equal; f_equal; lia.
  - lia.
Qed.

#[global] Instance le_po : PartialOrder le.
Proof. split; [split |]; repeat intro; eauto using le_refl, le_trans, le_antisym. Qed.

#[global] Instance le_tot : Total le.
Proof. intros a b; apply le_total. Qed.

#[global] Instance le_dec : RelDecision le.
Proof.
  intros a b. destruct (isBeforeOrEqual a b) eqn:E; [left | right].
  - by apply isBeforeOrEqual_le.
  - intros H%isBeforeOrEqual_le. congruence.
Defined.

Lemma compare_small a b :
  small a -> small b ->
  compare a b =
    (if lineNumber a === lineNumber b then column a - column b
     else lineNumber a - lineNumber b).
Proof. intros [] []. unfold compare. by rewrite !int32_id. Qed.

(** [isBefore] is a strict total order whose ties are exactly the equal
    positions, and [isBeforeOrEqual] is its reflexive version: for any three
    positions, [isBefore] is irreflexive and transitive, exactly one of
    "before", "equal", "after" holds, and [isBeforeOrEqual a b] is the
    negation of [isBefore b a]. *)
Lemma isBefore_strict_total_order (a b c : t) :
  isBefore a a = false /\
  (isBefore a b && isBefore b c = true -> isBefore a c = true) /\
  isBeforeOrEqual a b = negb (isBefore b a) /\
  isBeforeOrEqual a b = isBefore a b || equals (Some a) (Some b) /\
  (if equals (Some a) (Some b)
   then isBefore a b = false /\ isBefore b a = false
   else isBefore a b = negb (isBefore b a)).
Proof. repeat split; crush. Qed.

(** For coordinates that fit 32 bits, the sign of [Position.compare] is the
    order of the positions: negative exactly when [a] is before [b], zero
    exactly when they are equal, positive exactly when [b] is before [a].  It
    is the comparison function every sort of positions uses. *)
Lemma compare_agrees_with_isBefore (a b : t) (Ha : small a) (Hb : small b) :
  (compare a b <? 0) = isBefore a b /\
  (compare a b =? 0) = equals (Some a) (Some b) /\
  (0 <? compare a b) = isBefore b a.
Proof. rewrite compare_small by done. crush. Qed.

End Position.

#[global] Hint Resolve Position.le_refl Position.le_trans Position.le_antisym : s2core.
