(* ===== verification/Range.v ===== *)
(** * Ranges between positions

    [src/src/vs/editor/common/core/range.ts]: a pair of positions, the start
    before or equal to the end.  A range is read as the set of positions from
    its start to its end, both included; the operations are specified against
    that reading. *)

From S2P Require Import Prelude Position.

Module Range.

(** [interface IRange]; a [Range] object is one that went through the
    constructor [new] below. *)
Record t : Type := mk {
  startLineNumber : Z;
  startColumn : Z;
  endLineNumber : Z;
  endColumn : Z }.

#[global] Instance t_eq_dec : EqDecision t.
Proof. solve_decision. Defined.

(** [constructor]: orders the two end points *)
Definition new (sl sc el ec : Z) : t :=
  if (el <? sl) || ((sl === el) && (ec <? sc))
  then mk el ec sl sc
  else mk sl sc el ec.

Definition isEmpty (range : t) : bool :=
  (startLineNumber range === endLineNumber range) &&
  (startColumn range === endColumn range).

Definition containsPosition (range : t) (position : Position.t) : bool :=
  let l := Position.lineNumber position in
  let c := Position.column position in
  if (l <? startLineNumber range) || (endLineNumber range <? l) then false
  else if (l === startLineNumber range) && (c <? startColumn range) then false
  else if (l === endLineNumber range) && (endColumn range <? c) then false
  else true.

Definition strictContainsPosition (range : t) (position : Position.t) : bool :=
  let l := Position.lineNumber position in
  let c := Position.column position in
  if (l <? startLineNumber range) || (endLineNumber range <? l) then false
  else if (l === startLineNumber range) && (c <=? startColumn range) then false
  else if (l === endLineNumber range) && (endColumn range <=? c) then false
  else true.

Definition containsRange (range otherRange : t) : bool :=
  if (startLineNumber otherRange <? startLineNumber range)
     || (endLineNumber otherRange <? startLineNumber range) then false
  else if (endLineNumber range <? startLineNumber otherRange)
     || (endLineNumber range <? endLineNumber otherRange) then false
  else if (startLineNumber otherRange === startLineNumber range)
     && (startColumn otherRange <? startColumn range) then false
  else if (endLineNumber otherRange === endLineNumber range)
     && (endColumn range <? endColumn otherRange) then false
  else true.

Definition strictContainsRange (range otherRange : t) : bool :=
  if (startLineNumber otherRange <? startLineNumber range)
     || (endLineNumber otherRange <? startLineNumber range) then false
  else if (endLineNumber range <? startLineNumber otherRange)
     || (endLineNumber range <? endLineNumber otherRange) then false
  else if (startLineNumber otherRange === startLineNumber range)
     && (startColumn otherRange <=? startColumn range) then false
  else if (endLineNumber otherRange === endLineNumber range)
     && (endColumn range <=? endColumn otherRange) then false
  else true.

Definition plusRange (a b : t) : t :=
  let '(sl, sc) :=
    if startLineNumber b <? startLineNumber a then (startLineNumber b, startColumn b)
    else if startLineNumber b === startLineNumber a
    then (startLineNumber b, Z.min (startColumn b) (startColumn a))
    else (startLineNumber a, startColumn a) in
  let '(el, ec) :=
    if endLineNumber a <? endLineNumber b then (endLineNumber b, endColumn b)
    else if endLineNumber b === endLineNumber a
    then (endLineNumber b, Z.max (endColumn b) (endColumn a))
    else (endLineNumber a, endColumn a) in
  new sl sc el ec.

(** [intersectRanges]; [None] is [null] *)
Definition intersectRanges (a b : t) : option t :=
  let '(sl, sc) :=
    if startLineNumber a <? startLineNumber b then (startLineNumber b, startColumn b)
    else if startLineNumber a === startLineNumber b
    then (startLineNumber a, Z.max (startColumn a) (startColumn b))
    else (startLineNumber a, startColumn a) in
  let '(el, ec) :=
    if endLineNumber b <? endLineNumber a then (endLineNumber b, endColumn b)
    else if endLineNumber a === endLineNumber b
    then (endLineNumber a, Z.min (endColumn a) (endColumn b))
    else (endLineNumber a, endColumn a) in
  if el <? sl then None
  else if (sl === el) && (ec <? sc) then None
  else Some (new sl sc el ec).

(** [equalsRange] on nullable ranges *)
Definition equalsRange (a b : option t) : bool :=
  match a, b with
  | None, None => true
  | Some a, Some b =>
      (startLineNumber a === startLineNumber b) &&
      (startColumn a === startColumn b) &&
      (endLineNumber a === endLineNumber b) &&
      (endColumn a === endColumn b)
  | _, _ => false
  end.

Definition getEndPosition (range : t) : Position.t :=
  Position.new (endLineNumber range) (endColumn range).

Definition getStartPosition (range : t) : Position.t :=
  Position.new (startLineNumber range) (startColumn range).

Definition setEndPosition (this : t) (l c : Z) : t :=
  new (startLineNumber this) (startColumn this) l c.

Definition setStartPosition (this : t) (l c : Z) : t :=
  new l c (endLineNumber this) (endColumn this).

Definition collapseToStart (range : t) : t :=
  new (startLineNumber range) (startColumn range) (startLineNumber range) (startColumn range).

Definition collapseToEnd (range : t) : t :=
  new (endLineNumber range) (endColumn range) (endLineNumber range) (endColumn range).

Definition delta (this : t) (lineCount : Z) : t :=
  new (startLineNumber this + lineCount) (startColumn this)
      (endLineNumber this + lineCount) (endColumn this).

(** [fromPositions(start, end = start)] *)
Definition fromPositions (start : Position.t) (end_ : option Position.t) : t :=
  let end_ := default start end_ in
  new (Position.lineNumber start) (Position.column start)
      (Position.lineNumber end_) (Position.column end_).

(** [lift] on a nullable range *)
Definition lift (range : option t) : option t :=
  match range with
  | None => None
  | Some range =>
      Some (new (startLineNumber range) (startColumn range)
                (endLineNumber range) (endColumn range))
  end.

Definition areIntersectingOrTouching (a b : t) : bool :=
  if (endLineNumber a <? startLineNumber b)
     || ((endLineNumber a === startLineNumber b) && (endColumn a <? startColumn b))
  then false
  else if (endLineNumber b <? startLineNumber a)
     || ((endLineNumber b === startLineNumber a) && (endColumn b <? startColumn a))
  then false
  else true.

Definition areIntersecting (a b : t) : bool :=
  if (endLineNumber a <? startLineNumber b)
     || ((endLineNumber a === startLineNumber b) && (endColumn a <=? startColumn b))
  then false
  else if (endLineNumber b <? startLineNumber a)
     || ((endLineNumber b === startLineNumber a) && (endColumn b <=? startColumn a))
  then false
  else true.

(** [compareRangesUsingStarts] on nullable ranges *)
Definition compareRangesUsingStarts (a b : option t) : Z :=
  match a, b with
  | Some a, Some b =>
      let aStartLineNumber := int32 (startLineNumber a) in
      let bStartLineNumber := int32 (startLineNumber b) in
      if aStartLineNumber === bStartLineNumber then
        let aStartColumn := int32 (startColumn a) in
        let bStartColumn := int32 (startColumn b) in
        if aStartColumn === bStartColumn then
          let aEndLineNumber := int32 (endLineNumber a) in
          let bEndLineNumber := int32 (endLineNumber b) in
          if aEndLineNumber === bEndLineNumber then
            let aEndColumn := int32 (endColumn a) in
            let bEndColumn := int32 (endColumn b) in
            aEndColumn - bEndColumn
          else aEndLineNumber - bEndLineNumber
        else aStartColumn - bStartColumn
      else aStartLineNumber - bStartLineNumber
  | _, _ =>
      let aExists := if a is Some _ then 1 else 0 in
      let bExists := if b is Some _ then 1 else 0 in
      aExists - bExists
  end.

Definition compareRangesUsingEnds (a b : t) : Z :=
  if endLineNumber a === endLineNumber b then
    if endColumn a === endColumn b then
      if startLineNumber a === startLineNumber b then startColumn a - startColumn b
      else startLineNumber a - startLineNumber b
    else endColumn a - endColumn b
  else endLineNumber a - endLineNumber b.

Definition spansMultipleLines (range : t) : bool :=
  startLineNumber range <? endLineNumber range.

(** ** The invariant and the set reading *)

(** What the constructor establishes. *)
Definition wf (r : t) : Prop := Position.le (getStartPosition r) (getEndPosition r).

(** The positions of a range. *)
Definition mem (p : Position.t) (r : t) : Prop :=
  Position.le (getStartPosition r) p /\ Position.le p (getEndPosition r).

Definition small (r : t) : Prop :=
  Position.small (getStartPosition r) /\ Position.small (getEndPosition r).

Ltac crush :=
  repeat match goal with r : t |- _ => destruct r | p : Position.t |- _ => destruct p end;
  unfold wf, mem, small, getStartPosition, getEndPosition, Position.lt, Position.le, Position.small,
    Position.equals,
    containsPosition, strictContainsPosition, containsRange,
    strictContainsRange, plusRange, intersectRanges, areIntersecting,
    areIntersectingOrTouching, isEmpty, new in *; simpl in *;
  try (zcase; simpl in *; simplify_eq; simpl in *; intuition (try lia; try congruence)).

Lemma range_new_wf sl sc el ec : wf (new sl sc el ec).
Proof. crush. Qed.

Lemma range_new_id r : wf r ->
  new (startLineNumber r) (startColumn r) (endLineNumber r) (endColumn r) = r.
Proof. crush. Qed.

Lemma containsPosition_mem r p : containsPosition r p = true <-> mem p r.
Proof. crush. Qed.

Lemma mem_start r : wf r -> mem (getStartPosition r) r.
Proof. crush. Qed.

Lemma mem_end r : wf r -> mem (getEndPosition r) r.
Proof. crush. Qed.

Lemma containsRange_ends a b :
  wf b -> containsRange a b = true <->
  Position.le (getStartPosition a) (getStartPosition b) /\
  Position.le (getEndPosition b) (getEndPosition a).
Proof. crush. Qed.

#[global] Hint Resolve range_new_wf mem_start mem_end : s2core.

(** The constructor puts the two end points in order and keeps them: the
    range built from two positions starts at the smaller and ends at the
    larger one, whichever way round they are given, so every operation that
    ends in [new Range] returns a range whose start is not after its end. *)
Lemma new_orders_endpoints (p q : Position.t) :
  let r := fromPositions p (Some q) in
  wf r /\
  (if Position.isBeforeOrEqual p q
   then getStartPosition r = p /\ getEndPosition r = q
   else getStartPosition r = q /\ getEndPosition r = p) /\
  fromPositions q (Some p) = r.
Proof.
  unfold fromPositions; simpl. split; [apply range_new_wf |].
  unfold Position.isBeforeOrEqual; crush; f_equal; lia.
Qed.

(** [containsRange] is inclusion: for a well-formed second range, it
    answers true exactly when every position the second range contains is
    contained in the first. *)
Lemma containsRange_is_inclusion (a b : t) (Hb : wf b) :
  containsRange a b = true <->
  (forall p, containsPosition b p = true -> containsPosition a p = true).
Proof.
  rewrite containsRange_ends by done. setoid_rewrite containsPosition_mem. split.
  - intros [Hs He] p [H1 H2]. split; etrans; eauto.
  - intros H. destruct (H _ (mem_start _ Hb)) as [? _], (H _ (mem_end _ Hb)) as [_ ?]. done.
Qed.

(** Closes "one of the two end points" goals by the order of the columns. *)
Ltac pick_end :=
  repeat match goal with
    | |- context [Z.min ?x ?y] => destruct (Z.min_spec x y) as [[? ->] | [? ->]]
    | |- context [Z.max ?x ?y] => destruct (Z.max_spec x y) as [[? ->] | [? ->]]
    end;
  first [left; f_equal; lia | right; f_equal; lia].

Lemma plusRange_start a b :
  wf a -> wf b ->
  let s := getStartPosition (plusRange a b) in
  Position.le s (getStartPosition a) /\ Position.le s (getStartPosition b) /\
  (s = getStartPosition a \/ s = getStartPosition b).
Proof. crush; pick_end. Qed.

Lemma plusRange_end a b :
  wf a -> wf b ->
  let e := getEndPosition (plusRange a b) in
  Position.le (getEndPosition a) e /\ Position.le (getEndPosition b) e /\
  (e = getEndPosition a \/ e = getEndPosition b).
Proof. crush; pick_end. Qed.

Lemma plusRange_wf a b : wf (plusRange a b).
Proof. unfold plusRange. repeat case_match; apply range_new_wf. Qed.

(** [plusRange] is the least range that covers both ranges: it is
    well-formed, contains both, and any range that contains both contains
    it. *)
Lemma plusRange_is_least_upper_bound (a b : t) (Ha : wf a) (Hb : wf b) :
  wf (plusRange a b) /\
  containsRange (plusRange a b) a = true /\
  containsRange (plusRange a b) b = true /\
  (forall c, containsRange c a = true -> containsRange c b = true ->
             containsRange c (plusRange a b) = true).
Proof.
  destruct (plusRange_start a b Ha Hb) as (S1 & S2 & S3).
  destruct (plusRange_end a b Ha Hb) as (E1 & E2 & E3).
  pose proof (plusRange_wf a b). rewrite !containsRange_ends by done.
  split_and!; try done. intros c. rewrite !containsRange_ends by done.
  intros [] []. split; [destruct S3 as [-> | ->] | destruct E3 as [-> | ->]]; done.
Qed.

Lemma intersectRanges_mem a b p :
  wf a -> wf b ->
  (exists r, intersectRanges a b = Some r /\ mem p r) <-> mem p a /\ mem p b.
Proof.
  intros Ha Hb. destruct (intersectRanges a b) as [r|] eqn:E.
  - split.
    + intros (? & [= <-] & Hp). crush.
    + intros Hp. exists r; split; [done |]. crush.
  - split; [naive_solver |]. intros Hp. exfalso. crush.
Qed.

(** [intersectRanges] is set intersection: on well-formed ranges it returns
    null exactly when [areIntersectingOrTouching] is false, otherwise a
    well-formed range that contains exactly the positions both ranges
    contain. *)
Lemma intersectRanges_is_intersection (a b : t) (Ha : wf a) (Hb : wf b) :
  match intersectRanges a b with
  | None =>
      areIntersectingOrTouching a b = false /\
      (forall p, containsPosition a p && containsPosition b p = false)
  | Some r =>
      areIntersectingOrTouching a b = true /\ wf r /\
      (forall p, containsPosition r p = containsPosition a p && containsPosition b p)
  end.
Proof.
  pose proof (fun p => intersectRanges_mem a b p Ha Hb) as Hm.
  setoid_rewrite <- containsPosition_mem in Hm.
  destruct (intersectRanges a b) as [r|] eqn:E; split_and?.
  - crush.
  - crush.
  - intros p. specialize (Hm p).
    apply eq_true_iff_eq. rewrite andb_true_iff, <- Hm. naive_solver.
  - crush.
  - intros p. apply not_true_is_false. rewrite andb_true_iff, <- Hm. naive_solver.
Qed.

Lemma areIntersecting_interior a b :
  areIntersecting a b = true <->
  Position.lt (getStartPosition b) (getEndPosition a) /\
  Position.lt (getStartPosition a) (getEndPosition b).
Proof. crush. Qed.

(** [areIntersecting] is the strict test: two well-formed ranges that only
    touch at an end point are not intersecting, although they intersect or
    touch; a shared end point is the only difference between the two tests for
    non-empty ranges.  (The comment on [areIntersecting] says that touching
    ranges return true.) *)
Lemma areIntersecting_excludes_touching (a b : t) (Ha : wf a) (Hb : wf b) :
  (getEndPosition a = getStartPosition b ->
   areIntersecting a b = false /\ areIntersectingOrTouching a b = true) /\
  (isEmpty a = false -> isEmpty b = false ->
   areIntersecting a b =
     areIntersectingOrTouching a b &&
     negb (Position.equals (Some (getEndPosition a)) (Some (getStartPosition b))) &&
     negb (Position.equals (Some (getEndPosition b)) (Some (getStartPosition a)))).
Proof.
  split.
  - intros E. crush.
  - intros Ea Eb. crush.
Qed.

(** The comparison functions as a lexicographic choice between differences. *)
Definition small_opt (a : option t) : Prop := from_option small True a.

Lemma compareStarts_small a b :
  small a -> small b ->
  compareRangesUsingStarts (Some a) (Some b) =
    (if startLineNumber a === startLineNumber b then
       if startColumn a === startColumn b then
         if endLineNumber a === endLineNumber b then endColumn a - endColumn b
         else endLineNumber a - endLineNumber b
       else startColumn a - startColumn b
     else startLineNumber a - startLineNumber b).
Proof.
  intros [[] []] [[] []]. unfold compareRangesUsingStarts. simpl in *.
  by rewrite !int32_id.
Qed.

Ltac cmp_cases :=
  repeat match goal with
    | |- context [?x === ?y] => destruct (Z.eqb_spec x y)
    end; simpl; repeat split; intros; simplify_eq; try lia; try (repeat f_equal; lia).

(** [compareRangesUsingStarts] is a legal sort comparison on nullable
    ranges whose coordinates fit 32 bits: it is antisymmetric, transitive,
    zero exactly on equal arguments, puts null first, and orders ranges by
    start position before anything else. *)
Lemma compareRangesUsingStarts_total_order (a b c : option t)
  (Ha : small_opt a) (Hb : small_opt b) (Hc : small_opt c) :
  compareRangesUsingStarts a b = - compareRangesUsingStarts b a /\
  (compareRangesUsingStarts a b = 0 <-> a = b) /\
  (compareRangesUsingStarts a b <= 0 -> compareRangesUsingStarts b c <= 0 ->
   compareRangesUsingStarts a c <= 0) /\
  (forall ra rb, a = Some ra -> b = Some rb ->
     Position.isBefore (getStartPosition ra) (getStartPosition rb) = true ->
     compareRangesUsingStarts a b < 0).
Proof.
  destruct a as [[a1 a2 a3 a4]|], b as [[b1 b2 b3 b4]|], c as [[c1 c2 c3 c4]|];
    simpl in Ha, Hb, Hc; rewrite ?compareStarts_small by done;
    unfold Position.isBefore; simpl; cmp_cases; zsolve.
Qed.

(** [compareRangesUsingEnds] is a legal sort comparison on ranges (no width
    assumption: it does not truncate): antisymmetric, transitive, zero exactly
    on equal ranges, and it orders by end position before anything else. *)
Lemma compareRangesUsingEnds_total_order (a b c : t) :
  compareRangesUsingEnds a b = - compareRangesUsingEnds b a /\
  (compareRangesUsingEnds a b = 0 <-> a = b) /\
  (compareRangesUsingEnds a b <= 0 -> compareRangesUsingEnds b c <= 0 ->
   compareRangesUsingEnds a c <= 0) /\
  (Position.isBefore (getEndPosition a) (getEndPosition b) = true ->
   compareRangesUsingEnds a b < 0).
Proof.
  destruct a as [a1 a2 a3 a4], b as [b1 b2 b3 b4], c as [c1 c2 c3 c4].
  unfold compareRangesUsingEnds, Position.isBefore; simpl; cmp_cases; zsolve.
Qed.

End Range.
