(* ===== verification/Selection.v ===== *)
(** * Selections: ranges with a direction

    [src/src/vs/editor/common/core/selection.ts]: a selection remembers which
    of its two ends is the anchor ([selectionStart]) and which is the caret
    ([position]); the range it extends is always normalised. *)

From S2P Require Import Prelude Position Range.

Module Selection.

(** [const enum SelectionDirection] *)
Inductive SelectionDirection := LTR | RTL.

#[global] Instance dir_eq_dec : EqDecision SelectionDirection.
Proof. solve_decision. Defined.

(** [class Selection extends Range]: the inherited range and its own fields *)
Record t : Type := mk {
  range : Range.t;
  selectionStartLineNumber : Z;
  selectionStartColumn : Z;
  positionLineNumber : Z;
  positionColumn : Z }.

(** [constructor]: [super(...)] orders the range, the own fields keep the order
    given *)
Definition new (ssl ssc pl pc : Z) : t := mk (Range.new ssl ssc pl pc) ssl ssc pl pc.

Definition selectionsEqual (a b : t) : bool :=
  (selectionStartLineNumber a === selectionStartLineNumber b) &&
  (selectionStartColumn a === selectionStartColumn b) &&
  (positionLineNumber a === positionLineNumber b) &&
  (positionColumn a === positionColumn b).

Definition getDirection (this : t) : SelectionDirection :=
  if (selectionStartLineNumber this === Range.startLineNumber (range this)) &&
     (selectionStartColumn this === Range.startColumn (range this))
  then LTR else RTL.

Definition setEndPosition (this : t) (endLineNumber endColumn : Z) : t :=
  if decide (getDirection this = LTR)
  then new (Range.startLineNumber (range this)) (Range.startColumn (range this)) endLineNumber endColumn
  else new endLineNumber endColumn (Range.startLineNumber (range this)) (Range.startColumn (range this)).

Definition getPosition (this : t) : Position.t :=
  Position.new (positionLineNumber this) (positionColumn this).

Definition getSelectionStart (this : t) : Position.t :=
  Position.new (selectionStartLineNumber this) (selectionStartColumn this).

Definition setStartPosition (this : t) (startLineNumber startColumn : Z) : t :=
  if decide (getDirection this = LTR)
  then new startLineNumber startColumn (Range.endLineNumber (range this)) (Range.endColumn (range this))
  else new (Range.endLineNumber (range this)) (Range.endColumn (range this)) startLineNumber startColumn.

(** [fromPositions(start, end = start)] *)
Definition fromPositions (start : Position.t) (end_ : option Position.t) : t :=
  let end_ := default start end_ in
  new (Position.lineNumber start) (Position.column start)
      (Position.lineNumber end_) (Position.column end_).

Definition fromRange (r : Range.t) (direction : SelectionDirection) : t :=
  if decide (direction = LTR)
  then new (Range.startLineNumber r) (Range.startColumn r) (Range.endLineNumber r) (Range.endColumn r)
  else new (Range.endLineNumber r) (Range.endColumn r) (Range.startLineNumber r) (Range.startColumn r).

Definition liftSelection (sel : t) : t :=
  new (selectionStartLineNumber sel) (selectionStartColumn sel)
      (positionLineNumber sel) (positionColumn sel).

(** [selectionsArrEqual] on arrays that may be undefined *)
Fixpoint selectionsEqualFrom (a b : list t) : bool :=
  match a, b with
  | x :: a, y :: b => if negb (selectionsEqual x y) then false else selectionsEqualFrom a b
  | _, _ => true
  end.

Definition selectionsArrEqual (a b : option (list t)) : bool :=
  match a, b with
  | Some a, Some b => if zlen a !== zlen b then false else selectionsEqualFrom a b
  | None, None => true
  | _, _ => false
  end.

Definition createWithDirection (sl sc el ec : Z) (direction : SelectionDirection) : t :=
  if decide (direction = LTR) then new sl sc el ec else new el ec sl sc.

(** ** The invariant: what the constructor establishes *)

Definition wf (s : t) : Prop :=
  range s = Range.new (selectionStartLineNumber s) (selectionStartColumn s)
                      (positionLineNumber s) (positionColumn s).

Ltac crush :=
  repeat match goal with
    | s : t |- _ => destruct s
    | r : Range.t |- _ => destruct r
    | p : Position.t |- _ => destruct p
    end;
  unfold wf, Range.wf, Range.getStartPosition, Range.getEndPosition, Position.le,
    setEndPosition, setStartPosition, fromRange, createWithDirection, getDirection,
    fromPositions, liftSelection, new, Range.isEmpty, Range.new in *;
  simpl in *; zcase; repeat case_decide; simpl in *; simplify_eq; simpl in *;
  intuition (try lia; try congruence; try (repeat f_equal; lia)).

Lemma selection_new_wf a b c d : wf (new a b c d).
Proof. done. Qed.

Lemma selectionsEqual_eq a b : wf a -> wf b -> selectionsEqual a b = true <-> a = b.
Proof.
  destruct a, b; unfold wf, selectionsEqual; simpl; intros -> ->; split.
  - rewrite !andb_true_iff, !Z.eqb_eq. naive_solver.
  - intros E. inversion E. subst. lia.
Qed.

(** A range and a direction determine a selection and can be read back: the
    selection made from a non-empty well-formed range covers that range and
    reports that direction, its anchor and caret are the two ends in the
    order the direction says; an empty range always reports left-to-right. *)
Lemma fromRange_roundtrip (r : Range.t) (d : SelectionDirection) (Hr : Range.wf r) :
  let s := fromRange r d in
  wf s /\ range s = r /\
  getDirection s = (if Range.isEmpty r then LTR else d) /\
  getSelectionStart s =
    (if decide (d = LTR) then Range.getStartPosition r else Range.getEndPosition r) /\
  getPosition s =
    (if decide (d = LTR) then Range.getEndPosition r else Range.getStartPosition r) /\
  createWithDirection (Range.startLineNumber r) (Range.startColumn r)
    (Range.endLineNumber r) (Range.endColumn r) d = s.
Proof. destruct d; repeat split; crush. Qed.

(** Moving one end of a selection keeps the other: with the new end after
    the start (and the new start before the end), [setEndPosition] and
    [setStartPosition] keep the direction of a non-empty selection and change
    exactly that end of its range. *)
Lemma set_ends_keep_direction (s : t) (p q : Position.t)
  (Hs : wf s) (Hne : Range.isEmpty (range s) = false)
  (Hp : Position.isBefore (Range.getStartPosition (range s)) p = true)
  (Hq : Position.isBefore q (Range.getEndPosition (range s)) = true) :
  let s1 := setEndPosition s (Position.lineNumber p) (Position.column p) in
  let s2 := setStartPosition s (Position.lineNumber q) (Position.column q) in
  getDirection s1 = getDirection s /\
  Range.getStartPosition (range s1) = Range.getStartPosition (range s) /\
  Range.getEndPosition (range s1) = p /\
  getDirection s2 = getDirection s /\
  Range.getEndPosition (range s2) = Range.getEndPosition (range s) /\
  Range.getStartPosition (range s2) = q.
Proof. unfold Position.isBefore in *. repeat split; crush. Qed.

(** [selectionsArrEqual] decides equality of two selection arrays. *)
Lemma selectionsArrEqual_decides (a b : list t) (Ha : Forall wf a) (Hb : Forall wf b) :
  selectionsArrEqual (Some a) (Some b) = true <-> a = b.
Proof.
  unfold selectionsArrEqual. revert b Hb.
  induction Ha as [| x a Hx Ha IH]; intros [| y b] Hb; cbn [selectionsEqualFrom]; try done.
  rewrite !zlen_cons.
  apply Forall_cons in Hb as [Hy Hb]. specialize (IH b Hb).
  replace (1 + zlen a === 1 + zlen b) with (zlen a === zlen b) by lia.
  pose proof (selectionsEqual_eq x y Hx Hy) as Hxy.
  destruct (zlen a === zlen b), (selectionsEqual x y); simpl in *; naive_solver.
Qed.

End Selection.
