(* ===== verification/Intervals.v ===== *)
(** * Sorted lists of half-open intervals

    What [OffsetRange] and [LineRange] share: both are half-open integer
    intervals, and both classes keep arrays of them sorted and apart.  The
    interface [Interval] is instantiated by each; the lemmas about sorted
    arrays are proved once here. *)

From S2P Require Import Prelude.

Class Interval (T : Type) := { lo : T -> Z; hi : T -> Z }.

Section Intervals.
Context {T : Type} `{!Interval T}.
Implicit Types (x y r : T) (l : list T) (n : Z).

Definition iwf x : Prop := lo x <= hi x.
Definition imem n x : Prop := lo x <= n < hi x.

(** [x] ends before [y] starts, with a gap between them. *)
Definition before x y : Prop := hi x < lo y.

(** The integers of an array of intervals. *)
Definition smem n l : Prop := Exists (imem n) l.

(** The representation invariant: well-formed, sorted, never touching. *)
Definition normal l : Prop := Forall iwf l /\ StronglySorted before l.

Lemma normal_nil : normal [].
Proof. split; constructor. Qed.

Lemma normal_cons x l :
  normal (x :: l) <-> iwf x /\ Forall (before x) l /\ normal l.
Proof.
  unfold normal. rewrite Forall_cons. split.
  - intros [[??] Hs]. inversion Hs; subst. done.
  - intros (? & ? & ? & ?). repeat split; try done. by constructor.
Qed.

Lemma normal_app l1 l2 :
  normal (l1 ++ l2) <->
  normal l1 /\ normal l2 /\ (forall x y, x ∈ l1 -> y ∈ l2 -> before x y).
Proof.
  induction l1 as [| x l1 IH]; simpl.
  - split; [| naive_solver]. intros H.
    split_and!; [apply normal_nil | done | set_solver].
  - rewrite !normal_cons, IH, Forall_app, !Forall_forall.
    setoid_rewrite elem_of_cons. naive_solver.
Qed.

Lemma smem_app n l1 l2 : smem n (l1 ++ l2) <-> smem n l1 \/ smem n l2.
Proof. apply Exists_app. Qed.

Lemma smem_cons n x l : smem n (x :: l) <-> imem n x \/ smem n l.
Proof. apply Exists_cons. Qed.

Lemma smem_nil n : ~ smem n [].
Proof. intros H. by apply Exists_nil in H. Qed.

Lemma before_trans x y z : before x y -> iwf y -> before y z -> before x z.
Proof. unfold before, iwf; lia. Qed.

(** In a sorted array, once an interval is past a point all later ones are. *)
Lemma normal_tail_past x l n :
  normal (x :: l) -> n < lo x -> Forall (fun y => n < lo y) (x :: l).
Proof.
  intros (Hx & Hb & _)%normal_cons Hn. constructor; [done |].
  eapply Forall_impl; [exact Hb |]. unfold before, iwf in *; intros; lia.
Qed.

(** Replacing a run of intervals that all touch [r] by their hull. *)
Lemma normal_merge l1 l2 l3 m :
  normal (l1 ++ l2 ++ l3) ->
  iwf m ->
  (forall x, x ∈ l1 -> before x m) -> (forall y, y ∈ l3 -> before m y) ->
  normal (l1 ++ m :: l3).
Proof.
  rewrite !normal_app, normal_cons. intros (N1 & (N2 & N3 & H23) & H1) Hm Hl Hr.
  split_and!; try done.
  - by apply Forall_forall.
  - intros x y Hx [-> | Hy]%elem_of_cons; [by apply Hl |].
    apply before_trans with m; auto.
Qed.

(** The integers of a sorted array lie between its first and last interval. *)
Lemma smem_bounds f l e n :
  normal (f :: l) -> last (f :: l) = Some e -> smem n (f :: l) -> lo f <= n < hi e.
Proof.
  intros (Hf & Hb & Hl)%normal_cons. revert f Hf Hb.
  induction l as [| g l IH]; intros f Hf Hb He.
  - injection He as <-. intros [? | []%smem_nil]%smem_cons. unfold imem in *; lia.
  - apply normal_cons in Hl as (Hg & Hbg & Hl). apply Forall_cons in Hb as [Hfg Hb].
    specialize (IH Hl g Hg Hbg He). intros [Hn | Hn]%smem_cons.
    + assert (lo g <= hi e).
      { rewrite last_cons_cons in He. apply last_Some_elem_of in He.
        apply elem_of_cons in He as [-> | He]; [unfold iwf in *; lia |].
        rewrite Forall_forall in Hbg. specialize (Hbg e He).
        destruct Hl as [Hw _]. rewrite Forall_forall in Hw. specialize (Hw e He).
        unfold iwf, before in *; lia. }
      unfold imem, before, iwf in *; lia.
    + specialize (IH Hn). unfold before, iwf in *; lia.
Qed.

(** The integers of an interval array, listed. *)
Definition ints x : list Z := seqZ (lo x) (hi x - lo x).
Definition sints l : list Z := concat (map ints l).

Lemma elem_of_ints n x : n ∈ ints x <-> imem n x.
Proof. unfold ints, imem. rewrite elem_of_seqZ. lia. Qed.

Lemma elem_of_sints n l : n ∈ sints l <-> smem n l.
Proof.
  unfold sints, smem. induction l as [| x l IH]; simpl.
  - rewrite Exists_nil. set_solver.
  - rewrite elem_of_app, elem_of_ints, Exists_cons, IH. done.
Qed.

Lemma NoDup_sints l : normal l -> NoDup (sints l).
Proof.
  induction l as [| x l IH]; [constructor |].
  intros (Hx & Hb & Hl)%normal_cons. simpl. apply NoDup_app. split_and!; auto.
  - apply NoDup_seqZ.
  - intros n Hn%elem_of_ints Hm%elem_of_sints.
    apply Exists_exists in Hm as (y & Hy & Hm). rewrite Forall_forall in Hb.
    specialize (Hb y Hy). unfold before, imem in *. lia.
Qed.

Lemma zlen_sints l :
  Forall iwf l -> zlen (sints l) = fold_right Z.add 0 (map (fun x => hi x - lo x) l).
Proof.
  induction 1 as [| x l Hx Hl IH]; [done |].
  simpl. unfold sints in *; simpl. rewrite zlen_app, IH. f_equal.
  unfold ints, zlen. rewrite length_seqZ. unfold iwf in Hx. lia.
Qed.
End Intervals.

#[export] Hint Resolve normal_nil : s2core.
