(* ===== verification/OffsetRange.v ===== *)
(** * Offset ranges and sets of them

    [src/src/vs/editor/common/core/offsetRange.ts]: half-open ranges of 0-based
    offsets, and [OffsetRangeSet], an array of them kept sorted and apart.  The
    constructor throws on a reversed range, so every operation that builds one
    returns a [res]. *)

From S2P Require Import Prelude Intervals.

Module OffsetRange.

Record t : Type := mk { start : Z; endExclusive : Z }.

#[global] Instance t_eq_dec : EqDecision t.
Proof. solve_decision. Defined.

#[global] Instance interval : Interval t := {| lo := start; hi := endExclusive |}.

(** [constructor]: throws when [start > endExclusive] *)
Definition new (start endExclusive : Z) : res t :=
  if endExclusive <? start then Throw BugIndicatingError else Ret (mk start endExclusive).

(** [static addRange(range, sortedRanges)]: the array after the call *)
Definition addRange (range : t) (sortedRanges : list t) : res (list t) :=
  let i := js_scan (fun r => endExclusive r <? start range) sortedRanges in
  let j := Nat.add i (js_scan (fun r => start r <=? endExclusive range) (drop i sortedRanges)) in
  if (i =? j)%nat then Ret (js_splice sortedRanges (Z.of_nat i) 0 [range])
  else
    let* first := js_get (sortedRanges !! i) in
    let* last := js_get (sortedRanges !! (j - 1)%nat) in
    let start := Z.min (start range) (start first) in
    let end_ := Z.max (endExclusive range) (endExclusive last) in
    let* r := new start end_ in
    Ret (js_splice sortedRanges (Z.of_nat i) (Z.of_nat (j - i)) [r]).

(** [tryCreate]; [None] is [undefined] *)
Definition tryCreate (start endExclusive : Z) : res (option t) :=
  if endExclusive <? start then Ret None
  else let* r := new start endExclusive in Ret (Some r).

Definition ofLength (length : Z) : res t := new 0 length.

Definition isEmpty (this : t) : bool := start this === endExclusive this.

Definition delta (this : t) (offset : Z) : res t :=
  new (start this + offset) (endExclusive this + offset).

Definition deltaStart (this : t) (offset : Z) : res t :=
  new (start this + offset) (endExclusive this).

Definition deltaEnd (this : t) (offset : Z) : res t :=
  new (start this) (endExclusive this + offset).

Definition length (this : t) : Z := endExclusive this - start this.

Definition equals (this other : t) : bool :=
  (start this === start other) && (endExclusive this === endExclusive other).

Definition containsRange (this other : t) : bool :=
  (start this <=? start other) && (endExclusive other <=? endExclusive this).

Definition contains (this : t) (offset : Z) : bool :=
  (start this <=? offset) && (offset <? endExclusive this).

Definition join (this other : t) : res t :=
  new (Z.min (start this) (start other)) (Z.max (endExclusive this) (endExclusive other)).

(** [intersect]; [None] is [undefined] *)
Definition intersect (this other : t) : res (option t) :=
  let start := Z.max (start this) (start other) in
  let end_ := Z.min (endExclusive this) (endExclusive other) in
  if start <=? end_ then let* r := new start end_ in Ret (Some r)
  else Ret None.

Definition slice {A} (this : t) (arr : list A) : list A :=
  js_slice arr (start this) (endExclusive this).

Definition clip (this : t) (value : Z) : res Z :=
  if isEmpty this then Throw BugIndicatingError
  else Ret (Z.max (start this) (Z.min (endExclusive this - 1) value)).

Definition clipCyclic (this : t) (value : Z) : res Z :=
  if isEmpty this then Throw BugIndicatingError
  else if value <? start this
  then Ret (endExclusive this - js_rem (start this - value) (length this))
  else if endExclusive this <=? value
  then Ret (start this + js_rem (value - start this) (length this))
  else Ret value.

Lemma offsetRange_contains r n : contains r n = true <-> imem n r.
Proof. unfold contains, imem; simpl; lia. Qed.

Lemma offsetRange_new_wf s e : s <= e -> new s e = Ret (mk s e).
Proof. unfold new. intros. zsolve. Qed.

(** What the two scans of [addRange] cut a sorted array into: the ranges that
    end before [r], the ranges that touch or overlap [r], the ranges that
    start after [r]. *)
Lemma addRange_split r l :
  iwf r -> normal l ->
  exists l1 l2 l3, l = l1 ++ l2 ++ l3 /\
    List.length l1 = js_scan (fun x => endExclusive x <? start r) l /\
    List.length l2 = js_scan (fun x => start x <=? endExclusive r) (drop (List.length l1) l) /\
    (forall x, x ∈ l1 -> before x r) /\
    (forall x, x ∈ l2 -> start r <= endExclusive x /\ start x <= endExclusive r) /\
    (forall x, x ∈ l3 -> before r x).
Proof.
  intros Hr Hn.
  destruct (js_scan_spec (fun x => endExclusive x <? start r) l) as (l1 & k & -> & E1 & H1 & Hk).
  destruct (js_scan_spec (fun x => start x <=? endExclusive r) k) as (l2 & l3 & -> & E2 & H2 & H3).
  exists l1, l2, l3. rewrite drop_app_length. split_and!; try done.
  - intros x Hx. rewrite Forall_forall in H1. specialize (H1 x Hx). unfold before; simpl in *; lia.
  - apply normal_app in Hn as (_ & Hn & _). apply normal_app in Hn as (Hn2 & _ & _).
    intros x Hx. split.
    + destruct l2 as [| y l2]; [set_solver |].
      specialize (Hk y (l2 ++ l3) eq_refl). apply normal_cons in Hn2 as (Hy & Hb & Hn2).
      apply elem_of_cons in Hx as [-> | Hx]; [simpl in *; lia |].
      rewrite Forall_forall in Hb. specialize (Hb x Hx).
      destruct Hn2 as [Hw _]. rewrite Forall_forall in Hw. specialize (Hw x Hx).
      unfold before, iwf in *; simpl in *; lia.
    + rewrite Forall_forall in H2. specialize (H2 x Hx). simpl in *; lia.
  - intros x Hx. destruct l3 as [| y l3]; [set_solver |].
    specialize (H3 y l3 eq_refl).
    apply normal_app in Hn as (_ & Hn & _). apply normal_app in Hn as (_ & Hn & _).
    assert (endExclusive r < lo y) as Hy by (simpl in *; lia).
    pose proof (normal_tail_past y l3 _ Hn Hy) as Hp. rewrite Forall_forall in Hp.
    exact (Hp x Hx).
Qed.

(** [addRange] on an array cut that way. *)
Lemma addRange_eq r l1 l2 l3 :
  List.length l1 = js_scan (fun x => endExclusive x <? start r) (l1 ++ l2 ++ l3) ->
  List.length l2 = js_scan (fun x => start x <=? endExclusive r) (l2 ++ l3) ->
  addRange r (l1 ++ l2 ++ l3) =
  match head l2, last l2 with
  | Some f, Some e =>
      let* m := new (Z.min (start r) (start f)) (Z.max (endExclusive r) (endExclusive e)) in
      Ret (l1 ++ m :: l3)
  | _, _ => Ret (l1 ++ r :: l3)
  end.
Proof.
  intros E1 E2. unfold addRange. rewrite <- E1, drop_app_length, <- E2.
  assert (forall k m, js_splice (l1 ++ l2 ++ l3) (Z.of_nat (List.length l1)) k [m] =
    l1 ++ m :: zdrop (Z.min (Z.max k 0) (zlen (l2 ++ l3))) (l2 ++ l3)) as Hsp.
  { intros k m. unfold js_splice, js_index. zcase; [lia |].
    rewrite zlen_app. pose proof (zlen_nonneg (l2 ++ l3)).
    rewrite Z.min_l by (unfold zlen; lia).
    rewrite ztake_app_l, ztake_all by (unfold zlen; lia).
    rewrite zdrop_app_r by (unfold zlen; lia). simpl. do 3 f_equal. unfold zlen; lia. }
  destruct l2 as [| f l2].
  - simpl. rewrite Nat.add_0_r, Nat.eqb_refl. rewrite Hsp. simpl.
    rewrite Z.min_l by apply zlen_nonneg. done.
  - replace (_ =? _)%nat with false by (symmetry; apply Nat.eqb_neq; simpl; lia).
    rewrite (lookup_app_r l1 _ (List.length l1)), Nat.sub_diag by lia.
    replace (List.length l1 + List.length (f :: l2) - 1)%nat
      with (List.length l1 + (List.length (f :: l2) - 1))%nat by (simpl; lia).
    rewrite (lookup_app_r l1 _ (_ + _)%nat), Nat.add_sub' by lia.
    rewrite (lookup_app_l (f :: l2) l3 (_ - 1)%nat) by (simpl; lia).
    rewrite last_lookup. simpl head. simpl List.length. rewrite Nat.sub_1_r. simpl Nat.pred.
    destruct (lookup_lt_is_Some_2 (f :: l2) (List.length l2)) as [e He]; [simpl; lia |].
    rewrite He. simpl. destruct (new _ _) as [m |]; simpl; [| done].
    rewrite Hsp, Z.min_l by (unfold zlen; rewrite length_app; simpl; lia).
    do 2 f_equal. rewrite zdrop_app_r by (unfold zlen; simpl; lia).
    replace (_ - _) with 0 by (unfold zlen; simpl; lia). done.
Qed.

(** The static [addRange] computes the union. *)
Lemma addRange_union (r : t) (l : list t) (Hr : iwf r) (Hl : normal l) :
  exists l', addRange r l = Ret l' /\ normal l' /\
    (forall n, smem n l' <-> contains r n = true \/ smem n l).
Proof.
  destruct (addRange_split r l Hr Hl) as (l1 & l2 & l3 & -> & E1 & E2 & H1 & H2 & H3).
  rewrite drop_app_length in E2. rewrite addRange_eq by done.
  setoid_rewrite offsetRange_contains. destruct l2 as [| f l2].
  - simpl. eexists; split; [done |]. split.
    + by apply (normal_merge l1 [] l3).
    + intros n. rewrite !smem_app, smem_cons. pose proof (smem_nil n). naive_solver.
  - pose proof Hl as Hl'.
    apply normal_app in Hl' as (_ & Hl' & H12). apply normal_app in Hl' as (N2 & _ & H23).
    assert (exists e, last (f :: l2) = Some e) as [e He] by (apply last_is_Some; done).
    assert (e ∈ f :: l2) as Hee by (by apply last_Some_elem_of).
    assert (f ∈ f :: l2) as Hff by set_solver.
    cbn [hd_error]. rewrite He.
    pose proof (H2 f Hff) as Hf. pose proof (H2 e Hee) as Hle.
    rewrite offsetRange_new_wf by (unfold iwf in Hr; simpl in *; lia). cbn [res_bind].
    eexists; split; [done |]. split.
    + apply (normal_merge l1 (f :: l2) l3); [done | unfold iwf in *; simpl in *; lia | |].
      * intros x Hx. pose proof (H1 x Hx). pose proof (H12 x f Hx ltac:(set_solver)).
        unfold before in *; simpl in *; lia.
      * intros y Hy. pose proof (H3 y Hy). pose proof (H23 e y Hee Hy).
        unfold before in *; simpl in *; lia.
    + intros n. rewrite !smem_app, (smem_cons n (mk _ _) l3).
      pose proof (smem_bounds f l2 e n N2 He) as Hin. simpl in Hin.
      split.
      * intros [Hn | [Hn | Hn]]; [auto | | auto].
        unfold imem in Hn; simpl in Hn.
        destruct (decide (start r <= n < endExclusive r)) as [| Hnr]; [by left |].
        right; right; left. apply Exists_exists.
        destruct (decide (n < start r)); [exists f | exists e]; (split; [done |]);
          unfold imem; simpl; lia.
      * intros [Hn | [Hn | [Hn | Hn]]]; [right; left | auto | right; left | auto].
        -- unfold imem in *; simpl in *; lia.
        -- specialize (Hin Hn). unfold imem; simpl; lia.
Qed.

Lemma join_wf a b :
  iwf a -> iwf b ->
  join a b = Ret (mk (Z.min (start a) (start b)) (Z.max (endExclusive a) (endExclusive b))).
Proof. unfold iwf, join. simpl. intros. apply offsetRange_new_wf. lia. Qed.

Lemma intersect_spec a b :
  iwf a -> iwf b ->
  intersect a b =
    Ret (if Z.max (start a) (start b) <=? Z.min (endExclusive a) (endExclusive b)
         then Some (mk (Z.max (start a) (start b)) (Z.min (endExclusive a) (endExclusive b)))
         else None).
Proof. unfold intersect. intros. zcase; [| done]. rewrite offsetRange_new_wf by lia. done. Qed.

(** [join] and [intersect] on well-formed ranges never throw; [join] is the
    smallest range covering both, and [intersect] contains exactly the common
    offsets, is undefined exactly when the ranges do not even touch, and is
    empty when they only touch. *)
Lemma join_intersect_spec (a b : t) (Ha : iwf a) (Hb : iwf b) :
  (exists j, join a b = Ret j /\
     containsRange j a = true /\ containsRange j b = true /\
     (forall c, containsRange c a = true -> containsRange c b = true ->
                containsRange c j = true)) /\
  (exists o, intersect a b = Ret o /\
     (o = None <-> endExclusive a < start b \/ endExclusive b < start a) /\
     (forall i, o = Some i -> iwf i /\
        (forall n, contains i n = contains a n && contains b n) /\
        (endExclusive a = start b \/ endExclusive b = start a -> isEmpty i = true))).
Proof.
  rewrite join_wf, intersect_spec by done. unfold iwf in *; simpl in *. split.
  - eexists; split; [done |]. unfold containsRange; simpl. repeat split; intros; lia.
  - eexists; split; [done |]. split; [split; zcase; try done; lia |].
    intros i Hi. zcase; [| done]. injection Hi as <-. unfold contains, isEmpty; simpl.
    repeat split; intros; lia.
Qed.

(** Clipping into a non-empty range.  [clip] returns the contained offset
    closest to the value.  [clipCyclic] returns [value + k * length]; the
    result is contained in the range, as its comment promises, except when the
    value lies below the range by a multiple of the length: then it returns
    [endExclusive], which is outside. *)
Lemma clip_and_clipCyclic (r : t) (value : Z) (Hr : start r < endExclusive r) :
  (exists c, clip r value = Ret c /\ contains r c = true /\
     (forall m, contains r m = true -> Z.abs (c - value) <= Z.abs (m - value))) /\
  (exists c, clipCyclic r value = Ret c /\ (exists k, c = value + k * length r) /\
     (contains r c = false <->
        value < start r /\ (start r - value) mod length r = 0) /\
     (contains r c = false -> c = endExclusive r)).
Proof.
  unfold clip, clipCyclic, isEmpty, contains, length, js_rem.
  replace (start r === endExclusive r) with false by lia. split.
  - eexists; split; [done |]. split; intros; lia.
  - destruct (value <? start r) eqn:Hv; [| destruct (endExclusive r <=? value) eqn:Hw].
    + rewrite Z.rem_mod_nonneg by lia. eexists; split; [done |].
      pose proof (Z.div_mod (start r - value) (endExclusive r - start r)).
      pose proof (Z.mod_pos_bound (start r - value) (endExclusive r - start r)).
      split; [exists (1 + (start r - value) / (endExclusive r - start r)); lia |].
      split; [split |]; intros; lia.
    + rewrite Z.rem_mod_nonneg by lia. eexists; split; [done |].
      pose proof (Z.div_mod (value - start r) (endExclusive r - start r)).
      pose proof (Z.mod_pos_bound (value - start r) (endExclusive r - start r)).
      split; [exists (- ((value - start r) / (endExclusive r - start r))); lia |].
      split; [split |]; intros; lia.
    + eexists; split; [done |]. split; [exists 0; lia |]. split; [split |]; intros; lia.
Qed.

End OffsetRange.

Module OffsetRangeSet.

Record t : Type := mk { _sortedRanges : list OffsetRange.t }.

Definition empty : t := mk [].

(** [addRange(range)]: the set after the call *)
Definition addRange (this : t) (range : OffsetRange.t) : res t :=
  let l := _sortedRanges this in
  let i := js_scan (fun r => OffsetRange.endExclusive r <? OffsetRange.start range) l in
  let j := Nat.add i
    (js_scan (fun r => OffsetRange.start r <=? OffsetRange.endExclusive range) (drop i l)) in
  if (i =? j)%nat then Ret (mk (js_splice l (Z.of_nat i) 0 [range]))
  else
    let* first := js_get (l !! i) in
    let* last := js_get (l !! (j - 1)%nat) in
    let start := Z.min (OffsetRange.start range) (OffsetRange.start first) in
    let end_ := Z.max (OffsetRange.endExclusive range) (OffsetRange.endExclusive last) in
    let* r := OffsetRange.new start end_ in
    Ret (mk (js_splice l (Z.of_nat i) (Z.of_nat (j - i)) [r])).

Definition intersectsStrict (this : t) (other : OffsetRange.t) : bool :=
  let l := _sortedRanges this in
  let i := js_scan (fun r => OffsetRange.endExclusive r <=? OffsetRange.start other) l in
  match l !! i with
  | Some r => OffsetRange.start r <? OffsetRange.endExclusive other
  | None => false
  end.

(** [intersectWithRange]: the loop over [this._sortedRanges], the result set as
    an accumulator *)
Fixpoint intersectWithRange_loop (ranges : list OffsetRange.t) (other : OffsetRange.t)
  (result : t) : res t :=
  match ranges with
  | [] => Ret result
  | range :: ranges =>
      let* intersection := OffsetRange.intersect range other in
      match intersection with
      | Some intersection =>
          let* result := addRange result intersection in
          intersectWithRange_loop ranges other result
      | None => intersectWithRange_loop ranges other result
      end
  end.

Definition intersectWithRange (this : t) (other : OffsetRange.t) : res t :=
  intersectWithRange_loop (_sortedRanges this) other empty.

(** [get length()]: the [reduce] over the ranges *)
Definition length (this : t) : Z :=
  fold_left (fun prev cur => prev + OffsetRange.length cur) (_sortedRanges this) 0.

Definition intersectWithRangeLength (this : t) (other : OffsetRange.t) : res Z :=
  let* s := intersectWithRange this other in Ret (length s).

(** The invariant, and the offsets of a set. *)
Definition wf (s : t) : Prop := normal (_sortedRanges s).
Definition mem (n : Z) (s : t) : Prop := smem n (_sortedRanges s).

Lemma addRange_static s r :
  addRange s r = let* l := OffsetRange.addRange r (_sortedRanges s) in Ret (mk l).
Proof.
  unfold addRange, OffsetRange.addRange. zcase; [done |].
  repeat (destruct (js_get _); simpl; [| done]). destruct (OffsetRange.new _ _); done.
Qed.

Lemma set_addRange_spec s r :
  wf s -> iwf r ->
  exists s', addRange s r = Ret s' /\ wf s' /\
    (forall n, mem n s' <-> imem n r \/ mem n s).
Proof.
  intros Hs Hr. rewrite addRange_static.
  destruct (OffsetRange.addRange_union r (_sortedRanges s) Hr Hs) as (l & -> & Hn & Hm).
  simpl. exists (mk l). split; [done |]. split; [done |]. intros n.
  unfold mem; simpl. by rewrite Hm, OffsetRange.offsetRange_contains.
Qed.

Lemma intersectWithRange_loop_spec l other s :
  Forall iwf l -> iwf other -> wf s ->
  exists s', intersectWithRange_loop l other s = Ret s' /\ wf s' /\
    (forall n, mem n s' <-> (smem n l /\ imem n other) \/ mem n s).
Proof.
  intros Hl Ho. revert s. induction Hl as [| x l Hx Hl IH]; intros s Hs; simpl.
  - exists s. split_and!; try done. intros n. pose proof (smem_nil n). naive_solver.
  - rewrite OffsetRange.intersect_spec by done. simpl. zcase.
    + destruct (set_addRange_spec s (OffsetRange.mk
        (OffsetRange.start x `max` OffsetRange.start other)
        (OffsetRange.endExclusive x `min` OffsetRange.endExclusive other)))
        as (s1 & -> & Hs1 & Hm1); [done | unfold iwf; simpl; lia |].
      simpl. destruct (IH s1 Hs1) as (s' & -> & Hs' & Hm). exists s'. split_and!; try done.
      intros n. rewrite Hm, Hm1, smem_cons. unfold imem; simpl.
      assert (forall a b c d : Z, a `max` b <= n < c `min` d <-> a <= n < c /\ b <= n < d)
        as -> by (intros; lia). tauto.
    + destruct (IH s Hs) as (s' & -> & Hs' & Hm). exists s'. split_and!; try done.
      intros n. rewrite Hm, smem_cons. unfold imem; simpl. intuition lia.
Qed.

Lemma length_eq s : wf s -> length s = zlen (sints (_sortedRanges s)).
Proof.
  intros [Hw _]. rewrite zlen_sints by done. unfold length.
  assert (forall l a, fold_left (fun prev cur => prev + OffsetRange.length cur) l a =
    a + fold_right Z.add 0 (map (fun x => hi x - lo x) l)) as ->; [| lia].
  induction l as [| x l IH]; intros a; simpl; [lia |].
  rewrite IH. unfold OffsetRange.length. cbn. lia.
Qed.

(** [addRange] maintains a set of offsets: on a set whose array is sorted
    with a gap between consecutive ranges it does not throw, keeps the array
    sorted and separated, and the offsets the set then contains are exactly
    those it contained before together with those of the new range.  The
    static [OffsetRange.addRange] computes the same array. *)
Lemma addRange_adds (s : t) (r : OffsetRange.t) (Hs : wf s) (Hr : iwf r) :
  exists s', addRange s r = Ret s' /\ wf s' /\
    OffsetRange.addRange r (_sortedRanges s) = Ret (_sortedRanges s') /\
    (forall n, mem n s' <-> OffsetRange.contains r n = true \/ mem n s).
Proof.
  destruct (set_addRange_spec s r Hs Hr) as (s' & E & Hs' & Hm).
  exists s'. rewrite E. setoid_rewrite OffsetRange.offsetRange_contains. split_and!; try done.
  rewrite addRange_static in E. destruct (OffsetRange.addRange _ _); simpl in E; [| done].
  injection E as <-. done.
Qed.

(** [intersectsStrict] decides whether the set and a range share an offset,
    provided neither the range nor a range of the set is empty. *)
Lemma intersectsStrict_spec (s : t) (other : OffsetRange.t)
  (Hs : wf s) (Hne : Forall (fun r => OffsetRange.isEmpty r = false) (_sortedRanges s))
  (Ho : OffsetRange.start other < OffsetRange.endExclusive other) :
  intersectsStrict s other = true <->
  exists n, mem n s /\ OffsetRange.contains other n = true.
Proof.
  destruct s as [l]. unfold intersectsStrict, wf, mem in *; simpl in *.
  setoid_rewrite OffsetRange.offsetRange_contains.
  destruct (js_scan_spec (fun r => OffsetRange.endExclusive r <=? OffsetRange.start other) l)
    as (l1 & l2 & -> & E & H1 & H2). rewrite <- E, lookup_app_r, Nat.sub_diag by lia.
  assert (forall n, smem n l1 -> imem n other -> False) as Hno.
  { intros n (x & Hx & Hn)%Exists_exists Hi. rewrite Forall_forall in H1.
    specialize (H1 x Hx). unfold imem in *; simpl in *; lia. }
  destruct l2 as [| x l2]; simpl.
  - split; [done |]. intros (n & Hn & Hi). rewrite app_nil_r in Hn. by destruct (Hno n).
  - specialize (H2 x l2 eq_refl). apply Forall_app in Hne as [_ [Hx Hne]%Forall_cons].
    apply normal_app in Hs as (_ & Hn & _). pose proof (proj1 (normal_cons x l2) Hn) as (Hwx & Hb & _).
    unfold OffsetRange.isEmpty, iwf in *; simpl in *. split.
    + intros Hlt. exists (Z.max (OffsetRange.start x) (OffsetRange.start other)).
      rewrite smem_app, smem_cons. unfold imem; simpl. split; [right; left |]; lia.
    + intros (n & [Hin | Hin]%smem_app & Hi); [by destruct (Hno n) |].
      apply smem_cons in Hin as [Hin | (y & Hy & Hin)%Exists_exists].
      * unfold imem in *; simpl in *; lia.
      * rewrite Forall_forall in Hb. specialize (Hb y Hy).
        unfold imem, before in *; simpl in *; lia.
Qed.

(** [intersectWithRange] is set intersection and [intersectWithRangeLength]
    its cardinality: neither throws, the result is again sorted and separated,
    and the length reported is the number of distinct offsets the set shares
    with the range. *)
Lemma intersectWithRange_spec (s : t) (other : OffsetRange.t) (Hs : wf s) (Ho : iwf other) :
  exists s' ns, intersectWithRange s other = Ret s' /\ wf s' /\
    (forall n, mem n s' <-> mem n s /\ OffsetRange.contains other n = true) /\
    intersectWithRangeLength s other = Ret (zlen ns) /\ NoDup ns /\
    (forall n, n ∈ ns <-> mem n s /\ OffsetRange.contains other n = true).
Proof.
  destruct (intersectWithRange_loop_spec (_sortedRanges s) other empty)
    as (s' & E & Hs' & Hm); [apply Hs | done | apply normal_nil |].
  assert (forall n, mem n s' <-> mem n s /\ OffsetRange.contains other n = true) as Hm'.
  { intros n. rewrite Hm, OffsetRange.offsetRange_contains. pose proof (smem_nil (T:=OffsetRange.t) n).
    unfold mem in *; simpl in *. tauto. }
  exists s', (sints (_sortedRanges s')). unfold intersectWithRangeLength, intersectWithRange.
  rewrite E. simpl. rewrite length_eq by done. split_and!; try done.
  - by apply NoDup_sints.
  - intros n. rewrite elem_of_sints. apply Hm'.
Qed.

End OffsetRangeSet.
