(* ===== verification/LineRange.v ===== *)
(** * Line ranges

    [src/src/vs/editor/common/core/lineRange.ts]: half-open ranges of 1-based
    line numbers, and the merging of sorted arrays of them that the diff
    algorithms use.  The constructor throws on a reversed range. *)

From S2P Require Import Prelude Intervals Position Range OffsetRange.

Module LineRange.

Record t : Type := mk { startLineNumber : Z; endLineNumberExclusive : Z }.

#[global] Instance t_eq_dec : EqDecision t.
Proof. solve_decision. Defined.

#[global] Instance interval : Interval t :=
  {| lo := startLineNumber; hi := endLineNumberExclusive |}.

(** [constructor] *)
Definition new (startLineNumber endLineNumberExclusive : Z) : res t :=
  if endLineNumberExclusive <? startLineNumber then Throw BugIndicatingError
  else Ret (mk startLineNumber endLineNumberExclusive).

Definition fromRange (range : Range.t) : res t :=
  new (Range.startLineNumber range) (Range.endLineNumber range).

(** [subtract(a, b)]; [b] may be undefined *)
Definition subtract (a : t) (b : option t) : res (list t) :=
  match b with
  | None => Ret [a]
  | Some b =>
      if (startLineNumber a <? startLineNumber b)
         && (endLineNumberExclusive b <? endLineNumberExclusive a) then
        let* r1 := new (startLineNumber a) (startLineNumber b) in
        let* r2 := new (endLineNumberExclusive b) (endLineNumberExclusive a) in
        Ret [r1; r2]
      else if (startLineNumber b <=? startLineNumber a)
         && (endLineNumberExclusive a <=? endLineNumberExclusive b) then Ret []
      else if endLineNumberExclusive b <? endLineNumberExclusive a then
        let* r := new (Z.max (endLineNumberExclusive b) (startLineNumber a))
                      (endLineNumberExclusive a) in
        Ret [r]
      else
        let* r := new (startLineNumber a)
                      (Z.min (startLineNumber b) (endLineNumberExclusive a)) in
        Ret [r]
  end.

(** The body of the loop of [join] once [next] is chosen: the new [current]
    and the new [result]. *)
Definition joinStep (current : option t) (result : list t) (next : t)
  : res (option t * list t) :=
  match current with
  | None => Ret (Some next, result)
  | Some current =>
      if startLineNumber next <=? endLineNumberExclusive current then
        let* merged := new (startLineNumber current)
          (Z.max (endLineNumberExclusive current) (endLineNumberExclusive next)) in
        Ret (Some merged, result)
      else Ret (Some next, result ++ [current])
  end.

(** The loop of [join]; the lists are what [i1] and [i2] have not passed yet. *)
Fixpoint joinLoop (lineRanges1 : list t)
  : list t -> option t -> list t -> res (list t) :=
  fix loop2 (lineRanges2 : list t) (current : option t) (result : list t) : res (list t) :=
    match lineRanges1, lineRanges2 with
    | [], [] =>
        Ret (match current with Some current => result ++ [current] | None => result end)
    | next :: rest1, [] =>
        let* s := joinStep current result next in joinLoop rest1 [] (fst s) (snd s)
    | [], next :: rest2 =>
        let* s := joinStep current result next in loop2 rest2 (fst s) (snd s)
    | lineRange1 :: rest1, lineRange2 :: rest2 =>
        if startLineNumber lineRange1 <? startLineNumber lineRange2 then
          let* s := joinStep current result lineRange1 in
          joinLoop rest1 (lineRange2 :: rest2) (fst s) (snd s)
        else
          let* s := joinStep current result lineRange2 in loop2 rest2 (fst s) (snd s)
    end.

(** [static join] of two sorted arrays *)
Definition joinArrays (lineRanges1 lineRanges2 : list t) : res (list t) :=
  match lineRanges1, lineRanges2 with
  | [], _ => Ret lineRanges2
  | _, [] => Ret lineRanges1
  | _, _ => joinLoop lineRanges1 lineRanges2 None []
  end.

(** [joinMany]: the loop over the remaining arrays *)
Fixpoint joinMany_loop (result : list t) (lineRanges : list (list t)) : res (list t) :=
  match lineRanges with
  | [] => Ret result
  | l :: lineRanges => let* result := joinArrays result l in joinMany_loop result lineRanges
  end.

Definition joinMany (lineRanges : list (list t)) : res (list t) :=
  match lineRanges with
  | [] => Ret []
  | first :: rest => joinMany_loop first rest
  end.

Definition ofLength (startLineNumber length : Z) : res t :=
  new startLineNumber (startLineNumber + length).

(** [deserialize] and [serialize]: the pair [ISerializedLineRange] *)
Definition deserialize (lineRange : Z * Z) : res t := new (fst lineRange) (snd lineRange).
Definition serialize (this : t) : Z * Z := (startLineNumber this, endLineNumberExclusive this).

Definition contains (this : t) (lineNumber : Z) : bool :=
  (startLineNumber this <=? lineNumber) && (lineNumber <? endLineNumberExclusive this).

Definition isEmpty (this : t) : bool := startLineNumber this === endLineNumberExclusive this.

Definition delta (this : t) (offset : Z) : res t :=
  new (startLineNumber this + offset) (endLineNumberExclusive this + offset).

Definition deltaLength (this : t) (offset : Z) : res t :=
  new (startLineNumber this) (endLineNumberExclusive this + offset).

Definition length (this : t) : Z := endLineNumberExclusive this - startLineNumber this.

Definition join (this other : t) : res t :=
  new (Z.min (startLineNumber this) (startLineNumber other))
      (Z.max (endLineNumberExclusive this) (endLineNumberExclusive other)).

(** [intersect]; [None] is [undefined] *)
Definition intersect (this other : t) : res (option t) :=
  let startLineNumber := Z.max (startLineNumber this) (startLineNumber other) in
  let endLineNumberExclusive :=
    Z.min (endLineNumberExclusive this) (endLineNumberExclusive other) in
  if startLineNumber <=? endLineNumberExclusive then
    let* r := new startLineNumber endLineNumberExclusive in Ret (Some r)
  else Ret None.

Definition intersectsStrict (this other : t) : bool :=
  (startLineNumber this <? endLineNumberExclusive other) &&
  (startLineNumber other <? endLineNumberExclusive this).

Definition overlapOrTouch (this other : t) : bool :=
  (startLineNumber this <=? endLineNumberExclusive other) &&
  (startLineNumber other <=? endLineNumberExclusive this).

Definition equals (this b : t) : bool :=
  (startLineNumber this === startLineNumber b) &&
  (endLineNumberExclusive this === endLineNumberExclusive b).

(** [Number.MAX_SAFE_INTEGER] *)
Definition MAX_SAFE_INTEGER : Z := 2 ^ 53 - 1.

(** [toInclusiveRange]; [None] is [null] *)
Definition toInclusiveRange (this : t) : option Range.t :=
  if isEmpty this then None
  else Some (Range.new (startLineNumber this) 1 (endLineNumberExclusive this - 1) MAX_SAFE_INTEGER).

Definition toExclusiveRange (this : t) : Range.t :=
  Range.new (startLineNumber this) 1 (endLineNumberExclusive this) 1.

(** [mapToLineArray(f)]: one call per line, in order *)
Definition mapToLineArray {A} (this : t) (f : Z -> A) : list A :=
  map f (seqZ (startLineNumber this) (length this)).

Definition includes (this : t) (lineNumber : Z) : bool :=
  (startLineNumber this <=? lineNumber) && (lineNumber <? endLineNumberExclusive this).

Definition toOffsetRange (this : t) : res OffsetRange.t :=
  OffsetRange.new (startLineNumber this - 1) (endLineNumberExclusive this - 1).

Lemma lineRange_new_wf s e : s <= e -> new s e = Ret (mk s e).
Proof. unfold new. intros. zsolve. Qed.

Lemma lineRange_contains r n : contains r n = true <-> imem n r.
Proof. unfold contains, imem; simpl; lia. Qed.

Lemma joinLoop_eq l1 l2 current result :
  joinLoop l1 l2 current result =
  match l1, l2 with
  | [], [] => Ret (match current with Some current => result ++ [current] | None => result end)
  | next :: rest1, [] =>
      let* s := joinStep current result next in joinLoop rest1 [] (fst s) (snd s)
  | [], next :: rest2 =>
      let* s := joinStep current result next in joinLoop [] rest2 (fst s) (snd s)
  | lineRange1 :: rest1, lineRange2 :: rest2 =>
      if startLineNumber lineRange1 <? startLineNumber lineRange2 then
        let* s := joinStep current result lineRange1 in
        joinLoop rest1 (lineRange2 :: rest2) (fst s) (snd s)
      else
        let* s := joinStep current result lineRange2 in
        joinLoop (lineRange1 :: rest1) rest2 (fst s) (snd s)
  end.
Proof. destruct l1, l2; reflexivity. Qed.

Arguments joinLoop : simpl never.

(** What the loop has built so far: a separated array whose last element is
    [current], which no pending range starts before. *)
Definition joinInv (current : option t) (result pending : list t) : Prop :=
  match current with
  | None => result = []
  | Some c => normal (result ++ [c]) /\ Forall (fun x => startLineNumber c <= startLineNumber x) pending
  end.

Definition built (current : option t) (result : list t) : list t :=
  match current with Some c => result ++ [c] | None => result end.

Lemma joinStep_spec current result next pending :
  joinInv current result (next :: pending) -> iwf next ->
  Forall (fun x => startLineNumber next <= startLineNumber x) pending ->
  exists c r, joinStep current result next = Ret (Some c, r) /\
    joinInv (Some c) r pending /\
    (forall n, smem n (r ++ [c]) <-> imem n next \/ smem n (built current result)).
Proof.
  intros Hi Hn Hp. destruct current as [c |]; simpl in *.
  - destruct Hi as [Hnorm [Hcn Hc]%Forall_cons]. zcase.
    + rewrite lineRange_new_wf by (unfold iwf in *; simpl in *; lia). simpl.
      eexists _, result. split; [done |]. apply normal_app in Hnorm as (N1 & N2 & H12).
      apply normal_cons in N2 as (Hwc & _ & _). split; [split |].
      * apply normal_app; split_and!; [done | |].
        -- apply normal_cons; split_and!; [| constructor | apply normal_nil].
           unfold iwf in *; simpl in *; lia.
        -- intros x y Hx ->%list_elem_of_singleton. specialize (H12 x c Hx ltac:(set_solver)).
           unfold before in *; simpl in *; lia.
      * done.
      * intros n. rewrite !smem_app, !smem_cons.
        pose proof (smem_nil (T:=t) n). unfold imem, iwf in *; simpl in *. intuition lia.
    + eexists next, (result ++ [c]). split; [done |]. split; [split; [| done] |].
      * pose proof (proj1 (normal_app _ _) Hnorm) as (N1 & N2 & H12).
        apply normal_cons in N2 as (Hwc & _ & _).
        apply normal_app. split_and!; [done | |].
        -- apply normal_cons; split_and!; [done | constructor | apply normal_nil].
        -- intros x y Hx ->%list_elem_of_singleton.
           assert (before c next) by (unfold before; simpl in *; lia).
           apply elem_of_app in Hx as [Hx | ->%list_elem_of_singleton]; [| done].
           apply before_trans with c; [apply H12; set_solver | done | done].
      * intros n. rewrite !smem_app, !smem_cons.
        pose proof (smem_nil (T:=t) n). tauto.
  - subst result. exists next, []. split; [done |]. split; [split; [| done] |].
    + simpl. apply normal_cons; split_and!; [done | constructor | apply normal_nil].
    + intros n. simpl. rewrite smem_cons. done.
Qed.

Lemma normal_starts x l :
  normal (x :: l) -> Forall (fun y => startLineNumber x <= startLineNumber y) l.
Proof.
  intros (Hx & Hb & _)%normal_cons. eapply Forall_impl; [exact Hb |].
  unfold before, iwf in *; simpl in *; intros; lia.
Qed.

Lemma joinInv_perm c r p q : p ≡ₚ q -> joinInv c r p -> joinInv c r q.
Proof. intros Hpq. destruct c; simpl; [| done]. intros [? Hf]. split; [done |]. by rewrite <- Hpq. Qed.

Lemma joinLoop_spec n l1 l2 current result :
  (List.length l1 + List.length l2 <= n)%nat ->
  normal l1 -> normal l2 -> joinInv current result (l1 ++ l2) ->
  exists l, joinLoop l1 l2 current result = Ret l /\ normal l /\
    (forall k, smem k l <-> smem k l1 \/ smem k l2 \/ smem k (built current result)).
Proof.
  revert l1 l2 current result.
  induction n as [| n IH]; intros l1 l2 current result Hlen N1 N2 Hi; rewrite joinLoop_eq.
  - destruct l1, l2; simpl in Hlen; try lia.
    exists (built current result). split; [done |]. split.
    + destruct current; simpl in *; [apply Hi | subst; apply normal_nil].
    + intros k. pose proof (smem_nil (T:=t) k). tauto.
  - destruct l1 as [| x l1], l2 as [| y l2]; simpl in Hlen.
    + apply (IH [] [] current result); auto; simpl; lia.
    + simpl in Hi. pose proof (proj1 (normal_cons y l2) N2) as (Hy & _ & N2').
      destruct (joinStep_spec current result y l2 Hi Hy (normal_starts _ _ N2)) as (c & r & -> & Hc & Hm).
      simpl. destruct (IH [] l2 (Some c) r) as (l & -> & Hn & Hk); auto; [simpl; lia |].
      exists l. split_and!; try done. intros k. rewrite Hk, smem_cons. simpl. rewrite Hm. tauto.
    + rewrite app_nil_r in Hi. pose proof (proj1 (normal_cons x l1) N1) as (Hx & _ & N1').
      destruct (joinStep_spec current result x l1 Hi Hx (normal_starts _ _ N1)) as (c & r & -> & Hc & Hm).
      simpl. destruct (IH l1 [] (Some c) r) as (l & -> & Hn & Hk); auto;
        [simpl in *; lia | by rewrite app_nil_r |].
      exists l. split_and!; try done. intros k. rewrite Hk, smem_cons. simpl. rewrite Hm. tauto.
    + pose proof (proj1 (normal_cons x l1) N1) as (Hx & _ & N1').
      pose proof (proj1 (normal_cons y l2) N2) as (Hy & _ & N2').
      destruct (startLineNumber x <? startLineNumber y) eqn:Hxy.
      * destruct (joinStep_spec current result x (l1 ++ y :: l2)) as (c & r & -> & Hc & Hm);
          [done | done | |].
        { apply Forall_app; split; [by apply normal_starts |].
          constructor; [lia |]. eapply Forall_impl; [by apply normal_starts |]. simpl; intros; lia. }
        simpl. destruct (IH l1 (y :: l2) (Some c) r) as (l & -> & Hn & Hk); auto; [simpl in *; lia |].
        exists l. split_and!; try done. intros k. rewrite Hk, !smem_cons. simpl. rewrite Hm. tauto.
      * destruct (joinStep_spec current result y ((x :: l1) ++ l2)) as (c & r & -> & Hc & Hm);
          [| done | |].
        { eapply joinInv_perm; [| exact Hi]. simpl. rewrite <- Permutation_middle. apply perm_swap. }
        { apply Forall_app; split; [| by apply normal_starts].
          constructor; [lia |]. eapply Forall_impl; [by apply normal_starts |]. simpl; intros; lia. }
        simpl. destruct (IH (x :: l1) l2 (Some c) r) as (l & -> & Hn & Hk); auto; [simpl in *; lia |].
        exists l. split_and!; try done. intros k. rewrite Hk, !smem_cons. simpl. rewrite Hm. tauto.
Qed.

Lemma joinArrays_spec l1 l2 :
  normal l1 -> normal l2 ->
  exists l, joinArrays l1 l2 = Ret l /\ normal l /\
    (forall n, smem n l <-> smem n l1 \/ smem n l2).
Proof.
  intros N1 N2. destruct l1 as [| x l1]; [| destruct l2 as [| y l2]].
  - exists l2. split_and!; try done. intros n. pose proof (smem_nil (T:=t) n). tauto.
  - exists (x :: l1). split_and!; try done. intros n. pose proof (smem_nil (T:=t) n). tauto.
  - destruct (joinLoop_spec _ (x :: l1) (y :: l2) None [] ltac:(reflexivity) N1 N2 ltac:(done))
      as (l & E & Hn & Hm).
    exists l. split_and!; try done. intros n. rewrite Hm. simpl.
    pose proof (smem_nil (T:=t) n). tauto.
Qed.

Lemma joinMany_loop_spec ls result :
  normal result -> Forall normal ls ->
  exists l, joinMany_loop result ls = Ret l /\ normal l /\
    (forall n, smem n l <-> smem n result \/ Exists (smem n) ls).
Proof.
  intros Hr Hls. revert result Hr. induction Hls as [| l ls Hl Hls IH]; intros result Hr; simpl.
  - exists result. split_and!; try done. intros n. rewrite Exists_nil. tauto.
  - destruct (joinArrays_spec result l Hr Hl) as (r & -> & Hn & Hm). simpl.
    destruct (IH r Hn) as (k & -> & Hk & Hmk). exists k. split_and!; try done.
    intros n. rewrite Hmk, Hm, Exists_cons. tauto.
Qed.

(** Joining sorted arrays of line ranges terminates without throwing and is
    set union: from separated sorted arrays, [join] and [joinMany] return a
    separated sorted array that contains exactly the lines of the inputs. *)
Lemma joinMany_is_union (ls : list (list t)) (l1 l2 : list t)
  (Hls : Forall normal ls) (H1 : normal l1) (H2 : normal l2) :
  (exists l, joinArrays l1 l2 = Ret l /\ normal l /\
     (forall n, smem n l <-> smem n l1 \/ smem n l2)) /\
  (exists l, joinMany ls = Ret l /\ normal l /\
     (forall n, smem n l <-> Exists (smem n) ls)).
Proof.
  split; [by apply joinArrays_spec |].
  destruct ls as [| first rest].
  - exists []. split_and!; [done | apply normal_nil |]. intros n. rewrite Exists_nil.
    pose proof (smem_nil (T:=t) n). tauto.
  - apply Forall_cons in Hls as [Hf Hr].
    destruct (joinMany_loop_spec rest first Hf Hr) as (l & E & Hn & Hm).
    exists l. split_and!; try done. intros n. rewrite Hm, Exists_cons. done.
Qed.

(** [subtract] removes exactly the lines of the second range: it never
    throws on well-formed ranges, and its result is at most two well-formed
    ranges, in order, that contain exactly the lines of [a] not in [b]. *)
Lemma subtract_is_difference (a : t) (b : option t)
  (Ha : iwf a) (Hb : forall r, b = Some r -> iwf r) :
  exists l, subtract a b = Ret l /\ Forall iwf l /\
    (forall i x y, l !! i = Some x -> l !! S i = Some y ->
       endLineNumberExclusive x <= startLineNumber y) /\
    (forall n, smem n l <->
       contains a n = true /\ (forall r, b = Some r -> contains r n = false)).
Proof.
  destruct b as [b |]; simpl.
  - specialize (Hb b eq_refl). destruct a as [s e], b as [s' e'].
    unfold iwf in *; simpl in *. zcase; rewrite ?lineRange_new_wf by lia; simpl;
      (eexists; split; [done |]; split; [repeat constructor; unfold iwf; simpl; lia |];
       split; [intros [| [|]] ??; simpl; intros; simplify_eq; simpl; lia |];
       intros n; rewrite ?smem_cons; pose proof (smem_nil (T:=t) n); unfold imem, contains; simpl;
       split; [intros; split; [| intros ? [= <-]; simpl]; intuition lia
              | intros [? Hx]; specialize (Hx _ eq_refl); simpl in Hx; intuition lia]).
  - eexists; split; [done |]. split; [by repeat constructor |].
    split; [by intros [|] |]. intros n. rewrite smem_cons, lineRange_contains.
    pose proof (smem_nil (T:=t) n). naive_solver.
Qed.

(** The conversions of a line range preserve its lines: serialization round
    trips, the 0-based offset range contains [n - 1] exactly when the line
    range contains [n], the inclusive range is null exactly for an empty line
    range and otherwise contains every column from 1 to MAX_SAFE_INTEGER of
    exactly its lines, and [fromRange] of the exclusive range gives the line
    range back. *)
Lemma conversions_preserve_lines (r : t) (n c : Z)
  (Hr : iwf r) (Hc : 1 <= c <= MAX_SAFE_INTEGER) :
  deserialize (serialize r) = Ret r /\
  fromRange (toExclusiveRange r) = Ret r /\
  (exists o, toOffsetRange r = Ret o /\ OffsetRange.contains o (n - 1) = contains r n) /\
  (toInclusiveRange r = None <-> isEmpty r = true) /\
  (forall i, toInclusiveRange r = Some i ->
     Range.containsPosition i (Position.new n c) = contains r n) /\
  mapToLineArray r (fun l => l) = ints r.
Proof.
  destruct r as [s e]. unfold iwf in Hr; simpl in Hr.
  unfold deserialize, fromRange, toExclusiveRange, toOffsetRange, toInclusiveRange, isEmpty, contains.
  rewrite lineRange_new_wf by (simpl; lia). rewrite OffsetRange.offsetRange_new_wf by (simpl; lia).
  unfold Range.new, Range.containsPosition, MAX_SAFE_INTEGER in *; simpl in *. split_and!.
  - done.
  - zcase; rewrite lineRange_new_wf by (simpl; lia); simpl; f_equal; f_equal; lia.
  - eexists; split; [done |]. unfold OffsetRange.contains; simpl; lia.
  - zcase; done.
  - intros i Hi. zcase; try done; injection Hi as <-; simpl in *; zcase; lia.
  - unfold mapToLineArray. apply map_id.
Qed.

End LineRange.
