(* ===== verification/PrefixSum.v ===== *)
(** * Prefix sums of line heights

    [src/src/vs/editor/common/model/prefixSumComputer.ts] with the clamping
    helpers of [src/src/vs/base/common/uint.ts].  [PrefixSumComputer] keeps a
    [Uint32Array] of values and a lazily extended array of their prefix sums;
    [ConstantTimePrefixSumComputer] also keeps the inverse table. *)

From S2P Require Import Prelude.

Module Uint.

Definition MAX_UINT_8 : Z := 255.
Definition MAX_UINT_32 : Z := 4294967295.

Definition toUint8 (v : Z) : Z :=
  if v <? 0 then 0
  else if MAX_UINT_8 <? v then MAX_UINT_8
  else int32 v.

Definition toUint32 (v : Z) : Z :=
  if v <? 0 then 0
  else if MAX_UINT_32 <? v then MAX_UINT_32
  else int32 v.

Lemma toUint32_id v : 0 <= v < 2 ^ 31 -> toUint32 v = v.
Proof. intros. unfold toUint32, MAX_UINT_32. zcase; try lia. apply int32_id; unfold in_int32; lia. Qed.

(** The clamping helpers: [toUint8] always lands in 0..255; [toUint32] is
    the clamp to 0..2^32-1 outside the upper half of the unsigned range, but in
    that half, 2^31..2^32-1, its [v | 0] returns the negative number
    [v - 2^32]. *)
Lemma toUint_clamps (v : Z) :
  toUint8 v = Z.max 0 (Z.min v 255) /\
  (v < 2 ^ 31 \/ 2 ^ 32 <= v -> toUint32 v = Z.max 0 (Z.min v (2 ^ 32 - 1))) /\
  (2 ^ 31 <= v < 2 ^ 32 -> toUint32 v = v - 2 ^ 32 /\ toUint32 v < 0).
Proof.
  unfold toUint8, toUint32, MAX_UINT_8, MAX_UINT_32. zcase; repeat split; intros; try lia.
  all: unfold int32 in *; Z.to_euclidean_division_equations; lia.
Qed.

End Uint.

(** [class PrefixSumIndexOfResult] *)
Record PrefixSumIndexOfResult : Type := mkIndexOf { index : Z; remainder : Z }.

Module PrefixSumComputer.
Import Uint.

Record t : Type := mk {
  values : list Z;                 (** a [Uint32Array] *)
  prefixSum : list Z;              (** a [Uint32Array] of the same length *)
  prefixSumValidIndex : Z          (** element 0 of an [Int32Array] *) }.

(** [constructor(values)] *)
Definition new (values : list Z) : t := mk values (replicate (length values) 0) (-1).

Definition getCount (this : t) : Z := zlen (values this).

(** [insertValues]: the returned flag and the new state *)
Definition insertValues (this : t) (insertIndex : Z) (insertValues : list Z) : res (bool * t) :=
  let insertIndex := toUint32 insertIndex in
  let oldValues := values this in
  let oldPrefixSum := prefixSum this in
  let insertValuesLen := zlen insertValues in
  if insertValuesLen === 0 then Ret (false, this)
  else
    let values := replicate (Z.to_nat (zlen oldValues + insertValuesLen)) 0 in
    let* values := ta_set values (js_slice oldValues 0 insertIndex) 0 in
    let* values := ta_set values (js_slice oldValues insertIndex (zlen oldValues))
                     (insertIndex + insertValuesLen) in
    let* values := ta_set values insertValues insertIndex in
    let valid := if insertIndex - 1 <? prefixSumValidIndex this
                 then int32 (insertIndex - 1) else prefixSumValidIndex this in
    let prefixSum := replicate (length values) 0 in
    let* prefixSum :=
      if 0 <=? valid then ta_set prefixSum (js_slice oldPrefixSum 0 (valid + 1)) 0
      else Ret prefixSum in
    Ret (true, mk values prefixSum valid).

(** [setValue(index, value)] *)
Definition setValue (this : t) (index value : Z) : bool * t :=
  let index := toUint32 index in
  let value := toUint32 value in
  if bool_decide (znth (values this) index = Some value) then (false, this)
  else
    let values := ta_write uint32 (values this) index value in
    let valid := if index - 1 <? prefixSumValidIndex this
                 then int32 (index - 1) else prefixSumValidIndex this in
    (true, mk values (prefixSum this) valid).

(** [removeValues(startIndex, count)] *)
Definition removeValues (this : t) (startIndex count : Z) : res (bool * t) :=
  let startIndex := toUint32 startIndex in
  let count := toUint32 count in
  let oldValues := values this in
  let oldPrefixSum := prefixSum this in
  if zlen oldValues <=? startIndex then Ret (false, this)
  else
    let maxCount := zlen oldValues - startIndex in
    let count := if maxCount <=? count then maxCount else count in
    if count === 0 then Ret (false, this)
    else
      let values := replicate (Z.to_nat (zlen oldValues - count)) 0 in
      let* values := ta_set values (js_slice oldValues 0 startIndex) 0 in
      let* values := ta_set values (js_slice oldValues (startIndex + count) (zlen oldValues))
                       startIndex in
      let prefixSum := replicate (length values) 0 in
      let valid := if startIndex - 1 <? prefixSumValidIndex this
                   then int32 (startIndex - 1) else prefixSumValidIndex this in
      let* prefixSum :=
        if 0 <=? valid then ta_set prefixSum (js_slice oldPrefixSum 0 (valid + 1)) 0
        else Ret prefixSum in
      Ret (true, mk values prefixSum valid).

(** The loop [for (let i = startIndex; i <= index; i++)] of [_getPrefixSum]:
    [n] iterations from [i].  Both reads are in range in every run. *)
Fixpoint fillPrefixSum (values prefixSum : list Z) (i : Z) (n : nat) : list Z :=
  match n with
  | O => prefixSum
  | S n =>
      let sum := default 0 (znth prefixSum (i - 1)) + default 0 (znth values i) in
      fillPrefixSum values (ta_write uint32 prefixSum i sum) (i + 1) n
  end.

(** [_getPrefixSum(index)]; [None] is [undefined] *)
Definition _getPrefixSum (this : t) (index : Z) : option Z * t :=
  if index <=? prefixSumValidIndex this then (znth (prefixSum this) index, this)
  else
    let startIndex := prefixSumValidIndex this + 1 in
    let '(prefixSum, startIndex) :=
      if startIndex === 0
      then (ta_write uint32 (prefixSum this) 0 (default 0 (znth (values this) 0)), startIndex + 1)
      else (prefixSum this, startIndex) in
    let index := if zlen (values this) <=? index then zlen (values this) - 1 else index in
    let prefixSum := fillPrefixSum (values this) prefixSum startIndex
                       (Z.to_nat (index - startIndex + 1)) in
    let valid := int32 (Z.max (prefixSumValidIndex this) index) in
    (znth prefixSum index, mk (values this) prefixSum valid).

Definition getTotalSum (this : t) : option Z * t :=
  if zlen (values this) === 0 then (Some 0, this)
  else _getPrefixSum this (zlen (values this) - 1).

Definition getPrefixSum (this : t) (index : Z) : option Z * t :=
  if index <? 0 then (Some 0, this)
  else _getPrefixSum this (toUint32 index).

(** The binary search of [getIndexOf]: the final [mid] and [midStart] *)
Fixpoint indexOf_loop (fuel : nat) (values prefixSum : list Z) (sum low high mid midStart : Z)
  : res (Z * Z) :=
  if low <=? high then
    match fuel with
    | O => Throw OutOfFuel
    | S fuel =>
        let mid := int32 (low + (high - low) / 2) in
        let* midStop := js_get (znth prefixSum mid) in
        let* value := js_get (znth values mid) in
        let midStart := midStop - value in
        if sum <? midStart then indexOf_loop fuel values prefixSum sum low (mid - 1) mid midStart
        else if midStop <=? sum then
          indexOf_loop fuel values prefixSum sum (mid + 1) high mid midStart
        else Ret (mid, midStart)
    end
  else Ret (mid, midStart).

(** [getIndexOf(sum)] for an integer sum; one iteration per element is enough *)
Definition getIndexOf (this : t) (sum : Z) : res (PrefixSumIndexOfResult * t) :=
  let this := snd (getTotalSum this) in
  let* r := indexOf_loop (length (values this)) (values this) (prefixSum this)
              sum 0 (zlen (values this) - 1) 0 0 in
  Ret (mkIndexOf (fst r) (sum - snd r), this).

(** ** Invariant *)

(** The valid entries of [prefixSum] are the prefix sums, modulo 2^32. *)
Definition validUpTo (values prefixSum : list Z) (v : Z) : Prop :=
  forall i, 0 <= i <= v -> znth prefixSum i = Some (uint32 (prefix values (i + 1))).

Record wf (s : t) : Prop := {
  wf_values : Forall in_uint32 (values s);
  wf_small : zlen (values s) < 2 ^ 31;
  wf_length : zlen (prefixSum s) = zlen (values s);
  wf_valid : -1 <= prefixSumValidIndex s < zlen (values s) \/ prefixSumValidIndex s = -1;
  wf_sums : validUpTo (values s) (prefixSum s) (prefixSumValidIndex s) }.

Lemma psc_new_wf l : Forall in_uint32 l -> zlen l < 2 ^ 31 -> wf (new l).
Proof.
  intros. split; simpl; auto.
  - unfold zlen. by rewrite length_replicate.
  - intros i Hi. lia.
Qed.

Lemma uint32_add_l a b : uint32 (uint32 a + b) = uint32 (a + b).
Proof. apply Zplus_mod_idemp_l. Qed.

Lemma fillPrefixSum_spec vs n : forall ps i,
  zlen ps = zlen vs -> 1 <= i -> i + Z.of_nat n <= zlen vs -> validUpTo vs ps (i - 1) ->
  zlen (fillPrefixSum vs ps i n) = zlen vs /\
  validUpTo vs (fillPrefixSum vs ps i n) (i + Z.of_nat n - 1).
Proof.
  induction n as [| n IH]; intros ps i Hl Hi Hn Hv; simpl.
  - split; [done |]. intros j Hj. apply Hv. lia.
  - rewrite (Hv (i - 1)) by lia. replace (i - 1 + 1) with i by lia.
    destruct (znth_is_Some vs i) as [x Hx]; [lia |]. rewrite Hx. simpl.
    destruct (IH (ta_write uint32 ps i (uint32 (prefix vs i) + x)) (i + 1)) as [H1 H2];
      [by rewrite zlen_ta_write | lia | lia | |].
    + intros j Hj. destruct (decide (i = j)) as [<- |].
      * rewrite znth_ta_write_eq by lia. by rewrite uint32_add_l, (prefix_succ _ _ _ Hx).
      * rewrite znth_ta_write_ne by done. apply Hv. lia.
    + split; [done |]. intros j Hj. apply H2. lia.
Qed.

(** [_getPrefixSum] reads the sum and extends the valid part up to the index. *)
Lemma _getPrefixSum_spec s idx :
  wf s -> 0 < zlen (values s) -> 0 <= idx ->
  let last := Z.min idx (zlen (values s) - 1) in
  let r := _getPrefixSum s idx in
  fst r = Some (uint32 (prefix (values s) (last + 1))) /\
  wf (snd r) /\ values (snd r) = values s /\ last <= prefixSumValidIndex (snd r).
Proof.
  intros [Hv Hs Hl Hval Hsum] Hpos Hidx. simpl. unfold _getPrefixSum.
  destruct (idx <=? prefixSumValidIndex s) eqn:Hle.
  { simpl. rewrite Hsum by lia. rewrite Z.min_l by lia. split_and!; done || lia. }
  set (i := if zlen (values s) <=? idx then zlen (values s) - 1 else idx).
  assert (i = Z.min idx (zlen (values s) - 1)) as Hi by (subst i; zcase; lia).
  clearbody i. rewrite <- Hi.
  assert (exists ps st, (if prefixSumValidIndex s + 1 === 0
     then (ta_write uint32 (prefixSum s) 0 (default 0 (znth (values s) 0)),
           prefixSumValidIndex s + 1 + 1)
     else (prefixSum s, prefixSumValidIndex s + 1)) = (ps, st) /\
     zlen ps = zlen (values s) /\ 1 <= st <= i + 1 /\ validUpTo (values s) ps (st - 1) /\
     prefixSumValidIndex s <= st - 1) as (ps & st & -> & Hps & Hst & Hvu & Hge).
  { destruct (_ === _) eqn:E0; eexists _, _; (split; [done |]).
    - rewrite zlen_ta_write. split_and!; try lia. intros j Hj. replace j with 0 by lia.
      rewrite znth_ta_write_eq by lia. destruct (znth_is_Some (values s) 0) as [x Hx]; [lia |].
      rewrite Hx, (prefix_succ _ _ _ Hx), prefix_0. done.
    - split_and!; try lia. intros j Hj. apply Hsum. lia. }
  destruct (fillPrefixSum_spec (values s) (Z.to_nat (i - st + 1)) ps st) as [F1 F2]; [done | lia | lia | done |].
  rewrite int32_id by (unfold in_int32; lia). simpl. rewrite F2 by lia.
  split_and!; try done; try lia. split; simpl; try done; [lia |].
  intros j Hj. apply F2. lia.
Qed.

Lemma getTotalSum_spec s :
  wf s -> let r := getTotalSum s in
  fst r = Some (uint32 (zsum (values s))) /\ wf (snd r) /\ values (snd r) = values s /\
  (0 < zlen (values s) -> zlen (values s) - 1 <= prefixSumValidIndex (snd r)).
Proof.
  intros Hw. simpl. unfold getTotalSum. destruct (_ === 0) eqn:E.
  - simpl. split_and!; try done; [| lia]. rewrite (zlen_0 (values s)) by lia. done.
  - pose proof (zlen_nonneg (values s)).
    destruct (_getPrefixSum_spec s (zlen (values s) - 1)) as (H1 & H2 & H3 & H4); [done | lia | lia |].
    rewrite Z.min_id in *. rewrite prefix_all in H1 by lia. done.
Qed.

(** [getPrefixSum] and [getTotalSum] are correct whatever part of the cache
    is valid: on a well-formed computer they return the sum of the first
    [index + 1] values (all of them past the end) modulo 2^32, which is the
    sum itself when it fits 32 bits; the values do not change and the cache
    stays correct. *)
Lemma getPrefixSum_correct (s : t) (idx : Z) (Hs : wf s) (Hne : 0 < zlen (values s))
  (Hidx : idx < 2 ^ 31) :
  fst (getPrefixSum s idx) =
    Some (uint32 (prefix (values s) (Z.max 0 (Z.min (idx + 1) (zlen (values s)))))) /\
  wf (snd (getPrefixSum s idx)) /\ values (snd (getPrefixSum s idx)) = values s /\
  fst (getTotalSum s) = Some (uint32 (zsum (values s))) /\
  wf (snd (getTotalSum s)) /\ values (snd (getTotalSum s)) = values s /\
  (zsum (values s) < 2 ^ 32 -> fst (getTotalSum s) = Some (zsum (values s))).
Proof.
  destruct (getTotalSum_spec s Hs) as (T1 & T2 & T3 & _).
  assert (0 <= zsum (values s)).
  { apply zsum_nonneg. eapply Forall_impl; [apply Hs |]. unfold in_uint32; intros; lia. }
  unfold getPrefixSum. destruct (idx <? 0) eqn:E.
  - rewrite Z.max_l by lia. split_and!; try done.
    intros. rewrite T1. rewrite uint32_id by (unfold in_uint32; lia). done.
  - rewrite toUint32_id by lia.
    destruct (_getPrefixSum_spec s idx) as (H1 & H2 & H3 & _); try done; try lia.
    rewrite H1. split_and!; try done.
    + do 3 f_equal. lia.
    + intros. rewrite T1. rewrite uint32_id by (unfold in_uint32; lia). done.
Qed.

(** ** The mutators against the list they stand for *)

Definition spec_insert (l : list Z) (i : Z) (ins : list Z) : list Z := ztake i l ++ ins ++ zdrop i l.
Definition spec_remove (l : list Z) (i n : Z) : list Z := ztake i l ++ zdrop (i + n) l.

(** Keeping the first [v + 1] prefix sums in a fresh array, for a list of values
    that agrees with the old one on them. *)
Lemma keep_prefix vs vs' ps v :
  zlen ps = zlen vs -> validUpTo vs ps v -> -1 <= v -> v < zlen vs -> v < zlen vs' ->
  ztake (v + 1) vs' = ztake (v + 1) vs ->
  exists ps', (if 0 <=? v then ta_set (replicate (length vs') 0) (js_slice ps 0 (v + 1)) 0
               else Ret (replicate (length vs') 0)) = Ret ps' /\
    zlen ps' = zlen vs' /\ validUpTo vs' ps' v.
Proof.
  intros Hl Hv Hv1 Hv2 Hv3 Heq.
  assert (replicate (length vs') 0 = zeros (zlen vs')) as ->
    by (unfold zeros, zlen; f_equal; lia).
  destruct (0 <=? v) eqn:E.
  - rewrite js_slice_id by lia. rewrite zdrop_0, Z.sub_0_r.
    assert (zeros (zlen vs') = zeros (v + 1) ++ zeros (zlen vs' - (v + 1))) as ->
      by (rewrite <- zeros_add by lia; f_equal; lia).
    rewrite ta_set_head by (rewrite zlen_zeros, zlen_ztake; lia).
    eexists; split; [done |]. split.
    + simpl. rewrite zlen_app, zlen_ztake, zlen_zeros; lia.
    + intros i Hi. simpl. rewrite znth_app_l by (rewrite zlen_ztake; lia).
      rewrite znth_ztake by lia. rewrite Hv by lia. do 2 f_equal.
      unfold prefix. replace (ztake (i + 1) vs) with (ztake (i + 1) (ztake (v + 1) vs)).
      2: { unfold ztake. rewrite take_take. f_equal. lia. }
      rewrite <- Heq. f_equal. unfold ztake. rewrite take_take. f_equal. lia.
  - eexists; split; [done |]. split; [apply zlen_zeros, zlen_nonneg |]. intros i Hi. lia.
Qed.

(** A change at index [i] leaves valid only what lies below it. *)
Lemma clamp_valid i v :
  0 <= i < 2 ^ 31 -> -1 <= v ->
  exists v', (if i - 1 <? v then int32 (i - 1) else v) = v' /\ v' <= v /\ v' <= i - 1 /\ -1 <= v'.
Proof. intros. eexists; split; [done |]. zcase; rewrite ?int32_id by (unfold in_int32; lia); lia. Qed.

Lemma insertValues_spec s i ins :
  wf s -> Forall in_uint32 ins -> ins <> [] -> 0 <= i <= zlen (values s) ->
  zlen (values s) + zlen ins < 2 ^ 31 ->
  exists s', insertValues s i ins = Ret (true, s') /\ wf s' /\
    values s' = spec_insert (values s) i ins.
Proof.
  intros [Hv Hs Hl Hval Hsum] Hins Hne Hi Hsz. unfold insertValues.
  pose proof (zlen_nonneg ins). rewrite toUint32_id by lia.
  destruct (zlen ins === 0) eqn:E; [rewrite (zlen_0 ins) in Hne by lia; done |].
  rewrite !js_slice_id by lia. rewrite zdrop_0, Z.sub_0_r.
  rewrite (ztake_all (zlen (values s) - i)) by (rewrite zlen_zdrop; lia).
  change (replicate (Z.to_nat ?n) 0) with (zeros n).
  assert (zeros (zlen (values s) + zlen ins) =
    zeros i ++ (zeros (zlen ins) ++ zeros (zlen (values s) - i))) as ->
    by (rewrite <- !zeros_add by lia; f_equal; lia).
  rewrite ta_set_head by (rewrite zlen_zeros, zlen_ztake; lia).
  cbn [res_bind app].
  rewrite app_assoc, <- (app_nil_r (zeros (zlen (values s) - i))).
  rewrite (ta_set_mid (_ ++ zeros _)) by (rewrite ?zlen_app, ?zlen_zeros, ?zlen_zdrop, ?zlen_ztake; lia).
  cbn [res_bind]. rewrite app_nil_r, <- app_assoc.
  rewrite ta_set_mid by (rewrite ?zlen_ztake, ?zlen_zeros; lia). cbn [res_bind].
  destruct (clamp_valid i (prefixSumValidIndex s)) as (v & -> & V1 & V2 & V3); [lia | lia |].
  destruct (keep_prefix (values s) (ztake i (values s) ++ ins ++ zdrop i (values s)) (prefixSum s) v)
    as (ps & -> & Hps & Hvu); try done; try lia.
  { intros j Hj. apply Hsum. lia. }
  { rewrite !zlen_app, zlen_ztake, zlen_zdrop by lia. lia. }
  { rewrite ztake_app_l by (rewrite zlen_ztake; lia). unfold ztake. rewrite take_take. f_equal. lia. }
  eexists; split; [done |]. split; [| done]. split; simpl; try done.
  - rewrite !Forall_app. split_and!; [by apply Forall_take | done | by apply Forall_drop].
  - rewrite !zlen_app, zlen_ztake, zlen_zdrop by lia. lia.
  - left. rewrite !zlen_app, zlen_ztake, zlen_zdrop by lia. lia.
Qed.

Lemma removeValues_spec s i n :
  wf s -> 0 <= i < 2 ^ 31 -> 0 <= n < 2 ^ 31 ->
  exists s', removeValues s i n = Ret ((i <? zlen (values s)) && (0 <? n), s') /\ wf s' /\
    values s' = spec_remove (values s) i n.
Proof.
  intros Hw Hi Hn. pose proof Hw as [Hv Hs Hl Hval Hsum].
  unfold removeValues, spec_remove. rewrite !toUint32_id by lia.
  destruct (zlen (values s) <=? i) eqn:E.
  { exists s. replace (i <? zlen (values s)) with false by lia. split_and!; try done.
    rewrite ztake_all, zdrop_all, app_nil_r by lia. done. }
  replace (i <? zlen (values s)) with true by lia. rewrite andb_true_l.
  set (c := if zlen (values s) - i <=? n then zlen (values s) - i else n).
  assert (c = Z.min n (zlen (values s) - i)) as Hc by (subst c; zcase; lia). clearbody c.
  destruct (c === 0) eqn:E0.
  { exists s. replace (0 <? n) with false by lia. split_and!; try done.
    replace n with 0 by lia. rewrite Z.add_0_r. by rewrite ztake_zdrop. }
  replace (0 <? n) with true by lia.
  rewrite !js_slice_id by lia. rewrite zdrop_0, Z.sub_0_r.
  rewrite (ztake_all (zlen (values s) - (i + c))) by (rewrite zlen_zdrop; lia).
  change (replicate (Z.to_nat ?n) 0) with (zeros n).
  assert (zeros (zlen (values s) - c) = zeros i ++ zeros (zlen (values s) - (i + c))) as ->
    by (rewrite <- !zeros_add by lia; f_equal; lia).
  rewrite ta_set_head by (rewrite zlen_zeros, zlen_ztake; lia).
  cbn [res_bind app].
  rewrite <- (app_nil_r (zeros (zlen (values s) - (i + c)))).
  rewrite ta_set_mid by (rewrite ?zlen_ztake, ?zlen_zeros, ?zlen_zdrop; lia).
  cbn [res_bind]. rewrite app_nil_r.
  destruct (clamp_valid i (prefixSumValidIndex s)) as (v & -> & V1 & V2 & V3); [lia | lia |].
  assert (zdrop (i + c) (values s) = zdrop (i + n) (values s)) as Hd.
  { destruct (decide (c = n)) as [-> |]; [done |]. rewrite !zdrop_all by lia. done. }
  destruct (keep_prefix (values s) (ztake i (values s) ++ zdrop (i + c) (values s)) (prefixSum s) v)
    as (ps & -> & Hps & Hvu); try done; try lia.
  { intros j Hj. apply Hsum. lia. }
  { rewrite !zlen_app, zlen_ztake, zlen_zdrop by lia. lia. }
  { rewrite ztake_app_l by (rewrite zlen_ztake; lia). unfold ztake. rewrite take_take. f_equal. lia. }
  rewrite Hd in *.
  eexists; split; [done |]. split; [| done]. split; simpl; try done.
  - rewrite !Forall_app. split_and!; [by apply Forall_take | by apply Forall_drop].
  - rewrite <- Hd, !zlen_app, zlen_ztake, zlen_zdrop by lia. lia.
  - rewrite <- Hd, !zlen_app, zlen_ztake, zlen_zdrop by lia. lia.
Qed.

Lemma setValue_spec s i v :
  wf s -> 0 <= i < 2 ^ 31 -> 0 <= v < 2 ^ 31 ->
  let r := setValue s i v in
  fst r = negb (bool_decide (znth (values s) i = Some v)) /\ wf (snd r) /\
  values (snd r) = <[Z.to_nat i := v]> (values s).
Proof.
  intros Hw Hi Hv. pose proof Hw as [Hvs Hs Hl Hval Hsum]. simpl.
  unfold setValue. rewrite !toUint32_id by lia. case_bool_decide as E; simpl.
  - split_and!; try done. symmetry. apply list_insert_id.
    unfold znth in E. by rewrite (proj2 (Z.ltb_ge _ _)) in E by lia.
  - destruct (clamp_valid i (prefixSumValidIndex s)) as (v' & -> & V1 & V2 & V3); [lia | lia |].
    assert (ta_write uint32 (values s) i v = <[Z.to_nat i := v]> (values s)) as Hwr.
    { unfold ta_write. rewrite (proj2 (Z.ltb_ge _ _)) by lia. rewrite uint32_id; [done |].
      unfold in_uint32; lia. }
    rewrite <- Hwr. split_and!; try done. split; simpl; rewrite ?zlen_ta_write; try done; [| lia |].
    + rewrite Hwr. apply Forall_insert; [done |]. unfold in_uint32; lia.
    + intros j Hj. rewrite Hsum by lia. do 2 f_equal. unfold prefix, ztake.
      rewrite Hwr. by rewrite take_insert_ge by lia.
Qed.

Lemma insertValues_past_end s i ins :
  zlen ins <> 0 -> zlen (values s) < i < 2 ^ 31 -> insertValues s i ins = Throw RangeError.
Proof.
  intros Hne Hi. pose proof (zlen_nonneg ins). pose proof (zlen_nonneg (values s)).
  unfold insertValues. rewrite toUint32_id by lia. rewrite (proj2 (Z.eqb_neq _ _) Hne).
  assert (js_slice (values s) 0 i = values s) as ->.
  { unfold js_slice, js_index. zcase; try lia. rewrite (Z.min_l 0) by lia. rewrite zdrop_0.
    apply ztake_all. lia. }
  assert (js_slice (values s) i (zlen (values s)) = []) as ->.
  { unfold js_slice, js_index. zcase; try lia. rewrite (Z.min_r i), Z.min_id, Z.sub_diag by lia. done. }
  change (replicate (Z.to_nat ?n) 0) with (zeros n). rewrite zeros_add by lia.
  rewrite ta_set_head by (rewrite zlen_zeros; lia).
  cbn [res_bind app]. unfold ta_set. rewrite !zlen_app, zlen_zeros, !zlen_nil by lia.
  rewrite (proj2 (Z.ltb_lt _ _)) by lia. done.
Qed.

(** The mutators keep the cache honest: each of [insertValues],
    [removeValues] and [setValue] turns the array into the one the operation
    names (an insertion at the index, the removal of [count] elements, one
    element replaced), keeps every cached sum up to the valid index correct,
    and returns whether anything changed.  An insertion past the end throws a
    RangeError. *)
Lemma mutators_refine_list (s : t) (i n v : Z) (ins : list Z)
  (Hs : wf s) (Hi : 0 <= i < 2 ^ 31) (Hn : 0 <= n < 2 ^ 31) (Hv : 0 <= v < 2 ^ 31)
  (Hins : Forall in_uint32 ins) (Hsz : zlen (values s) + zlen ins < 2 ^ 31) :
  (if (zlen (values s) <? i) && negb (zlen ins === 0)
   then insertValues s i ins = Throw RangeError
   else exists s', insertValues s i ins = Ret (negb (zlen ins === 0), s') /\ wf s' /\
          values s' = spec_insert (values s) i ins) /\
  (exists s', removeValues s i n = Ret ((i <? zlen (values s)) && (0 <? n), s') /\ wf s' /\
     values s' = spec_remove (values s) i n) /\
  fst (setValue s i v) = negb (bool_decide (znth (values s) i = Some v)) /\
  wf (snd (setValue s i v)) /\
  values (snd (setValue s i v)) = <[Z.to_nat i := v]> (values s).
Proof.
  split; [| split; [by apply removeValues_spec | by apply setValue_spec]].
  destruct (zlen ins === 0) eqn:E; rewrite ?andb_false_r; simpl.
  - exists s. unfold insertValues. rewrite E. split_and!; try done.
    unfold spec_insert. rewrite (zlen_0 ins) by lia. simpl. by rewrite ztake_zdrop.
  - destruct (zlen (values s) <? i) eqn:E2; simpl.
    + apply insertValues_past_end; lia.
    + destruct (insertValues_spec s i ins) as (s' & H); try done; [| lia |].
      * intros ->. done.
      * eauto.
Qed.

(** ** The search *)

Lemma indexOf_loop_spec fuel vs ps sum low high mid0 start0 :
  zlen vs < 2 ^ 31 -> Forall (Z.le 0) vs ->
  (forall i, 0 <= i < zlen vs -> znth ps i = Some (prefix vs (i + 1))) ->
  0 <= low -> high < zlen vs -> prefix vs low <= sum < prefix vs (high + 1) ->
  (Z.to_nat (high - low + 1) <= fuel)%nat ->
  exists mid, indexOf_loop fuel vs ps sum low high mid0 start0 = Ret (mid, prefix vs mid) /\
    low <= mid <= high /\ prefix vs mid <= sum < prefix vs (mid + 1).
Proof.
  intros Hsz Hpos Hps. revert low high mid0 start0.
  induction fuel as [| fuel IH]; intros low high mid0 start0 Hlow Hhigh Hsum Hf.
  - assert (high + 1 <= low) by lia. destruct (decide (0 <= high + 1)).
    + pose proof (prefix_mono vs (high + 1) low Hpos). lia.
    + assert (prefix vs (high + 1) = 0).
      { unfold prefix, ztake. replace (Z.to_nat (high + 1)) with O by lia. done. }
      pose proof (prefix_mono vs 0 low Hpos). rewrite prefix_0 in *. lia.
  - assert (low <= high) as Hle.
    { destruct (decide (low <= high)); [done |].
      destruct (decide (0 <= high + 1)).
      - pose proof (prefix_mono vs (high + 1) low Hpos). lia.
      - assert (prefix vs (high + 1) = 0).
        { unfold prefix, ztake. replace (Z.to_nat (high + 1)) with O by lia. done. }
        pose proof (prefix_mono vs 0 low Hpos). rewrite prefix_0 in *. lia. }
    simpl. rewrite (proj2 (Z.leb_le _ _) Hle).
    assert (low <= low + (high - low) / 2 <= high) as Hm
      by (Z.to_euclidean_division_equations; lia).
    rewrite int32_id by (unfold in_int32; lia).
    set (m := low + (high - low) / 2) in *. clearbody m.
    rewrite Hps by lia. destruct (znth_is_Some vs m) as [x Hx]; [lia |]. rewrite Hx. simpl.
    pose proof (prefix_succ _ _ _ Hx) as Hsucc.
    replace (prefix vs (m + 1) - x) with (prefix vs m) by lia.
    destruct (sum <? prefix vs m) eqn:E1.
    + destruct (IH low (m - 1) m (prefix vs m)) as (r & E & H1 & H2); try lia.
      { replace (m - 1 + 1) with m by lia. lia. }
      exists r. rewrite E. repeat split; lia.
    + destruct (prefix vs (m + 1) <=? sum) eqn:E2.
      * destruct (IH (m + 1) high m (prefix vs m)) as (r & E & H1 & H2); try lia.
        exists r. rewrite E. repeat split; lia.
      * exists m. repeat split; lia.
Qed.

Lemma getIndexOf_spec (s : t) (sum : Z) (Hs : wf s)
  (Htot : zsum (values s) < 2 ^ 32) (Hsum : 0 <= sum < zsum (values s)) :
  exists r s', getIndexOf s sum = Ret (r, s') /\ wf s' /\ values s' = values s /\
    0 <= index r < zlen (values s) /\
    prefix (values s) (index r) <= sum < prefix (values s) (index r + 1) /\
    prefix (values s) (index r) + remainder r = sum.
Proof.
  destruct (getTotalSum_spec s Hs) as (_ & T2 & T3 & T4).
  assert (Forall (Z.le 0) (values s)) as Hpos.
  { eapply Forall_impl; [apply Hs |]. unfold in_uint32; simpl; intros; lia. }
  assert (0 < zlen (values s)) as Hlen.
  { pose proof (zlen_nonneg (values s)). destruct (decide (zlen (values s) = 0)) as [E |]; [| lia].
    apply zlen_0 in E. rewrite E in Hsum. simpl in Hsum. lia. }
  specialize (T4 Hlen). destruct T2 as [W1 W2 W3 W4 W5] eqn:EW. clear EW.
  unfold getIndexOf. set (s' := snd (getTotalSum s)) in *. clearbody s'. rewrite T3 in *.
  destruct (indexOf_loop_spec (length (values s)) (values s) (prefixSum s') sum 0
    (zlen (values s) - 1) 0 0) as (m & -> & Hm & Hb); try done; try lia.
  - intros i Hi. rewrite W5 by lia. rewrite uint32_id; [done |].
    pose proof (prefix_mono (values s) 0 (i + 1) Hpos).
    pose proof (prefix_mono (values s) (i + 1) (zlen (values s)) Hpos).
    rewrite prefix_0 in *. rewrite (prefix_all _ (zlen _)) in * by lia. unfold in_uint32. lia.
  - rewrite prefix_0, prefix_all by lia. lia.
  - unfold zlen. lia.
  - simpl. eexists _, s'. split; [done |]. simpl. split_and!; done || lia.
Qed.

(** [getIndexOf] inverts the prefix sums: for values whose total fits 32
    bits and a sum below the total, the search terminates and returns the
    index whose interval [prefix .. prefix + value) contains the sum, with the
    offset inside it, from any cache state. *)
Lemma getIndexOf_correct (s : t) (sum : Z) (Hs : wf s)
  (Htot : zsum (values s) < 2 ^ 32) (Hsum : 0 <= sum < zsum (values s)) :
  exists r s', getIndexOf s sum = Ret (r, s') /\ wf s' /\ values s' = values s /\
    0 <= index r < zlen (values s) /\
    prefix (values s) (index r) <= sum < prefix (values s) (index r + 1) /\
    prefix (values s) (index r) + remainder r = sum.
Proof. by apply getIndexOf_spec. Qed.

End PrefixSumComputer.

Module ConstantTimePrefixSumComputer.

Record t : Type := mk {
  _values : list Z;
  _isValid : bool;
  _validEndIndex : Z;
  _prefixSum : list Z;
  _indexBySum : list Z }.

Definition new (values : list Z) : t := mk values false (-1) [] [].

(** The inner loop [for (let j = 0; j < value; j++)]: [n] stores from [j] on *)
Fixpoint fillIndexBySum (indexBySum : list Z) (sumAbove i j : Z) (n : nat) : res (list Z) :=
  match n with
  | O => Ret indexBySum
  | S n =>
      let* indexBySum := js_store indexBySum (sumAbove + j) i in
      fillIndexBySum indexBySum sumAbove i (j + 1) n
  end.

(** The outer loop of [_ensureValid]: [n] iterations from [i] *)
Fixpoint ensureValid_loop (values prefixSum indexBySum : list Z) (i : Z) (n : nat)
  : res (list Z * list Z) :=
  match n with
  | O => Ret (prefixSum, indexBySum)
  | S n =>
      let* value := js_get (znth values i) in
      let* sumAbove := if 0 <? i then js_get (znth prefixSum (i - 1)) else Ret 0 in
      let* prefixSum := js_store prefixSum i (sumAbove + value) in
      let* indexBySum := fillIndexBySum indexBySum sumAbove i 0 (Z.to_nat value) in
      ensureValid_loop values prefixSum indexBySum (i + 1) n
  end.

(** [arr.length = n]; [None] is [undefined], an invalid array length *)
Definition setLength (l : list Z) (n : option Z) : res (list Z) :=
  match n with
  | None => Throw RangeError
  | Some n => if n <? 0 then Throw RangeError
              else if zlen l <? n then Throw SparseArray
              else Ret (ztake n l)
  end.

Definition _ensureValid (this : t) : res t :=
  if _isValid this then Ret this
  else
    let len := zlen (_values this) in
    let i := _validEndIndex this + 1 in
    let* arrays := ensureValid_loop (_values this) (_prefixSum this) (_indexBySum this) i
                     (Z.to_nat (len - i)) in
    let* prefixSum := setLength (fst arrays) (Some len) in
    let* indexBySum := setLength (snd arrays) (znth prefixSum (zlen prefixSum - 1)) in
    Ret (mk (_values this) true (len - 1) prefixSum indexBySum).

Definition _invalidate (this : t) (index : Z) : t :=
  mk (_values this) false (Z.min (_validEndIndex this) (index - 1))
     (_prefixSum this) (_indexBySum this).

Definition getTotalSum (this : t) : res (Z * t) :=
  let* this := _ensureValid this in Ret (zlen (_indexBySum this), this).

(** [getPrefixSum(count)]; [None] is [undefined] *)
Definition getPrefixSum (this : t) (count : Z) : res (option Z * t) :=
  let* this := _ensureValid this in
  if count === 0 then Ret (Some 0, this)
  else Ret (znth (_prefixSum this) (count - 1), this).

(** [getIndexOf(sum)]: the index may be undefined *)
Definition getIndexOf (this : t) (sum : Z) : res ((option Z * Z) * t) :=
  let* this := _ensureValid this in
  let idx := znth (_indexBySum this) sum in
  let* viewLinesAbove :=
    match idx with
    | Some idx => if 0 <? idx then js_get (znth (_prefixSum this) (idx - 1)) else Ret 0
    | None => Ret 0
    end in
  Ret ((idx, sum - viewLinesAbove), this).

Definition removeValues (this : t) (start deleteCount : Z) : t :=
  _invalidate (mk (js_splice (_values this) start deleteCount []) (_isValid this)
                  (_validEndIndex this) (_prefixSum this) (_indexBySum this)) start.

(** [arrayInsert] of [src/src/vs/base/common/arrays.ts] *)
Definition arrayInsert {A} (target : list A) (insertIndex : Z) (insertArr : list A) : list A :=
  let before := js_slice target 0 insertIndex in
  let after := js_slice target insertIndex (zlen target) in
  before ++ insertArr ++ after.

Definition insertValues (this : t) (insertIndex : Z) (insertArr : list Z) : t :=
  _invalidate (mk (arrayInsert (_values this) insertIndex insertArr) (_isValid this)
                  (_validEndIndex this) (_prefixSum this) (_indexBySum this)) insertIndex.

Definition setValue (this : t) (index value : Z) : res t :=
  if bool_decide (znth (_values this) index = Some value) then Ret this
  else
    let* values := js_store (_values this) index value in
    Ret (_invalidate (mk values (_isValid this) (_validEndIndex this)
                         (_prefixSum this) (_indexBySum this)) index).

(** ** Invariant *)

(** [i] is the element whose interval of sums contains [k]. *)
Definition holds (values : list Z) (k i : Z) : Prop :=
  0 <= i < zlen values /\ prefix values i <= k < prefix values (i + 1).

(** The tables are right for the elements up to index [v]. *)
Definition tablesUpTo (values ps ix : list Z) (v : Z) : Prop :=
  (forall i, 0 <= i <= v -> znth ps i = Some (prefix values (i + 1))) /\
  (forall k, 0 <= k < prefix values (v + 1) ->
     exists i, znth ix k = Some i /\ holds values k i).

Record wf (s : t) : Prop := {
  wf_values : Forall (Z.le 0) (_values s);
  wf_end : -1 <= _validEndIndex s < zlen (_values s);
  wf_tables : tablesUpTo (_values s) (_prefixSum s) (_indexBySum s) (_validEndIndex s);
  wf_valid : _isValid s = true ->
    _validEndIndex s = zlen (_values s) - 1 /\ _values s <> [] /\
    zlen (_prefixSum s) = zlen (_values s) /\ zlen (_indexBySum s) = zsum (_values s) }.

Lemma holds_unique vs k i j : Forall (Z.le 0) vs -> holds vs k i -> holds vs k j -> i = j.
Proof.
  intros Hp [Hi Hk] [Hj Hk']. destruct (Z.lt_trichotomy i j) as [| [|]]; [| done |].
  - pose proof (prefix_mono vs (i + 1) j Hp). lia.
  - pose proof (prefix_mono vs (j + 1) i Hp). lia.
Qed.

Lemma prefix_nonneg vs i : Forall (Z.le 0) vs -> 0 <= prefix vs i.
Proof. intros. unfold prefix. by apply zsum_nonneg, Forall_take. Qed.

Lemma js_store_spec {A} (l : list A) i v :
  0 <= i <= zlen l ->
  exists l', js_store l i v = Ret l' /\ znth l' i = Some v /\ zlen l' = Z.max (zlen l) (i + 1) /\
    (forall j, j <> i -> 0 <= j < zlen l -> znth l' j = znth l j).
Proof.
  intros Hi. unfold js_store. zcase; [lia | |].
  - eexists; split; [done |]. rewrite znth_app_r by lia. replace (i - zlen l) with 0 by lia.
    split; [done |]. autorewrite with s2len. split; [lia |]. intros. by rewrite znth_app_l by lia.
  - eexists; split; [done |]. unfold znth, zlen in *. rewrite length_insert.
    rewrite (proj2 (Z.ltb_ge i 0)) by lia. rewrite list_lookup_insert_eq by lia.
    split_and!; [done | lia |]. intros j ??. rewrite (proj2 (Z.ltb_ge j 0)) by lia.
    rewrite list_lookup_insert_ne by lia. done.
Qed.

Lemma fillIndexBySum_spec n : forall ix base i j,
  0 <= j -> 0 <= base -> base + j <= zlen ix ->
  exists ix', fillIndexBySum ix base i j n = Ret ix' /\
    base + j + Z.of_nat n <= zlen ix' /\ zlen ix <= zlen ix' /\
    (forall k, base + j <= k < base + j + Z.of_nat n -> znth ix' k = Some i) /\
    (forall k, 0 <= k < base + j -> znth ix' k = znth ix k).
Proof.
  induction n as [| n IH]; intros ix base i j Hj Hb Hl; simpl.
  - exists ix. split_and!; try done; lia.
  - destruct (js_store_spec ix (base + j) i) as (ix1 & -> & S1 & S2 & S3); [lia |]. simpl.
    destruct (IH ix1 base i (j + 1)) as (ix' & -> & H1 & H2 & H3 & H4); try lia.
    exists ix'. split_and!; try done; try lia.
    + intros k Hk. destruct (decide (k = base + j)) as [-> |].
      * rewrite H4 by lia. done.
      * apply H3. lia.
    + intros k Hk. rewrite H4 by lia. apply S3; lia.
Qed.

(** Reading the table lengths off their contents. *)
Lemma tables_lengths vs ps ix v :
  -1 <= v -> tablesUpTo vs ps ix v -> v + 1 <= zlen ps /\ prefix vs (v + 1) <= zlen ix.
Proof.
  intros Hv [H1 H2]. pose proof (zlen_nonneg ps). pose proof (zlen_nonneg ix). split.
  - destruct (decide (v = -1)); [lia |]. specialize (H1 v ltac:(lia)).
    apply znth_Some in H1. lia.
  - destruct (decide (prefix vs (v + 1) <= 0)); [lia |].
    destruct (H2 (prefix vs (v + 1) - 1)) as (i & Hi%znth_Some & _); lia.
Qed.

Lemma ensureValid_loop_spec vs n : forall ps ix i,
  Forall (Z.le 0) vs -> 0 <= i -> i + Z.of_nat n <= zlen vs -> tablesUpTo vs ps ix (i - 1) ->
  exists ps' ix', ensureValid_loop vs ps ix i n = Ret (ps', ix') /\
    tablesUpTo vs ps' ix' (i + Z.of_nat n - 1).
Proof.
  induction n as [| n IH]; intros ps ix i Hp Hi Hn Ht; simpl.
  - exists ps, ix. rewrite Z.add_0_r. done.
  - destruct (tables_lengths vs ps ix (i - 1)) as [L1 L2]; [lia | done |].
    replace (i - 1 + 1) with i in * by lia.
    destruct (znth_is_Some vs i) as [x Hx]; [lia |]. rewrite Hx. simpl.
    assert ((if 0 <? i then js_get (znth ps (i - 1)) else Ret 0) = Ret (prefix vs i)) as ->.
    { destruct (0 <? i) eqn:E.
      - rewrite (proj1 Ht) by lia. replace (i - 1 + 1) with i by lia. done.
      - replace i with 0 by lia. done. }
    simpl. pose proof (prefix_succ _ _ _ Hx) as Hsucc.
    assert (0 <= x) as Hx0.
    { unfold znth in Hx. rewrite (proj2 (Z.ltb_ge _ _)) in Hx by lia.
      by apply (Forall_lookup_1 _ _ _ _ Hp Hx). }
    destruct (js_store_spec ps i (prefix vs i + x)) as (ps1 & -> & S1 & S2 & S3); [lia |]. simpl.
    destruct (fillIndexBySum_spec (Z.to_nat x) ix (prefix vs i) i 0) as (ix1 & -> & F1 & F2 & F3 & F4);
      [lia | by apply prefix_nonneg | lia |]. simpl.
    destruct (IH ps1 ix1 (i + 1)) as (ps' & ix' & -> & H); [done | lia | lia | |].
    + replace (i + 1 - 1) with i by lia. split.
      * intros j Hj. destruct (decide (j = i)) as [-> |]; [rewrite S1; f_equal; lia |].
        rewrite S3 by lia. apply Ht. lia.
      * intros k Hk. destruct (decide (k < prefix vs i)).
        -- rewrite F4 by lia. apply (proj2 Ht). replace (i - 1 + 1) with i by lia. lia.
        -- exists i. split; [apply F3; lia |]. split; lia.
    + exists ps', ix'. split; [done |].
      replace (i + Z.of_nat (S n) - 1) with (i + 1 + Z.of_nat n - 1) by lia. done.
Qed.

Lemma tables_take vs ps ix ps' ix' v :
  (forall i, i <= v -> znth ps' i = znth ps i) ->
  (forall k, k < prefix vs (v + 1) -> znth ix' k = znth ix k) ->
  tablesUpTo vs ps ix v -> tablesUpTo vs ps' ix' v.
Proof.
  intros Hps Hix [H1 H2]. split.
  - intros i Hi. rewrite Hps by lia. auto.
  - intros k Hk. rewrite Hix by lia. auto.
Qed.

Lemma _ensureValid_spec s :
  wf s -> _values s <> [] ->
  exists s', _ensureValid s = Ret s' /\ wf s' /\ _isValid s' = true /\ _values s' = _values s.
Proof.
  intros Hw Hne. pose proof Hw as [Hp He Ht Hval]. unfold _ensureValid.
  destruct (_isValid s) eqn:E; [by exists s |].
  assert (0 < zlen (_values s)) as Hlen.
  { pose proof (zlen_nonneg (_values s)). destruct (decide (zlen (_values s) = 0)) as [E0 |]; [| lia].
    apply zlen_0 in E0. done. }
  destruct (ensureValid_loop_spec (_values s) (Z.to_nat (zlen (_values s) - (_validEndIndex s + 1)))
    (_prefixSum s) (_indexBySum s) (_validEndIndex s + 1)) as (ps & ix & -> & H); [done | lia | lia | |].
  { replace (_validEndIndex s + 1 - 1) with (_validEndIndex s) by lia. done. }
  replace (_ + _ - 1) with (zlen (_values s) - 1) in H by lia. simpl.
  destruct (tables_lengths (_values s) ps ix (zlen (_values s) - 1)) as [L1 L2]; [lia | done |].
  replace (zlen (_values s) - 1 + 1) with (zlen (_values s)) in * by lia.
  rewrite prefix_all in L2 by lia.
  pose proof (zsum_nonneg _ Hp).
  rewrite (proj2 (Z.ltb_ge _ 0)) by lia. rewrite (proj2 (Z.ltb_ge (zlen ps) _)) by lia. simpl.
  rewrite zlen_ztake by lia. rewrite znth_ztake by lia. rewrite (proj1 H) by lia.
  replace (zlen (_values s) - 1 + 1) with (zlen (_values s)) by lia.
  rewrite prefix_all by lia. unfold setLength.
  rewrite (proj2 (Z.ltb_ge _ 0)) by lia. rewrite (proj2 (Z.ltb_ge (zlen ix) _)) by lia. simpl.
  eexists; split; [done |]. split; [| done]. split; simpl; try done; try lia.
  - eapply tables_take; [| | exact H]; intros; apply znth_ztake; [lia |].
    replace (zlen (_values s) - 1 + 1) with (zlen (_values s)) in * by lia.
    rewrite prefix_all in * by lia. lia.
  - rewrite !zlen_ztake by lia. done.
Qed.

(** A change of the values at [index] keeps the tables right below it. *)
Lemma _invalidate_wf s vs index :
  wf s -> Forall (Z.le 0) vs -> 0 <= index ->
  let v := Z.min (_validEndIndex s) (index - 1) in
  v < zlen vs -> ztake (v + 1) vs = ztake (v + 1) (_values s) ->
  wf (_invalidate (mk vs (_isValid s) (_validEndIndex s) (_prefixSum s) (_indexBySum s)) index).
Proof.
  intros [Hp He [H1 H2] Hval] Hvs Hi v Hv Heq. unfold _invalidate; simpl. fold v.
  assert (forall i, i <= v + 1 -> prefix vs i = prefix (_values s) i) as Hpre.
  { intros i Hle. unfold prefix. f_equal.
    transitivity (ztake i (ztake (v + 1) vs)); [| rewrite Heq]; unfold ztake;
      rewrite take_take; f_equal; lia. }
  split; simpl; try done; [lia |]. split.
  - intros i Hiv. rewrite Hpre by lia. apply H1. lia.
  - intros k Hk. rewrite Hpre in Hk by lia.
    pose proof (prefix_mono (_values s) (v + 1) (_validEndIndex s + 1) Hp ltac:(lia)).
    destruct (H2 k) as (i & Hix & [Hi1 Hi2]); [lia |]. exists i. split; [done |].
    assert (i <= v).
    { destruct (decide (i <= v)); [done |]. pose proof (prefix_mono (_values s) (v + 1) i Hp). lia. }
    split; [lia |]. rewrite !Hpre by lia. done.
Qed.

Lemma ctpsc_new_wf l : Forall (Z.le 0) l -> wf (new l).
Proof.
  intros. split; simpl; try done.
  - pose proof (zlen_nonneg l). lia.
  - split; [intros; lia |]. intros k Hk. unfold prefix in Hk. simpl in Hk. lia.
Qed.

(** The constant-time computer's mutators keep its tables right: removing,
    inserting or replacing values in range changes the array as named and
    leaves every still-valid entry of both tables correct. *)
Lemma constant_time_mutators_keep_tables (s : t) (i n v : Z) (ins : list Z)
  (Hs : wf s) (Hi : 0 <= i < zlen (_values s)) (Hn : 0 <= n) (Hv : 0 <= v)
  (Hins : Forall (Z.le 0) ins) :
  (wf (removeValues s i n) /\
   _values (removeValues s i n) = PrefixSumComputer.spec_remove (_values s) i n) /\
  (wf (insertValues s i ins) /\
   _values (insertValues s i ins) = PrefixSumComputer.spec_insert (_values s) i ins) /\
  (exists s', setValue s i v = Ret s' /\ wf s' /\
     _values s' = <[Z.to_nat i := v]> (_values s)).
Proof.
  pose proof Hs as [Hp He _ _]. split_and!.
  - apply _invalidate_wf; try done; try lia.
    + unfold js_splice. rewrite !Forall_app. split_and!; [by apply Forall_take | constructor | by apply Forall_drop].
    + unfold js_splice, js_index. rewrite (proj2 (Z.ltb_ge i 0)), (Z.min_l i) by lia.
      rewrite zlen_app, zlen_ztake by lia. simpl. pose proof (zlen_nonneg (zdrop (i + (n `max` 0) `min` (zlen (_values s) - i)) (_values s))). lia.
    + unfold js_splice, js_index. rewrite (proj2 (Z.ltb_ge i 0)), (Z.min_l i) by lia.
      rewrite ztake_app_l by (rewrite zlen_ztake; lia). unfold ztake. rewrite take_take. f_equal. lia.
  - unfold removeValues, PrefixSumComputer.spec_remove, js_splice, js_index; simpl.
    rewrite (proj2 (Z.ltb_ge i 0)), (Z.min_l i) by lia. f_equal.
    destruct (decide (n <= zlen (_values s) - i)); [f_equal; lia |].
    rewrite !zdrop_all by lia. done.
  - assert (arrayInsert (_values s) i ins = PrefixSumComputer.spec_insert (_values s) i ins) as E.
    { unfold arrayInsert, PrefixSumComputer.spec_insert. rewrite !js_slice_id by lia.
      rewrite Z.sub_0_r, zdrop_0. rewrite (ztake_all (_ - i)) by (rewrite zlen_zdrop; lia). done. }
    unfold insertValues. rewrite E. apply _invalidate_wf; try done; try lia;
      unfold PrefixSumComputer.spec_insert.
    + rewrite !Forall_app. split_and!; [by apply Forall_take | done | by apply Forall_drop].
    + rewrite !zlen_app, zlen_ztake by lia.
      pose proof (zlen_nonneg ins). pose proof (zlen_nonneg (zdrop i (_values s))). lia.
    + rewrite ztake_app_l by (rewrite zlen_ztake; lia). unfold ztake. rewrite take_take. f_equal. lia.
  - unfold insertValues, arrayInsert, PrefixSumComputer.spec_insert; simpl.
    rewrite !js_slice_id by lia.
    rewrite Z.sub_0_r, zdrop_0. rewrite (ztake_all (_ - i)) by (rewrite zlen_zdrop; lia). done.
  - unfold setValue. case_bool_decide as E.
    + exists s. split_and!; try done. symmetry. apply list_insert_id.
      unfold znth in E. by rewrite (proj2 (Z.ltb_ge _ _)) in E by lia.
    + unfold js_store. rewrite (proj2 (Z.ltb_ge _ 0)), (proj2 (Z.ltb_ge (zlen _) _)) by lia.
      rewrite (proj2 (Z.eqb_neq _ _)) by lia. simpl. eexists; split; [done |]. split; [| done].
      apply _invalidate_wf; try done; try lia.
      * by apply Forall_insert.
      * unfold zlen in *. rewrite length_insert. lia.
      * unfold ztake. rewrite take_insert_ge by lia. done.
Qed.

Lemma ct_getIndexOf_spec s sum :
  wf s -> 0 <= sum < zsum (_values s) ->
  exists i s', getIndexOf s sum = Ret ((Some i, sum - prefix (_values s) i), s') /\
    wf s' /\ _values s' = _values s /\ holds (_values s) sum i.
Proof.
  intros Hw Hsum. assert (_values s <> []) as Hne by (intros E; rewrite E in Hsum; simpl in Hsum; lia).
  destruct (_ensureValid_spec s Hw Hne) as (s' & E & Hw' & Hv & Hvs).
  unfold getIndexOf. rewrite E. simpl. pose proof Hw' as [Hp He [H1 H2] Hval].
  destruct (Hval Hv) as (E1 & _ & _ & _). rewrite Hvs in E1, H1, H2. rewrite E1 in H1, H2.
  replace (zlen (_values s) - 1 + 1) with (zlen (_values s)) in H2 by lia.
  destruct (H2 sum) as (i & Hi & Hh); [rewrite prefix_all by lia; lia |].
  rewrite Hi. simpl. pose proof Hh as [Hr _].
  assert ((if 0 <? i then js_get (znth (_prefixSum s') (i - 1)) else Ret 0) =
    Ret (prefix (_values s) i)) as ->.
  { destruct (0 <? i) eqn:E0.
    - rewrite H1 by lia. simpl. do 2 f_equal. lia.
    - replace i with 0 by lia. done. }
  simpl. exists i, s'. done.
Qed.

(** C33: the constant-time computer is right and agrees with the logarithmic
    one: on well-formed computers over the same non-empty values whose total
    fits 32 bits, [getTotalSum] and [getPrefixSum] return the sums, and for
    every sum below the total both versions of [getIndexOf] return the same
    index and remainder. *)
Theorem constant_time_agrees (s : t) (p : PrefixSumComputer.t) (sum count : Z)
  (Hs : wf s) (Hp : PrefixSumComputer.wf p) (Hvals : PrefixSumComputer.values p = _values s)
  (Htot : zsum (_values s) < 2 ^ 32) (Hsum : 0 <= sum < zsum (_values s))
  (Hc : 0 <= count <= zlen (_values s)) :
  (exists s', getTotalSum s = Ret (zsum (_values s), s')) /\
  (exists s', getPrefixSum s count = Ret (Some (prefix (_values s) count), s')) /\
  (exists r s' p', getIndexOf s sum = Ret ((Some (index r), remainder r), s') /\
     PrefixSumComputer.getIndexOf p sum = Ret (r, p')).
Proof.
  assert (_values s <> []) as Hne by (intros E; rewrite E in Hsum; simpl in Hsum; lia).
  destruct (_ensureValid_spec s Hs Hne) as (s' & E & Hw' & Hv & Hvs).
  pose proof Hw' as [Hpos He [H1 H2] Hval]. destruct (Hval Hv) as (E1 & _ & _ & E3). split_and!.
  - exists s'. unfold getTotalSum. rewrite E. simpl. by rewrite E3, Hvs.
  - exists s'. unfold getPrefixSum. rewrite E. simpl. destruct (count === 0) eqn:E0.
    + replace count with 0 by lia. done.
    + rewrite H1, Hvs by (rewrite E1, Hvs; lia). do 3 f_equal. f_equal. lia.
  - destruct (ct_getIndexOf_spec s sum Hs Hsum) as (i & s1 & -> & _ & _ & Hh).
    rewrite <- Hvals in *.
    destruct (PrefixSumComputer.getIndexOf_spec p sum Hp Htot Hsum) as (r & p' & -> & _ & _ & R1 & R2 & R3).
    exists r, s1, p'. split; [| done]. rewrite Hvs in Hpos.
    rewrite (holds_unique _ sum i (index r) Hpos Hh) by done. do 3 f_equal. lia.
Qed.

Lemma constant_time_agrees_witness :
  getIndexOf (new [3; 0; 5]) 4 = Ret ((Some 2, 1), mk [3; 0; 5] true 2 [3; 3; 8] [0; 0; 0; 2; 2; 2; 2; 2]) /\
  exists s', getTotalSum (new [3; 0; 5]) = Ret (8, s').
Proof.
  split; [reflexivity |].
  destruct (constant_time_agrees (new [3; 0; 5]) (PrefixSumComputer.new [3; 0; 5]) 4 1) as [H _];
    [apply ctpsc_new_wf; repeat constructor; lia
    | apply PrefixSumComputer.psc_new_wf; [repeat constructor; unfold in_uint32; lia | vm_compute; done]
    | reflexivity | vm_compute; done | vm_compute; split; congruence
    | vm_compute; split; congruence | exact H].
Defined.

End ConstantTimePrefixSumComputer.
