(* ===== verification/Buffer.v ===== *)
(** * Byte buffers: the fixed-width readers and writers and the UTF-16 decoder

    [src/vs/base/common/buffer.ts] (the [readUInt*]/[writeUInt*] functions) and
    [decodeUTF16LE] of [src/vs/editor/common/core/stringBuilder.ts].  A
    [Uint8Array] is the list of its bytes; it starts at byte 0 of its
    [ArrayBuffer], as every array does that the callers allocate. *)

From S2P Require Import Prelude.

Module Buffer.

(** [value >>> n] *)
Definition shr (value n : Z) : Z := Z.shiftr (uint32 value) n.

(** [source[i] << n >>> 0]; an element out of range is [undefined], which the
    shift turns into 0. *)
Definition shl_byte (source : list Z) (i n : Z) : Z :=
  uint32 (Z.shiftl (default 0 (znth source i)) n).

Definition readUInt16LE (source : list Z) (offset : Z) : Z :=
  Z.lor (shl_byte source (offset + 0) 0) (shl_byte source (offset + 1) 8).

Definition writeUInt16LE (destination : list Z) (value offset : Z) : list Z :=
  let destination := ta_write uint8 destination (offset + 0) (Z.land value 255) in
  let value := shr value 8 in
  ta_write uint8 destination (offset + 1) (Z.land value 255).

(** [undefined * 2 ** 24] is NaN *)
Definition byte_at (source : list Z) (i : Z) : res Z :=
  match znth source i with Some v => Ret v | None => Throw NotANumber end.

Definition readUInt32BE (source : list Z) (offset : Z) : res Z :=
  let* b0 := byte_at source offset in
  let* b1 := byte_at source (offset + 1) in
  let* b2 := byte_at source (offset + 2) in
  let* b3 := byte_at source (offset + 3) in
  Ret (b0 * 2 ^ 24 + b1 * 2 ^ 16 + b2 * 2 ^ 8 + b3).

Definition writeUInt32BE (destination : list Z) (value offset : Z) : list Z :=
  let destination := ta_write uint8 destination (offset + 3) value in
  let value := shr value 8 in
  let destination := ta_write uint8 destination (offset + 2) value in
  let value := shr value 8 in
  let destination := ta_write uint8 destination (offset + 1) value in
  let value := shr value 8 in
  ta_write uint8 destination offset value.

Definition readUInt8 (source : list Z) (offset : Z) : res Z := byte_at source offset.

Definition writeUInt8 (destination : list Z) (value offset : Z) : list Z :=
  ta_write uint8 destination offset value.

(** ** The platform's UTF-16 decoder

    [new TextDecoder('UTF-16LE').decode(view)], as the Encoding Standard
    defines it on the 16-bit units of [view]: a leading byte order mark is
    dropped, a surrogate without its partner becomes U+FFFD. *)
Definition isHighSurrogate (u : Z) : bool := (55296 <=? u) && (u <=? 56319).
Definition isLowSurrogate (u : Z) : bool := (56320 <=? u) && (u <=? 57343).

Fixpoint utf16_decode (l : list Z) : jsstring :=
  match l with
  | [] => []
  | u :: l1 =>
      if isHighSurrogate u then
        match l1 with
        | [] => [65533]
        | v :: l2 => if isLowSurrogate v then u :: v :: utf16_decode l2
                     else 65533 :: utf16_decode l1
        end
      else if isLowSurrogate u then 65533 :: utf16_decode l1
      else u :: utf16_decode l1
  end.

Definition textDecoder_decode (view : list Z) : jsstring :=
  match view with
  | u :: l => if u === 65279 then utf16_decode l else utf16_decode view
  | [] => []
  end.

(** The [i]-th 16-bit units of a buffer from a byte offset on; [i = len]. *)
Fixpoint units_at (source : list Z) (offset : Z) (len : nat) : list Z :=
  match len with
  | O => []
  | S len => readUInt16LE source offset :: units_at source (offset + 2) len
  end.

(** [new Uint16Array(source.buffer, offset, len)] on a little-endian host *)
Definition new_Uint16Array (source : list Z) (offset len : Z) : res (list Z) :=
  if negb (Z.even offset) then Throw RangeError
  else if zlen source <? offset + 2 * len then Throw RangeError
  else Ret (units_at source offset (Z.to_nat len)).

Definition compatDecodeUTF16LE (source : list Z) (offset len : Z) : jsstring :=
  units_at source offset (Z.to_nat len).

Definition decodeUTF16LE (source : list Z) (offset len : Z) : res jsstring :=
  let* view := new_Uint16Array source offset len in
  match view with
  | u :: _ =>
      if (u === 65279) || (u === 65534) then Ret (compatDecodeUTF16LE source offset len)
      else Ret (textDecoder_decode view)
  | [] => Ret (textDecoder_decode view)
  end.

(** ** Encodings, as lists of bytes *)

Definition be32 (v : Z) : list Z :=
  [v / 2 ^ 24 mod 2 ^ 8; v / 2 ^ 16 mod 2 ^ 8; v / 2 ^ 8 mod 2 ^ 8; v mod 2 ^ 8].

Definition le16 (v : Z) : list Z := [v mod 2 ^ 8; v / 2 ^ 8 mod 2 ^ 8].

Definition is_unit (u : Z) : Prop := 0 <= u < 2 ^ 16.

(** A string whose surrogates come in pairs, as a boolean. *)
Fixpoint well_formed (l : jsstring) : bool :=
  match l with
  | [] => true
  | u :: l1 =>
      if isHighSurrogate u then
        match l1 with
        | [] => false
        | v :: l2 => isLowSurrogate v && well_formed l2
        end
      else negb (isLowSurrogate u) && well_formed l1
  end.

(** A string that [decodeUTF16LE] gives back unchanged: its surrogates are
    paired, or it starts with a byte order mark (the code's manual decoder). *)
Definition decodable (l : jsstring) : bool :=
  match l with
  | u :: _ => (u === 65279) || (u === 65534) || well_formed l
  | [] => true
  end.

Lemma uint8_land v : uint8 (Z.land v 255) = v mod 2 ^ 8.
Proof.
  unfold uint8. change 255 with (Z.ones 8). rewrite Z.land_ones by lia.
  apply Z.mod_mod. lia.
Qed.

Lemma shr_div v n : 0 <= n -> shr v n = (v mod 2 ^ 32) / 2 ^ n.
Proof. intros. unfold shr, uint32. by rewrite Z.shiftr_div_pow2. Qed.

Lemma writeUInt32BE_mid p x s v :
  zlen x = 4 -> in_uint32 v ->
  writeUInt32BE (p ++ x ++ s) v (zlen p) = p ++ be32 v ++ s.
Proof.
  intros Hx Hv. unfold writeUInt32BE, be32.
  assert (length x = 4)%nat as Hx' by (unfold zlen in Hx; lia).
  destruct x as [| a [| b [| c [| d [|]]]]]; try done. clear Hx Hx'.
  cbn [app]. rewrite !shr_div by lia.
  replace (p ++ a :: b :: c :: d :: s) with ((p ++ [a; b; c]) ++ d :: s) by by rewrite <- app_assoc.
  rewrite ta_write_mid by (autorewrite with s2len; lia). rewrite <- app_assoc; cbn [app].
  replace (p ++ a :: b :: c :: uint8 v :: s) with ((p ++ [a; b]) ++ c :: uint8 v :: s)
    by by rewrite <- app_assoc.
  rewrite ta_write_mid by (autorewrite with s2len; lia). rewrite <- app_assoc; cbn [app].
  match goal with |- context [p ++ a :: b :: ?t] =>
    replace (p ++ a :: b :: t) with ((p ++ [a]) ++ b :: t) by by rewrite <- app_assoc end.
  rewrite ta_write_mid by (autorewrite with s2len; lia). rewrite <- app_assoc; cbn [app].
  rewrite ta_write_mid by lia. f_equal. unfold uint8, in_uint32 in *.
  f_equal; [zmod |]. f_equal; [zmod |]. f_equal. zmod.
Qed.

Lemma byte_at_mid p x s i : i = zlen p -> byte_at (p ++ x :: s) i = Ret x.
Proof. intros. unfold byte_at. by rewrite znth_mid. Qed.

Lemma byte_at_skip p x s i : zlen p < i -> byte_at (p ++ x :: s) i = byte_at ((p ++ [x]) ++ s) i.
Proof. intros. by rewrite <- app_assoc. Qed.

Lemma readUInt32BE_mid p s v :
  in_uint32 v -> readUInt32BE (p ++ be32 v ++ s) (zlen p) = Ret v.
Proof.
  intros Hv. unfold readUInt32BE, be32. cbn [app].
  rewrite byte_at_mid by lia. cbn [res_bind].
  do 3 (repeat (rewrite byte_at_skip by (autorewrite with s2len; lia));
        rewrite byte_at_mid by (autorewrite with s2len; lia); cbn [res_bind]).
  f_equal. unfold in_uint32 in *. zmod.
Qed.

Lemma writeUInt16LE_mid p x s v :
  zlen x = 2 -> is_unit v ->
  writeUInt16LE (p ++ x ++ s) v (zlen p) = p ++ le16 v ++ s.
Proof.
  intros Hx Hv. unfold writeUInt16LE, le16.
  assert (length x = 2)%nat as Hx' by (unfold zlen in Hx; lia).
  destruct x as [| a [| b [|]]]; try done. clear Hx Hx'.
  cbn [app]. rewrite shr_div by lia.
  rewrite ta_write_mid, uint8_land by lia.
  match goal with |- context [p ++ ?a :: b :: ?t] =>
    replace (p ++ a :: b :: t) with ((p ++ [a]) ++ b :: t) by by rewrite <- app_assoc end.
  rewrite ta_write_mid by (autorewrite with s2len; lia). rewrite <- app_assoc; cbn [app].
  rewrite uint8_land. unfold is_unit in *. do 3 f_equal. zmod.
Qed.

(** The two halves of a 16-bit unit do not overlap. *)
Lemma lor_bytes a b : Z.lor (a mod 2 ^ 8) (b * 2 ^ 8) = a mod 2 ^ 8 + b * 2 ^ 8.
Proof.
  assert (Z.land (a mod 2 ^ 8) (b * 2 ^ 8) = 0) as H.
  { apply Z.bits_inj'. intros n Hn. rewrite Z.land_spec, Z.bits_0, <- Z.shiftl_mul_pow2 by lia.
    destruct (Z.ltb_spec n 8).
    - rewrite (Z.shiftl_spec_low b 8 n) by lia. apply andb_false_r.
    - by rewrite Z.mod_pow2_bits_high by lia. }
  by rewrite Z.add_nocarry_lxor, Z.lxor_lor.
Qed.

Lemma readUInt16LE_mid p s v :
  is_unit v -> readUInt16LE (p ++ le16 v ++ s) (zlen p) = v.
Proof.
  intros Hv. unfold readUInt16LE, shl_byte, le16, is_unit in *. cbn [app].
  rewrite znth_mid by lia.
  match goal with |- context [znth (p ++ ?a :: ?t) (zlen p + 1)] =>
    replace (p ++ a :: t) with ((p ++ [a]) ++ t) by by rewrite <- app_assoc end.
  rewrite znth_mid by (autorewrite with s2len; lia). cbn [default from_option].
  rewrite Z.shiftl_0_r, Z.shiftl_mul_pow2 by lia.
  unfold id. rewrite !uint32_id by zmod.
  rewrite lor_bytes. zmod.
Qed.

(** ** Strings *)

Definition utf16le (l : jsstring) : list Z := mjoin (le16 <$> l).

Lemma zlen_utf16le l : zlen (utf16le l) = 2 * zlen l.
Proof.
  induction l as [| u l IH]; [done |].
  change (utf16le (u :: l)) with (le16 u ++ utf16le l). autorewrite with s2len. rewrite IH.
  unfold le16. autorewrite with s2len. lia.
Qed.

Lemma units_at_mid l p s :
  Forall is_unit l -> units_at (p ++ utf16le l ++ s) (zlen p) (length l) = l.
Proof.
  intros Hl. revert p. induction Hl as [| u l Hu Hl IH]; intros p; [done |].
  cbn [units_at length]. change (utf16le (u :: l)) with (le16 u ++ utf16le l).
  rewrite <- app_assoc. rewrite readUInt16LE_mid by done. f_equal.
  rewrite app_assoc.
  replace (zlen p + 2) with (zlen (p ++ le16 u)) by by autorewrite with s2len.
  apply IH.
Qed.

Lemma utf16_decode_well_formed l : well_formed l = true -> utf16_decode l = l.
Proof.
  remember (length l) as n eqn:Hn. revert l Hn.
  induction n as [n IH] using lt_wf_ind. intros [| u l1] -> H; [done |]. cbn in *.
  destruct (isHighSurrogate u).
  - destruct l1 as [| v l2]; [done |]. apply andb_true_iff in H as [-> H].
    do 2 f_equal. eapply IH; [| done | done]. cbn. lia.
  - apply andb_true_iff in H as [Hu H]. destruct (isLowSurrogate u); [done |].
    f_equal. eapply IH; [| done | done]. lia.
Qed.

(** Decoding the encoding of a string at an even offset. *)
Lemma decodeUTF16LE_mid l p s :
  Forall is_unit l -> decodable l = true -> Z.even (zlen p) = true ->
  decodeUTF16LE (p ++ utf16le l ++ s) (zlen p) (zlen l) = Ret l.
Proof.
  intros Hl Hd Hp. unfold decodeUTF16LE, new_Uint16Array, compatDecodeUTF16LE.
  rewrite Hp. cbn [negb]. autorewrite with s2len. rewrite zlen_utf16le.
  pose proof (zlen_nonneg s). rewrite (proj2 (Z.ltb_ge _ _)) by lia. cbn [res_bind].
  replace (Z.to_nat (zlen l)) with (length l) by (unfold zlen; lia).
  rewrite units_at_mid by done.
  unfold textDecoder_decode.
  destruct l as [| u l]; [done |]. cbn [decodable] in Hd.
  destruct (u === 65279); [done |]. destruct (u === 65534); [done |]. cbn [orb] in *.
  by rewrite utf16_decode_well_formed.
Qed.

(** ** Writers

    A writer stores at an offset and returns the offset after it; it writes
    [bs] when it replaces exactly that range by [bs]. *)
Definition writer : Type := list Z -> Z -> list Z * Z.

Definition writes (w : writer) (bs : list Z) : Prop := forall p x s,
  zlen x = zlen bs -> w (p ++ x ++ s) (zlen p) = (p ++ bs ++ s, zlen p + zlen bs).

Definition wseq (w1 w2 : writer) : writer := fun b offset =>
  let '(b, offset) := w1 b offset in w2 b offset.

Definition write32 (v : Z) : writer := fun b offset => (writeUInt32BE b v offset, offset + 4).
Definition write8 (v : Z) : writer := fun b offset => (writeUInt8 b v offset, offset + 1).

Lemma writes_seq w1 w2 b1 b2 : writes w1 b1 -> writes w2 b2 -> writes (wseq w1 w2) (b1 ++ b2).
Proof.
  intros H1 H2 p x s Hx. rewrite zlen_app in Hx. unfold wseq.
  pose proof (zlen_nonneg b1). pose proof (zlen_nonneg b2).
  rewrite <- (ztake_zdrop (zlen b1) x), <- app_assoc, H1 by (rewrite zlen_ztake; lia).
  rewrite app_assoc, <- zlen_app, H2 by (rewrite zlen_zdrop; lia).
  by rewrite !zlen_app, <- !app_assoc, Z.add_assoc.
Qed.

Lemma writes_id : writes (fun b offset => (b, offset)) [].
Proof. intros p x s ->%zlen_0. by rewrite zlen_nil, Z.add_0_r. Qed.

Lemma writes_32 v : in_uint32 v -> writes (write32 v) (be32 v).
Proof. intros Hv p x s Hx. unfold write32. by rewrite writeUInt32BE_mid. Qed.

Lemma writes_8 v : 0 <= v < 2 ^ 8 -> writes (write8 v) [v].
Proof.
  intros Hv p x s Hx. unfold write8, writeUInt8.
  assert (length x = 1)%nat as Hl by (unfold zlen in Hx; cbn in Hx; lia).
  destruct x as [| a [|]]; try done. cbn [app]. rewrite ta_write_mid by done.
  unfold uint8. rewrite Z.mod_small by done. done.
Qed.

(** A loop that writes each element of a list. *)
Lemma writes_loop {A} (w : A -> writer) (f : A -> list Z) (l : list A) :
  Forall (fun a => writes (w a) (f a)) l ->
  writes (foldr (fun a k => wseq (w a) k) (fun b offset => (b, offset)) l) (mjoin (f <$> l)).
Proof. induction 1; cbn; [apply writes_id |]. by apply writes_seq. Qed.

(** ** Reads at a known place *)

Lemma readUInt32BE_at buf off v p s :
  buf = p ++ be32 v ++ s -> off = zlen p -> in_uint32 v -> readUInt32BE buf off = Ret v.
Proof. intros -> -> ?. by apply readUInt32BE_mid. Qed.

Lemma readUInt8_at buf off v p s :
  buf = p ++ v :: s -> off = zlen p -> readUInt8 buf off = Ret v.
Proof. intros -> ->. by apply byte_at_mid. Qed.

Lemma zlen_be32 v : zlen (be32 v) = 4.
Proof. done. Qed.

End Buffer.
