(* ===== verification/TextChange.v ===== *)
(** * Text changes: serialization and compression

    [src/vs/editor/common/core/textChange.ts].  A [TextChange] says that the
    text [oldText] at [oldPosition] of the old document became [newText] at
    [newPosition] of the new one.  The undo stack keeps one list of changes per
    element, stored as bytes, and composes it with each further list. *)

From S2P Require Import Prelude Buffer.
Import Buffer.

Module TextChange.

Record t := mk {
  oldPosition : Z;
  oldText : jsstring;
  newPosition : Z;
  newText : jsstring
}.

#[global] Instance text_change_eq_dec : EqDecision t.
Proof. solve_decision. Defined.

Definition oldLength (c : t) : Z := zlen (oldText c).
Definition oldEnd (c : t) : Z := oldPosition c + zlen (oldText c).
Definition newLength (c : t) : Z := zlen (newText c).
Definition newEnd (c : t) : Z := newPosition c + zlen (newText c).

(** ** Serialization *)

Definition _writeStringSize (str : jsstring) : Z := 4 + 2 * zlen str.

(** the loop of [_writeString] over the code units *)
Fixpoint writeUnits (b : list Z) (str : jsstring) (offset : Z) : list Z * Z :=
  match str with
  | [] => (b, offset)
  | u :: str => writeUnits (writeUInt16LE b u offset) str (offset + 2)
  end.

Definition _writeString (b : list Z) (str : jsstring) (offset : Z) : list Z * Z :=
  let len := zlen str in
  let b := writeUInt32BE b len offset in
  let offset := offset + 4 in
  writeUnits b str offset.

Definition _readString (b : list Z) (offset : Z) : res jsstring :=
  let* len := readUInt32BE b offset in
  let offset := offset + 4 in
  decodeUTF16LE b offset len.

Definition writeSize (c : t) : Z :=
  4 + 4 + _writeStringSize (oldText c) + _writeStringSize (newText c).

Definition write (c : t) (b : list Z) (offset : Z) : list Z * Z :=
  let b := writeUInt32BE b (oldPosition c) offset in
  let offset := offset + 4 in
  let b := writeUInt32BE b (newPosition c) offset in
  let offset := offset + 4 in
  let '(b, offset) := _writeString b (oldText c) offset in
  let '(b, offset) := _writeString b (newText c) offset in
  (b, offset).

(** The array [dest] that the change is pushed to, and the new offset. *)
Definition read (b : list Z) (offset : Z) (dest : list t) : res (list t * Z) :=
  let* oldPosition := readUInt32BE b offset in
  let offset := offset + 4 in
  let* newPosition := readUInt32BE b offset in
  let offset := offset + 4 in
  let* oldText := _readString b offset in
  let offset := offset + _writeStringSize oldText in
  let* newText := _readString b offset in
  let offset := offset + _writeStringSize newText in
  Ret (dest ++ [mk oldPosition oldText newPosition newText], offset).

(** *** The bytes of a change *)

Definition string_bytes (s : jsstring) : list Z := be32 (zlen s) ++ utf16le s.

Definition bytes (c : t) : list Z :=
  be32 (oldPosition c) ++ be32 (newPosition c) ++
  string_bytes (oldText c) ++ string_bytes (newText c).

(** A string the format can hold: 16-bit units, a length of 32 bits, and a form
    the platform decoder keeps. *)
Definition storable_string (s : jsstring) : Prop :=
  Forall is_unit s /\ decodable s = true /\ in_uint32 (zlen s).

Definition storable (c : t) : Prop :=
  in_uint32 (oldPosition c) /\ in_uint32 (newPosition c) /\
  storable_string (oldText c) /\ storable_string (newText c).

Lemma zlen_string_bytes s : zlen (string_bytes s) = _writeStringSize s.
Proof. unfold string_bytes, _writeStringSize. rewrite zlen_app, zlen_utf16le. done. Qed.

Lemma zlen_bytes c : zlen (bytes c) = writeSize c.
Proof.
  unfold bytes, writeSize. rewrite !zlen_app, !zlen_string_bytes. unfold be32.
  autorewrite with s2len. lia.
Qed.

Lemma even_string_size s : Z.even (_writeStringSize s) = true.
Proof. unfold _writeStringSize. rewrite Z.even_add, Z.even_mul. done. Qed.

Lemma even_writeSize c : Z.even (writeSize c) = true.
Proof. unfold writeSize. rewrite !Z.even_add, !even_string_size. done. Qed.

Lemma writes_units str : Forall is_unit str -> writes (fun b => writeUnits b str) (utf16le str).
Proof.
  induction 1 as [| u str Hu Hs IH]; [apply writes_id |].
  apply (writes_seq (fun b offset => (writeUInt16LE b u offset, offset + 2))
    (fun b => writeUnits b str) (le16 u) (utf16le str)); [| done].
  intros p x s Hx. by rewrite writeUInt16LE_mid.
Qed.

Lemma writes_string str :
  storable_string str -> writes (fun b => _writeString b str) (string_bytes str).
Proof.
  intros (Hu & _ & Hl).
  apply (writes_seq (write32 (zlen str)) (fun b => writeUnits b str)
    (be32 (zlen str)) (utf16le str)); [by apply writes_32 | by apply writes_units].
Qed.

Lemma writes_change c : storable c -> writes (write c) (bytes c).
Proof.
  intros (Ho & Hn & Hos & Hns) p x s Hx. unfold bytes.
  pose proof (writes_seq _ _ _ _ (writes_32 _ Ho) (writes_seq _ _ _ _ (writes_32 _ Hn)
    (writes_seq _ _ _ _ (writes_string _ Hos) (writes_string _ Hns))) p x s Hx) as H.
  rewrite <- H. unfold write, wseq, write32.
  destruct (_writeString _ (oldText c) _). by destruct (_writeString _ (newText c) _).
Qed.

Lemma readString_mid str p s :
  storable_string str -> Z.even (zlen p) = true ->
  _readString (p ++ string_bytes str ++ s) (zlen p) = Ret str.
Proof.
  intros (Hu & Hd & Hl) Hp. unfold _readString, string_bytes.
  rewrite <- app_assoc, readUInt32BE_mid by done. cbn [res_bind]. rewrite app_assoc.
  replace (zlen p + 4) with (zlen (p ++ be32 (zlen str))) by by autorewrite with s2len.
  apply decodeUTF16LE_mid; [done | done |].
  rewrite zlen_app, Z.even_add, Hp. done.
Qed.

Lemma read_mid c p s dest :
  storable c -> Z.even (zlen p) = true ->
  read (p ++ bytes c ++ s) (zlen p) dest = Ret (dest ++ [c], zlen p + writeSize c).
Proof.
  intros (Ho & Hn & Hos & Hns) Hp. unfold read, bytes.
  rewrite <- !app_assoc, readUInt32BE_mid by done. cbn [res_bind]. rewrite (app_assoc p).
  replace (zlen p + 4) with (zlen (p ++ be32 (oldPosition c))) by by autorewrite with s2len.
  rewrite readUInt32BE_mid by done. cbn [res_bind]. rewrite (app_assoc (p ++ _)).
  replace (zlen (p ++ be32 (oldPosition c)) + 4)
    with (zlen ((p ++ be32 (oldPosition c)) ++ be32 (newPosition c)))
    by (rewrite !zlen_app; unfold be32; autorewrite with s2len; lia).
  assert (Z.even (zlen ((p ++ be32 (oldPosition c)) ++ be32 (newPosition c))) = true) as He.
  { rewrite !zlen_app, !Z.even_add, Hp. done. }
  rewrite readString_mid by done. cbn [res_bind]. rewrite (app_assoc (_ ++ be32 (newPosition c))).
  rewrite <- zlen_string_bytes, <- zlen_app, readString_mid.
  2: done. 2: { rewrite zlen_app, zlen_string_bytes, Z.even_add, He, even_string_size. done. }
  cbn [res_bind]. replace (mk _ _ _ _) with c by by destruct c. do 2 f_equal. unfold writeSize.
  rewrite !zlen_app, !zlen_string_bytes. unfold be32. autorewrite with s2len. lia.
Qed.

(** A change that is written at an even offset into a buffer with room for
    [writeSize] bytes is read back from there: the same positions and texts,
    with the same end offset, which is even again, and no byte outside the range
    is touched.  The positions and lengths have to fit 32 bits and the texts may
    not have unpaired surrogates (unless they start with a byte order mark). *)
Lemma write_read_roundtrip c p x s dest :
  storable c -> zlen x = writeSize c -> Z.even (zlen p) = true ->
  exists b,
    write c (p ++ x ++ s) (zlen p) = (b, zlen p + writeSize c) /\
    read b (zlen p) dest = Ret (dest ++ [c], zlen p + writeSize c) /\
    ztake (zlen p) b = p /\ zdrop (zlen p + writeSize c) b = s /\
    Z.even (zlen p + writeSize c) = true.
Proof.
  intros Hc Hx Hp. exists (p ++ bytes c ++ s).
  rewrite writes_change, read_mid by (try rewrite zlen_bytes; done).
  split_and!; try done; [by rewrite zlen_bytes | | |].
  - rewrite ztake_app_l, ztake_all by lia. done.
  - rewrite <- zlen_bytes, app_assoc, <- zlen_app, zdrop_app_r, Z.sub_diag by lia. done.
  - by rewrite Z.even_add, Hp, even_writeSize.
Qed.

(** Without that condition the text changes on the way: an unpaired surrogate is
    read back as U+FFFD. *)
Example lone_surrogate_is_replaced :
  let c := mk 0 [] 0 [55357] in
  read (fst (write c (repeat 0 18) 0)) 0 [] = Ret ([mk 0 [] 0 [65533]], 18).
Proof. vm_compute. reflexivity. Qed.

End TextChange.

(** ** What a list of changes means

    [edits o n es a b]: the changes [es], read from old position [o] and new
    position [n] on, turn the rest [a] of the old document into the rest [b] of
    the new one: the changes come in order, do not overlap, hold the text they
    replace, and agree on the text between them. *)
Module Edits.
Import TextChange.

Inductive edits : Z -> Z -> list TextChange.t -> jsstring -> jsstring -> Prop :=
| edits_nil o n s : edits o n [] s s
| edits_cons o n gap c es a b :
    oldPosition c = o + zlen gap ->
    newPosition c = n + zlen gap ->
    edits (oldEnd c) (newEnd c) es a b ->
    edits o n (c :: es) (gap ++ oldText c ++ a) (gap ++ newText c ++ b).

(** Applying changes to a document, from the old text to the new. *)
Fixpoint apply_changes (o : Z) (es : list TextChange.t) (a : jsstring) : jsstring :=
  match es with
  | [] => a
  | c :: es => ztake (oldPosition c - o) a ++ newText c ++
      apply_changes (oldEnd c) es (zdrop (oldEnd c - o) a)
  end.

(** The change that leads back. *)
Definition inverse (c : TextChange.t) : TextChange.t :=
  TextChange.mk (newPosition c) (newText c) (oldPosition c) (oldText c).

Lemma edits_inverse o n es a b : edits o n es a b -> edits n o (inverse <$> es) b a.
Proof. induction 1; cbn; constructor; done. Qed.

Lemma edits_apply o n es a b : edits o n es a b -> apply_changes o es a = b.
Proof.
  induction 1 as [| o n gap c es a b Ho Hn H IH]; cbn; [done |].
  unfold oldEnd. rewrite Ho. replace (o + zlen gap - o) with (zlen gap) by lia.
  rewrite ztake_app_l, ztake_all by lia.
  rewrite zdrop_app_r by (pose proof (zlen_nonneg (oldText c)); lia).
  rewrite zdrop_app_r by lia.
  replace (_ - zlen (oldText c)) with 0 by lia. rewrite zdrop_0.
  unfold oldEnd in IH. rewrite Ho in IH. by rewrite IH.
Qed.

Lemma edits_cons_inv o n c es a b :
  edits o n (c :: es) a b ->
  exists gap a' b', a = gap ++ oldText c ++ a' /\ b = gap ++ newText c ++ b' /\
    oldPosition c = o + zlen gap /\ newPosition c = n + zlen gap /\
    edits (oldEnd c) (newEnd c) es a' b'.
Proof. inversion 1; subst. eauto 10. Qed.

Lemma edits_nil_inv o n a b : edits o n [] a b -> a = b.
Proof. by inversion 1. Qed.

(** [edits_cons] with the texts and positions up to equations. *)
Lemma edits_cons' o n gap c es a b a' b' o' n' :
  oldPosition c = o + zlen gap -> newPosition c = n + zlen gap ->
  a = gap ++ oldText c ++ a' -> b = gap ++ newText c ++ b' ->
  o' = oldEnd c -> n' = newEnd c ->
  edits o' n' es a' b' -> edits o n (c :: es) a b.
Proof. intros ?? -> -> -> ->. by constructor. Qed.

(** Two decompositions of one text. *)
Lemma app_prefix_inv (x y u v : jsstring) :
  x ++ y = u ++ v -> zlen x <= zlen u -> exists k, u = x ++ k /\ y = k ++ v.
Proof.
  intros E H. exists (zdrop (zlen x) u).
  assert (u = x ++ zdrop (zlen x) u) as Hu.
  { rewrite <- (ztake_zdrop (zlen x) u) at 1. f_equal.
    rewrite <- (ztake_app_l (zlen x) u v), <- E, ztake_app_l, ztake_all by lia. done. }
  split; [done |]. rewrite Hu, <- app_assoc in E. by apply app_inv_head in E.
Qed.

(** No gap: the frontier moves to the first change. *)
Lemma edits_start o n c es a b :
  edits o n (c :: es) a b ->
  exists a' b', edits (oldPosition c) (newPosition c) (c :: es) a' b'.
Proof.
  intros (gap & a' & b' & _ & _ & _ & _ & H)%edits_cons_inv.
  do 2 eexists. eapply (edits_cons' _ _ []); [rewrite zlen_nil; lia | rewrite zlen_nil; lia
    | done | done | done | done | exact H].
Qed.

Lemma edits_positions o n es a b :
  edits o n es a b -> Forall (fun c => o <= oldPosition c) es.
Proof.
  induction 1 as [| o n gap c es a b Ho Hn H IH]; constructor.
  - pose proof (zlen_nonneg gap). lia.
  - eapply Forall_impl; [exact IH |]. unfold oldEnd. intros d Hd.
    pose proof (zlen_nonneg gap). pose proof (zlen_nonneg (oldText c)). cbn in *. lia.
Qed.
End Edits.

(** ** The compressor *)
Module TextChangeCompressor.
Import TextChange Edits.

(** The object's fields; the lengths [_prevLen], [_currLen] and [_resultLen] are
    the lengths of the lists. *)
Record t := mk {
  _prevEdits : list TextChange.t;
  _currEdits : list TextChange.t;
  _result : list TextChange.t;
  _prevDeltaOffset : Z;
  _currDeltaOffset : Z
}.

Definition new (prevEdits currEdits : list TextChange.t) : t :=
  mk prevEdits currEdits [] 0 0.

Definition _rebaseCurr (prevDeltaOffset : Z) (currEdit : TextChange.t) : TextChange.t :=
  TextChange.mk (oldPosition currEdit - prevDeltaOffset) (oldText currEdit)
    (newPosition currEdit) (newText currEdit).

Definition _rebasePrev (currDeltaOffset : Z) (prevEdit : TextChange.t) : TextChange.t :=
  TextChange.mk (oldPosition prevEdit) (oldText prevEdit)
    (newPosition prevEdit + currDeltaOffset) (newText prevEdit).

Definition _acceptCurr (this : t) (currEdit : TextChange.t) : t :=
  mk (_prevEdits this) (_currEdits this)
    (_result this ++ [_rebaseCurr (_prevDeltaOffset this) currEdit])
    (_prevDeltaOffset this)
    (_currDeltaOffset this + (newLength currEdit - oldLength currEdit)).

Definition _getCurr (this : t) (currIndex : Z) : option TextChange.t :=
  if currIndex <? zlen (_currEdits this) then znth (_currEdits this) currIndex else None.

Definition _acceptPrev (this : t) (prevEdit : TextChange.t) : t :=
  mk (_prevEdits this) (_currEdits this)
    (_result this ++ [_rebasePrev (_currDeltaOffset this) prevEdit])
    (_prevDeltaOffset this + (newLength prevEdit - oldLength prevEdit))
    (_currDeltaOffset this).

Definition _getPrev (this : t) (prevIndex : Z) : option TextChange.t :=
  if prevIndex <? zlen (_prevEdits this) then znth (_prevEdits this) prevIndex else None.

Definition _splitPrev (edit : TextChange.t) (offset : Z) : TextChange.t * TextChange.t :=
  let preText := js_substr (newText edit) 0 offset in
  let postText := js_substr_from (newText edit) offset in
  (TextChange.mk (oldPosition edit) (oldText edit) (newPosition edit) preText,
   TextChange.mk (oldEnd edit) [] (newPosition edit + offset) postText).

Definition _splitCurr (edit : TextChange.t) (offset : Z) : TextChange.t * TextChange.t :=
  let preText := js_substr (oldText edit) 0 offset in
  let postText := js_substr_from (oldText edit) offset in
  (TextChange.mk (oldPosition edit) preText (newPosition edit) (newText edit),
   TextChange.mk (oldPosition edit + offset) postText (newEnd edit) []).

(** [_merge]'s loop, with its variable [prev] *)
Fixpoint _mergeFrom (prev : TextChange.t) (edits : list TextChange.t) : list TextChange.t :=
  match edits with
  | [] => [prev]
  | curr :: edits =>
      if oldEnd prev === oldPosition curr then
        _mergeFrom (TextChange.mk (oldPosition prev) (oldText prev ++ oldText curr)
                      (newPosition prev) (newText prev ++ newText curr)) edits
      else prev :: _mergeFrom curr edits
  end.

Definition _merge (edits : list TextChange.t) : list TextChange.t :=
  match edits with [] => [] | prev :: edits => _mergeFrom prev edits end.

Fixpoint _removeNoOps (edits : list TextChange.t) : list TextChange.t :=
  match edits with
  | [] => []
  | edit :: edits => if bool_decide (oldText edit = newText edit) then _removeNoOps edits
                     else edit :: _removeNoOps edits
  end.

(** The local variables of [compress] and the object. *)
Record loop := mkloop {
  this : t;
  prevIndex : Z;
  currIndex : Z;
  prevEdit : option TextChange.t;
  currEdit : option TextChange.t
}.

(** the end of the loop body: the merged change and the new offsets *)
Definition pushMerged (this : t) (mergePrev mergeCurr : TextChange.t) : t :=
  mk (_prevEdits this) (_currEdits this)
    (_result this ++ [TextChange.mk (oldPosition mergePrev) (oldText mergePrev)
                        (newPosition mergeCurr) (newText mergeCurr)])
    (_prevDeltaOffset this + (newLength mergePrev - oldLength mergePrev))
    (_currDeltaOffset this + (newLength mergeCurr - oldLength mergeCurr)).

(** One turn of the [while] loop. *)
Definition step (st : loop) : res loop :=
  let '(mkloop this prevIndex currIndex prevEdit currEdit) := st in
  match prevEdit, currEdit with
  | None, None => Throw TypeError
  | None, Some curr =>
      let this := _acceptCurr this curr in
      Ret (mkloop this prevIndex (currIndex + 1) prevEdit (_getCurr this (currIndex + 1)))
  | Some prev, None =>
      let this := _acceptPrev this prev in
      Ret (mkloop this (prevIndex + 1) currIndex (_getPrev this (prevIndex + 1)) currEdit)
  | Some prev, Some curr =>
      if oldEnd curr <=? newPosition prev then
        let this := _acceptCurr this curr in
        Ret (mkloop this prevIndex (currIndex + 1) prevEdit (_getCurr this (currIndex + 1)))
      else if newEnd prev <=? oldPosition curr then
        let this := _acceptPrev this prev in
        Ret (mkloop this (prevIndex + 1) currIndex (_getPrev this (prevIndex + 1)) currEdit)
      else if oldPosition curr <? newPosition prev then
        let '(e1, e2) := _splitCurr curr (newPosition prev - oldPosition curr) in
        Ret (mkloop (_acceptCurr this e1) prevIndex currIndex prevEdit (Some e2))
      else if newPosition prev <? oldPosition curr then
        let '(e1, e2) := _splitPrev prev (oldPosition curr - newPosition prev) in
        Ret (mkloop (_acceptPrev this e1) prevIndex currIndex (Some e2) currEdit)
      else if oldEnd curr === newEnd prev then
        Ret (mkloop (pushMerged this prev curr) (prevIndex + 1) (currIndex + 1)
               (_getPrev this (prevIndex + 1)) (_getCurr this (currIndex + 1)))
      else if oldEnd curr <? newEnd prev then
        let '(e1, e2) := _splitPrev prev (oldLength curr) in
        Ret (mkloop (pushMerged this e1 curr) prevIndex (currIndex + 1)
               (Some e2) (_getCurr this (currIndex + 1)))
      else
        let '(e1, e2) := _splitCurr curr (newLength prev) in
        Ret (mkloop (pushMerged this prev e1) (prevIndex + 1) currIndex
               (_getPrev this (prevIndex + 1)) (Some e2))
  end.

Fixpoint run (fuel : nat) (st : loop) : res loop :=
  match fuel with
  | O => Throw OutOfFuel
  | S fuel =>
      if (prevIndex st <? zlen (_prevEdits (this st)))
         || (currIndex st <? zlen (_currEdits (this st)))
      then let* st := step st in run fuel st
      else Ret st
  end.

(** The turns the loop can take: every turn ends a change, or takes at least
    one unit off the text two changes share. *)
Definition size (P C : list TextChange.t) : nat :=
  list_sum ((fun c => S (length (newText c))) <$> P) +
  list_sum ((fun c => S (length (oldText c))) <$> C).

Definition compress (self : t) : res (list TextChange.t) :=
  let* st := run (S (size (_prevEdits self) (_currEdits self)))
               (mkloop self 0 0 (_getPrev self 0) (_getCurr self 0)) in
  let merged := _merge (_result (this st)) in
  let cleaned := _removeNoOps merged in
  Ret cleaned.

Definition compressConsecutiveTextChanges (prevEdits : option (list TextChange.t))
    (currEdits : list TextChange.t) : res (list TextChange.t) :=
  match prevEdits with
  | None | Some [] => Ret currEdits
  | Some prevEdits => compress (new prevEdits currEdits)
  end.

(** *** The loop on lists

    The same turn on the lists of the changes that are left, without indices:
    which change it emits and what it leaves. *)
Inductive action :=
| ACurr (c : TextChange.t)
| APrev (p : TextChange.t)
| AMerge (p c : TextChange.t).

Definition plan (P C : list TextChange.t)
    : option (action * list TextChange.t * list TextChange.t) :=
  match P, C with
  | [], [] => None
  | [], c :: C' => Some (ACurr c, [], C')
  | p :: P', [] => Some (APrev p, P', [])
  | p :: P', c :: C' => Some (
      if oldEnd c <=? newPosition p then (ACurr c, P, C')
      else if newEnd p <=? oldPosition c then (APrev p, P', C)
      else if oldPosition c <? newPosition p then
        let '(e1, e2) := _splitCurr c (newPosition p - oldPosition c) in (ACurr e1, P, e2 :: C')
      else if newPosition p <? oldPosition c then
        let '(e1, e2) := _splitPrev p (oldPosition c - newPosition p) in (APrev e1, e2 :: P', C)
      else if oldEnd c === newEnd p then (AMerge p c, P', C')
      else if oldEnd c <? newEnd p then
        let '(e1, e2) := _splitPrev p (oldLength c) in (AMerge e1 c, e2 :: P', C')
      else let '(e1, e2) := _splitCurr c (newLength p) in (AMerge p e1, P', e2 :: C'))
  end.

Definition perform (self : t) (a : action) : t :=
  match a with
  | ACurr c => _acceptCurr self c
  | APrev p => _acceptPrev self p
  | AMerge p c => pushMerged self p c
  end.

(** The changes left, from the index and the current change. *)
Definition left_of (l : list TextChange.t) (i : Z) (e : option TextChange.t)
    (rest : list TextChange.t) : Prop :=
  match e with
  | Some e => 0 <= i < zlen l /\ rest = e :: zdrop (i + 1) l
  | None => i = zlen l /\ rest = []
  end.

Definition in_state (st : loop) (P C : list TextChange.t) : Prop :=
  left_of (_prevEdits (this st)) (prevIndex st) (prevEdit st) P /\
  left_of (_currEdits (this st)) (currIndex st) (currEdit st) C.

Lemma left_of_get l i :
  0 <= i <= zlen l ->
  left_of l i (if i <? zlen l then znth l i else None) (zdrop i l).
Proof.
  intros Hi. destruct (Z.ltb_spec i (zlen l)).
  - destruct (znth_is_Some l i) as [e He]; [lia |]. rewrite He. split; [lia |].
    unfold znth in He. rewrite (proj2 (Z.ltb_ge _ _)) in He by lia.
    unfold zdrop. rewrite (drop_S _ _ _ He). f_equal. f_equal. lia.
  - split; [lia |]. apply zdrop_all. lia.
Qed.

(** A turn of the code's loop is the turn on the lists. *)
Lemma step_plan st P C :
  in_state st P C ->
  match plan P C with
  | None => (prevIndex st <? zlen (_prevEdits (this st)))
            || (currIndex st <? zlen (_currEdits (this st))) = false
  | Some (a, P', C') =>
      (prevIndex st <? zlen (_prevEdits (this st)))
        || (currIndex st <? zlen (_currEdits (this st))) = true /\
      exists st', step st = Ret st' /\ this st' = perform (this st) a /\ in_state st' P' C'
  end.
Proof.
  destruct st as [self pi ci pe ce]. unfold in_state; cbn [this prevIndex currIndex prevEdit currEdit].
  intros [HP HC].
  assert (forall l i, 0 <= i < zlen l ->
    left_of l (i + 1) (if i + 1 <? zlen l then znth l (i + 1) else None) (zdrop (i + 1) l)) as Hget
    by (intros; apply left_of_get; lia).
  destruct pe as [p |], ce as [c |]; destruct HP as [HP ->], HC as [HC ->]; cbn [plan step].
  - rewrite (proj2 (Z.ltb_lt pi _)) by lia. cbn [orb].
    repeat case_match; simplify_eq; (split; [done |]); eexists; (split; [done |]);
      (split; [done |]); cbn; auto.
  - rewrite (proj2 (Z.ltb_lt pi _)) by lia. split; [done |]. eexists; split; [done |].
    split; [done |]. cbn. auto.
  - rewrite (proj2 (Z.ltb_lt ci _)), orb_true_r by lia. split; [done |].
    eexists; split; [done |]. split; [done |]. cbn. auto.
  - rewrite !(proj2 (Z.ltb_ge _ _)) by lia. done.
Qed.

Lemma split_substr (l : jsstring) k :
  0 <= k <= zlen l -> js_substr l 0 k = ztake k l /\ js_substr_from l k = zdrop k l.
Proof.
  intros. unfold js_substr, js_substr_from, js_index. rewrite (proj2 (Z.ltb_ge k 0)) by lia.
  cbn [Z.ltb Z.compare]. pose proof (zlen_nonneg l).
  rewrite (Z.min_l 0), Z.sub_0_r, !(Z.min_l k) by lia. done.
Qed.

Lemma zlen_js_substr (l : jsstring) k : 0 <= k <= zlen l -> zlen (js_substr l 0 k) = k.
Proof. intros H. rewrite (proj1 (split_substr l k H)). by apply zlen_ztake. Qed.

Lemma length_zdrop {A} (l : list A) k : length (zdrop k l) = (length l - Z.to_nat k)%nat.
Proof. apply length_drop. Qed.

Lemma size_cons_l p P C : size (p :: P) C = (S (length (newText p)) + size P C)%nat.
Proof. unfold size. rewrite fmap_cons. unfold list_sum; cbn [foldr]. lia. Qed.

Lemma size_cons_r P c C : size P (c :: C) = (S (length (oldText c)) + size P C)%nat.
Proof. unfold size. rewrite fmap_cons. unfold list_sum; cbn [foldr]. lia. Qed.

(** Every turn makes the lists smaller. *)
Lemma plan_smaller P C a P' C' :
  plan P C = Some (a, P', C') -> (size P' C' < size P C)%nat.
Proof.
  destruct P as [| p P], C as [| c C]; cbn [plan]; [done | | |].
  - intros [= <- <- <-]. rewrite size_cons_r. lia.
  - intros [= <- <- <-]. rewrite size_cons_l. lia.
  - intros [= H]. unfold newEnd, oldEnd, newLength, oldLength in *.
    pose proof (zlen_nonneg (newText p)) as Hp. pose proof (zlen_nonneg (oldText c)) as Hc.
    repeat (case_match; try (simplify_eq; rewrite ?size_cons_l, ?size_cons_r; lia));
      match goal with H : context [js_substr_from ?l ?k] |- _ =>
        destruct (split_substr l k) as [_ Hs]; [lia |] end; simplify_eq;
      rewrite ?size_cons_l, ?size_cons_r; cbn [newText oldText];
      rewrite Hs, length_zdrop; unfold zlen in *; lia.
Qed.

(** The loop ends within its bound, whatever the lists. *)
Lemma run_total fuel st P C :
  in_state st P C -> (size P C < fuel)%nat -> exists st', run fuel st = Ret st'.
Proof.
  revert st P C. induction fuel as [| fuel IH]; intros st P C Hst Hf; [lia |].
  pose proof (step_plan _ _ _ Hst) as Hs. cbn [run].
  destruct (plan P C) as [[[a P'] C'] |] eqn:Hp.
  - destruct Hs as (-> & st' & -> & _ & Hst'). cbn [res_bind].
    eapply IH; [exact Hst' |]. pose proof (plan_smaller _ _ _ _ _ Hp). lia.
  - rewrite Hs. eauto.
Qed.

Lemma start_in_state prevs currs :
  let self := new prevs currs in
  in_state (mkloop self 0 0 (_getPrev self 0) (_getCurr self 0)) prevs currs.
Proof.
  cbn. split; cbn [this prevIndex currIndex prevEdit currEdit new _prevEdits _currEdits].
  - rewrite <- (zdrop_0 prevs) at 3. apply left_of_get. pose proof (zlen_nonneg prevs). lia.
  - rewrite <- (zdrop_0 currs) at 3. apply left_of_get. pose proof (zlen_nonneg currs). lia.
Qed.

(** *** The turns compose the changes *)

(** The previous changes lead from [a] to some text, the current ones from
    there to [d]; [o], [m] and [n] are the positions in the three documents. *)
Definition linked (o m n : Z) (P C : list TextChange.t) (a d : jsstring) : Prop :=
  exists b, edits o m P a b /\ edits m n C b d.

Definition emitted (pd cd : Z) (x : action) : TextChange.t :=
  match x with
  | ACurr c => _rebaseCurr pd c
  | APrev p => _rebasePrev cd p
  | AMerge p c => TextChange.mk (oldPosition p) (oldText p) (newPosition c) (newText c)
  end.

Definition mid_end (x : action) : Z :=
  match x with ACurr c => oldEnd c | APrev p => newEnd p | AMerge p _ => newEnd p end.

(** What an action adds to the two offsets. *)
Definition prev_delta (x : action) : Z :=
  match x with ACurr _ => 0 | APrev p | AMerge p _ => newLength p - oldLength p end.
Definition curr_delta (x : action) : Z :=
  match x with APrev _ => 0 | ACurr c | AMerge _ c => newLength c - oldLength c end.

(** Emitting [x] with [P], [C] left is right from these positions. *)
Definition emits (o m n : Z) (x : action) (P C : list TextChange.t) (a d : jsstring) : Prop :=
  let e := emitted (m - o) (n - m) x in
  m - o + prev_delta x = mid_end x - oldEnd e /\
  n - m + curr_delta x = newEnd e - mid_end x /\
  exists a' d', linked (oldEnd e) (mid_end x) (newEnd e) P C a' d' /\
    forall R, edits (oldEnd e) (newEnd e) R a' d' -> edits o n (e :: R) a d.

Lemma accept_curr_emits o m n P c C a d :
  linked o m n P (c :: C) a d ->
  match P with [] => True | p :: _ => oldEnd c <= newPosition p end ->
  emits o m n (ACurr c) P C a d.
Proof.
  intros (b & HP & (gc & b2 & d2 & -> & -> & Ho & Hn & HC)%edits_cons_inv) Hle.
  unfold emits, emitted, mid_end, prev_delta, curr_delta, _rebaseCurr, newLength, oldLength.
  unfold oldEnd, newEnd in *; cbn. split_and!; [lia | lia |]. destruct P as [| p P].
  - apply edits_nil_inv in HP as ->. exists b2, d2. split; [exists b2; split; [constructor | done] |].
    intros R HR. eapply (edits_cons' _ _ gc); cbn; unfold oldEnd, newEnd; cbn; try done; lia.
  - apply edits_cons_inv in HP as (gp & a1 & b1 & -> & Hb & Hop & Hnp & HP).
    rewrite app_assoc in Hb.
    apply app_prefix_inv in Hb as (k & -> & ->); [| autorewrite with s2len; lia].
    exists (k ++ oldText p ++ a1), d2. autorewrite with s2len in *. split.
    + exists (k ++ newText p ++ b1). split; [| done].
      eapply (edits_cons' _ _ k); try done; lia.
    + intros R HR. eapply (edits_cons' _ _ gc); cbn; unfold oldEnd, newEnd; cbn; try done; try lia.
      by rewrite <- !app_assoc.
Qed.

Lemma accept_prev_emits o m n p P C a d :
  linked o m n (p :: P) C a d ->
  match C with [] => True | c :: _ => newEnd p <= oldPosition c end ->
  emits o m n (APrev p) P C a d.
Proof.
  intros (b & (gp & a2 & b2 & -> & -> & Ho & Hn & HP)%edits_cons_inv & HC) Hle.
  unfold emits, emitted, mid_end, prev_delta, curr_delta, _rebasePrev, newLength, oldLength.
  unfold oldEnd, newEnd in *; cbn. split_and!; [lia | lia |]. destruct C as [| c C].
  - apply edits_nil_inv in HC as <-. exists a2, b2. split; [exists b2; split; [done | constructor] |].
    intros R HR. eapply (edits_cons' _ _ gp); cbn; unfold oldEnd, newEnd; cbn; try done; lia.
  - apply edits_cons_inv in HC as (gc & b1 & d1 & Hb & -> & Hoc & Hnc & HC).
    rewrite app_assoc in Hb.
    apply app_prefix_inv in Hb as (k & -> & ->); [| autorewrite with s2len; lia].
    exists a2, (k ++ newText c ++ d1). autorewrite with s2len in *. split.
    + exists (k ++ oldText c ++ b1). split; [done |].
      eapply (edits_cons' _ _ k); try done; lia.
    + intros R HR. eapply (edits_cons' _ _ gp); cbn; unfold oldEnd, newEnd; cbn; try done; try lia.
      by rewrite <- !app_assoc.
Qed.

Lemma merge_emits o m n p P c C a d :
  linked o m n (p :: P) (c :: C) a d ->
  oldPosition c = newPosition p -> oldEnd c = newEnd p ->
  emits o m n (AMerge p c) P C a d.
Proof.
  intros (b & (gp & a2 & b2 & -> & -> & Ho & Hn & HP)%edits_cons_inv &
    (gc & b1 & d1 & Hb & -> & Hoc & Hnc & HC)%edits_cons_inv) Hs He.
  unfold emits, emitted, mid_end, prev_delta, curr_delta, newLength, oldLength.
  unfold oldEnd, newEnd in *; cbn. split_and!; [lia | lia |].
  apply app_prefix_inv in Hb as (k & -> & Hb); [| lia].
  autorewrite with s2len in *. assert (zlen k = 0) as ->%zlen_0 by lia. cbn in Hb.
  apply app_prefix_inv in Hb as (k & Hk & ->); [| lia].
  apply (f_equal zlen) in Hk as Hk'. autorewrite with s2len in Hk'.
  assert (zlen k = 0) as ->%zlen_0 by lia. rewrite app_nil_r in Hk.
  exists a2, d1. split.
  - exists b1. cbn in HP. split; [done |]. by rewrite <- He.
  - intros R HR. rewrite app_nil_r. eapply (edits_cons' _ _ gp); cbn; unfold oldEnd, newEnd;
      cbn; try done; lia.
Qed.

(** Splitting a change keeps the meaning of the list. *)
Lemma edits_splitCurr o n c es a b k e1 e2 :
  edits o n (c :: es) a b -> 0 <= k <= oldLength c -> _splitCurr c k = (e1, e2) ->
  edits o n (e1 :: e2 :: es) a b.
Proof.
  unfold oldLength. intros (g & a' & b' & -> & -> & Ho & Hn & H)%edits_cons_inv Hk.
  destruct (split_substr (oldText c) k Hk) as [E1 E2].
  unfold _splitCurr. rewrite E1, E2. intros [= <- <-].
  assert (zlen (ztake k (oldText c)) = k) as Hl1 by by apply zlen_ztake.
  assert (zlen (zdrop k (oldText c)) = zlen (oldText c) - k) as Hl2 by by apply zlen_zdrop.
  eapply (edits_cons' _ _ g); [done | done | | done | done | done |]; cbn.
  { rewrite <- (ztake_zdrop k (oldText c)) at 1. by rewrite <- app_assoc. }
  unfold oldEnd, newEnd in *.
  eapply (edits_cons' _ _ []); [| | done | done | done | done |]; cbn; rewrite ?zlen_nil; try lia.
  unfold oldEnd, newEnd in *; cbn. rewrite Hl2, zlen_nil.
  replace (oldPosition c + k + (zlen (oldText c) - k)) with (oldPosition c + zlen (oldText c)) by lia.
  by rewrite Z.add_0_r.
Qed.

Lemma edits_splitPrev o n p es a b k e1 e2 :
  edits o n (p :: es) a b -> 0 <= k <= newLength p -> _splitPrev p k = (e1, e2) ->
  edits o n (e1 :: e2 :: es) a b.
Proof.
  unfold newLength. intros (g & a' & b' & -> & -> & Ho & Hn & H)%edits_cons_inv Hk.
  destruct (split_substr (newText p) k Hk) as [E1 E2].
  unfold _splitPrev. rewrite E1, E2. intros [= <- <-].
  assert (zlen (ztake k (newText p)) = k) as Hl1 by by apply zlen_ztake.
  assert (zlen (zdrop k (newText p)) = zlen (newText p) - k) as Hl2 by by apply zlen_zdrop.
  eapply (edits_cons' _ _ g); [done | done | done | | done | done |]; cbn.
  { rewrite <- (ztake_zdrop k (newText p)) at 1. by rewrite <- app_assoc. }
  unfold oldEnd, newEnd in *.
  eapply (edits_cons' _ _ []); [| | done | done | done | done |]; cbn; rewrite ?zlen_nil; try lia.
  unfold oldEnd, newEnd in *; cbn. rewrite Hl2, zlen_nil.
  replace (newPosition p + k + (zlen (newText p) - k)) with (newPosition p + zlen (newText p)) by lia.
  by rewrite Z.add_0_r.
Qed.

Lemma plan_emits o m n P C a d x P' C' :
  linked o m n P C a d -> plan P C = Some (x, P', C') -> emits o m n x P' C' a d.
Proof.
  intros HL Hp. destruct P as [| p P], C as [| c C]; cbn [plan] in Hp; [done | | |].
  - injection Hp as <- <- <-. by apply accept_curr_emits.
  - injection Hp as <- <- <-. by apply accept_prev_emits.
  - destruct HL as (b & HP & HC). injection Hp as Hp.
    pose proof (fun k e1 e2 => edits_splitCurr _ _ _ _ _ _ k e1 e2 HC) as SC.
    pose proof (fun k e1 e2 => edits_splitPrev _ _ _ _ _ _ k e1 e2 HP) as SP.
    pose proof (zlen_nonneg (newText p)) as Lp. pose proof (zlen_nonneg (oldText c)) as Lc.
    unfold oldEnd, newEnd, oldLength, newLength in *.
    repeat case_match; simplify_eq.
    + apply accept_curr_emits; [by exists b |]. unfold oldEnd; lia.
    + apply accept_prev_emits; [by exists b |]. unfold newEnd; lia.
    + apply accept_curr_emits; [exists b; split; [done |]; eapply SC; [| reflexivity]; lia |].
      unfold oldEnd; cbn. rewrite zlen_js_substr by lia. lia.
    + apply accept_prev_emits; [exists b; split; [eapply SP; [| reflexivity]; lia | done] |].
      unfold newEnd; cbn. rewrite zlen_js_substr by lia. lia.
    + apply merge_emits; [by exists b | lia | unfold oldEnd, newEnd; lia].
    + apply merge_emits; [exists b; split; [eapply SP; [| reflexivity]; lia | done] | cbn; lia |].
      unfold oldEnd, newEnd; cbn.
      rewrite zlen_js_substr by lia. lia.
    + apply merge_emits; [exists b; split; [done | eapply SC; [| reflexivity]; lia] | cbn; lia |].
      unfold oldEnd, newEnd; cbn.
      rewrite zlen_js_substr by lia. lia.
Qed.

Lemma perform_fields self x :
  _result (perform self x)
    = _result self ++ [emitted (_prevDeltaOffset self) (_currDeltaOffset self) x] /\
  _prevDeltaOffset (perform self x) = _prevDeltaOffset self + prev_delta x /\
  _currDeltaOffset (perform self x) = _currDeltaOffset self + curr_delta x.
Proof. destruct x; cbn; rewrite ?Z.add_0_r; done. Qed.

(** The loop emits changes that lead from the first document to the last. *)
Lemma run_composes fuel st P C o m n a d :
  in_state st P C -> linked o m n P C a d ->
  _prevDeltaOffset (this st) = m - o -> _currDeltaOffset (this st) = n - m ->
  (size P C < fuel)%nat ->
  exists st' R, run fuel st = Ret st' /\ _result (this st') = _result (this st) ++ R /\
    edits o n R a d.
Proof.
  revert st P C o m n a d.
  induction fuel as [| fuel IH]; intros st P C o m n a d Hst HL Hpd Hcd Hf; [lia |].
  pose proof (step_plan _ _ _ Hst) as Hs. cbn [run].
  destruct (plan P C) as [[[x P'] C'] |] eqn:Hp.
  - destruct Hs as (-> & st' & -> & Ht & Hst'). cbn [res_bind].
    destruct (plan_emits _ _ _ _ _ _ _ _ _ _ HL Hp) as (Dp & Dc & a' & d' & HL' & HR).
    destruct (perform_fields (this st) x) as (Fr & Fp & Fc). rewrite <- Ht in Fr, Fp, Fc.
    pose proof (plan_smaller _ _ _ _ _ Hp).
    edestruct (IH st' P' C') as (st'' & R & -> & Hres & HE); [done | exact HL' | lia | lia | lia |].
    eexists _, _. split; [done |]. split; [| exact (HR _ HE)].
    rewrite Hres, Fr, <- app_assoc, Hpd, Hcd. done.
  - rewrite Hs. exists st, []. rewrite app_nil_r. do 2 (split; [done |]).
    destruct P, C; try done. destruct HL as (b & ->%edits_nil_inv & ->%edits_nil_inv). constructor.
Qed.

(** *** Merging and dropping changes *)

Lemma mergeFrom_edits prev es o n a b :
  edits o n (prev :: es) a b -> edits o n (_mergeFrom prev es) a b.
Proof.
  revert prev o n a b. induction es as [| curr es IH]; intros prev o n a b H; cbn [_mergeFrom]; [done |].
  apply edits_cons_inv in H as (g & a1 & b1 & -> & -> & Ho & Hn & H).
  case_match.
  - apply IH. apply edits_cons_inv in H as (g2 & a2 & b2 & -> & -> & Ho2 & Hn2 & H).
    assert (zlen g2 = 0) as ->%zlen_0 by lia. rewrite zlen_nil in *. cbn.
    unfold oldEnd, newEnd in *.
    eapply (edits_cons' _ _ g); [done | done | | | | | exact H]; cbn;
      unfold oldEnd, newEnd; cbn; autorewrite with s2len; rewrite <- ?app_assoc; try done; lia.
  - eapply (edits_cons' _ _ g); try done. by apply IH.
Qed.

Lemma merge_edits es o n a b : edits o n es a b -> edits o n (_merge es) a b.
Proof. destruct es; [done |]. apply mergeFrom_edits. Qed.

(** Every change starts after the ones before it end. *)
Definition separated (es : list TextChange.t) : Prop :=
  StronglySorted (fun x y => oldEnd x < oldPosition y) es.

Lemma mergeFrom_separated prev es o n a b :
  edits o n (prev :: es) a b -> separated (_mergeFrom prev es).
Proof.
  revert prev o n a b. induction es as [| curr es IH]; intros prev o n a b H; cbn [_mergeFrom].
  - repeat constructor.
  - pose proof H as (g & a1 & b1 & -> & -> & Ho & Hn & H1)%edits_cons_inv.
    pose proof H1 as (g2 & a2 & b2 & -> & -> & Ho2 & Hn2 & H2)%edits_cons_inv.
    pose proof (zlen_nonneg g2). case_match.
    + assert (zlen g2 = 0) as ->%zlen_0 by lia. rewrite zlen_nil in *.
      eapply (IH _ o n). eapply (edits_cons' _ _ g); [done | done | done | done | | | exact H2]; cbn;
        unfold oldEnd, newEnd in *; cbn; autorewrite with s2len; lia.
    + constructor; [by eapply IH |].
      destruct (edits_start _ _ _ _ _ _ H1) as (a' & b' & Hfrom).
      eapply Forall_impl; [eapply edits_positions, mergeFrom_edits, Hfrom |].
      cbn. intros c Hc. lia.
Qed.

Lemma edits_skip_noop o n c es a b :
  edits o n (c :: es) a b -> oldText c = newText c -> edits o n es a b.
Proof.
  intros (g & a1 & b1 & -> & -> & Ho & Hn & H)%edits_cons_inv Hc. rewrite <- Hc.
  destruct es as [| c2 es].
  - apply edits_nil_inv in H as ->. constructor.
  - apply edits_cons_inv in H as (g2 & a2 & b2 & -> & -> & Ho2 & Hn2 & H).
    unfold oldEnd, newEnd in *. rewrite <- Hc in *.
    eapply (edits_cons' _ _ (g ++ oldText c ++ g2)); [| | | | | | exact H];
      autorewrite with s2len; rewrite <- ?app_assoc; try done; lia.
Qed.

Lemma removeNoOps_edits es o n a b : edits o n es a b -> edits o n (_removeNoOps es) a b.
Proof.
  revert o n a b. induction es as [| c es IH]; intros o n a b H; cbn; [done |]. case_bool_decide.
  - by eapply IH, edits_skip_noop.
  - apply edits_cons_inv in H as (g & a1 & b1 & -> & -> & Ho & Hn & H). constructor; auto.
Qed.

Lemma removeNoOps_sublist es : sublist (_removeNoOps es) es.
Proof. induction es; cbn; [constructor |]. case_bool_decide; by constructor. Qed.

Lemma removeNoOps_effective es : Forall (fun c => oldText c <> newText c) (_removeNoOps es).
Proof. induction es; cbn; [constructor |]. case_bool_decide; [done |]. by constructor. Qed.

Lemma separated_sublist l k : sublist l k -> separated k -> separated l.
Proof.
  unfold separated. induction 1 as [| x l k Hs IH | x l k Hs IH]; intros Hk; [done | |].
  - apply StronglySorted_inv in Hk as [Hk HF]. constructor; [auto |].
    rewrite Forall_forall in *. intros y Hy. apply HF. by eapply elem_of_submseteq, sublist_submseteq.
  - apply StronglySorted_inv in Hk as [Hk HF]. auto.
Qed.

(** What [compress] promises: a list in normal form for the composed change. *)
Definition composed (o n : Z) (a d : jsstring) (R : list TextChange.t) : Prop :=
  edits o n R a d /\ separated R /\ Forall (fun c => oldText c <> newText c) R.

Lemma compress_ok prevs currs a b d :
  edits 0 0 prevs a b -> edits 0 0 currs b d ->
  exists R, compress (new prevs currs) = Ret R /\ composed 0 0 a d R.
Proof.
  intros HP HC. unfold compress.
  edestruct run_composes as (st' & R & -> & Hres & HE);
    [apply start_in_state | exists b; split; [exact HP | exact HC] | done | done | apply Nat.lt_succ_diag_r |].
  cbn [res_bind]. eexists; split; [done |]. cbn in Hres. rewrite Hres. unfold composed.
  split_and!.
  - by apply removeNoOps_edits, merge_edits.
  - eapply separated_sublist; [apply removeNoOps_sublist |].
    destruct R; [constructor |]. by eapply mergeFrom_separated.
  - apply removeNoOps_effective.
Qed.

Lemma compress_terminates prevs currs : exists R, compress (new prevs currs) = Ret R.
Proof.
  unfold compress. edestruct run_total as [st' ->]; [apply start_in_state | apply Nat.lt_succ_diag_r |].
  cbn. eauto.
Qed.

(** C15: compressing two consecutive lists of changes composes them: when the
    previous changes lead from a document [a] to [b] and the current ones from
    [b] to [d], the result (whatever the previous list, [null] and empty ones
    included) leads from [a] to [d]; applying it to [a] gives [d] and applying
    its inverse to [d] gives [a] back.  Unless the previous list is empty, the
    result also is in normal form: its changes are strictly separated and none
    of them is a no-op. *)
Theorem compress_composes prevs currs a b d :
  edits 0 0 (default [] prevs) a b -> edits 0 0 currs b d ->
  exists R, compressConsecutiveTextChanges prevs currs = Ret R /\
    edits 0 0 R a d /\
    apply_changes 0 R a = d /\ apply_changes 0 (inverse <$> R) d = a /\
    (default [] prevs <> [] ->
       separated R /\ Forall (fun c => oldText c <> newText c) R).
Proof.
  intros HP HC.
  assert (forall R, edits 0 0 R a d -> apply_changes 0 R a = d /\
    apply_changes 0 (inverse <$> R) d = a) as Happ
    by (intros R HR; split; [by eapply edits_apply | by eapply edits_apply, edits_inverse]).
  destruct prevs as [[| p P] |]; cbn in HP |- *;
    try (apply edits_nil_inv in HP as ->; exists currs; split_and!; try done; by apply Happ).
  destruct (compress_ok (p :: P) currs a b d HP HC) as (R & HR & HE & HS & HN).
  exists R. destruct (Happ R HE). split_and!; done.
Qed.

Lemma compress_composes_witness :
  exists R, compressConsecutiveTextChanges
    (Some [TextChange.mk 1 [98; 99] 1 [120; 121; 122]]) [TextChange.mk 2 [121; 122; 100] 2 [119]] = Ret R /\
    apply_changes 0 R [97; 98; 99; 100; 101] = [97; 120; 119; 101].
Proof.
  destruct (compress_composes (Some [TextChange.mk 1 [98; 99] 1 [120; 121; 122]])
    [TextChange.mk 2 [121; 122; 100] 2 [119]] [97; 98; 99; 100; 101] [97; 120; 121; 122; 100; 101]
    [97; 120; 119; 101]) as (R & H1 & _ & H2 & _).
  - apply (edits_cons 0 0 [97] (TextChange.mk 1 [98; 99] 1 [120; 121; 122]) [] [100; 101] [100; 101]);
      [done | done | constructor].
  - apply (edits_cons 0 0 [97; 120] (TextChange.mk 2 [121; 122; 100] 2 [119]) [] [101] [101]);
      [done | done | constructor].
  - exists R. done.
Defined.

(** C34: the compression loop ends and throws nothing, for any two lists of
    changes, also ones that do not fit any document: its number of turns is at
    most the number of changes plus the length of the new texts of the previous
    list and of the old texts of the current one. *)
Theorem compress_never_diverges prevs currs :
  exists R, compressConsecutiveTextChanges prevs currs = Ret R.
Proof. destruct prevs as [[|] |]; cbn; [eauto | apply compress_terminates | eauto]. Qed.

End TextChangeCompressor.
