(* ===== verification/EditStack.v ===== *)
(** * The undo stack's elements

    [src/vs/editor/common/model/editStack.ts]: the data an undo element keeps
    about one model ([SingleModelEditStackData]), its byte format, the element
    that keeps it open or serialized ([SingleModelEditStackElement]) and the one
    that groups elements of several models ([MultiModelEditStackElement]).

    The text models are an interface, [ITextModels]: a world of models with the
    four methods the elements call. *)

From stdpp Require Import gmap.
From S2P Require Import Prelude Position Range Selection Buffer TextChange.
Import Buffer.

(** [EndOfLineSequence], a numeric enum *)
Definition EOL_LF : Z := 0.
Definition EOL_CRLF : Z := 1.

(** A model is known by its identity; [W] holds the state of all of them. *)
Class ITextModels (W : Type) := {
  getEOL : W -> nat -> jsstring;
  getAlternativeVersionId : W -> nat -> Z;
  _applyUndo : W -> nat -> list TextChange.t -> Z -> Z -> option (list Selection.t) -> W;
  _applyRedo : W -> nat -> list TextChange.t -> Z -> Z -> option (list Selection.t) -> W
}.

Definition getModelEOL `{ITextModels W} (w : W) (model : nat) : Z :=
  let eol := getEOL w model in
  if bool_decide (eol = [10]) then EOL_LF else EOL_CRLF.

Module SingleModelEditStackData.

Record t := mk {
  beforeVersionId : Z;
  afterVersionId : Z;
  beforeEOL : Z;
  afterEOL : Z;
  beforeCursorState : option (list Selection.t);
  afterCursorState : option (list Selection.t);
  changes : list TextChange.t
}.

Definition create `{ITextModels W} (w : W) (model : nat)
    (beforeCursorState : option (list Selection.t)) : t :=
  let alternativeVersionId := getAlternativeVersionId w model in
  let eol := getModelEOL w model in
  mk alternativeVersionId alternativeVersionId eol eol beforeCursorState beforeCursorState [].

Definition append (this : t) (textChanges : list TextChange.t) (afterEOL afterVersionId : Z)
    (afterCursorState : option (list Selection.t)) : res t :=
  let* changes :=
    if 0 <? zlen textChanges
    then TextChangeCompressor.compressConsecutiveTextChanges (Some (changes this)) textChanges
    else Ret (changes this) in
  Ret (mk (beforeVersionId this) afterVersionId (beforeEOL this) afterEOL
         (beforeCursorState this) afterCursorState changes).

(** ** Selections *)

Definition _writeSelectionsSize (selections : option (list Selection.t)) : Z :=
  4 + 4 * 4 * (match selections with Some l => zlen l | None => 0 end).

Definition writeSelection (b : list Z) (selection : Selection.t) (offset : Z) : list Z * Z :=
  let b := writeUInt32BE b (Selection.selectionStartLineNumber selection) offset in
  let offset := offset + 4 in
  let b := writeUInt32BE b (Selection.selectionStartColumn selection) offset in
  let offset := offset + 4 in
  let b := writeUInt32BE b (Selection.positionLineNumber selection) offset in
  let offset := offset + 4 in
  let b := writeUInt32BE b (Selection.positionColumn selection) offset in
  let offset := offset + 4 in
  (b, offset).

Fixpoint writeSelections_loop (b : list Z) (selections : list Selection.t) (offset : Z)
    : list Z * Z :=
  match selections with
  | [] => (b, offset)
  | selection :: selections =>
      let '(b, offset) := writeSelection b selection offset in
      writeSelections_loop b selections offset
  end.

Definition _writeSelections (b : list Z) (selections : option (list Selection.t)) (offset : Z)
    : list Z * Z :=
  let b := writeUInt32BE b (match selections with Some l => zlen l | None => 0 end) offset in
  let offset := offset + 4 in
  match selections with
  | Some selections => writeSelections_loop b selections offset
  | None => (b, offset)
  end.

Fixpoint readSelections_loop (count : nat) (b : list Z) (offset : Z) (dest : list Selection.t)
    : res (list Selection.t * Z) :=
  match count with
  | O => Ret (dest, offset)
  | S count =>
      let* selectionStartLineNumber := readUInt32BE b offset in
      let offset := offset + 4 in
      let* selectionStartColumn := readUInt32BE b offset in
      let offset := offset + 4 in
      let* positionLineNumber := readUInt32BE b offset in
      let offset := offset + 4 in
      let* positionColumn := readUInt32BE b offset in
      let offset := offset + 4 in
      readSelections_loop count b offset
        (dest ++ [Selection.new selectionStartLineNumber selectionStartColumn
                    positionLineNumber positionColumn])
  end.

Definition _readSelections (b : list Z) (offset : Z) (dest : list Selection.t)
    : res (list Selection.t * Z) :=
  let* count := readUInt32BE b offset in
  let offset := offset + 4 in
  readSelections_loop (Z.to_nat count) b offset dest.

(** ** The whole element *)

Definition necessarySize (this : t) : Z :=
  4 + 4 + 1 + 1
  + _writeSelectionsSize (beforeCursorState this)
  + _writeSelectionsSize (afterCursorState this)
  + 4 + zsum (TextChange.writeSize <$> changes this).

Fixpoint writeChanges (b : list Z) (changes : list TextChange.t) (offset : Z) : list Z * Z :=
  match changes with
  | [] => (b, offset)
  | change :: changes =>
      let '(b, offset) := TextChange.write change b offset in
      writeChanges b changes offset
  end.

Definition serialize (this : t) : list Z :=
  let b := zeros (necessarySize this) in
  let offset := 0 in
  let b := writeUInt32BE b (beforeVersionId this) offset in
  let offset := offset + 4 in
  let b := writeUInt32BE b (afterVersionId this) offset in
  let offset := offset + 4 in
  let b := writeUInt8 b (beforeEOL this) offset in
  let offset := offset + 1 in
  let b := writeUInt8 b (afterEOL this) offset in
  let offset := offset + 1 in
  let '(b, offset) := _writeSelections b (beforeCursorState this) offset in
  let '(b, offset) := _writeSelections b (afterCursorState this) offset in
  let b := writeUInt32BE b (zlen (changes this)) offset in
  let offset := offset + 4 in
  let '(b, _) := writeChanges b (changes this) offset in
  b.

Fixpoint readChanges (changeCount : nat) (b : list Z) (offset : Z) (changes : list TextChange.t)
    : res (list TextChange.t * Z) :=
  match changeCount with
  | O => Ret (changes, offset)
  | S changeCount =>
      let* r := TextChange.read b offset changes in
      readChanges changeCount b (snd r) (fst r)
  end.

Definition deserialize (b : list Z) : res t :=
  let offset := 0 in
  let* beforeVersionId := readUInt32BE b offset in
  let offset := offset + 4 in
  let* afterVersionId := readUInt32BE b offset in
  let offset := offset + 4 in
  let* beforeEOL := readUInt8 b offset in
  let offset := offset + 1 in
  let* afterEOL := readUInt8 b offset in
  let offset := offset + 1 in
  let* before := _readSelections b offset [] in
  let* after := _readSelections b (snd before) [] in
  let offset := snd after in
  let* changeCount := readUInt32BE b offset in
  let offset := offset + 4 in
  let* changes := readChanges (Z.to_nat changeCount) b offset [] in
  Ret (mk beforeVersionId afterVersionId beforeEOL afterEOL
         (Some (fst before)) (Some (fst after)) (fst changes)).

(** ** The bytes *)

Definition selection_bytes (s : Selection.t) : list Z :=
  be32 (Selection.selectionStartLineNumber s) ++ be32 (Selection.selectionStartColumn s) ++
  be32 (Selection.positionLineNumber s) ++ be32 (Selection.positionColumn s).

Definition selections_bytes (l : list Selection.t) : list Z :=
  be32 (zlen l) ++ mjoin (selection_bytes <$> l).

Definition header_bytes (d : t) : list Z :=
  be32 (beforeVersionId d) ++ be32 (afterVersionId d) ++ [beforeEOL d; afterEOL d].

Definition data_bytes (d : t) : list Z :=
  header_bytes d ++ selections_bytes (default [] (beforeCursorState d)) ++
  selections_bytes (default [] (afterCursorState d)) ++
  be32 (zlen (changes d)) ++ mjoin (TextChange.bytes <$> changes d).

Definition storable_selection (s : Selection.t) : Prop :=
  Selection.wf s /\ in_uint32 (Selection.selectionStartLineNumber s) /\
  in_uint32 (Selection.selectionStartColumn s) /\
  in_uint32 (Selection.positionLineNumber s) /\ in_uint32 (Selection.positionColumn s).

Definition storable_selections (o : option (list Selection.t)) : Prop :=
  Forall storable_selection (default [] o) /\ in_uint32 (zlen (default [] o)).

(** What the format can hold. *)
Definition storable (d : t) : Prop :=
  in_uint32 (beforeVersionId d) /\ in_uint32 (afterVersionId d) /\
  0 <= beforeEOL d < 2 ^ 8 /\ 0 <= afterEOL d < 2 ^ 8 /\
  storable_selections (beforeCursorState d) /\ storable_selections (afterCursorState d) /\
  Forall TextChange.storable (changes d) /\ in_uint32 (zlen (changes d)).

(** What comes back: [null] cursor states become empty arrays. *)
Definition reloaded (d : t) : t :=
  mk (beforeVersionId d) (afterVersionId d) (beforeEOL d) (afterEOL d)
    (Some (default [] (beforeCursorState d))) (Some (default [] (afterCursorState d)))
    (changes d).

(** ** Writing *)

Lemma writes_selection s : storable_selection s ->
  writes (fun b => writeSelection b s) (selection_bytes s).
Proof.
  intros (_ & H1 & H2 & H3 & H4). unfold selection_bytes.
  exact (writes_seq _ _ _ _ (writes_32 _ H1) (writes_seq _ _ _ _ (writes_32 _ H2)
    (writes_seq _ _ _ _ (writes_32 _ H3) (writes_32 _ H4)))).
Qed.

Lemma writes_selections_loop l : Forall storable_selection l ->
  writes (fun b => writeSelections_loop b l) (mjoin (selection_bytes <$> l)).
Proof.
  induction 1 as [| x l Hx Hl IH]; [apply writes_id |].
  exact (writes_seq _ _ _ _ (writes_selection x Hx) IH).
Qed.

Lemma writes_selections o : storable_selections o ->
  writes (fun b => _writeSelections b o) (selections_bytes (default [] o)).
Proof.
  intros [HF HL]. destruct o as [l |]; cbn in *.
  - exact (writes_seq _ _ _ _ (writes_32 _ HL) (writes_selections_loop l HF)).
  - pose proof (writes_seq _ _ _ _ (writes_32 _ HL) writes_id) as H.
    unfold selections_bytes. cbn [mjoin fmap list_fmap list_join]. exact H.
Qed.

Lemma writes_changes l : Forall TextChange.storable l ->
  writes (fun b => writeChanges b l) (mjoin (TextChange.bytes <$> l)).
Proof.
  induction 1 as [| x l Hx Hl IH]; [apply writes_id |].
  exact (writes_seq _ _ _ _ (TextChange.writes_change x Hx) IH).
Qed.

Lemma zlen_selections_bytes l : zlen (selections_bytes l) = 4 + 16 * zlen l.
Proof.
  unfold selections_bytes. rewrite zlen_app. f_equal.
  induction l as [| x l IH]; [done |].
  rewrite mjoin_fmap_cons, zlen_app, IH, zlen_cons.
  change (zlen (selection_bytes x)) with 16. lia.
Qed.

Lemma zlen_data_bytes d : zlen (data_bytes d) = necessarySize d.
Proof.
  unfold data_bytes, necessarySize, _writeSelectionsSize.
  rewrite !zlen_app, !zlen_selections_bytes.
  assert (zlen (mjoin (TextChange.bytes <$> changes d)) = zsum (TextChange.writeSize <$> changes d)) as ->.
  { induction (changes d) as [| c l IH]; [done |].
    rewrite mjoin_fmap_cons, zlen_app, IH, TextChange.zlen_bytes. done. }
  change (zlen (header_bytes d)) with 10. rewrite zlen_be32.
  destruct (beforeCursorState d), (afterCursorState d); cbn; rewrite ?(zlen_nil (A:=Selection.t)); lia.
Qed.

(** [serialize] fills its buffer exactly. *)
Lemma serialize_bytes d : storable d -> serialize d = data_bytes d.
Proof.
  intros (H1 & H2 & H3 & H4 & H5 & H6 & H7 & H8).
  pose proof (writes_seq _ _ _ _ (writes_32 _ H1) (writes_seq _ _ _ _ (writes_32 _ H2)
    (writes_seq _ _ _ _ (writes_8 _ H3) (writes_seq _ _ _ _ (writes_8 _ H4)
    (writes_seq _ _ _ _ (writes_selections _ H5) (writes_seq _ _ _ _ (writes_selections _ H6)
    (writes_seq _ _ _ _ (writes_32 _ H8) (writes_changes _ H7)))))))
    [] (zeros (necessarySize d)) []) as H.
  rewrite !app_nil_r in H.
  assert (0 <= necessarySize d) by (rewrite <- zlen_data_bytes; apply zlen_nonneg).
  specialize (H ltac:(rewrite zlen_zeros, <- zlen_data_bytes by done;
    unfold data_bytes, header_bytes; by rewrite <- !app_assoc)).
  apply (f_equal fst) in H. cbn [fst] in H.
  unfold data_bytes, header_bytes. rewrite <- !app_assoc.
  etransitivity; [| exact H].
  unfold serialize, wseq, write32, write8.
  change (zlen (@nil Z)) with 0. cbn [app].
  repeat match goal with |- context [let '(_, _) := ?x in _] => destruct x end. done.
Qed.

(** ** Reading *)

Lemma readSelections_loop_ok l buf off p s dest :
  buf = p ++ mjoin (selection_bytes <$> l) ++ s -> off = zlen p ->
  Forall storable_selection l ->
  readSelections_loop (length l) buf off dest = Ret (dest ++ l, off + 16 * zlen l).
Proof.
  intros Hb Ho Hl. revert off p dest Hb Ho.
  induction Hl as [| x l Hx Hl IH]; intros off p dest Hb Ho.
  { cbn. rewrite app_nil_r. do 2 f_equal. unfold zlen; cbn; lia. }
  destruct Hx as (Hwf & H1 & H2 & H3 & H4).
  rewrite mjoin_fmap_cons in Hb. unfold selection_bytes in Hb at 1.
  rewrite <- !app_assoc in Hb. cbn [readSelections_loop length].
  rewrite (readUInt32BE_at _ _ _ _ _ Hb Ho H1). cbn [res_bind].
  rewrite app_assoc in Hb. rewrite (readUInt32BE_at _ _ _ _ _ Hb) by (rewrite ?zlen_app, ?zlen_be32; lia || done).
  cbn [res_bind]. rewrite app_assoc in Hb.
  rewrite (readUInt32BE_at _ _ _ _ _ Hb) by (rewrite ?zlen_app, ?zlen_be32; lia || done).
  cbn [res_bind]. rewrite app_assoc in Hb.
  rewrite (readUInt32BE_at _ _ _ _ _ Hb) by (rewrite ?zlen_app, ?zlen_be32; lia || done).
  cbn [res_bind]. rewrite app_assoc in Hb.
  rewrite (IH _ _ _ Hb) by (rewrite !zlen_app, ?zlen_be32; lia).
  rewrite <- app_assoc. cbn [app].
  replace (Selection.new _ _ _ _) with x by (destruct x; unfold Selection.wf in Hwf; cbn in *; by subst).
  do 2 f_equal. rewrite zlen_cons. lia.
Qed.

Lemma readSelections_ok l buf off p s :
  buf = p ++ selections_bytes l ++ s -> off = zlen p ->
  Forall storable_selection l -> in_uint32 (zlen l) ->
  _readSelections buf off [] = Ret (l, off + zlen (selections_bytes l)).
Proof.
  intros Hb Ho Hl Hn. unfold selections_bytes in Hb. rewrite <- app_assoc in Hb.
  unfold _readSelections. rewrite (readUInt32BE_at _ _ _ _ _ Hb Ho Hn). cbn [res_bind].
  rewrite app_assoc in Hb. replace (Z.to_nat (zlen l)) with (length l) by (unfold zlen; lia).
  rewrite (readSelections_loop_ok _ _ _ _ _ _ Hb) by (rewrite ?zlen_app, ?zlen_be32; lia || done).
  rewrite zlen_selections_bytes. cbn [app]. do 2 f_equal. lia.
Qed.

Lemma readChanges_ok l buf off p s dest :
  buf = p ++ mjoin (TextChange.bytes <$> l) ++ s -> off = zlen p -> Z.even (zlen p) = true ->
  Forall TextChange.storable l ->
  exists off', readChanges (length l) buf off dest = Ret (dest ++ l, off').
Proof.
  intros Hb Ho He Hl. revert off p dest Hb Ho He.
  induction Hl as [| c l Hc Hl IH]; intros off p dest Hb Ho He.
  { cbn. rewrite app_nil_r. eauto. }
  rewrite mjoin_fmap_cons in Hb. rewrite <- app_assoc in Hb.
  cbn [readChanges length].
  assert (TextChange.read buf off dest = Ret (dest ++ [c], zlen p + TextChange.writeSize c)) as ->
    by (rewrite Hb, Ho; by apply TextChange.read_mid).
  cbn [res_bind fst snd]. rewrite app_assoc in Hb.
  destruct (IH (zlen p + TextChange.writeSize c) _ (dest ++ [c]) Hb) as [off' H];
    [by rewrite zlen_app, TextChange.zlen_bytes | |].
  - by rewrite zlen_app, TextChange.zlen_bytes, Z.even_add, He, TextChange.even_writeSize.
  - exists off'. by rewrite H, <- app_assoc.
Qed.

Lemma deserialize_bytes d : storable d -> deserialize (data_bytes d) = Ret (reloaded d).
Proof.
  intros (H1 & H2 & H3 & H4 & [H5 L5] & [H6 L6] & H7 & H8).
  remember (data_bytes d) as buf eqn:Hb. unfold data_bytes, header_bytes in Hb.
  rewrite <- !app_assoc in Hb. unfold deserialize.
  assert (forall v : Z, zlen [v] = 1) as Z1 by done.
  rewrite (readUInt32BE_at buf 0 _ [] _ Hb) by done. cbn [res_bind].
  rewrite (readUInt32BE_at buf (0 + 4) _ _ _ Hb) by done. cbn [res_bind].
  rewrite (app_assoc (be32 _)) in Hb.
  rewrite (readUInt8_at buf (0 + 4 + 4) _ _ _ Hb) by done. cbn [res_bind].
  rewrite (app_assoc (_ ++ _) [_; _]) in Hb.
  rewrite (readUInt8_at buf (0 + 4 + 4 + 1) (afterEOL d) ((be32 (beforeVersionId d) ++ be32 (afterVersionId d)) ++ [beforeEOL d]) _ Hb) by done.
  cbn [res_bind].
  rewrite (readSelections_ok _ buf _ _ _ Hb) by done. cbn [res_bind fst snd].
  rewrite app_assoc in Hb.
  rewrite (readSelections_ok _ buf _ _ _ Hb) by (done || by rewrite zlen_app).
  cbn [res_bind fst snd]. rewrite app_assoc in Hb.
  rewrite (readUInt32BE_at buf _ _ _ _ Hb) by (done || by rewrite !zlen_app). cbn [res_bind].
  rewrite app_assoc in Hb. rewrite <- (app_nil_r (mjoin _)) in Hb.
  replace (Z.to_nat (zlen (changes d))) with (length (changes d)) by (unfold zlen; lia).
  edestruct (readChanges_ok (changes d) buf) as [off' ->]; [exact Hb | | | done |].
  - by rewrite !zlen_app.
  - rewrite !zlen_app, !zlen_selections_bytes, zlen_be32, !Z.even_add, !Z.even_mul. done.
  - done.
Qed.

(** C30: the undo stack's byte format loses nothing: [serialize] fills its
    buffer exactly and [deserialize] returns the versions, end-of-line
    sequences, selections and changes that were stored (a [null] cursor state
    comes back as an empty array, and a second round trip changes nothing),
    provided the numbers fit their fields and the texts have no unpaired
    surrogate. *)
Theorem serialize_roundtrip d :
  storable d ->
  zlen (serialize d) = necessarySize d /\
  deserialize (serialize d) = Ret (reloaded d) /\
  storable (reloaded d) /\ serialize (reloaded d) = serialize d.
Proof.
  intros Hd. assert (storable (reloaded d)) as Hr by exact Hd.
  rewrite !serialize_bytes, zlen_data_bytes, deserialize_bytes by done. done.
Qed.

Definition sample : t :=
  mk 7 9 EOL_LF EOL_CRLF None (Some [Selection.new 3 4 1 2])
    [TextChange.mk 5 [97; 98] 5 [55357; 56832]; TextChange.mk 300 [] 300 [65279]].

Lemma sample_storable : storable sample.
Proof.
  repeat split; cbn; try lia;
    repeat (apply Forall_cons; split); try apply Forall_nil; try done;
    repeat split; unfold is_unit; cbn; try lia; try done;
    repeat (apply Forall_cons; split); try apply Forall_nil; try done; lia.
Qed.

Lemma serialize_roundtrip_witness : deserialize (serialize sample) = Ret (reloaded sample).
Proof. destruct (serialize_roundtrip sample) as (_ & H & _); [apply sample_storable | exact H]. Defined.

End SingleModelEditStackData.

Module SingleModelEditStackElement.
Import SingleModelEditStackData Edits.

(** [model: ITextModel | URI] *)
Inductive modelRef := TextModel (id : nat) (uri : jsstring) | Uri (uri : jsstring).

(** [_data: SingleModelEditStackData | ArrayBuffer] *)
Inductive data := Live (d : SingleModelEditStackData.t) | Serialized (b : list Z).

Record t := mk { model : modelRef; _data : data }.

Definition new `{ITextModels W} (w : W) (id : nat) (uri : jsstring)
    (beforeCursorState : option (list Selection.t)) : t :=
  mk (TextModel id uri) (Live (create w id beforeCursorState)).

Definition resource (this : t) : jsstring :=
  match model this with Uri uri => uri | TextModel _ uri => uri end.

Definition matchesResource (this : t) (uri : jsstring) : bool :=
  bool_decide (resource this = uri).

Definition setModel (this : t) (model : modelRef) : t := mk model (_data this).

Definition canAppend (this : t) (id : nat) : bool :=
  match model this, _data this with
  | TextModel id' _, Live _ => bool_decide (id' = id)
  | _, _ => false
  end.

Definition append (this : t) (textChanges : list TextChange.t) (afterEOL afterVersionId : Z)
    (afterCursorState : option (list Selection.t)) : res t :=
  match _data this with
  | Live d =>
      let* d := SingleModelEditStackData.append d textChanges afterEOL afterVersionId afterCursorState in
      Ret (mk (model this) (Live d))
  | Serialized _ => Ret this
  end.

(** The bytes of the data: [if (this._data instanceof ...) this._data =
    this._data.serialize()] *)
Definition toBytes (x : data) : list Z :=
  match x with Live d => serialize d | Serialized b => b end.

Definition close (this : t) : t := mk (model this) (Serialized (toBytes (_data this))).

Definition open (this : t) : res t :=
  match _data this with
  | Live _ => Ret this
  | Serialized b => let* d := deserialize b in Ret (mk (model this) (Live d))
  end.

Definition undo `{ITextModels W} (w : W) (this : t) : res (t * W) :=
  match model this with
  | Uri _ => Throw Error
  | TextModel id _ =>
      let this := mk (model this) (Serialized (toBytes (_data this))) in
      let* d := deserialize (toBytes (_data this)) in
      Ret (this, _applyUndo w id (changes d) (beforeEOL d) (beforeVersionId d) (beforeCursorState d))
  end.

Definition redo `{ITextModels W} (w : W) (this : t) : res (t * W) :=
  match model this with
  | Uri _ => Throw Error
  | TextModel id _ =>
      let this := mk (model this) (Serialized (toBytes (_data this))) in
      let* d := deserialize (toBytes (_data this)) in
      Ret (this, _applyRedo w id (changes d) (afterEOL d) (afterVersionId d) (afterCursorState d))
  end.

Definition heapSize (this : t) : Z * t :=
  let this := close this in
  (zlen (toBytes (_data this)) + 168, this).

(** ** The life of an element

    A moment of a model: its text, line end, alternative version and the cursors.
    [session a el b]: the element [el] was created at the moment [a], and [b] is the
    moment after the last changes appended to it.  The element may be closed, measured
    and reopened in between, and undone and redone while the model is where it left it. *)
Record moment := mkMoment { text : jsstring; eol : Z; version : Z; cursors : option (list Selection.t) }.

Section Session.
Context `{ITextModels W}.

Inductive session (a : moment) : t -> moment -> Prop :=
| session_new w id uri :
    eol a = getModelEOL w id -> version a = getAlternativeVersionId w id ->
    session a (new w id uri (cursors a)) a
| session_append el b c textChanges id el' :
    session a el b ->
    canAppend el id = true ->
    edits 0 0 textChanges (text b) (text c) ->
    append el textChanges (eol c) (version c) (cursors c) = Ret el' ->
    session a el' c
| session_close el b d :
    session a el b -> _data el = Live d -> storable d -> session a (close el) b
| session_open el b el' : session a el b -> open el = Ret el' -> session a el' b
| session_heapSize el b d :
    session a el b -> _data el = Live d -> storable d -> session a (snd (heapSize el)) b
| session_setModel el b m : session a el b -> session a (setModel el m) b.

(** Data that leads from one moment to another; the byte format takes no cursors for an
    empty array of cursors. *)
Record spans (d : SingleModelEditStackData.t) (a b : moment) : Prop := {
  sp_edits : edits 0 0 (changes d) (text a) (text b);
  sp_before : beforeEOL d = eol a /\ beforeVersionId d = version a /\ default [] (beforeCursorState d) = default [] (cursors a);
  sp_after : afterEOL d = eol b /\ afterVersionId d = version b /\ default [] (afterCursorState d) = default [] (cursors b)
}.

Definition holds (el : t) (a b : moment) : Prop :=
  match _data el with
  | Live d => spans d a b
  | Serialized bs => exists d, storable d /\ bs = serialize d /\ spans d a b
  end.

Lemma append_holds el a b c textChanges :
  holds el a b -> edits 0 0 textChanges (text b) (text c) ->
  (exists d, _data el = Live d) ->
  exists el', append el textChanges (eol c) (version c) (cursors c) = Ret el' /\ holds el' a c.
Proof.
  intros Hel Hc [d Hd]. unfold append, holds in *. rewrite Hd in *. destruct Hel as [He Hbe _].
  unfold SingleModelEditStackData.append. destruct textChanges as [| c1 cs].
  - apply edits_nil_inv in Hc as Hc. cbn. eexists. split; [done |]. split; cbn; [by rewrite <- Hc | done | done].
  - rewrite (proj2 (Z.ltb_lt _ _)) by (rewrite zlen_cons; pose proof (zlen_nonneg cs); lia).
    unfold TextChangeCompressor.compressConsecutiveTextChanges.
    destruct (changes d) as [| p P] eqn:E.
    + apply edits_nil_inv in He as He. cbn. eexists. split; [done |]. split; cbn; [by rewrite He | done | done].
    + destruct (TextChangeCompressor.compress_ok _ _ _ _ _ He Hc) as (R & -> & HR & _).
      cbn. eexists. split; [done |]. by split.
Qed.

Lemma session_holds a el b : session a el b -> holds el a b.
Proof.
  induction 1 as [w id uri He Hv | el b c cs id el' _ IH Hca Hc He | el b d _ IH Hd Hs
    | el b el' _ IH He | el b d _ IH Hd Hs | el b m _ IH].
  - split; cbn; [constructor | done | done].
  - unfold canAppend in Hca. destruct (model el), (_data el) eqn:Hd; try done.
    edestruct (append_holds el) as (el2 & Heq & Hh); [exact IH | exact Hc | by eexists |].
    rewrite Heq in He. by injection He as <-.
  - unfold close, holds in *. rewrite Hd in *. cbn. eauto.
  - unfold open, holds in *. destruct el as [m [d | bs]]; cbn in *; [by injection He as <- |].
    destruct IH as (d & Hs & -> & Hch). rewrite serialize_bytes, deserialize_bytes in He by done.
    injection He as <-. cbn. destruct Hch. by split.
  - unfold heapSize, close, holds in *. rewrite Hd in *. cbn. eauto.
  - done.
Qed.

(** C24: undo and redo of an element restore exactly the moments it spans.
    Whatever sequence of appends, closes, measurements and reopenings an element
    went through since its creation at the moment [a], the last changes appended to it
    leading to the moment [b], and provided that what it holds fits the byte format
    (numbers in their fields, no unpaired surrogate in a text), [undo] hands the
    model changes whose inverse turns the text of [b] into that of [a], with the line
    end, version and cursors of [a], and [redo] changes that turn the text of [a] into
    that of [b], with the line end, version and cursors of [b] (no cursors become an
    empty array); both throw nothing, leave the element closed with the same
    meaning, and appending goes on composing (never throwing) while the element is open. *)
Theorem undo_redo_span a el b w id uri :
  session a el b -> model el = TextModel id uri ->
  (forall d, _data el = Live d -> storable d) ->
  exists cs,
    undo w el = Ret (close el, _applyUndo w id cs (eol a) (version a) (Some (default [] (cursors a)))) /\
    apply_changes 0 (inverse <$> cs) (text b) = text a /\
    redo w el = Ret (close el, _applyRedo w id cs (eol b) (version b) (Some (default [] (cursors b)))) /\
    apply_changes 0 cs (text a) = text b /\
    holds (close el) a b /\
    (forall textChanges c,
       canAppend el id = true -> edits 0 0 textChanges (text b) (text c) ->
       exists el', append el textChanges (eol c) (version c) (cursors c) = Ret el' /\ holds el' a c).
Proof.
  intros Hse Hm Hst. pose proof (session_holds _ _ _ Hse) as Hh.
  assert (exists d, toBytes (_data el) = serialize d /\ storable d /\ spans d a b)
    as (d & Hb & Hs & He).
  { unfold holds in Hh. destruct (_data el) as [d | bs] eqn:Hd; cbn; [by eauto |].
    destruct Hh as (d & ? & -> & ?). eauto. }
  pose proof He as [Hed (B1 & B2 & B3) (A1 & A2 & A3)].
  exists (changes d). unfold undo, redo, close. rewrite Hm. cbn [toBytes _data].
  rewrite Hb, (serialize_bytes d), (deserialize_bytes d) by done. cbn [res_bind reloaded changes beforeEOL beforeVersionId beforeCursorState afterEOL afterVersionId afterCursorState].
  rewrite B1, B2, B3, A1, A2, A3. split_and!; try done.
  - by eapply edits_apply, edits_inverse.
  - by eapply edits_apply.
  - unfold holds. cbn. exists d. by rewrite serialize_bytes.
  - intros cs c Hca Hc. apply (append_holds el a b c); [done | done |].
    unfold canAppend in Hca. rewrite Hm in Hca. destruct (_data el); [by eexists | done].
Qed.
End Session.

(** A world of one model that records its text. *)
Record doc := mkdoc { docText : jsstring; docVersion : Z }.

#[export] Instance one_doc : ITextModels doc := {
  getEOL _ _ := [10];
  getAlternativeVersionId w _ := docVersion w;
  _applyUndo w _ cs _ v _ := mkdoc (apply_changes 0 (inverse <$> cs) (docText w)) v;
  _applyRedo w _ cs _ v _ := mkdoc (apply_changes 0 cs (docText w)) v
}.

(** A model with LF and version 1 and no cursors; "b" was replaced by "x", after which the
    version is 2 and a cursor is set. *)
Lemma undo_redo_span_witness :
  exists el cs,
    undo (mkdoc [97; 120; 99] 2) el = Ret (close el, _applyUndo (mkdoc [97; 120; 99] 2) 0 cs EOL_LF 1 (Some [])) /\
    apply_changes 0 (inverse <$> cs) [97; 120; 99] = [97; 98; 99] /\
    redo (mkdoc [97; 120; 99] 2) el = Ret (close el, _applyRedo (mkdoc [97; 120; 99] 2) 0 cs EOL_LF 2 (Some [Selection.new 1 3 1 3])) /\
    apply_changes 0 cs [97; 98; 99] = [97; 120; 99].
Proof.
  set (a := mkMoment [97; 98; 99] EOL_LF 1 None).
  set (b := mkMoment [97; 120; 99] EOL_LF 2 (Some [Selection.new 1 3 1 3])).
  set (c := TextChange.mk 1 [98] 1 [120]).
  set (el := mk (TextModel 0 []) (Live (SingleModelEditStackData.mk 1 2 EOL_LF EOL_LF None (cursors b) [c]))).
  assert (session (W:=doc) a el b) as Hs.
  { eapply (session_append a (new (mkdoc [97; 98; 99] 1) 0%nat [] None) a b [c] 0%nat);
      [apply (session_new a (mkdoc [97; 98; 99] 1) 0%nat []); done | done | | vm_compute; reflexivity].
    apply (edits_cons 0 0 [97] c [] [99] [99]); [done | done | constructor]. }
  assert (St : forall d, _data el = Live d -> storable d).
  { intros d [= <-]. repeat split; cbn; try lia; repeat (apply Forall_cons; split);
      try apply Forall_nil; try done; repeat split; unfold is_unit; cbn; try lia; try done;
      repeat (apply Forall_cons; split); try apply Forall_nil; try done; lia. }
  destruct (undo_redo_span a el b (mkdoc [97; 120; 99] 2) 0%nat [] Hs eq_refl St) as (cs & H1 & H2 & H3 & H4 & _).
  exists el, cs. split; [exact H1 |]. split; [exact H2 |]. split; [exact H3 | exact H4].
Defined.

End SingleModelEditStackElement.

Module MultiModelEditStackElement.
Import SingleModelEditStackElement.
Module Single := SingleModelEditStackElement.

(** The map's values are the objects of the array, so it holds their indices.
    [_delegate] (a callback) is left out. *)
Record t := mk {
  _isOpen : bool;
  _editStackElementsArr : list Single.t;
  _editStackElementsMap : gmap jsstring nat
}.

(** the constructor's loop: a later element with the same key wins *)
Fixpoint indexByKey (i : nat) (l : list Single.t) (m : gmap jsstring nat) : gmap jsstring nat :=
  match l with
  | [] => m
  | el :: l => indexByKey (S i) l (<[Single.resource el := i]> m)
  end.

Definition new (editStackElements : list Single.t) : t :=
  mk true editStackElements (indexByKey 0 editStackElements ∅).

Definition resources (this : t) : list jsstring := Single.resource <$> _editStackElementsArr this.

Definition getMissingModels (this : t) : list jsstring :=
  omap (fun el => match Single.model el with Uri u => Some u | TextModel _ _ => None end)
    (_editStackElementsArr this).

Definition matchesResource (this : t) (uri : jsstring) : bool :=
  bool_decide (is_Some (_editStackElementsMap this !! uri)).

Definition refKey (m : modelRef) : jsstring :=
  match m with Uri u => u | TextModel _ u => u end.

Definition setModel (this : t) (model : modelRef) : t :=
  match _editStackElementsMap this !! refKey model with
  | Some i => mk (_isOpen this)
      (alter (fun el => Single.setModel el model) i (_editStackElementsArr this))
      (_editStackElementsMap this)
  | None => this
  end.

Definition canAppend (this : t) (id : nat) (uri : jsstring) : bool :=
  if negb (_isOpen this) then false else
  match _editStackElementsMap this !! uri ≫= (_editStackElementsArr this !!.) with
  | Some el => Single.canAppend el id
  | None => false
  end.

Definition append (this : t) (uri : jsstring) (textChanges : list TextChange.t)
    (afterEOL afterVersionId : Z) (afterCursorState : option (list Selection.t)) : res t :=
  let* i := js_get (_editStackElementsMap this !! uri) in
  let* el := js_get (_editStackElementsArr this !! i) in
  let* el := Single.append el textChanges afterEOL afterVersionId afterCursorState in
  Ret (mk (_isOpen this) (<[i := el]> (_editStackElementsArr this)) (_editStackElementsMap this)).

Definition close (this : t) : t :=
  mk false (_editStackElementsArr this) (_editStackElementsMap this).

Definition open (this : t) : t := this.

(** [for (const el of arr) el.undo()]: stops at the first that throws *)
Fixpoint each {W} (f : W -> Single.t -> res (Single.t * W)) (w : W) (l : list Single.t)
    : res (list Single.t * W) :=
  match l with
  | [] => Ret ([], w)
  | el :: l =>
      let* r := f w el in
      let* rest := each f (snd r) l in
      Ret (fst r :: fst rest, snd rest)
  end.

Definition undo `{ITextModels W} (w : W) (this : t) : res (t * W) :=
  let* r := each Single.undo w (_editStackElementsArr this) in
  Ret (mk false (fst r) (_editStackElementsMap this), snd r).

Definition redo `{ITextModels W} (w : W) (this : t) : res (t * W) :=
  let* r := each Single.redo w (_editStackElementsArr this) in
  Ret (mk (_isOpen this) (fst r) (_editStackElementsMap this), snd r).

Definition heapSize (this : t) (uri : jsstring) : Z * t :=
  match _editStackElementsMap this !! uri with
  | Some i =>
      match _editStackElementsArr this !! i with
      | Some el => let '(n, el) := Single.heapSize el in
          (n, mk (_isOpen this) (<[i := el]> (_editStackElementsArr this)) (_editStackElementsMap this))
      | None => (0, this)
      end
  | None => (0, this)
  end.

(** The map names an element of that resource. *)
Definition indexed (this : t) : Prop :=
  (forall uri i, _editStackElementsMap this !! uri = Some i ->
     exists el, _editStackElementsArr this !! i = Some el /\ Single.resource el = uri) /\
  (forall el, el ∈ _editStackElementsArr this ->
     is_Some (_editStackElementsMap this !! Single.resource el)).

Lemma indexByKey_spec l l0 m :
  (forall uri i, m !! uri = Some i -> exists el, (l0 ++ l) !! i = Some el /\ Single.resource el = uri) ->
  (forall el, el ∈ l0 -> is_Some (m !! Single.resource el)) ->
  let m' := indexByKey (length l0) l m in
  (forall uri i, m' !! uri = Some i -> exists el, (l0 ++ l) !! i = Some el /\ Single.resource el = uri) /\
  (forall el, el ∈ l0 ++ l -> is_Some (m' !! Single.resource el)).
Proof.
  revert l0 m. induction l as [| el l IH]; intros l0 m H1 H2; cbn.
  - rewrite app_nil_r in *. done.
  - specialize (IH (l0 ++ [el]) (<[Single.resource el := length l0]> m)).
    rewrite length_app, Nat.add_comm, <- app_assoc in IH. apply IH.
    + intros uri i. rewrite lookup_insert_Some. intros [[<- <-] | [_ Hi]]; [| by apply H1].
      exists el. split; [| done]. by apply list_lookup_middle.
    + intros x. rewrite elem_of_app, list_elem_of_singleton, lookup_insert_is_Some'.
      intros [Hx | ->]; [right; auto | by left].
Qed.

Lemma new_indexed els : indexed (new els).
Proof.
  destruct (indexByKey_spec els [] ∅) as [H1 H2]; [| by intros ? ?%elem_of_nil | by split].
  intros uri i. by rewrite lookup_empty.
Qed.

Lemma each_resources {W} (f : W -> Single.t -> res (Single.t * W)) :
  (forall w el el' w', f w el = Ret (el', w') -> Single.resource el' = Single.resource el) ->
  forall l w l' w', each f w l = Ret (l', w') ->
  Single.resource <$> l' = Single.resource <$> l.
Proof.
  intros Hf. induction l as [| el l IH]; cbn; intros w l' w' H; [by injection H as <- <- |].
  destruct (f w el) as [[el1 w1] |] eqn:E; [| done]. cbn in H.
  destruct (each f w1 l) as [[l1 w2] |] eqn:E2; [| done]. cbn in H. injection H as <- <-.
  cbn. f_equal; [by eapply Hf | by eapply IH].
Qed.

(** The index stays right as long as the elements keep their resources. *)
Lemma indexed_ext this this' :
  indexed this -> _editStackElementsMap this' = _editStackElementsMap this ->
  resources this' = resources this -> indexed this'.
Proof.
  unfold resources. intros [H1 H2] Hm Hr. split.
  - rewrite Hm. intros uri i Hi. destruct (H1 uri i Hi) as (el & He & <-).
    apply (f_equal (.!! i)) in Hr. rewrite !list_lookup_fmap, He in Hr.
    destruct (_editStackElementsArr this' !! i) as [el' |]; [| done]. injection Hr as Hr. eauto.
  - rewrite Hm. intros el Hel. apply (list_elem_of_fmap_2 Single.resource) in Hel.
    rewrite Hr in Hel. apply list_elem_of_fmap in Hel as (el' & -> & Hel'). auto.
Qed.

Lemma single_undo_resource `{ITextModels W} (w : W) el el' w' :
  (Single.undo w el = Ret (el', w') -> Single.resource el' = Single.resource el) /\
  (Single.redo w el = Ret (el', w') -> Single.resource el' = Single.resource el).
Proof.
  unfold Single.undo, Single.redo, Single.resource.
  destruct (Single.model el) eqn:E; [| done]. cbn.
  destruct (SingleModelEditStackData.deserialize _); cbn; split; intros; simplify_eq; cbn;
    by rewrite ?E.
Qed.

(** In an element over several models the map always names, for every
    resource of the array, an element of that resource: the constructor
    establishes this and [setModel], [append], [undo], [redo], [heapSize] and
    [close] keep it.  So [append] to a resource of the element reaches an
    element of that resource and no other.  Once closed or undone the element
    takes no further changes, and reopening does not change that. *)
Lemma multi_index_invariant `{ITextModels W} this (w : W) :
  indexed this ->
  (forall els, indexed (new els)) /\
  (forall m, indexed (setModel this m)) /\
  (forall uri cs eol ver cur this', append this uri cs eol ver cur = Ret this' ->
     indexed this' /\ exists i el el',
       _editStackElementsArr this !! i = Some el /\ Single.resource el = uri /\
       Single.append el cs eol ver cur = Ret el' /\
       _editStackElementsArr this' = <[i := el']> (_editStackElementsArr this)) /\
  (forall uri, indexed (snd (heapSize this uri))) /\
  (forall this' w', undo w this = Ret (this', w') -> indexed this' /\
     forall id uri, canAppend (open this') id uri = false) /\
  (forall this' w', redo w this = Ret (this', w') -> indexed this') /\
  (indexed (close this) /\ forall id uri, canAppend (open (close this)) id uri = false).
Proof.
  intros HI. split_and!; try done.
  - apply new_indexed.
  - intros m. apply (indexed_ext this); [done | by unfold setModel; case_match |].
    unfold setModel. destruct (_ !! refKey m) as [i |] eqn:Hi; [| done].
    destruct (proj1 HI _ _ Hi) as (el & He & Hr). unfold resources. cbn.
    apply list_eq. intros j. rewrite !list_lookup_fmap, list_lookup_alter.
    case_decide; [| done]. subst j. rewrite He. cbn. f_equal. by rewrite Hr; destruct m.
  - intros uri cs eol ver cur this' Ha. unfold append in Ha.
    destruct (_ !! uri) as [i |] eqn:Hi; [| done]. cbn in Ha.
    destruct (proj1 HI _ _ Hi) as (el & He & Hr). rewrite He in Ha. cbn in Ha.
    destruct (Single.append el cs eol ver cur) as [el' |] eqn:Hap; [| done]. injection Ha as <-.
    split; [| by exists i, el, el'].
    apply (indexed_ext this); [done | done |]. unfold resources. cbn.
    rewrite list_fmap_insert. apply list_insert_id. rewrite list_lookup_fmap, He. cbn. f_equal.
    unfold Single.append in Hap. destruct (Single._data el); [| by simplify_eq].
    destruct (SingleModelEditStackData.append _ _ _ _ _); cbn in Hap; by simplify_eq.
  - intros uri. unfold heapSize. destruct (_ !! uri) as [i |] eqn:Hi; [| done].
    destruct (proj1 HI _ _ Hi) as (el & He & Hr). rewrite He. cbn.
    apply (indexed_ext this); [done | done |]. unfold resources. cbn.
    rewrite list_fmap_insert. apply list_insert_id. by rewrite list_lookup_fmap, He.
  - intros this' w' Hu. unfold undo in Hu.
    destruct (each _ _ _) as [[l1 w1] |] eqn:E; [| done]. injection Hu as <- <-.
    split; [| done]. apply (indexed_ext this); [done | done |].
    eapply each_resources, E. intros. by eapply (proj1 (single_undo_resource _ _ _ _)).
  - intros this' w' Hu. unfold redo in Hu.
    destruct (each _ _ _) as [[l1 w1] |] eqn:E; [| done]. injection Hu as <- <-.
    apply (indexed_ext this); [done | done |].
    eapply each_resources, E. intros. by eapply (proj2 (single_undo_resource _ _ _ _)).
Qed.

End MultiModelEditStackElement.
