(* ===== verification/RBTree.v ===== *)
(** * The red-black tree of the piece table, on its heap of nodes

    [src/vs/editor/common/model/pieceTreeTextBuffer/rbTreeBase.ts].  The nodes
    are objects with parent, left and right references that the code updates in
    place; the model keeps them in a heap, a finite map from references to
    nodes.  [SENTINEL] is a node of the heap like the others (the code shares
    it and writes to its parent). *)

From stdpp Require Import gmap.
From S2P Require Import Prelude.

(** ** Pieces: [BufferCursor] and [Piece] of [pieceTreeBase.ts] *)

Module BufferCursor.
Record t := mk { line : Z; column : Z }.
#[global] Instance cursor_eq_dec : EqDecision t.
Proof. solve_decision. Defined.
End BufferCursor.

Module Piece.
Record t := mk {
  bufferIndex : Z;
  start : BufferCursor.t;
  end_ : BufferCursor.t;
  lineFeedCnt : Z;
  length : Z
}.
#[global] Instance piece_eq_dec : EqDecision t.
Proof. solve_decision. Defined.
End Piece.

(** ** Nodes and the heap *)

Definition ref : Type := nat.

(** [null] is no node; [SENTINEL] is one. *)
Definition NULL : ref := 0%nat.
Definition SENTINEL : ref := 1%nat.

Inductive NodeColor := Black | Red.

#[global] Instance color_eq_dec : EqDecision NodeColor.
Proof. solve_decision. Defined.

Module TreeNode.
Record t := mk {
  parent : ref;
  left : ref;
  right : ref;
  color : NodeColor;
  piece : option Piece.t;
  size_left : Z;
  lf_left : Z
}.

Definition with_parent (v : ref) (n : t) : t :=
  mk v (left n) (right n) (color n) (piece n) (size_left n) (lf_left n).
Definition with_left (v : ref) (n : t) : t :=
  mk (parent n) v (right n) (color n) (piece n) (size_left n) (lf_left n).
Definition with_right (v : ref) (n : t) : t :=
  mk (parent n) (left n) v (color n) (piece n) (size_left n) (lf_left n).
Definition with_color (v : NodeColor) (n : t) : t :=
  mk (parent n) (left n) (right n) v (piece n) (size_left n) (lf_left n).
Definition with_piece (v : option Piece.t) (n : t) : t :=
  mk (parent n) (left n) (right n) (color n) v (size_left n) (lf_left n).
Definition with_meta (sl lf : Z) (n : t) : t :=
  mk (parent n) (left n) (right n) (color n) (piece n) sl lf.
Definition add_meta (ds dl : Z) (n : t) : t :=
  with_meta (size_left n + ds) (lf_left n + dl) n.
End TreeNode.

Record tree := mkTree { heap : gmap ref TreeNode.t; root : ref }.

(** ** The monad of the code: the tree is state, a null reference throws *)

Definition M (A : Type) : Type := tree -> res (A * tree).

#[global] Instance M_ret : MRet M := fun A a t => Ret (a, t).
#[global] Instance M_bind : MBind M := fun A B f m t =>
  match m t with Ret (a, t') => f a t' | Throw e => Throw e end.

Definition throw {A} (e : js_error) : M A := fun _ => Throw e.
Definition get_root : M ref := fun t => Ret (root t, t).
Definition set_root (r : ref) : M unit := fun t => Ret (tt, mkTree (heap t) r).

(** [x.f] and [x.f = v] *)
Definition get (x : ref) : M TreeNode.t := fun t =>
  match heap t !! x with Some n => Ret (n, t) | None => Throw TypeError end.
Definition upd (x : ref) (f : TreeNode.t -> TreeNode.t) : M unit := fun t =>
  match heap t !! x with
  | Some n => Ret (tt, mkTree (<[x := f n]> (heap t)) (root t))
  | None => Throw TypeError
  end.

Definition get_parent (x : ref) : M ref := n ← get x; mret (TreeNode.parent n).
Definition get_left (x : ref) : M ref := n ← get x; mret (TreeNode.left n).
Definition get_right (x : ref) : M ref := n ← get x; mret (TreeNode.right n).
Definition get_color (x : ref) : M NodeColor := n ← get x; mret (TreeNode.color n).

Definition set_parent (x v : ref) : M unit := upd x (TreeNode.with_parent v).
Definition set_left (x v : ref) : M unit := upd x (TreeNode.with_left v).
Definition set_right (x v : ref) : M unit := upd x (TreeNode.with_right v).
Definition set_color (x : ref) (v : NodeColor) : M unit := upd x (TreeNode.with_color v).

(** [a === b] on references *)
Definition same (a b : ref) : bool := bool_decide (a = b).

(** A [while] loop: the body returns the next state of its variables, or the
    value the loop ends with. *)
Fixpoint iter {B A} (fuel : nat) (body : B -> M (B + A)) (s : B) : M A :=
  match fuel with
  | O => throw OutOfFuel
  | S fuel => r ← body s; match r with inl s => iter fuel body s | inr a => mret a end
  end.

(** Loops along a path of the tree turn at most as often as there are nodes. *)
Definition path_fuel : M nat := fun t => Ret (S (S (size (heap t))), t).

(** ** Creating and walking *)

(** [new TreeNode(piece, color)] at a fresh reference *)
Definition new_TreeNode (x : ref) (p : option Piece.t) (c : NodeColor) : TreeNode.t :=
  TreeNode.mk x x x c p 0 0.

Definition sentinel_node : TreeNode.t := new_TreeNode SENTINEL None Black.

Definition leftest (node : ref) : M ref :=
  fuel ← path_fuel;
  iter fuel (fun node =>
    l ← get_left node;
    if negb (same l SENTINEL) then mret (inl l) else mret (inr node)) node.

Definition righttest (node : ref) : M ref :=
  fuel ← path_fuel;
  iter fuel (fun node =>
    r ← get_right node;
    if negb (same r SENTINEL) then mret (inl r) else mret (inr node)) node.

Definition next (this : ref) : M ref :=
  r ← get_right this;
  if negb (same r SENTINEL) then leftest r else
  fuel ← path_fuel;
  node ← iter fuel (fun node =>
    p ← get_parent node;
    if negb (same p SENTINEL) then
      pl ← get_left p;
      if same pl node then mret (inr node) else mret (inl p)
    else mret (inr node)) this;
  p ← get_parent node;
  if same p SENTINEL then mret SENTINEL else mret p.

Definition prev (this : ref) : M ref :=
  l ← get_left this;
  if negb (same l SENTINEL) then righttest l else
  fuel ← path_fuel;
  node ← iter fuel (fun node =>
    p ← get_parent node;
    if negb (same p SENTINEL) then
      pr ← get_right p;
      if same pr node then mret (inr node) else mret (inl p)
    else mret (inr node)) this;
  p ← get_parent node;
  if same p SENTINEL then mret SENTINEL else mret p.

Definition detach (this : ref) : M unit :=
  set_parent this NULL;;
  set_left this NULL;;
  set_right this NULL.

(** [node.piece.length]: a [null] piece throws *)
Definition get_piece (x : ref) : M Piece.t :=
  n ← get x; match TreeNode.piece n with Some p => mret p | None => throw TypeError end.

Fixpoint calculateSize_rec (fuel : nat) (node : ref) : M Z :=
  match fuel with
  | O => throw OutOfFuel
  | S fuel =>
      if same node SENTINEL then mret 0 else
      n ← get node;
      p ← get_piece node;
      rest ← calculateSize_rec fuel (TreeNode.right n);
      mret (TreeNode.size_left n + Piece.length p + rest)
  end.
Definition calculateSize (node : ref) : M Z := fuel ← path_fuel; calculateSize_rec fuel node.

Fixpoint calculateLF_rec (fuel : nat) (node : ref) : M Z :=
  match fuel with
  | O => throw OutOfFuel
  | S fuel =>
      if same node SENTINEL then mret 0 else
      n ← get node;
      p ← get_piece node;
      rest ← calculateLF_rec fuel (TreeNode.right n);
      mret (TreeNode.lf_left n + Piece.lineFeedCnt p + rest)
  end.
Definition calculateLF (node : ref) : M Z := fuel ← path_fuel; calculateLF_rec fuel node.

Definition resetSentinel : M unit := set_parent SENTINEL SENTINEL.

(** ** Rotations *)

(** [x.piece ? x.piece.length : 0] *)
Definition piece_length (n : TreeNode.t) : Z := match TreeNode.piece n with Some p => Piece.length p | None => 0 end.
Definition piece_lf (n : TreeNode.t) : Z := match TreeNode.piece n with Some p => Piece.lineFeedCnt p | None => 0 end.

Definition leftRotate (x : ref) : M unit :=
  y ← get_right x;
  xn ← get x;
  upd y (TreeNode.add_meta (TreeNode.size_left xn + piece_length xn) (TreeNode.lf_left xn + piece_lf xn));;
  yl ← get_left y;
  set_right x yl;;
  (if negb (same yl SENTINEL) then set_parent yl x else mret tt);;
  xp ← get_parent x;
  set_parent y xp;;
  (if same xp SENTINEL then set_root y else
     xpl ← get_left xp;
     if same xpl x then set_left xp y else set_right xp y);;
  set_left y x;;
  set_parent x y.

Definition rightRotate (y : ref) : M unit :=
  x ← get_left y;
  xr ← get_right x;
  set_left y xr;;
  (if negb (same xr SENTINEL) then set_parent xr y else mret tt);;
  yp ← get_parent y;
  set_parent x yp;;
  xn ← get x;
  upd y (TreeNode.add_meta (- (TreeNode.size_left xn + piece_length xn)) (- (TreeNode.lf_left xn + piece_lf xn)));;
  (if same yp SENTINEL then set_root x else
     ypr ← get_right yp;
     if same y ypr then set_right yp x else set_left yp x);;
  set_right x y;;
  set_parent y x.

(** ** Metadata *)

Definition updateTreeMetadata (x : ref) (delta lineFeedCntDelta : Z) : M unit :=
  fuel ← path_fuel;
  iter fuel (fun x =>
    r ← get_root;
    if negb (same x r) && negb (same x SENTINEL) then
      p ← get_parent x;
      pl ← get_left p;
      (if same pl x then upd p (TreeNode.add_meta delta lineFeedCntDelta) else mret tt);;
      mret (inl p)
    else mret (inr tt)) x.

(** the first loop: up to the root or to a left child *)
Definition ascendRight (x : ref) : M ref :=
  fuel ← path_fuel;
  iter fuel (fun x =>
    r ← get_root;
    if negb (same x r) then
      p ← get_parent x;
      pr ← get_right p;
      if same x pr then mret (inl p) else mret (inr x)
    else mret (inr x)) x.

(** the second loop: adds the deltas to every ancestor it reaches from the left *)
Definition propagate (x : ref) (delta lf_delta : Z) : M unit :=
  fuel ← path_fuel;
  iter fuel (fun x =>
    r ← get_root;
    if negb (same x r) && ((delta !== 0) || (lf_delta !== 0)) then
      p ← get_parent x;
      pl ← get_left p;
      (if same pl x then upd p (TreeNode.add_meta delta lf_delta) else mret tt);;
      mret (inl p)
    else mret (inr tt)) x.

Definition recomputeTreeMetadata (x : ref) : M unit :=
  r ← get_root;
  if same x r then mret tt else
  x ← ascendRight x;
  r ← get_root;
  if same x r then mret tt else
  x ← get_parent x;
  n ← get x;
  sz ← calculateSize (TreeNode.left n);
  let delta := sz - TreeNode.size_left n in
  lf ← calculateLF (TreeNode.left n);
  let lf_delta := lf - TreeNode.lf_left n in
  upd x (TreeNode.add_meta delta lf_delta);;
  propagate x delta lf_delta.

(** ** Insertion *)

(** one turn of the loop; the loop ends when the parent is black *)
Definition fixInsert_step (x : ref) : M (ref + unit) :=
  r ← get_root;
  if same x r then mret (inr tt) else
  p ← get_parent x;
  pc ← get_color p;
  if negb (bool_decide (pc = Red)) then mret (inr tt) else
  g ← get_parent p;
  gl ← get_left g;
  if same p gl then
    y ← get_right g;
    yc ← get_color y;
    if bool_decide (yc = Red) then
      set_color p Black;;
      set_color y Black;;
      set_color g Red;;
      mret (inl g)
    else
      pr ← get_right p;
      x ← (if same x pr then leftRotate p;; mret p else mret x);
      p ← get_parent x;
      set_color p Black;;
      g ← get_parent p;
      set_color g Red;;
      rightRotate g;;
      mret (inl x)
  else
    y ← get_left g;
    yc ← get_color y;
    if bool_decide (yc = Red) then
      set_color p Black;;
      set_color y Black;;
      set_color g Red;;
      mret (inl g)
    else
      pl ← get_left p;
      x ← (if same x pl then rightRotate p;; mret p else mret x);
      p ← get_parent x;
      set_color p Black;;
      g ← get_parent p;
      set_color g Red;;
      leftRotate g;;
      mret (inl x).

Definition fixInsert (x : ref) : M unit :=
  recomputeTreeMetadata x;;
  fuel ← path_fuel;
  iter fuel fixInsert_step x;;
  r ← get_root;
  set_color r Black.

(** ** Deletion *)

(** one turn of the RB-DELETE-FIXUP loop *)
Definition rbDelete_step (x : ref) : M (ref + ref) :=
  r ← get_root;
  if same x r then mret (inr x) else
  xc ← get_color x;
  if negb (bool_decide (xc = Black)) then mret (inr x) else
  xp ← get_parent x;
  xpl ← get_left xp;
  if same x xpl then
    w ← get_right xp;
    wc ← get_color w;
    w ← (if bool_decide (wc = Red) then
           set_color w Black;;
           set_color xp Red;;
           leftRotate xp;;
           xp ← get_parent x;
           get_right xp
         else mret w);
    wl ← get_left w; wlc ← get_color wl;
    wr ← get_right w; wrc ← get_color wr;
    if bool_decide (wlc = Black) && bool_decide (wrc = Black) then
      set_color w Red;;
      xp ← get_parent x;
      mret (inl xp)
    else
      w ← (if bool_decide (wrc = Black) then
             set_color wl Black;;
             set_color w Red;;
             rightRotate w;;
             xp ← get_parent x;
             get_right xp
           else mret w);
      xp ← get_parent x;
      c ← get_color xp;
      set_color w c;;
      set_color xp Black;;
      wr ← get_right w;
      set_color wr Black;;
      leftRotate xp;;
      r ← get_root;
      mret (inl r)
  else
    w ← get_left xp;
    wc ← get_color w;
    w ← (if bool_decide (wc = Red) then
           set_color w Black;;
           set_color xp Red;;
           rightRotate xp;;
           xp ← get_parent x;
           get_left xp
         else mret w);
    wl ← get_left w; wlc ← get_color wl;
    wr ← get_right w; wrc ← get_color wr;
    if bool_decide (wlc = Black) && bool_decide (wrc = Black) then
      set_color w Red;;
      xp ← get_parent x;
      mret (inl xp)
    else
      w ← (if bool_decide (wlc = Black) then
             set_color wr Black;;
             set_color w Red;;
             leftRotate w;;
             xp ← get_parent x;
             get_left xp
           else mret w);
      xp ← get_parent x;
      c ← get_color xp;
      set_color w c;;
      set_color xp Black;;
      wl ← get_left w;
      set_color wl Black;;
      rightRotate xp;;
      r ← get_root;
      mret (inl r).

(** the node to unlink and the child that takes its place *)
Definition rbDelete_pick (z : ref) : M (ref * ref) :=
  zl ← get_left z;
  if same zl SENTINEL then x ← get_right z; mret (z, x) else
  zr ← get_right z;
  if same zr SENTINEL then x ← get_left z; mret (z, x) else
  y ← leftest zr;
  x ← get_right y;
  mret (y, x).

(** the branch [y !== z]: [y] takes the place of [z] *)
Definition rbDelete_replace (z y x : ref) : M unit :=
  yp ← get_parent y;
  (if same yp z then set_parent x y else set_parent x yp);;
  recomputeTreeMetadata x;;
  zl ← get_left z; set_left y zl;;
  zr ← get_right z; set_right y zr;;
  zp ← get_parent z; set_parent y zp;;
  zc ← get_color z; set_color y zc;;
  r ← get_root;
  (if same z r then set_root y else
     zpl ← get_left zp;
     if same z zpl then set_left zp y else set_right zp y);;
  yl ← get_left y;
  (if negb (same yl SENTINEL) then set_parent yl y else mret tt);;
  yr ← get_right y;
  (if negb (same yr SENTINEL) then set_parent yr y else mret tt);;
  zn ← get z;
  upd y (TreeNode.with_meta (TreeNode.size_left zn) (TreeNode.lf_left zn));;
  recomputeTreeMetadata y.

(** the metadata of the parent of [x], after the unlinking *)
Definition rbDelete_metadata (x : ref) : M unit :=
  xp ← get_parent x;
  xpl ← get_left xp;
  (if same xpl x then
     newSizeLeft ← calculateSize x;
     newLFLeft ← calculateLF x;
     n ← get xp;
     if (newSizeLeft !== TreeNode.size_left n) || (newLFLeft !== TreeNode.lf_left n) then
       let delta := newSizeLeft - TreeNode.size_left n in
       let lf_delta := newLFLeft - TreeNode.lf_left n in
       upd xp (TreeNode.with_meta newSizeLeft newLFLeft);;
       updateTreeMetadata xp delta lf_delta
     else mret tt
   else mret tt);;
  recomputeTreeMetadata xp.

Definition rbDelete (z : ref) : M unit :=
  '(y, x) ← rbDelete_pick z;
  r ← get_root;
  if same y r then
    set_root x;;
    set_color x Black;;
    detach z;;
    resetSentinel;;
    set_parent x SENTINEL
  else
  yc ← get_color y;
  let yWasRed := bool_decide (yc = Red) in
  yp ← get_parent y;
  ypl ← get_left yp;
  (if same y ypl then set_left yp x else set_right yp x);;
  (if same y z then
     set_parent x yp;;
     recomputeTreeMetadata x
   else rbDelete_replace z y x);;
  detach z;;
  rbDelete_metadata x;;
  if yWasRed : bool then resetSentinel else
  fuel ← path_fuel;
  x ← iter fuel rbDelete_step x;
  set_color x Black;;
  resetSentinel.
