(* ===== verification/RBTreeRep.v ===== *)
(** * Heaps that represent trees

    The connection between the heap of [RBTree] and functional trees: when a
    heap represents a tree, how a node sits in its context, and what the
    in-place operations of [rbTreeBase.ts] do to the tree: the walks, the
    rotations and the metadata updates. *)

From stdpp Require Import gmap.
From S2P Require Import Prelude RBTree.

(** ** Functional trees *)

(** What a node holds besides its references. *)
Record ndata := mkData {
  nid : ref;
  ncol : NodeColor;
  npiece : Piece.t;
  nsl : Z;
  nlf : Z
}.

Inductive rtree := E | T (d : ndata) (l r : rtree).

Definition rid (t : rtree) : ref := match t with E => SENTINEL | T d _ _ => nid d end.
Definition rcolor (t : rtree) : NodeColor := match t with E => Black | T d _ _ => ncol d end.

Definition cell (d : ndata) (p l r : ref) : TreeNode.t :=
  TreeNode.mk p l r (ncol d) (Some (npiece d)) (nsl d) (nlf d).

Fixpoint ids (t : rtree) : list ref :=
  match t with E => [] | T d l r => ids l ++ nid d :: ids r end.

Fixpoint pieces (t : rtree) : list Piece.t :=
  match t with E => [] | T d l r => pieces l ++ npiece d :: pieces r end.

(** The heap holds the tree, below the node [p]. *)
Fixpoint rep (h : gmap ref TreeNode.t) (p : ref) (t : rtree) : Prop :=
  match t with
  | E => True
  | T d l r => h !! nid d = Some (cell d p (rid l) (rid r)) /\ rep h (nid d) l /\ rep h (nid d) r
  end.

(** ** Contexts: the path from a subtree up to the root *)

Inductive frame :=
| FL (d : ndata) (r : rtree)   (** the hole is the left child *)
| FR (d : ndata) (l : rtree).  (** the hole is the right child *)

Definition ctx : Type := list frame.

Definition fdata (f : frame) : ndata := match f with FL d _ => d | FR d _ => d end.
Definition fsib (f : frame) : rtree := match f with FL _ r => r | FR _ l => l end.

Definition fplug (f : frame) (t : rtree) : rtree :=
  match f with FL d r => T d t r | FR d l => T d l t end.

Fixpoint plug (c : ctx) (t : rtree) : rtree :=
  match c with [] => t | f :: c => plug c (fplug f t) end.

(** The parent of the hole. *)
Definition cpar (c : ctx) : ref := match c with [] => SENTINEL | f :: _ => nid (fdata f) end.

(** The root of the whole tree. *)
Fixpoint croot (hole : ref) (c : ctx) : ref :=
  match c with [] => hole | f :: c => croot (nid (fdata f)) c end.

Definition fcell (f : frame) (p hole : ref) : TreeNode.t :=
  match f with
  | FL d r => cell d p hole (rid r)
  | FR d l => cell d p (rid l) hole
  end.

Fixpoint crep (h : gmap ref TreeNode.t) (hole : ref) (c : ctx) : Prop :=
  match c with
  | [] => True
  | f :: c => h !! nid (fdata f) = Some (fcell f (cpar c) hole) /\
      rep h (nid (fdata f)) (fsib f) /\ crep h (nid (fdata f)) c
  end.

Fixpoint cids (c : ctx) : list ref :=
  match c with [] => [] | f :: c => nid (fdata f) :: ids (fsib f) ++ cids c end.

Lemma rid_plug t c : rid (plug c t) = croot (rid t) c.
Proof. revert t. induction c as [| [d r | d l] c IH]; intros t; cbn; [done | by rewrite IH ..]. Qed.

Lemma ids_plug t c : ids (plug c t) ≡ₚ ids t ++ cids c.
Proof.
  revert t. induction c as [| [d r | d l] c IH]; intros t; cbn; [by rewrite app_nil_r | |];
    rewrite IH; cbn; solve_Permutation.
Qed.

Lemma rep_plug h t c :
  rep h SENTINEL (plug c t) <-> rep h (cpar c) t /\ crep h (rid t) c.
Proof.
  revert t. induction c as [| [d r | d l] c IH]; intros t; cbn; [tauto | |];
    rewrite IH; cbn; tauto.
Qed.

(** ** Represented states

    The heap holds the tree [t] with its root in [root]; the parent reference of
    [SENTINEL], which deletion uses as a scratch variable, is [q], and the cells
    that are not of the tree are those of [F]. *)

Record repsq (q : ref) (F : gmap ref TreeNode.t) (st : tree) (t : rtree) : Prop := mkreps {
  reps_root : root st = rid t;
  reps_heap : rep (heap st) SENTINEL t;
  reps_sentinel : heap st !! SENTINEL = Some (TreeNode.with_parent q sentinel_node);
  reps_nodup : NoDup (SENTINEL :: ids t);
  reps_frame : forall i, i ∉ SENTINEL :: ids t -> heap st !! i = F !! i
}.

Arguments reps_root {q F} st t _.
Arguments reps_heap {q F} st t _.
Arguments reps_sentinel {q F} st t _.
Arguments reps_nodup {q F} st t _.
Arguments reps_frame {q F} st t _.

(** Between the operations of the tree [SENTINEL] is its own parent. *)
Notation reps := (repsq SENTINEL).

Lemma reps_intro q st t :
  root st = rid t -> rep (heap st) SENTINEL t ->
  heap st !! SENTINEL = Some (TreeNode.with_parent q sentinel_node) -> NoDup (SENTINEL :: ids t) ->
  repsq q (heap st) st t.
Proof. by constructor. Qed.

Lemma rep_ext h h' p t :
  (forall i, i ∈ ids t -> h' !! i = h !! i) -> rep h p t -> rep h' p t.
Proof.
  revert p. induction t as [| d l IHl r IHr]; intros p He; cbn in *; [done |].
  intros (H & Hl & Hr). split_and!.
  - rewrite He; [done |]. set_solver.
  - apply IHl; [| done]. set_solver.
  - apply IHr; [| done]. set_solver.
Qed.

Lemma crep_ext h h' hole c :
  (forall i, i ∈ cids c -> h' !! i = h !! i) -> crep h hole c -> crep h' hole c.
Proof.
  revert hole. induction c as [| f c IH]; intros hole He; cbn in *; [done |].
  intros (H & Hl & Hr). split_and!.
  - rewrite He; [done |]. set_solver.
  - eapply rep_ext; [| done]. set_solver.
  - apply IH; [| done]. set_solver.
Qed.

Lemma rep_lookup h p t : t <> E -> rep h p t -> exists n, h !! rid t = Some n /\ TreeNode.parent n = p.
Proof. destruct t as [| d l r]; [done |]. intros _ (H & _). eexists. split; [exact H | done]. Qed.

(** The same subtree under another parent. *)
Lemma rep_reparent h h' p p' t :
  rep h p t -> NoDup (ids t) ->
  (forall i, i ∈ ids t -> i <> rid t -> h' !! i = h !! i) ->
  (t <> E -> forall n, h !! rid t = Some n -> h' !! rid t = Some (TreeNode.with_parent p' n)) ->
  rep h' p' t.
Proof.
  destruct t as [| d l r]; [done |]. cbn. intros (H & Hl & Hr) Hn He Hd.
  apply NoDup_app in Hn as (Hnl & Hdis & (Hd1 & Hnr)%NoDup_cons).
  split_and!.
  - rewrite (Hd ltac:(done) _ H). done.
  - eapply rep_ext; [| done]. intros i Hi. apply He; [set_solver |]. intros ->.
    eapply Hdis; [done |]. set_solver.
  - eapply rep_ext; [| done]. intros i Hi. apply He; [set_solver |]. by intros ->.
Qed.

(** ** Distinct references *)

Definition dis (l k : list ref) : Prop := forall z, z ∈ l -> z ∉ k.

Lemma nd_app l k : NoDup (l ++ k) <-> NoDup l /\ NoDup k /\ dis l k.
Proof. rewrite NoDup_app. unfold dis. tauto. Qed.
Lemma dis_cons_r l y k : dis l (y :: k) <-> y ∉ l /\ dis l k.
Proof. unfold dis. set_solver. Qed.
Lemma dis_cons_l y l k : dis (y :: l) k <-> y ∉ k /\ dis l k.
Proof. unfold dis. set_solver. Qed.
Lemma dis_app_r l k k' : dis l (k ++ k') <-> dis l k /\ dis l k'.
Proof. unfold dis. set_solver. Qed.
Lemma dis_app_l l l' k : dis (l ++ l') k <-> dis l k /\ dis l' k.
Proof. unfold dis. set_solver. Qed.
Lemma dis_nil_r l : dis l [] <-> True.
Proof. unfold dis. set_solver. Qed.
Lemma dis_nil_l k : dis [] k <-> True.
Proof. unfold dis. set_solver. Qed.

Create Rewrite HintDb s2nd.
#[export] Hint Rewrite nd_app @NoDup_cons dis_cons_r dis_cons_l dis_app_r dis_app_l
  dis_nil_r dis_nil_l @not_elem_of_cons @not_elem_of_app : s2nd.

(** Turns the distinctness of a list of references into its facts. *)
Ltac nd_split H := cbn [app ids cids fdata fsib] in H; autorewrite with s2nd in H; destruct_and? H.

(** ** Running the operations *)

Lemma bind_run {A B} (m : M A) (f : A -> M B) st a st' :
  m st = Ret (a, st') -> (m ≫= f) st = f a st'.
Proof. intros H. unfold mbind, M_bind. by rewrite H. Qed.

Lemma bind_assoc {A B C} (m : M A) (f : A -> M B) (g : B -> M C) st :
  ((m ≫= f) ≫= g) st = (m ≫= (fun a => f a ≫= g)) st.
Proof. unfold mbind, M_bind. destruct (m st) as [[a st'] |]; done. Qed.

Lemma get_run st x n : heap st !! x = Some n -> get x st = Ret (n, st).
Proof. intros H. unfold get. by rewrite H. Qed.

Lemma field_run {A} (g : TreeNode.t -> A) st x n :
  heap st !! x = Some n -> (n ← get x; mret (g n)) st = Ret (g n, st).
Proof. intros H. by rewrite (bind_run _ _ _ _ _ (get_run _ _ _ H)). Qed.

Lemma upd_run st x f n :
  heap st !! x = Some n ->
  upd x f st = Ret (tt, mkTree (<[x := f n]> (heap st)) (root st)).
Proof. intros H. unfold upd. by rewrite H. Qed.

Lemma same_eq a : same a a = true.
Proof. by apply bool_decide_eq_true. Qed.

Lemma same_ne a b : a <> b -> same a b = false.
Proof. intros. by apply bool_decide_eq_false. Qed.

Lemma rid_elem t : t <> E -> rid t ∈ ids t.
Proof. destruct t; [done |]. cbn. set_solver. Qed.

Lemma rid_ne t i : i ∉ ids t -> SENTINEL <> i -> rid t <> i.
Proof. destruct t; cbn; [done |]. set_solver. Qed.

(** Looks up a reference in a heap with updates, deciding which references
    differ from the hypotheses. *)
Ltac ne_solve := solve [assumption | apply not_eq_sym; assumption | intros ->; contradiction
  | intros <-; contradiction | apply rid_ne; assumption | apply not_eq_sym, rid_ne; assumption].
Ltac look := cbn [heap root];
  repeat first [rewrite lookup_insert_eq | rewrite lookup_insert_ne by ne_solve];
  first [eassumption | reflexivity].
Ltac sames := repeat first [rewrite same_eq | rewrite same_ne by ne_solve].

(** One operation of a sequence. *)
Ltac mred :=
  cbn [heap root TreeNode.parent TreeNode.left TreeNode.right TreeNode.color TreeNode.piece
       TreeNode.size_left TreeNode.lf_left cell fcell rid rcolor
       TreeNode.with_parent TreeNode.with_left TreeNode.with_right TreeNode.with_color
       TreeNode.add_meta TreeNode.with_meta piece_length piece_lf]; sames; cbn [negb].
Ltac mstep :=
  first
  [ erewrite bind_run; [| first
      [ unfold get_parent, get_left, get_right, get_color; eapply field_run; look
      | eapply get_run; look
      | unfold set_parent, set_left, set_right, set_color; eapply upd_run; look
      | reflexivity
      | erewrite bind_run;
          [| unfold get_parent, get_left, get_right, get_color; eapply field_run; look ];
        mred; unfold set_parent, set_left, set_right, set_color; eapply upd_run; look ] ]
  | unfold set_parent, set_left, set_right, set_color; erewrite upd_run; [| look] ]; mred.

(** The represented tree after updates at references outside a subtree. *)
Ltac outside := eapply rep_ext; [| eassumption]; intros i Hi; cbn [heap];
  rewrite ?lookup_insert_ne by ne_solve; reflexivity.
Ltac coutside := eapply crep_ext; [| eassumption]; intros i Hi; cbn [heap];
  rewrite ?lookup_insert_ne by ne_solve; reflexivity.

Lemma size_insert_same {V} (h : gmap ref V) x v n : h !! x = Some n -> size (<[x := v]> h) = size h.
Proof. intros H. by rewrite map_size_insert, H. Qed.

(** The cells outside of the tree are untouched. *)
Ltac frame_at Hi :=
  rewrite ids_plug in Hi; nd_split Hi; cbn [heap];
  rewrite ?lookup_insert_ne by ne_solve;
  match goal with Hfr : forall j, _ -> heap _ !! j = _ !! j |- _ => apply Hfr end;
  rewrite ?ids_plug; cbn [app ids cids fdata fsib]; autorewrite with s2nd; split_and?;
  solve [assumption | apply not_elem_of_nil].

Ltac frame_done :=
  let i := fresh "i" in let Hi := fresh "Hi" in intros i Hi; frame_at Hi.

(** Closes a goal about the heap an operation left, in every case. *)
Ltac reps_done Hn :=
  eexists; split; [reflexivity |]; split;
   [constructor;
     [ cbn; rewrite ?rid_plug; done
     | apply rep_plug; cbn; split_and!; try done; try look; try outside; try coutside
     | look
     | rewrite ids_plug; eapply (NoDup_Permutation_proper); [| exact Hn]; cbn; solve_Permutation
     | frame_done ]
   | cbn; erewrite !size_insert_same by look; done ].

(** ** Rotations *)

Definition add_data (ds dl : Z) (d : ndata) : ndata :=
  mkData (nid d) (ncol d) (npiece d) (nsl d + ds) (nlf d + dl).

Section Rotations.
Context {q : ref} {F : gmap ref TreeNode.t}.
Local Notation reps := (repsq q F).

Lemma leftRotate_reps st c x a y b d :
  reps st (plug c (T x a (T y b d))) ->
  exists st', leftRotate (nid x) st = Ret (tt, st') /\
    reps st' (plug c (T (add_data (nsl x + Piece.length (npiece x))
                          (nlf x + Piece.lineFeedCnt (npiece x)) y) (T x a b) d)) /\
    size (heap st') = size (heap st).
Proof.
  intros [Hr Hh Hs Hn Hfr]. rewrite rid_plug in Hr. apply rep_plug in Hh as [Ht Hc].
  rewrite ids_plug in Hn. cbn in Ht, Hc, Hr.
  destruct Ht as (Hx & Ha & Hy & Hb & Hd).
  unfold leftRotate.
  destruct b as [| e bl br]; [| destruct Hb as (He & Hbl & Hbr)];
  (destruct c as [| [f s | f s] c]; [| destruct Hc as (Hf & Hsb & Hc) ..]);
  pose proof Hn as Hn'; nd_split Hn'; cbn in Hc, Hr, Hx, Hy;
  repeat mstep; reps_done Hn.
Qed.

Lemma rightRotate_reps st c x a y b d :
  reps st (plug c (T y (T x a b) d)) ->
  exists st', rightRotate (nid y) st = Ret (tt, st') /\
    reps st' (plug c (T x a (T (add_data (- (nsl x + Piece.length (npiece x)))
                          (- (nlf x + Piece.lineFeedCnt (npiece x))) y) b d))) /\
    size (heap st') = size (heap st).
Proof.
  intros [Hr Hh Hs Hn Hfr]. rewrite rid_plug in Hr. apply rep_plug in Hh as [Ht Hc].
  rewrite ids_plug in Hn. cbn in Ht, Hc, Hr.
  destruct Ht as (Hy & (Hx & Ha & Hb) & Hd).
  unfold rightRotate.
  destruct b as [| e bl br]; [| destruct Hb as (He & Hbl & Hbr)];
  (destruct c as [| [f s | f s] c]; [| destruct Hc as (Hf & Hsb & Hc) ..]);
  pose proof Hn as Hn'; nd_split Hn'; cbn in Hc, Hr, Hx, Hy;
  repeat mstep; reps_done Hn.
Qed.

End Rotations.
