(* ===== verification/RBTreeOps.v ===== *)
(** * Walks, metadata and insertion

    What [leftest], [next], [prev], [calculateSize], [updateTreeMetadata],
    [recomputeTreeMetadata] and [fixInsert] of [rbTreeBase.ts] do to the tree a
    heap represents. *)

From stdpp Require Import gmap.
From S2P Require Import Prelude RBTree RBTreeRep.

Section Ops.
Context {q : ref} {F : gmap ref TreeNode.t}.
Local Notation reps := (repsq q F).

(** ** Reading and changing one node *)

Lemma reps_node st c d l r :
  reps st (plug c (T d l r)) -> heap st !! nid d = Some (cell d (cpar c) (rid l) (rid r)).
Proof. intros [_ H _ _ _]. by apply rep_plug in H as [(H & _) _]. Qed.

(** The parent of the hole, as the frame shows it. *)
Lemma reps_parent st c f t :
  reps st (plug (f :: c) t) -> heap st !! nid (fdata f) = Some (fcell f (cpar c) (rid t)).
Proof. destruct f; apply reps_node. Qed.

Lemma reps_child st c t :
  t <> E -> reps st (plug c t) -> exists n, heap st !! rid t = Some n /\ TreeNode.parent n = cpar c.
Proof. destruct t as [| d l r]; [done |]. intros _ H%reps_node. eauto. Qed.

Lemma croot_elem i f c : croot i (f :: c) ∈ cids (f :: c).
Proof.
  revert i f. induction c as [| g c IH]; intros i f; cbn; [set_solver |].
  specialize (IH i g). cbn in IH. set_solver.
Qed.

Lemma reps_not_root st c f t : t <> E -> reps st (plug (f :: c) t) -> rid t <> root st.
Proof.
  intros Ht [Hr _ _ Hn _] Heq. rewrite rid_plug in Hr. rewrite ids_plug in Hn.
  apply NoDup_cons in Hn as [_ (_ & Hd & _)%NoDup_app].
  apply (Hd (rid t)); [by apply rid_elem |]. rewrite Heq, Hr. apply croot_elem.
Qed.

Lemma reps_is_root st t : reps st (plug [] t) -> root st = rid t.
Proof. apply reps_root. Qed.

Lemma reps_left_only st c d l t : t <> E -> reps st (plug (FR d l :: c) t) -> rid l <> rid t.
Proof.
  intros Ht [_ _ _ Hn _]. rewrite ids_plug in Hn. pose proof (rid_elem t Ht).
  nd_split Hn. apply rid_ne; [| intros E1; by rewrite E1 in *]. intros Hin.
  match goal with H : dis (ids t) (ids l) |- _ => by apply (H (rid t)) end.
Qed.

Lemma reps_right_only st c d r t : t <> E -> reps st (plug (FL d r :: c) t) -> rid r <> rid t.
Proof.
  intros Ht [_ _ _ Hn _]. rewrite ids_plug in Hn. pose proof (rid_elem t Ht).
  nd_split Hn. apply rid_ne; [| intros E1; by rewrite E1 in *]. intros Hin.
  match goal with H : dis (ids t) (ids r) |- _ => by apply (H (rid t)) end.
Qed.

(** A change of one node that keeps its references. *)
Lemma upd_reps st c d l r f d' :
  reps st (plug c (T d l r)) -> nid d' = nid d ->
  (forall p a b, f (cell d p a b) = cell d' p a b) ->
  exists st', upd (nid d) f st = Ret (tt, st') /\ reps st' (plug c (T d' l r)) /\
    size (heap st') = size (heap st).
Proof.
  intros Hreps Hid Hf. rewrite (upd_run _ _ _ _ (reps_node _ _ _ _ _ Hreps)), Hf.
  destruct Hreps as [Hr Hh Hs Hn Hfr]. rewrite rid_plug in Hr. apply rep_plug in Hh as [Ht Hc].
  rewrite ids_plug in Hn. destruct Ht as (Hx & Hl & Hrr).
  pose proof Hn as Hn'. nd_split Hn'.
  eexists; split; [reflexivity |]. split.
  - constructor.
    + cbn. by rewrite rid_plug, Hr; cbn; rewrite Hid.
    + apply rep_plug. cbn. rewrite !Hid. split_and!; try outside; try coutside. look.
    + look.
    + rewrite ids_plug. cbn. by rewrite Hid.
    + intros i Hi. rewrite ids_plug in Hi. cbn in Hi. rewrite Hid in Hi. cbn [heap].
      rewrite lookup_insert_ne by set_solver. apply Hfr. by rewrite ids_plug.
  - cbn. by erewrite size_insert_same by done.
Qed.

Definition recolor (col : NodeColor) (d : ndata) : ndata :=
  mkData (nid d) col (npiece d) (nsl d) (nlf d).

Lemma set_color_reps st c d l r col :
  reps st (plug c (T d l r)) ->
  exists st', set_color (nid d) col st = Ret (tt, st') /\ reps st' (plug c (T (recolor col d) l r)) /\
    size (heap st') = size (heap st).
Proof. intros H. by apply upd_reps. Qed.

Lemma add_meta_reps st c d l r ds dl :
  reps st (plug c (T d l r)) ->
  exists st', upd (nid d) (TreeNode.add_meta ds dl) st = Ret (tt, st') /\
    reps st' (plug c (T (add_data ds dl d) l r)) /\ size (heap st') = size (heap st).
Proof. intros H. by apply upd_reps. Qed.

(** ** Loops *)

Lemma iter_next {B A} fuel (body : B -> M (B + A)) s st s' st' :
  body s st = Ret (inl s', st') -> iter (S fuel) body s st = iter fuel body s' st'.
Proof. intros H. cbn. by rewrite (bind_run _ _ _ _ _ H). Qed.

Lemma iter_stop {B A} fuel (body : B -> M (B + A)) s st a st' :
  body s st = Ret (inr a, st') -> iter (S fuel) body s st = Ret (a, st').
Proof. intros H. cbn. by rewrite (bind_run _ _ _ _ _ H). Qed.

Lemma rep_dom h p t i : rep h p t -> i ∈ ids t -> i ∈ dom h.
Proof.
  revert p. induction t as [| d l IHl r IHr]; cbn; intros p; [set_solver |].
  intros (H & Hl & Hr) [Hi | [-> | Hi]%elem_of_cons]%elem_of_app.
  - by eapply IHl.
  - by apply elem_of_dom_2 in H.
  - by eapply IHr.
Qed.

(** The heap has room for every node: the loops' bound. *)
Lemma reps_size st t : reps st t -> (S (length (ids t)) <= size (heap st))%nat.
Proof.
  intros [_ Hh Hs Hn _]. change (length (SENTINEL :: ids t) <= size (heap st))%nat.
  rewrite <- (size_list_to_set (C := gset ref)), <- size_dom by done.
  apply subseteq_size. intros i. rewrite elem_of_list_to_set.
  intros [-> | Hi]%elem_of_cons; [by apply elem_of_dom_2 in Hs | by eapply rep_dom].
Qed.

Lemma length_ctx c : (length c <= length (cids c))%nat.
Proof. induction c; cbn; [lia |]. rewrite length_app. lia. Qed.

Lemma reps_ctx_size st c t : reps st (plug c t) -> (length c + length (ids t) < size (heap st))%nat.
Proof.
  intros H%reps_size. rewrite ids_plug, length_app in H. pose proof (length_ctx c). lia.
Qed.

(** ** Walks *)

Lemma leftest_iter st t c fuel :
  t <> E -> reps st (plug c t) -> (length (ids t) < fuel)%nat ->
  iter fuel (fun node => l ← get_left node;
    if negb (same l SENTINEL) then mret (inl l) else mret (inr node)) (rid t) st
  = Ret (hd SENTINEL (ids t), st).
Proof.
  revert c fuel. induction t as [| d l IHl r _]; intros c fuel Ht Hr Hf; [done |].
  destruct fuel as [| fuel]; [cbn in Hf; lia |]. cbn [rid].
  pose proof (reps_node _ _ _ _ _ Hr) as Hd. cbn in Hf. rewrite length_app in Hf. cbn in Hf.
  destruct l as [| dl ll lr].
  - apply iter_stop. mstep. done.
  - assert (SENTINEL <> nid dl) as Hne.
    { destruct Hr as [_ _ _ Hn _]. rewrite ids_plug in Hn. nd_split Hn. done. }
    erewrite iter_next; [| mstep; done].
    rewrite (IHl (FL d r :: c)); [| done | exact Hr | lia]. f_equal. f_equal.
    cbn. by destruct (ids ll).
Qed.

Lemma leftest_reps st t c :
  t <> E -> reps st (plug c t) -> leftest (rid t) st = Ret (hd SENTINEL (ids t), st).
Proof.
  intros Ht Hr. unfold leftest. erewrite bind_run by done. apply (leftest_iter _ _ c); [done | done |].
  pose proof (reps_ctx_size _ _ _ Hr). lia.
Qed.

Lemma righttest_iter st t c fuel :
  t <> E -> reps st (plug c t) -> (length (ids t) < fuel)%nat ->
  iter fuel (fun node => r ← get_right node;
    if negb (same r SENTINEL) then mret (inl r) else mret (inr node)) (rid t) st
  = Ret (default SENTINEL (last (ids t)), st).
Proof.
  revert c fuel. induction t as [| d l _ r IHr]; intros c fuel Ht Hr Hf; [done |].
  destruct fuel as [| fuel]; [cbn in Hf; lia |]. cbn [rid].
  pose proof (reps_node _ _ _ _ _ Hr) as Hd. cbn in Hf. rewrite length_app in Hf. cbn in Hf.
  destruct r as [| dr rl rr].
  - erewrite iter_stop; [| mstep; done]. f_equal. f_equal. cbn. by rewrite last_app_cons.
  - assert (SENTINEL <> nid dr) as Hne.
    { destruct Hr as [_ _ _ Hn _]. rewrite ids_plug in Hn. nd_split Hn. done. }
    erewrite iter_next; [| mstep; done].
    rewrite (IHr (FR d l :: c)); [| done | exact Hr | lia]. f_equal. f_equal. cbn [ids].
    repeat first [rewrite last_app_cons | rewrite last_cons]. by destruct (last (ids rr)).
Qed.

Lemma righttest_reps st t c :
  t <> E -> reps st (plug c t) -> righttest (rid t) st = Ret (default SENTINEL (last (ids t)), st).
Proof.
  intros Ht Hr. unfold righttest. erewrite bind_run by done.
  apply (righttest_iter _ _ c); [done | done |].
  pose proof (reps_ctx_size _ _ _ Hr). lia.
Qed.

(** The references before and after the hole. *)
Fixpoint before (c : ctx) : list ref :=
  match c with [] => [] | FL _ _ :: c => before c | FR d l :: c => before c ++ ids l ++ [nid d] end.
Fixpoint after (c : ctx) : list ref :=
  match c with [] => [] | FL d r :: c => nid d :: ids r ++ after c | FR _ _ :: c => after c end.

Lemma ids_plug_eq c t : ids (plug c t) = before c ++ ids t ++ after c.
Proof.
  revert t. induction c as [| [d r | d l] c IH]; intros t; cbn; [by rewrite app_nil_r | |];
    rewrite IH; cbn; by rewrite <- ?app_assoc.
Qed.

Lemma reps_ids_ne st c d l r i :
  reps st (plug c (T d l r)) -> i ∈ SENTINEL :: ids l ++ ids r ++ cids c -> nid d <> i.
Proof.
  intros [_ _ _ Hn _] Hi <-. rewrite ids_plug in Hn. nd_split Hn. set_solver.
Qed.

(** The climb of [next]: up to the first ancestor reached from its left. *)
Lemma next_climb st t c fuel :
  t <> E -> reps st (plug c t) -> (length c < fuel)%nat ->
  exists node n,
    iter fuel (fun node =>
      p ← get_parent node;
      if negb (same p SENTINEL) then
        pl ← get_left p;
        if same pl node then mret (inr node) else mret (inl p)
      else mret (inr node)) (rid t) st = Ret (node, st) /\
    heap st !! node = Some n /\ TreeNode.parent n = hd SENTINEL (after c).
Proof.
  revert t fuel. induction c as [| f c IH]; intros t fuel Ht Hr Hf;
    (destruct fuel as [| fuel]; [cbn in Hf; lia |]);
    destruct (reps_child _ _ _ Ht Hr) as (n & Hn & Hp).
  - exists (rid t), n. split; [| done]. apply iter_stop. mstep. by rewrite Hp.
  - pose proof (reps_parent _ _ _ _ Hr) as Hf'. cbn in Hp.
    assert (nid (fdata f) <> SENTINEL) as Hne.
    { destruct f; eapply (reps_ids_ne st c); [exact Hr | left | exact Hr | left]. }
    destruct f as [d r | d l].
    + exists (rid t), n. split; [| done]. apply iter_stop. mstep. rewrite Hp. cbn [fdata] in *.
      sames. cbn [negb]. mstep. done.
    + edestruct (IH (T d l t) fuel) as (node & n' & Hi & Hn' & Hp'); [done | exact Hr | cbn in Hf; lia |].
      exists node, n'. split; [| done]. erewrite iter_next; [exact Hi |].
      mstep. rewrite Hp. cbn [fdata] in *. sames. cbn [negb]. mstep.
      rewrite same_ne by (by eapply reps_left_only). done.
Qed.

Lemma prev_climb st t c fuel :
  t <> E -> reps st (plug c t) -> (length c < fuel)%nat ->
  exists node n,
    iter fuel (fun node =>
      p ← get_parent node;
      if negb (same p SENTINEL) then
        pr ← get_right p;
        if same pr node then mret (inr node) else mret (inl p)
      else mret (inr node)) (rid t) st = Ret (node, st) /\
    heap st !! node = Some n /\ TreeNode.parent n = default SENTINEL (last (before c)).
Proof.
  revert t fuel. induction c as [| f c IH]; intros t fuel Ht Hr Hf;
    (destruct fuel as [| fuel]; [cbn in Hf; lia |]);
    destruct (reps_child _ _ _ Ht Hr) as (n & Hn & Hp).
  - exists (rid t), n. split; [| done]. apply iter_stop. mstep. by rewrite Hp.
  - pose proof (reps_parent _ _ _ _ Hr) as Hf'. cbn in Hp.
    assert (nid (fdata f) <> SENTINEL) as Hne.
    { destruct f; eapply (reps_ids_ne st c); [exact Hr | left | exact Hr | left]. }
    destruct f as [d r | d l].
    + edestruct (IH (T d t r) fuel) as (node & n' & Hi & Hn' & Hp'); [done | exact Hr | cbn in Hf; lia |].
      exists node, n'. split; [| done]. erewrite iter_next; [exact Hi |].
      mstep. rewrite Hp. cbn [fdata] in *. sames. cbn [negb]. mstep.
      rewrite same_ne by (by eapply reps_right_only). done.
    + exists (rid t), n. split; [apply iter_stop; mstep; rewrite Hp; cbn [fdata] in *;
        sames; cbn [negb]; mstep; done |].
      split; [done |]. cbn. by rewrite app_assoc, last_snoc.
Qed.

Lemma next_reps st c d l r :
  reps st (plug c (T d l r)) -> next (nid d) st = Ret (hd SENTINEL (ids r ++ after c), st).
Proof.
  intros Hr. pose proof (reps_node _ _ _ _ _ Hr) as Hd. unfold next. mstep.
  destruct r as [| dr rl rr].
  - sames. cbn [negb]. erewrite bind_run by done.
    edestruct (next_climb st (T d l E) c) as (node & n & Hi & Hn & Hp); [done | done | |].
    { pose proof (reps_ctx_size _ _ _ Hr). instantiate (1 := S (S (size (heap st)))). lia. }
    erewrite bind_run; [| exact Hi]. mstep. rewrite Hp. cbn [ids app].
    destruct (after c) as [| x l']; cbn [hd]; [by sames |].
    unfold same. case_bool_decide; by subst.
  - assert (nid dr <> SENTINEL) as Hne.
    { apply (reps_ids_ne st (FR d l :: c) dr rl rr); [exact Hr | left]. }
    cbn [rid]. sames. cbn [negb].
    change (nid dr) with (rid (T dr rl rr)).
    rewrite (leftest_reps _ _ (FR d l :: c)); [| done | exact Hr].
    do 2 f_equal. cbn. by destruct (ids rl).
Qed.

Lemma prev_reps st c d l r :
  reps st (plug c (T d l r)) ->
  prev (nid d) st = Ret (default SENTINEL (last (before c ++ ids l)), st).
Proof.
  intros Hr. pose proof (reps_node _ _ _ _ _ Hr) as Hd. unfold prev. mstep.
  destruct l as [| dl ll lr].
  - sames. cbn [negb]. erewrite bind_run by done.
    edestruct (prev_climb st (T d E r) c) as (node & n & Hi & Hn & Hp); [done | done | |].
    { pose proof (reps_ctx_size _ _ _ Hr). instantiate (1 := S (S (size (heap st)))). lia. }
    erewrite bind_run; [| exact Hi]. mstep. rewrite Hp. cbn [ids]. rewrite app_nil_r.
    destruct (last (before c)) as [x |]; cbn; [| by sames].
    unfold same. case_bool_decide; by subst.
  - assert (nid dl <> SENTINEL) as Hne.
    { apply (reps_ids_ne st (FL d r :: c) dl ll lr); [exact Hr | left]. }
    cbn [rid]. sames. cbn [negb].
    change (nid dl) with (rid (T dl ll lr)).
    rewrite (righttest_reps _ _ (FL d r :: c)); [| done | exact Hr].
    do 2 f_equal. cbn. by rewrite !last_app_cons, (app_assoc (before c)), last_app_cons.
Qed.

(** Every node of a tree can be brought into focus. *)
Lemma focus t x : x ∈ ids t -> exists c d l r, t = plug c (T d l r) /\ nid d = x.
Proof.
  induction t as [| d l IHl r IHr]; cbn; [by intros ?%elem_of_nil |].
  intros [Hx | [-> | Hx]%elem_of_cons]%elem_of_app.
  - destruct (IHl Hx) as (c & d' & l' & r' & -> & Hi).
    exists (c ++ [FL d r]), d', l', r'. split; [| done].
    generalize (T d' l' r'). clear. induction c; intros; cbn; [done | by rewrite IHc].
  - exists [], d, l, r. done.
  - destruct (IHr Hx) as (c & d' & l' & r' & -> & Hi).
    exists (c ++ [FR d l]), d', l', r'. split; [| done].
    generalize (T d' l' r'). clear. induction c; intros; cbn; [done | by rewrite IHc].
Qed.

(** ** Metadata

    [size_left] and [lf_left] of a node are the total length and the line feeds
    of its left subtree. *)

Fixpoint tsize (t : rtree) : Z :=
  match t with E => 0 | T d l r => tsize l + Piece.length (npiece d) + tsize r end.
Fixpoint tlf (t : rtree) : Z :=
  match t with E => 0 | T d l r => tlf l + Piece.lineFeedCnt (npiece d) + tlf r end.

Fixpoint meta_ok (t : rtree) : Prop :=
  match t with
  | E => True
  | T d l r => nsl d = tsize l /\ nlf d = tlf l /\ meta_ok l /\ meta_ok r
  end.

(** The metadata of a context is right for a hole of this size. *)
Fixpoint cmeta (s lf : Z) (c : ctx) : Prop :=
  match c with
  | [] => True
  | FL d r :: c => nsl d = s /\ nlf d = lf /\ meta_ok r /\
      cmeta (s + Piece.length (npiece d) + tsize r) (lf + Piece.lineFeedCnt (npiece d) + tlf r) c
  | FR d l :: c => nsl d = tsize l /\ nlf d = tlf l /\ meta_ok l /\
      cmeta (tsize l + Piece.length (npiece d) + s) (tlf l + Piece.lineFeedCnt (npiece d) + lf) c
  end.

Lemma meta_plug c t : meta_ok (plug c t) <-> meta_ok t /\ cmeta (tsize t) (tlf t) c.
Proof.
  revert t. induction c as [| [d r | d l] c IH]; intros t; cbn; [tauto | |];
    rewrite IH; cbn; tauto.
Qed.

(** Adding to the metadata of every ancestor the hole lies left of. *)
Definition cadd (ds dl : Z) : ctx -> ctx := map (fun f =>
  match f with FL d r => FL (add_data ds dl d) r | FR d l => FR d l end).

Lemma cmeta_cadd ds dl s lf c : cmeta s lf c -> cmeta (s + ds) (lf + dl) (cadd ds dl c).
Proof.
  revert s lf. induction c as [| [d r | d l] c IH]; intros s lf; cbn; [done | |].
  - intros (-> & -> & Hr & Hc). split_and!; [done | done | done |].
    replace (s + ds + _ + _) with (s + Piece.length (npiece d) + tsize r + ds) by lia.
    replace (lf + dl + _ + _) with (lf + Piece.lineFeedCnt (npiece d) + tlf r + dl) by lia. auto.
  - intros (? & ? & Hr & Hc). split_and!; [done | done | done |]. rewrite !Z.add_assoc. auto.
Qed.

Lemma add_data_0 d : add_data 0 0 d = d.
Proof. destruct d. unfold add_data. cbn. by rewrite !Z.add_0_r. Qed.

Lemma cadd_0 c : cadd 0 0 c = c.
Proof. induction c as [| [d r | d l] c IH]; cbn; rewrite ?IH, ?add_data_0; done. Qed.

(** What [calculateSize] and [calculateLF] compute, whether the metadata is right
    or not: they trust [size_left] and [lf_left] along the right spine. *)
Fixpoint spine (t : rtree) : Z :=
  match t with E => 0 | T d _ r => nsl d + Piece.length (npiece d) + spine r end.
Fixpoint spine_lf (t : rtree) : Z :=
  match t with E => 0 | T d _ r => nlf d + Piece.lineFeedCnt (npiece d) + spine_lf r end.

Lemma meta_spine t : meta_ok t -> spine t = tsize t /\ spine_lf t = tlf t.
Proof. induction t as [| d l _ r IHr]; cbn; [done |]. intros (-> & -> & _ & [-> ->]%IHr). done. Qed.

Lemma calculateSize_rec_rep st t p fuel :
  rep (heap st) p t -> SENTINEL ∉ ids t -> (length (ids t) < fuel)%nat ->
  calculateSize_rec fuel (rid t) st = Ret (spine t, st) /\
  calculateLF_rec fuel (rid t) st = Ret (spine_lf t, st).
Proof.
  revert p fuel. induction t as [| d l _ r IHr]; intros p fuel Hr Hs Hf;
    (destruct fuel as [| fuel]; [lia |]); cbn [calculateSize_rec calculateLF_rec rid]; [by sames |].
  destruct Hr as (Hd & _ & Hr). cbn in Hf. rewrite length_app in Hf. cbn in Hf.
  assert (nid d <> SENTINEL) as Hne by set_solver.
  destruct (IHr _ fuel Hr) as [H1 H2]; [set_solver | lia |].
  split; sames; mstep; erewrite bind_run by (unfold get_piece; mstep; done);
    [erewrite bind_run by exact H1 | erewrite bind_run by exact H2]; done.
Qed.

Lemma calculate_reps st t c :
  reps st (plug c t) ->
  calculateSize (rid t) st = Ret (spine t, st) /\ calculateLF (rid t) st = Ret (spine_lf t, st).
Proof.
  intros Hr. pose proof (reps_ctx_size _ _ _ Hr). destruct Hr as [_ [Ht _]%rep_plug _ Hn _].
  rewrite ids_plug in Hn. apply NoDup_cons in Hn as [Hs _].
  destruct (calculateSize_rec_rep st t (cpar c) (S (S (size (heap st)))) Ht) as [H1 H2];
    [set_solver | lia |].
  unfold calculateSize, calculateLF. split; erewrite bind_run by done; done.
Qed.

(** One step up of a loop that adds to the ancestors it reaches from the left. *)
Lemma climb_add st f c t ds dl :
  t <> E -> reps st (plug (f :: c) t) ->
  exists st',
    (p ← get_parent (rid t);
     pl ← get_left p;
     (if same pl (rid t) then upd p (TreeNode.add_meta ds dl) else mret tt);;
     mret (@inl ref unit p)) st = Ret (inl (nid (fdata f)), st') /\
    reps st' (plug (cadd ds dl [f] ++ c) t) /\ size (heap st') = size (heap st).
Proof.
  intros Ht Hr. destruct (reps_child _ _ _ Ht Hr) as (n & Hn & Hp). cbn in Hp.
  pose proof (reps_parent _ _ _ _ Hr) as Hf. destruct f as [d r | d l]; cbn [fdata] in *.
  - destruct (add_meta_reps st c d t r ds dl Hr) as (st' & Hu & Hr' & Hsz).
    exists st'. split; [| done].
    mstep. rewrite Hp. mstep. erewrite bind_run by exact Hu. done.
  - exists st. split; [| done]. mstep. rewrite Hp. mstep.
    rewrite same_ne by (by eapply reps_left_only). done.
Qed.

Lemma propagate_iter st c t ds dl fuel :
  t <> E -> reps st (plug c t) -> (length c < fuel)%nat ->
  (ds !== 0) || (dl !== 0) = true ->
  exists st',
    iter fuel (fun x =>
      r ← get_root;
      if negb (same x r) && ((ds !== 0) || (dl !== 0)) then
        p ← get_parent x;
        pl ← get_left p;
        (if same pl x then upd p (TreeNode.add_meta ds dl) else mret tt);;
        mret (inl p)
      else mret (inr tt)) (rid t) st = Ret (tt, st') /\
    reps st' (plug (cadd ds dl c) t) /\ size (heap st') = size (heap st).
Proof.
  intros Ht Hr Hf Hd. revert t st Ht Hr fuel Hf.
  induction c as [| f c IH]; intros t st Ht Hr fuel Hf; (destruct fuel as [| fuel]; [cbn in Hf; lia |]).
  - exists st. split; [| done]. apply iter_stop. erewrite bind_run by done.
    rewrite (reps_is_root _ _ Hr). sames. done.
  - destruct (climb_add st f c t ds dl Ht Hr) as (st1 & H1 & Hr1 & Hs1).
    destruct (IH (fplug (match f with FL d r => FL (add_data ds dl d) r | FR d l => FR d l end) t) st1)
      with (fuel := fuel) as (st2 & H2 & Hr2 & Hs2);
      [by destruct f | by destruct f | cbn in Hf; lia |].
    exists st2. split; [| split; [by destruct f | congruence]].
    rewrite (iter_next _ _ _ _ (nid (fdata f)) st1); [destruct f; exact H2 |].
    erewrite bind_run by done. rewrite same_ne by (by eapply reps_not_root). rewrite Hd.
    cbn [negb andb]. exact H1.
Qed.

Lemma propagate_reps st c t ds dl :
  t <> E -> reps st (plug c t) ->
  exists st', propagate (rid t) ds dl st = Ret (tt, st') /\
    reps st' (plug (cadd ds dl c) t) /\ size (heap st') = size (heap st).
Proof.
  intros Ht Hr. unfold propagate. erewrite bind_run by done.
  pose proof (reps_ctx_size _ _ _ Hr).
  destruct ((ds !== 0) || (dl !== 0)) eqn:Hd.
  - rewrite <- Hd. apply propagate_iter; [done | done | lia | done].
  - apply orb_false_iff in Hd as [Hs Hl]. apply negb_false_iff, Z.eqb_eq in Hs, Hl. subst.
    exists st. rewrite cadd_0. split; [| done]. apply iter_stop.
    erewrite bind_run by done. by rewrite andb_false_r.
Qed.

(** [updateTreeMetadata]: the same climb, also for zero deltas. *)
Lemma updateTreeMetadata_reps st c t ds dl :
  t <> E -> reps st (plug c t) ->
  exists st', updateTreeMetadata (rid t) ds dl st = Ret (tt, st') /\
    reps st' (plug (cadd ds dl c) t) /\ size (heap st') = size (heap st).
Proof.
  intros Ht Hr. unfold updateTreeMetadata. erewrite bind_run by done.
  pose proof (reps_ctx_size _ _ _ Hr) as Hsz.
  assert (length c < S (S (size (heap st))))%nat as Hf by lia. clear Hsz. revert Hf.
  generalize (S (S (size (heap st)))) as fuel. revert t st Ht Hr.
  induction c as [| f c IH]; intros t st Ht Hr fuel Hf; (destruct fuel as [| fuel]; [cbn in Hf; lia |]).
  - exists st. split; [| done]. apply iter_stop. erewrite bind_run by done.
    rewrite (reps_is_root _ _ Hr). sames. done.
  - destruct (climb_add st f c t ds dl Ht Hr) as (st1 & H1 & Hr1 & Hs1).
    destruct (IH (fplug (match f with FL d r => FL (add_data ds dl d) r | FR d l => FR d l end) t) st1)
      with (fuel := fuel) as (st2 & H2 & Hr2 & Hs2);
      [by destruct f | by destruct f | cbn in Hf; lia |].
    exists st2. split; [| split; [by destruct f | congruence]].
    rewrite (iter_next _ _ _ _ (nid (fdata f)) st1); [destruct f; exact H2 |].
    erewrite bind_run by done. rewrite same_ne by (by eapply reps_not_root).
    assert (rid t <> SENTINEL) as Hne.
    { destruct t; [done |]. eapply (reps_ids_ne st (f :: c)); [exact Hr | left]. }
    sames. cbn [negb andb]. exact H1.
Qed.

(** ** [recomputeTreeMetadata] *)

Definition is_FR (f : frame) : bool := match f with FR _ _ => true | FL _ _ => false end.

Lemma plug_app c1 c2 t : plug (c1 ++ c2) t = plug c2 (plug c1 t).
Proof. revert t. induction c1; intros; cbn; [done | by rewrite IHc1]. Qed.

Definition ascendRight_body (x : ref) : M (ref + ref) :=
  r ← get_root;
  if negb (same x r) then
    p ← get_parent x;
    pr ← get_right p;
    if same x pr then mret (inl p) else mret (inr x)
  else mret (inr x).

Lemma ascendRight_iter st c t fuel :
  t <> E -> reps st (plug c t) -> (length c < fuel)%nat ->
  exists c1 c2, c = c1 ++ c2 /\ Forall is_FR c1 /\
    match c2 with FR _ _ :: _ => False | _ => True end /\
    iter fuel ascendRight_body (rid t) st = Ret (rid (plug c1 t), st).
Proof.
  revert t fuel.
  induction c as [| f c IH]; intros t fuel Ht Hr Hf; (destruct fuel as [| fuel]; [cbn in Hf; lia |]).
  - exists [], []. do 3 (split; [done |]). apply iter_stop. unfold ascendRight_body.
    erewrite bind_run by done. rewrite (reps_is_root _ _ Hr). sames. done.
  - destruct (reps_child _ _ _ Ht Hr) as (n & Hn & Hp). cbn in Hp.
    pose proof (reps_parent _ _ _ _ Hr) as Hf'. pose proof (reps_not_root _ _ _ _ Ht Hr) as Hnr.
    destruct f as [d r | d l]; cbn [fdata] in *.
    + exists [], (FL d r :: c). do 3 (split; [done |]). apply iter_stop. unfold ascendRight_body.
      erewrite bind_run by done. sames. cbn [negb]. mstep. rewrite Hp. mstep.
      rewrite same_ne by (apply not_eq_sym; by eapply reps_right_only). done.
    + destruct (IH (T d l t) fuel) as (c1 & c2 & -> & H1 & H2 & H3);
        [done | exact Hr | cbn in Hf; lia |].
      exists (FR d l :: c1), c2. split; [done |]. split; [by constructor |]. split; [done |].
      erewrite iter_next; [exact H3 |]. unfold ascendRight_body.
      erewrite bind_run by done. sames. cbn [negb]. mstep. rewrite Hp. mstep. done.
Qed.

Lemma cadd_app ds dl c1 c2 : cadd ds dl (c1 ++ c2) = cadd ds dl c1 ++ cadd ds dl c2.
Proof. apply map_app. Qed.

Lemma cadd_FR ds dl c : Forall is_FR c -> cadd ds dl c = c.
Proof. induction 1 as [| [d r | d l] c Hf Hc IH]; cbn; [done | done | by rewrite IH]. Qed.

(** Below right ancestors the size of the hole does not matter. *)
Lemma plug_FR c1 c2 t s lf :
  Forall is_FR c1 -> cmeta s lf (c1 ++ c2) ->
  exists s' lf', cmeta s' lf' c2 /\ spine (plug c1 t) - s' = spine t - s /\
    spine_lf (plug c1 t) - lf' = spine_lf t - lf.
Proof.
  intros H. revert t s lf. induction H as [| [d r | d l] c1 Hf Hc IH]; intros t s lf Hm.
  - exists s, lf. done.
  - done.
  - cbn in Hm. destruct Hm as (H1 & H2 & H3 & H4).
    destruct (IH (T d l t) _ _ H4) as (s' & lf' & Hc2 & Es & El).
    exists s', lf'. cbn [plug fplug]. split; [done |]. rewrite Es, El. cbn. lia.
Qed.

Lemma plug_ne c t : t <> E -> plug c t <> E.
Proof. revert t. induction c as [| f c IH]; intros t Ht; [done |]. apply IH. by destruct f. Qed.

Lemma rid_plug_ne_root st f c2 c1 t :
  t <> E -> reps st (plug (c1 ++ f :: c2) t) -> plug c1 t <> E /\ reps st (plug (f :: c2) (plug c1 t)).
Proof.
  intros Ht. rewrite plug_app. intros Hr. split; [by apply plug_ne | done].
Qed.

(** The part of [recomputeTreeMetadata] after the first loop. *)
Definition recompute_at (x : ref) : M unit :=
  r ← get_root;
  if same x r then mret tt else
  x ← get_parent x;
  n ← get x;
  sz ← calculateSize (TreeNode.left n);
  let delta := sz - TreeNode.size_left n in
  lf ← calculateLF (TreeNode.left n);
  let lf_delta := lf - TreeNode.lf_left n in
  upd x (TreeNode.add_meta delta lf_delta);;
  propagate x delta lf_delta.

Lemma recompute_at_reps st c1 c2 t s lf :
  t <> E -> reps st (plug (c1 ++ c2) t) -> Forall is_FR c1 ->
  match c2 with FR _ _ :: _ => False | _ => True end -> cmeta s lf (c1 ++ c2) ->
  exists st', recompute_at (rid (plug c1 t)) st = Ret (tt, st') /\
    reps st' (plug (cadd (spine t - s) (spine_lf t - lf) (c1 ++ c2)) t) /\
    size (heap st') = size (heap st).
Proof.
  intros Ht Hr H1 H2 Hc. unfold recompute_at. erewrite bind_run by done.
  destruct (plug_FR _ _ t _ _ H1 Hc) as (s' & lf' & Hc2 & Es & El).
  rewrite cadd_app, (cadd_FR _ _ _ H1).
  destruct c2 as [| [d r | d l] c2]; [| | done].
  - change (cadd (spine t - s) (spine_lf t - lf) []) with (@nil frame). rewrite app_nil_r in *.
    rewrite (reps_root _ _ Hr). sames. exists st. done.
  - destruct (rid_plug_ne_root _ _ _ _ _ Ht Hr) as (Hne & Hr').
    rewrite same_ne by (by eapply reps_not_root).
    destruct (reps_child _ _ _ Hne Hr') as (n & Hn & Hp). mstep. rewrite Hp. cbn [cpar fdata].
    pose proof (reps_parent _ _ _ _ Hr') as Hd. cbn [fdata] in Hd. mstep.
    destruct (calculate_reps _ _ _ Hr') as [Hcs Hcl].
    erewrite bind_run by exact Hcs. erewrite bind_run by exact Hcl.
    destruct Hc2 as (Hsl & Hlf & _ & _). rewrite Hsl, Hlf, Es, El.
    destruct (add_meta_reps st c2 d (plug c1 t) r (spine t - s) (spine_lf t - lf) Hr') as (st1 & Hu & Hr1 & Hs1).
    erewrite bind_run by exact Hu.
    destruct (propagate_reps st1 c2 (T (add_data (spine t - s) (spine_lf t - lf) d) (plug c1 t) r)
      (spine t - s) (spine_lf t - lf)) as (st2 & Hp2 & Hr2 & Hs2); [done | exact Hr1 |].
    exists st2. split; [exact Hp2 |]. split; [| congruence].
    rewrite plug_app. exact Hr2.
Qed.

Lemma recompute_spine st c t s lf :
  t <> E -> reps st (plug c t) -> cmeta s lf c ->
  exists st', recomputeTreeMetadata (rid t) st = Ret (tt, st') /\
    reps st' (plug (cadd (spine t - s) (spine_lf t - lf) c) t) /\
    size (heap st') = size (heap st).
Proof.
  intros Ht Hr Hc. unfold recomputeTreeMetadata. erewrite bind_run by done.
  destruct c as [| f c].
  - rewrite (reps_is_root _ _ Hr). sames. exists st. done.
  - rewrite same_ne by (by eapply reps_not_root).
    destruct (ascendRight_iter st (f :: c) t (S (S (size (heap st)))) Ht Hr) as (c1 & c2 & Ec & H1 & H2 & H3).
    { pose proof (reps_ctx_size _ _ _ Hr). lia. }
    rewrite Ec in *. destruct (recompute_at_reps st c1 c2 t s lf) as (st' & Hat & Hr' & Hs'); [done .. |].
    exists st'. split; [| done]. erewrite bind_run; [exact Hat |]. unfold ascendRight.
    erewrite bind_run by done. exact H3.
Qed.

Lemma recompute_reps st c t s lf :
  t <> E -> reps st (plug c t) -> meta_ok t -> cmeta s lf c ->
  exists st', recomputeTreeMetadata (rid t) st = Ret (tt, st') /\
    reps st' (plug (cadd (tsize t - s) (tlf t - lf) c) t) /\
    size (heap st') = size (heap st).
Proof. intros Ht Hr Hm Hc. destruct (meta_spine t Hm) as [<- <-]. by apply recompute_spine. Qed.

End Ops.
