(* ===== verification/RBTreeInsert.v ===== *)
(** * Red-black insertion

    [fixInsert] of [rbTreeBase.ts] on a tree with a new red leaf: it ends with a
    balanced tree of the same nodes in the same order, with right metadata. *)

From stdpp Require Import gmap.
From S2P Require Import Prelude RBTree RBTreeRep RBTreeOps.

(** ** Order and balance *)

(** The nodes in order. *)
Fixpoint nodes (t : rtree) : list (ref * Piece.t) :=
  match t with E => [] | T d l r => nodes l ++ (nid d, npiece d) :: nodes r end.

(** Red-black trees: no red node has a red child, and every path down has [n]
    black nodes. *)
Fixpoint rb (t : rtree) (n : nat) : Prop :=
  match t with
  | E => n = O
  | T d l r =>
      match ncol d with
      | Red => rcolor l = Black /\ rcolor r = Black /\ rb l n /\ rb r n
      | Black => match n with O => False | S n => rb l n /\ rb r n end
      end
  end.

Definition ccolor (c : ctx) : NodeColor := match c with [] => Black | f :: _ => ncol (fdata f) end.

(** A context whose hole takes a tree of black height [n]; the root is black. *)
Fixpoint crb (c : ctx) (n : nat) : Prop :=
  match c with
  | [] => True
  | f :: c => rb (fsib f) n /\
      match ncol (fdata f) with
      | Red => rcolor (fsib f) = Black /\ ccolor c = Black /\ c <> [] /\ crb c n
      | Black => crb c (S n)
      end
  end.

Definition balanced (t : rtree) : Prop := rcolor t = Black /\ exists n, rb t n.

Lemma rb_plug c t n :
  rb t n -> crb c n -> (rcolor t = Red -> ccolor c = Black) ->
  (c = [] -> rcolor t = Black) -> balanced (plug c t).
Proof.
  revert t n. induction c as [| f c IH]; intros t n Ht Hc Hcol Hroot.
  - split; [by apply Hroot | eauto].
  - cbn in Hc, Hcol |- *. destruct Hc as [Hs Hf]. destruct (ncol (fdata f)) eqn:Ecol.
    + apply (IH _ (S n)); [| done | | by destruct f]; destruct f; cbn in *; rewrite Ecol; done.
    + destruct Hf as (Hsc & Hcc & Hne & Hf).
      assert (rcolor t = Black) as Htb by (destruct (rcolor t); [done | by apply Hcol]).
      apply (IH _ n); [| done | by destruct f; cbn in *; rewrite ?Ecol | done].
      destruct f; cbn in *; rewrite Ecol; done.
Qed.

Lemma plug_rb c t :
  balanced (plug c t) ->
  exists n, rb t n /\ crb c n /\ (rcolor t = Red -> ccolor c = Black) /\ (c = [] -> rcolor t = Black).
Proof.
  revert t. induction c as [| f c IH]; intros t H.
  - destruct H as [Hb [n Hn]]. exists n. done.
  - cbn in H. destruct (IH _ H) as (n & Hrb & Hcrb & Hcol & Hroot).
    destruct f as [d r | d l]; cbn in *; destruct (ncol d) eqn:Ecol.
    + destruct n as [| n]; [done |]. exists n. destruct Hrb. split_and!; done.
    + destruct Hrb as (H1 & H2 & H3 & H4). exists n. split_and!; try done; try congruence; auto.
      intros ->. by specialize (Hroot eq_refl).
    + destruct n as [| n]; [done |]. exists n. destruct Hrb. split_and!; done.
    + destruct Hrb as (H1 & H2 & H3 & H4). exists n. split_and!; try done; try congruence; auto.
      intros ->. by specialize (Hroot eq_refl).
Qed.

Fixpoint nbefore (c : ctx) : list (ref * Piece.t) :=
  match c with
  | [] => []
  | FL _ _ :: c => nbefore c
  | FR d l :: c => nbefore c ++ nodes l ++ [(nid d, npiece d)]
  end.
Fixpoint nafter (c : ctx) : list (ref * Piece.t) :=
  match c with
  | [] => []
  | FL d r :: c => (nid d, npiece d) :: nodes r ++ nafter c
  | FR _ _ :: c => nafter c
  end.

Lemma nodes_plug c t : nodes (plug c t) = nbefore c ++ nodes t ++ nafter c.
Proof.
  revert t. induction c as [| [d r | d l] c IH]; intros t; cbn; [by rewrite app_nil_r | |];
    rewrite IH; cbn; by rewrite <- ?app_assoc.
Qed.

Lemma nodes_sizes t t' : nodes t = nodes t' -> tsize t = tsize t' /\ tlf t = tlf t'.
Proof.
  intros H.
  assert (forall t, tsize t = zsum (Piece.length ∘ snd <$> nodes t) /\
                    tlf t = zsum (Piece.lineFeedCnt ∘ snd <$> nodes t)) as Hs.
  { clear. induction t as [| d l [IHl1 IHl2] r [IHr1 IHr2]]; [done |]. cbn [tsize tlf nodes].
    rewrite !fmap_app, !zsum_app, !fmap_cons, !zsum_cons, IHl1, IHl2, IHr1, IHr2. cbn [compose snd].
    unfold compose; cbn [snd]. lia. }
  destruct (Hs t) as [-> ->], (Hs t') as [-> ->]. by rewrite H.
Qed.

Lemma nodes_cadd ds dl c t : nodes (plug (cadd ds dl c) t) = nodes (plug c t).
Proof.
  rewrite !nodes_plug. f_equal; [| f_equal].
  - induction c as [| [? ? | ? ?] c IH]; cbn; [done | done | by rewrite IH].
  - induction c as [| [? ? | ? ?] c IH]; cbn; [done | by rewrite IH | done].
Qed.

(** ** One turn of the loop *)

Ltac assocs := repeat first [rewrite <- app_assoc | progress cbn [app]].

Section Insert.
Context {q : ref} {F : gmap ref TreeNode.t}.
Local Notation reps := (repsq q F).
Local Notation set_color_reps := (set_color_reps (q := q) (F := F)).
Local Notation recompute_reps := (recompute_reps (q := q) (F := F)).

(** The color of any subtree, the empty one included, as the code reads it. *)
Lemma reps_color st c t :
  reps st (plug c t) -> exists n, heap st !! rid t = Some n /\ TreeNode.color n = rcolor t.
Proof.
  intros H. destruct t as [| d l r].
  - exists (TreeNode.with_parent q sentinel_node). split; [apply H | done].
  - eexists. split; [by eapply reps_node | done].
Qed.

(** A turn that goes on has replaced the subtree of some ancestor by one with
    the same nodes, and moved up. *)
Record turn (st st' : tree) (c : ctx) (t : rtree) (c' : ctx) (t' : rtree) : Prop := mkturn {
  turn_reps : reps st' (plug c' t');
  turn_size : size (heap st') = size (heap st);
  turn_nodes : nodes (plug c' t') = nodes (plug c t);
  turn_meta : meta_ok (plug c t) -> meta_ok (plug c' t');
  turn_color : rcolor t' = Red;
  turn_rb : forall n, rb t n -> crb c n -> exists n', rb t' n' /\ crb c' n';
  turn_up : (length c' < length c)%nat
}.

Lemma meta_replace c t t' : nodes t = nodes t' -> (meta_ok t -> meta_ok t') ->
  meta_ok (plug c t) -> meta_ok (plug c t').
Proof.
  intros Hn Hm. rewrite !meta_plug. destruct (nodes_sizes _ _ Hn) as [-> ->]. tauto.
Qed.

Lemma nodes_replace c t t' : nodes t = nodes t' -> nodes (plug c t) = nodes (plug c t').
Proof. intros H. by rewrite !nodes_plug, H. Qed.

Lemma fixInsert_stop st c t :
  t <> E -> reps st (plug c t) -> ccolor c = Black -> fixInsert_step (rid t) st = Ret (inr tt, st).
Proof.
  intros Ht Hr Hc. unfold fixInsert_step. erewrite bind_run by done. destruct c as [| f c].
  - rewrite (reps_is_root _ _ Hr). by sames.
  - rewrite same_ne by (by eapply reps_not_root).
    destruct (reps_child _ _ _ Ht Hr) as (n & Hn & Hp). mstep. rewrite Hp. cbn [cpar].
    pose proof (reps_parent _ _ _ _ Hr) as Hf. erewrite bind_run by (by eapply field_run).
    replace (TreeNode.color _) with (ncol (fdata f)) by by destruct f. cbn in Hc. by rewrite Hc.
Qed.

(** The first reads of a turn: the parent and the grandparent. *)
Lemma fixInsert_enter st f1 f2 c t (k : ref -> M (ref + unit)) :
  t <> E -> reps st (plug (f1 :: f2 :: c) t) -> ncol (fdata f1) = Red ->
  exists n, heap st !! rid t = Some n /\ TreeNode.parent n = nid (fdata f1) /\
    heap st !! nid (fdata f1) = Some (fcell f1 (nid (fdata f2)) (rid t)) /\
    heap st !! nid (fdata f2) = Some (fcell f2 (cpar c) (nid (fdata f1))) /\
    rid t <> root st.
Proof.
  intros Ht Hr Hc. destruct (reps_child _ _ _ Ht Hr) as (n & Hn & Hp).
  exists n. split_and!; [done | done | by apply (reps_parent _ _ _ _ Hr) | | by eapply reps_not_root].
  destruct f1; apply (reps_parent st c f2 _ Hr).
Qed.

(** The red uncle: recolor and go on from the grandparent. *)
Definition fcol (col : NodeColor) (f : frame) : frame :=
  match f with FL d r => FL (recolor col d) r | FR d l => FR (recolor col d) l end.

Lemma set_fcolor_reps st c f t col :
  reps st (plug (f :: c) t) ->
  exists st', set_color (nid (fdata f)) col st = Ret (tt, st') /\
    reps st' (plug (fcol col f :: c) t) /\ size (heap st') = size (heap st).
Proof. destruct f; apply set_color_reps. Qed.

(** The three color changes, whichever sides the nodes are on. *)
Lemma recolor_three st f1 f2 c t e l r :
  reps st (plug (f1 :: f2 :: c) t) -> fsib f2 = T e l r ->
  let f2' := match f2 with FL d _ => FL d (T (recolor Black e) l r) | FR d _ => FR d (T (recolor Black e) l r) end in
  exists st', (set_color (nid (fdata f1)) Black;; set_color (nid e) Black;;
               set_color (nid (fdata f2)) Red;; mret (@inl ref unit (nid (fdata f2)))) st
      = Ret (inl (nid (fdata f2)), st') /\
    reps st' (plug (fcol Black f1 :: fcol Red f2' :: c) t) /\ size (heap st') = size (heap st).
Proof.
  intros Hr Hu f2'.
  destruct (set_fcolor_reps _ _ _ _ Black Hr) as (st1 & H1 & Hr1 & Hs1).
  erewrite bind_run by exact H1.
  destruct f2 as [g u | g u]; cbn in Hu; subst u; cbn [fdata] in *.
  - destruct (set_color_reps st1 (FR g (fplug (fcol Black f1) t) :: c) e l r Black) as (st2 & H2 & Hr2 & Hs2);
      [exact Hr1 |].
    erewrite bind_run by exact H2.
    destruct (set_color_reps st2 c g (fplug (fcol Black f1) t) (T (recolor Black e) l r) Red)
      as (st3 & H3 & Hr3 & Hs3); [exact Hr2 |].
    erewrite bind_run by exact H3. exists st3. split; [done |]. split; [exact Hr3 | congruence].
  - destruct (set_color_reps st1 (FL g (fplug (fcol Black f1) t) :: c) e l r Black) as (st2 & H2 & Hr2 & Hs2);
      [exact Hr1 |].
    erewrite bind_run by exact H2.
    destruct (set_color_reps st2 c g (T (recolor Black e) l r) (fplug (fcol Black f1) t) Red)
      as (st3 & H3 & Hr3 & Hs3); [exact Hr2 |].
    erewrite bind_run by exact H3. exists st3. split; [done |]. split; [exact Hr3 | congruence].
Qed.

Lemma turn_recolor st f1 f2 c t :
  t <> E -> rcolor t = Red -> reps st (plug (f1 :: f2 :: c) t) ->
  ncol (fdata f1) = Red -> rcolor (fsib f2) = Red ->
  exists st' c' t', fixInsert_step (rid t) st = Ret (inl (rid t'), st') /\
    turn st st' (f1 :: f2 :: c) t c' t'.
Proof.
  intros Ht Htc Hr H1 H2.
  destruct (fsib f2) as [| e l r] eqn:Hu; [done |]. cbn in H2.
  destruct (recolor_three _ _ _ _ _ _ _ _ Hr Hu) as (st' & Hrun & Hr' & Hs').
  destruct (fixInsert_enter st f1 f2 c t (fun _ => mret (inr tt)) Ht Hr H1)
    as (n & Hn & Hp & Hpn & Hgn & Hnr).
  assert (exists n, heap st !! nid e = Some n /\ TreeNode.color n = Red) as (en & He & Hec).
  { destruct f2 as [g u | g u]; cbn in Hu; subst u.
    - destruct (reps_color st (FR g (fplug f1 t) :: c) (T e l r) Hr) as (en & ? & ?).
      exists en. split; [done |]. by rewrite H0.
    - destruct (reps_color st (FL g (fplug f1 t) :: c) (T e l r) Hr) as (en & ? & ?).
      exists en. split; [done |]. by rewrite H0. }
  assert (TreeNode.color (fcell f1 (nid (fdata f2)) (rid t)) = Red) as Hcp by (by destruct f1).
  assert (TreeNode.parent (fcell f1 (nid (fdata f2)) (rid t)) = nid (fdata f2)) as Hpp by (by destruct f1).
  set (c1 := fcol Black f1).
  exists st', c, (match f2 with FL d _ => T (recolor Red d) (fplug c1 t) (T (recolor Black e) l r)
                       | FR d _ => T (recolor Red d) (T (recolor Black e) l r) (fplug c1 t) end).
  split.
  - unfold fixInsert_step. erewrite bind_run by done. sames.
    mstep. rewrite Hp. erewrite bind_run by (by eapply field_run). rewrite Hcp, bool_decide_true by done. cbn [negb].
    erewrite bind_run by (by eapply field_run). rewrite Hpp.
    erewrite bind_run by (by eapply field_run).
    destruct f2 as [g u | g u]; cbn in Hu; subst u; cbn [fcell TreeNode.left fdata rid] in *.
    + sames. mstep. erewrite bind_run by (by eapply field_run). rewrite Hec. cbn. exact Hrun.
    + assert (nid e <> nid (fdata f1)) as Hne.
      { pose proof (reps_left_only st c g (T e l r) (fplug f1 t) ltac:(by destruct f1) Hr) as Hx.
        by destruct f1. }
      cbn [cell TreeNode.left]. sames. mstep. erewrite bind_run by (by eapply field_run). rewrite Hec. cbn. exact Hrun.
  - destruct f1 as [p s | p s], f2 as [g u | g u]; cbn in Hu; subst u; cbn in H1, Hs';
    (constructor;
     [ exact Hr' | done
     | apply (nodes_replace c); cbn; by rewrite <- ?app_assoc
     | apply (meta_replace c); cbn; [by rewrite <- ?app_assoc | tauto]
     | done
     | intros m Hrb Hcrb; cbn in Hcrb; rewrite H1 in Hcrb;
       destruct (ncol g) eqn:Hg; [| by destruct Hcrb as (_ & _ & ? & _)];
       destruct Hcrb as (Hs1 & Hs2 & _ & _ & Hu & Hc); rewrite H2 in Hu; destruct Hu as (? & ? & ? & ?);
       exists (S m); cbn; (split; [split_and!; done | done])
     | cbn; lia ]).
Qed.

(** The black uncle, outer case: the grandparent is rotated down. *)
Lemma finish_right st p s g u c t :
  t <> E -> reps st (plug (FL p s :: FL g u :: c) t) ->
  exists st', (p ← get_parent (rid t); set_color p Black;; g ← get_parent p; set_color g Red;;
               rightRotate g;; mret (@inl ref unit (rid t))) st = Ret (inl (rid t), st') /\
    reps st' (plug (FL (recolor Black p)
      (T (add_data (- (nsl p + Piece.length (npiece p))) (- (nlf p + Piece.lineFeedCnt (npiece p)))
            (recolor Red g)) s u) :: c) t) /\
    size (heap st') = size (heap st).
Proof.
  intros Ht Hr. destruct (reps_child _ _ _ Ht Hr) as (n & Hn & Hp). cbn in Hp. mstep. rewrite Hp.
  destruct (set_color_reps st (FL g u :: c) p t s Black Hr) as (st1 & H1 & Hr1 & Hs1).
  erewrite bind_run by exact H1.
  pose proof (reps_node st1 (FL g u :: c) _ _ _ Hr1) as Hp1. cbn in Hp1. mstep.
  destruct (set_color_reps st1 c g _ u Red Hr1) as (st2 & H2 & Hr2 & Hs2).
  erewrite bind_run by exact H2.
  destruct (rightRotate_reps st2 c (recolor Black p) t (recolor Red g) s u Hr2) as (st3 & H3 & Hr3 & Hs3).
  erewrite bind_run by exact H3. exists st3. split; [done |]. split; [exact Hr3 | congruence].
Qed.

Lemma finish_left st p s g u c t :
  t <> E -> reps st (plug (FR p s :: FR g u :: c) t) ->
  exists st', (p ← get_parent (rid t); set_color p Black;; g ← get_parent p; set_color g Red;;
               leftRotate g;; mret (@inl ref unit (rid t))) st = Ret (inl (rid t), st') /\
    reps st' (plug (FR (add_data (nsl g + Piece.length (npiece g)) (nlf g + Piece.lineFeedCnt (npiece g))
            (recolor Black p)) (T (recolor Red g) u s) :: c) t) /\
    size (heap st') = size (heap st).
Proof.
  intros Ht Hr. destruct (reps_child _ _ _ Ht Hr) as (n & Hn & Hp). cbn in Hp. mstep. rewrite Hp.
  destruct (set_color_reps st (FR g u :: c) p s t Black Hr) as (st1 & H1 & Hr1 & Hs1).
  erewrite bind_run by exact H1.
  pose proof (reps_node st1 (FR g u :: c) _ _ _ Hr1) as Hp1. cbn in Hp1. mstep.
  destruct (set_color_reps st1 c g u _ Red Hr1) as (st2 & H2 & Hr2 & Hs2).
  erewrite bind_run by exact H2.
  destruct (leftRotate_reps st2 c (recolor Red g) u (recolor Black p) s t Hr2) as (st3 & H3 & Hr3 & Hs3).
  erewrite bind_run by exact H3. exists st3. split; [done |]. split; [exact Hr3 | congruence].
Qed.

(** The reads of a turn up to the color of a black uncle. *)
Lemma black_uncle_left st f1 g u c t :
  t <> E -> reps st (plug (f1 :: FL g u :: c) t) -> ncol (fdata f1) = Red -> rcolor u = Black ->
  fixInsert_step (rid t) st =
    (pr ← get_right (nid (fdata f1));
     x ← (if same (rid t) pr then leftRotate (nid (fdata f1));; mret (nid (fdata f1)) else mret (rid t));
     p ← get_parent x; set_color p Black;; g ← get_parent p; set_color g Red;;
     rightRotate g;; mret (inl x)) st.
Proof.
  intros Ht Hr H1 H2.
  destruct (fixInsert_enter st f1 (FL g u) c t (fun _ => mret (inr tt)) Ht Hr H1)
    as (n & Hn & Hp & Hpn & Hgn & Hnr). cbn [fdata] in *.
  destruct (reps_color st (FR g (fplug f1 t) :: c) u Hr) as (un & Hun & Huc).
  unfold fixInsert_step. erewrite bind_run by done. sames.
  mstep. rewrite Hp. erewrite bind_run by (by eapply field_run).
  replace (TreeNode.color _) with (ncol (fdata f1)) by by destruct f1.
  rewrite H1, bool_decide_true by done. cbn [negb].
  erewrite bind_run by (by eapply field_run).
  replace (TreeNode.parent _) with (nid g) by by destruct f1.
  erewrite bind_run by (by eapply field_run). cbn [fcell TreeNode.left cell]. sames. mstep.
  erewrite bind_run by (by eapply field_run). rewrite Huc, H2, bool_decide_false by done. done.
Qed.

Lemma black_uncle_right st f1 g u c t :
  t <> E -> reps st (plug (f1 :: FR g u :: c) t) -> ncol (fdata f1) = Red -> rcolor u = Black ->
  fixInsert_step (rid t) st =
    (pl ← get_left (nid (fdata f1));
     x ← (if same (rid t) pl then rightRotate (nid (fdata f1));; mret (nid (fdata f1)) else mret (rid t));
     p ← get_parent x; set_color p Black;; g ← get_parent p; set_color g Red;;
     leftRotate g;; mret (inl x)) st.
Proof.
  intros Ht Hr H1 H2.
  destruct (fixInsert_enter st f1 (FR g u) c t (fun _ => mret (inr tt)) Ht Hr H1)
    as (n & Hn & Hp & Hpn & Hgn & Hnr). cbn [fdata] in *.
  destruct (reps_color st (FL g (fplug f1 t) :: c) u Hr) as (un & Hun & Huc).
  assert (nid (fdata f1) <> rid u) as Hne.
  { apply not_eq_sym. pose proof (reps_left_only st c g u (fplug f1 t) ltac:(by destruct f1) Hr) as Hx.
    by destruct f1. }
  unfold fixInsert_step. erewrite bind_run by done. sames.
  mstep. rewrite Hp. erewrite bind_run by (by eapply field_run).
  replace (TreeNode.color _) with (ncol (fdata f1)) by by destruct f1.
  rewrite H1, bool_decide_true by done. cbn [negb].
  erewrite bind_run by (by eapply field_run).
  replace (TreeNode.parent _) with (nid g) by by destruct f1.
  erewrite bind_run by (by eapply field_run). cbn [fcell TreeNode.left cell]. sames. mstep.
  erewrite bind_run by (by eapply field_run). rewrite Huc, H2, bool_decide_false by done. done.
Qed.

(** The balance of the rotated subtree. *)
Lemma turn_rotate_left st f1 g u c t :
  t <> E -> rcolor t = Red -> reps st (plug (f1 :: FL g u :: c) t) ->
  ncol (fdata f1) = Red -> rcolor u = Black ->
  exists st' c' t', fixInsert_step (rid t) st = Ret (inl (rid t'), st') /\
    turn st st' (f1 :: FL g u :: c) t c' t'.
Proof.
  intros Ht Htc Hr H1 H2. rewrite (black_uncle_left st f1 g u c t) by done.
  pose proof (reps_parent _ _ _ _ Hr) as Hp.
  destruct f1 as [p s | p a]; cbn [fdata fcell] in *; mstep.
  - rewrite same_ne by (apply not_eq_sym; by eapply reps_right_only). erewrite bind_run by done.
    destruct (finish_right st p s g u c t Ht Hr) as (st' & Hrun & Hr' & Hs').
    eexists st', _, t. split; [exact Hrun |]. constructor; [exact Hr' | done | | | done | | cbn; lia].
    + apply (nodes_replace c). cbn. by assocs.
    + apply (meta_replace c); cbn; [by assocs |]. intuition lia.
    + intros m Hrb Hcrb. cbn in Hcrb. rewrite H1 in Hcrb. exists m. cbn.
      destruct (ncol g) eqn:Hg; [| by destruct Hcrb as (_ & _ & ? & _)].
      split; [done | tauto].
  - destruct t as [| x b d]; [done |]. cbn [rid] in *. sames.
    destruct (leftRotate_reps st (FL g u :: c) p a x b d Hr) as (st1 & H3 & Hr1 & Hs1).
    erewrite bind_run; [| erewrite bind_run by exact H3; reflexivity].
    destruct (finish_right st1 _ d g u c (T p a b) ltac:(done) Hr1) as (st' & Hrun & Hr' & Hs').
    eexists st', _, (T p a b). split; [exact Hrun |].
    constructor; [exact Hr' | congruence | | | done | | cbn; lia].
    + apply (nodes_replace c). cbn. by assocs.
    + apply (meta_replace c); cbn; [by assocs |]. intuition lia.
    + intros m Hrb Hcrb. cbn in Hcrb, Hrb, Htc. rewrite H1 in Hcrb. rewrite Htc in Hrb. exists m. cbn.
      destruct (ncol g) eqn:Hg; [| by destruct Hcrb as (_ & _ & ? & _)].
      rewrite H1. split; tauto.
Qed.

Lemma turn_rotate_right st f1 g u c t :
  t <> E -> rcolor t = Red -> reps st (plug (f1 :: FR g u :: c) t) ->
  ncol (fdata f1) = Red -> rcolor u = Black ->
  exists st' c' t', fixInsert_step (rid t) st = Ret (inl (rid t'), st') /\
    turn st st' (f1 :: FR g u :: c) t c' t'.
Proof.
  intros Ht Htc Hr H1 H2. rewrite (black_uncle_right st f1 g u c t) by done.
  pose proof (reps_parent _ _ _ _ Hr) as Hp.
  destruct f1 as [p a | p s]; cbn [fdata fcell] in *; mstep.
  - destruct t as [| x b d]; [done |]. cbn [rid] in *. sames.
    destruct (rightRotate_reps st (FR g u :: c) x b p d a Hr) as (st1 & H3 & Hr1 & Hs1).
    erewrite bind_run; [| erewrite bind_run by exact H3; reflexivity].
    set (t1 := T _ d a) in Hr1. assert (t1 <> E) as Ht1 by done.
    destruct (finish_left st1 x b g u c t1 Ht1 Hr1) as (st' & Hrun & Hr' & Hs').
    eexists st', _, t1. split; [exact Hrun |].
    constructor; [exact Hr' | congruence | | | done | | cbn; lia].
    + apply (nodes_replace c). cbn. by assocs.
    + apply (meta_replace c); cbn; [by assocs |]. intuition lia.
    + intros m Hrb Hcrb. cbn in Hcrb, Hrb, Htc. rewrite H1 in Hcrb. rewrite Htc in Hrb. exists m. cbn.
      destruct (ncol g) eqn:Hg; [| by destruct Hcrb as (_ & _ & ? & _)].
      rewrite H1. split; tauto.
  - rewrite same_ne by (apply not_eq_sym; by eapply reps_left_only). erewrite bind_run by done.
    destruct (finish_left st p s g u c t Ht Hr) as (st' & Hrun & Hr' & Hs').
    eexists st', _, t. split; [exact Hrun |]. constructor; [exact Hr' | done | | | done | | cbn; lia].
    + apply (nodes_replace c). cbn. by assocs.
    + apply (meta_replace c); cbn; [by assocs |]. intuition lia.
    + intros m Hrb Hcrb. cbn in Hcrb. rewrite H1 in Hcrb. exists m. cbn.
      destruct (ncol g) eqn:Hg; [| by destruct Hcrb as (_ & _ & ? & _)].
      split; [done | tauto].
Qed.

Lemma fixInsert_turn st c t n :
  t <> E -> rcolor t = Red -> reps st (plug c t) -> crb c n -> ccolor c = Red ->
  exists st' c' t', fixInsert_step (rid t) st = Ret (inl (rid t'), st') /\ turn st st' c t c' t'.
Proof.
  intros Ht Htc Hr Hcrb Hcc. destruct c as [| f1 [| f2 c]]; [done | |]; cbn in Hcc, Hcrb.
  - rewrite Hcc in Hcrb. by destruct Hcrb as (_ & _ & _ & ? & _).
  - destruct (rcolor (fsib f2)) eqn:Hu; [| by apply turn_recolor].
    destruct f2; [by apply turn_rotate_left | by apply turn_rotate_right].
Qed.

(** The whole loop. *)
Lemma fixInsert_loop st c t n fuel :
  t <> E -> rcolor t = Red -> reps st (plug c t) -> meta_ok (plug c t) -> rb t n -> crb c n ->
  (length c < fuel)%nat ->
  exists st' c' t' n', iter fuel fixInsert_step (rid t) st = Ret (tt, st') /\
    reps st' (plug c' t') /\ nodes (plug c' t') = nodes (plug c t) /\ meta_ok (plug c' t') /\
    rcolor t' = Red /\ rb t' n' /\ crb c' n' /\ ccolor c' = Black.
Proof.
  revert st c t n. induction fuel as [| fuel IH]; intros st c t n Ht Htc Hr Hm Hrb Hcrb Hf; [lia |].
  destruct (ccolor c) eqn:Hc.
  - exists st, c, t, n. split; [| done]. apply iter_stop. by apply (fixInsert_stop st c).
  - destruct (fixInsert_turn st c t n Ht Htc Hr Hcrb Hc) as (st1 & c1 & t1 & Hrun & Hturn).
    destruct (turn_rb _ _ _ _ _ _ Hturn n Hrb Hcrb) as (n1 & Hrb1 & Hcrb1).
    destruct (IH st1 c1 t1 n1) as (st2 & c2 & t2 & n2 & Hrun2 & Hr2 & Hn2 & Hrest).
    + intros ->. by pose proof (turn_color _ _ _ _ _ _ Hturn).
    + apply Hturn.
    + apply Hturn.
    + by apply Hturn.
    + done.
    + done.
    + pose proof (turn_up _ _ _ _ _ _ Hturn). lia.
    + exists st2, c2, t2, n2. split; [by erewrite iter_next by exact Hrun |].
      split; [done |]. split; [| done]. rewrite Hn2. apply Hturn.
Qed.

(** [fixInsert] after a new red leaf was linked into a hole of a valid tree. *)
Lemma fixInsert_reps st c d :
  reps st (plug c (T d E E)) -> ncol d = Red -> nsl d = 0 -> nlf d = 0 ->
  meta_ok (plug c E) -> balanced (plug c E) ->
  exists st' t', fixInsert (nid d) st = Ret (tt, st') /\ reps st' t' /\
    nodes t' = nodes (plug c (T d E E)) /\ meta_ok t' /\ balanced t'.
Proof.
  intros Hr Hcol Hsl Hlf Hm Hb. unfold fixInsert.
  apply meta_plug in Hm as [_ Hm]. cbn in Hm.
  destruct (recompute_reps st c (T d E E) 0 0) as (st1 & H1 & Hr1 & Hs1);
    [done | done | cbn; by rewrite Hsl, Hlf | done |].
  cbn [rid] in H1. erewrite bind_run by exact H1. erewrite bind_run by done.
  set (ds := tsize (T d E E) - 0) in *. set (dl := tlf (T d E E) - 0) in *.
  assert (forall c m, crb c m -> crb (cadd ds dl c) m /\ ccolor (cadd ds dl c) = ccolor c) as Hcc.
  { clear. induction c as [| f c IH]; intros m H; [done |].
    destruct f as [e r | e l]; cbn in *; destruct H as [Hs H]; destruct (ncol e);
      try (destruct H as (? & ? & ? & H)); destruct (IH _ H) as [H' Hcol']; split_and!; try done;
      try congruence; by destruct c. }
  destruct (plug_rb c E Hb) as (n & Hn & Hcrb & _ & _). cbn in Hn. subst n.
  destruct (fixInsert_loop st1 (cadd ds dl c) (T d E E) 0 (S (S (size (heap st1)))))
    as (st2 & c2 & t2 & n2 & Hrun & Hr2 & Hn2 & Hm2 & Htc2 & Hrb2 & Hcrb2 & Hcc2).
  - done.
  - done.
  - exact Hr1.
  - apply meta_plug. split; [cbn; by rewrite Hsl, Hlf |].
    pose proof (cmeta_cadd ds dl 0 0 c Hm) as Hx. unfold ds, dl in *.
    by rewrite !Z.sub_0_r, !Z.add_0_l in *.
  - cbn. by rewrite Hcol.
  - by apply Hcc.
  - pose proof (reps_ctx_size _ _ _ Hr1). lia.
  - cbn [rid] in Hrun. erewrite bind_run by exact Hrun. erewrite bind_run by done.
    pose proof (nodes_cadd ds dl c (T d E E)) as Hnn.
    destruct c2 as [| f c2].
    + cbn in *. destruct t2 as [| e l r]; [done |]. rewrite (reps_is_root _ _ Hr2). cbn [rid].
      destruct (set_color_reps st2 [] e l r Black Hr2) as (st3 & H3 & Hr3 & Hs3).
      exists st3, (T (recolor Black e) l r). split; [done |]. split; [exact Hr3 |].
      split; [by rewrite <- Hnn, <- Hn2 |]. split; [done |].
      split; [done |]. cbn in Hrb2, Htc2. rewrite Htc2 in Hrb2. exists (S n2). cbn. tauto.
    + assert (balanced (plug (f :: c2) t2)) as Hbal by (by eapply rb_plug).
      destruct (plug (f :: c2) t2) as [| e l r] eqn:Ep.
      { exfalso. apply (plug_ne (f :: c2) t2); [by intros -> | done]. }
      rewrite (reps_root _ _ Hr2). cbn [rid].
      destruct (set_color_reps st2 [] e l r Black Hr2) as (st3 & H3 & Hr3 & Hs3).
      exists st3, (T (recolor Black e) l r). split; [done |]. split; [exact Hr3 |].
      split; [by rewrite <- Hnn, <- Hn2 |]. split; [done |].
      destruct Hbal as [Hbc Hbn]. cbn in Hbc. split; [done |].
      destruct Hbn as [m Hm']. exists m. cbn in *. by rewrite Hbc in Hm'.
Qed.

End Insert.

(** ** What the operations guarantee *)

(** Both rotations, run on the heap at a node with the child they need,
    throw nothing and leave a well-formed tree (parents, children, root) with
    the same nodes in the same order; if [size_left] and [lf_left] were right
    everywhere they still are. *)
Lemma rotations_preserve_order F st c x a y b d :
  (reps F st (plug c (T x a (T y b d))) ->
   exists st' t', leftRotate (nid x) st = Ret (tt, st') /\ reps F st' t' /\
     nodes t' = nodes (plug c (T x a (T y b d))) /\
     (meta_ok (plug c (T x a (T y b d))) -> meta_ok t')) /\
  (reps F st (plug c (T y (T x a b) d)) ->
   exists st' t', rightRotate (nid y) st = Ret (tt, st') /\ reps F st' t' /\
     nodes t' = nodes (plug c (T y (T x a b) d)) /\
     (meta_ok (plug c (T y (T x a b) d)) -> meta_ok t')).
Proof.
  split.
  - intros Hr. destruct (leftRotate_reps _ _ _ _ _ _ _ Hr) as (st' & Hrun & Hr' & _).
    do 2 eexists. split; [exact Hrun |]. split; [exact Hr' |]. split.
    + apply nodes_replace. cbn. by assocs.
    + apply meta_replace; cbn; [by assocs | intuition lia].
  - intros Hr. destruct (rightRotate_reps _ _ _ _ _ _ _ Hr) as (st' & Hrun & Hr' & _).
    do 2 eexists. split; [exact Hrun |]. split; [exact Hr' |]. split.
    + apply nodes_replace. cbn. by assocs.
    + apply meta_replace; cbn; [by assocs | intuition lia].
Qed.

(** A piece of a given length and number of line feeds. *)
Definition sample_piece (len lf : Z) : Piece.t :=
  Piece.mk 0 (BufferCursor.mk 0 0) (BufferCursor.mk 0 len) lf len.

Definition sample_data (i : ref) (col : NodeColor) (len lf sl lfl : Z) : ndata :=
  mkData i col (sample_piece len lf) sl lfl.

(** A tree of three nodes: 2 with children 3 and 4. *)
Definition sample_tree : rtree :=
  T (sample_data 2%nat Black 5 1 3 0) (T (sample_data 3%nat Red 3 0 0 0) E E)
    (T (sample_data 4%nat Red 7 2 0 0) E E).

Fixpoint build (p : ref) (t : rtree) (h : gmap ref TreeNode.t) : gmap ref TreeNode.t :=
  match t with
  | E => h
  | T d l r => <[nid d := cell d p (rid l) (rid r)]> (build (nid d) l (build (nid d) r h))
  end.
Definition build_tree (t : rtree) : tree :=
  mkTree (build SENTINEL t {[ SENTINEL := sentinel_node ]}) (rid t).

Lemma sample_reps : reps (heap (build_tree sample_tree)) (build_tree sample_tree) sample_tree.
Proof.
  apply reps_intro; [done | cbn; split_and!; done | done |].
  cbn. repeat constructor; set_solver.
Qed.

(** A list without repetition splits at an element in one way. *)
Lemma split_unique {A} (x : A) l1 l2 k1 k2 :
  NoDup (l1 ++ x :: l2) -> l1 ++ x :: l2 = k1 ++ x :: k2 -> l1 = k1 /\ l2 = k2.
Proof.
  revert k1. induction l1 as [| a l1 IH]; intros [| b k1] Hnd Heq; cbn in *; simplify_eq;
    [done | | |]; apply NoDup_cons in Hnd as [Hx Hnd]; [set_solver | set_solver |].
  destruct (IH k1) as [-> ->]; done.
Qed.

(** [next] and [prev] of a node of the tree are its in-order successor and
    predecessor, [SENTINEL] at the ends; they end, throw nothing and change
    nothing. *)
Lemma next_prev_inorder F st t l1 x l2 :
  reps F st t -> ids t = l1 ++ x :: l2 ->
  next x st = Ret (hd SENTINEL l2, st) /\
  prev x st = Ret (default SENTINEL (last l1), st).
Proof.
  intros Hr Hids. destruct (focus t x) as (c & d & l & r & -> & <-); [rewrite Hids; set_solver |].
  assert (NoDup (ids (plug c (T d l r)))) as Hnd by (destruct Hr as [_ _ _ [_ H]%NoDup_cons _]; done).
  rewrite ids_plug_eq in Hids, Hnd. cbn in Hids, Hnd. rewrite <- app_assoc in Hids, Hnd.
  cbn in Hids, Hnd. rewrite app_assoc in Hids, Hnd.
  destruct (split_unique _ _ _ _ _ Hnd Hids) as [<- <-].
  split; [by eapply next_reps | by eapply prev_reps].
Qed.

(** After the size of one subtree changed, both metadata routines repair the
    tree.  When the metadata of the ancestors still is right for a subtree of
    size [s] with [lf] line feeds in that place, [recomputeTreeMetadata] at the
    subtree, and [updateTreeMetadata] with the two differences, throw nothing,
    move no node, and leave [size_left] and [lf_left] right in the whole tree. *)
Lemma metadata_repaired F st c t s lf :
  t <> E -> reps F st (plug c t) -> meta_ok t -> cmeta s lf c ->
  (exists st' t', recomputeTreeMetadata (rid t) st = Ret (tt, st') /\ reps F st' t' /\
     nodes t' = nodes (plug c t) /\ meta_ok t') /\
  (exists st' t', updateTreeMetadata (rid t) (tsize t - s) (tlf t - lf) st = Ret (tt, st') /\
     reps F st' t' /\ nodes t' = nodes (plug c t) /\ meta_ok t').
Proof.
  intros Ht Hr Hm Hc.
  assert (meta_ok (plug (cadd (tsize t - s) (tlf t - lf) c) t)) as Hm'.
  { apply meta_plug. split; [done |].
    pose proof (cmeta_cadd (tsize t - s) (tlf t - lf) s lf c Hc) as H. by rewrite !Zplus_minus in H. }
  destruct (recompute_reps _ _ _ _ _ Ht Hr Hm Hc) as (st1 & H1 & Hr1 & _).
  destruct (updateTreeMetadata_reps _ _ _ (tsize t - s) (tlf t - lf) Ht Hr) as (st2 & H2 & Hr2 & _).
  split; do 2 eexists; (split; [done |]); (split; [done |]); (split; [apply nodes_cadd | done]).
Qed.

(** Inserting a node keeps the tree a red-black tree: when a new red leaf
    has been linked anywhere into a balanced tree with right metadata,
    [fixInsert] ends, throws nothing, and leaves a tree with the same nodes in
    the same order that is balanced again (black root, no red node with a red
    child, equal black heights) and whose [size_left] and [lf_left] count the
    new node. *)
Lemma fixInsert_rebalances F st c d :
  reps F st (plug c (T d E E)) -> ncol d = Red -> nsl d = 0 -> nlf d = 0 ->
  meta_ok (plug c E) -> balanced (plug c E) ->
  exists st' t', fixInsert (nid d) st = Ret (tt, st') /\ reps F st' t' /\
    nodes t' = nodes (plug c (T d E E)) /\ meta_ok t' /\ balanced t'.
Proof. apply fixInsert_reps. Qed.

Definition sample_ctx : ctx :=
  [FR (sample_data 4%nat Red 7 2 0 0) E;
   FR (sample_data 2%nat Black 5 1 3 0) (T (sample_data 3%nat Red 3 0 0 0) E E)].
