(* ===== verification/RBTreeDelete.v ===== *)
(** * Red-black deletion

    [rbDelete] of [rbTreeBase.ts]: it takes one node out of the sequence and
    leaves a balanced tree with right metadata.  While it runs, the parent of
    [SENTINEL] holds the place of the removed node when no child takes it. *)

From stdpp Require Import gmap.
From S2P Require Import Prelude RBTree RBTreeRep RBTreeOps RBTreeInsert.

(** ** The sequence of nodes *)

(** A represented red-black tree with right metadata. *)
Definition valid F (st : tree) (t : rtree) : Prop := reps F st t /\ meta_ok t /\ balanced t.

Lemma nodes_fst t : nodes t = [] -> t = E.
Proof. destruct t; [done |]. cbn. intros H. by apply app_nil in H as [_ ?]. Qed.

Lemma fmap_nodes t : fst <$> nodes t = ids t.
Proof. induction t as [| d l IHl r IHr]; cbn; [done |]. by rewrite fmap_app, IHl, fmap_cons, IHr. Qed.

Lemma focus_nodes t l1 x q l2 :
  NoDup (ids t) -> nodes t = l1 ++ (x, q) :: l2 ->
  exists c d l r, t = plug c (T d l r) /\ nid d = x /\ npiece d = q /\
    l1 = nbefore c ++ nodes l /\ l2 = nodes r ++ nafter c.
Proof.
  intros Hnd Hn.
  destruct (focus t x) as (c & d & l & r & -> & Hx).
  { rewrite <- fmap_nodes, Hn, fmap_app, fmap_cons. set_solver. }
  exists c, d, l, r. split; [done |]. split; [done |].
  assert (NoDup (nodes (plug c (T d l r)))) as HNn
    by (apply (NoDup_fmap_1 fst); by rewrite fmap_nodes).
  rewrite nodes_plug in Hn. cbn in Hn. rewrite <- app_assoc in Hn. cbn in Hn. rewrite app_assoc in Hn.
  rewrite nodes_plug in HNn. cbn in HNn. rewrite <- app_assoc in HNn. cbn in HNn. rewrite app_assoc in HNn.
  rewrite <- fmap_nodes, nodes_plug in Hnd. cbn in Hnd. rewrite <- app_assoc in Hnd. cbn in Hnd.
  rewrite app_assoc in Hnd.
  assert (npiece d = q) as <-.
  { assert ((x, q) ∈ (nbefore c ++ nodes l) ++ (nid d, npiece d) :: nodes r ++ nafter c) as Hin
      by (rewrite Hn; set_solver).
    rewrite fmap_app, fmap_cons in Hnd. cbn in Hnd. subst x.
    apply NoDup_app in Hnd as (_ & Hd1 & (Hd2 & _)%NoDup_cons).
    apply elem_of_app in Hin as [Hin | [[= ->] | Hin]%elem_of_cons]; [| done |].
    - exfalso. eapply Hd1; [apply (list_elem_of_fmap_2 fst _ _ Hin) | left].
    - exfalso. apply Hd2. apply (list_elem_of_fmap_2 fst _ _ Hin). }
  split; [done |]. subst x.
  destruct (split_unique _ _ _ _ _ HNn Hn) as [<- <-]. done.
Qed.

(** Where [leftest] and [righttest] arrive, as a context: a tree put there comes
    first, or last. *)
Lemma leftest_focus t : t <> E ->
  exists c e r, t = plug c (T e E r) /\ hd SENTINEL (ids t) = nid e /\ Forall (fun f => is_FR f = false) c /\
    (forall X, nodes (plug c (T e X r)) = nodes X ++ nodes t).
Proof.
  induction t as [| d l IHl r _]; [done |]. intros _.
  assert (l = E \/ l <> E) as [-> | Hl] by (destruct l; [by left | by right]).
  - exists [], d, r. done.
  - destruct (IHl Hl) as (c & e & r' & Hpl & Hhd & HFL & Hb). exists (c ++ [FL d r]), e, r'. split_and!.
    + rewrite plug_app, <- Hpl. done.
    + cbn. rewrite <- Hhd. destruct (ids l) eqn:El; [| done].
      destruct l; [done |]. cbn in El. by apply app_nil in El as [_ ?].
    + apply Forall_app. split; [done |]. by constructor.
    + intros X. rewrite plug_app. cbn. by rewrite Hb, <- app_assoc.
Qed.

Lemma righttest_focus t : t <> E ->
  exists c e l, t = plug c (T e l E) /\ default SENTINEL (last (ids t)) = nid e /\
    (forall X, nodes (plug c (T e l X)) = nodes t ++ nodes X).
Proof.
  induction t as [| d l _ r IHr]; [done |]. intros _.
  assert (r = E \/ r <> E) as [-> | Hr] by (destruct r; [by left | by right]).
  - exists [], d, l. split_and!; [done | cbn; by rewrite last_app_cons |].
    intros X. cbn. by rewrite <- app_assoc.
  - destruct (IHr Hr) as (c & e & l' & Hpl & Hhd & Hb). exists (c ++ [FR d l]), e, l'. split_and!.
    + rewrite plug_app, <- Hpl. done.
    + cbn. rewrite <- Hhd, last_app_cons, last_cons. destruct (last (ids r)) eqn:El; [done |].
      destruct r; [done |]. apply last_None in El. cbn in El. by apply app_nil in El as [_ ?].
    + intros X. rewrite plug_app. cbn. by rewrite Hb, <- app_assoc.
Qed.

Lemma cmeta_eq s lf s' lf' c : cmeta s lf c -> s = s' -> lf = lf' -> cmeta s' lf' c.
Proof. by intros H -> ->. Qed.

Lemma bind_ext {A B} (m : M A) (f g : A -> M B) st :
  (forall a st', f a st' = g a st') -> (m ≫= f) st = (m ≫= g) st.
Proof. intros H. unfold mbind, M_bind. destruct (m st) as [[a st'] |]; [apply H | done]. Qed.

Section Hole.
Context {q : ref} {F : gmap ref TreeNode.t}.
Local Notation reps := (repsq q F).
Local Notation ascendRight_iter := (ascendRight_iter (q := q) (F := F)).
Local Notation recompute_at_reps := (recompute_at_reps (q := q) (F := F)).
Local Notation propagate_reps := (propagate_reps (q := q) (F := F)).
Local Notation updateTreeMetadata_reps := (updateTreeMetadata_reps (q := q) (F := F)).
Local Notation recompute_spine := (recompute_spine (q := q) (F := F)).
Local Notation upd_reps := (upd_reps (q := q) (F := F)).
Local Notation reps_ids_ne := (reps_ids_ne (q := q) (F := F)).

(** ** Metadata around the place of the removed node *)

(** The parent reference of a subtree, or of [SENTINEL] in the empty place. *)
Lemma reps_up st f c t :
  reps st (plug (f :: c) t) -> (t = E -> q = nid (fdata f)) ->
  exists n, heap st !! rid t = Some n /\ TreeNode.parent n = nid (fdata f).
Proof.
  intros Hr Hq. destruct t as [| d l r].
  - eexists. split; [apply (reps_sentinel _ _ Hr) |]. cbn. by apply Hq.
  - by eapply (reps_child st (f :: c)).
Qed.

Lemma reps_sentinel_ne_root st f c t : reps st (plug (f :: c) t) -> SENTINEL <> root st.
Proof.
  intros [Hr _ _ Hn _] Heq. rewrite rid_plug in Hr. rewrite ids_plug in Hn.
  apply NoDup_cons in Hn as [Hs _]. apply Hs. rewrite Heq, Hr. apply elem_of_app. right. apply croot_elem.
Qed.

Lemma frame_ne_sentinel st f c t : reps st (plug (f :: c) t) -> nid (fdata f) <> SENTINEL.
Proof. intros Hr. destruct f; eapply (reps_ids_ne st c); [exact Hr | left | exact Hr | left]. Qed.

(** The climb of [recomputeTreeMetadata] from the empty place, when the right
    child of its parent is empty. *)
Lemma recompute_climb st d l c s lf :
  reps st (plug c (T d l E)) -> q = nid d -> SENTINEL <> root st -> cmeta s lf c ->
  exists st', recomputeTreeMetadata SENTINEL st = Ret (tt, st') /\
    reps st' (plug (cadd (spine (T d l E) - s) (spine_lf (T d l E) - lf) c) (T d l E)) /\
    size (heap st') = size (heap st).
Proof.
  intros Hr Hq Hroot Hc. pose proof (reps_node _ _ _ _ _ Hr) as Hd.
  pose proof (reps_sentinel _ _ Hr) as Hs. pose proof (reps_ctx_size _ _ _ Hr) as Hsz.
  unfold recomputeTreeMetadata. erewrite bind_run by done. rewrite same_ne by done.
  destruct (ascendRight_iter st c (T d l E) (S (size (heap st)))) as (c1 & c2 & -> & H1 & H2 & H3);
    [done | done | lia |].
  destruct (recompute_at_reps st c1 c2 (T d l E) s lf) as (st' & Hat & Hr' & Hs'); [done .. |].
  exists st'. split; [| done]. erewrite bind_run; [exact Hat |]. unfold ascendRight.
  erewrite bind_run by done. erewrite iter_next; [exact H3 |].
  erewrite bind_run by done. rewrite same_ne by done. cbn [negb].
  mstep. rewrite Hq. mstep. done.
Qed.

(** [recomputeTreeMetadata] at the empty place: it takes the missing size out of
    every ancestor, except when the place and its sibling are both empty and it
    mistakes the one for the other; then it changes nothing. *)
Lemma recompute_hole st f c s lf :
  reps st (plug (f :: c) E) -> q = nid (fdata f) -> cmeta s lf (f :: c) ->
  exists st' ds dl, recomputeTreeMetadata SENTINEL st = Ret (tt, st') /\
    reps st' (plug (cadd ds dl (f :: c)) E) /\ size (heap st') = size (heap st) /\
    ((ds = - s /\ dl = - lf) \/ (ds = 0 /\ dl = 0 /\ exists d, f = FL d E)).
Proof.
  intros Hr Hq Hc. pose proof (reps_sentinel_ne_root _ _ _ _ Hr) as Hroot.
  pose proof (reps_sentinel _ _ Hr) as Hs. pose proof (reps_ctx_size _ _ _ Hr) as Hsz. cbn in Hsz.
  destruct f as [d [| e l r] | d l].
  - destruct Hc as (Hsl & Hlf & _ & Hc). cbn [tsize tlf] in Hc.
    destruct (recompute_climb st d E c _ _ Hr Hq Hroot Hc) as (st' & H1 & H2 & H3).
    exists st', 0, 0. split; [done |]. rewrite cadd_0. split; [| split; [done | right; eauto]].
    replace (spine _ - _) with 0 in H2 by (cbn; lia).
    replace (spine_lf _ - _) with 0 in H2 by (cbn; lia). by rewrite cadd_0 in H2.
  - pose proof (reps_parent _ _ _ _ Hr) as Hd. cbn [fdata fcell] in Hd, Hq. rewrite <- Hq in Hd.
    assert (SENTINEL <> nid e) as Hne.
    { apply not_eq_sym, (reps_ids_ne st (FR d E :: c) e l r); [exact Hr | left]. }
    destruct Hc as (Hsl & Hlf & _ & Hc).
    destruct (add_meta_reps st c d E (T e l r) (- s) (- lf) Hr) as (st1 & Hu & Hr1 & Hs1).
    destruct (propagate_reps st1 c (T (add_data (- s) (- lf) d) E (T e l r)) (- s) (- lf))
      as (st2 & Hp & Hr2 & Hs2); [done | exact Hr1 |].
    exists st2, (- s), (- lf). split; [| split; [exact Hr2 | split; [congruence | by left]]].
    unfold recomputeTreeMetadata. erewrite bind_run by done. rewrite same_ne by done.
    erewrite bind_run.
    2: { unfold ascendRight. erewrite bind_run by done. apply iter_stop.
         erewrite bind_run by done. rewrite same_ne by done. cbn [negb]. mstep. mstep. done. }
    erewrite bind_run by done. rewrite same_ne by done. mstep. mstep.
    destruct (calculate_reps st E (FL d (T e l r) :: c) Hr) as [Hcs Hcl]. cbn [rid spine spine_lf] in *.
    erewrite bind_run by exact Hcs. erewrite bind_run by exact Hcl.
    rewrite Hsl, Hlf, !Z.sub_0_l, Hq. erewrite bind_run by exact Hu. exact Hp.
  - destruct Hc as (Hsl & Hlf & _ & Hc).
    destruct (recompute_climb st d l c _ _ Hr Hq Hroot Hc) as (st' & H1 & H2 & H3).
    exists st', (- s), (- lf). split; [done |]. split; [| split; [done | by left]]. cbn [cadd map].
    replace (spine _ - _) with (- s) in H2 by (cbn; lia).
    replace (spine_lf _ - _) with (- lf) in H2 by (cbn; lia). exact H2.
Qed.

(** The metadata of the context is right for the tree in the place, or it is
    still that of the removed node, in the case above. *)
Definition settled (t : rtree) (s lf : Z) (c : ctx) : Prop :=
  (s = tsize t /\ lf = tlf t) \/ (t = E /\ exists d c', c = FL d E :: c').

Lemma recompute_place st f c t s lf :
  reps st (plug (f :: c) t) -> (t = E -> q = nid (fdata f)) -> meta_ok t -> cmeta s lf (f :: c) ->
  exists st' ds dl s' lf', recomputeTreeMetadata (rid t) st = Ret (tt, st') /\
    reps st' (plug (cadd ds dl (f :: c)) t) /\ size (heap st') = size (heap st) /\
    cmeta s' lf' (cadd ds dl (f :: c)) /\ settled t s' lf' (f :: c).
Proof.
  intros Hr Hq Hm Hc. destruct t as [| e l r].
  - destruct (recompute_hole st f c s lf Hr (Hq eq_refl) Hc) as (st' & ds & dl & H1 & H2 & H3 & Hd).
    exists st', ds, dl, (s + ds), (lf + dl). split_and!; [done | done | done | by apply cmeta_cadd |].
    destruct Hd as [[-> ->] | (-> & -> & d & ->)]; [left; cbn; lia | right; eauto].
  - destruct (recompute_spine st (f :: c) (T e l r) s lf) as (st' & H1 & H2 & H3); [done .. |].
    destruct (meta_spine _ Hm) as [Hss Hsl]. rewrite Hss, Hsl in H2.
    exists st', (tsize (T e l r) - s), (tlf (T e l r) - lf), (tsize (T e l r)), (tlf (T e l r)).
    split_and!; [done | done | done | | by left].
    pose proof (cmeta_cadd (tsize (T e l r) - s) (tlf (T e l r) - lf) s lf _ Hc) as H.
    by rewrite !Zplus_minus in H.
Qed.

(** [recomputeTreeMetadata] where nothing is left to do. *)
Lemma recompute_settled st c t :
  t <> E -> reps st (plug c t) -> cmeta (spine t) (spine_lf t) c ->
  exists st', recomputeTreeMetadata (rid t) st = Ret (tt, st') /\ reps st' (plug c t) /\
    size (heap st') = size (heap st).
Proof.
  intros Ht Hr Hc. destruct (recompute_spine st c t _ _ Ht Hr Hc) as (st' & H1 & H2 & H3).
  rewrite !Z.sub_diag, cadd_0 in H2. by exists st'.
Qed.

(** The last repair: afterwards the metadata is right everywhere. *)
Lemma metadata_place st f c t s lf :
  reps st (plug (f :: c) t) -> (t = E -> q = nid (fdata f)) -> meta_ok t -> cmeta s lf (f :: c) ->
  settled t s lf (f :: c) ->
  exists st' ds dl, rbDelete_metadata (rid t) st = Ret (tt, st') /\
    reps st' (plug (cadd ds dl (f :: c)) t) /\ size (heap st') = size (heap st) /\
    meta_ok (plug (cadd ds dl (f :: c)) t).
Proof.
  intros Hr Hq Hm Hc Hset. destruct (reps_up _ _ _ _ Hr Hq) as (n & Hn & Hp).
  pose proof (reps_parent _ _ _ _ Hr) as Hd.
  destruct (calculate_reps _ _ _ Hr) as [Hcs Hcl]. destruct (meta_spine t Hm) as [Hss Hsl].
  rewrite Hss in Hcs. rewrite Hsl in Hcl.
  unfold rbDelete_metadata. mstep. rewrite Hp. erewrite bind_run by (by eapply field_run).
  destruct f as [d r | d l]; cbn [fdata fcell cell TreeNode.left] in *.
  - rewrite same_eq. rewrite bind_assoc. erewrite bind_run by exact Hcs.
    rewrite bind_assoc. erewrite bind_run by exact Hcl. rewrite bind_assoc.
    erewrite bind_run by (by apply get_run). cbn [cell TreeNode.size_left TreeNode.lf_left].
    destruct Hc as (Hnsl & Hnlf & Hmr & Hc). destruct (meta_spine r Hmr) as [Hsr Hslr].
    destruct ((tsize t !== nsl d) || (tlf t !== nlf d)) eqn:Hcmp.
    + destruct Hset as [[-> ->] | (-> & d' & c' & [= <- -> <-])].
      { rewrite Hnsl, Hnlf, !Z.eqb_refl in Hcmp. done. }
      cbn [tsize tlf] in *.
      destruct (upd_reps st c d E E (TreeNode.with_meta 0 0) (add_data (- s) (- lf) d)) as (st1 & Hu & Hr1 & Hs1).
      { exact Hr. } { done. }
      { intros. unfold cell, TreeNode.with_meta. cbn. by rewrite Hnsl, Hnlf, !Z.add_opp_diag_r. }
      destruct (updateTreeMetadata_reps st1 c (T (add_data (- s) (- lf) d) E E) (- s) (- lf))
        as (st2 & H2 & Hr2 & Hs2); [done | exact Hr1 |].
      pose proof (cmeta_cadd (- s) (- lf) _ _ _ Hc) as Hc2.
      destruct (recompute_settled st2 (cadd (- s) (- lf) c) (T (add_data (- s) (- lf) d) E E))
        as (st3 & H3 & Hr3 & Hs3); [done | exact Hr2 | |].
      { cbn. rewrite Hnsl, Hnlf. eapply cmeta_eq; [exact Hc2 | lia | lia]. }
      exists st3, (- s), (- lf). split_and!.
      * rewrite bind_assoc. erewrite bind_run by exact Hu. rewrite Hnsl, Hnlf, !Z.sub_0_l.
        erewrite bind_run by exact H2. exact H3.
      * exact Hr3.
      * congruence.
      * apply (meta_plug (cadd (- s) (- lf) (FL d E :: c)) E). split; [done |]. cbn.
        split_and!; [lia | lia | done |].
        eapply cmeta_eq; [exact Hc2 | lia | lia].
    + apply orb_false_iff in Hcmp as [E1 E2]. apply negb_false_iff, Z.eqb_eq in E1, E2.
      assert (s = tsize t) as -> by congruence. assert (lf = tlf t) as -> by congruence.
      destruct (recompute_settled st c (T d t r)) as (st3 & H3 & Hr3 & Hs3); [done | exact Hr | |].
      { cbn. by rewrite Hnsl, Hnlf, Hsr, Hslr. }
      exists st3, 0, 0. rewrite cadd_0. split_and!; [by erewrite bind_run | exact Hr3 | done |].
      apply (meta_plug (FL d r :: c)). cbn. done.
  - assert (s = tsize t /\ lf = tlf t) as [-> ->] by (by destruct Hset as [? | (_ & d' & c' & [=])]).
    destruct Hc as (Hnsl & Hnlf & Hml & Hc).
    destruct (recompute_settled st c (T d l t)) as (st3 & H3 & Hr3 & Hs3); [done | exact Hr | |].
    { cbn. by rewrite Hnsl, Hnlf, Hss, Hsl. }
    exists st3, 0, 0. rewrite cadd_0. split_and!; [| exact Hr3 | done |].
    2: { apply (meta_plug (FR d l :: c)). cbn. done. }
    destruct t as [| e tl0 tr0]; [| by rewrite same_ne by (by eapply reps_left_only)].
    destruct l as [| e ll lr]; cbn [rid].
    + rewrite same_eq, bind_assoc. erewrite bind_run by exact Hcs.
      rewrite bind_assoc. erewrite bind_run by exact Hcl. rewrite bind_assoc.
      erewrite bind_run by (by apply get_run). cbn [cell TreeNode.size_left TreeNode.lf_left].
      rewrite Hnsl, Hnlf. by erewrite bind_run.
    + rewrite same_ne by (eapply (reps_ids_ne st (FL d E :: c) e ll lr); [exact Hr | left]).
      by erewrite bind_run.
Qed.

End Hole.

(** ** Taking a node out of the heap *)

(** What [SENTINEL]'s parent is set to along with the parent of [t]. *)
Definition scratch (t : rtree) (p : ref) : ref := match t with E => p | T _ _ _ => SENTINEL end.

(** The one child of a node takes its place. *)
Definition only_child (l r t : rtree) : Prop := (l = E /\ t = r) \/ (r = E /\ t = l).

(** Closes a goal about the heap from which the node of the cell [Hd] was taken. *)
Ltac unlink_done Hn Hd :=
  match type of Hd with heap ?st !! ?d = Some ?n =>
    eexists; split; [reflexivity |]; split;
    [constructor;
     [ cbn; rewrite ?rid_plug; done
     | apply rep_plug; cbn; split_and!; try done; try look; try outside; try coutside
     | look
     | rewrite ids_plug; apply (NoDup_cons_1_2 d); eapply (NoDup_Permutation_proper); [| exact Hn];
       cbn; solve_Permutation
     | let i := fresh "i" in let Hi := fresh "Hi" in
       intros i Hi; destruct (decide (i = d)) as [-> | ?];
         [ rewrite lookup_insert_eq; look
         | rewrite (lookup_insert_ne _ d) by ne_solve; frame_at Hi ] ]
    | cbn; erewrite !size_insert_same by look; done ] end.

Lemma unlink_reps F st f c d l r t :
  reps F st (plug (f :: c) (T d l r)) -> only_child l r t ->
  exists st', (ypl ← get_left (nid (fdata f));
               (if same (nid d) ypl then set_left (nid (fdata f)) (rid t)
                else set_right (nid (fdata f)) (rid t));;
               set_parent (rid t) (nid (fdata f))) st = Ret (tt, st') /\
    repsq (scratch t (nid (fdata f))) (<[nid d := cell d (nid (fdata f)) (rid l) (rid r)]> F) st'
      (plug (f :: c) t) /\ size (heap st') = size (heap st).
Proof.
  intros [Hr Hh Hs Hn Hfr] Ht. rewrite rid_plug in Hr. apply rep_plug in Hh as [Hd Hc].
  rewrite ids_plug in Hn. destruct Hd as (Hd & Hl & Hrr). destruct Hc as (Hf & Hsb & Hc).
  destruct f as [e s | e s]; cbn [fdata fsib fcell] in *;
  destruct Ht as [[-> ->] | [-> ->]]; [destruct r as [| x xl xr] | destruct l as [| x xl xr]
    | destruct r as [| x xl xr] | destruct l as [| x xl xr]];
  cbn in Hd, Hf, Hl, Hrr, Hc; pose proof Hn as Hn'; nd_split Hn'; destruct_and? Hl; destruct_and? Hrr;
  repeat mstep; unlink_done Hn Hd.
Qed.

(** The middle of [rbDelete_replace]: the node [y] takes the place of [z]. *)
Definition replace_node (z y : ref) (k : M unit) : M unit :=
  zl ← get_left z; set_left y zl;;
  zr ← get_right z; set_right y zr;;
  zp ← get_parent z; set_parent y zp;;
  zc ← get_color z; set_color y zc;;
  r ← get_root;
  (if same z r then set_root y else
     zpl ← get_left zp;
     if same z zpl then set_left zp y else set_right zp y);;
  yl ← get_left y;
  (if negb (same yl SENTINEL) then set_parent yl y else mret tt);;
  yr ← get_right y;
  (if negb (same yr SENTINEL) then set_parent yr y else mret tt);;
  zn ← get z;
  upd y (TreeNode.with_meta (TreeNode.size_left zn) (TreeNode.lf_left zn));;
  k.

(** [z] in its place in the tree, [y] outside; the right subtree may already
    hang below another node. *)
Record hung (q : ref) (F : gmap ref TreeNode.t) (st : tree) (c : ctx) (z : ndata) (l r : rtree)
    (y : ref) (yn : TreeNode.t) : Prop := mkhung {
  hung_root : root st = croot (nid z) c;
  hung_z : heap st !! nid z = Some (cell z (cpar c) (rid l) (rid r));
  hung_l : rep (heap st) (nid z) l;
  hung_r : exists p, rep (heap st) p r;
  hung_c : crep (heap st) (nid z) c;
  hung_sentinel : heap st !! SENTINEL = Some (TreeNode.with_parent q sentinel_node);
  hung_nodup : NoDup (SENTINEL :: y :: ids (T z l r) ++ cids c);
  hung_y : heap st !! y = Some yn;
  hung_frame : forall i, i ∉ SENTINEL :: y :: ids (T z l r) ++ cids c -> heap st !! i = F !! i
}.

Definition replaced (z : ndata) (y : ref) (p : Piece.t) : ndata :=
  mkData y (ncol z) p (nsl z) (nlf z).

Lemma replace_reps q F st c z l r y yn p k :
  hung q F st c z l r y yn -> TreeNode.piece yn = Some p ->
  exists st', replace_node (nid z) y k st = k st' /\
    repsq q (<[nid z := cell z (cpar c) (rid l) (rid r)]> F) st' (plug c (T (replaced z y p) l r)) /\
    size (heap st') = size (heap st).
Proof.
  intros [Hr Hz Hl [pr Hrr] Hc Hs Hn Hy Hfr] Hp. destruct yn as [yp0 yl0 yr0 yc0 yo ys0 yf0]. cbn in Hp. subst yo.
  assert (c = [] \/ nid z <> root st) as Hroot.
  { destruct c as [| f c]; [by left | right]. rewrite Hr. intros Heq.
    pose proof (croot_elem (nid z) f c) as Hin. rewrite <- Heq in Hin. nd_split Hn. set_solver. }
  unfold replace_node.
  destruct l as [| dl ll lr]; [| destruct Hl as (Hl & Hll & Hlr)];
  (destruct r as [| dr rl rr]; [| destruct Hrr as (Hrr & Hrl & Hrr')]);
  (destruct c as [| [f s | f s] c]; [clear Hroot | destruct Hroot as [? | Hroot]; [done |];
     destruct Hc as (Hf & Hsb & Hc) ..]);
  pose proof Hn as Hn'; nd_split Hn'; cbn in Hc, Hr, Hz;
  repeat mstep; try (rewrite Hr, same_eq; repeat mstep); unlink_done Hn Hz.
Qed.

(** ** The repair loop *)

Section Fixup.
Context {q : ref} {F : gmap ref TreeNode.t}.
Local Notation reps := (repsq q F).

(** A change that keeps the nodes, their order and the metadata. *)
Record morph (st st' : tree) (t t' : rtree) : Prop := mkmorph {
  morph_reps : reps st' t';
  morph_size : size (heap st') = size (heap st);
  morph_nodes : nodes t' = nodes t;
  morph_meta : meta_ok t -> meta_ok t'
}.

Lemma morph_trans st1 st2 st3 t1 t2 t3 : morph st1 st2 t1 t2 -> morph st2 st3 t2 t3 -> morph st1 st3 t1 t3.
Proof. intros [] []. constructor; [done | congruence | congruence | auto]. Qed.

Lemma morph_refl st t : reps st t -> morph st st t t.
Proof. by constructor. Qed.

Lemma morph_color st c d l r col :
  reps st (plug c (T d l r)) ->
  exists st', set_color (nid d) col st = Ret (tt, st') /\
    morph st st' (plug c (T d l r)) (plug c (T (recolor col d) l r)).
Proof.
  intros H. destruct (set_color_reps _ _ _ _ _ col H) as (st' & H1 & H2 & H3). exists st'. split; [done |].
  constructor; [done | done | by apply nodes_replace |]. by apply meta_replace.
Qed.

Lemma morph_leftRotate st c x a y b d :
  reps st (plug c (T x a (T y b d))) ->
  exists st' y', leftRotate (nid x) st = Ret (tt, st') /\ nid y' = nid y /\ ncol y' = ncol y /\
    morph st st' (plug c (T x a (T y b d))) (plug c (T y' (T x a b) d)).
Proof.
  intros H. destruct (leftRotate_reps _ _ _ _ _ _ _ H) as (st' & H1 & H2 & H3).
  eexists st', _. split; [done |]. split; [| split; [| constructor; [exact H2 | done | |]]]; [done | done | |].
  - apply nodes_replace. cbn. by assocs.
  - apply meta_replace; cbn; [by assocs | intuition lia].
Qed.

Lemma morph_rightRotate st c x a y b d :
  reps st (plug c (T y (T x a b) d)) ->
  exists st' y', rightRotate (nid y) st = Ret (tt, st') /\ nid y' = nid y /\ ncol y' = ncol y /\
    morph st st' (plug c (T y (T x a b) d)) (plug c (T x a (T y' b d))).
Proof.
  intros H. destruct (rightRotate_reps _ _ _ _ _ _ _ H) as (st' & H1 & H2 & H3).
  eexists st', _. split; [done |]. split; [| split; [| constructor; [exact H2 | done | |]]]; [done | done | |].
  - apply nodes_replace. cbn. by assocs.
  - apply meta_replace; cbn; [by assocs | intuition lia].
Qed.

(** The first case of a turn: a red sibling is rotated above the parent. *)
Definition sibling_l (x xp w : ref) : M ref :=
  wc ← get_color w;
  if bool_decide (wc = Red) then
    set_color w Black;;
    set_color xp Red;;
    leftRotate xp;;
    xp ← get_parent x;
    get_right xp
  else mret w.

Definition sibling_r (x xp w : ref) : M ref :=
  wc ← get_color w;
  if bool_decide (wc = Red) then
    set_color w Black;;
    set_color xp Red;;
    rightRotate xp;;
    xp ← get_parent x;
    get_left xp
  else mret w.

(** A black sibling, as the black heights show it. *)
Lemma black_sibling w n : rb w (S n) -> rcolor w = Black ->
  exists dw a b, w = T dw a b /\ ncol dw = Black /\ rb a n /\ rb b n.
Proof. destruct w as [| dw a b]; [done |]. cbn. intros Hw Hc. rewrite Hc in Hw. exists dw, a, b. tauto. Qed.

Ltac run_morph H st := let Hm := fresh "Hm" in let Hr := fresh "Hrun" in
  destruct H as (st & Hr & Hm); erewrite bind_run by exact Hr; clear Hr.

Lemma sibling_left st p w c t n :
  reps st (plug (FL p w :: c) t) -> (t = E -> q = nid p) -> crb (FL p w :: c) (S n) ->
  exists st' p' dw a b c2, sibling_l (rid t) (nid p) (rid w) st = Ret (nid dw, st') /\
    morph st st' (plug (FL p w :: c) t) (plug (FL p' (T dw a b) :: c2) t) /\ nid p' = nid p /\
    ncol dw = Black /\ rb a n /\ rb b n /\ crb (FL p' (T dw a b) :: c2) (S n) /\
    (length c2 = length c \/ ncol p' = Red).
Proof.
  intros Hr Hq Hcrb. unfold sibling_l.
  destruct (reps_color st (FR p t :: c) w Hr) as (wn & Hwn & Hwc). mstep. rewrite Hwc.
  pose proof (proj1 Hcrb : rb w (S n)) as Hw.
  destruct (rcolor w) eqn:Hcol.
  - destruct (black_sibling w n Hw Hcol) as (dw & a & b & -> & Hdw & Ha & Hb). cbn.
    exists st, p, dw, a, b, c. split; [done |]. split; [by apply morph_refl |].
    do 4 (split; [done |]). split; [exact Hcrb | by left].
  - rewrite bool_decide_true by done. destruct w as [| dw wl wr]; [done |]. cbn in Hcol, Hw, Hcrb.
    rewrite Hcol in Hw. destruct Hw as (Hwlc & Hwrc & Hwl & Hwr).
    destruct (black_sibling wl n Hwl Hwlc) as (e & a & b & -> & He & Ha & Hb).
    destruct Hcrb as [_ Hcrb]. destruct (ncol p) eqn:Hp; [| by destruct Hcrb as (Hx & _); rewrite Hcol in Hx].
    run_morph (morph_color st (FR p t :: c) dw (T e a b) wr Black Hr) st1.
    run_morph (morph_color st1 c p t (T (recolor Black dw) (T e a b) wr) Red (morph_reps _ _ _ _ Hm)) st2.
    destruct (morph_leftRotate st2 c (recolor Red p) t (recolor Black dw) (T e a b) wr (morph_reps _ _ _ _ Hm0))
      as (st3 & dw' & H3 & Hid & Hc' & Hm1).
    erewrite bind_run by exact H3.
    pose proof (morph_reps _ _ _ _ Hm1) as Hr3.
    destruct (reps_up st3 (FL (recolor Red p) (T e a b)) (FL dw' wr :: c) t Hr3 Hq) as (n3 & Hn3 & Hp3).
    mstep. rewrite Hp3.
    pose proof (reps_node st3 (FL dw' wr :: c) _ _ _ Hr3) as Hd3. cbn [fdata] in *.
    unfold get_right. erewrite field_run by exact Hd3.
    exists st3, (recolor Red p), e, a, b, (FL dw' wr :: c). split; [done |].
    split; [eapply morph_trans; [exact Hm | eapply morph_trans; [exact Hm0 | exact Hm1]] |].
    do 4 (split; [done |]). split; [| by right].
    cbn. rewrite He, Hc'. split_and!; done.
Qed.

(** The last case: the sibling has a red outer child and is rotated up. *)
Definition last_l (x w : ref) : M (ref + ref) :=
  xp ← get_parent x;
  c ← get_color xp;
  set_color w c;;
  set_color xp Black;;
  wr ← get_right w;
  set_color wr Black;;
  leftRotate xp;;
  r ← get_root;
  mret (inl r).

Lemma last_left st p dw a db bl br c t n :
  reps st (plug (FL p (T dw a (T db bl br)) :: c) t) -> (t = E -> q = nid p) ->
  ncol dw = Black -> ncol db = Red -> rb t n -> rb a n -> rb (T db bl br) n ->
  crb (FL p (T dw a (T db bl br)) :: c) (S n) ->
  exists st' t', last_l (rid t) (nid dw) st = Ret (inl (rid t'), st') /\ t' <> E /\
    morph st st' (plug (FL p (T dw a (T db bl br)) :: c) t) t' /\ balanced t'.
Proof.
  intros Hr Hq Hdw Hdb Ht Ha Hb Hcrb. unfold last_l.
  destruct (reps_up st _ c t Hr Hq) as (n0 & Hn0 & Hp0). mstep. rewrite Hp0.
  pose proof (reps_node st c p t (T dw a (T db bl br)) Hr) as Hpn. cbn [fdata].
  erewrite bind_run by (by eapply field_run). cbn [TreeNode.color cell].
  run_morph (morph_color st (FR p t :: c) dw a (T db bl br) (ncol p) Hr) st1.
  run_morph (morph_color st1 c p t (T (recolor (ncol p) dw) a (T db bl br)) Black (morph_reps _ _ _ _ Hm)) st2.
  pose proof (morph_reps _ _ _ _ Hm0) as Hr2.
  pose proof (reps_node st2 (FR (recolor Black p) t :: c) _ _ _ Hr2) as Hwn. cbn [nid recolor] in Hwn.
  erewrite bind_run by (by eapply field_run). cbn [TreeNode.right cell rid].
  run_morph (morph_color st2 (FR (recolor (ncol p) dw) a :: FR (recolor Black p) t :: c) db bl br Black Hr2) st3.
  destruct (morph_leftRotate st3 c (recolor Black p) t (recolor (ncol p) dw) a (T (recolor Black db) bl br)
    (morph_reps _ _ _ _ Hm1)) as (st4 & dw' & H4 & Hid & Hcol & Hm2).
  erewrite bind_run by exact H4. erewrite bind_run by done.
  set (t2 := T dw' (T (recolor Black p) t a) (T (recolor Black db) bl br)) in *.
  exists st4, (plug c t2). split; [by rewrite (reps_root _ _ (morph_reps _ _ _ _ Hm2)) |].
  split; [by apply plug_ne |].
  split; [eapply morph_trans; [exact Hm | eapply morph_trans; [exact Hm0 | eapply morph_trans; [exact Hm1 | exact Hm2]]] |].
  cbn in Hb, Hcrb. rewrite Hdb in Hb. destruct Hb as (_ & _ & Hbl & Hbr), Hcrb as [_ Hcrb]. cbn in Hcol.
  destruct (ncol p) eqn:Hp.
  - eapply (rb_plug c t2 (S (S n))); [| done | |]; cbn; rewrite ?Hcol; done.
  - destruct Hcrb as (_ & Hcc & Hne & Hcrb).
    eapply (rb_plug c t2 (S n)); [| done | done | done]. cbn. rewrite Hcol. done.
Qed.

(** The case before it: a red inner child is rotated above the sibling. *)
Definition outer_l (x w wl : ref) (wrc : NodeColor) : M ref :=
  if bool_decide (wrc = Black) then
    set_color wl Black;;
    set_color w Red;;
    rightRotate w;;
    xp ← get_parent x;
    get_right xp
  else mret w.

Lemma outer_left st p dw a b c t n :
  reps st (plug (FL p (T dw a b) :: c) t) -> (t = E -> q = nid p) ->
  ncol dw = Black -> rb a n -> rb b n -> rcolor a = Red \/ rcolor b = Red ->
  crb (FL p (T dw a b) :: c) (S n) ->
  exists st' dw' a' db bl br, outer_l (rid t) (nid dw) (rid a) (rcolor b) st = Ret (nid dw', st') /\
    morph st st' (plug (FL p (T dw a b) :: c) t) (plug (FL p (T dw' a' (T db bl br)) :: c) t) /\
    ncol dw' = Black /\ ncol db = Red /\ rb a' n /\ rb (T db bl br) n /\
    crb (FL p (T dw' a' (T db bl br)) :: c) (S n).
Proof.
  intros Hr Hq Hdw Ha Hb Hred Hcrb. unfold outer_l. destruct (rcolor b) eqn:Hbc.
  - rewrite bool_decide_true by done. destruct Hred as [Hac | ?]; [| done].
    destruct a as [| da al ar]; [done |]. cbn in Hac, Ha. rewrite Hac in Ha. destruct Ha as (Halc & Harc & Hal & Har).
    run_morph (morph_color st (FL dw b :: FR p t :: c) da al ar Black Hr) st1.
    run_morph (morph_color st1 (FR p t :: c) dw (T (recolor Black da) al ar) b Red (morph_reps _ _ _ _ Hm)) st2.
    destruct (morph_rightRotate st2 (FR p t :: c) (recolor Black da) al (recolor Red dw) ar b (morph_reps _ _ _ _ Hm0))
      as (st3 & dw' & H3 & Hid & Hcol & Hm1).
    erewrite bind_run by exact H3. pose proof (morph_reps _ _ _ _ Hm1) as Hr3.
    destruct (reps_up st3 (FL p (T (recolor Black da) al (T dw' ar b))) c t Hr3 Hq) as (n3 & Hn3 & Hp3).
    mstep. rewrite Hp3. pose proof (reps_node st3 c _ _ _ Hr3) as Hd3. cbn [fdata].
    unfold get_right. erewrite field_run by exact Hd3.
    exists st3, (recolor Black da), al, dw', ar, b. split; [done |].
    split; [eapply morph_trans; [exact Hm | eapply morph_trans; [exact Hm0 | exact Hm1]] |].
    cbn in Hcol, Hcrb |- *. rewrite Hcol. destruct Hcrb as [_ Hcrb].
    split_and!; try done. destruct (ncol p); [done |]. destruct Hcrb as (_ & ? & ? & ?). done.
  - destruct b as [| db bl br]; [done |]. cbn. exists st, dw, a, db, bl, br.
    split; [done |]. split; [by apply morph_refl |]. do 4 (split; [done |]). exact Hcrb.
Qed.

(** The mirror images. *)
Definition last_r (x w : ref) : M (ref + ref) :=
  xp ← get_parent x;
  c ← get_color xp;
  set_color w c;;
  set_color xp Black;;
  wl ← get_left w;
  set_color wl Black;;
  rightRotate xp;;
  r ← get_root;
  mret (inl r).

Definition outer_r (x w wr : ref) (wlc : NodeColor) : M ref :=
  if bool_decide (wlc = Black) then
    set_color wr Black;;
    set_color w Red;;
    leftRotate w;;
    xp ← get_parent x;
    get_left xp
  else mret w.

(** The place lacks one black node: its subtree has a black height one below
    what the context asks for, or is red and will be colored black. *)
Definition blacken (t : rtree) : rtree := match t with E => E | T d l r => T (recolor Black d) l r end.

Definition deficit (c : ctx) (t : rtree) : Prop :=
  exists n, crb c (S n) /\ match rcolor t with Red => rb (blacken t) (S n) | Black => rb t n end.

(** The result of a turn that goes on at [t2]. *)
Definition goes_on (st : tree) (c : ctx) (t : rtree) (st' : tree) (c2 : ctx) (t2 : rtree) : Prop :=
  t2 <> E /\ morph st st' (plug c t) (plug c2 t2) /\ deficit c2 t2 /\
  (rcolor t2 = Red \/ c2 = [] \/ (length c2 < length c)%nat).

Lemma goes_on_balanced st c t st' t2 :
  t2 <> E -> morph st st' (plug c t) t2 -> balanced t2 -> goes_on st c t st' [] t2.
Proof.
  intros H1 H2 [Hc [n Hn]]. split; [done |]. split; [done |]. split; [| by right; left].
  exists n. by rewrite Hc.
Qed.

(** Both children of the sibling are black: it becomes red and the place moves up. *)
Lemma goes_on_recolored st st1 st2 f0 f c0 c t dw a b n :
  morph st st1 (plug (f0 :: c0) t) (plug (f :: c) t) -> fsib f = T dw a b -> ncol dw = Black ->
  rcolor a = Black -> rcolor b = Black -> rcolor t = Black -> rb t n -> rb a n -> rb b n ->
  crb (f :: c) (S n) -> (length c = length c0 \/ ncol (fdata f) = Red) ->
  morph st1 st2 (plug (f :: c) t)
    (plug c (match f with FL d _ => T d t (T (recolor Red dw) a b)
                        | FR d _ => T d (T (recolor Red dw) a b) t end)) ->
  goes_on st (f0 :: c0) t st2 c (match f with FL d _ => T d t (T (recolor Red dw) a b)
                        | FR d _ => T d (T (recolor Red dw) a b) t end).
Proof.
  intros Hm Hs Hdw Hac Hbc Htc Ht Ha Hb Hcrb Hlen Hm2. destruct f as [d w | d w]; cbn in Hs; subst w.
  - split; [done |]. split; [by eapply morph_trans |]. cbn in *. destruct Hcrb as [_ Hcrb]. split.
    + destruct (ncol d) eqn:Hd.
      * exists (S n). split; [done |]. cbn. rewrite Hd. done.
      * exists n. cbn. rewrite Hd. destruct Hcrb as (_ & _ & _ & ?). done.
    + destruct Hlen as [-> | ?]; [right; right; lia | by left].
  - split; [done |]. split; [by eapply morph_trans |]. cbn in *. destruct Hcrb as [_ Hcrb]. split.
    + destruct (ncol d) eqn:Hd.
      * exists (S n). split; [done |]. cbn. rewrite Hd. done.
      * exists n. cbn. rewrite Hd. destruct Hcrb as (_ & _ & _ & ?). done.
    + destruct Hlen as [-> | ?]; [right; right; lia | by left].
Qed.

(** The tests at the start of a turn. *)
Lemma step_enter st f c t :
  reps st (plug (f :: c) t) -> (t = E -> q = nid (fdata f)) -> rcolor t = Black ->
  rbDelete_step (rid t) st =
    (xpl ← get_left (nid (fdata f));
     if same (rid t) xpl then
       w ← get_right (nid (fdata f));
       w ← sibling_l (rid t) (nid (fdata f)) w;
       wl ← get_left w; wlc ← get_color wl;
       wr ← get_right w; wrc ← get_color wr;
       if bool_decide (wlc = Black) && bool_decide (wrc = Black) then
         set_color w Red;;
         xp ← get_parent (rid t);
         mret (inl xp)
       else w ← outer_l (rid t) w wl wrc; last_l (rid t) w
     else
       w ← get_left (nid (fdata f));
       w ← sibling_r (rid t) (nid (fdata f)) w;
       wl ← get_left w; wlc ← get_color wl;
       wr ← get_right w; wrc ← get_color wr;
       if bool_decide (wlc = Black) && bool_decide (wrc = Black) then
         set_color w Red;;
         xp ← get_parent (rid t);
         mret (inl xp)
       else w ← outer_r (rid t) w wr wlc; last_r (rid t) w) st.
Proof.
  intros Hr Hq Hc. destruct (reps_up _ _ _ _ Hr Hq) as (n & Hn & Hp).
  destruct (reps_color st (f :: c) t Hr) as (n' & Hn' & Hcol). rewrite Hn in Hn'. injection Hn' as <-.
  assert (rid t <> root st) as Hroot.
  { destruct t; [by eapply reps_sentinel_ne_root | by eapply reps_not_root]. }
  unfold rbDelete_step. erewrite bind_run by done. rewrite same_ne by done. mstep.
  rewrite Hcol, Hc. cbn [bool_decide_eq_true negb]. rewrite bool_decide_true by done. cbn [negb].
  mstep. rewrite Hp.
  apply bind_ext. intros xpl st1. destruct (same _ _); apply bind_ext; intros w st2.
  - unfold sibling_l. by rewrite bind_assoc.
  - unfold sibling_r. by rewrite bind_assoc.
Qed.

Lemma rest_left st st1 p0 w0 c0 p dw a b c t n :
  morph st st1 (plug (FL p0 w0 :: c0) t) (plug (FL p (T dw a b) :: c) t) -> (t = E -> q = nid p) ->
  rcolor t = Black -> rb t n -> ncol dw = Black -> rb a n -> rb b n ->
  crb (FL p (T dw a b) :: c) (S n) -> (length c = length c0 \/ ncol p = Red) ->
  exists st' c2 t2,
    (wl ← get_left (nid dw); wlc ← get_color wl;
     wr ← get_right (nid dw); wrc ← get_color wr;
     if bool_decide (wlc = Black) && bool_decide (wrc = Black) then
       set_color (nid dw) Red;;
       xp ← get_parent (rid t);
       mret (inl xp)
     else w ← outer_l (rid t) (nid dw) wl wrc; last_l (rid t) w) st1 = Ret (inl (rid t2), st') /\
    goes_on st (FL p0 w0 :: c0) t st' c2 t2.
Proof.
  intros Hm Hq Htc Ht Hdw Ha Hb Hcrb Hlen. pose proof (morph_reps _ _ _ _ Hm) as Hr.
  pose proof (reps_node st1 (FR p t :: c) dw a b Hr) as Hw.
  destruct (reps_color st1 (FL dw b :: FR p t :: c) a Hr) as (an & Han & Hac).
  destruct (reps_color st1 (FR dw a :: FR p t :: c) b Hr) as (bn & Hbn & Hbc).
  mstep. mstep. mstep. mstep. rewrite Hac, Hbc.
  destruct (bool_decide (rcolor a = Black) && bool_decide (rcolor b = Black)) eqn:Hbb.
  - apply andb_true_iff in Hbb as [Eac Ebc]. apply bool_decide_eq_true in Eac, Ebc.
    run_morph (morph_color st1 (FR p t :: c) dw a b Red Hr) st2.
    pose proof (morph_reps _ _ _ _ Hm0) as Hr2.
    destruct (reps_up st2 (FL p (T (recolor Red dw) a b)) c t Hr2 Hq) as (n2 & Hn2 & Hp2). mstep. rewrite Hp2.
    eexists st2, c, _. split; [| apply (goes_on_recolored st st1 st2 (FL p0 w0) (FL p (T dw a b)) c0 c t dw a b n);
      done]. done.
  - assert (rcolor a = Red \/ rcolor b = Red) as Hred.
    { destruct (rcolor a), (rcolor b); try done; by auto. }
    destruct (outer_left st1 p dw a b c t n Hr Hq Hdw Ha Hb Hred Hcrb)
      as (st2 & dw' & a' & db & bl & br & H2 & Hm2 & Hdw' & Hdb & Ha' & Hb' & Hcrb').
    erewrite bind_run by exact H2.
    destruct (last_left st2 p dw' a' db bl br c t n (morph_reps _ _ _ _ Hm2) Hq Hdw' Hdb Ht Ha' Hb' Hcrb')
      as (st3 & t3 & H3 & Hne & Hm3 & Hbal).
    exists st3, [], t3. split; [exact H3 |]. apply goes_on_balanced; [done | | done].
    eapply morph_trans; [exact Hm | eapply morph_trans; [exact Hm2 | exact Hm3]].
Qed.

Lemma turn_left st p w c t n :
  reps st (plug (FL p w :: c) t) -> (t = E -> q = nid p) -> rcolor t = Black -> rb t n ->
  crb (FL p w :: c) (S n) ->
  exists st' c2 t2, rbDelete_step (rid t) st = Ret (inl (rid t2), st') /\
    goes_on st (FL p w :: c) t st' c2 t2.
Proof.
  intros Hr Hq Htc Ht Hcrb. rewrite (step_enter st (FL p w) c t Hr Hq Htc).
  pose proof (reps_node st c p t w Hr) as Hp. cbn [fdata].
  erewrite bind_run by (by eapply field_run). cbn [TreeNode.left cell]. rewrite same_eq.
  erewrite bind_run by (by eapply field_run). cbn [TreeNode.right cell].
  destruct (sibling_left st p w c t n Hr Hq Hcrb)
    as (st1 & p' & dw & a & b & c2 & H1 & Hm & Hid & Hdw & Ha & Hb & Hcrb' & Hlen).
  erewrite bind_run by exact H1.
  apply (rest_left st st1 p w c p' dw a b c2 t n); try done. rewrite Hid. done.
Qed.

Lemma sibling_right st p w c t n :
  reps st (plug (FR p w :: c) t) -> (t = E -> q = nid p) -> crb (FR p w :: c) (S n) ->
  exists st' p' dw a b c2, sibling_r (rid t) (nid p) (rid w) st = Ret (nid dw, st') /\
    morph st st' (plug (FR p w :: c) t) (plug (FR p' (T dw a b) :: c2) t) /\ nid p' = nid p /\
    ncol dw = Black /\ rb a n /\ rb b n /\ crb (FR p' (T dw a b) :: c2) (S n) /\
    (length c2 = length c \/ ncol p' = Red).
Proof.
  intros Hr Hq Hcrb. unfold sibling_r.
  destruct (reps_color st (FL p t :: c) w Hr) as (wn & Hwn & Hwc). mstep. rewrite Hwc.
  pose proof (proj1 Hcrb : rb w (S n)) as Hw.
  destruct (rcolor w) eqn:Hcol.
  - destruct (black_sibling w n Hw Hcol) as (dw & a & b & -> & Hdw & Ha & Hb). cbn.
    exists st, p, dw, a, b, c. split; [done |]. split; [by apply morph_refl |].
    do 4 (split; [done |]). split; [exact Hcrb | by left].
  - rewrite bool_decide_true by done. destruct w as [| dw wl wr]; [done |]. cbn in Hcol, Hw, Hcrb.
    rewrite Hcol in Hw. destruct Hw as (Hwlc & Hwrc & Hwl & Hwr).
    destruct (black_sibling wr n Hwr Hwrc) as (e & a & b & -> & He & Ha & Hb).
    destruct Hcrb as [_ Hcrb]. destruct (ncol p) eqn:Hp; [| by destruct Hcrb as (Hx & _); rewrite Hcol in Hx].
    run_morph (morph_color st (FL p t :: c) dw wl (T e a b) Black Hr) st1.
    run_morph (morph_color st1 c p (T (recolor Black dw) wl (T e a b)) t Red (morph_reps _ _ _ _ Hm)) st2.
    destruct (morph_rightRotate st2 c (recolor Black dw) wl (recolor Red p) (T e a b) t (morph_reps _ _ _ _ Hm0))
      as (st3 & p' & H3 & Hid & Hc' & Hm1).
    erewrite bind_run by exact H3.
    pose proof (morph_reps _ _ _ _ Hm1) as Hr3.
    destruct (reps_up st3 (FR p' (T e a b)) (FR (recolor Black dw) wl :: c) t Hr3) as (n3 & Hn3 & Hp3).
    { cbn [fdata]. rewrite Hid. exact Hq. }
    mstep. rewrite Hp3.
    pose proof (reps_node st3 (FR (recolor Black dw) wl :: c) _ _ _ Hr3) as Hd3. cbn [fdata] in *.
    unfold get_left. erewrite field_run by exact Hd3.
    exists st3, p', e, a, b, (FR (recolor Black dw) wl :: c). split; [done |].
    split; [eapply morph_trans; [exact Hm | eapply morph_trans; [exact Hm0 | exact Hm1]] |].
    do 4 (split; [done |]). split; [| by right].
    cbn. rewrite He, Hc'. split_and!; done.
Qed.

Lemma last_right st p dw da al ar b c t n :
  reps st (plug (FR p (T dw (T da al ar) b) :: c) t) -> (t = E -> q = nid p) ->
  ncol dw = Black -> ncol da = Red -> rb t n -> rb b n -> rb (T da al ar) n ->
  crb (FR p (T dw (T da al ar) b) :: c) (S n) ->
  exists st' t', last_r (rid t) (nid dw) st = Ret (inl (rid t'), st') /\ t' <> E /\
    morph st st' (plug (FR p (T dw (T da al ar) b) :: c) t) t' /\ balanced t'.
Proof.
  intros Hr Hq Hdw Hda Ht Hb Ha Hcrb. unfold last_r.
  destruct (reps_up st _ c t Hr Hq) as (n0 & Hn0 & Hp0). mstep. rewrite Hp0.
  pose proof (reps_node st c p (T dw (T da al ar) b) t Hr) as Hpn. cbn [fdata].
  erewrite bind_run by (by eapply field_run). cbn [TreeNode.color cell].
  run_morph (morph_color st (FL p t :: c) dw (T da al ar) b (ncol p) Hr) st1.
  run_morph (morph_color st1 c p (T (recolor (ncol p) dw) (T da al ar) b) t Black (morph_reps _ _ _ _ Hm)) st2.
  pose proof (morph_reps _ _ _ _ Hm0) as Hr2.
  pose proof (reps_node st2 (FL (recolor Black p) t :: c) _ _ _ Hr2) as Hwn. cbn [nid recolor] in Hwn.
  erewrite bind_run by (by eapply field_run). cbn [TreeNode.left cell rid].
  run_morph (morph_color st2 (FL (recolor (ncol p) dw) b :: FL (recolor Black p) t :: c) da al ar Black Hr2) st3.
  destruct (morph_rightRotate st3 c (recolor (ncol p) dw) (T (recolor Black da) al ar) (recolor Black p) b t
    (morph_reps _ _ _ _ Hm1)) as (st4 & p' & H4 & Hid & Hcol & Hm2).
  erewrite bind_run by exact H4. erewrite bind_run by done.
  set (t2 := T (recolor (ncol p) dw) (T (recolor Black da) al ar) (T p' b t)) in *.
  exists st4, (plug c t2). split; [by rewrite (reps_root _ _ (morph_reps _ _ _ _ Hm2)) |].
  split; [by apply plug_ne |].
  split; [eapply morph_trans; [exact Hm | eapply morph_trans; [exact Hm0 | eapply morph_trans; [exact Hm1 | exact Hm2]]] |].
  cbn in Ha, Hcrb. rewrite Hda in Ha. destruct Ha as (_ & _ & Hal & Har), Hcrb as [_ Hcrb]. cbn in Hcol.
  destruct (ncol p) eqn:Hp.
  - eapply (rb_plug c t2 (S (S n))); [| done | |]; cbn; rewrite ?Hcol; done.
  - destruct Hcrb as (_ & Hcc & Hne & Hcrb).
    eapply (rb_plug c t2 (S n)); [| done | done | done]. cbn. rewrite Hcol. done.
Qed.

Lemma outer_right st p dw a b c t n :
  reps st (plug (FR p (T dw a b) :: c) t) -> (t = E -> q = nid p) ->
  ncol dw = Black -> rb a n -> rb b n -> rcolor a = Red \/ rcolor b = Red ->
  crb (FR p (T dw a b) :: c) (S n) ->
  exists st' dw' da al ar b', outer_r (rid t) (nid dw) (rid b) (rcolor a) st = Ret (nid dw', st') /\
    morph st st' (plug (FR p (T dw a b) :: c) t) (plug (FR p (T dw' (T da al ar) b') :: c) t) /\
    ncol dw' = Black /\ ncol da = Red /\ rb b' n /\ rb (T da al ar) n /\
    crb (FR p (T dw' (T da al ar) b') :: c) (S n).
Proof.
  intros Hr Hq Hdw Ha Hb Hred Hcrb. unfold outer_r. destruct (rcolor a) eqn:Hac.
  - rewrite bool_decide_true by done. destruct Hred as [? | Hbc]; [done |].
    destruct b as [| db bl br]; [done |]. cbn in Hbc, Hb. rewrite Hbc in Hb. destruct Hb as (Hblc & Hbrc & Hbl & Hbr).
    run_morph (morph_color st (FR dw a :: FL p t :: c) db bl br Black Hr) st1.
    run_morph (morph_color st1 (FL p t :: c) dw a (T (recolor Black db) bl br) Red (morph_reps _ _ _ _ Hm)) st2.
    destruct (morph_leftRotate st2 (FL p t :: c) (recolor Red dw) a (recolor Black db) bl br (morph_reps _ _ _ _ Hm0))
      as (st3 & db' & H3 & Hid & Hcol & Hm1).
    erewrite bind_run by exact H3. pose proof (morph_reps _ _ _ _ Hm1) as Hr3.
    destruct (reps_up st3 (FR p (T db' (T (recolor Red dw) a bl) br)) c t Hr3 Hq) as (n3 & Hn3 & Hp3).
    mstep. rewrite Hp3. pose proof (reps_node st3 c _ _ _ Hr3) as Hd3. cbn [fdata].
    unfold get_left. erewrite field_run by exact Hd3.
    exists st3, db', (recolor Red dw), a, bl, br. split; [done |].
    split; [eapply morph_trans; [exact Hm | eapply morph_trans; [exact Hm0 | exact Hm1]] |].
    cbn in Hcol, Hcrb |- *. rewrite Hcol. destruct Hcrb as [_ Hcrb].
    split_and!; try done. destruct (ncol p); [done |]. destruct Hcrb as (_ & ? & ? & ?). done.
  - destruct a as [| da al ar]; [done |]. cbn. exists st, dw, da, al, ar, b.
    split; [done |]. split; [by apply morph_refl |]. do 4 (split; [done |]). exact Hcrb.
Qed.

Lemma rest_right st st1 p0 w0 c0 p dw a b c t n :
  morph st st1 (plug (FR p0 w0 :: c0) t) (plug (FR p (T dw a b) :: c) t) -> (t = E -> q = nid p) ->
  rcolor t = Black -> rb t n -> ncol dw = Black -> rb a n -> rb b n ->
  crb (FR p (T dw a b) :: c) (S n) -> (length c = length c0 \/ ncol p = Red) ->
  exists st' c2 t2,
    (wl ← get_left (nid dw); wlc ← get_color wl;
     wr ← get_right (nid dw); wrc ← get_color wr;
     if bool_decide (wlc = Black) && bool_decide (wrc = Black) then
       set_color (nid dw) Red;;
       xp ← get_parent (rid t);
       mret (inl xp)
     else w ← outer_r (rid t) (nid dw) wr wlc; last_r (rid t) w) st1 = Ret (inl (rid t2), st') /\
    goes_on st (FR p0 w0 :: c0) t st' c2 t2.
Proof.
  intros Hm Hq Htc Ht Hdw Ha Hb Hcrb Hlen. pose proof (morph_reps _ _ _ _ Hm) as Hr.
  pose proof (reps_node st1 (FL p t :: c) dw a b Hr) as Hw.
  destruct (reps_color st1 (FL dw b :: FL p t :: c) a Hr) as (an & Han & Hac).
  destruct (reps_color st1 (FR dw a :: FL p t :: c) b Hr) as (bn & Hbn & Hbc).
  mstep. mstep. mstep. mstep. rewrite Hac, Hbc.
  destruct (bool_decide (rcolor a = Black) && bool_decide (rcolor b = Black)) eqn:Hbb.
  - apply andb_true_iff in Hbb as [Eac Ebc]. apply bool_decide_eq_true in Eac, Ebc.
    run_morph (morph_color st1 (FL p t :: c) dw a b Red Hr) st2.
    pose proof (morph_reps _ _ _ _ Hm0) as Hr2.
    destruct (reps_up st2 (FR p (T (recolor Red dw) a b)) c t Hr2 Hq) as (n2 & Hn2 & Hp2). mstep. rewrite Hp2.
    eexists st2, c, _. split; [| apply (goes_on_recolored st st1 st2 (FR p0 w0) (FR p (T dw a b)) c0 c t dw a b n);
      done]. done.
  - assert (rcolor a = Red \/ rcolor b = Red) as Hred.
    { destruct (rcolor a), (rcolor b); try done; by auto. }
    destruct (outer_right st1 p dw a b c t n Hr Hq Hdw Ha Hb Hred Hcrb)
      as (st2 & dw' & da & al & ar & b' & H2 & Hm2 & Hdw' & Hda & Hb' & Ha' & Hcrb').
    erewrite bind_run by exact H2.
    destruct (last_right st2 p dw' da al ar b' c t n (morph_reps _ _ _ _ Hm2) Hq Hdw' Hda Ht Hb' Ha' Hcrb')
      as (st3 & t3 & H3 & Hne & Hm3 & Hbal).
    exists st3, [], t3. split; [exact H3 |]. apply goes_on_balanced; [done | | done].
    eapply morph_trans; [exact Hm | eapply morph_trans; [exact Hm2 | exact Hm3]].
Qed.

Lemma turn_right st p w c t n :
  reps st (plug (FR p w :: c) t) -> (t = E -> q = nid p) -> rcolor t = Black -> rb t n ->
  crb (FR p w :: c) (S n) ->
  exists st' c2 t2, rbDelete_step (rid t) st = Ret (inl (rid t2), st') /\
    goes_on st (FR p w :: c) t st' c2 t2.
Proof.
  intros Hr Hq Htc Ht Hcrb. rewrite (step_enter st (FR p w) c t Hr Hq Htc).
  pose proof (reps_node st c p w t Hr) as Hp. cbn [fdata].
  erewrite bind_run by (by eapply field_run). cbn [TreeNode.left cell].
  rewrite same_ne.
  2: { destruct t; [| apply not_eq_sym; by eapply reps_left_only].
       destruct w as [| dw a b]; [by destruct Hcrb | cbn].
       apply not_eq_sym. eapply (reps_ids_ne st (FL p E :: c) dw a b); [exact Hr | left]. }
  erewrite bind_run by (by eapply field_run). cbn [TreeNode.left cell].
  destruct (sibling_right st p w c t n Hr Hq Hcrb)
    as (st1 & p' & dw & a & b & c2 & H1 & Hm & Hid & Hdw & Ha & Hb & Hcrb' & Hlen).
  erewrite bind_run by exact H1.
  apply (rest_right st st1 p w c p' dw a b c2 t n); try done. rewrite Hid. done.
Qed.

(** The loop ends, at a node that only has to become black. *)
Lemma rbDelete_loop fuel st c t :
  reps st (plug c t) -> (t = E -> c <> [] /\ q = cpar c) -> deficit c t ->
  (length c + 2 <= fuel \/ (1 <= fuel /\ (rcolor t = Red \/ (c = [] /\ t <> E))))%nat ->
  exists st' c' t', iter fuel rbDelete_step (rid t) st = Ret (rid t', st') /\ t' <> E /\
    morph st st' (plug c t) (plug c' t') /\ balanced (plug c' (blacken t')).
Proof.
  revert st c t. induction fuel as [| fuel IH]; intros st c t Hr Hq [n [Hcrb Hd]] Hfuel; [lia |].
  assert (rcolor t = Red \/ rcolor t = Black) as [Htc | Htc] by (destruct (rcolor t); auto).
  - destruct t as [| d l r]; [done |]. rewrite Htc in Hd.
    exists st, c, (T d l r). split.
    + apply iter_stop. unfold rbDelete_step. erewrite bind_run by done.
      destruct (same _ _); [done |]. pose proof (reps_node _ _ _ _ _ Hr) as Hn. cbn [rid].
      erewrite bind_run by (by eapply field_run). cbn in Htc. cbn [TreeNode.color cell]. by rewrite Htc.
    + split; [done |]. split; [by apply morph_refl |]. eapply (rb_plug c _ (S n)); done.
  - rewrite Htc in Hd. destruct c as [| f c].
    + destruct t as [| d l r]; [by destruct (Hq eq_refl) |]. cbn in Htc.
      exists st, [], (T d l r). split.
      * apply iter_stop. unfold rbDelete_step. erewrite bind_run by done.
        rewrite (reps_is_root _ _ Hr). by sames.
      * split; [done |]. split; [by apply morph_refl |]. split; [done |]. exists n. cbn in Hd |- *.
        by rewrite Htc in Hd.
    + assert (exists st' c2 t2, rbDelete_step (rid t) st = Ret (inl (rid t2), st') /\
        goes_on st (f :: c) t st' c2 t2) as (st1 & c2 & t2 & H1 & Hne & Hm & Hdef & Hlen).
      { destruct f as [p w | p w]; [apply (turn_left st p w c t n) | apply (turn_right st p w c t n)];
          try done; intros ->; by destruct (Hq eq_refl). }
      destruct (IH st1 c2 t2 (morph_reps _ _ _ _ Hm)) as (st3 & c3 & t3 & H3 & Hne3 & Hm3 & Hb3).
      { by intros ->. } { done. }
      { destruct Hfuel as [Hfuel | [_ [? | [? _]]]]; [| congruence | done]. cbn in Hfuel.
        destruct Hlen as [? | [-> | Hlen]]; [right; split; [lia | by left] | | left; cbn in Hlen; lia].
        right. split; [lia |]. right. done. }
      exists st3, c3, t3. split; [by erewrite iter_next by exact H1 |].
      split; [done |]. split; [by eapply morph_trans | done].
Qed.

End Fixup.
