(* ===== verification/RBTreeRemove.v ===== *)
(** * Red-black deletion: the whole operation

    [rbDelete] of [rbTreeBase.ts] put together from the parts in [RBTreeDelete]:
    it takes one node out of the sequence and leaves a valid tree. *)

From stdpp Require Import gmap.
From S2P Require Import Prelude RBTree RBTreeRep RBTreeOps RBTreeInsert RBTreeDelete.

(** ** Cells outside of the tree *)

Lemma upd_outside q F st t z f n :
  repsq q F st t -> z ∉ SENTINEL :: ids t -> F !! z = Some n ->
  exists st', upd z f st = Ret (tt, st') /\ repsq q (<[z := f n]> F) st' t /\
    size (heap st') = size (heap st).
Proof.
  intros [Hr Hh Hs Hn Hfr] Hz Hzn. pose proof (Hfr z Hz) as Hc. rewrite Hzn in Hc.
  eexists. split; [by apply upd_run |]. split; [| cbn; by apply (size_insert_same _ _ _ n)].
  apply not_elem_of_cons in Hz as [Hz1 Hz2]. constructor; [done | | | done |].
  - eapply rep_ext; [| exact Hh]. intros i Hi. cbn. apply lookup_insert_ne. by intros ->.
  - cbn. by rewrite lookup_insert_ne.
  - intros i Hi. cbn. destruct (decide (i = z)) as [-> | Hne]; [by rewrite !lookup_insert_eq |].
    rewrite !lookup_insert_ne by done. by apply Hfr.
Qed.

Definition detached (n : TreeNode.t) : TreeNode.t :=
  TreeNode.with_right NULL (TreeNode.with_left NULL (TreeNode.with_parent NULL n)).

Lemma detach_reps q F st t z n :
  repsq q F st t -> z ∉ SENTINEL :: ids t -> F !! z = Some n ->
  exists st', detach z st = Ret (tt, st') /\ repsq q (<[z := detached n]> F) st' t /\
    size (heap st') = size (heap st).
Proof.
  intros Hr Hz Hn. unfold detach, set_parent, set_left, set_right.
  destruct (upd_outside q F st t z (TreeNode.with_parent NULL) n Hr Hz Hn) as (st1 & H1 & Hr1 & Hs1).
  destruct (upd_outside q _ st1 t z (TreeNode.with_left NULL) _ Hr1 Hz (lookup_insert_eq _ _ _))
    as (st2 & H2 & Hr2 & Hs2).
  destruct (upd_outside q _ st2 t z (TreeNode.with_right NULL) _ Hr2 Hz (lookup_insert_eq _ _ _))
    as (st3 & H3 & Hr3 & Hs3).
  exists st3. split; [by rewrite (bind_run _ _ _ _ _ H1), (bind_run _ _ _ _ _ H2) |].
  split; [| congruence]. by rewrite !insert_insert_eq in Hr3.
Qed.

Lemma resetSentinel_reps q F st t :
  repsq q F st t -> exists st', resetSentinel st = Ret (tt, st') /\ reps F st' t.
Proof.
  intros [Hr Hh Hs Hn Hfr]. unfold resetSentinel, set_parent.
  eexists. split; [by apply upd_run |]. apply NoDup_cons in Hn as [Hn1 Hn2].
  constructor; [done | | | by apply NoDup_cons |].
  - eapply rep_ext; [| exact Hh]. intros i Hi. cbn. apply lookup_insert_ne. by intros <-.
  - cbn. by rewrite lookup_insert_eq.
  - intros i Hi. cbn. rewrite lookup_insert_ne by set_solver. by apply Hfr.
Qed.

(** ** Contexts that differ in metadata, or in which node is where *)

Definition fsame (f f' : frame) : Prop :=
  match f, f' with
  | FL d r, FL d' r' | FR d r, FR d' r' => ncol d = ncol d' /\ r = r'
  | _, _ => False
  end.

Lemma fsame_refl f : fsame f f.
Proof. by destruct f. Qed.

Lemma csame_refl c : Forall2 fsame c c.
Proof. induction c; constructor; [apply fsame_refl | done]. Qed.

Lemma csame_cadd ds dl c : Forall2 fsame c (cadd ds dl c).
Proof. induction c as [| [] c IH]; constructor; done. Qed.

Lemma csame_trans c1 c2 c3 : Forall2 fsame c1 c2 -> Forall2 fsame c2 c3 -> Forall2 fsame c1 c3.
Proof.
  intros H. revert c3. induction H as [| [] [] c1 c2 Hf Hc IH]; intros c3 H3; inversion H3 as [| ? f3 ? ? Hf3]; subst;
    try done; constructor; auto; destruct f3; cbn in *; intuition congruence.
Qed.

Lemma crb_csame c c' n : Forall2 fsame c c' -> crb c n -> crb c' n /\ ccolor c' = ccolor c.
Proof.
  intros H. revert n. induction H as [| f f' c c' Hf Hc IH]; intros n; [done |].
  destruct f as [d r | d r], f' as [d' r' | d' r']; try done; destruct Hf as [Hcol <-]; cbn; rewrite Hcol;
    intros [Hs Hcrb]; (split; [| done]); (split; [done |]); (destruct (ncol d'); [by apply IH |]);
    destruct Hcrb as (? & Hcc & Hne & Hcrb); destruct (IH _ Hcrb) as [? ->]; split_and!; try done;
    inversion Hc; subst; done.
Qed.

(** Taking out the node on top of an only child. *)
Lemma only_child_rb d l r t n :
  only_child l r t -> rb (T d l r) n ->
  match ncol d with
  | Red => rcolor t = Black /\ rb t n
  | Black => exists m, n = S m /\ rb t m
  end.
Proof.
  cbn. intros [[-> ->] | [-> ->]]; destruct (ncol d); cbn; try (by intros (? & ? & ? & ?));
    (destruct n as [| n]; [done |]); intros [? ?]; by exists n.
Qed.

Lemma rb_deficit c t n : crb c (S n) -> rb t n -> deficit c t.
Proof.
  intros Hc Ht. exists n. split; [done |]. destruct t as [| d l r]; [done |]. cbn in *.
  destruct (ncol d); [done |]. destruct Ht as (_ & _ & ? & ?). done.
Qed.

(** The place of a removed node of color [col]. *)
Definition lacks (col : NodeColor) (c : ctx) (t : rtree) : Prop :=
  match col with
  | Red => rcolor t = Black /\ exists n, rb t n /\ crb c n
  | Black => deficit c t
  end.

Lemma lacks_csame col c c' t : Forall2 fsame c c' -> lacks col c t -> lacks col c' t.
Proof.
  intros Hc. destruct col; cbn.
  - intros (n & Hn & Ht). exists n. split; [by apply (crb_csame c) | done].
  - intros (Hcol & n & Ht & Hn). split; [done |]. exists n. split; [done |]. by apply (crb_csame c).
Qed.

Lemma lacks_removed c d l r t : only_child l r t -> balanced (plug c (T d l r)) -> lacks (ncol d) c t.
Proof.
  intros Ho (n & Hn & Hc & _)%plug_rb. pose proof (only_child_rb d l r t n Ho Hn) as H.
  destruct (ncol d); cbn in *.
  - destruct H as (m & -> & Hm). by eapply rb_deficit.
  - destruct H as [? ?]. split; [done |]. by exists n.
Qed.

(** ** The end of [rbDelete] *)

Definition rbDelete_end (z x : ref) (yWasRed : bool) : M unit :=
  detach z;;
  rbDelete_metadata x;;
  if yWasRed : bool then resetSentinel else
  fuel ← path_fuel;
  x ← iter fuel rbDelete_step x;
  set_color x Black;;
  resetSentinel.

Lemma rbDelete_end_reps q F st f c t s lf z zn col :
  repsq q F st (plug (f :: c) t) -> (t = E -> q = nid (fdata f)) -> meta_ok t -> cmeta s lf (f :: c) ->
  settled t s lf (f :: c) -> lacks col (f :: c) t ->
  z ∉ SENTINEL :: ids (plug (f :: c) t) -> F !! z = Some zn ->
  exists st' t', rbDelete_end z (rid t) (bool_decide (col = Red)) st = Ret (tt, st') /\
    valid (<[z := detached zn]> F) st' t' /\ nodes t' = nodes (plug (f :: c) t).
Proof.
  intros Hr Hq Hm Hc Hset Hl Hz Hzn. unfold rbDelete_end.
  destruct (detach_reps _ _ _ _ _ _ Hr Hz Hzn) as (st1 & H1 & Hr1 & Hs1). erewrite bind_run by exact H1.
  destruct (metadata_place st1 f c t s lf Hr1 Hq Hm Hc Hset) as (st2 & ds & dl & H2 & Hr2 & Hs2 & Hm2).
  erewrite bind_run by exact H2.
  pose proof (lacks_csame _ _ _ _ (csame_cadd ds dl (f :: c)) Hl) as Hl2.
  destruct col; cbn [bool_decide].
  - rewrite bool_decide_false by done. erewrite bind_run by done.
    destruct (rbDelete_loop (S (S (size (heap st2)))) st2 (cadd ds dl (f :: c)) t Hr2)
      as (st3 & c' & t' & H3 & Hne & Hm3 & Hb); [| done | |].
    + intros Ht. split; [done |]. rewrite (Hq Ht). by destruct f.
    + left. pose proof (reps_ctx_size _ _ _ Hr2). lia.
    + erewrite bind_run by exact H3. destruct t' as [| e l r]; [done |].
      destruct (morph_color st3 c' e l r Black (morph_reps _ _ _ _ Hm3)) as (st4 & H4 & Hm4).
      cbn [rid]. erewrite bind_run by exact H4.
      destruct (resetSentinel_reps _ _ _ _ (morph_reps _ _ _ _ Hm4)) as (st5 & H5 & Hr5).
      exists st5, (plug c' (T (recolor Black e) l r)). split; [exact H5 |]. split.
      * split; [done |]. split; [apply Hm4, Hm3, Hm2 | exact Hb].
      * by rewrite (morph_nodes _ _ _ _ Hm4), (morph_nodes _ _ _ _ Hm3), nodes_cadd.
  - rewrite bool_decide_true by done.
    destruct (resetSentinel_reps _ _ _ _ Hr2) as (st3 & H3 & Hr3).
    exists st3, (plug (cadd ds dl (f :: c)) t). split; [done |]. split; [| apply nodes_cadd].
    split; [done |]. split; [done |]. destruct Hl2 as (Htc & n & Hn & Hcrb).
    eapply rb_plug; [done | done | congruence | done].
Qed.

(** ** A node with at most one child *)

Lemma remove_root F st d l r t :
  reps F st (plug [] (T d l r)) -> meta_ok (T d l r) -> balanced (T d l r) -> only_child l r t ->
  exists st' t', (set_root (rid t);; set_color (rid t) Black;; detach (nid d);; resetSentinel;;
                  set_parent (rid t) SENTINEL) st = Ret (tt, st') /\
    valid (<[nid d := detached (cell d SENTINEL (rid l) (rid r))]> F) st' t' /\ nodes t' = nodes t.
Proof.
  intros Hr0 Hm [_ [n Hn]] Ho.
  assert (nodes (blacken t) = nodes t /\ meta_ok (blacken t) /\ balanced (blacken t)) as (Hnn & Hmm & Hbb).
  { split; [by destruct t |]. split.
    - assert (meta_ok t) by (destruct Hm as (_ & _ & ? & ?); by destruct Ho as [[_ ->] | [_ ->]]).
      by destruct t.
    - pose proof (only_child_rb d l r t n Ho Hn) as H.
      assert (exists m, rb t m) as [m Hm'] by (destruct (ncol d); [destruct H as (m & _ & ?) | destruct H]; eauto).
      destruct t as [| e tl0 tr0]; [by split; [| exists m] |]. split; [done |]. cbn in *. destruct (ncol e); [by exists m |].
      exists (S m). tauto. }
  destruct Hr0 as [Hr Hh Hs Hn' Hfr]. destruct Hh as (Hd & Hl & Hrr). cbn in Hr, Hn', Hfr, Hd.
  assert (exists st', (set_root (rid t);; set_color (rid t) Black;; detach (nid d);; resetSentinel;;
                  set_parent (rid t) SENTINEL) st = Ret (tt, st') /\
    reps (<[nid d := detached (cell d SENTINEL (rid l) (rid r))]> F) st' (blacken t)) as (st' & H1 & H2);
    [| exists st', (blacken t); done].
  unfold detach, resetSentinel.
  destruct Ho as [[-> ->] | [-> ->]]; [destruct r as [| x xl xr] | destruct l as [| x xl xr]];
  cbn in Hd, Hl, Hrr; pose proof Hn' as Hnd; nd_split Hnd; destruct_and? Hl; destruct_and? Hrr;
  repeat (repeat mstep; rewrite ?bind_assoc);
  (eexists; split; [reflexivity |]; constructor;
   [ done
   | cbn; split_and?; try done; try look; try outside
   | look
   | apply (NoDup_cons_1_2 (nid d)); eapply NoDup_Permutation_proper; [| exact Hn'];
     cbn; rewrite ?app_nil_r; solve_Permutation
   | intros i Hi; cbn in Hi; nd_split Hi; destruct (decide (i = nid d)) as [-> | ?];
     [rewrite lookup_insert_eq; look |]; rewrite (lookup_insert_ne _ (nid d)) by ne_solve; cbn [heap];
     rewrite ?lookup_insert_ne by ne_solve; apply Hfr; cbn [ids]; autorewrite with s2nd; split_and?;
     solve [assumption | apply not_elem_of_nil] ]).
Qed.

(** The node [y] that is unlinked has at most one child; it is [z] itself or the
    successor that takes its place. *)
Definition rbDelete_from (z y x : ref) : M unit :=
  yc ← get_color y;
  let yWasRed := bool_decide (yc = Red) in
  yp ← get_parent y;
  ypl ← get_left yp;
  (if same y ypl then set_left yp x else set_right yp x);;
  (if same y z then
     set_parent x yp;;
     recomputeTreeMetadata x
   else rbDelete_replace z y x);;
  rbDelete_end z x yWasRed.

Lemma rbDelete_unfold z st :
  rbDelete z st =
    ('(y, x) ← rbDelete_pick z;
     r ← get_root;
     if same y r then
       set_root x;; set_color x Black;; detach z;; resetSentinel;; set_parent x SENTINEL
     else rbDelete_from z y x) st.
Proof. done. Qed.

Lemma only_child_meta d l r t :
  only_child l r t -> meta_ok (T d l r) ->
  meta_ok t /\ tsize (T d l r) = Piece.length (npiece d) + tsize t /\
  tlf (T d l r) = Piece.lineFeedCnt (npiece d) + tlf t.
Proof.
  intros Ho (_ & _ & Hl & Hr). destruct Ho as [[-> ->] | [-> ->]]; cbn; split_and!; try done; lia.
Qed.

Lemma only_child_nodes d l r t : only_child l r t -> nodes (T d l r) = (nid d, npiece d) :: nodes t \/ nodes (T d l r) = nodes t ++ [(nid d, npiece d)].
Proof. intros [[-> ->] | [-> ->]]; cbn; [by left | by right]. Qed.

Lemma reps_removed_notin F st c d l r t :
  reps F st (plug c (T d l r)) -> only_child l r t -> nid d ∉ SENTINEL :: ids (plug c t).
Proof.
  intros [_ _ _ Hn _] Ho. rewrite ids_plug in *. nd_split Hn. destruct Ho as [[-> ->] | [-> ->]]; set_solver.
Qed.

Lemma remove_child F st f c d l r t :
  reps F st (plug (f :: c) (T d l r)) -> meta_ok (plug (f :: c) (T d l r)) ->
  balanced (plug (f :: c) (T d l r)) -> only_child l r t ->
  exists st' t', rbDelete_from (nid d) (nid d) (rid t) st = Ret (tt, st') /\
    valid (<[nid d := detached (cell d (nid (fdata f)) (rid l) (rid r))]> F) st' t' /\
    nodes t' = nodes (plug (f :: c) t).
Proof.
  intros Hr Hm Hb Ho. pose proof (lacks_removed _ _ _ _ _ Ho Hb) as Hl.
  pose proof (reps_removed_notin _ _ _ _ _ _ _ Hr Ho) as Hz.
  apply meta_plug in Hm as [Hmd Hmc]. destruct (only_child_meta _ _ _ _ Ho Hmd) as (Hmt & _ & _).
  destruct (unlink_reps F st f c d l r t Hr Ho) as (st1 & H1 & Hr1 & Hs1).
  destruct (recompute_place st1 f c t (tsize (T d l r)) (tlf (T d l r)) Hr1) as (st2 & ds & dl & s & lf & H2 & Hr2 & Hs2 & Hc2 & Hset);
    [by intros -> | done | done |].
  destruct (cadd ds dl (f :: c)) as [| f' c'] eqn:Ec; [done |].
  assert (nid (fdata f') = nid (fdata f)) as Hid by (destruct f; by injection Ec as <- _).
  destruct (rbDelete_end_reps _ _ st2 f' c' t s lf (nid d) (cell d (nid (fdata f)) (rid l) (rid r)) (ncol d) Hr2)
    as (st3 & t3 & H3 & Hv & Hn); try done.
  - intros ->. by rewrite Hid.
  - destruct Hset as [? | (-> & d0 & c0 & [= -> ->])]; [by left | right]. split; [done |].
    injection Ec as <- <-. eauto.
  - rewrite <- Ec. eapply lacks_csame; [apply csame_cadd | done].
  - rewrite <- Ec, <- fmap_nodes, nodes_cadd, fmap_nodes. done.
  - apply lookup_insert_eq.
  - exists st3, t3. rewrite insert_insert_eq in Hv. rewrite <- Ec, nodes_cadd in Hn.
    split; [| done]. unfold rbDelete_from.
    pose proof (reps_node _ _ _ _ _ Hr) as Hd.
    erewrite bind_run by (by eapply field_run). erewrite bind_run by (by eapply field_run).
    cbn [TreeNode.color TreeNode.parent cell cpar].
    rewrite same_eq. rewrite <- (bind_run _ (fun _ => rbDelete_end _ _ _) _ _ _ H2) in H3.
    rewrite <- (bind_run _ (fun _ => recomputeTreeMetadata _ ≫= _) _ _ _ H1) in H3.
    rewrite bind_assoc in H3. rewrite <- H3. apply bind_ext. intros ypl st'. rewrite bind_assoc.
    apply bind_ext. intros u st''. by rewrite bind_assoc.
Qed.

(** ** A node with two children: its successor takes its place *)

Lemma hung_of_reps q F st c z l r y yn :
  repsq q (<[y := yn]> F) st (plug c (T z l r)) -> y ∉ SENTINEL :: ids (plug c (T z l r)) ->
  hung q F st c z l r y yn.
Proof.
  intros [Hr Hh Hs Hn Hfr] Hy. rewrite rid_plug in Hr. apply rep_plug in Hh as [(Hz & Hl & Hrr) Hc].
  rewrite ids_plug in Hn, Hy. constructor; [done | done | done | by exists (nid z) | done | done | | |].
  - apply not_elem_of_cons in Hy as [Hy1 Hy2]. apply NoDup_cons in Hn as [Hn1 Hn2].
    apply NoDup_cons. split; [set_solver |]. by apply NoDup_cons.
  - rewrite Hfr by (by rewrite ids_plug). apply lookup_insert_eq.
  - intros i Hi. rewrite Hfr by (rewrite ids_plug; set_solver). apply lookup_insert_ne. set_solver.
Qed.

(** The sizes above a path of left children. *)
Lemma cmeta_left_path c1 c2 t s lf :
  Forall (fun f => is_FR f = false) c1 -> c1 <> [] -> cmeta s lf (c1 ++ c2) ->
  cmeta (spine (plug c1 t)) (spine_lf (plug c1 t)) c2 /\
  (forall c2', cmeta (spine (plug c1 t)) (spine_lf (plug c1 t)) c2' -> cmeta s lf (c1 ++ c2')).
Proof.
  intros H. revert t s lf. induction H as [| f c1 Hf Hc1 IH]; intros t s lf Hne Hm; [done |].
  destruct f as [d r | d l]; [| done]. cbn in Hm. destruct Hm as (Hs & Hl & Hr & Hm).
  destruct (meta_spine r Hr) as [Hsr Hlr]. destruct c1 as [| f1 c1].
  - cbn in *. rewrite Hs, Hl, Hsr, Hlr. split; [done |]. done.
  - destruct (IH (T d t r) _ _ ltac:(done) Hm) as [H1 H2]. cbn [plug fplug] in *.
    split; [exact H1 |]. intros c2' Hc2'. cbn [app cmeta]. split_and!; try done. by apply H2.
Qed.

(** [y] in the place of [z], and the metadata of the ancestors made right for it;
    below, the context [c1] stays right for a place of size [s]. *)
Lemma replace_recompute q F st c z l r y yn p s0 lf0 :
  hung q F st c z l r y yn -> TreeNode.piece yn = Some p ->
  nsl z = tsize l -> nlf z = tlf l ->
  cmeta s0 lf0 c ->
  exists st' ds dl,
    replace_node (nid z) y (recomputeTreeMetadata y) st = Ret (tt, st') /\
    repsq q (<[nid z := cell z (cpar c) (rid l) (rid r)]> F) st'
      (plug (cadd ds dl c) (T (replaced z y p) l r)) /\
    cmeta (tsize l + Piece.length p + spine r) (tlf l + Piece.lineFeedCnt p + spine_lf r) (cadd ds dl c).
Proof.
  intros Hh Hp Hsl Hlf Hc.
  destruct (replace_reps _ _ _ _ _ _ _ _ _ _ (recomputeTreeMetadata y) Hh Hp) as (st1 & H1 & Hr1 & Hs1).
  destruct (recompute_spine st1 c (T (replaced z y p) l r) _ _ ltac:(done) Hr1 Hc) as (st2 & H2 & Hr2 & _).
  eexists st2, _, _. split; [by rewrite H1 |]. split; [exact Hr2 |].
  eapply cmeta_eq; [exact (cmeta_cadd _ _ _ _ _ Hc) | cbn; lia | cbn; lia].
Qed.

Lemma csame_replaced c1 z y p l c : Forall2 fsame (c1 ++ FR z l :: c) (c1 ++ FR (replaced z y p) l :: c).
Proof. apply Forall2_app; [apply csame_refl |]. constructor; [done | apply csame_refl]. Qed.

Lemma nodes_left_path c t : Forall (fun f => is_FR f = false) c -> nodes (plug c t) = nodes t ++ nafter c.
Proof.
  intros H. rewrite nodes_plug. replace (nbefore c) with (@nil (ref * Piece.t)); [done |].
  induction H as [| [] c Hf Hc IH]; done.
Qed.

Lemma Forall_left_cadd ds dl c :
  Forall (fun f => is_FR f = false) c -> Forall (fun f => is_FR f = false) (cadd ds dl c).
Proof. induction 1 as [| [] c Hf Hc IH]; constructor; done. Qed.

Lemma cids_app c1 c2 : cids (c1 ++ c2) = cids c1 ++ cids c2.
Proof. induction c1 as [| f c1 IH]; cbn; [done |]. by rewrite IH, app_assoc. Qed.

Lemma cids_cadd ds dl c : cids (cadd ds dl c) = cids c.
Proof. induction c as [| [] c IH]; cbn; by rewrite ?IH. Qed.

(** From the replacement on, with the place of the successor below [c1]. *)
Lemma remove_replaced q F st c z l c1 t y yn p s lf s0 lf0 col :
  hung q F st c z l (plug c1 t) y yn -> TreeNode.piece yn = Some p ->
  (t = E -> q = cpar (c1 ++ [FR (replaced z y p) l])) -> meta_ok t -> meta_ok l ->
  nsl z = tsize l -> nlf z = tlf l ->
  cmeta s0 lf0 c ->
  (forall c2, cmeta (spine (plug c1 t)) (spine_lf (plug c1 t)) c2 -> cmeta s lf (c1 ++ c2)) ->
  settled t s lf (c1 ++ [FR (replaced z y p) l]) ->
  lacks col (c1 ++ FR z l :: c) t ->
  exists st' t' zn,
    (replace_node (nid z) y (recomputeTreeMetadata y);;
     rbDelete_end (nid z) (rid t) (bool_decide (col = Red))) st = Ret (tt, st') /\
    valid (<[nid z := detached zn]> F) st' t' /\ TreeNode.piece zn = Some (npiece z) /\
    nodes t' = nodes (plug c (T (replaced z y p) l (plug c1 t))).
Proof.
  intros Hh Hp Hq Hmt Hml Hsl Hlf Hc Hc1 Hset Hl.
  destruct (replace_recompute _ _ _ _ _ _ _ _ _ _ _ _ Hh Hp Hsl Hlf Hc) as (st1 & ds & dl & H1 & Hr1 & Hc').
  set (c' := cadd ds dl c) in *. set (zn := cell z (cpar c) (rid l) (rid (plug c1 t))) in *.
  assert (plug c' (T (replaced z y p) l (plug c1 t)) = plug (c1 ++ FR (replaced z y p) l :: c') t) as Hpl
    by (by rewrite plug_app).
  destruct (c1 ++ FR (replaced z y p) l :: c') as [| f cx] eqn:Ex; [by destruct c1 |].
  assert (exists f' c0, c1 ++ [FR (replaced z y p) l] = f' :: c0 /\ f' = f) as (f' & c0 & Ef & ->).
  { destruct c1 as [| f1 c1]; injection Ex as <- _; cbn; eauto. }
  rewrite Hpl in Hr1.
  destruct (rbDelete_end_reps q _ st1 f cx t s lf (nid z) zn col Hr1) as (st2 & t2 & H2 & Hv & Hn).
  - intros Ht. rewrite (Hq Ht), Ef. done.
  - done.
  - rewrite <- Ex. apply Hc1. cbn. split_and!; [done | done | done | exact Hc'].
  - rewrite Ef in Hset. destruct Hset as [? | (-> & d & c3 & [= -> _])]; [by left | right; eauto].
  - rewrite <- Ex. eapply lacks_csame; [| exact Hl]. apply Forall2_app; [apply csame_refl |].
    constructor; [done | apply csame_cadd].
  - rewrite <- Hpl, ids_plug. unfold c'. rewrite cids_cadd. pose proof (hung_nodup _ _ _ _ _ _ _ _ _ Hh) as Hn.
    nd_split Hn. cbn [ids replaced nid]. autorewrite with s2nd. split_and?; done.
  - apply lookup_insert_eq.
  - exists st2, t2, zn. split; [by erewrite bind_run by exact H1 |]. rewrite insert_insert_eq in Hv.
    split; [done |]. split; [done |]. rewrite Hn, <- Hpl. apply nodes_cadd.
Qed.

(** The successor is below the right child. *)
Lemma remove_deep F st c z l e re c1 dy t :
  Forall (fun f => is_FR f = false) (FL e re :: c1) ->
  reps F st (plug (FL e re :: c1 ++ FR z l :: c) (T dy E t)) ->
  meta_ok (plug (FL e re :: c1 ++ FR z l :: c) (T dy E t)) ->
  balanced (plug (FL e re :: c1 ++ FR z l :: c) (T dy E t)) ->
  exists st' t' zn, rbDelete_from (nid z) (nid dy) (rid t) st = Ret (tt, st') /\
    valid (<[nid z := detached zn]> F) st' t' /\ TreeNode.piece zn = Some (npiece z) /\
    nodes t' = nodes (plug c (T (replaced z (nid dy) (npiece dy)) l (plug (FL e re :: c1) t))).
Proof.
  intros Hleft Hr Hm Hb. assert (only_child E t t) as Ho by (by left).
  pose proof (lacks_removed _ _ _ _ _ Ho Hb) as Hl. pose proof (reps_removed_notin _ _ _ _ _ _ _ Hr Ho) as Hy.
  pose proof Hm as [Hmd Hmc]%meta_plug. destruct (only_child_meta _ _ _ _ Ho Hmd) as (Hmt & _ & _).
  destruct (unlink_reps F st (FL e re) _ dy E t t Hr Ho) as (st1 & H1 & Hr1 & Hs1).
  destruct (recompute_place st1 (FL e re) _ t (tsize (T dy E t)) (tlf (T dy E t)) Hr1)
    as (st2 & ds & dl & s & lf & H2 & Hr2 & Hs2 & Hc2 & Hset); [by intros -> | done | done |].
  set (k1 := cadd ds dl (FL e re :: c1)) in *. set (k := cadd ds dl c) in *.
  assert (cadd ds dl (FL e re :: c1 ++ FR z l :: c) = k1 ++ FR z l :: k) as Ek
    by (unfold k1, k; by rewrite app_comm_cons, cadd_app).
  rewrite Ek in Hr2, Hc2.
  destruct (cmeta_left_path k1 (FR z l :: k) t s lf) as [(Hsl & Hlf & Hml & Hck) Hback];
    [by apply Forall_left_cadd | done | done |].
  rewrite plug_app in Hr2. cbn [plug fplug] in Hr2.
  apply hung_of_reps in Hr2.
  2: { rewrite <- (plug_app k1 (FR z l :: k) t : _ = plug k (T z l (plug k1 t))), <- Ek.
       by rewrite <- fmap_nodes, nodes_cadd, fmap_nodes. }
  destruct (remove_replaced _ _ st2 k z l k1 t _ _ (npiece dy) s lf
      (tsize l + Piece.length (npiece z) + spine (plug k1 t))
      (tlf l + Piece.lineFeedCnt (npiece z) + spine_lf (plug k1 t)) (ncol dy) Hr2) as (st3 & t3 & zn & H3 & Hv & Hzn & Hn);
    try done.
  - by intros ->.
  - destruct Hset as [? | (-> & d0 & c0 & [= -> -> _])]; [by left | right; eauto].
  - eapply lacks_csame; [| exact Hl]. rewrite app_comm_cons. apply Forall2_app; [apply csame_cadd |].
    constructor; [done | apply csame_cadd].
  - exists st3, t3, zn. split; [| split; [done | split; [done |]]].
    2: { rewrite Hn. unfold k. rewrite nodes_cadd. apply nodes_replace. cbn [nodes]. unfold k1.
         by rewrite nodes_cadd. }
    pose proof (reps_node _ _ _ _ _ Hr) as Hd. pose proof (reps_parent _ _ _ _ Hr) as He. cbn in Hd, He.
    assert (nid dy <> nid e /\ nid e <> nid z /\ nid dy <> nid z) as (N1 & N2 & N3).
    { destruct Hr as [_ _ _ Hnd _]. rewrite ids_plug in Hnd. cbn in Hnd.
      rewrite (cids_app c1) in Hnd. nd_split Hnd. done. }
    unfold get_left, set_left in H1. rewrite (bind_run _ _ _ _ _ (field_run TreeNode.left _ _ _ He)) in H1.
    cbn [TreeNode.left cell fdata] in H1. rewrite same_eq in H1.
    rewrite (bind_run _ _ _ _ _ (upd_run _ _ _ _ He)) in H1.
    unfold rbDelete_from. erewrite bind_run by (by eapply field_run). erewrite bind_run by (by eapply field_run).
    cbn [TreeNode.color TreeNode.parent cell]. erewrite bind_run by (by eapply field_run).
    cbn [TreeNode.left cell]. rewrite same_eq. erewrite bind_run by (exact (upd_run _ _ _ _ He)).
    rewrite same_ne by done. unfold rbDelete_replace. rewrite bind_assoc.
    erewrite bind_run by (eapply field_run; cbn [heap]; rewrite lookup_insert_ne by done; exact Hd).
    cbn [TreeNode.parent cell]. rewrite same_ne by done.
    rewrite bind_assoc. erewrite bind_run by exact H1. rewrite bind_assoc. erewrite bind_run by exact H2.
    exact H3.
Qed.

(** The successor is the right child. *)
Lemma near_hung F st c z l dy t :
  reps F st (plug c (T z l (T dy E t))) ->
  exists st', (set_right (nid z) (rid t);; set_parent (rid t) (nid dy)) st = Ret (tt, st') /\
    hung (scratch t (nid dy)) F st' c z l t (nid dy) (cell dy (nid z) SENTINEL (rid t)) /\
    exists n, heap st' !! rid t = Some n /\ TreeNode.parent n = nid dy.
Proof.
  intros [Hr Hh Hs Hn Hfr]. rewrite rid_plug in Hr. apply rep_plug in Hh as [(Hz & Hl & Hy & _ & Ht) Hc].
  rewrite ids_plug in Hn. cbn in Hz, Hr, Hc.
  destruct t as [| d tl0 tr0]; [| destruct Ht as (Ht & Htl & Htr)];
  pose proof Hn as Hn'; nd_split Hn'; repeat mstep;
  (eexists; split; [reflexivity |]; split;
   [constructor;
    [ done
    | look
    | outside
    | exists (nid dy); cbn; split_and?; try look; try outside; done
    | coutside
    | look
    | eapply NoDup_Permutation_proper; [| exact Hn]; cbn; solve_Permutation
    | look
    | intros i Hi; cbn in Hi; nd_split Hi; cbn [heap];
      rewrite ?lookup_insert_ne by ne_solve; apply Hfr; rewrite ids_plug;
      cbn [app ids cids fdata fsib]; autorewrite with s2nd; split_and?;
      solve [assumption | apply not_elem_of_nil] ]
   | eexists; split; [look | done] ]).
Qed.

Lemma rep_size h p t : rep h p t -> NoDup (ids t) -> (List.length (ids t) <= size h)%nat.
Proof.
  intros Hh Hn. rewrite <- (size_list_to_set (C := gset ref)), <- size_dom by done.
  apply subseteq_size. intros i. rewrite elem_of_list_to_set. by eapply rep_dom.
Qed.

Lemma add_meta_0 n : TreeNode.add_meta 0 0 n = n.
Proof. destruct n. unfold TreeNode.add_meta, TreeNode.with_meta. cbn. by rewrite !Z.add_0_r. Qed.

Lemma near_recompute q F st c z l t dy n :
  hung q F st c z l t (nid dy) (cell dy (nid z) SENTINEL (rid t)) ->
  heap st !! rid t = Some n -> TreeNode.parent n = nid dy ->
  nsl z = tsize l -> nlf z = tlf l -> meta_ok l ->
  recomputeTreeMetadata (rid t) st = Ret (tt, st).
Proof.
  intros [Hr Hz Hl _ _ Hs Hn Hy _] Htn Hp Hsl Hlf Hml.
  assert (root st ∈ nid z :: cids c) as Hroot.
  { rewrite Hr. destruct c as [| f c]; [left | right; apply croot_elem]. }
  pose proof Hn as Hn'. nd_split Hn'.
  assert (rid t <> root st) as N1.
  { intros Heq. rewrite <- Heq in Hroot. destruct t as [| d0 tl0 tr0]; [set_solver |]. cbn in *. set_solver. }
  assert (nid dy <> root st) as N2 by (intros Heq; rewrite <- Heq in Hroot; set_solver).
  assert (nid dy <> rid t) as N3 by (apply not_eq_sym, rid_ne; done).
  assert (iter (S (S (size (heap st)))) ascendRight_body (rid t) st = Ret (nid dy, st)) as Hasc.
  { erewrite iter_next; [| unfold ascendRight_body; erewrite bind_run by done; rewrite same_ne by done;
      cbn [negb]; mstep; rewrite Hp; mstep; done].
    apply iter_stop. unfold ascendRight_body. erewrite bind_run by done. rewrite same_ne by done. cbn [negb].
    mstep. mstep. done. }
  unfold recomputeTreeMetadata. erewrite bind_run by done. rewrite same_ne by done.
  erewrite bind_run by (unfold ascendRight; erewrite bind_run by done; exact Hasc).
  erewrite bind_run by done. rewrite same_ne by done. mstep. mstep.
  destruct (calculateSize_rec_rep st l (nid z) (S (S (size (heap st)))) Hl) as [Hcs Hcl]; [done | |].
  { pose proof (rep_size _ _ _ Hl ltac:(done)). lia. }
  erewrite bind_run by (unfold calculateSize; erewrite bind_run by done; exact Hcs).
  erewrite bind_run by (unfold calculateLF; erewrite bind_run by done; exact Hcl).
  destruct (meta_spine l Hml) as [-> ->]. rewrite Hsl, Hlf, !Z.sub_diag.
  erewrite bind_run by (by apply upd_run). rewrite add_meta_0, insert_id by done. destruct st as [h rt].
  unfold propagate. erewrite bind_run by done. apply iter_stop. erewrite bind_run by done.
  by rewrite andb_false_r.
Qed.

Lemma remove_near F st c z l dy t :
  reps F st (plug c (T z l (T dy E t))) -> meta_ok (plug c (T z l (T dy E t))) ->
  balanced (plug c (T z l (T dy E t))) ->
  exists st' t' zn, rbDelete_from (nid z) (nid dy) (rid t) st = Ret (tt, st') /\
    valid (<[nid z := detached zn]> F) st' t' /\ TreeNode.piece zn = Some (npiece z) /\
    nodes t' = nodes (plug c (T (replaced z (nid dy) (npiece dy)) l t)).
Proof.
  intros Hr Hm Hb. assert (only_child E t t) as Ho by (by left).
  pose proof (lacks_removed (FR z l :: c) dy E t t Ho Hb) as Hl.
  pose proof Hm as [(Hsl & Hlf & Hml & Hmy) Hmc]%meta_plug.
  destruct (only_child_meta _ _ _ _ Ho Hmy) as (Hmt & Hsz & Hlfz).
  destruct (meta_spine t Hmt) as [Hss Hsf].
  destruct (near_hung F st c z l dy t Hr) as (st1 & H1 & Hh & n & Hn & Hp).
  assert (nid dy <> nid z /\ nid dy <> rid l) as (N1 & N2).
  { destruct Hr as [_ _ _ Hnd _]. rewrite ids_plug in Hnd. nd_split Hnd. split; [done |].
    apply not_eq_sym, rid_ne; done. }
  pose proof (near_recompute _ _ _ _ _ _ _ _ _ Hh Hn Hp Hsl Hlf Hml) as H2.
  destruct (remove_replaced _ _ st1 c z l [] t _ _ (npiece dy) (tsize t) (tlf t)
      (tsize (T z l (T dy E t))) (tlf (T z l (T dy E t))) (ncol dy) Hh)
    as (st3 & t3 & zn & H3 & Hv & Hzn & Hnn); try done.
  - by intros ->.
  - intros c2 Hc2. cbn [plug app] in *. by rewrite Hss, Hsf in Hc2.
  - by left.
  - exists st3, t3, zn. split; [| done].
    pose proof (reps_node st c z l (T dy E t) Hr) as Hz. pose proof (reps_node st (FR z l :: c) dy E t Hr) as Hy.
    cbn [cpar fdata rid] in Hy, Hz. unfold set_right in H1.
    rewrite (bind_run _ _ _ _ _ (upd_run _ _ _ _ Hz)) in H1.
    unfold rbDelete_from. erewrite bind_run by (by eapply field_run). erewrite bind_run by (by eapply field_run).
    cbn [TreeNode.color TreeNode.parent cell]. erewrite bind_run by (by eapply field_run).
    cbn [TreeNode.left cell]. rewrite (same_ne (nid dy) (rid l)) by done. unfold set_right at 1.
    erewrite bind_run by (by apply upd_run). rewrite same_ne by done. unfold rbDelete_replace. rewrite bind_assoc.
    erewrite bind_run by (eapply field_run; cbn [heap]; rewrite lookup_insert_ne by done; exact Hy).
    cbn [TreeNode.parent cell]. rewrite same_eq.
    rewrite bind_assoc. erewrite bind_run by exact H1. rewrite bind_assoc. erewrite bind_run by exact H2.
    exact H3.
Qed.

(** [rbDelete] takes one node out of the sequence; the node itself is detached. *)
Lemma rbDelete_reps F st t l1 x p l2 :
  valid F st t -> nodes t = l1 ++ (x, p) :: l2 ->
  exists st' t' zn, rbDelete x st = Ret (tt, st') /\ valid (<[x := detached zn]> F) st' t' /\
    TreeNode.piece zn = Some p /\ nodes t' = l1 ++ l2.
Proof.
  intros (Hr & Hm & Hb) Hn.
  assert (NoDup (ids t)) as Hnd by (destruct Hr as [_ _ _ [_ ?]%NoDup_cons _]; done).
  destruct (focus_nodes _ _ _ _ _ Hnd Hn) as (c & d & l & r & -> & <- & <- & -> & ->).
  pose proof (reps_node _ _ _ _ _ Hr) as Hd. rewrite rbDelete_unfold. unfold rbDelete_pick.
  assert (forall k, only_child l r k ->
    exists st' t' zn, (r0 ← get_root; if same (nid d) r0 then
        set_root (rid k);; set_color (rid k) Black;; detach (nid d);; resetSentinel;; set_parent (rid k) SENTINEL
      else rbDelete_from (nid d) (nid d) (rid k)) st = Ret (tt, st') /\
      valid (<[nid d := detached zn]> F) st' t' /\ TreeNode.piece zn = Some (npiece d) /\
      nodes t' = (nbefore c ++ nodes l) ++ nodes r ++ nafter c) as Hone.
  { intros k Ho. erewrite bind_run by done.
    assert (nodes k = nodes l ++ nodes r) as Hk
      by (destruct Ho as [[-> ->] | [-> ->]]; cbn; by rewrite ?app_nil_r).
    destruct c as [| f c].
    - rewrite (reps_is_root _ _ Hr), same_eq.
      destruct (remove_root F st d l r k Hr Hm Hb Ho) as (st' & t' & H1 & H2 & H3).
      exists st', t', (cell d SENTINEL (rid l) (rid r)). split; [exact H1 |]. split; [done |]. split; [done |].
      cbn. by rewrite H3, Hk, app_nil_r.
    - rewrite same_ne by (by eapply (reps_not_root st c f (T d l r))).
      destruct (remove_child F st f c d l r k Hr Hm Hb Ho) as (st' & t' & H1 & H2 & H3).
      eexists st', t', _. split; [exact H1 |]. split; [exact H2 |]. split; [done |].
      rewrite H3, nodes_plug, Hk. by assocs. }
  destruct l as [| dl ll lr].
  { rewrite bind_assoc. erewrite bind_run by (by eapply field_run). cbn [TreeNode.left cell rid].
    rewrite same_eq, bind_assoc. erewrite bind_run by (by eapply field_run). apply (Hone r). by left. }
  assert (nid dl <> SENTINEL) as Hdl by (eapply (reps_ids_ne st (FL d r :: c) dl ll lr); [exact Hr | left]).
  rewrite bind_assoc. erewrite bind_run by (by eapply field_run). cbn [TreeNode.left cell rid].
  rewrite same_ne by done. rewrite bind_assoc. erewrite bind_run by (by eapply field_run).
  cbn [TreeNode.right cell].
  destruct r as [| dr rl rr].
  { cbn [rid]. rewrite same_eq, bind_assoc. erewrite bind_run by (by eapply field_run).
    apply (Hone (T dl ll lr)). by right. }
  clear Hone. set (l := T dl ll lr) in *.
  assert (nid dr <> SENTINEL) as Hdr by (eapply (reps_ids_ne st (FR d l :: c) dr rl rr); [exact Hr | left]).
  cbn [rid]. rewrite same_ne by done. rewrite bind_assoc.
  change (nid dr) with (rid (T dr rl rr)).
  erewrite bind_run by (eapply (leftest_reps _ _ (FR d l :: c)); [done | exact Hr]).
  destruct (leftest_focus (T dr rl rr)) as (c1 & dy & k & Hpl & -> & Hleft & Hnn); [done |].
  rewrite Hpl in *. specialize (Hnn E). cbn [nodes app] in Hnn.
  change (plug c (T d l (plug c1 (T dy E k)))) with (plug (FR d l :: c) (plug c1 (T dy E k))) in *.
  rewrite <- plug_app in Hr, Hm, Hb.
  rewrite bind_assoc. erewrite bind_run by (eapply field_run, reps_node; exact Hr). cbn [TreeNode.right cell].
  erewrite bind_run by done. cbn beta iota. erewrite bind_run by done. rewrite same_ne.
  2: { destruct (c1 ++ FR d l :: c) as [| f0 c0] eqn:E0; [by destruct c1 |].
       by eapply (reps_not_root st c0 f0 (T dy E k)). }
  assert (exists st' t' zn, rbDelete_from (nid d) (nid dy) (rid k) st = Ret (tt, st') /\
    valid (<[nid d := detached zn]> F) st' t' /\ TreeNode.piece zn = Some (npiece d) /\
    nodes t' = nodes (plug c (T (replaced d (nid dy) (npiece dy)) l (plug c1 k)))) as (st' & t' & zn & H1 & Hv & Hzn & Hn').
  { destruct c1 as [| [e re | e re] c1]; [by apply remove_near | by apply remove_deep |].
    by apply Forall_cons in Hleft as [? _]. }
  exists st', t', zn. split; [done |]. split; [done |]. split; [done |].
  rewrite Hn', nodes_plug. cbn [nodes]. rewrite !(nodes_left_path c1) by done. cbn. by assocs.
Qed.

(** C22: [rbDelete] refines the removal of one element.  On a valid tree (a
    represented red-black tree with right metadata), for any of its nodes, with
    any number of children, [rbDelete] ends, throws nothing and leaves a valid
    tree, balanced and with right [size_left] and [lf_left], whose sequence of
    pieces is the old one without that node; the node is detached, every other
    cell outside of the tree is untouched, and [SENTINEL] is its own parent
    again. *)
Theorem rbDelete_refines_list F st t l1 x p l2 :
  valid F st t -> nodes t = l1 ++ (x, p) :: l2 ->
  exists st' t' zn, rbDelete x st = Ret (tt, st') /\ valid (<[x := detached zn]> F) st' t' /\
    TreeNode.piece zn = Some p /\ nodes t' = l1 ++ l2.
Proof. apply rbDelete_reps. Qed.

Lemma rbDelete_refines_list_witness :
  exists F st' t', rbDelete 2%nat (build_tree sample_tree) = Ret (tt, st') /\ valid F st' t' /\
    fst <$> nodes t' = [3; 4]%nat.
Proof.
  destruct (rbDelete_refines_list (heap (build_tree sample_tree)) (build_tree sample_tree) sample_tree
    [(3%nat, sample_piece 3 0)] 2%nat (sample_piece 5 1) [(4%nat, sample_piece 7 2)])
    as (st' & t' & zn & H1 & H2 & _ & H3).
  - split; [apply sample_reps |]. split; [cbn; split_and!; done |]. split; [done |].
    exists 1%nat. cbn. split_and!; done.
  - reflexivity.
  - eexists _, st', t'. split; [exact H1 |]. split; [exact H2 |]. by rewrite H3.
Defined.
