(* ===== verification/PieceBuffers.v ===== *)
(** * Text buffers of the piece table: line starts and cursors

    The parts of [src/vs/editor/common/model/pieceTreeTextBuffer/pieceTreeBase.ts]
    that work on one text buffer: the scan for line starts, and the conversions
    between offsets and (line, column) cursors in a buffer. *)

From S2P Require Import Prelude RBTree.

(** [CharCode.LineFeed] and [CharCode.CarriageReturn] *)
Definition LineFeed : Z := 10.
Definition CarriageReturn : Z := 13.
Definition Tab : Z := 9.

(** [str.charCodeAt(i)]; the NaN out of range equals no character, as does -1 *)
Definition charCodeAt (str : jsstring) (i : Z) : Z := default (-1) (znth str i).

(** [arr[i]] used as a number *)
Definition num_at (l : list Z) (i : Z) : res Z :=
  match znth l i with Some v => Ret v | None => Throw NotANumber end.

Definition uint16 (v : Z) : Z := v mod 2 ^ 16.

(** ** Line starts *)

(** An empty [arr] has no last element; the comparison with [undefined] is
    false. *)
Definition createUintArray (arr : list Z) : list Z :=
  match last arr with
  | Some x => if x <? 65536 then uint16 <$> arr else uint32 <$> arr
  | None => []
  end.

(** The loop of both functions: the offsets pushed while scanning the rest
    [str] of the text from offset [i] on. *)
Fixpoint lineStarts_loop (i : Z) (str : jsstring) : list Z :=
  match str with
  | [] => []
  | chr :: str1 =>
      if chr === CarriageReturn then
        match str1 with
        | c :: str2 =>
            if c === LineFeed then i + 2 :: lineStarts_loop (i + 2) str2
            else i + 1 :: lineStarts_loop (i + 1) str1
        | [] => i + 1 :: lineStarts_loop (i + 1) str1
        end
      else if chr === LineFeed then i + 1 :: lineStarts_loop (i + 1) str1
      else lineStarts_loop (i + 1) str1
  end.

Definition createLineStartsFast (str : jsstring) (readonly : bool) : list Z :=
  let r := 0 :: lineStarts_loop 0 str in
  if readonly then createUintArray r else r.

Record LineStarts := mkLineStarts {
  lineStarts : list Z;
  cr : Z;
  lf : Z;
  crlf : Z;
  isBasicASCII : bool
}.

(** The loop of [createLineStarts], with its counters. *)
Fixpoint countLineStarts_loop (i : Z) (str : jsstring) (acc : LineStarts) : LineStarts :=
  match str with
  | [] => acc
  | chr :: str1 =>
      if chr === CarriageReturn then
        match str1 with
        | c :: str2 =>
            if c === LineFeed then
              countLineStarts_loop (i + 2) str2
                (mkLineStarts (lineStarts acc ++ [i + 2]) (cr acc) (lf acc) (crlf acc + 1) (isBasicASCII acc))
            else
              countLineStarts_loop (i + 1) str1
                (mkLineStarts (lineStarts acc ++ [i + 1]) (cr acc + 1) (lf acc) (crlf acc) (isBasicASCII acc))
        | [] =>
            countLineStarts_loop (i + 1) str1
              (mkLineStarts (lineStarts acc ++ [i + 1]) (cr acc + 1) (lf acc) (crlf acc) (isBasicASCII acc))
        end
      else if chr === LineFeed then
        countLineStarts_loop (i + 1) str1
          (mkLineStarts (lineStarts acc ++ [i + 1]) (cr acc) (lf acc + 1) (crlf acc) (isBasicASCII acc))
      else
        let ascii :=
          if isBasicASCII acc then
            if (chr !== Tab) && ((chr <? 32) || (126 <? chr)) then false else true
          else false in
        countLineStarts_loop (i + 1) str1
          (mkLineStarts (lineStarts acc) (cr acc) (lf acc) (crlf acc) ascii)
  end.

Definition createLineStarts (str : jsstring) : LineStarts :=
  let result := countLineStarts_loop 0 str (mkLineStarts [0] 0 0 0 true) in
  mkLineStarts (createUintArray (lineStarts result)) (cr result) (lf result) (crlf result)
    (isBasicASCII result).

(** ** Buffers and cursors *)

Module StringBuffer.
Record t := mk { buffer : jsstring; lineStarts : list Z }.
End StringBuffer.

Section Buffers.
Variable _buffers : list StringBuffer.t.

Definition buffer_at (bufferIndex : Z) : res StringBuffer.t := js_get (znth _buffers bufferIndex).

Definition offsetInBuffer (bufferIndex : Z) (cursor : BufferCursor.t) : res Z :=
  let* b := buffer_at bufferIndex in
  let* s := num_at (StringBuffer.lineStarts b) (BufferCursor.line cursor) in
  Ret (s + BufferCursor.column cursor).

(** The binary search of [positionInBuffer]: [(mid, midStart)]. *)
Fixpoint searchLine (fuel : nat) (lineStarts : list Z) (offset low high mid midStart : Z)
    : res (Z * Z) :=
  match fuel with
  | O => Throw OutOfFuel
  | S fuel =>
      if low <=? high then
        let mid := int32 (low + (high - low) / 2) in
        let* midStart := num_at lineStarts mid in
        if mid === high then Ret (mid, midStart) else
        let* midStop := num_at lineStarts (mid + 1) in
        if offset <? midStart then searchLine fuel lineStarts offset low (mid - 1) mid midStart
        else if midStop <=? offset then searchLine fuel lineStarts offset (mid + 1) high mid midStart
        else Ret (mid, midStart)
      else Ret (mid, midStart)
  end.

Definition positionInBuffer (piece : Piece.t) (remainder : Z) : res BufferCursor.t :=
  let bufferIndex := Piece.bufferIndex piece in
  let* b := buffer_at bufferIndex in
  let lineStarts := StringBuffer.lineStarts b in
  let* s := num_at lineStarts (BufferCursor.line (Piece.start piece)) in
  let startOffset := s + BufferCursor.column (Piece.start piece) in
  let offset := startOffset + remainder in
  let low := BufferCursor.line (Piece.start piece) in
  let high := BufferCursor.line (Piece.end_ piece) in
  let* r := searchLine (S (S (Z.to_nat (high - low)))) lineStarts offset low high 0 0 in
  Ret (BufferCursor.mk (fst r) (offset - snd r)).

Definition getLineFeedCnt (bufferIndex : Z) (start end_ : BufferCursor.t) : res Z :=
  let lines := BufferCursor.line end_ - BufferCursor.line start in
  if BufferCursor.column end_ === 0 then Ret lines else
  let* b := buffer_at bufferIndex in
  let lineStarts := StringBuffer.lineStarts b in
  if BufferCursor.line end_ === zlen lineStarts - 1 then Ret lines else
  let* nextLineStartOffset := num_at lineStarts (BufferCursor.line end_ + 1) in
  let* s := num_at lineStarts (BufferCursor.line end_) in
  let endOffset := s + BufferCursor.column end_ in
  if endOffset + 1 <? nextLineStartOffset then Ret lines else
  let previousCharOffset := endOffset - 1 in
  if charCodeAt (StringBuffer.buffer b) previousCharOffset === 13 then Ret (lines + 1)
  else Ret lines.

Definition getIndexOf (piece : Piece.t) (accumulatedValue : Z) : res (Z * Z) :=
  let* pos := positionInBuffer piece accumulatedValue in
  let lineCnt := BufferCursor.line pos - BufferCursor.line (Piece.start piece) in
  let* e := offsetInBuffer (Piece.bufferIndex piece) (Piece.end_ piece) in
  let* s := offsetInBuffer (Piece.bufferIndex piece) (Piece.start piece) in
  let* realLineCnt :=
    if e - s === accumulatedValue
    then getLineFeedCnt (Piece.bufferIndex piece) (Piece.start piece) pos
    else Ret lineCnt in
  if realLineCnt !== lineCnt then Ret (realLineCnt, 0)
  else Ret (lineCnt, BufferCursor.column pos).

Definition getAccumulatedValue (piece : Piece.t) (index : Z) : res Z :=
  if index <? 0 then Ret 0 else
  let* b := buffer_at (Piece.bufferIndex piece) in
  let lineStarts := StringBuffer.lineStarts b in
  let start := Piece.start piece in
  let end_ := Piece.end_ piece in
  let expectedLineStartIndex := BufferCursor.line start + index + 1 in
  let* s := num_at lineStarts (BufferCursor.line start) in
  if BufferCursor.line end_ <? expectedLineStartIndex then
    let* e := num_at lineStarts (BufferCursor.line end_) in
    Ret (e + BufferCursor.column end_ - s - BufferCursor.column start)
  else
    let* e := num_at lineStarts expectedLineStartIndex in
    Ret (e - s - BufferCursor.column start).

Definition getPieceContent (piece : Piece.t) : res jsstring :=
  let* b := buffer_at (Piece.bufferIndex piece) in
  let* startOffset := offsetInBuffer (Piece.bufferIndex piece) (Piece.start piece) in
  let* endOffset := offsetInBuffer (Piece.bufferIndex piece) (Piece.end_ piece) in
  Ret (js_substring (StringBuffer.buffer b) startOffset endOffset).

End Buffers.

(** ** Line starts: the specification

    A line ends after LF, after CR LF, and after a CR that no LF follows. *)

Definition breaks_at (s : jsstring) (k : Z) : Prop :=
  znth s (k - 1) = Some LineFeed \/
  (znth s (k - 1) = Some CarriageReturn /\ znth s k <> Some LineFeed).

Lemma znth_cons_0 {A} (x : A) l : znth (x :: l) 0 = Some x.
Proof. done. Qed.

Lemma znth_cons_S {A} (x : A) l i : 0 < i -> znth (x :: l) i = znth l (i - 1).
Proof.
  intros. unfold znth. rewrite !(proj2 (Z.ltb_ge _ _)) by lia.
  replace (Z.to_nat i) with (S (Z.to_nat (i - 1))) by lia. done.
Qed.

Lemma znth_neg {A} (l : list A) i : i < 0 -> znth l i = None.
Proof. intros. unfold znth. by rewrite (proj2 (Z.ltb_lt _ _)). Qed.

Lemma breaks_at_nil k : ~ breaks_at [] k.
Proof. unfold breaks_at, znth. repeat case_match; rewrite ?lookup_nil; naive_solver. Qed.

Lemma breaks_at_pos s k : breaks_at s k -> 1 <= k <= zlen s.
Proof. intros [H | [H _]]; apply znth_Some in H; lia. Qed.

Lemma breaks_at_cons c s k :
  breaks_at (c :: s) k <->
  (k = 1 /\ (c = LineFeed \/ (c = CarriageReturn /\ znth s 0 <> Some LineFeed))) \/
  (breaks_at s (k - 1)).
Proof.
  unfold breaks_at. destruct (decide (k < 1)).
  - rewrite !(znth_neg _ (k - 1)), (znth_neg _ (k - 1 - 1)) by lia.
    split; [intros [? | [? _]]; done | intros [[-> _] | [? | [? _]]]; done].
  - destruct (decide (k = 1)) as [-> |].
    + change (1 - 1) with 0. rewrite znth_cons_0, (znth_cons_S _ _ 1), (znth_neg s (0 - 1)) by lia.
      change (1 - 1) with 0. split; [intros [[= ->] | [[= ->] ?]]; left; auto |].
      intros [[_ [-> | [-> ?]]] | [? | [? _]]]; auto; done.
    + rewrite !znth_cons_S by lia.
      split; [right; done | intros [[? _] | ?]; [lia | done]].
Qed.

(** The offsets the loop pushes are the positions after a line break. *)
Lemma lineStarts_loop_spec s i j :
  j ∈ lineStarts_loop i s <-> breaks_at s (j - i).
Proof.
  remember (List.length s) as n eqn:Hn. revert s i Hn.
  induction n as [n IH] using lt_wf_ind. intros [| c s] i ->; cbn [lineStarts_loop].
  - split; [by intros ?%elem_of_nil | by intros ?%breaks_at_nil].
  - pose proof (fun i => IH (List.length s) ltac:(cbn; lia) s i eq_refl) as IHs.
    rewrite breaks_at_cons. replace (j - i - 1) with (j - (i + 1)) by lia.
    assert (forall P : Prop, (j - i = 1 /\ P -> j = i + 1) /\ (j = i + 1 -> j - i = 1)) as Hj by lia.
    destruct (Z.eqb_spec c CarriageReturn) as [-> |].
    + destruct s as [| c2 s].
      * rewrite elem_of_cons, IHs. split.
        -- intros [-> | ?]; [left | by right]. split; [lia |]. right. done.
        -- intros [[? _] | ?]; [left; lia | by right].
      * destruct (Z.eqb_spec c2 LineFeed) as [-> |].
        -- rewrite elem_of_cons, (IH (List.length s)) by (cbn; lia || done).
           rewrite breaks_at_cons. replace (j - (i + 1) - 1) with (j - (i + 2)) by lia.
           split.
           ++ intros [-> | ?]; [right; left; split; [lia | by left] | by right; right].
           ++ intros [[? [? | [_ ?]]] | [[? _] | ?]]; [done | done | left; lia | by right].
        -- rewrite elem_of_cons, IHs. split.
           ++ intros [-> | ?]; [left | by right]. split; [lia |]. right. split; [done |].
              rewrite znth_cons_0. congruence.
           ++ intros [[? _] | ?]; [left; lia | by right].
    + destruct (Z.eqb_spec c LineFeed) as [-> |].
      * rewrite elem_of_cons, IHs. split.
        -- intros [-> | ?]; [left; split; [lia | by left] | by right].
        -- intros [[? _] | ?]; [left; lia | by right].
      * rewrite IHs. split; [by right | intros [[_ [? | [? _]]] | ?]; done].
Qed.

Lemma lineStarts_loop_sorted s i : StronglySorted Z.lt (i :: lineStarts_loop i s).
Proof.
  remember (List.length s) as n eqn:Hn. revert s i Hn.
  induction n as [n IH] using lt_wf_ind. intros s i ->.
  assert (forall s' d, (List.length s' < List.length s)%nat -> 0 < d ->
    StronglySorted Z.lt (i :: i + d :: lineStarts_loop (i + d) s') /\
    StronglySorted Z.lt (i :: lineStarts_loop (i + d) s')) as Hstep.
  { intros s' d Hl Hd. pose proof (IH _ Hl s' (i + d) eq_refl) as HS.
    apply StronglySorted_inv in HS as HS'. destruct HS' as [HS1 HS2].
    assert (Forall (Z.lt i) (lineStarts_loop (i + d) s')) as HF
      by (eapply Forall_impl; [exact HS2 | cbn; lia]).
    split; constructor; [exact HS | | exact HS1 | exact HF]. constructor; [lia | exact HF]. }
  destruct s as [| c s]; cbn [lineStarts_loop]; [repeat constructor |].
  destruct (c === CarriageReturn).
  - destruct s as [| c2 s]; [apply (Hstep [] 1); cbn; lia |].
    destruct (c2 === LineFeed); [apply (Hstep s 2); cbn; lia | apply (Hstep (c2 :: s) 1); cbn; lia].
  - destruct (c === LineFeed); [apply (Hstep s 1); cbn; lia | apply (Hstep s 1); cbn; lia].
Qed.

Lemma createUintArray_id l :
  StronglySorted Z.lt l -> Forall (fun x => 0 <= x < 2 ^ 32) l -> createUintArray l = l.
Proof.
  intros HS HF. unfold createUintArray. destruct (last l) as [x |] eqn:Hx.
  - assert (Forall (fun y => y <= x) l) as Hle.
    { clear HF. induction HS as [| y l HS IH HF]; [done |]. destruct l as [| z l].
      - cbn in Hx. injection Hx as ->. repeat constructor. lia.
      - rewrite last_cons_cons in Hx. specialize (IH Hx). constructor; [| done].
        apply Forall_cons in HF as [? _]. apply Forall_cons in IH as [? _]. lia. }
    destruct (Z.ltb_spec x 65536).
    + rewrite <- (list_fmap_id l) at 2. apply list_fmap_ext. intros i y Hy. cbn.
      pose proof (Forall_lookup_1 _ _ _ _ Hle Hy) as H1. pose proof (Forall_lookup_1 _ _ _ _ HF Hy) as H2.
      cbn in H1, H2. unfold uint16. apply Z.mod_small. lia.
    + rewrite <- (list_fmap_id l) at 2. apply list_fmap_ext. intros i y Hy. cbn.
      pose proof (Forall_lookup_1 _ _ _ _ HF Hy) as H2. cbn in H2. apply uint32_id. done.
  - by apply last_None in Hx.
Qed.

Lemma createLineStartsFast_eq s b :
  zlen s < 2 ^ 32 -> createLineStartsFast s b = 0 :: lineStarts_loop 0 s.
Proof.
  intros Hs. unfold createLineStartsFast. destruct b; [| done].
  apply createUintArray_id; [apply lineStarts_loop_sorted |].
  constructor; [lia |]. apply Forall_forall. intros j Hj.
  apply lineStarts_loop_spec, breaks_at_pos in Hj. lia.
Qed.

(** The counting loop pushes the same offsets. *)
Lemma countLineStarts_loop_starts s i acc :
  lineStarts (countLineStarts_loop i s acc) = lineStarts acc ++ lineStarts_loop i s.
Proof.
  remember (List.length s) as n eqn:Hn. revert s i acc Hn.
  induction n as [n IH] using lt_wf_ind. intros [| c s] i acc ->; cbn; [by rewrite app_nil_r |].
  destruct (c === CarriageReturn); [destruct s as [| c2 s]; [| destruct (c2 === LineFeed)] |
    destruct (c === LineFeed)];
  (erewrite (IH (List.length _)); [| | done]; [| cbn; lia]); cbn; by rewrite <- ?app_assoc.
Qed.

Lemma countLineStarts_loop_counts s i acc :
  let r := countLineStarts_loop i s acc in
  cr r + lf r + crlf r - (cr acc + lf acc + crlf acc) = zlen (lineStarts_loop i s) /\
  (isBasicASCII r = true <-> isBasicASCII acc = true /\
     Forall (fun c => c = Tab \/ c = LineFeed \/ c = CarriageReturn \/ 32 <= c <= 126) s).
Proof.
  remember (List.length s) as n eqn:Hn. revert s i acc Hn.
  induction n as [n IH] using lt_wf_ind. intros [| c s] i acc ->; cbn.
  { unfold zlen. cbn. split; [lia |]. split; [intros; split; [done | constructor] | tauto]. }
  destruct (Z.eqb_spec c CarriageReturn) as [-> | Hcr].
  - destruct s as [| c2 s]; [| destruct (Z.eqb_spec c2 LineFeed) as [-> |]].
    + cbn. unfold zlen. cbn. split; [lia |]. rewrite Forall_singleton. tauto.
    + match goal with |- context [countLineStarts_loop ?j s ?a] =>
        destruct (IH (List.length s) ltac:(cbn; lia) s j a eq_refl) as [IH1 IH2] end.
      rewrite zlen_cons. cbn [cr lf crlf isBasicASCII] in IH1, IH2.
      split; [rewrite <- IH1; lia |]. rewrite IH2, !Forall_cons.
      tauto.
    + match goal with |- context [countLineStarts_loop ?j (c2 :: s) ?a] =>
        destruct (IH (List.length (c2 :: s)) ltac:(cbn; lia) (c2 :: s) j a eq_refl) as [IH1 IH2] end.
      rewrite zlen_cons. cbn [cr lf crlf isBasicASCII] in IH1, IH2.
      split; [rewrite <- IH1; lia |]. rewrite IH2, !Forall_cons.
      tauto.
  - destruct (Z.eqb_spec c LineFeed) as [-> | Hlf].
    + match goal with |- context [countLineStarts_loop ?j s ?a] =>
        destruct (IH (List.length s) ltac:(cbn; lia) s j a eq_refl) as [IH1 IH2] end.
      rewrite zlen_cons. cbn [cr lf crlf isBasicASCII] in IH1, IH2.
      split; [rewrite <- IH1; lia |]. rewrite IH2, !Forall_cons.
      tauto.
    + match goal with |- context [countLineStarts_loop ?j s ?a] =>
        destruct (IH (List.length s) ltac:(cbn; lia) s j a eq_refl) as [IH1 IH2] end.
      split; [exact IH1 |]. etransitivity; [exact IH2 |]. cbn [isBasicASCII]. rewrite Forall_cons.
      unfold Tab in *. destruct (isBasicASCII acc); [| naive_solver].
      destruct (Z.eqb_spec c 9), (Z.ltb_spec c 32), (Z.ltb_spec 126 c); cbn; split; intros; try lia;
        naive_solver lia.
Qed.

(** Both line-start scanners find exactly the line starts of a text: the
    offsets are strictly increasing, 0 is one, and another offset is one exactly
    when a line break (LF, CR LF, or a CR no LF follows) ends there; typed
    arrays store them unchanged.  [createLineStarts] counts every break once,
    and its ASCII flag says that every character is a tab, a line break or
    printable ASCII. *)
Lemma createLineStarts_correct s :
  zlen s < 2 ^ 32 ->
  let ls := createLineStartsFast s true in
  ls = createLineStartsFast s false /\ ls = lineStarts (createLineStarts s) /\
  StronglySorted Z.lt ls /\
  (forall i, i ∈ ls <-> i = 0 \/ breaks_at s i) /\
  cr (createLineStarts s) + lf (createLineStarts s) + crlf (createLineStarts s) = zlen ls - 1 /\
  (isBasicASCII (createLineStarts s) = true <->
     Forall (fun c => c = Tab \/ c = LineFeed \/ c = CarriageReturn \/ 32 <= c <= 126) s).
Proof.
  intros Hs. cbn zeta.
  destruct (countLineStarts_loop_counts s 0 (mkLineStarts [0] 0 0 0 true)) as [Hcnt Hasc].
  assert (createUintArray (0 :: lineStarts_loop 0 s) = 0 :: lineStarts_loop 0 s) as Hid
    by exact (createLineStartsFast_eq s true Hs).
  rewrite !createLineStartsFast_eq by done. split_and!.
  - done.
  - unfold createLineStarts. cbn [lineStarts]. rewrite countLineStarts_loop_starts. by rewrite <- Hid at 1.
  - apply lineStarts_loop_sorted.
  - intros i. rewrite elem_of_cons, lineStarts_loop_spec, Z.sub_0_r. done.
  - unfold createLineStarts. cbn [cr lf crlf] in *. rewrite zlen_cons. lia.
  - unfold createLineStarts. cbn [isBasicASCII] in *. rewrite Hasc. tauto.
Qed.

(** ** Cursors *)

(** The line starts of a buffer, for a text of at most 2^31 units. *)
Definition starts_ok (ls : list Z) : Prop :=
  StronglySorted Z.lt ls /\ zlen ls < 2 ^ 31.

Lemma sorted_znth ls i j x y :
  StronglySorted Z.lt ls -> znth ls i = Some x -> znth ls j = Some y -> i < j -> x < y.
Proof.
  intros HS. revert i j. induction HS as [| z ls HS IH HF]; intros i j Hi Hj Hij;
    pose proof (znth_Some _ _ _ Hi) as Bi; pose proof (znth_Some _ _ _ Hj) as Bj.
  - unfold zlen in Bi; cbn in Bi; lia.
  - rewrite znth_cons_S in Hj by lia.
    destruct (decide (i = 0)) as [-> |].
    + rewrite znth_cons_0 in Hi. injection Hi as <-. unfold znth in Hj.
      destruct (j - 1 <? 0); [done |]. by apply (Forall_lookup_1 _ _ _ _ HF) in Hj.
    + rewrite znth_cons_S in Hi by lia. eapply (IH (i - 1) (j - 1)); [done | done | lia].
Qed.

Lemma num_at_Ret l i v : num_at l i = Ret v <-> znth l i = Some v.
Proof. unfold num_at. destruct (znth l i); split; intros; simplify_eq; done. Qed.

Lemma num_at_in l i : 0 <= i < zlen l -> exists v, znth l i = Some v /\ num_at l i = Ret v.
Proof. intros H. destruct (znth_is_Some l i H) as [v Hv]. exists v. by rewrite num_at_Ret. Qed.

(** The last line of [low..high] that starts at or before [offset]. *)
Definition line_of (ls : list Z) (low high offset line start : Z) : Prop :=
  low <= line <= high /\ znth ls line = Some start /\ start <= offset /\
  (line < high -> forall next, znth ls (line + 1) = Some next -> offset < next).

Lemma searchLine_ok fuel ls offset low high top m ms :
  starts_ok ls -> 0 <= low <= high -> high <= top < zlen ls ->
  (forall s, znth ls low = Some s -> s <= offset) ->
  (high < top -> forall s, znth ls (high + 1) = Some s -> offset < s) ->
  (Z.to_nat (high - low) < fuel)%nat ->
  exists line start, searchLine fuel ls offset low high m ms = Ret (line, start) /\
    line_of ls low top offset line start.
Proof.
  intros [HS Hlen]. revert low high m ms.
  induction fuel as [| fuel IH]; intros low high m ms Hlh Htop Hlow Hhigh Hf; [lia |].
  cbn [searchLine]. rewrite (proj2 (Z.leb_le _ _)) by lia.
  set (mid := low + (high - low) / 2). assert (low <= mid <= high) as Hmid by (subst mid; zmod).
  rewrite int32_id by (unfold in_int32; lia).
  destruct (num_at_in ls mid) as (ms' & Hms & ->); [lia |]. cbn [res_bind].
  assert (low <= mid /\ (low = mid -> ms' <= offset)) as [_ Hlm] by (split; [lia |]; intros <-; auto).
  destruct (Z.eqb_spec mid high) as [Hmh | Hmh].
  - assert (low = high) as Hl by (subst mid; zmod).
    exists mid, ms'. split; [done |]. split_and!; [lia | lia | done | apply Hlm; lia |].
    intros Hlt next Hnext. apply Hhigh; [lia | by rewrite <- Hmh].
  - destruct (num_at_in ls (mid + 1)) as (mp & Hmp & ->); [lia |]. cbn [res_bind].
    destruct (Z.ltb_spec offset ms').
    + assert (low < mid) by (destruct (decide (low = mid)); [lia | lia]).
      destruct (IH low (mid - 1) mid ms') as (l & s & Hr & Hl); [lia | lia | done | | lia |].
      { intros _ s Hs. replace (mid - 1 + 1) with mid in Hs by lia. rewrite Hs in Hms. by injection Hms as ->. }
      exists l, s. done.
    + destruct (Z.leb_spec mp offset).
      * destruct (IH (mid + 1) high mid ms') as (l & s & Hr & Hl & Hrest); [lia | lia | | done | lia |].
        { intros s Hs. rewrite Hs in Hmp. by injection Hmp as ->. }
        exists l, s. split; [done |]. split; [lia | done].
      * exists mid, ms'. split; [done |]. split_and!; [lia | lia | done | lia |].
        intros _ next Hnext. rewrite Hnext in Hmp. injection Hmp as ->. lia.
Qed.

(** A cursor that points into a buffer: on its line, or right behind the last. *)
Definition cursor_ok (b : StringBuffer.t) (c : BufferCursor.t) (o : Z) : Prop :=
  exists s, znth (StringBuffer.lineStarts b) (BufferCursor.line c) = Some s /\
    o = s + BufferCursor.column c /\ 0 <= BufferCursor.column c /\
    o <= zlen (StringBuffer.buffer b) /\
    (forall next, znth (StringBuffer.lineStarts b) (BufferCursor.line c + 1) = Some next -> o < next).

Lemma offsetInBuffer_ok bs i b c o :
  znth bs i = Some b -> cursor_ok b c o -> offsetInBuffer bs i c = Ret o.
Proof.
  intros Hb (s & Hs & -> & _). unfold offsetInBuffer, buffer_at. rewrite Hb. cbn.
  by rewrite (proj2 (num_at_Ret _ _ _) Hs).
Qed.

(** The index of the line of a cursor grows with its offset. *)
Lemma cursor_line_mono b c1 o1 c2 o2 :
  StronglySorted Z.lt (StringBuffer.lineStarts b) ->
  cursor_ok b c1 o1 -> cursor_ok b c2 o2 -> o1 <= o2 -> BufferCursor.line c1 <= BufferCursor.line c2.
Proof.
  intros HS (s1 & H1 & E1 & C1 & _ & _) (s2 & H2 & E2 & C2 & _ & N2) Ho.
  destruct (decide (BufferCursor.line c1 <= BufferCursor.line c2)); [done |]. exfalso.
  pose proof (znth_Some _ _ _ H1). pose proof (znth_Some _ _ _ H2).
  destruct (num_at_in (StringBuffer.lineStarts b) (BufferCursor.line c2 + 1)) as (n' & Hn & _); [lia |].
  specialize (N2 _ Hn).
  destruct (decide (BufferCursor.line c2 + 1 = BufferCursor.line c1)) as [Heq |].
  - rewrite Heq in Hn. rewrite H1 in Hn. injection Hn as ->. lia.
  - pose proof (sorted_znth _ _ _ _ _ HS Hn H1 ltac:(lia)). lia.
Qed.

Lemma positionInBuffer_ok bs b p so eo remainder :
  znth bs (Piece.bufferIndex p) = Some b -> starts_ok (StringBuffer.lineStarts b) ->
  cursor_ok b (Piece.start p) so -> cursor_ok b (Piece.end_ p) eo ->
  0 <= remainder <= eo - so ->
  exists c, positionInBuffer bs p remainder = Ret c /\ cursor_ok b c (so + remainder) /\
    BufferCursor.line (Piece.start p) <= BufferCursor.line c <= BufferCursor.line (Piece.end_ p).
Proof.
  intros Hb Hok Hs He Hr. pose proof (cursor_line_mono b _ _ _ _ (proj1 Hok) Hs He ltac:(lia)) as Hle.
  destruct Hs as (s & Hs & -> & Cs & Ls & Ns). destruct He as (e & He & -> & Ce & Le & Ne).
  pose proof (znth_Some _ _ _ Hs). pose proof (znth_Some _ _ _ He).
  unfold positionInBuffer, buffer_at. rewrite Hb. cbn [js_get res_bind].
  rewrite (proj2 (num_at_Ret _ _ _) Hs). cbn [res_bind].
  edestruct (searchLine_ok (S (S (Z.to_nat (BufferCursor.line (Piece.end_ p) - BufferCursor.line (Piece.start p)))))
    (StringBuffer.lineStarts b) (s + BufferCursor.column (Piece.start p) + remainder)
    (BufferCursor.line (Piece.start p)) (BufferCursor.line (Piece.end_ p)) (BufferCursor.line (Piece.end_ p)) 0 0)
    as (l & ls & -> & Hl); [done | lia | lia | | lia | lia |].
  { intros s' Hs'. rewrite Hs' in Hs. injection Hs as ->. lia. }
  cbn. eexists. split; [done |]. destruct Hl as (Hl1 & Hl2 & Hl3 & Hl4). split; [| done].
  exists ls. cbn. split_and!; [done | lia | lia | lia |]. intros next Hnext.
  destruct (decide (l < BufferCursor.line (Piece.end_ p))); [by apply Hl4 |].
  replace l with (BufferCursor.line (Piece.end_ p)) in * by lia.
  specialize (Ne _ Hnext). lia.
Qed.

(** [positionInBuffer] inverts [offsetInBuffer] inside a piece: for an
    offset of the piece its binary search ends, throws nothing, and returns a
    cursor on a line of the piece whose offset in the buffer is the start of the
    piece plus the remainder, and which is on the line it belongs to (before the
    next line start). *)
Lemma positionInBuffer_inverts bs b p so eo remainder :
  znth bs (Piece.bufferIndex p) = Some b -> starts_ok (StringBuffer.lineStarts b) ->
  cursor_ok b (Piece.start p) so -> cursor_ok b (Piece.end_ p) eo ->
  0 <= remainder <= eo - so ->
  exists c, positionInBuffer bs p remainder = Ret c /\
    offsetInBuffer bs (Piece.bufferIndex p) c = Ret (so + remainder) /\
    cursor_ok b c (so + remainder) /\
    BufferCursor.line (Piece.start p) <= BufferCursor.line c <= BufferCursor.line (Piece.end_ p).
Proof.
  intros Hb Hok Hs He Hr.
  destruct (positionInBuffer_ok _ _ _ _ _ _ Hb Hok Hs He Hr) as (c & Hc & Hco & Hl).
  exists c. split_and!; [done | by eapply offsetInBuffer_ok | done | lia | lia].
Qed.

Definition sample_buffer : StringBuffer.t :=
  StringBuffer.mk [97; 10; 98; 99; 13; 10; 100] [0; 2; 6].

(** ** Counting line breaks *)

(** The line starts are those of the text. *)
Definition buffer_ok (b : StringBuffer.t) : Prop :=
  StringBuffer.lineStarts b = 0 :: lineStarts_loop 0 (StringBuffer.buffer b) /\
  zlen (StringBuffer.lineStarts b) < 2 ^ 31.

Lemma buffer_starts_ok b : buffer_ok b -> starts_ok (StringBuffer.lineStarts b).
Proof. intros [H ?]. split; [| done]. rewrite H. apply lineStarts_loop_sorted. Qed.

Lemma elem_of_starts b i :
  buffer_ok b -> i ∈ StringBuffer.lineStarts b <-> i = 0 \/ breaks_at (StringBuffer.buffer b) i.
Proof. intros [-> _]. by rewrite elem_of_cons, lineStarts_loop_spec, Z.sub_0_r. Qed.

Lemma sorted_NoDup l : StronglySorted Z.lt l -> NoDup l.
Proof.
  induction 1 as [| x l HS IH HF]; constructor; [| done].
  intros Hx. rewrite Forall_forall in HF. specialize (HF x Hx). lia.
Qed.

Lemma elem_znth (l : list Z) x : x ∈ l <-> exists i, znth l i = Some x.
Proof.
  rewrite list_elem_of_lookup. split.
  - intros [n Hn]. exists (Z.of_nat n). unfold znth. rewrite (proj2 (Z.ltb_ge _ _)) by lia.
    by rewrite Nat2Z.id.
  - intros [i Hi]. unfold znth in Hi. destruct (i <? 0); [done | eauto].
Qed.

Lemma NoDup_ztake (l : list Z) n : NoDup l -> NoDup (ztake n l).
Proof. intros H. rewrite <- (ztake_zdrop n l) in H. by apply NoDup_app in H as (? & _). Qed.

Lemma NoDup_zdrop (l : list Z) n : NoDup l -> NoDup (zdrop n l).
Proof. intros H. rewrite <- (ztake_zdrop n l) in H. by apply NoDup_app in H as (_ & _ & ?). Qed.

(** The line starts between two cursors. *)
Lemma starts_between b c1 o1 c2 o2 x :
  starts_ok (StringBuffer.lineStarts b) -> cursor_ok b c1 o1 -> cursor_ok b c2 o2 -> o1 <= o2 ->
  x ∈ ztake (BufferCursor.line c2 - BufferCursor.line c1)
        (zdrop (BufferCursor.line c1 + 1) (StringBuffer.lineStarts b))
  <-> x ∈ StringBuffer.lineStarts b /\ o1 < x <= o2.
Proof.
  intros [HS _] H1 H2 Ho. pose proof (cursor_line_mono b _ _ _ _ HS H1 H2 Ho) as Hl.
  destruct H1 as (s1 & H1 & -> & C1 & _ & N1). destruct H2 as (s2 & H2 & -> & C2 & _ & N2).
  pose proof (znth_Some _ _ _ H1). pose proof (znth_Some _ _ _ H2).
  rewrite !elem_znth. split.
  - intros [i Hi]. pose proof (znth_Some _ _ _ Hi) as Bi.
    rewrite zlen_ztake in Bi by (rewrite zlen_zdrop; lia). rewrite znth_ztake in Hi by lia.
    unfold znth, zdrop in Hi. rewrite (proj2 (Z.ltb_ge _ _)), lookup_drop in Hi by lia.
    assert (znth (StringBuffer.lineStarts b) (BufferCursor.line c1 + 1 + i) = Some x) as Hx.
    { unfold znth. rewrite (proj2 (Z.ltb_ge _ _)) by lia. rewrite <- Hi. f_equal. lia. }
    split; [eauto |]. split.
    + destruct (decide (i = 0)) as [-> |]; [apply N1; by rewrite Z.add_0_r in Hx |].
      destruct (num_at_in (StringBuffer.lineStarts b) (BufferCursor.line c1 + 1)) as (n1 & Hn & _); [lia |].
      specialize (N1 _ Hn). pose proof (sorted_znth _ _ _ _ _ HS Hn Hx ltac:(lia)). lia.
    + destruct (decide (BufferCursor.line c1 + 1 + i = BufferCursor.line c2)) as [E |].
      * rewrite E, H2 in Hx. injection Hx as ->. lia.
      * pose proof (sorted_znth _ _ _ _ _ HS Hx H2 ltac:(lia)). lia.
  - intros [[i Hi] [Hx1 Hx2]]. pose proof (znth_Some _ _ _ Hi) as Bi.
    assert (BufferCursor.line c1 < i <= BufferCursor.line c2) as Hrange.
    { split.
      - destruct (decide (i = BufferCursor.line c1)) as [-> |];
          [rewrite H1 in Hi; injection Hi as ->; lia |].
        destruct (decide (i < BufferCursor.line c1)); [| lia].
        pose proof (sorted_znth _ _ _ _ _ HS Hi H1 ltac:(lia)). lia.
      - destruct (decide (i <= BufferCursor.line c2)); [done |].
        destruct (num_at_in (StringBuffer.lineStarts b) (BufferCursor.line c2 + 1)) as (n' & Hn & _); [lia |].
        specialize (N2 _ Hn). destruct (decide (i = BufferCursor.line c2 + 1)) as [-> |].
        + rewrite Hi in Hn. injection Hn as ->. lia.
        + pose proof (sorted_znth _ _ _ _ _ HS Hn Hi ltac:(lia)). lia. }
    exists (i - (BufferCursor.line c1 + 1)). rewrite znth_ztake by lia.
    unfold znth, zdrop in *. rewrite (proj2 (Z.ltb_ge i 0)) in Hi by lia.
    rewrite (proj2 (Z.ltb_ge _ _)), lookup_drop by lia. rewrite <- Hi. f_equal. lia.
Qed.

Lemma js_substring_eq (l : jsstring) s e :
  0 <= s <= e -> e <= zlen l -> js_substring l s e = ztake (e - s) (zdrop s l).
Proof.
  intros. unfold js_substring. rewrite !(Z.max_l _ 0), !(Z.min_l _ (zlen l)) by lia.
  by rewrite Z.max_r, Z.min_l by lia.
Qed.

Lemma znth_substring (l : jsstring) s e k :
  0 <= s <= e -> e <= zlen l -> 0 <= k ->
  znth (js_substring l s e) k = if k <? e - s then znth l (s + k) else None.
Proof.
  intros. rewrite js_substring_eq by done. destruct (Z.ltb_spec k (e - s)).
  - rewrite znth_ztake by lia. unfold znth, zdrop.
    rewrite !(proj2 (Z.ltb_ge _ _)) by lia. rewrite lookup_drop. f_equal. lia.
  - destruct (znth _ k) eqn:Hk; [| done]. apply znth_Some in Hk.
    rewrite zlen_ztake in Hk by (rewrite zlen_zdrop; lia). lia.
Qed.

(** Whether a CR LF pair is cut in two at an offset. *)
Definition splits_crlf (s : jsstring) (o : Z) : Prop :=
  znth s (o - 1) = Some CarriageReturn /\ znth s o = Some LineFeed.

Lemma breaks_substring s o1 o2 k :
  0 <= o1 < o2 -> o2 <= zlen s ->
  breaks_at (js_substring s o1 o2) k <->
  (1 <= k /\ o1 + k <= o2 /\ breaks_at s (o1 + k)) \/ (o1 + k = o2 /\ splits_crlf s o2).
Proof.
  intros Ho Hs. assert (zlen (js_substring s o1 o2) = o2 - o1) as Hl
    by (rewrite js_substring_eq, zlen_ztake by (rewrite ?zlen_zdrop; lia); done).
  assert (forall P : Prop, (breaks_at (js_substring s o1 o2) k -> 1 <= k <= o2 - o1)) as Hk.
  { intros _ H%breaks_at_pos. lia. }
  destruct (decide (1 <= k <= o2 - o1)) as [Hr |].
  - unfold breaks_at, splits_crlf. rewrite !znth_substring by lia.
    rewrite (proj2 (Z.ltb_lt (k - 1) _)) by lia. replace (o1 + (k - 1)) with (o1 + k - 1) by lia.
    destruct (Z.ltb_spec k (o2 - o1)).
    + split; [intros ?; left; split_and!; [lia | lia | done] | intros [(_ & _ & ?) | [? _]]; [done | lia]].
    + replace (o1 + k) with o2 by lia. split.
      * intros [H1 | [H1 _]]; [left; split_and!; [lia | lia | by left] |].
        destruct (decide (znth s o2 = Some LineFeed)); [right; done | left; split_and!; [lia | lia | by right]].
      * intros [(_ & _ & [? | [? ?]]) | (_ & ? & _)]; [by left | by right | by right].
  - split; [intros Hb%(Hk True); lia |].
    intros [(? & ? & ?) | [? _]]; lia.
Qed.

(** The line starts of a range of the text, from the cursors: those of the buffer,
    and the end of the range if it cuts a CR LF in two. *)
Lemma starts_in_range b c1 o1 c2 o2 x :
  buffer_ok b -> cursor_ok b c1 o1 -> cursor_ok b c2 o2 -> 0 <= o1 < o2 ->
  x ∈ (fun k => o1 + k) <$> lineStarts_loop 0 (js_substring (StringBuffer.buffer b) o1 o2) <->
  x ∈ ztake (BufferCursor.line c2 - BufferCursor.line c1) (zdrop (BufferCursor.line c1 + 1) (StringBuffer.lineStarts b)) \/
  (x = o2 /\ splits_crlf (StringBuffer.buffer b) o2).
Proof.
  intros Hb H1 H2 Ho. pose proof (buffer_starts_ok b Hb) as Hst.
  assert (o2 <= zlen (StringBuffer.buffer b)) as Hlen by (destruct H2 as (? & _ & _ & _ & ? & _); done).
  rewrite (starts_between b c1 o1 c2 o2 x Hst H1 H2 ltac:(lia)), (elem_of_starts b x Hb), list_elem_of_fmap. split.
  - intros (k & -> & Hk%lineStarts_loop_spec). rewrite Z.sub_0_r in Hk.
    apply breaks_substring in Hk as [(? & ? & ?) | [? ?]]; [left | right | lia | lia];
      [split; [by right | lia] | done].
  - intros [[[-> | Hx] Hr] | [-> Hsp]]; [lia | |].
    + exists (x - o1). split; [lia |]. apply lineStarts_loop_spec. rewrite Z.sub_0_r.
      apply breaks_substring; [lia | lia |]. left. replace (o1 + (x - o1)) with x by lia.
      split_and!; [lia | lia | done].
    + exists (o2 - o1). split; [lia |]. apply lineStarts_loop_spec. rewrite Z.sub_0_r.
      apply breaks_substring; [lia | lia |]. right. split; [lia | done].
Qed.

(** Strictly increasing lists with the same elements are equal. *)
Lemma sorted_ext (l k : list Z) :
  StronglySorted Z.lt l -> StronglySorted Z.lt k -> (forall x, x ∈ l <-> x ∈ k) -> l = k.
Proof.
  intros Hl. revert k. induction Hl as [| a l Hl IH Ha]; intros k Hk H.
  - destruct k as [| c k]; [done |]. exfalso. apply (not_elem_of_nil c), H. left.
  - destruct Hk as [| c k Hk Hc]; [exfalso; apply (not_elem_of_nil a), H; left |].
    rewrite Forall_forall in Ha, Hc.
    assert (a = c) as ->.
    { assert (a ∈ c :: k) as [-> | Hak]%elem_of_cons by (apply H; left); [done |].
      assert (c ∈ a :: l) as [-> | Hcl]%elem_of_cons by (apply H; left); [done |].
      specialize (Ha _ Hcl). specialize (Hc _ Hak). lia. }
    f_equal. apply IH; [done |]. intros x. specialize (H x). rewrite !elem_of_cons in H. split; intros Hx.
    + destruct H as [H _]. destruct H as [-> | ?]; [by right | specialize (Ha _ Hx); lia | done].
    + destruct H as [_ H]. destruct H as [-> | ?]; [by right | specialize (Hc _ Hx); lia | done].
Qed.

Lemma splits_crlf_dec s o : splits_crlf s o \/ ~ splits_crlf s o.
Proof.
  unfold splits_crlf. destruct (decide (znth s (o - 1) = Some CarriageReturn)),
    (decide (znth s o = Some LineFeed)); tauto.
Qed.

Lemma sorted_take_drop l n k : StronglySorted Z.lt l -> StronglySorted Z.lt (ztake n (zdrop k l)).
Proof.
  intros HS. assert (forall a c : list Z, StronglySorted Z.lt (a ++ c) -> StronglySorted Z.lt a /\ StronglySorted Z.lt c) as H.
  { intros a c. induction a as [| x a IH]; cbn; [split; [constructor | done] |]. intros [Hs Hf]%StronglySorted_inv.
    destruct (IH Hs). split; [| done]. constructor; [done |]. by apply Forall_app in Hf as [? _]. }
  rewrite <- (ztake_zdrop k l) in HS. apply H in HS as [_ HS].
  rewrite <- (ztake_zdrop n (zdrop k l)) in HS. by apply H in HS as [? _].
Qed.

Lemma sorted_shift l d : StronglySorted Z.lt l -> StronglySorted Z.lt ((fun k => d + k) <$> l).
Proof.
  induction 1 as [| x l Hs IH Hf]; cbn; constructor; [done |]. rewrite Forall_fmap. eapply Forall_impl; [exact Hf |].
  intros y Hy. unfold compose. lia.
Qed.

(** The line starts of a range, as a list. *)
Lemma range_starts b c1 o1 c2 o2 :
  buffer_ok b -> cursor_ok b c1 o1 -> cursor_ok b c2 o2 -> 0 <= o1 < o2 ->
  let A := ztake (BufferCursor.line c2 - BufferCursor.line c1) (zdrop (BufferCursor.line c1 + 1) (StringBuffer.lineStarts b)) in
  let L := (fun k => o1 + k) <$> lineStarts_loop 0 (js_substring (StringBuffer.buffer b) o1 o2) in
  (splits_crlf (StringBuffer.buffer b) o2 -> L = A ++ [o2]) /\ (~ splits_crlf (StringBuffer.buffer b) o2 -> L = A).
Proof.
  intros Hb H1 H2 Ho A L. pose proof (buffer_starts_ok b Hb) as Hst.
  pose proof (fun x => starts_between b c1 o1 c2 o2 x Hst H1 H2 ltac:(lia)) as HA. fold A in HA.
  assert (StronglySorted Z.lt A) as SA by (apply sorted_take_drop, Hst).
  assert (StronglySorted Z.lt L) as SL.
  { apply sorted_shift. pose proof (lineStarts_loop_sorted (js_substring (StringBuffer.buffer b) o1 o2) 0) as HS.
    by apply StronglySorted_inv in HS as [HS _]. }
  pose proof (fun x => starts_in_range b c1 o1 c2 o2 x Hb H1 H2 Ho) as HL. fold A L in HL.
  split; intros Hsp; apply sorted_ext; try done.
  - assert (forall x, x ∈ A -> x < o2) as Hlt.
    { intros x [Hx ?]%HA. assert (x <> o2); [| lia]. intros ->. apply (elem_of_starts b o2 Hb) in Hx.
      destruct Hsp as [Hs1 Hs2]. destruct Hx as [? | [Hx | [_ Hx]]]; [lia | |];
        unfold LineFeed, CarriageReturn in *; congruence. }
    clearbody A. clear - SA Hlt. induction SA as [| x A Hs IH Hf]; cbn; [repeat constructor |].
    constructor; [apply IH; intros; apply Hlt; by right |]. apply Forall_app. split; [done |].
    repeat constructor. apply Hlt. left.
  - intros x. rewrite HL, elem_of_app, list_elem_of_singleton. tauto.
  - intros x. rewrite HL. tauto.
Qed.

(** The number of breaks in a range of the text, from the cursors. *)
Lemma count_breaks b c1 o1 c2 o2 :
  buffer_ok b -> cursor_ok b c1 o1 -> cursor_ok b c2 o2 -> 0 <= o1 < o2 ->
  (splits_crlf (StringBuffer.buffer b) o2 ->
     zlen (lineStarts_loop 0 (js_substring (StringBuffer.buffer b) o1 o2))
     = BufferCursor.line c2 - BufferCursor.line c1 + 1) /\
  (~ splits_crlf (StringBuffer.buffer b) o2 ->
     zlen (lineStarts_loop 0 (js_substring (StringBuffer.buffer b) o1 o2))
     = BufferCursor.line c2 - BufferCursor.line c1).
Proof.
  intros Hb H1 H2 Ho. destruct (range_starts b c1 o1 c2 o2 Hb H1 H2 Ho) as [Hy Hn].
  pose proof (cursor_line_mono b _ _ _ _ (proj1 (buffer_starts_ok b Hb)) H1 H2 ltac:(lia)) as Hl.
  assert (zlen (ztake (BufferCursor.line c2 - BufferCursor.line c1) (zdrop (BufferCursor.line c1 + 1) (StringBuffer.lineStarts b)))
    = BufferCursor.line c2 - BufferCursor.line c1) as HlA.
  { destruct H1 as (? & B1%znth_Some & _), H2 as (? & B2%znth_Some & _).
    rewrite zlen_ztake; [lia |]. rewrite zlen_zdrop; lia. }
  assert (forall l : list Z, zlen ((fun k => o1 + k) <$> l) = zlen l) as Hz by (intros; unfold zlen; by rewrite length_fmap).
  split; intros Hsp; rewrite <- Hz; [rewrite Hy by done | rewrite Hn by done]; [| done].
  rewrite zlen_app, HlA. done.
Qed.

(** The code's test for a cut CR LF. *)
Lemma getLineFeedCnt_eq bs i b c1 c2 o2 :
  znth bs i = Some b -> buffer_ok b -> cursor_ok b c2 o2 -> 0 < o2 ->
  (splits_crlf (StringBuffer.buffer b) o2 ->
     getLineFeedCnt bs i c1 c2 = Ret (BufferCursor.line c2 - BufferCursor.line c1 + 1)) /\
  (~ splits_crlf (StringBuffer.buffer b) o2 ->
     getLineFeedCnt bs i c1 c2 = Ret (BufferCursor.line c2 - BufferCursor.line c1)).
Proof.
  intros Hi Hb (s & Hs & Eo & Cc & Lo & Nc) Hpos.
  pose proof (buffer_starts_ok b Hb) as [HS _].
  assert (splits_crlf (StringBuffer.buffer b) o2 <->
    BufferCursor.column c2 <> 0 /\ znth (StringBuffer.lineStarts b) (BufferCursor.line c2 + 1) = Some (o2 + 1) /\
    charCodeAt (StringBuffer.buffer b) (o2 - 1) = 13) as Hsp.
  { assert (o2 ∈ StringBuffer.lineStarts b -> BufferCursor.column c2 = 0) as Hstart.
    { intros [j Hj]%elem_znth. destruct (decide (j = BufferCursor.line c2)) as [-> |].
      - rewrite Hs in Hj. injection Hj as ->. lia.
      - destruct (decide (j < BufferCursor.line c2)).
        + pose proof (sorted_znth _ _ _ _ _ HS Hj Hs ltac:(lia)). lia.
        + pose proof (znth_Some _ _ _ Hj). pose proof (znth_Some _ _ _ Hs).
          destruct (num_at_in (StringBuffer.lineStarts b) (BufferCursor.line c2 + 1)) as (n' & Hn & _); [lia |].
          specialize (Nc _ Hn). destruct (decide (j = BufferCursor.line c2 + 1)) as [-> |].
          * rewrite Hj in Hn. injection Hn as ->. lia.
          * pose proof (sorted_znth _ _ _ _ _ HS Hn Hj ltac:(lia)). lia. }
    unfold charCodeAt. split.
    - intros [H1 H2].
      assert (o2 + 1 ∈ StringBuffer.lineStarts b) as [j Hj]%elem_znth.
      { apply elem_of_starts; [done |]. right. left. by replace (o2 + 1 - 1) with o2 by lia. }
      assert (BufferCursor.line c2 < j) as Hlt.
      { destruct (decide (BufferCursor.line c2 < j)); [done |].
        destruct (decide (j = BufferCursor.line c2)) as [-> |]; [rewrite Hs in Hj; injection Hj; lia |].
        pose proof (sorted_znth _ _ _ _ _ HS Hj Hs ltac:(lia)). lia. }
      split_and!.
      + intros Hc0. assert (o2 ∈ StringBuffer.lineStarts b) as Hin by (apply elem_znth; exists (BufferCursor.line c2); rewrite Hs; f_equal; lia).
        apply elem_of_starts in Hin as [? | [? | [_ ?]]]; [lia | | | done];
          unfold LineFeed, CarriageReturn in *; congruence.
      + pose proof (znth_Some _ _ _ Hj). pose proof (znth_Some _ _ _ Hs).
        destruct (num_at_in (StringBuffer.lineStarts b) (BufferCursor.line c2 + 1)) as (n' & Hn & _); [lia |].
        specialize (Nc _ Hn). destruct (decide (j = BufferCursor.line c2 + 1)) as [-> |]; [done |].
        pose proof (sorted_znth _ _ _ _ _ HS Hn Hj ltac:(lia)). lia.
      + by rewrite H1.
    - intros (Hc0 & Hn & Hch).
      assert (znth (StringBuffer.buffer b) (o2 - 1) = Some CarriageReturn) as Hcr.
      { destruct (znth (StringBuffer.buffer b) (o2 - 1)); cbn in Hch; [by subst | done]. }
      split; [done |].
      assert (o2 + 1 ∈ StringBuffer.lineStarts b) as Hin by (apply elem_znth; eauto).
      apply elem_of_starts in Hin as [? | [Hx | [Hx _]]]; [lia | | | done];
        replace (o2 + 1 - 1) with o2 in Hx by lia; [done |].
      exfalso. apply Hc0, Hstart, elem_of_starts; [done |]. right. right. split; [done |].
      rewrite Hx. unfold LineFeed, CarriageReturn. congruence. }
  unfold getLineFeedCnt, buffer_at. rewrite Hi. cbn [js_get res_bind].
  pose proof (znth_Some _ _ _ Hs) as Bs. rewrite Hsp. clear Hsp.
  destruct (Z.eqb_spec (BufferCursor.column c2) 0) as [Hc0 | Hc0]; [split; [tauto | done] |].
  destruct (Z.eqb_spec (BufferCursor.line c2) (zlen (StringBuffer.lineStarts b) - 1)) as [Hl | Hl].
  - split; [| done]. intros (_ & H%znth_Some & _). lia.
  - destruct (num_at_in (StringBuffer.lineStarts b) (BufferCursor.line c2 + 1)) as (n' & Hn & ->); [lia |].
    rewrite (proj2 (num_at_Ret _ _ _) Hs). cbn [res_bind]. rewrite <- Eo. specialize (Nc _ Hn).
    destruct (Z.ltb_spec (o2 + 1) n').
    + split; [| done]. intros (_ & H1 & _). rewrite Hn in H1. injection H1. lia.
    + assert (n' = o2 + 1) as -> by lia.
      destruct (Z.eqb_spec (charCodeAt (StringBuffer.buffer b) (o2 - 1)) 13); [split; [done | tauto] |].
      split; [intros (_ & _ & ?); done | done].
Qed.

Lemma getLineFeedCnt_ok bs i b c1 o1 c2 o2 :
  znth bs i = Some b -> buffer_ok b -> cursor_ok b c1 o1 -> cursor_ok b c2 o2 -> 0 <= o1 < o2 ->
  getLineFeedCnt bs i c1 c2
    = Ret (zlen (lineStarts_loop 0 (js_substring (StringBuffer.buffer b) o1 o2))).
Proof.
  intros Hi Hb H1 H2 Ho.
  destruct (count_breaks b c1 o1 c2 o2 Hb H1 H2 Ho) as [Hy Hn].
  destruct (getLineFeedCnt_eq bs i b c1 c2 o2 Hi Hb H2 ltac:(lia)) as [Gy Gn].
  destruct (splits_crlf_dec (StringBuffer.buffer b) o2) as [Hs | Hs].
  - by rewrite Gy, Hy.
  - by rewrite Gn, Hn.
Qed.

(** [getLineFeedCnt] counts the line breaks of the text between two cursors,
    taken by itself: a CR whose LF lies behind the end counts, as does an LF
    whose CR lies before the start.  (The cursors are on the line they belong
    to, and the range is not empty.) *)
Lemma getLineFeedCnt_counts bs i b c1 o1 c2 o2 :
  znth bs i = Some b -> buffer_ok b -> cursor_ok b c1 o1 -> cursor_ok b c2 o2 -> 0 <= o1 < o2 ->
  getLineFeedCnt bs i c1 c2
    = Ret (zlen (lineStarts_loop 0 (js_substring (StringBuffer.buffer b) o1 o2))).
Proof. apply getLineFeedCnt_ok. Qed.
