(* ===== verification/PieceTree.v ===== *)
(** * The piece table: state, search cache and reading

    [src/vs/editor/common/model/pieceTreeTextBuffer/pieceTreeBase.ts]: the state
    of [PieceTreeBase] and the operations that read it.  The document is the
    concatenation of the pieces of the red-black tree in order; a piece is a
    range of one of the buffers.  The editing operations are in
    [PieceTreeEdit]. *)

From stdpp Require Import gmap.
From S2P Require Import Prelude Position Range RBTree PieceBuffers.

Definition AverageBufferSize : Z := 65535.

(** ** The state *)

Record CacheEntry := mkEntry {
  ce_node : ref;
  ce_nodeStartOffset : Z;
  ce_nodeStartLineNumber : option Z
}.

Record NodePosition := mkNodePosition {
  np_node : ref;
  np_remainder : Z;
  np_nodeStartOffset : Z
}.

(** The fields of [PieceTreeBase]; [tr] is the heap of tree nodes with [root],
    [_cache] and [_limit] the fields of its [PieceTreeSearchCache]. *)
Record state := mkState {
  tr : tree;
  _buffers : list StringBuffer.t;
  _lineCnt : Z;
  _length : Z;
  _EOL : jsstring;
  _EOLLength : Z;
  _EOLNormalized : bool;
  _lastChangeBufferPos : BufferCursor.t;
  _limit : Z;
  _cache : list CacheEntry;
  _lastVisitedLine : Z * jsstring
}.

Definition set_tr v (s : state) := mkState v (_buffers s) (_lineCnt s) (_length s) (_EOL s) (_EOLLength s)
  (_EOLNormalized s) (_lastChangeBufferPos s) (_limit s) (_cache s) (_lastVisitedLine s).
Definition set_buffers v (s : state) := mkState (tr s) v (_lineCnt s) (_length s) (_EOL s) (_EOLLength s)
  (_EOLNormalized s) (_lastChangeBufferPos s) (_limit s) (_cache s) (_lastVisitedLine s).
Definition set_counts lc len (s : state) := mkState (tr s) (_buffers s) lc len (_EOL s) (_EOLLength s)
  (_EOLNormalized s) (_lastChangeBufferPos s) (_limit s) (_cache s) (_lastVisitedLine s).
Definition set_EOL v (s : state) := mkState (tr s) (_buffers s) (_lineCnt s) (_length s) v (zlen v)
  (_EOLNormalized s) (_lastChangeBufferPos s) (_limit s) (_cache s) (_lastVisitedLine s).
Definition set_EOLNormalized v (s : state) := mkState (tr s) (_buffers s) (_lineCnt s) (_length s) (_EOL s)
  (_EOLLength s) v (_lastChangeBufferPos s) (_limit s) (_cache s) (_lastVisitedLine s).
Definition set_lastChange v (s : state) := mkState (tr s) (_buffers s) (_lineCnt s) (_length s) (_EOL s)
  (_EOLLength s) (_EOLNormalized s) v (_limit s) (_cache s) (_lastVisitedLine s).
Definition set_cache v (s : state) := mkState (tr s) (_buffers s) (_lineCnt s) (_length s) (_EOL s)
  (_EOLLength s) (_EOLNormalized s) (_lastChangeBufferPos s) (_limit s) v (_lastVisitedLine s).
Definition set_lastVisited v (s : state) := mkState (tr s) (_buffers s) (_lineCnt s) (_length s) (_EOL s)
  (_EOLLength s) (_EOLNormalized s) (_lastChangeBufferPos s) (_limit s) (_cache s) v.

(** ** The monad of [PieceTreeBase] *)

Definition P (A : Type) : Type := state -> res (A * state).

#[global] Instance P_ret : MRet P := fun A a s => Ret (a, s).
#[global] Instance P_bind : MBind P := fun A B f m s =>
  match m s with Ret (a, s') => f a s' | Throw e => Throw e end.

Definition pthrow {A} (e : js_error) : P A := fun _ => Throw e.
Definition gets {A} (f : state -> A) : P A := fun s => Ret (f s, s).
Definition modify (f : state -> state) : P unit := fun s => Ret (tt, f s).

(** A tree operation, and an operation on the buffers. *)
Definition rbt {A} (m : M A) : P A := fun s =>
  match m (tr s) with Ret (a, t) => Ret (a, set_tr t s) | Throw e => Throw e end.
Definition bufs {A} (f : list StringBuffer.t -> res A) : P A := fun s =>
  match f (_buffers s) with Ret a => Ret (a, s) | Throw e => Throw e end.

Definition this_root : P ref := rbt get_root.
Definition node_of (x : ref) : P TreeNode.t := rbt (get x).
Definition piece_of (x : ref) : P Piece.t := rbt (get_piece x).
Definition set_piece (x : ref) (p : Piece.t) : P unit := rbt (upd x (TreeNode.with_piece (Some p))).
Definition pfuel : P nat := rbt path_fuel.

Fixpoint piter {B A} (fuel : nat) (body : B -> P (B + A)) (b : B) : P A :=
  match fuel with
  | O => pthrow OutOfFuel
  | S fuel => r ← body b; match r with inl b => piter fuel body b | inr a => mret a end
  end.

(** ** The search cache *)

(** [get]: from the newest entry to the oldest *)
Fixpoint cacheGet_loop (offset : Z) (entries : list CacheEntry) : P (option CacheEntry) :=
  match entries with
  | [] => mret None
  | nodePos :: entries =>
      if ce_nodeStartOffset nodePos <=? offset then
        p ← piece_of (ce_node nodePos);
        if offset <=? ce_nodeStartOffset nodePos + Piece.length p then mret (Some nodePos)
        else cacheGet_loop offset entries
      else cacheGet_loop offset entries
  end.
Definition cacheGet (offset : Z) : P (option CacheEntry) :=
  c ← gets _cache; cacheGet_loop offset (rev c).

(** [get2]; a missing or zero line number is falsy *)
Fixpoint cacheGet2_loop (lineNumber : Z) (entries : list CacheEntry) : P (option (CacheEntry * Z)) :=
  match entries with
  | [] => mret None
  | nodePos :: entries =>
      match ce_nodeStartLineNumber nodePos with
      | Some l =>
          if (l !== 0) && (l <? lineNumber) then
            p ← piece_of (ce_node nodePos);
            if lineNumber <=? l + Piece.lineFeedCnt p then mret (Some (nodePos, l))
            else cacheGet2_loop lineNumber entries
          else cacheGet2_loop lineNumber entries
      | None => cacheGet2_loop lineNumber entries
      end
  end.
Definition cacheGet2 (lineNumber : Z) : P (option (CacheEntry * Z)) :=
  c ← gets _cache; cacheGet2_loop lineNumber (rev c).

Definition cacheSet (nodePosition : CacheEntry) : P unit :=
  c ← gets _cache;
  lim ← gets _limit;
  let c := if lim <=? zlen c then tail c else c in
  modify (set_cache (c ++ [nodePosition])).

(** [validate]: drops the entries of detached nodes and those from [offset] on *)
Fixpoint cacheValidate_loop (offset : Z) (entries : list CacheEntry) : P (list CacheEntry) :=
  match entries with
  | [] => mret []
  | nodePos :: entries =>
      n ← node_of (ce_node nodePos);
      rest ← cacheValidate_loop offset entries;
      if same (TreeNode.parent n) NULL || (offset <=? ce_nodeStartOffset nodePos) then mret rest
      else mret (nodePos :: rest)
  end.
Definition cacheValidate (offset : Z) : P unit :=
  c ← gets _cache;
  c ← cacheValidate_loop offset c;
  modify (set_cache c).

(** ** Node content and iteration *)

Definition getNodeContent (node : ref) : P jsstring :=
  if same node SENTINEL then mret [] else
  piece ← piece_of node;
  bufs (fun bs => getPieceContent bs piece).

(** [iterate]: in order, [SENTINEL] at every missing child, until the callback
    returns false; [b] is what the callback's closure accumulates. *)
Fixpoint iterate_rec {B} (fuel : nat) (node : ref) (callback : ref -> B -> P (B * bool)) (b : B)
    : P (B * bool) :=
  match fuel with
  | O => pthrow OutOfFuel
  | S fuel =>
      if same node SENTINEL then callback SENTINEL b else
      n ← node_of node;
      r ← iterate_rec fuel (TreeNode.left n) callback b;
      if negb (snd r) then mret r else
      r ← callback node (fst r);
      if negb (snd r) then mret r else
      n ← node_of node;
      iterate_rec fuel (TreeNode.right n) callback (fst r)
  end.
Definition iterate {B} (node : ref) (callback : ref -> B -> P (B * bool)) (b : B) : P (B * bool) :=
  fuel ← pfuel; iterate_rec fuel node callback b.

Definition getContentOfSubTree (node : ref) : P jsstring :=
  r ← iterate node (fun node str => c ← getNodeContent node; mret (str ++ c, true)) [];
  mret (fst r).

Definition getLinesRawContent : P jsstring := r ← this_root; getContentOfSubTree r.

(** ** Offsets and positions *)

Definition getOffsetAt (lineNumber column : Z) : P Z :=
  x ← this_root;
  fuel ← pfuel;
  piter fuel (fun '(x, lineNumber, leftLen) =>
    if same x SENTINEL then mret (inr leftLen) else
    n ← node_of x;
    if negb (same (TreeNode.left n) SENTINEL) && (lineNumber <=? TreeNode.lf_left n + 1) then
      mret (inl (TreeNode.left n, lineNumber, leftLen))
    else
      p ← piece_of x;
      if lineNumber <=? TreeNode.lf_left n + Piece.lineFeedCnt p + 1 then
        let leftLen := leftLen + TreeNode.size_left n in
        acc ← bufs (fun bs => getAccumulatedValue bs p (lineNumber - TreeNode.lf_left n - 2));
        mret (inr (leftLen + (acc + column - 1)))
      else
        mret (inl (TreeNode.right n, lineNumber - (TreeNode.lf_left n + Piece.lineFeedCnt p),
                   leftLen + (TreeNode.size_left n + Piece.length p)))) (x, lineNumber, 0).

(** Offsets are integers here, so [Math.floor] is the identity. *)
Definition getPositionAt (offset : Z) : P Position.t :=
  let offset := Z.max 0 offset in
  let originalOffset := offset in
  x ← this_root;
  fuel ← pfuel;
  piter fuel (fun '(x, offset, lfCnt) =>
    if same x SENTINEL then mret (inr (Position.new 1 1)) else
    n ← node_of x;
    if (TreeNode.size_left n !== 0) && (offset <=? TreeNode.size_left n) then
      mret (inl (TreeNode.left n, offset, lfCnt))
    else
      p ← piece_of x;
      if offset <=? TreeNode.size_left n + Piece.length p then
        out ← bufs (fun bs => getIndexOf bs p (offset - TreeNode.size_left n));
        let lfCnt := lfCnt + (TreeNode.lf_left n + fst out) in
        if fst out === 0 then
          lineStartOffset ← getOffsetAt (lfCnt + 1) 1;
          let column := originalOffset - lineStartOffset in
          mret (inr (Position.new (lfCnt + 1) (column + 1)))
        else mret (inr (Position.new (lfCnt + 1) (snd out + 1)))
      else
        let offset := offset - (TreeNode.size_left n + Piece.length p) in
        let lfCnt := lfCnt + (TreeNode.lf_left n + Piece.lineFeedCnt p) in
        if same (TreeNode.right n) SENTINEL then
          lineStartOffset ← getOffsetAt (lfCnt + 1) 1;
          let column := originalOffset - offset - lineStartOffset in
          mret (inr (Position.new (lfCnt + 1) (column + 1)))
        else mret (inl (TreeNode.right n, offset, lfCnt))) (x, offset, 0).

(** [nodeAt] and [nodeAt2]; [None] is the [null] they return when they find
    nothing *)
Definition nodeAt (offset : Z) : P (option NodePosition) :=
  x ← this_root;
  cache ← cacheGet offset;
  match cache with
  | Some cache =>
      mret (Some (mkNodePosition (ce_node cache) (offset - ce_nodeStartOffset cache)
                    (ce_nodeStartOffset cache)))
  | None =>
      fuel ← pfuel;
      piter fuel (fun '(x, offset, nodeStartOffset) =>
        if same x SENTINEL then mret (inr None) else
        n ← node_of x;
        if offset <? TreeNode.size_left n then mret (inl (TreeNode.left n, offset, nodeStartOffset))
        else
          p ← piece_of x;
          if offset <=? TreeNode.size_left n + Piece.length p then
            let nodeStartOffset := nodeStartOffset + TreeNode.size_left n in
            let ret := mkNodePosition x (offset - TreeNode.size_left n) nodeStartOffset in
            cacheSet (mkEntry x nodeStartOffset None);;
            mret (inr (Some ret))
          else
            mret (inl (TreeNode.right n, offset - (TreeNode.size_left n + Piece.length p),
                       nodeStartOffset + (TreeNode.size_left n + Piece.length p)))) (x, offset, 0)
  end.

Definition offsetOfNode (node : ref) : P Z :=
  n ← node_of node;
  fuel ← pfuel;
  piter fuel (fun '(node, pos) =>
    r ← this_root;
    if negb (same node r) then
      n ← node_of node;
      pn ← node_of (TreeNode.parent n);
      if same (TreeNode.right pn) node then
        pp ← piece_of (TreeNode.parent n);
        mret (inl (TreeNode.parent n, pos + (TreeNode.size_left pn + Piece.length pp)))
      else mret (inl (TreeNode.parent n, pos))
    else mret (inr pos)) (node, TreeNode.size_left n).

(** the descent of [nodeAt2]: the position, or the node to search on from with
    the column left *)
Definition nodeAt2_descend (lineNumber column : Z) : P (NodePosition + ref * Z) :=
  x ← this_root;
  fuel ← pfuel;
  piter fuel (fun '(x, lineNumber, nodeStartOffset) =>
    if same x SENTINEL then mret (inr (inr (x, column))) else
    n ← node_of x;
    if negb (same (TreeNode.left n) SENTINEL) && (lineNumber - 1 <=? TreeNode.lf_left n) then
      mret (inl (TreeNode.left n, lineNumber, nodeStartOffset))
    else
      p ← piece_of x;
      let lf := TreeNode.lf_left n + Piece.lineFeedCnt p in
      if lineNumber - 1 <? lf then
        prevAcc ← bufs (fun bs => getAccumulatedValue bs p (lineNumber - TreeNode.lf_left n - 2));
        acc ← bufs (fun bs => getAccumulatedValue bs p (lineNumber - TreeNode.lf_left n - 1));
        mret (inr (inl (mkNodePosition x (Z.min (prevAcc + column - 1) acc)
                          (nodeStartOffset + TreeNode.size_left n))))
      else if lf === lineNumber - 1 then
        prevAcc ← bufs (fun bs => getAccumulatedValue bs p (lineNumber - TreeNode.lf_left n - 2));
        if prevAcc + column - 1 <=? Piece.length p then
          mret (inr (inl (mkNodePosition x (prevAcc + column - 1) nodeStartOffset)))
        else mret (inr (inr (x, column - (Piece.length p - prevAcc))))
      else
        mret (inl (TreeNode.right n, lineNumber - lf,
                   nodeStartOffset + (TreeNode.size_left n + Piece.length p))))
    (x, lineNumber, 0).

Definition nodeAt2 (lineNumber column : Z) : P (option NodePosition) :=
  r ← nodeAt2_descend lineNumber column;
  match r with
  | inl pos => mret (Some pos)
  | inr (x, column) =>
      x ← rbt (next x);
      fuel ← pfuel;
      piter fuel (fun '(x, column) =>
        if same x SENTINEL then mret (inr None) else
        p ← piece_of x;
        if 0 <? Piece.lineFeedCnt p then
          acc ← bufs (fun bs => getAccumulatedValue bs p 0);
          nodeStartOffset ← offsetOfNode x;
          mret (inr (Some (mkNodePosition x (Z.min (column - 1) acc) nodeStartOffset)))
        else if column - 1 <=? Piece.length p then
          nodeStartOffset ← offsetOfNode x;
          mret (inr (Some (mkNodePosition x (column - 1) nodeStartOffset)))
        else
          x' ← rbt (next x);
          mret (inl (x', column - Piece.length p))) (x, column)
  end.

(** Reading a field of [null] throws. *)
Definition nonnull {A} (o : option A) : P A :=
  match o with Some a => mret a | None => pthrow TypeError end.

(** ** Text *)

(** [str.replace(/\r\n|\r|\n/g, eol)] *)
Fixpoint replace_eol (eol : jsstring) (str : jsstring) : jsstring :=
  match str with
  | [] => []
  | c :: str1 =>
      if c === CarriageReturn then
        match str1 with
        | d :: str2 => if d === LineFeed then eol ++ replace_eol eol str2 else eol ++ replace_eol eol str1
        | [] => eol
        end
      else if c === LineFeed then eol ++ replace_eol eol str1
      else c :: replace_eol eol str1
  end.

(** [str.replace(/(\r\n|\r|\n)$/, '')] *)
Definition trim_eol (str : jsstring) : jsstring :=
  match rev str with
  | c :: d :: r => if (c === LineFeed) && (d === CarriageReturn) then rev r
                   else if (c === LineFeed) || (c === CarriageReturn) then rev (d :: r) else str
  | [c] => if (c === LineFeed) || (c === CarriageReturn) then [] else str
  | [] => []
  end.

Definition buffer_text (bs : list StringBuffer.t) (p : Piece.t) : res jsstring :=
  let* b := buffer_at bs (Piece.bufferIndex p) in Ret (StringBuffer.buffer b).

Definition getValueInRange2 (startPosition endPosition : NodePosition) : P jsstring :=
  if same (np_node startPosition) (np_node endPosition) then
    p ← piece_of (np_node startPosition);
    buffer ← bufs (fun bs => buffer_text bs p);
    startOffset ← bufs (fun bs => offsetInBuffer bs (Piece.bufferIndex p) (Piece.start p));
    mret (js_substring buffer (startOffset + np_remainder startPosition)
            (startOffset + np_remainder endPosition))
  else
    p ← piece_of (np_node startPosition);
    buffer ← bufs (fun bs => buffer_text bs p);
    startOffset ← bufs (fun bs => offsetInBuffer bs (Piece.bufferIndex p) (Piece.start p));
    let ret := js_substring buffer (startOffset + np_remainder startPosition)
                 (startOffset + Piece.length p) in
    x ← rbt (next (np_node startPosition));
    fuel ← pfuel;
    piter fuel (fun '(x, ret) =>
      if same x SENTINEL then mret (inr ret) else
      p ← piece_of x;
      buffer ← bufs (fun bs => buffer_text bs p);
      startOffset ← bufs (fun bs => offsetInBuffer bs (Piece.bufferIndex p) (Piece.start p));
      if same x (np_node endPosition) then
        mret (inr (ret ++ js_substring buffer startOffset (startOffset + np_remainder endPosition)))
      else
        x' ← rbt (next x);
        mret (inl (x', ret ++ js_substr buffer startOffset (Piece.length p)))) (x, ret).

Definition getValueInRange (range : Range.t) (eol : option jsstring) : P jsstring :=
  if (Range.startLineNumber range === Range.endLineNumber range)
     && (Range.startColumn range === Range.endColumn range) then mret [] else
  startPosition ← nodeAt2 (Range.startLineNumber range) (Range.startColumn range);
  endPosition ← nodeAt2 (Range.endLineNumber range) (Range.endColumn range);
  startPosition ← nonnull startPosition;
  endPosition ← nonnull endPosition;
  value ← getValueInRange2 startPosition endPosition;
  match eol with
  | Some ((_ :: _) as eol) =>
      thisEOL ← gets _EOL;
      normalized ← gets _EOLNormalized;
      if negb (bool_decide (eol = thisEOL)) || negb normalized then mret (replace_eol eol value)
      else mret value
  | _ => mret value
  end.

Definition getLength : P Z := gets _length.
Definition getLineCount : P Z := gets _lineCnt.
Definition getEOL : P jsstring := gets _EOL.

(** the search of [getLineRawContent] without a cache entry: the finished line,
    or the node its text so far ends in *)
Definition getLineRaw_descend (lineNumber endOffset : Z) : P (jsstring + ref * jsstring) :=
  let originalLineNumber := lineNumber in
  x ← this_root;
  fuel ← pfuel;
  piter fuel (fun '(x, lineNumber, nodeStartOffset) =>
    if same x SENTINEL then mret (inr (inr (x, []))) else
    n ← node_of x;
    if negb (same (TreeNode.left n) SENTINEL) && (lineNumber - 1 <=? TreeNode.lf_left n) then
      mret (inl (TreeNode.left n, lineNumber, nodeStartOffset))
    else
      p ← piece_of x;
      let lf := TreeNode.lf_left n + Piece.lineFeedCnt p in
      if lineNumber - 1 <? lf then
        prevAcc ← bufs (fun bs => getAccumulatedValue bs p (lineNumber - TreeNode.lf_left n - 2));
        acc ← bufs (fun bs => getAccumulatedValue bs p (lineNumber - TreeNode.lf_left n - 1));
        buffer ← bufs (fun bs => buffer_text bs p);
        startOffset ← bufs (fun bs => offsetInBuffer bs (Piece.bufferIndex p) (Piece.start p));
        cacheSet (mkEntry x (nodeStartOffset + TreeNode.size_left n)
                    (Some (originalLineNumber - (lineNumber - 1 - TreeNode.lf_left n))));;
        mret (inr (inl (js_substring buffer (startOffset + prevAcc) (startOffset + acc - endOffset))))
      else if lf === lineNumber - 1 then
        prevAcc ← bufs (fun bs => getAccumulatedValue bs p (lineNumber - TreeNode.lf_left n - 2));
        buffer ← bufs (fun bs => buffer_text bs p);
        startOffset ← bufs (fun bs => offsetInBuffer bs (Piece.bufferIndex p) (Piece.start p));
        mret (inr (inr (x, js_substring buffer (startOffset + prevAcc) (startOffset + Piece.length p))))
      else
        mret (inl (TreeNode.right n, lineNumber - lf,
                   nodeStartOffset + (TreeNode.size_left n + Piece.length p))))
    (x, lineNumber, 0).

Definition getLineRaw_cached (lineNumber endOffset : Z) (cache : CacheEntry) (startLine : Z)
    : P (jsstring + ref * jsstring) :=
  let x := ce_node cache in
  p ← piece_of x;
  prevAcc ← bufs (fun bs => getAccumulatedValue bs p (lineNumber - startLine - 1));
  buffer ← bufs (fun bs => buffer_text bs p);
  startOffset ← bufs (fun bs => offsetInBuffer bs (Piece.bufferIndex p) (Piece.start p));
  if startLine + Piece.lineFeedCnt p === lineNumber then
    mret (inr (x, js_substring buffer (startOffset + prevAcc) (startOffset + Piece.length p)))
  else
    acc ← bufs (fun bs => getAccumulatedValue bs p (lineNumber - startLine));
    mret (inl (js_substring buffer (startOffset + prevAcc) (startOffset + acc - endOffset))).

Definition getLineRawContent (lineNumber endOffset : Z) : P jsstring :=
  cache ← cacheGet2 lineNumber;
  r ← (match cache with
       | Some (cache, startLine) => getLineRaw_cached lineNumber endOffset cache startLine
       | None => getLineRaw_descend lineNumber endOffset
       end);
  match r with
  | inl ret => mret ret
  | inr (x, ret) =>
      x ← rbt (next x);
      fuel ← pfuel;
      piter fuel (fun '(x, ret) =>
        if same x SENTINEL then mret (inr ret) else
        p ← piece_of x;
        buffer ← bufs (fun bs => buffer_text bs p);
        if 0 <? Piece.lineFeedCnt p then
          acc ← bufs (fun bs => getAccumulatedValue bs p 0);
          startOffset ← bufs (fun bs => offsetInBuffer bs (Piece.bufferIndex p) (Piece.start p));
          mret (inr (ret ++ js_substring buffer startOffset (startOffset + acc - endOffset)))
        else
          startOffset ← bufs (fun bs => offsetInBuffer bs (Piece.bufferIndex p) (Piece.start p));
          x' ← rbt (next x);
          mret (inl (x', ret ++ js_substr buffer startOffset (Piece.length p)))) (x, ret)
  end.

Definition getLineContent (lineNumber : Z) : P jsstring :=
  last ← gets _lastVisitedLine;
  if fst last === lineNumber then mret (snd last) else
  modify (set_lastVisited (lineNumber, snd last));;
  lineCnt ← gets _lineCnt;
  normalized ← gets _EOLNormalized;
  value ← (if lineNumber === lineCnt then getLineRawContent lineNumber 0
           else if normalized : bool then eolLength ← gets _EOLLength; getLineRawContent lineNumber eolLength
           else raw ← getLineRawContent lineNumber 0; mret (trim_eol raw));
  modify (set_lastVisited (lineNumber, value));;
  mret value.

(** [next] returns [SENTINEL] at the end, never a falsy value *)
Definition _getCharCode (nodePos : NodePosition) : P Z :=
  p ← piece_of (np_node nodePos);
  if np_remainder nodePos === Piece.length p then
    matchingNode ← rbt (next (np_node nodePos));
    p ← piece_of matchingNode;
    buffer ← bufs (fun bs => buffer_text bs p);
    startOffset ← bufs (fun bs => offsetInBuffer bs (Piece.bufferIndex p) (Piece.start p));
    mret (charCodeAt buffer startOffset)
  else
    buffer ← bufs (fun bs => buffer_text bs p);
    startOffset ← bufs (fun bs => offsetInBuffer bs (Piece.bufferIndex p) (Piece.start p));
    mret (charCodeAt buffer (startOffset + np_remainder nodePos)).

Definition getLineCharCode (lineNumber index : Z) : P Z :=
  nodePos ← nodeAt2 lineNumber (index + 1);
  nodePos ← nonnull nodePos;
  _getCharCode nodePos.

Definition getCharCode (offset : Z) : P Z :=
  nodePos ← nodeAt offset;
  nodePos ← nonnull nodePos;
  _getCharCode nodePos.

Definition getLineLength (lineNumber : Z) : P Z :=
  cnt ← getLineCount;
  if lineNumber === cnt then
    startOffset ← getOffsetAt lineNumber 1;
    len ← getLength;
    mret (len - startOffset)
  else
    o2 ← getOffsetAt (lineNumber + 1) 1;
    o1 ← getOffsetAt lineNumber 1;
    eolLength ← gets _EOLLength;
    mret (o2 - o1 - eolLength).

(** The variables [getLinesContent]'s callback updates; [lines] holds the first
    [linesLength] entries of the array. *)
Record linesAcc := mkLines { lines : list jsstring; currentLine : jsstring; danglingCR : bool }.

(** the lines that lie wholly in the piece: [from + 1], ..., before [to] *)
Fixpoint middleLines (n : nat) (from : Z) (normalized : bool) (eolLength : Z) (buffer : jsstring)
    (ls : list Z) (acc : linesAcc) : res linesAcc :=
  match n with
  | O => Ret acc
  | S n =>
      let line := from in
      let* a := num_at ls line in
      let* b := num_at ls (line + 1) in
      let cur := if normalized then js_substring buffer a (b - eolLength)
                 else trim_eol (js_substring buffer a b) in
      middleLines n (from + 1) normalized eolLength buffer ls
        (mkLines (lines acc ++ [cur]) cur (danglingCR acc))
  end.

(** the callback on a piece of positive length, after the text of a carried
    over CR *)
Definition linesOfPiece (normalized : bool) (eolLength : Z) (b : StringBuffer.t) (piece : Piece.t)
    (pieceStartOffset pieceLength : Z) (acc : linesAcc) : res linesAcc :=
  let buffer := StringBuffer.buffer b in
  let ls := StringBuffer.lineStarts b in
  let pieceStartLine := BufferCursor.line (Piece.start piece) in
  let pieceEndLine := BufferCursor.line (Piece.end_ piece) in
  if pieceStartLine === pieceEndLine then
    if negb normalized && (charCodeAt buffer (pieceStartOffset + pieceLength - 1) === CarriageReturn) then
      Ret (mkLines (lines acc) (currentLine acc ++ js_substr buffer pieceStartOffset (pieceLength - 1)) true)
    else
      Ret (mkLines (lines acc) (currentLine acc ++ js_substr buffer pieceStartOffset pieceLength)
             (danglingCR acc))
  else
    let* s1 := num_at ls (pieceStartLine + 1) in
    let cur := currentLine acc ++
      (if normalized then js_substring buffer pieceStartOffset (Z.max pieceStartOffset (s1 - eolLength))
       else trim_eol (js_substring buffer pieceStartOffset s1)) in
    let acc := mkLines (lines acc ++ [cur]) cur (danglingCR acc) in
    let* acc := middleLines (Z.to_nat (pieceEndLine - pieceStartLine - 1)) (pieceStartLine + 1)
                  normalized eolLength buffer ls acc in
    let* e := num_at ls pieceEndLine in
    let endColumn := BufferCursor.column (Piece.end_ piece) in
    if negb normalized && (charCodeAt buffer (e + endColumn - 1) === CarriageReturn) then
      if endColumn === 0 then Ret (mkLines (removelast (lines acc)) (currentLine acc) true)
      else Ret (mkLines (lines acc) (js_substr buffer e (endColumn - 1)) true)
    else Ret (mkLines (lines acc) (js_substr buffer e endColumn) (danglingCR acc)).

Definition getLinesContent : P (list jsstring) :=
  normalized ← gets _EOLNormalized;
  eolLength ← gets _EOLLength;
  r ← this_root;
  r ← iterate r (fun node acc =>
    if same node SENTINEL then mret (acc, true) else
    piece ← piece_of node;
    let pieceLength := Piece.length piece in
    if pieceLength === 0 then mret (acc, true) else
    b ← bufs (fun bs => buffer_at bs (Piece.bufferIndex piece));
    s ← bufs (fun _ => num_at (StringBuffer.lineStarts b) (BufferCursor.line (Piece.start piece)));
    let pieceStartOffset := s + BufferCursor.column (Piece.start piece) in
    if danglingCR acc then
      let isLF := charCodeAt (StringBuffer.buffer b) pieceStartOffset === LineFeed in
      let pieceStartOffset := if isLF then pieceStartOffset + 1 else pieceStartOffset in
      let pieceLength := if isLF then pieceLength - 1 else pieceLength in
      let acc := mkLines (lines acc ++ [currentLine acc]) [] false in
      if pieceLength === 0 then mret (acc, true) else
      acc ← bufs (fun _ => linesOfPiece normalized eolLength b piece pieceStartOffset pieceLength acc);
      mret (acc, true)
    else
      acc ← bufs (fun _ => linesOfPiece normalized eolLength b piece pieceStartOffset pieceLength acc);
      mret (acc, true)) (mkLines [] [] false);
  let acc := fst r in
  let acc := if danglingCR acc then mkLines (lines acc ++ [currentLine acc]) [] (danglingCR acc) else acc in
  mret (lines acc ++ [currentLine acc]).

(** ** Comparison *)

(** [equal] with another object [other], which keeps its own state: its [nodeAt]
    fills its search cache.  Returns the answer and the state of [other]. *)
Definition equal (other : state) : P (bool * state) :=
  len ← getLength;
  cnt ← getLineCount;
  if (len !== _length other) || (cnt !== _lineCnt other) then mret (false, other) else
  r ← this_root;
  r ← iterate r (fun node '(offset, other) =>
    if same node SENTINEL then mret ((offset, other), true) else
    str ← getNodeContent node;
    r ← bufs (fun _ => (startPosition ← nodeAt offset;
                        endPosition ← nodeAt (offset + zlen str);
                        startPosition ← nonnull startPosition;
                        endPosition ← nonnull endPosition;
                        getValueInRange2 startPosition endPosition) other);
    mret ((offset + zlen str, snd r), bool_decide (str = fst r))) (0, other);
  mret (snd r, snd (fst r)).

(** ** Snapshots *)

(** [PieceTreeSnapshot]; its [_tree] is the state it is read in *)
Record PieceTreeSnapshot := mkSnapshot {
  sn_pieces : list Piece.t;
  sn_index : Z;
  sn_BOM : jsstring
}.

Definition createSnapshot (BOM : jsstring) : P PieceTreeSnapshot :=
  r ← this_root;
  if negb (same r SENTINEL) then
    r ← iterate r (fun node pieces =>
      if negb (same node SENTINEL) then p ← piece_of node; mret (pieces ++ [p], true)
      else mret (pieces, true)) [];
    mret (mkSnapshot (fst r) 0 BOM)
  else mret (mkSnapshot [] 0 BOM).

(** [read]: the next part of the text, [None] for [null] *)
Definition read (sn : PieceTreeSnapshot) : P (option jsstring * PieceTreeSnapshot) :=
  let sn' := mkSnapshot (sn_pieces sn) (sn_index sn + 1) (sn_BOM sn) in
  if zlen (sn_pieces sn) === 0 then
    if sn_index sn === 0 then mret (Some (sn_BOM sn), sn') else mret (None, sn)
  else if zlen (sn_pieces sn) - 1 <? sn_index sn then mret (None, sn)
  else
    p ← nonnull (znth (sn_pieces sn) (sn_index sn));
    content ← bufs (fun bs => getPieceContent bs p);
    if sn_index sn === 0 then mret (Some (sn_BOM sn ++ content), sn')
    else mret (Some content, sn').
