(* ===== verification/PieceTreeEdit.v ===== *)
(** * The piece table: editing

    The operations of [PieceTreeBase] in
    [src/vs/editor/common/model/pieceTreeTextBuffer/pieceTreeBase.ts] that change
    the document: node insertion, new pieces, the changes of one node, the
    handling of CR LF pairs across nodes, [insert], [delete], [create] and the
    end-of-line normalisation. *)

From stdpp Require Import gmap.
From S2P Require Import Prelude RBTree RBTreeRep RBTreeOps RBTreeInsert PieceBuffers PieceTree.

(** ** Node insertion *)

(** A reference no node of the heap has. *)
Definition fresh_ref (h : gmap ref TreeNode.t) : ref := S (max_list (elements (dom h))).

(** [new TreeNode(p, Red)] with its references set to [SENTINEL] *)
Definition alloc (p : Piece.t) : M ref := fun t =>
  let z := fresh_ref (heap t) in
  Ret (z, mkTree (<[z := TreeNode.mk SENTINEL SENTINEL SENTINEL Red (Some p) 0 0]> (heap t)) (root t)).

Definition rbInsertRight (node : ref) (p : Piece.t) : M ref :=
  z ← alloc p;
  x ← get_root;
  (if same x SENTINEL then set_root z;; set_color z Black else
   nr ← get_right node;
   if same nr SENTINEL then set_right node z;; set_parent z node
   else
     nextNode ← leftest nr;
     set_left nextNode z;;
     set_parent z nextNode);;
  fixInsert z;;
  mret z.

Definition rbInsertLeft (node : ref) (p : Piece.t) : M ref :=
  z ← alloc p;
  x ← get_root;
  (if same x SENTINEL then set_root z;; set_color z Black else
   nl ← get_left node;
   if same nl SENTINEL then set_left node z;; set_parent z node
   else
     prevNode ← righttest nl;
     set_right prevNode z;;
     set_parent z prevNode);;
  fixInsert z;;
  mret z.

(** ** Metadata of the whole document *)

Definition computeBufferMetadata : P unit :=
  x ← this_root;
  fuel ← pfuel;
  r ← piter fuel (fun '(x, lfCnt, len) =>
    if same x SENTINEL then mret (inr (lfCnt, len)) else
    n ← node_of x;
    p ← piece_of x;
    mret (inl (TreeNode.right n, lfCnt + (TreeNode.lf_left n + Piece.lineFeedCnt p),
               len + (TreeNode.size_left n + Piece.length p)))) (x, 1, 0);
  modify (set_counts (fst r) (snd r));;
  cacheValidate (snd r).

(** ** CR LF *)

Definition shouldCheckCRLF : P bool :=
  normalized ← gets _EOLNormalized;
  eol ← gets _EOL;
  mret (negb (normalized && bool_decide (eol = [LineFeed]))).

(** [startWithLF] and [endWithCR] of a string *)
Definition startWithLF_str (val : jsstring) : bool := charCodeAt val 0 === 10.
Definition endWithCR_str (val : jsstring) : bool := charCodeAt val (zlen val - 1) === 13.

Definition nodeCharCodeAt (node : ref) (offset : Z) : P Z :=
  p ← piece_of node;
  if Piece.lineFeedCnt p <? 1 then mret (-1) else
  buffer ← bufs (fun bs => buffer_text bs p);
  o ← bufs (fun bs => offsetInBuffer bs (Piece.bufferIndex p) (Piece.start p));
  mret (charCodeAt buffer (o + offset)).

Definition startWithLF (val : ref) : P bool :=
  if same val SENTINEL then mret false else
  piece ← piece_of val;
  if Piece.lineFeedCnt piece === 0 then mret false else
  b ← bufs (fun bs => buffer_at bs (Piece.bufferIndex piece));
  let ls := StringBuffer.lineStarts b in
  let line := BufferCursor.line (Piece.start piece) in
  s ← bufs (fun _ => num_at ls line);
  let startOffset := s + BufferCursor.column (Piece.start piece) in
  if line === zlen ls - 1 then mret false else
  nextLineOffset ← bufs (fun _ => num_at ls (line + 1));
  if startOffset + 1 <? nextLineOffset then mret false else
  mret (charCodeAt (StringBuffer.buffer b) startOffset === 10).

Definition endWithCR (val : ref) : P bool :=
  if same val SENTINEL then mret false else
  p ← piece_of val;
  if Piece.lineFeedCnt p === 0 then mret false else
  c ← nodeCharCodeAt val (Piece.length p - 1);
  mret (c === 13).

(** ** New pieces *)

(** a piece for a new buffer of its own *)
Definition pushBuffer (text : jsstring) : P Piece.t :=
  bs ← gets _buffers;
  let ls := createLineStartsFast text true in
  lastStart ← nonnull (last ls);
  modify (set_buffers (bs ++ [StringBuffer.mk text ls]));;
  mret (Piece.mk (zlen bs) (BufferCursor.mk 0 0)
          (BufferCursor.mk (zlen ls - 1) (zlen text - lastStart)) (zlen ls - 1) (zlen text)).

(** the [while] loop over a large text *)
Fixpoint largePieces (fuel : nat) (text : jsstring) (newPieces : list Piece.t) : P (list Piece.t) :=
  match fuel with
  | O => pthrow OutOfFuel
  | S fuel =>
      if AverageBufferSize <? zlen text then
        let lastChar := charCodeAt text (AverageBufferSize - 1) in
        let n := if (lastChar === CarriageReturn) || ((55296 <=? lastChar) && (lastChar <=? 56319))
                 then AverageBufferSize - 1 else AverageBufferSize in
        p ← pushBuffer (js_substring text 0 n);
        largePieces fuel (js_substring text n (zlen text)) (newPieces ++ [p])
      else
        p ← pushBuffer text;
        mret (newPieces ++ [p])
  end.

Definition createNewPieces (text : jsstring) : P (list Piece.t) :=
  if AverageBufferSize <? zlen text then largePieces (S (List.length text)) text [] else
  bs ← gets _buffers;
  b0 ← nonnull (head bs);
  let startOffset := zlen (StringBuffer.buffer b0) in
  let ls := createLineStartsFast text false in
  start ← gets _lastChangeBufferPos;
  r ← (if bool_decide (last (StringBuffer.lineStarts b0) = Some startOffset)
          && (startOffset !== 0) && startWithLF_str text && endWithCR_str (StringBuffer.buffer b0)
       then
         let start := BufferCursor.mk (BufferCursor.line start) (BufferCursor.column start + 1) in
         modify (set_lastChange start);;
         let ls := (fun x => x + (startOffset + 1)) <$> ls in
         mret (start, StringBuffer.mk (StringBuffer.buffer b0 ++ 95 :: text)
                        (StringBuffer.lineStarts b0 ++ tail ls), startOffset + 1)
       else
         let ls := if startOffset !== 0 then (fun x => x + startOffset) <$> ls else ls in
         mret (start, StringBuffer.mk (StringBuffer.buffer b0 ++ text)
                        (StringBuffer.lineStarts b0 ++ tail ls), startOffset));
  let '(start, b0, startOffset) := r in
  modify (set_buffers (b0 :: tail bs));;
  let endOffset := zlen (StringBuffer.buffer b0) in
  let endIndex := zlen (StringBuffer.lineStarts b0) - 1 in
  lastStart ← bufs (fun _ => num_at (StringBuffer.lineStarts b0) endIndex);
  let endPos := BufferCursor.mk endIndex (endOffset - lastStart) in
  lfc ← bufs (fun bs => getLineFeedCnt bs 0 start endPos);
  let newPiece := Piece.mk 0 start endPos lfc (endOffset - startOffset) in
  modify (set_lastChange endPos);;
  mret [newPiece].

(** ** Changes of one node *)

Definition deleteNodeTail (node : ref) (pos : BufferCursor.t) : P unit :=
  piece ← piece_of node;
  let originalLFCnt := Piece.lineFeedCnt piece in
  originalEndOffset ← bufs (fun bs => offsetInBuffer bs (Piece.bufferIndex piece) (Piece.end_ piece));
  newEndOffset ← bufs (fun bs => offsetInBuffer bs (Piece.bufferIndex piece) pos);
  newLineFeedCnt ← bufs (fun bs => getLineFeedCnt bs (Piece.bufferIndex piece) (Piece.start piece) pos);
  let lf_delta := newLineFeedCnt - originalLFCnt in
  let size_delta := newEndOffset - originalEndOffset in
  let newLength := Piece.length piece + size_delta in
  set_piece node (Piece.mk (Piece.bufferIndex piece) (Piece.start piece) pos newLineFeedCnt newLength);;
  rbt (updateTreeMetadata node size_delta lf_delta).

Definition deleteNodeHead (node : ref) (pos : BufferCursor.t) : P unit :=
  piece ← piece_of node;
  let originalLFCnt := Piece.lineFeedCnt piece in
  originalStartOffset ← bufs (fun bs => offsetInBuffer bs (Piece.bufferIndex piece) (Piece.start piece));
  newLineFeedCnt ← bufs (fun bs => getLineFeedCnt bs (Piece.bufferIndex piece) pos (Piece.end_ piece));
  newStartOffset ← bufs (fun bs => offsetInBuffer bs (Piece.bufferIndex piece) pos);
  let lf_delta := newLineFeedCnt - originalLFCnt in
  let size_delta := originalStartOffset - newStartOffset in
  let newLength := Piece.length piece + size_delta in
  set_piece node (Piece.mk (Piece.bufferIndex piece) pos (Piece.end_ piece) newLineFeedCnt newLength);;
  rbt (updateTreeMetadata node size_delta lf_delta).

(** [deleteNodes], and the same loop at the end of [fixCRLF] *)
Fixpoint deleteNodes (nodes : list ref) : P unit :=
  match nodes with
  | [] => mret tt
  | x :: nodes => rbt (rbDelete x);; deleteNodes nodes
  end.

Definition fixCRLF (prev next : ref) : P unit :=
  pp ← piece_of prev;
  b ← bufs (fun bs => buffer_at bs (Piece.bufferIndex pp));
  let ls := StringBuffer.lineStarts b in
  let e := Piece.end_ pp in
  newEnd ← (if BufferCursor.column e === 0 then
              l1 ← bufs (fun _ => num_at ls (BufferCursor.line e));
              l0 ← bufs (fun _ => num_at ls (BufferCursor.line e - 1));
              mret (BufferCursor.mk (BufferCursor.line e - 1) (l1 - l0 - 1))
            else mret (BufferCursor.mk (BufferCursor.line e) (BufferCursor.column e - 1)));
  let prevNewLength := Piece.length pp - 1 in
  set_piece prev (Piece.mk (Piece.bufferIndex pp) (Piece.start pp) newEnd (Piece.lineFeedCnt pp - 1)
                    prevNewLength);;
  rbt (updateTreeMetadata prev (-1) (-1));;
  let del1 := if prevNewLength === 0 then [prev] else [] in
  np ← piece_of next;
  let newStart := BufferCursor.mk (BufferCursor.line (Piece.start np) + 1) 0 in
  let newLength := Piece.length np - 1 in
  newLineFeedCnt ← bufs (fun bs => getLineFeedCnt bs (Piece.bufferIndex np) newStart (Piece.end_ np));
  set_piece next (Piece.mk (Piece.bufferIndex np) newStart (Piece.end_ np) newLineFeedCnt newLength);;
  rbt (updateTreeMetadata next (-1) (-1));;
  let del2 := if newLength === 0 then [next] else [] in
  pieces ← createNewPieces [CarriageReturn; LineFeed];
  p0 ← nonnull (head pieces);
  rbt (rbInsertRight prev p0);;
  deleteNodes (del1 ++ del2).

Definition validateCRLFWithPrevNode (nextNode : ref) : P unit :=
  check ← shouldCheckCRLF;
  if check : bool then
    lf ← startWithLF nextNode;
    if lf : bool then
      node ← rbt (prev nextNode);
      cr ← endWithCR node;
      if cr : bool then fixCRLF node nextNode else mret tt
    else mret tt
  else mret tt.

Definition validateCRLFWithNextNode (node : ref) : P unit :=
  check ← shouldCheckCRLF;
  if check : bool then
    cr ← endWithCR node;
    if cr : bool then
      nextNode ← rbt (next node);
      lf ← startWithLF nextNode;
      if lf : bool then fixCRLF node nextNode else mret tt
    else mret tt
  else mret tt.

(** the piece without the LF it starts with, which moves to another node *)
Definition dropFirstLF (node : ref) : P unit :=
  piece ← piece_of node;
  let newStart := BufferCursor.mk (BufferCursor.line (Piece.start piece) + 1) 0 in
  let newLength := Piece.length piece - 1 in
  newLineFeedCnt ← bufs (fun bs => getLineFeedCnt bs (Piece.bufferIndex piece) newStart (Piece.end_ piece));
  set_piece node (Piece.mk (Piece.bufferIndex piece) newStart (Piece.end_ piece) newLineFeedCnt newLength);;
  rbt (updateTreeMetadata node (-1) (-1)).

Definition adjustCarriageReturnFromNext (value : jsstring) (node : ref) : P bool :=
  check ← shouldCheckCRLF;
  if check && endWithCR_str value then
    nextNode ← rbt (next node);
    lf ← startWithLF nextNode;
    if lf : bool then
      p ← piece_of nextNode;
      (if Piece.length p === 1 then rbt (rbDelete nextNode) else dropFirstLF nextNode);;
      mret true
    else mret false
  else mret false.

Definition shrinkNode (node : ref) (start end_ : BufferCursor.t) : P unit :=
  piece ← piece_of node;
  let originalStartPos := Piece.start piece in
  let originalEndPos := Piece.end_ piece in
  let i := Piece.bufferIndex piece in
  newLineFeedCnt ← bufs (fun bs => getLineFeedCnt bs i (Piece.start piece) start);
  o1 ← bufs (fun bs => offsetInBuffer bs i start);
  o0 ← bufs (fun bs => offsetInBuffer bs i originalStartPos);
  let newLength := o1 - o0 in
  set_piece node (Piece.mk i (Piece.start piece) start newLineFeedCnt newLength);;
  rbt (updateTreeMetadata node (newLength - Piece.length piece)
         (newLineFeedCnt - Piece.lineFeedCnt piece));;
  lfc ← bufs (fun bs => getLineFeedCnt bs i end_ originalEndPos);
  o3 ← bufs (fun bs => offsetInBuffer bs i originalEndPos);
  o2 ← bufs (fun bs => offsetInBuffer bs i end_);
  newNode ← rbt (rbInsertRight node (Piece.mk i end_ originalEndPos lfc (o3 - o2)));
  validateCRLFWithPrevNode newNode.

Definition appendToNode (node : ref) (value : jsstring) : P unit :=
  adjusted ← adjustCarriageReturnFromNext value node;
  let value := if adjusted : bool then value ++ [LineFeed] else value in
  check ← shouldCheckCRLF;
  cr ← (if check && startWithLF_str value then endWithCR node else mret false);
  let hitCRLF : bool := cr in
  bs ← gets _buffers;
  b0 ← nonnull (head bs);
  let startOffset := zlen (StringBuffer.buffer b0) in
  let buffer := StringBuffer.buffer b0 ++ value in
  let ls := (fun x => x + startOffset) <$> createLineStartsFast value false in
  ls0 ← (if hitCRLF then
           prevStartOffset ← bufs (fun _ => num_at (StringBuffer.lineStarts b0)
                                              (zlen (StringBuffer.lineStarts b0) - 2));
           last ← gets _lastChangeBufferPos;
           modify (set_lastChange (BufferCursor.mk (BufferCursor.line last - 1) (startOffset - prevStartOffset)));;
           mret (removelast (StringBuffer.lineStarts b0))
         else mret (StringBuffer.lineStarts b0));
  let ls0 := ls0 ++ tail ls in
  modify (set_buffers (StringBuffer.mk buffer ls0 :: tail bs));;
  let endIndex := zlen ls0 - 1 in
  lastStart ← bufs (fun _ => num_at ls0 endIndex);
  let newEnd := BufferCursor.mk endIndex (zlen buffer - lastStart) in
  piece ← piece_of node;
  let newLength := Piece.length piece + zlen value in
  newLineFeedCnt ← bufs (fun bs => getLineFeedCnt bs 0 (Piece.start piece) newEnd);
  let lf_delta := newLineFeedCnt - Piece.lineFeedCnt piece in
  set_piece node (Piece.mk (Piece.bufferIndex piece) (Piece.start piece) newEnd newLineFeedCnt newLength);;
  modify (set_lastChange newEnd);;
  rbt (updateTreeMetadata node (zlen value) lf_delta).

(** ** Insertion *)

(** [for (const piece of pieces) tmpNode = this.rbInsertRight(tmpNode, piece)] *)
Fixpoint insertAllRight (node : ref) (pieces : list Piece.t) : P ref :=
  match pieces with
  | [] => mret node
  | p :: pieces => node ← rbt (rbInsertRight node p); insertAllRight node pieces
  end.

Fixpoint insertAllLeft (node : ref) (pieces : list Piece.t) : P ref :=
  match pieces with
  | [] => mret node
  | p :: pieces => node ← rbt (rbInsertLeft node p); insertAllLeft node pieces
  end.

Definition insertContentToNodeLeft (value : jsstring) (node : ref) : P unit :=
  check ← shouldCheckCRLF;
  lf ← (if check && endWithCR_str value then startWithLF node else mret false);
  r ← (if lf : bool then
         dropFirstLF node;;
         p ← piece_of node;
         mret (value ++ [LineFeed], if Piece.length p === 0 then [node] else [])
       else mret (value, []));
  let '(value, nodesToDel) := r in
  newPieces ← createNewPieces value;
  newNode ← insertAllLeft node (rev newPieces);
  validateCRLFWithPrevNode newNode;;
  deleteNodes nodesToDel.

Definition insertContentToNodeRight (value : jsstring) (node : ref) : P unit :=
  adjusted ← adjustCarriageReturnFromNext value node;
  let value := if adjusted : bool then value ++ [LineFeed] else value in
  newPieces ← createNewPieces value;
  p0 ← nonnull (head newPieces);
  newNode ← rbt (rbInsertRight node p0);
  insertAllRight newNode (tail newPieces);;
  validateCRLFWithPrevNode newNode.

(** inserting into the middle of a node *)
Definition insertMiddle (node : ref) (piece : Piece.t) (remainder : Z)
    (insertPosInBuffer : BufferCursor.t) (value : jsstring) : P unit :=
  let i := Piece.bufferIndex piece in
  lfc ← bufs (fun bs => getLineFeedCnt bs i insertPosInBuffer (Piece.end_ piece));
  o1 ← bufs (fun bs => offsetInBuffer bs i (Piece.end_ piece));
  o0 ← bufs (fun bs => offsetInBuffer bs i insertPosInBuffer);
  let newRightPiece := Piece.mk i insertPosInBuffer (Piece.end_ piece) lfc (o1 - o0) in
  check ← shouldCheckCRLF;
  r ← (if check && endWithCR_str value then
         headOfRight ← nodeCharCodeAt node remainder;
         if headOfRight === 10 then
           let newStart := BufferCursor.mk (BufferCursor.line (Piece.start newRightPiece) + 1) 0 in
           lfc ← bufs (fun bs => getLineFeedCnt bs i newStart (Piece.end_ newRightPiece));
           mret (Piece.mk i newStart (Piece.end_ newRightPiece) lfc (Piece.length newRightPiece - 1),
                 value ++ [LineFeed])
         else mret (newRightPiece, value)
       else mret (newRightPiece, value));
  let '(newRightPiece, value) := r in
  r ← (if check && startWithLF_str value then
         tailOfLeft ← nodeCharCodeAt node (remainder - 1);
         if tailOfLeft === 13 then
           previousPos ← bufs (fun bs => positionInBuffer bs piece (remainder - 1));
           deleteNodeTail node previousPos;;
           p ← piece_of node;
           mret (CarriageReturn :: value, if Piece.length p === 0 then [node] else [])
         else deleteNodeTail node insertPosInBuffer;; mret (value, [])
       else deleteNodeTail node insertPosInBuffer;; mret (value, []));
  let '(value, nodesToDel) := r in
  newPieces ← createNewPieces value;
  (if 0 <? Piece.length newRightPiece then rbt (rbInsertRight node newRightPiece);; mret tt else mret tt);;
  insertAllRight node newPieces;;
  deleteNodes nodesToDel.

Definition insert (offset : Z) (value : jsstring) (eolNormalized : bool) : P unit :=
  normalized ← gets _EOLNormalized;
  modify (set_EOLNormalized (normalized && eolNormalized));;
  modify (set_lastVisited (0, []));;
  r ← this_root;
  if negb (same r SENTINEL) then
    pos ← nodeAt offset;
    pos ← nonnull pos;
    let node := np_node pos in
    let remainder := np_remainder pos in
    let nodeStartOffset := np_nodeStartOffset pos in
    piece ← piece_of node;
    insertPosInBuffer ← bufs (fun bs => positionInBuffer bs piece remainder);
    last ← gets _lastChangeBufferPos;
    if (Piece.bufferIndex piece === 0)
       && (BufferCursor.line (Piece.end_ piece) === BufferCursor.line last)
       && (BufferCursor.column (Piece.end_ piece) === BufferCursor.column last)
       && (nodeStartOffset + Piece.length piece === offset)
       && (zlen value <? AverageBufferSize)
    then
      appendToNode node value;;
      computeBufferMetadata
    else
      (if nodeStartOffset === offset then
         insertContentToNodeLeft value node;;
         cacheValidate offset
       else if offset <? nodeStartOffset + Piece.length piece then
         insertMiddle node piece remainder insertPosInBuffer value
       else insertContentToNodeRight value node);;
      computeBufferMetadata
  else
    pieces ← createNewPieces value;
    p0 ← nonnull (head pieces);
    node ← rbt (rbInsertLeft NULL p0);
    insertAllRight node (tail pieces);;
    computeBufferMetadata.

(** ** Deletion *)

(** the nodes from [node] up to [endNode] or the end *)
Definition nodesBetween (node endNode : ref) : P (list ref) :=
  fuel ← pfuel;
  piter fuel (fun '(node, acc) =>
    if negb (same node SENTINEL) && negb (same node endNode) then
      node' ← rbt (next node);
      mret (inl (node', acc ++ [node]))
    else mret (inr acc)) (node, []).

(** both ends of the deletion lie in one node *)
Definition deleteInNode (node : ref) (startPosition endPosition : NodePosition) (offset cnt : Z) : P unit :=
  piece ← piece_of node;
  startSplit ← bufs (fun bs => positionInBuffer bs piece (np_remainder startPosition));
  endSplit ← bufs (fun bs => positionInBuffer bs piece (np_remainder endPosition));
  if np_nodeStartOffset startPosition === offset then
    if cnt === Piece.length piece then
      next' ← rbt (next node);
      rbt (rbDelete node);;
      validateCRLFWithPrevNode next';;
      computeBufferMetadata
    else
      deleteNodeHead node endSplit;;
      cacheValidate offset;;
      validateCRLFWithPrevNode node;;
      computeBufferMetadata
  else if np_nodeStartOffset startPosition + Piece.length piece === offset + cnt then
    deleteNodeTail node startSplit;;
    validateCRLFWithNextNode node;;
    computeBufferMetadata
  else
    shrinkNode node startSplit endSplit;;
    computeBufferMetadata.

Definition delete (offset cnt : Z) : P unit :=
  modify (set_lastVisited (0, []));;
  r ← this_root;
  if (cnt <=? 0) || same r SENTINEL then mret tt else
  startPosition ← nodeAt offset;
  endPosition ← nodeAt (offset + cnt);
  startPosition ← nonnull startPosition;
  endPosition ← nonnull endPosition;
  let startNode := np_node startPosition in
  let endNode := np_node endPosition in
  if same startNode endNode then deleteInNode startNode startPosition endPosition offset cnt
  else
    startPiece ← piece_of startNode;
    startSplit ← bufs (fun bs => positionInBuffer bs startPiece (np_remainder startPosition));
    deleteNodeTail startNode startSplit;;
    cacheValidate offset;;
    startPiece ← piece_of startNode;
    let del1 := if Piece.length startPiece === 0 then [startNode] else [] in
    endPiece ← piece_of endNode;
    endSplit ← bufs (fun bs => positionInBuffer bs endPiece (np_remainder endPosition));
    deleteNodeHead endNode endSplit;;
    endPiece ← piece_of endNode;
    let del2 := if Piece.length endPiece === 0 then [endNode] else [] in
    secondNode ← rbt (next startNode);
    between ← nodesBetween secondNode endNode;
    startPiece ← piece_of startNode;
    prev' ← (if Piece.length startPiece === 0 then rbt (prev startNode) else mret startNode);
    deleteNodes (del1 ++ del2 ++ between);;
    validateCRLFWithNextNode prev';;
    computeBufferMetadata.

(** ** Creation and end-of-line normalisation *)

(** the loop of [create] over the chunks; [i] is the index *)
Fixpoint insertChunks (i : Z) (chunks : list StringBuffer.t) (lastNode : ref) : P unit :=
  match chunks with
  | [] => mret tt
  | chunk :: chunks =>
      if 0 <? zlen (StringBuffer.buffer chunk) then
        let ls := StringBuffer.lineStarts chunk in
        lastStart ← bufs (fun _ => num_at ls (zlen ls - 1));
        let piece := Piece.mk (i + 1) (BufferCursor.mk 0 0)
          (BufferCursor.mk (zlen ls - 1) (zlen (StringBuffer.buffer chunk) - lastStart))
          (zlen ls - 1) (zlen (StringBuffer.buffer chunk)) in
        bs ← gets _buffers;
        modify (set_buffers (bs ++ [chunk]));;
        lastNode ← rbt (rbInsertRight lastNode piece);
        insertChunks (i + 1) chunks lastNode
      else insertChunks (i + 1) chunks lastNode
  end.

(** [create] on an object with some tree; the old nodes stay in the heap. A [StringBuffer]
    always has its line starts, so the branch that computes missing ones is left out. *)
Definition create (chunks : list StringBuffer.t) (eol : jsstring) (eolNormalized : bool) : P unit :=
  modify (set_buffers [StringBuffer.mk [] [0]]);;
  modify (set_lastChange (BufferCursor.mk 0 0));;
  rbt (set_root SENTINEL);;
  modify (set_counts 1 0);;
  modify (set_EOL eol);;
  modify (set_EOLNormalized eolNormalized);;
  insertChunks 0 chunks NULL;;
  modify (set_cache []);;
  modify (set_lastVisited (0, []));;
  computeBufferMetadata.

(** [new PieceTreeBase(chunks, eol, eolNormalized)]: the empty object, with the
    limit of the search cache [create] makes *)
Definition blank : state :=
  mkState (mkTree {[ SENTINEL := sentinel_node ]} SENTINEL) [] 0 0 [] 0 false
    (BufferCursor.mk 0 0) 1 [] (0, []).

Definition new_PieceTreeBase (chunks : list StringBuffer.t) (eol : jsstring) (eolNormalized : bool)
    : res state :=
  let* r := create chunks eol eolNormalized blank in Ret (snd r).

Definition normalizeEOL (eol : jsstring) : P unit :=
  let min := AverageBufferSize - AverageBufferSize / 3 in
  let max := min * 2 in
  let chunk text := let text := replace_eol eol text in
                    StringBuffer.mk text (createLineStartsFast text true) in
  r ← this_root;
  r ← iterate r (fun node '(tempChunk, tempChunkLen, chunks) =>
    str ← getNodeContent node;
    let len := zlen str in
    if (tempChunkLen <=? min) || (tempChunkLen + len <? max) then
      mret ((tempChunk ++ str, tempChunkLen + len, chunks), true)
    else mret ((str, len, chunks ++ [chunk tempChunk]), true)) ([], 0, []);
  let '(tempChunk, tempChunkLen, chunks) := fst r in
  let chunks := if 0 <? tempChunkLen then chunks ++ [chunk tempChunk] else chunks in
  create chunks eol true.

Definition setEOL (newEOL : jsstring) : P unit :=
  modify (set_EOL newEOL);;
  normalizeEOL newEOL.
