(* ===== verification/PieceTreeNodes.v ===== *)
(** * The piece table's nodes as a list

    What the node operations of the piece table do to the sequence of pieces:
    [rbInsertLeft] and [rbInsertRight] insert one element into it. *)

From stdpp Require Import gmap.
From S2P Require Import Prelude RBTree RBTreeRep RBTreeOps RBTreeInsert RBTreeDelete.
From S2P Require Import PieceBuffers PieceTree PieceTreeEdit.

(** ** Linking a new leaf *)

Lemma fresh_ref_fresh h : h !! fresh_ref h = None.
Proof.
  apply not_elem_of_dom. intros Hin. unfold fresh_ref in *.
  apply elem_of_elements, max_list_elem_of_le in Hin. exact (Nat.nle_succ_diag_l _ Hin).
Qed.

Definition leaf (z : ref) (p : Piece.t) : ndata := mkData z Red p 0 0.

(** A node outside the tree does not matter. *)
Lemma reps_insert_fresh F st t z n :
  reps F st t -> heap st !! z = None ->
  reps (<[z := n]> F) (mkTree (<[z := n]> (heap st)) (root st)) t.
Proof.
  intros [Hr Hh Hs Hn Hfr] Hz. constructor; [done | | | done |].
  - eapply rep_ext; [| exact Hh]. intros i Hi. cbn. apply lookup_insert_ne. intros <-.
    apply (rep_dom _ _ _ _ Hh) in Hi. by apply not_elem_of_dom in Hz.
  - cbn. rewrite lookup_insert_ne; [done |]. intros ->. congruence.
  - intros i Hi. cbn. destruct (decide (i = z)) as [-> | Hne]; [by rewrite !lookup_insert_eq |].
    rewrite !lookup_insert_ne by done. auto.
Qed.

Lemma fresh_not_in F st t z : reps F st t -> heap st !! z = None -> z <> SENTINEL /\ z ∉ ids t.
Proof.
  intros [Hr Hh Hs Hn _] Hz. split; [intros ->; congruence |]. intros Hi.
  apply (rep_dom _ _ _ _ Hh) in Hi. by apply not_elem_of_dom in Hz.
Qed.

Definition link (f : frame) (z : ref) : M unit :=
  match f with
  | FL d _ => set_left (nid d) z;; set_parent z (nid d)
  | FR d _ => set_right (nid d) z;; set_parent z (nid d)
  end.

Lemma link_reps F n st f c z p :
  reps (<[z := n]> F) st (plug (f :: c) E) -> z <> SENTINEL -> z ∉ ids (plug (f :: c) E) ->
  heap st !! z = Some (TreeNode.mk SENTINEL SENTINEL SENTINEL Red (Some p) 0 0) ->
  exists st', link f z st = Ret (tt, st') /\ reps F st' (plug (f :: c) (T (leaf z p) E E)).
Proof.
  intros [Hr Hh Hs Hn Hfr] Hz Hzi Hcell. rewrite ids_plug in Hn, Hzi. rewrite rid_plug in Hr.
  assert (SENTINEL <> z) as Hz' by done.
  destruct f as [d r | d l]; apply rep_plug in Hh as [_ (Hd & Hsib & Hc)]; cbn [fdata fsib fcell] in *;
    pose proof Hn as Hn'; nd_split Hn'; nd_split Hzi; unfold link; repeat mstep;
    (eexists; split; [reflexivity |]; constructor;
     [ cbn; rewrite rid_plug; exact Hr
     | apply rep_plug; cbn; split_and!; try done; try look; try outside; try coutside
     | look
     | rewrite ids_plug; cbn; cbn in Hn; apply NoDup_cons in Hn as [Hn1 Hn2];
       apply NoDup_cons; split; [set_solver |]; apply NoDup_cons; split; [set_solver | done]
     | intros i Hi; rewrite ids_plug in Hi; nd_split Hi; cbn [heap leaf nid] in *;
       rewrite ?lookup_insert_ne by ne_solve; rewrite Hfr;
         [apply lookup_insert_ne; ne_solve |]; rewrite ids_plug; cbn [app ids cids fdata fsib];
       autorewrite with s2nd; split_and?; assumption ]).
Qed.

(** The new leaf, linked and fixed up. *)
Lemma link_fix_reps F n st f c z p :
  reps (<[z := n]> F) st (plug (f :: c) E) -> meta_ok (plug (f :: c) E) -> balanced (plug (f :: c) E) ->
  z <> SENTINEL -> z ∉ ids (plug (f :: c) E) ->
  heap st !! z = Some (TreeNode.mk SENTINEL SENTINEL SENTINEL Red (Some p) 0 0) ->
  exists st' t', (link f z;; fixInsert z;; mret z) st = Ret (z, st') /\ reps F st' t' /\
    nodes t' = nodes (plug (f :: c) (T (leaf z p) E E)) /\ meta_ok t' /\ balanced t'.
Proof.
  intros Hr Hm Hb Hz Hzi Hcell.
  destruct (link_reps F n st f c z p Hr Hz Hzi Hcell) as (st1 & H1 & Hr1).
  destruct (fixInsert_reps st1 (f :: c) (leaf z p) Hr1) as (st2 & t2 & H2 & Hr2 & Hn2 & Hm2 & Hb2); try done.
  exists st2, t2. split; [| done]. erewrite bind_run by exact H1.
  cbn [nid leaf] in H2. by erewrite bind_run by exact H2.
Qed.

(** ** Inserting a node *)

Definition linked_cell (p : Piece.t) : TreeNode.t :=
  TreeNode.mk SENTINEL SENTINEL SENTINEL Red (Some p) 0 0.

(** The state both insertions start from: the new cell in the heap, the tree as
    it was. *)
Lemma alloc_reps F st c d l r p :
  reps F st (plug c (T d l r)) ->
  let z := fresh_ref (heap st) in
  let st1 := mkTree (<[z := linked_cell p]> (heap st)) (root st) in
  alloc p st = Ret (z, st1) /\ reps (<[z := linked_cell p]> F) st1 (plug c (T d l r)) /\ heap st1 !! z = Some (linked_cell p) /\
  z <> SENTINEL /\ z ∉ ids (plug c (T d l r)) /\ root st1 <> SENTINEL.
Proof.
  intros Hr z st1. pose proof (fresh_ref_fresh (heap st)) as Hfresh.
  destruct (fresh_not_in _ _ _ _ Hr Hfresh) as [Hz Hzi]. split_and!; try done.
  - by apply reps_insert_fresh.
  - apply lookup_insert_eq.
  - cbn. rewrite (reps_root _ _ Hr), rid_plug. destruct c as [| f c].
    + eapply (reps_ids_ne st []); [exact Hr | left].
    + destruct Hr as [_ _ _ [Hs _]%NoDup_cons _]. intros Heq. apply Hs. rewrite ids_plug, <- Heq.
      apply elem_of_app. right. apply croot_elem.
Qed.

Lemma rbInsertRight_reps F st t l1 x q l2 p :
  valid F st t -> nodes t = l1 ++ (x, q) :: l2 ->
  exists z st' t', rbInsertRight x p st = Ret (z, st') /\ valid F st' t' /\
    z ∉ ids t /\ nodes t' = l1 ++ (x, q) :: (z, p) :: l2.
Proof.
  intros (Hr & Hm & Hb) Hn.
  assert (NoDup (ids t)) as Hnd by (destruct Hr as [_ _ _ [_ ?]%NoDup_cons _]; done).
  destruct (focus_nodes _ _ _ _ _ Hnd Hn) as (c & d & l & r & -> & <- & <- & -> & ->).
  destruct (alloc_reps F st c d l r p Hr) as (Ha & Hr1 & Hcell & Hz & Hzi & Hroot).
  set (z := fresh_ref (heap st)) in *. set (st1 := mkTree _ _) in *.
  pose proof (reps_node _ _ _ _ _ Hr1) as Hd.
  unfold rbInsertRight. erewrite bind_run by exact Ha. erewrite bind_run by done.
  rewrite same_ne by done. rewrite bind_assoc. erewrite bind_run by (eapply field_run; exact Hd).
  cbn [TreeNode.right cell].
  destruct r as [| e rl rr].
  - cbn [rid]. rewrite same_eq.
    destruct (link_fix_reps F _ st1 (FR d l) c z p Hr1 Hm Hb Hz Hzi Hcell) as (st2 & t2 & H2 & Hr2 & Hn2 & Hm2 & Hb2).
    exists z, st2, t2. split; [exact H2 |]. split; [done |]. split; [done |].
    rewrite Hn2, nodes_plug. cbn. by assocs.
  - assert (nid e <> SENTINEL) as Hne
      by (eapply (reps_ids_ne st1 (FR d l :: c) e rl rr); [exact Hr1 | left]).
    cbn [rid]. rewrite same_ne by done. rewrite bind_assoc.
    change (nid e) with (rid (T e rl rr)).
    erewrite bind_run by (eapply (leftest_reps _ _ (FR d l :: c)); [done | exact Hr1]).
    destruct (leftest_focus (T e rl rr)) as (c' & e' & r' & Hpl & Hhd & _ & Hbef); [done |].
    rewrite Hhd. rewrite Hpl in Hr1, Hm, Hb, Hzi.
    change (plug c (T d l (plug c' (T e' E r')))) with (plug (FR d l :: c) (plug c' (T e' E r'))) in Hr1, Hm, Hb, Hzi.
    rewrite <- plug_app in Hr1, Hm, Hb, Hzi.
    destruct (link_fix_reps F _ st1 (FL e' r') (c' ++ FR d l :: c) z p Hr1 Hm Hb Hz Hzi Hcell)
      as (st2 & t2 & H2 & Hr2 & Hn2 & Hm2 & Hb2).
    exists z, st2, t2. split; [exact H2 |]. split; [done |].
    rewrite Hpl. split; [rewrite plug_app in Hzi; exact Hzi |]. rewrite <- Hpl.
    rewrite Hn2. cbn [plug fplug]. rewrite plug_app. cbn [plug fplug]. rewrite nodes_plug.
    cbn [nodes]. rewrite Hbef. cbn. by assocs.
Qed.

Lemma rbInsertLeft_reps F st t l1 x q l2 p :
  valid F st t -> nodes t = l1 ++ (x, q) :: l2 ->
  exists z st' t', rbInsertLeft x p st = Ret (z, st') /\ valid F st' t' /\
    z ∉ ids t /\ nodes t' = l1 ++ (z, p) :: (x, q) :: l2.
Proof.
  intros (Hr & Hm & Hb) Hn.
  assert (NoDup (ids t)) as Hnd by (destruct Hr as [_ _ _ [_ ?]%NoDup_cons _]; done).
  destruct (focus_nodes _ _ _ _ _ Hnd Hn) as (c & d & l & r & -> & <- & <- & -> & ->).
  destruct (alloc_reps F st c d l r p Hr) as (Ha & Hr1 & Hcell & Hz & Hzi & Hroot).
  set (z := fresh_ref (heap st)) in *. set (st1 := mkTree _ _) in *.
  pose proof (reps_node _ _ _ _ _ Hr1) as Hd.
  unfold rbInsertLeft. erewrite bind_run by exact Ha. erewrite bind_run by done.
  rewrite same_ne by done. rewrite bind_assoc. erewrite bind_run by (eapply field_run; exact Hd).
  cbn [TreeNode.left cell].
  destruct l as [| e ll lr].
  - cbn [rid]. rewrite same_eq.
    destruct (link_fix_reps F _ st1 (FL d r) c z p Hr1 Hm Hb Hz Hzi Hcell) as (st2 & t2 & H2 & Hr2 & Hn2 & Hm2 & Hb2).
    exists z, st2, t2. split; [exact H2 |]. split; [done |]. split; [done |].
    rewrite Hn2, nodes_plug. cbn. by assocs.
  - assert (nid e <> SENTINEL) as Hne
      by (eapply (reps_ids_ne st1 (FL d r :: c) e ll lr); [exact Hr1 | left]).
    cbn [rid]. rewrite same_ne by done. rewrite bind_assoc.
    change (nid e) with (rid (T e ll lr)).
    erewrite bind_run by (eapply (righttest_reps _ _ (FL d r :: c)); [done | exact Hr1]).
    destruct (righttest_focus (T e ll lr)) as (c' & e' & l' & Hpl & Hhd & Hbef); [done |].
    rewrite Hhd. rewrite Hpl in Hr1, Hm, Hb, Hzi.
    change (plug c (T d (plug c' (T e' l' E)) r)) with (plug (FL d r :: c) (plug c' (T e' l' E))) in Hr1, Hm, Hb, Hzi.
    rewrite <- plug_app in Hr1, Hm, Hb, Hzi.
    destruct (link_fix_reps F _ st1 (FR e' l') (c' ++ FL d r :: c) z p Hr1 Hm Hb Hz Hzi Hcell)
      as (st2 & t2 & H2 & Hr2 & Hn2 & Hm2 & Hb2).
    exists z, st2, t2. split; [exact H2 |]. split; [done |].
    rewrite Hpl. split; [rewrite plug_app in Hzi; exact Hzi |]. rewrite <- Hpl.
    rewrite Hn2. cbn [plug fplug]. rewrite plug_app. cbn [plug fplug]. rewrite nodes_plug.
    cbn [nodes]. rewrite Hbef. cbn. by assocs.
Qed.

(** The first node of a tree: both insertions do the same. *)
Lemma rbInsert_empty F st node p :
  reps F st E ->
  exists z st' t', rbInsertRight node p st = Ret (z, st') /\ rbInsertLeft node p st = Ret (z, st') /\
    valid F st' t' /\ nodes t' = [(z, p)].
Proof.
  intros [Hroot _ Hs _ Hfr].
  set (z := fresh_ref (heap st)). pose proof (fresh_ref_fresh (heap st)) as Hfresh. fold z in Hfresh.
  assert (SENTINEL <> z) as Hz by congruence. cbn in Hroot.
  set (d := mkData z Black p 0 0).
  set (st2 := mkTree (<[z := cell d SENTINEL SENTINEL SENTINEL]> (<[z := linked_cell p]> (heap st))) z).
  assert (reps F st2 (T d E E)) as Hr2.
  { constructor; [done | | | |].
    - cbn. split_and!; [apply lookup_insert_eq | done | done].
    - cbn. rewrite !lookup_insert_ne by done. done.
    - cbn. repeat constructor; set_solver.
    - intros i Hi. cbn in *. rewrite !lookup_insert_ne by set_solver. apply Hfr. set_solver. }
  destruct (set_color_reps st2 [] d E E Black Hr2) as (st3 & H3 & Hr3 & _).
  assert (fixInsert z st2 = Ret (tt, st3)) as Hfix.
  { unfold fixInsert. erewrite bind_run; [| unfold recomputeTreeMetadata; erewrite bind_run by done;
      cbn [root st2]; rewrite same_eq; reflexivity].
    erewrite bind_run by done.
    erewrite bind_run by (eapply iter_stop, (fixInsert_stop st2 [] (T d E E)); done).
    erewrite bind_run by done. exact H3. }
  exists z, st3, (T (recolor Black d) E E). split_and!.
  - unfold rbInsertRight. erewrite bind_run by done. fold z. erewrite bind_run by done. cbn [root].
    rewrite Hroot, same_eq. rewrite bind_assoc. erewrite bind_run by done.
    erewrite bind_run; [| unfold set_color; apply upd_run; cbn; apply lookup_insert_eq].
    by erewrite bind_run by exact Hfix.
  - unfold rbInsertLeft. erewrite bind_run by done. fold z. erewrite bind_run by done. cbn [root].
    rewrite Hroot, same_eq. rewrite bind_assoc. erewrite bind_run by done.
    erewrite bind_run; [| unfold set_color; apply upd_run; cbn; apply lookup_insert_eq].
    by erewrite bind_run by exact Hfix.
  - split; [exact Hr3 |]. split; [done |]. split; [done |]. exists 1%nat. done.
  - done.
Qed.

(** C23: the piece table's node insertions refine list insertion.  On a valid
    tree (a represented red-black tree with right metadata) [rbInsertRight] and
    [rbInsertLeft] at a node end, throw nothing, return a new node and leave a
    valid tree whose sequence of pieces is the old one with the new piece right
    after, or right before, that node; on the empty tree they make it the only
    piece, whatever node is passed. *)
Theorem rbInsert_refines_list F st t p :
  valid F st t ->
  (forall l1 x q l2, nodes t = l1 ++ (x, q) :: l2 ->
     (exists z st' t', rbInsertRight x p st = Ret (z, st') /\ valid F st' t' /\ z ∉ ids t /\
        nodes t' = l1 ++ (x, q) :: (z, p) :: l2) /\
     (exists z st' t', rbInsertLeft x p st = Ret (z, st') /\ valid F st' t' /\ z ∉ ids t /\
        nodes t' = l1 ++ (z, p) :: (x, q) :: l2)) /\
  (nodes t = [] -> forall node, exists z st' t',
     rbInsertRight node p st = Ret (z, st') /\ rbInsertLeft node p st = Ret (z, st') /\
     valid F st' t' /\ nodes t' = [(z, p)]).
Proof.
  intros Hv. split.
  - intros l1 x q l2 Hn. split; [by apply rbInsertRight_reps | by apply rbInsertLeft_reps].
  - intros ->%nodes_fst node. apply rbInsert_empty, Hv.
Qed.

Lemma sample_valid : valid (heap (build_tree sample_tree)) (build_tree sample_tree) sample_tree.
Proof.
  split; [apply sample_reps |]. split; [cbn; split_and!; done |]. split; [done |].
  exists 1%nat. cbn. split_and!; done.
Qed.

Lemma rbInsert_refines_list_witness :
  exists F z st' t', rbInsertRight 2%nat (sample_piece 9 0) (build_tree sample_tree) = Ret (z, st') /\
    valid F st' t' /\ fst <$> nodes t' = [3; 2; 5; 4]%nat.
Proof.
  destruct (proj1 (rbInsert_refines_list _ (build_tree sample_tree) sample_tree (sample_piece 9 0) sample_valid)
    [(3%nat, sample_piece 3 0)] 2%nat (sample_piece 5 1) [(4%nat, sample_piece 7 2)] eq_refl)
    as [(z & st' & t' & H1 & H2 & _ & H3) _].
  eexists _, z, st', t'. split; [exact H1 |]. split; [exact H2 |]. rewrite H3.
  vm_compute in H1. injection H1 as <- _. reflexivity.
Defined.

