(* ===== verification/PieceTreeRead.v ===== *)
(** * Reading the piece table

    The reading operations of the piece table on the sequence of its pieces:
    [nodeAt] finds the piece an offset falls in, through the search cache or not,
    [getLinesRawContent] concatenates the pieces, [computeBufferMetadata] counts
    them, and a snapshot reads them one by one. *)

From stdpp Require Import gmap.
From S2P Require Import Prelude RBTree RBTreeRep RBTreeOps RBTreeInsert RBTreeDelete.
From S2P Require Import PieceBuffers PieceTree PieceTreeEdit PieceTreeNodes.

Section Reading.
Context {F : gmap ref TreeNode.t}.

(** ** Running the operations of the whole state *)

Lemma pbind_run {A B} (m : P A) (f : A -> P B) s a s' : m s = Ret (a, s') -> (m ≫= f) s = f a s'.
Proof. intros H. unfold mbind, P_bind. by rewrite H. Qed.

Lemma rbt_run {A} (m : M A) s a : m (tr s) = Ret (a, tr s) -> rbt m s = Ret (a, s).
Proof. intros H. unfold rbt. rewrite H. by destruct s. Qed.

Lemma piece_of_run s t x p : reps F (tr s) t -> (x, p) ∈ nodes t -> piece_of x s = Ret (p, s).
Proof.
  intros Hr Hin. apply list_elem_of_split in Hin as (l1 & l2 & Hn).
  assert (NoDup (ids t)) as Hnd by (destruct Hr as [_ _ _ [_ ?]%NoDup_cons _]; done).
  destruct (focus_nodes _ _ _ _ _ Hnd Hn) as (c & d & l & r & -> & <- & <- & _ & _).
  apply rbt_run. unfold get_piece.
  by rewrite (bind_run _ _ _ _ _ (get_run _ _ _ (reps_node _ _ _ _ _ Hr))).
Qed.

(** ** Finding the node of an offset *)

Definition nsize (l : list (ref * Piece.t)) : Z := zsum (Piece.length ∘ snd <$> l).

Lemma nsize_app l k : nsize (l ++ k) = nsize l + nsize k.
Proof. unfold nsize. by rewrite fmap_app, zsum_app. Qed.

Lemma nsize_cons x p l : nsize ((x, p) :: l) = Piece.length p + nsize l.
Proof. done. Qed.

Lemma tsize_nodes t : tsize t = nsize (nodes t).
Proof.
  induction t as [| d l IHl r IHr]; [done |]. cbn [tsize nodes].
  rewrite nsize_app, nsize_cons, IHl, IHr. lia.
Qed.

(** Node [x] starts at offset [o] of the document. *)
Definition starts_at (t : rtree) (x : ref) (p : Piece.t) (o : Z) : Prop :=
  exists l1 l2, nodes t = l1 ++ (x, p) :: l2 /\ o = nsize l1.

Definition at_offset (t : rtree) (offset : Z) (pos : NodePosition) : Prop :=
  exists p, starts_at t (np_node pos) p (np_nodeStartOffset pos) /\
    np_nodeStartOffset pos + np_remainder pos = offset /\ 0 <= np_remainder pos <= Piece.length p.

(** Every entry of the search cache is right about its node. *)
Definition cache_ok (s : state) (t : rtree) : Prop :=
  Forall (fun e => exists p, starts_at t (ce_node e) p (ce_nodeStartOffset e)) (_cache s).

Lemma starts_at_elem t x p o : starts_at t x p o -> (x, p) ∈ nodes t.
Proof. intros (l1 & l2 & -> & _). set_solver. Qed.

Lemma cacheGet_loop_ok s t offset es :
  reps F (tr s) t -> Forall (fun e => exists p, starts_at t (ce_node e) p (ce_nodeStartOffset e)) es ->
  exists r, cacheGet_loop offset es s = Ret (r, s) /\
    match r with
    | Some e => e ∈ es /\ exists p, starts_at t (ce_node e) p (ce_nodeStartOffset e) /\
        ce_nodeStartOffset e <= offset <= ce_nodeStartOffset e + Piece.length p
    | None => True
    end.
Proof.
  intros Hr. induction 1 as [| e es (p & Hp) Hes (r & IHr & IH)]; cbn [cacheGet_loop].
  - exists None. done.
  - assert (match r with
      | Some e' => e' ∈ e :: es /\ exists p, starts_at t (ce_node e') p (ce_nodeStartOffset e') /\
          ce_nodeStartOffset e' <= offset <= ce_nodeStartOffset e' + Piece.length p
      | None => True end) as IH' by (destruct r; [destruct IH; split; [by right | done] | done]).
    destruct (Z.leb_spec (ce_nodeStartOffset e) offset); [| exists r; done].
    rewrite (pbind_run _ _ _ _ _ (piece_of_run _ _ _ _ Hr (starts_at_elem _ _ _ _ Hp))).
    destruct (Z.leb_spec offset (ce_nodeStartOffset e + Piece.length p)); [| exists r; done].
    exists (Some e). split; [done |]. split; [left | eauto].
Qed.

Lemma cacheSet_ok s t e :
  cache_ok s t -> (exists p, starts_at t (ce_node e) p (ce_nodeStartOffset e)) ->
  exists s', cacheSet e s = Ret (tt, s') /\ cache_ok s' t /\ s' = set_cache (_cache s') s.
Proof.
  intros Hc He. unfold cacheSet. erewrite pbind_run by done. erewrite pbind_run by done.
  eexists. split; [done |]. split; [| done]. unfold cache_ok. cbn [_cache set_cache].
  apply Forall_app. split; [| by repeat constructor]. case_match; [| done].
  unfold cache_ok in Hc. destruct (_cache s); [done |]. by apply Forall_cons in Hc as [_ ?].
Qed.

Definition nodeAt_body (st : ref * Z * Z) : P ((ref * Z * Z) + option NodePosition) :=
  let '(x, offset, nodeStartOffset) := st in
  if same x SENTINEL then mret (inr None) else
  n ← node_of x;
  if offset <? TreeNode.size_left n then mret (inl (TreeNode.left n, offset, nodeStartOffset))
  else
    p ← piece_of x;
    if offset <=? TreeNode.size_left n + Piece.length p then
      let nodeStartOffset := nodeStartOffset + TreeNode.size_left n in
      let ret := mkNodePosition x (offset - TreeNode.size_left n) nodeStartOffset in
      cacheSet (mkEntry x nodeStartOffset None);;
      mret (inr (Some ret))
    else
      mret (inl (TreeNode.right n, offset - (TreeNode.size_left n + Piece.length p),
                 nodeStartOffset + (TreeNode.size_left n + Piece.length p))).

Lemma piter_next {B A} fuel (body : B -> P (B + A)) b s b' s' :
  body b s = Ret (inl b', s') -> piter (S fuel) body b s = piter fuel body b' s'.
Proof. intros H. cbn. by rewrite (pbind_run _ _ _ _ _ H). Qed.

Lemma piter_stop {B A} fuel (body : B -> P (B + A)) b s a s' :
  body b s = Ret (inr a, s') -> piter (S fuel) body b s = Ret (a, s').
Proof. intros H. cbn. by rewrite (pbind_run _ _ _ _ _ H). Qed.

(** The sizes of the nodes before the hole of a context. *)
Lemma starts_at_plug c d l r :
  starts_at (plug c (T d l r)) (nid d) (npiece d) (nsize (nbefore c) + tsize l).
Proof.
  exists (nbefore c ++ nodes l), (nodes r ++ nafter c). split.
  - rewrite nodes_plug. cbn. by assocs.
  - by rewrite nsize_app, tsize_nodes.
Qed.

Lemma nodeAt_descend s c t0 offset fuel :
  reps F (tr s) (plug c t0) -> meta_ok t0 -> cache_ok s (plug c t0) ->
  0 <= offset <= tsize t0 -> t0 <> E -> (List.length (ids t0) < fuel)%nat ->
  exists pos s', piter fuel nodeAt_body (rid t0, offset, nsize (nbefore c)) s = Ret (Some pos, s') /\
    at_offset (plug c t0) (nsize (nbefore c) + offset) pos /\
    cache_ok s' (plug c t0) /\ s' = set_cache (_cache s') s /\
    cacheSet (mkEntry (np_node pos) (np_nodeStartOffset pos) None) s = Ret (tt, s').
Proof.
  revert c offset fuel. induction t0 as [| d l IHl r IHr]; intros c offset fuel Hr Hm Hc Ho Ht Hf; [done |].
  destruct fuel as [| fuel]; [cbn in Hf; lia |].
  cbn in Hf. rewrite length_app in Hf. cbn in Hf. cbn in Ho.
  destruct Hm as (Hsl & Hlf & Hml & Hmr).
  assert (nid d <> SENTINEL) as Hne by (eapply (reps_ids_ne (tr s) c); [exact Hr | left]).
  pose proof (reps_node _ _ _ _ _ Hr) as Hd.
  assert (node_of (nid d) s = Ret (cell d (cpar c) (rid l) (rid r), s)) as Hnode
    by (apply rbt_run, get_run; exact Hd).
  pose proof (starts_at_plug c d l r) as Hst.
  assert (piece_of (nid d) s = Ret (npiece d, s)) as Hpiece
    by (eapply piece_of_run; [exact Hr | by eapply starts_at_elem]).
  cbn [rid].
  destruct (Z.ltb_spec offset (tsize l)) as [Hlt | Hge].
  - assert (l <> E) as Hl by (intros ->; cbn in Hlt; lia).
    destruct (IHl (FL d r :: c) offset fuel Hr Hml Hc ltac:(lia) Hl ltac:(lia)) as (pos & s' & Hrun & Hres).
    exists pos, s'. split; [| exact Hres]. erewrite piter_next; [exact Hrun |].
    unfold nodeAt_body. rewrite same_ne by done. erewrite pbind_run by exact Hnode.
    cbn [TreeNode.size_left TreeNode.left cell]. rewrite Hsl, (proj2 (Z.ltb_lt _ _)) by lia. done.
  - destruct (Z.leb_spec offset (tsize l + Piece.length (npiece d))) as [Hle | Hgt].
    + destruct (cacheSet_ok s (plug c (T d l r)) (mkEntry (nid d) (nsize (nbefore c) + tsize l) None) Hc)
        as (s' & Hset & Hc' & Hs'); [by exists (npiece d) |].
      eexists _, s'. split.
      * apply piter_stop. unfold nodeAt_body. rewrite same_ne by done. erewrite pbind_run by exact Hnode.
        cbn [TreeNode.size_left TreeNode.left cell].
        rewrite Hsl, (proj2 (Z.ltb_ge _ _)) by lia. erewrite pbind_run by exact Hpiece.
        rewrite (proj2 (Z.leb_le _ _)) by lia. erewrite pbind_run by exact Hset. done.
      * split; [exists (npiece d); cbn; split; [done |]; lia | done].
    + assert (r <> E) as Hrr by (intros ->; cbn in Ho; lia).
      destruct (IHr (FR d l :: c) (offset - (tsize l + Piece.length (npiece d))) fuel Hr Hmr Hc
        ltac:(lia) Hrr ltac:(lia)) as (pos & s' & Hrun & Hat & Hres).
      assert (nsize (nbefore (FR d l :: c)) = nsize (nbefore c) + (tsize l + Piece.length (npiece d))) as Hsz.
      { cbn [nbefore]. rewrite !nsize_app, nsize_cons, tsize_nodes. change (nsize []) with 0. lia. }
      exists pos, s'. split; [| split; [| exact Hres]].
      * erewrite piter_next; [exact Hrun |]. rewrite Hsz.
        unfold nodeAt_body. rewrite same_ne by done. erewrite pbind_run by exact Hnode.
        cbn [TreeNode.size_left TreeNode.left TreeNode.right cell].
        rewrite Hsl, (proj2 (Z.ltb_ge _ _)) by lia. erewrite pbind_run by exact Hpiece.
        rewrite (proj2 (Z.leb_gt _ _)) by lia. done.
      * rewrite Hsz in Hat. 
        replace (nsize (nbefore c) + offset) with
          (nsize (nbefore c) + (tsize l + Piece.length (npiece d)) + (offset - (tsize l + Piece.length (npiece d)))) by lia.
        exact Hat.
Qed.

Lemma nodeAt_ok s t offset :
  reps F (tr s) t -> meta_ok t -> cache_ok s t -> nodes t <> [] -> 0 <= offset <= nsize (nodes t) ->
  exists pos s', nodeAt offset s = Ret (Some pos, s') /\ at_offset t offset pos /\
    cache_ok s' t /\ s' = set_cache (_cache s') s /\
    ((exists e, e ∈ _cache s /\ ce_node e = np_node pos /\ ce_nodeStartOffset e = np_nodeStartOffset pos /\ s' = s) \/
     cacheSet (mkEntry (np_node pos) (np_nodeStartOffset pos) None) s = Ret (tt, s')).
Proof.
  intros Hr Hm Hc Hne Ho. unfold nodeAt.
  assert (root (tr s) = rid t) as Hroot by apply Hr.
  assert (this_root s = Ret (rid t, s)) as Hrun by (apply rbt_run; unfold get_root; by rewrite Hroot).
  erewrite pbind_run by exact Hrun.
  destruct (cacheGet_loop_ok s t offset (rev (_cache s)) Hr) as (r & Hg & Hres).
  { by apply Forall_rev. }
  erewrite pbind_run; [| unfold cacheGet; erewrite pbind_run by done; exact Hg].
  destruct r as [e |].
  - destruct Hres as (He & p & Hst & Hle). eexists _, s. split; [done |].
    split; [exists p; cbn; split; [done |]; lia |]. split; [done |]. split; [by destruct s |].
    left. exists e. cbn. split; [| done]. rewrite list_elem_of_In, <- in_rev, <- list_elem_of_In in He. done.
  - erewrite pbind_run; [| unfold pfuel; apply rbt_run; reflexivity].
    assert (t <> E) as HtE by (intros ->; done).
    destruct (nodeAt_descend s [] t offset (S (S (size (heap (tr s)))))) as (pos & s' & H1 & H2 & H3);
      [exact Hr | done | done | by rewrite tsize_nodes | done | pose proof (reps_size _ _ Hr); lia |].
    exists pos, s'. split; [exact H1 |]. destruct H3 as (H3 & H4 & H5). auto.
Qed.

End Reading.

(** [nodeAt] finds the node of an offset.  In a non-empty tree with right
    metadata, for any offset of the document (its end included) and whatever
    the search cache holds, as long as its entries are right, [nodeAt] ends,
    throws nothing and returns a node of the tree, the offset where the node
    starts, and the remainder inside it; only the cache changes, and its entries
    stay right. *)
Lemma nodeAt_finds F s t offset :
  reps F (tr s) t -> meta_ok t -> cache_ok s t -> nodes t <> [] -> 0 <= offset <= nsize (nodes t) ->
  exists pos s' p l1 l2, nodeAt offset s = Ret (Some pos, s') /\
    nodes t = l1 ++ (np_node pos, p) :: l2 /\
    np_nodeStartOffset pos = nsize l1 /\ np_nodeStartOffset pos + np_remainder pos = offset /\
    0 <= np_remainder pos <= Piece.length p /\
    cache_ok s' t /\ s' = set_cache (_cache s') s.
Proof.
  intros Hr Hm Hc Hne Ho.
  destruct (nodeAt_ok s t offset Hr Hm Hc Hne Ho) as (pos & s' & H1 & (p & (l1 & l2 & Hn & Hs) & H3 & H4) & H5 & H6 & _).
  exists pos, s', p, l1, l2. split_and!; done || lia.
Qed.

Definition sample_state : state :=
  mkState (build_tree sample_tree) [] 0 0 [] 0 false (BufferCursor.mk 0 0) 1 [mkEntry 2%nat 3 None] (0, []).

(** ** The document *)

Section Document.
Context {F : gmap ref TreeNode.t}.


(** The text of a sequence of pieces; each piece has the length of its text. *)
Fixpoint text_of (bs : list StringBuffer.t) (l : list (ref * Piece.t)) : option jsstring :=
  match l with
  | [] => Some []
  | (_, p) :: l =>
      match getPieceContent bs p, text_of bs l with
      | Ret str, Some rest => if Piece.length p === zlen str then Some (str ++ rest) else None
      | _, _ => None
      end
  end.

Lemma text_of_app bs l k :
  text_of bs (l ++ k) = match text_of bs l, text_of bs k with
                        | Some a, Some b => Some (a ++ b) | _, _ => None end.
Proof.
  induction l as [| [x p] l IH]; cbn; [by destruct (text_of bs k) |]. rewrite IH.
  destruct (getPieceContent bs p), (text_of bs l), (text_of bs k); try done;
    case_match; by rewrite <- ?app_assoc.
Qed.

Lemma text_of_size bs l str : text_of bs l = Some str -> nsize l = zlen str.
Proof.
  revert str. induction l as [| [x p] l IH]; cbn [text_of]; intros str H; [by injection H as <- |].
  destruct (getPieceContent bs p) as [a |], (text_of bs l) as [b |]; try done.
  destruct (Z.eqb_spec (Piece.length p) (zlen a)); [| done]. injection H as <-.
  rewrite nsize_cons, zlen_app, (IH b); [lia | done].
Qed.

(** [iterate] with a callback that, on the nodes of the tree, only adds the
    node's piece to what it accumulates, is a fold over the pieces in order. *)
Lemma iterate_fold {B} (g : B -> Piece.t -> B) (callback : ref -> B -> P (B * bool)) s c t0 fuel acc :
  reps F (tr s) (plug c t0) ->
  (forall b, callback SENTINEL b s = Ret ((b, true), s)) ->
  (forall x p b, (x, p) ∈ nodes t0 -> x <> SENTINEL -> piece_of x s = Ret (p, s) ->
     callback x b s = Ret ((g b p, true), s)) ->
  (List.length (ids t0) < fuel)%nat ->
  iterate_rec fuel (rid t0) callback acc s = Ret ((foldl g acc (snd <$> nodes t0), true), s).
Proof.
  revert c fuel acc. induction t0 as [| d l IHl r IHr]; intros c fuel acc Hr Hsent Hcb Hf;
    (destruct fuel as [| fuel]; [lia |]); cbn [iterate_rec rid].
  - by rewrite same_eq, Hsent.
  - cbn in Hf. rewrite length_app in Hf. cbn in Hf.
    assert (nid d <> SENTINEL) as Hne by (eapply (reps_ids_ne (tr s) c); [exact Hr | left]).
    pose proof (reps_node _ _ _ _ _ Hr) as Hd.
    assert (node_of (nid d) s = Ret (cell d (cpar c) (rid l) (rid r), s)) as Hnode
      by (apply rbt_run, get_run; exact Hd).
    assert (piece_of (nid d) s = Ret (npiece d, s)) as Hpiece
      by (eapply piece_of_run; [exact Hr | eapply starts_at_elem, starts_at_plug]).
    cbn [nodes] in *.
    rewrite same_ne by done. erewrite pbind_run by exact Hnode. cbn [TreeNode.left cell].
    erewrite pbind_run by (apply (IHl (FL d r :: c));
      [exact Hr | done | intros; apply Hcb; [set_solver | done | done] | lia]). cbn [negb snd fst].
    erewrite pbind_run by (apply (Hcb _ (npiece d)); [set_solver | done | exact Hpiece]).
    cbn [negb snd fst]. erewrite pbind_run by exact Hnode. cbn [TreeNode.right cell].
    rewrite (IHr (FR d l :: c) fuel);
      [| exact Hr | done | intros; apply Hcb; [set_solver | done | done] | lia].
    by rewrite fmap_app, fmap_cons, foldl_app.
Qed.

(** The piece contents of a text, concatenated by the callback's fold. *)
Definition contents (bs : list StringBuffer.t) (p : Piece.t) : jsstring :=
  match getPieceContent bs p with Ret c => c | Throw _ => [] end.

Lemma text_of_contents bs l str :
  text_of bs l = Some str ->
  str = mjoin (contents bs <$> (snd <$> l)) /\
  Forall (fun p => getPieceContent bs p = Ret (contents bs p)) (snd <$> l).
Proof.
  revert str. induction l as [| [x p] l IH]; cbn [text_of]; intros str H; [by injection H as <- |].
  destruct (getPieceContent bs p) as [a |] eqn:Hp, (text_of bs l) as [b |]; try done.
  destruct (_ === _); [| done]. injection H as <-.
  destruct (IH b eq_refl) as [-> Hl]. unfold contents at 1. cbn. unfold contents at 1 3. rewrite Hp.
  split; [done |]. constructor; [| done]. unfold contents. by rewrite Hp.
Qed.

Lemma foldl_concat (f : Piece.t -> jsstring) acc l :
  foldl (fun b p => b ++ f p) acc l = acc ++ mjoin (f <$> l).
Proof.
  revert acc. induction l as [| p l IH]; intros acc; cbn; [by rewrite app_nil_r |].
  by rewrite IH, <- app_assoc.
Qed.

Lemma foldl_collect acc (l : list Piece.t) : foldl (fun b p => b ++ [p]) acc l = acc ++ l.
Proof.
  revert acc. induction l as [| p l IH]; intros acc; cbn; [by rewrite app_nil_r |].
  by rewrite IH, <- app_assoc.
Qed.

Lemma content_callback s l str x p b :
  text_of (_buffers s) l = Some str -> (x, p) ∈ l -> x <> SENTINEL -> piece_of x s = Ret (p, s) ->
  (c ← getNodeContent x; mret (b ++ c, true)) s = Ret ((b ++ contents (_buffers s) p, true), s).
Proof.
  intros [_ Hall]%text_of_contents Hin Hne Hp. rewrite Forall_fmap, Forall_forall in Hall.
  unfold getNodeContent. rewrite same_ne by done.
  erewrite pbind_run; [reflexivity |]. erewrite pbind_run by exact Hp.
  unfold bufs. by rewrite (Hall _ Hin).
Qed.

(** The loop of [computeBufferMetadata]. *)
Lemma computeBufferMetadata_descend s c t0 fuel a b :
  reps F (tr s) (plug c t0) -> meta_ok t0 -> (List.length (ids t0) < fuel)%nat ->
  piter fuel (fun '(x, lfCnt, len) =>
    if same x SENTINEL then mret (inr (lfCnt, len)) else
    n ← node_of x;
    p ← piece_of x;
    mret (inl (TreeNode.right n, lfCnt + (TreeNode.lf_left n + Piece.lineFeedCnt p),
               len + (TreeNode.size_left n + Piece.length p)))) (rid t0, a, b) s
  = Ret ((a + tlf t0, b + tsize t0), s).
Proof.
  revert c fuel a b. induction t0 as [| d l _ r IHr]; intros c fuel a b Hr Hm Hf;
    (destruct fuel as [| fuel]; [lia |]); cbn [rid].
  - apply piter_stop. rewrite same_eq. cbn. by rewrite !Z.add_0_r.
  - cbn in Hf. rewrite length_app in Hf. cbn in Hf. destruct Hm as (Hsl & Hlf & _ & Hm).
    assert (nid d <> SENTINEL) as Hne by (eapply (reps_ids_ne (tr s) c); [exact Hr | left]).
    pose proof (reps_node _ _ _ _ _ Hr) as Hd.
    assert (node_of (nid d) s = Ret (cell d (cpar c) (rid l) (rid r), s)) as Hnode
      by (apply rbt_run, get_run; exact Hd).
    assert (piece_of (nid d) s = Ret (npiece d, s)) as Hpiece
      by (eapply piece_of_run; [exact Hr | eapply starts_at_elem, starts_at_plug]).
    erewrite piter_next.
    2: { rewrite same_ne by done. erewrite pbind_run by exact Hnode. erewrite pbind_run by exact Hpiece.
         reflexivity. }
    cbn [TreeNode.right TreeNode.lf_left TreeNode.size_left cell].
    rewrite (IHr (FR d l :: c)); [| exact Hr | done | lia]. rewrite Hsl, Hlf. cbn.
    do 2 f_equal. f_equal; lia.
Qed.

Lemma cacheValidate_loop_ok s t offset es :
  reps F (tr s) t -> Forall (fun e => exists p, starts_at t (ce_node e) p (ce_nodeStartOffset e)) es ->
  exists es', cacheValidate_loop offset es s = Ret (es', s) /\
    Forall (fun e => exists p, starts_at t (ce_node e) p (ce_nodeStartOffset e)) es'.
Proof.
  intros Hr. induction 1 as [| e es (p & Hp) Hes (es' & IHr & IH)]; cbn [cacheValidate_loop].
  - exists []. done.
  - destruct Hp as (l1 & l2 & Hn & Ho).
    assert (NoDup (ids t)) as Hnd by (destruct Hr as [_ _ _ [_ ?]%NoDup_cons _]; done).
    destruct (focus_nodes _ _ _ _ _ Hnd Hn) as (c & d & l & r & -> & Hx & Hq & _ & _).
    assert (node_of (ce_node e) s = Ret (cell d (cpar c) (rid l) (rid r), s)) as Hnode
      by (rewrite <- Hx; eapply rbt_run, get_run, reps_node; exact Hr).
    erewrite pbind_run by exact Hnode. erewrite pbind_run by exact IHr.
    case_match; [by exists es' |]. exists (e :: es'). split; [done |]. constructor; [| done].
    exists p, l1, l2. done.
Qed.

End Document.

(** The document is the concatenation of the pieces in order:
    [getLinesRawContent] returns it, changing nothing, and
    [computeBufferMetadata] sets the length to its length and the line count to
    one more than the line feeds of all pieces, keeping tree, buffers and the
    correctness of the search cache. *)
Lemma document_is_concatenation F s t str :
  reps F (tr s) t -> meta_ok t -> cache_ok s t -> text_of (_buffers s) (nodes t) = Some str ->
  getLinesRawContent s = Ret (str, s) /\
  exists s', computeBufferMetadata s = Ret (tt, s') /\
    _length s' = zlen str /\
    _lineCnt s' = 1 + zsum (Piece.lineFeedCnt ∘ snd <$> nodes t) /\
    tr s' = tr s /\ _buffers s' = _buffers s /\ cache_ok s' t.
Proof.
  intros Hr Hm Hc Ht. pose proof (reps_size _ _ Hr) as Hsz.
  assert (this_root s = Ret (rid t, s)) as Hrun
    by (apply rbt_run; unfold get_root; by rewrite (reps_root _ _ Hr)).
  assert (pfuel s = Ret (S (S (size (heap (tr s)))), s)) as Hfuel by (apply rbt_run; reflexivity).
  split.
  - unfold getLinesRawContent, getContentOfSubTree, iterate. erewrite pbind_run by exact Hrun.
    erewrite pbind_run; [| erewrite pbind_run by exact Hfuel;
      apply (iterate_fold (fun b p => b ++ contents (_buffers s) p) _ s [] t _ [] Hr);
      [intros b; erewrite pbind_run by done; by rewrite app_nil_r | intros; by eapply content_callback | lia]].
    cbn [fst]. rewrite foldl_concat. by destruct (text_of_contents _ _ _ Ht) as [-> _].
  - unfold computeBufferMetadata. erewrite pbind_run by exact Hrun. erewrite pbind_run by exact Hfuel.
    erewrite pbind_run by (eapply (computeBufferMetadata_descend s [] t); [exact Hr | done | lia]).
    erewrite pbind_run by done. unfold cacheValidate. erewrite pbind_run by done.
    destruct (cacheValidate_loop_ok (set_counts (1 + tlf t) (0 + tsize t) s) t (0 + tsize t) (_cache s) Hr Hc)
      as (es & He & Hes).
    cbn [fst snd]. erewrite pbind_run by exact He. eexists. split; [done |]. cbn.
    split_and!; try done.
    + by rewrite tsize_nodes, (text_of_size _ _ _ Ht).
    + f_equal. clear. induction t as [| d l IHl r IHr]; [done |]. cbn [tlf nodes].
      rewrite fmap_app, zsum_app, fmap_cons, zsum_cons, IHl, IHr. unfold compose; cbn [snd]. lia.
Qed.

Definition sample_doc : state :=
  mkState (build_tree (T (mkData 2%nat Black (Piece.mk 0 (BufferCursor.mk 0 1) (BufferCursor.mk 1 3) 2 4) 0 0)
             E E)) [sample_buffer] 0 0 [] 0 false (BufferCursor.mk 0 0) 1 [] (0, []).

Lemma sample_doc_reps : reps (heap (tr sample_doc)) (tr sample_doc)
  (T (mkData 2%nat Black (Piece.mk 0 (BufferCursor.mk 0 1) (BufferCursor.mk 1 3) 2 4) 0 0) E E).
Proof.
  apply reps_intro; [done | cbn; split_and!; done | done |]. cbn. repeat constructor; set_solver.
Qed.

(** ** Snapshots *)

Section Snapshots.
Context {F : gmap ref TreeNode.t}.


(** [n] reads in a row, each part that is not [null] appended. *)
Fixpoint readMany (n : nat) (sn : PieceTreeSnapshot) : P (jsstring * PieceTreeSnapshot) :=
  match n with
  | O => mret ([], sn)
  | S n =>
      r ← read sn;
      rest ← readMany n (snd r);
      mret (default [] (fst r) ++ fst rest, snd rest)
  end.

Lemma createSnapshot_ok s t BOM :
  reps F (tr s) t -> createSnapshot BOM s = Ret (mkSnapshot (snd <$> nodes t) 0 BOM, s).
Proof.
  intros Hr. pose proof (reps_size _ _ Hr) as Hsz. unfold createSnapshot.
  assert (this_root s = Ret (rid t, s)) as Hrun
    by (apply rbt_run; unfold get_root; by rewrite (reps_root _ _ Hr)).
  erewrite pbind_run by exact Hrun. destruct t as [| d l r]; [done |].
  rewrite same_ne by (cbn; eapply (reps_ids_ne (tr s) []); [exact Hr | left]). cbn [negb].
  assert (pfuel s = Ret (S (S (size (heap (tr s)))), s)) as Hfuel by (apply rbt_run; reflexivity).
  erewrite pbind_run; [| unfold iterate; erewrite pbind_run by exact Hfuel;
    apply (iterate_fold (fun b p => b ++ [p]) _ s [] (T d l r) _ [] Hr);
    [by intros b | | lia]].
  - cbn [fst]. by rewrite foldl_collect.
  - intros x p b _ Hx Hp. rewrite same_ne by done. cbn [negb]. by erewrite pbind_run by exact Hp.
Qed.

(** The part that is still to be read from index [i] on. *)
Definition rest_from (bs : list StringBuffer.t) (sn : PieceTreeSnapshot) : jsstring :=
  (if sn_index sn === 0 then sn_BOM sn else []) ++
  mjoin (contents bs <$> zdrop (sn_index sn) (sn_pieces sn)).

Lemma read_none s sn :
  zlen (sn_pieces sn) <= sn_index sn -> 0 < sn_index sn -> read sn s = Ret ((None, sn), s).
Proof.
  intros Hi H0. pose proof (zlen_nonneg (sn_pieces sn)). unfold read.
  destruct (Z.eqb_spec (zlen (sn_pieces sn)) 0).
  - destruct (Z.eqb_spec (sn_index sn) 0); [lia | done].
  - destruct (Z.ltb_spec (zlen (sn_pieces sn) - 1) (sn_index sn)); [done | lia].
Qed.

Lemma read_some s sn :
  Forall (fun p => getPieceContent (_buffers s) p = Ret (contents (_buffers s) p)) (sn_pieces sn) ->
  0 <= sn_index sn -> sn_index sn = 0 \/ sn_index sn < zlen (sn_pieces sn) ->
  exists part, read sn s
    = Ret ((Some part, mkSnapshot (sn_pieces sn) (sn_index sn + 1) (sn_BOM sn)), s) /\
    rest_from (_buffers s) sn
    = part ++ rest_from (_buffers s) (mkSnapshot (sn_pieces sn) (sn_index sn + 1) (sn_BOM sn)).
Proof.
  intros Hall H0 Hi. unfold read, rest_from. cbn [sn_index sn_pieces sn_BOM].
  destruct (Z.eqb_spec (sn_index sn + 1) 0); [lia |].
  destruct (Z.eqb_spec (zlen (sn_pieces sn)) 0) as [Hz | Hz].
  { apply zlen_0 in Hz. rewrite Hz in *. destruct Hi as [Hi | Hi]; [| rewrite zlen_nil in Hi; lia]. rewrite Hi. cbn.
    eexists. split; [done |]. by rewrite !app_nil_r. }
  pose proof (zlen_nonneg (sn_pieces sn)).
  destruct (Z.ltb_spec (zlen (sn_pieces sn) - 1) (sn_index sn)); [lia |].
  destruct (znth_is_Some (sn_pieces sn) (sn_index sn)) as [p Hp]; [lia |]. rewrite Hp.
  assert (getPieceContent (_buffers s) p = Ret (contents (_buffers s) p)) as Hc.
  { rewrite Forall_forall in Hall. apply Hall. unfold znth in Hp.
    destruct (_ <? _) in Hp; [done |]. by eapply list_elem_of_lookup_2. }
  erewrite pbind_run by done.
  erewrite pbind_run; [| unfold bufs; rewrite Hc; reflexivity].
  assert (zdrop (sn_index sn) (sn_pieces sn) = p :: zdrop (sn_index sn + 1) (sn_pieces sn)) as ->.
  { unfold zdrop, znth in *. destruct (_ <? _) in Hp; [done |].
    rewrite (drop_S _ p) by done. f_equal. f_equal. lia. }
  destruct (Z.eqb_spec (sn_index sn) 0); (eexists; split; [done |]); cbn; by rewrite <- ?app_assoc.
Qed.

Lemma readMany_rest s n sn :
  Forall (fun p => getPieceContent (_buffers s) p = Ret (contents (_buffers s) p)) (sn_pieces sn) ->
  0 <= sn_index sn -> sn_index sn + Z.of_nat n = Z.max 1 (zlen (sn_pieces sn)) ->
  (0 < sn_index sn + Z.of_nat n) ->
  exists sn', readMany n sn s = Ret ((rest_from (_buffers s) sn, sn'), s) /\
    read sn' s = Ret ((None, sn'), s).
Proof.
  revert sn. induction n as [| n IH]; intros sn Hall H0 Hn Hpos; cbn [readMany].
  - exists sn. split; [| apply read_none; lia]. unfold rest_from.
    destruct (Z.eqb_spec (sn_index sn) 0); [lia |]. by rewrite zdrop_all by lia.
  - destruct (read_some s sn Hall H0) as (part & Hread & ->); [lia |].
    erewrite pbind_run by exact Hread. cbn [fst snd].
    destruct (IH (mkSnapshot (sn_pieces sn) (sn_index sn + 1) (sn_BOM sn))) as (sn' & Hm & Hnull);
      [done | cbn; lia .. |].
    erewrite pbind_run by exact Hm. exists sn'. done.
Qed.

End Snapshots.

(** A snapshot reads the document it was taken of.  [createSnapshot] changes
    nothing; reading it in a state in which the pieces of that document still have
    their texts (the document may have been edited since), the parts of the first
    reads, one for each piece and one if there is none, make up the byte order mark
    followed by the document, and every further read returns [null]. *)
Lemma snapshot_reads_document F s t str BOM :
  reps F (tr s) t -> text_of (_buffers s) (nodes t) = Some str ->
  exists sn, createSnapshot BOM s = Ret (sn, s) /\
    forall s', Forall (fun p => getPieceContent (_buffers s') p = getPieceContent (_buffers s) p)
                 (snd <$> nodes t) ->
      exists sn', readMany (Nat.max 1 (List.length (nodes t))) sn s' = Ret ((BOM ++ str, sn'), s') /\
        read sn' s' = Ret ((None, sn'), s').
Proof.
  intros Hr Ht. eexists. split; [by eapply createSnapshot_ok |]. intros s' Hsame.
  destruct (text_of_contents _ _ _ Ht) as [-> Hall].
  assert (contents (_buffers s) <$> (snd <$> nodes t) = contents (_buffers s') <$> (snd <$> nodes t)) as Heq.
  { apply list_fmap_ext. intros i p Hp. rewrite Forall_forall in Hsame. unfold contents.
    by rewrite (Hsame p) by (by eapply list_elem_of_lookup_2). }
  assert (Forall (fun p => getPieceContent (_buffers s') p = Ret (contents (_buffers s') p))
            (snd <$> nodes t)) as Hall'.
  { rewrite Forall_forall in *. intros p Hp. unfold contents. rewrite (Hsame p Hp), (Hall p Hp). done. }
  rewrite Heq. replace (BOM ++ _) with (rest_from (_buffers s') (mkSnapshot (snd <$> nodes t) 0 BOM)) by done.
  replace (List.length (nodes t)) with (List.length (snd <$> nodes t)) by apply length_fmap.
  revert Hall'. generalize (snd <$> nodes t) as ps. clear. intros ps Hps.
  apply (readMany_rest s' (Nat.max 1 (List.length ps)) (mkSnapshot ps 0 BOM)); cbn; [done | lia | | lia].
  unfold zlen. lia.
Qed.
