(* ===== verification/PieceTreeList.v ===== *)
(** * The piece table as a list of nodes

    The operations of the piece table change a sequence of nodes, each with its
    piece.  This file restates the tree operations on that sequence, inside the
    state of [PieceTreeBase], so that the editing operations can be verified
    without looking at the tree again. *)

From stdpp Require Import gmap.
From S2P Require Import Prelude RBTree RBTreeRep RBTreeOps RBTreeInsert RBTreeDelete RBTreeRemove.
From S2P Require Import PieceBuffers PieceTree PieceTreeEdit PieceTreeNodes PieceTreeRead.

(** The tree of [s] is valid and holds the nodes [L] in order; [F] are the cells
    outside of it. *)
Definition holds (F : gmap ref TreeNode.t) (s : state) (L : list (ref * Piece.t)) : Prop :=
  exists t, valid F (tr s) t /\ nodes t = L.

(** [s'] is [s] with another tree. *)
Definition only_tr (s s' : state) : Prop := s' = set_tr (tr s') s.

(** [s'] is [s] with another tree, other buffers and another last change. *)
Definition kept (s s' : state) : Prop :=
  s' = set_tr (tr s') (set_buffers (_buffers s') (set_lastChange (_lastChangeBufferPos s') s)).

Lemma only_tr_kept s s' : only_tr s s' -> kept s s'.
Proof. unfold only_tr, kept. intros ->. done. Qed.

Lemma only_tr_refl s : only_tr s s.
Proof. by destruct s. Qed.

Lemma only_tr_trans s1 s2 s3 : only_tr s1 s2 -> only_tr s2 s3 -> only_tr s1 s3.
Proof. unfold only_tr. intros -> ->. done. Qed.

Lemma kept_refl s : kept s s.
Proof. by destruct s. Qed.

Lemma kept_trans s1 s2 s3 : kept s1 s2 -> kept s2 s3 -> kept s1 s3.
Proof. unfold kept. intros -> ->. done. Qed.

Lemma only_tr_buffers s s' : only_tr s s' -> _buffers s' = _buffers s.
Proof. by intros ->. Qed.

Lemma only_tr_last s s' : only_tr s s' -> _lastChangeBufferPos s' = _lastChangeBufferPos s.
Proof. by intros ->. Qed.

Lemma kept_cache s s' : kept s s' -> _cache s' = _cache s.
Proof. by intros ->. Qed.

Create HintDb piece.
#[export] Hint Resolve only_tr_refl only_tr_kept kept_refl : piece.

(** ** The tree operations on the sequence *)

Section Sequence.
Context {F : gmap ref TreeNode.t}.
Implicit Types (s : state) (L : list (ref * Piece.t)).

Lemma holds_nodup s L : holds F s L -> NoDup (fst <$> L).
Proof.
  intros (t & (Hr & _) & <-). rewrite fmap_nodes. by destruct Hr as [_ _ _ [_ ?]%NoDup_cons _].
Qed.

Lemma holds_ne s L x p : holds F s L -> (x, p) ∈ L -> x <> SENTINEL.
Proof.
  intros (t & (Hr & _) & <-) Hx ->. destruct Hr as [_ _ _ [Hn _]%NoDup_cons _].
  apply Hn. rewrite <- fmap_nodes. by apply (list_elem_of_fmap_2 fst) in Hx.
Qed.

Lemma holds_piece s L x p : holds F s L -> (x, p) ∈ L -> piece_of x s = Ret (p, s).
Proof. intros (t & (Hr & _) & <-) Hx. by eapply piece_of_run. Qed.

Lemma holds_next s l1 x p l2 :
  holds F s (l1 ++ (x, p) :: l2) -> rbt (next x) s = Ret (hd SENTINEL (fst <$> l2), s).
Proof.
  intros (t & (Hr & _) & Hn). pose proof (fmap_nodes t) as Hi.
  rewrite Hn, fmap_app, fmap_cons in Hi. apply rbt_run.
  destruct (focus t x) as (c & d & l & r & -> & <-); [rewrite <- Hi; set_solver |].
  rewrite (next_reps _ _ _ _ _ Hr). do 3 f_equal.
  assert (NoDup (ids (plug c (T d l r)))) as Hnd by (destruct Hr as [_ _ _ [_ H]%NoDup_cons _]; done).
  rewrite ids_plug_eq in Hi, Hnd. cbn in Hi, Hnd. rewrite <- app_assoc in Hi, Hnd.
  cbn in Hi, Hnd. rewrite app_assoc in Hi, Hnd.
  by destruct (split_unique _ _ _ _ _ Hnd (eq_sym Hi)) as [_ <-].
Qed.

Lemma holds_prev s l1 x p l2 :
  holds F s (l1 ++ (x, p) :: l2) -> rbt (prev x) s = Ret (default SENTINEL (last (fst <$> l1)), s).
Proof.
  intros (t & (Hr & _) & Hn). pose proof (fmap_nodes t) as Hi.
  rewrite Hn, fmap_app, fmap_cons in Hi. apply rbt_run.
  destruct (focus t x) as (c & d & l & r & -> & <-); [rewrite <- Hi; set_solver |].
  rewrite (prev_reps _ _ _ _ _ Hr). do 3 f_equal.
  assert (NoDup (ids (plug c (T d l r)))) as Hnd by (destruct Hr as [_ _ _ [_ H]%NoDup_cons _]; done).
  rewrite ids_plug_eq in Hi, Hnd. cbn in Hi, Hnd. rewrite <- app_assoc in Hi, Hnd.
  cbn in Hi, Hnd. rewrite app_assoc in Hi, Hnd.
  by destruct (split_unique _ _ _ _ _ Hnd (eq_sym Hi)) as [<- _].
Qed.

Lemma holds_root s L : holds F s L -> exists r, this_root s = Ret (r, s) /\ same r SENTINEL = bool_decide (L = []).
Proof.
  intros (t & (Hr & _) & <-). exists (rid t). split.
  - apply rbt_run. unfold get_root. by rewrite (reps_root _ _ Hr).
  - destruct t as [| d l r]; [done |].
    rewrite same_ne by (cbn; eapply (reps_ids_ne (tr s) []); [exact Hr | left]).
    symmetry. apply bool_decide_eq_false. cbn. intros H. by apply app_nil in H as [_ ?].
Qed.

End Sequence.

(** The piece of one node changes: the code stores it and then repairs the
    metadata by the differences. *)
Lemma holds_set F s l1 x p l2 p' ds dl :
  holds F s (l1 ++ (x, p) :: l2) ->
  ds = Piece.length p' - Piece.length p -> dl = Piece.lineFeedCnt p' - Piece.lineFeedCnt p ->
  exists s1 s2, set_piece x p' s = Ret (tt, s1) /\ only_tr s s1 /\
    rbt (updateTreeMetadata x ds dl) s1 = Ret (tt, s2) /\
    only_tr s s2 /\ holds F s2 (l1 ++ (x, p') :: l2).
Proof.
  intros (t & (Hr & Hm & Hb) & Hn) Hds Hdl.
  assert (NoDup (ids t)) as Hnd by (destruct Hr as [_ _ _ [_ ?]%NoDup_cons _]; done).
  destruct (focus_nodes _ _ _ _ _ Hnd Hn) as (c & d & l & r & -> & <- & <- & -> & ->).
  set (d' := mkData (nid d) (ncol d) p' (nsl d) (nlf d)).
  destruct (upd_reps (tr s) c d l r (TreeNode.with_piece (Some p')) d' Hr) as (st1 & H1 & Hr1 & _); [done | done |].
  assert (T d' l r <> E) as HT by done.
  destruct (updateTreeMetadata_reps st1 c (T d' l r) ds dl HT Hr1) as (st2 & H2 & Hr2 & _).
  exists (set_tr st1 s), (set_tr st2 s). split; [unfold set_piece, rbt; by rewrite H1 |].
  split; [done |]. split; [unfold rbt; cbn in *; by rewrite H2 |]. split; [done |].
  exists (plug (cadd ds dl c) (T d' l r)). split.
  - split; [done |]. apply meta_plug in Hm as [Hm Hc]. split.
    + apply meta_plug. split; [done |]. pose proof (cmeta_cadd ds dl _ _ _ Hc) as H.
      cbn in H |- *. subst ds dl.
      replace (tsize l + Piece.length p' + tsize r) with
        (tsize l + Piece.length (npiece d) + tsize r + (Piece.length p' - Piece.length (npiece d))) by lia.
      replace (tlf l + Piece.lineFeedCnt p' + tlf r) with
        (tlf l + Piece.lineFeedCnt (npiece d) + tlf r + (Piece.lineFeedCnt p' - Piece.lineFeedCnt (npiece d))) by lia.
      done.
    + destruct (plug_rb _ _ Hb) as (n & Ht & Hcr & Hcol & Hroot).
      destruct (crb_csame _ _ _ (csame_cadd ds dl c) Hcr) as [Hcr' Hcc].
      apply (rb_plug _ _ n); [exact Ht | done | by rewrite Hcc |].
      intros Hnil. apply Hroot. by destruct c.
  - rewrite nodes_cadd, nodes_plug. cbn. by assocs.
Qed.

(** New nodes have references no cell had before. *)
Lemma alloc_fresh {A} p (m : ref -> M A) st z st' :
  (z0 ← alloc p; m z0;; mret z0) st = Ret (z, st') -> z = fresh_ref (heap st).
Proof.
  unfold mbind, M_bind, alloc. cbn. destruct (m _ _) as [[? ?] |]; [| done]. intros H. by injection H.
Qed.

Lemma rbInsertRight_fresh x p st z st' : rbInsertRight x p st = Ret (z, st') -> z = fresh_ref (heap st).
Proof.
  intros H. unfold rbInsertRight in H.
  apply (alloc_fresh p (fun z => x0 ← get_root;
    (if same x0 SENTINEL then set_root z;; set_color z Black else
     nr ← get_right x;
     if same nr SENTINEL then set_right x z;; set_parent z x
     else nextNode ← leftest nr; set_left nextNode z;; set_parent z nextNode);; fixInsert z) st z st').
  rewrite <- H. unfold mbind, M_bind. cbn. destruct (if same (root st) SENTINEL then _ else _) as [[? ?] |] ; [| done].
  by destruct (fixInsert _ _) as [[? ?] |].
Qed.

Lemma fresh_outside F s L : holds F s L -> F !! fresh_ref (heap (tr s)) = None.
Proof.
  intros (t & (Hr & _) & _). pose proof (fresh_ref_fresh (heap (tr s))) as Hfr.
  rewrite <- (reps_frame _ _ Hr); [done |]. intros Hin. apply elem_of_cons in Hin as [Hs | Hin].
  - rewrite Hs, (reps_sentinel _ _ Hr) in Hfr. done.
  - destruct (focus t _ Hin) as (c & d & l & r & -> & Hd). rewrite <- Hd, (reps_node _ _ _ _ _ Hr) in Hfr. done.
Qed.

Lemma holds_insertRight F s l1 x q l2 p :
  holds F s (l1 ++ (x, q) :: l2) ->
  exists z s', rbt (rbInsertRight x p) s = Ret (z, s') /\ only_tr s s' /\
    holds F s' (l1 ++ (x, q) :: (z, p) :: l2) /\ F !! z = None.
Proof.
  intros Hh. pose proof Hh as (t & Hv & Hn).
  destruct (rbInsertRight_reps _ _ _ _ _ _ _ p Hv Hn) as (z & st' & t' & H1 & H2 & _ & H3).
  exists z, (set_tr st' s). split; [unfold rbt; by rewrite H1 |]. split; [done |]. split; [by exists t' |].
  rewrite (rbInsertRight_fresh _ _ _ _ _ H1). by eapply fresh_outside.
Qed.

Lemma holds_insertLeft F s l1 x q l2 p :
  holds F s (l1 ++ (x, q) :: l2) ->
  exists z s', rbt (rbInsertLeft x p) s = Ret (z, s') /\ only_tr s s' /\
    holds F s' (l1 ++ (z, p) :: (x, q) :: l2).
Proof.
  intros (t & Hv & Hn). destruct (rbInsertLeft_reps _ _ _ _ _ _ _ p Hv Hn) as (z & st' & t' & H1 & H2 & _ & H3).
  exists z, (set_tr st' s). split; [unfold rbt; by rewrite H1 |]. split; [done |]. by exists t'.
Qed.

Lemma holds_insertFirst F s x p :
  holds F s [] ->
  exists z s', rbt (rbInsertLeft x p) s = Ret (z, s') /\ rbt (rbInsertRight x p) s = Ret (z, s') /\
    only_tr s s' /\ holds F s' [(z, p)].
Proof.
  intros (t & (Hr & _) & ->%nodes_fst).
  destruct (rbInsert_empty _ _ x p Hr) as (z & st' & t' & H1 & H2 & H3 & H4).
  exists z, (set_tr st' s). unfold rbt. rewrite H1, H2. split; [done |]. split; [done |]. split; [done |].
  by exists t'.
Qed.

Lemma holds_delete F s l1 x p l2 :
  holds F s (l1 ++ (x, p) :: l2) ->
  exists s' zn, rbt (rbDelete x) s = Ret (tt, s') /\ only_tr s s' /\
    holds (<[x := detached zn]> F) s' (l1 ++ l2).
Proof.
  intros (t & Hv & Hn). destruct (rbDelete_reps _ _ _ _ _ _ _ Hv Hn) as (st' & t' & zn & H1 & H2 & _ & H3).
  exists (set_tr st' s), zn. split; [unfold rbt; by rewrite H1 |]. split; [done |]. by exists t'.
Qed.
