(* ===== verification/PieceTreeText.v ===== *)
(** * Line breaks and the text of pieces

    How line breaks add up when texts are joined, which is where a carriage
    return and a line feed that meet matter; the text a sequence of pieces
    stands for, and when a piece describes its part of a buffer correctly. *)

From stdpp Require Import gmap.
From S2P Require Import Prelude RBTree RBTreeRep RBTreeOps RBTreeInsert RBTreeDelete RBTreeRemove.
From S2P Require Import PieceBuffers PieceTree PieceTreeEdit PieceTreeNodes PieceTreeRead PieceTreeList.

(** ** Line breaks of joined texts *)

(** The number of line breaks of a text. *)
Definition breaks (str : jsstring) : Z := zlen (lineStarts_loop 0 str).

(** No CR LF pair lies across the border of two texts. *)
Definition seam (a b : jsstring) : Prop := ~ (last a = Some CarriageReturn /\ head b = Some LineFeed).

#[global] Instance seam_dec a b : Decision (seam a b).
Proof. unfold seam. apply _. Defined.

Lemma seam_nil_l b : seam [] b.
Proof. by intros [? _]. Qed.

Lemma seam_nil_r a : seam a [].
Proof. by intros [_ ?]. Qed.

Lemma head_app_ne {A} (a b : list A) : a <> [] -> head (a ++ b) = head a.
Proof. by destruct a. Qed.

Lemma last_app_ne {A} (a b : list A) : b <> [] -> last (a ++ b) = last b.
Proof. intros H. rewrite last_app. by destruct (last b) eqn:E; [| apply last_None in E]. Qed.

Lemma seam_app_r a b c : seam a b -> (b = [] -> seam a c) -> seam a (b ++ c).
Proof. intros H1 H2. destruct b as [| x b]; [by apply H2 | done]. Qed.

Lemma seam_app_l a b c : seam b c -> (b = [] -> seam a c) -> seam (a ++ b) c.
Proof.
  intros H1 H2. destruct (decide (b = [])) as [-> | Hb]; [rewrite app_nil_r; by apply H2 |].
  unfold seam. by rewrite last_app_ne.
Qed.

Lemma seam_of_app_r a b c : seam a (b ++ c) -> seam a b.
Proof. unfold seam. destruct b; [intros _ [_ ?]; done | done]. Qed.

Lemma seam_of_app_l a b c : seam (a ++ b) c -> seam b c.
Proof.
  unfold seam. destruct (decide (b = [])) as [-> | Hb]; [by intros _ [? _] | by rewrite last_app_ne].
Qed.

Lemma lineStarts_loop_shift s i d : lineStarts_loop (i + d) s = (fun x => x + d) <$> lineStarts_loop i s.
Proof.
  remember (List.length s) as n eqn:Hn. revert s i Hn.
  induction n as [n IH] using lt_wf_ind. intros [| c s] i ->; cbn [lineStarts_loop]; [done |].
  replace (i + d + 1) with (i + 1 + d) by lia. replace (i + d + 2) with (i + 2 + d) by lia.
  destruct (c === CarriageReturn); [destruct s as [| c2 s]; [done | destruct (c2 === LineFeed)] |
    destruct (c === LineFeed)]; rewrite ?fmap_cons; try f_equal; (eapply IH; [| done]; cbn; lia).
Qed.

Lemma lineStarts_loop_app a b i :
  seam a b -> lineStarts_loop i (a ++ b) = lineStarts_loop i a ++ lineStarts_loop (i + zlen a) b.
Proof.
  remember (List.length a) as n eqn:Hn. revert a i Hn.
  induction n as [n IH] using lt_wf_ind. intros [| c a] i -> Hs; cbn [app lineStarts_loop].
  { by rewrite zlen_nil, Z.add_0_r. }
  assert (seam a b) as Hs1.
  { change (c :: a) with ([c] ++ a) in Hs. by apply seam_of_app_l in Hs. }
  pose proof (fun i => IH (List.length a) ltac:(cbn; lia) a i eq_refl Hs1) as IHa.
  assert (forall j, j + zlen (c :: a) = j + 1 + zlen a) as Hz by (intros; rewrite zlen_cons; lia).
  destruct (Z.eqb_spec c CarriageReturn) as [-> |]; [| destruct (c === LineFeed)];
    [| cbn [app]; by rewrite Hz, IHa ..].
  destruct a as [| c2 a]; cbn [app].
  - rewrite zlen_cons, zlen_nil. destruct b as [| d b]; [done |].
    destruct (Z.eqb_spec d LineFeed) as [-> |]; [by destruct Hs |]. done.
  - destruct (c2 === LineFeed); [| specialize (IHa (i + 1)); rewrite Hz; cbn [app] in IHa |- *; by rewrite IHa].
    rewrite (IH (List.length a)); [| cbn; lia | done |].
    { cbn [app]. rewrite !zlen_cons. replace (i + (1 + (1 + zlen a))) with (i + 2 + zlen a) by lia. done. }
    change (c2 :: a) with ([c2] ++ a) in Hs1. by apply seam_of_app_l in Hs1.
Qed.

Lemma breaks_shift s i : zlen (lineStarts_loop i s) = breaks s.
Proof.
  unfold breaks. rewrite <- (Z.add_0_l i), lineStarts_loop_shift. unfold zlen. by rewrite length_fmap.
Qed.

Lemma breaks_app a b : seam a b -> breaks (a ++ b) = breaks a + breaks b.
Proof.
  intros H. unfold breaks at 1. rewrite lineStarts_loop_app by done.
  by rewrite zlen_app, breaks_shift, breaks_shift.
Qed.

Lemma breaks_nonneg a : 0 <= breaks a.
Proof. apply zlen_nonneg. Qed.

Lemma breaks_snoc_cr a : breaks (a ++ [CarriageReturn]) = breaks a + 1.
Proof. rewrite breaks_app by (by intros [_ ?]). done. Qed.

Lemma breaks_cons_lf a : breaks (LineFeed :: a) = 1 + breaks a.
Proof.
  change (LineFeed :: a) with ([LineFeed] ++ a). rewrite breaks_app by (by intros [? _]). done.
Qed.

Lemma breaks_le a : breaks a <= zlen a.
Proof.
  unfold breaks. remember (List.length a) as n eqn:Hn. revert a Hn. generalize 0 as i.
  induction n as [n IH] using lt_wf_ind. intros i [| c a] ->; cbn [lineStarts_loop]; [done |].
  pose proof (fun i => IH (List.length a) ltac:(cbn; lia) i a eq_refl) as IHa.
  rewrite zlen_cons. pose proof (zlen_nonneg a).
  destruct (c === CarriageReturn); [| destruct (c === LineFeed); rewrite ?zlen_cons; pose proof (IHa (i + 1)); lia].
  destruct a as [| c2 a]; [done |]. destruct (c2 === LineFeed).
  - rewrite !zlen_cons. pose proof (IH (List.length a) ltac:(cbn; lia) (i + 2) a eq_refl). lia.
  - rewrite zlen_cons. pose proof (IHa (i + 1)). lia.
Qed.

(** ** The text of a sequence *)

Notation seq := (list (ref * Piece.t)).

Definition text (bs : list StringBuffer.t) (L : seq) : jsstring := mjoin (contents bs <$> (snd <$> L)).

Lemma text_app bs l k : text bs (l ++ k) = text bs l ++ text bs k.
Proof.
  induction l as [| [x p] l IH]; [done |]. change (contents bs p ++ text bs (l ++ k) = (contents bs p ++ text bs l) ++ text bs k).
  by rewrite IH, app_assoc.
Qed.

Lemma text_cons bs x p l : text bs ((x, p) :: l) = contents bs p ++ text bs l.
Proof. done. Qed.

Lemma text_nil bs : text bs [] = [].
Proof. done. Qed.

(** No CR LF pair lies across two nodes. *)
Definition sealed (bs : list StringBuffer.t) (L : seq) : Prop :=
  forall l1 l2, L = l1 ++ l2 -> seam (text bs l1) (text bs l2).

Lemma sealed_app bs l k :
  sealed bs (l ++ k) <-> sealed bs l /\ sealed bs k /\ seam (text bs l) (text bs k).
Proof.
  split.
  - intros H. split_and!; [intros l1 l2 -> | intros l1 l2 -> | by apply H].
    + eapply seam_of_app_r. rewrite <- text_app. apply H. by rewrite app_assoc.
    + eapply seam_of_app_l. rewrite <- text_app. apply H. by rewrite app_assoc.
  - intros (Hl & Hk & Hs) l1 l2 Heq.
    apply app_eq_app in Heq as (m & [[-> ->] | [-> ->]]); rewrite text_app in *.
    + apply seam_app_r; [by apply Hl |]. intros Hm. by rewrite Hm, app_nil_r in Hs.
    + apply seam_app_l; [by apply Hk |]. intros Hm. by rewrite Hm in Hs.
Qed.

Lemma sealed_one bs x p : sealed bs [(x, p)].
Proof.
  intros [| y l1] l2 H; [apply seam_nil_l |]. injection H as <- H.
  symmetry in H. apply app_nil in H as [-> ->]. apply seam_nil_r.
Qed.

Lemma sealed_nil bs : sealed bs [].
Proof. intros l1 l2 H. symmetry in H. apply app_nil in H as [-> ->]. apply seam_nil_l. Qed.

Lemma sealed_cons bs x p l :
  sealed bs ((x, p) :: l) <-> sealed bs l /\ seam (contents bs p) (text bs l).
Proof.
  change ((x, p) :: l) with ([(x, p)] ++ l). rewrite sealed_app.
  assert (text bs [(x, p)] = contents bs p) as -> by apply app_nil_r.
  pose proof (sealed_one bs x p). tauto.
Qed.

(** ** Pieces and their part of a buffer *)

Lemma starts_nonneg b i x :
  buffer_ok b -> znth (StringBuffer.lineStarts b) i = Some x -> 0 <= x.
Proof.
  intros Hb Hx. assert (x ∈ StringBuffer.lineStarts b) as H by (apply elem_znth; eauto).
  apply elem_of_starts in H as [-> | H%breaks_at_pos]; [lia | lia | done].
Qed.

Lemma cursor_nonneg b c o : buffer_ok b -> cursor_ok b c o -> 0 <= o.
Proof. intros Hb (s & Hs & -> & ? & _). apply (starts_nonneg b) in Hs; [lia | done]. Qed.

Lemma cursor_unique b c1 c2 o : buffer_ok b -> cursor_ok b c1 o -> cursor_ok b c2 o -> c1 = c2.
Proof.
  intros Hb H1 H2. destruct (buffer_starts_ok b Hb) as [HS _].
  pose proof (cursor_line_mono b _ _ _ _ HS H1 H2 ltac:(lia)).
  pose proof (cursor_line_mono b _ _ _ _ HS H2 H1 ltac:(lia)).
  destruct c1 as [l1 k1], c2 as [l2 k2]. cbn in *. assert (l1 = l2) as -> by lia.
  destruct H1 as (s1 & H1 & E1 & _), H2 as (s2 & H2 & E2 & _). cbn in *.
  rewrite H1 in H2. injection H2 as ->. f_equal. lia.
Qed.

(** Piece [p] lies in buffer [b], from offset [so] to offset [eo]. *)
Record spans (bs : list StringBuffer.t) (p : Piece.t) (b : StringBuffer.t) (so eo : Z) : Prop := mkspans {
  sp_buffer : znth bs (Piece.bufferIndex p) = Some b;
  sp_ok : buffer_ok b;
  sp_start : cursor_ok b (Piece.start p) so;
  sp_end : cursor_ok b (Piece.end_ p) eo;
  sp_le : so <= eo;
  sp_length : Piece.length p = eo - so
}.

Arguments sp_buffer {bs p b so eo}.
Arguments sp_ok {bs p b so eo}.
Arguments sp_start {bs p b so eo}.
Arguments sp_end {bs p b so eo}.
Arguments sp_le {bs p b so eo}.
Arguments sp_length {bs p b so eo}.

Lemma spans_bounds bs p b so eo : spans bs p b so eo -> 0 <= so <= eo /\ eo <= zlen (StringBuffer.buffer b).
Proof.
  intros [_ Hb Hs (e & _ & _ & _ & He & _) Hle _]. pose proof (cursor_nonneg _ _ _ Hb Hs). lia.
Qed.

Lemma spans_content bs p b so eo :
  spans bs p b so eo -> getPieceContent bs p = Ret (js_substring (StringBuffer.buffer b) so eo).
Proof.
  intros [Hi _ Hs He _ _]. unfold getPieceContent, buffer_at. rewrite Hi. cbn.
  rewrite (offsetInBuffer_ok _ _ _ _ _ Hi Hs). cbn. by rewrite (offsetInBuffer_ok _ _ _ _ _ Hi He).
Qed.

Lemma spans_contents bs p b so eo :
  spans bs p b so eo -> contents bs p = js_substring (StringBuffer.buffer b) so eo.
Proof. intros H. unfold contents. by rewrite (spans_content _ _ _ _ _ H). Qed.

Lemma zlen_substring (l : jsstring) s e : 0 <= s <= e -> e <= zlen l -> zlen (js_substring l s e) = e - s.
Proof. intros. rewrite js_substring_eq, zlen_ztake by (rewrite ?zlen_zdrop; lia). done. Qed.

Lemma spans_zlen bs p b so eo : spans bs p b so eo -> zlen (contents bs p) = Piece.length p.
Proof.
  intros H. destruct (spans_bounds _ _ _ _ _ H). rewrite (spans_contents _ _ _ _ _ H), (sp_length H).
  by apply zlen_substring.
Qed.

(** A piece with text, and with the right number of line breaks. *)
Definition piece_ok (bs : list StringBuffer.t) (p : Piece.t) : Prop :=
  exists b so eo, spans bs p b so eo /\ so < eo /\ Piece.lineFeedCnt p = breaks (contents bs p).

Lemma piece_ok_length bs p : piece_ok bs p -> 0 < Piece.length p.
Proof. intros (b & so & eo & H & ? & _). rewrite (sp_length H). lia. Qed.

Lemma piece_ok_zlen bs p : piece_ok bs p -> zlen (contents bs p) = Piece.length p.
Proof. intros (b & so & eo & H & ? & _). by eapply spans_zlen. Qed.

Lemma piece_ok_ne bs p : piece_ok bs p -> contents bs p <> [].
Proof.
  intros H E. pose proof (piece_ok_zlen _ _ H) as Hz. rewrite E, zlen_nil in Hz.
  apply piece_ok_length in H. lia.
Qed.

Notation pieces_ok bs L := (Forall (fun n => piece_ok bs (snd n)) L).

Lemma text_size bs L : pieces_ok bs L -> nsize L = zlen (text bs L).
Proof.
  induction 1 as [| [x p] L Hp HL IH]; [done |].
  rewrite nsize_cons, text_cons, zlen_app, IH. by rewrite (piece_ok_zlen bs p).
Qed.

Lemma text_of_ok bs L : pieces_ok bs L -> text_of bs L = Some (text bs L).
Proof.
  induction 1 as [| [x p] L Hp HL IH]; [done |]. cbn [text_of]. rewrite IH.
  pose proof (piece_ok_zlen _ _ Hp) as Hz. destruct Hp as (b & so & eo & Hsp & _). cbn [snd] in *.
  pose proof (spans_content _ _ _ _ _ Hsp) as Hc. unfold contents in Hz. rewrite Hc in *.
  rewrite Hz, Z.eqb_refl, text_cons. unfold contents. by rewrite Hc.
Qed.

Lemma breaks_text bs L :
  pieces_ok bs L -> sealed bs L -> zsum (Piece.lineFeedCnt ∘ snd <$> L) = breaks (text bs L).
Proof.
  induction 1 as [| [x p] L Hp HL IH]; [done |]. intros [Hs Hseam]%sealed_cons.
  rewrite fmap_cons, zsum_cons, text_cons, breaks_app by done. rewrite IH by done.
  destruct Hp as (b & so & eo & _ & _ & Hlf). unfold compose. cbn [snd] in *. by rewrite Hlf.
Qed.

Lemma ztake_substring (l : jsstring) s e k :
  0 <= s <= e -> e <= zlen l -> 0 <= k <= e - s -> ztake k (js_substring l s e) = js_substring l s (s + k).
Proof.
  intros. rewrite !js_substring_eq by lia. unfold ztake. rewrite take_take. f_equal. lia.
Qed.

Lemma zdrop_substring (l : jsstring) s e k :
  0 <= s <= e -> e <= zlen l -> 0 <= k <= e - s -> zdrop k (js_substring l s e) = js_substring l (s + k) e.
Proof.
  intros. rewrite !js_substring_eq by lia. unfold ztake, zdrop.
  rewrite skipn_firstn_comm, drop_drop. f_equal; [lia |]. f_equal. lia.
Qed.

(** The part of a piece before a cursor, and the part from it on. *)
Lemma spans_head bs p b so eo c m lf len :
  spans bs p b so eo -> cursor_ok b c m -> so <= m <= eo -> len = m - so ->
  let p' := Piece.mk (Piece.bufferIndex p) (Piece.start p) c lf len in
  spans bs p' b so m /\ contents bs p' = ztake (m - so) (contents bs p).
Proof.
  intros H Hc Hm -> p'. pose proof (spans_bounds _ _ _ _ _ H).
  assert (spans bs p' b so m) as Hp' by (destruct H; constructor; cbn; done || lia).
  split; [done |]. rewrite (spans_contents _ _ _ _ _ H), (spans_contents _ _ _ _ _ Hp').
  rewrite ztake_substring by lia. f_equal. lia.
Qed.

Lemma spans_tail bs p b so eo c m lf len :
  spans bs p b so eo -> cursor_ok b c m -> so <= m <= eo -> len = eo - m ->
  let p' := Piece.mk (Piece.bufferIndex p) c (Piece.end_ p) lf len in
  spans bs p' b m eo /\ contents bs p' = zdrop (m - so) (contents bs p).
Proof.
  intros H Hc Hm -> p'. pose proof (spans_bounds _ _ _ _ _ H).
  assert (spans bs p' b m eo) as Hp' by (destruct H; constructor; cbn; done || lia).
  split; [done |]. rewrite (spans_contents _ _ _ _ _ H), (spans_contents _ _ _ _ _ Hp').
  rewrite zdrop_substring by lia. f_equal. lia.
Qed.

(** [getLineFeedCnt] between two cursors of the buffer of a piece. *)
Lemma spans_lf bs p b so eo :
  spans bs p b so eo -> so < eo ->
  getLineFeedCnt bs (Piece.bufferIndex p) (Piece.start p) (Piece.end_ p) = Ret (breaks (contents bs p)).
Proof.
  intros H Hlt. pose proof (spans_bounds _ _ _ _ _ H). rewrite (spans_contents _ _ _ _ _ H).
  destruct H as [Hi Hb Hs He _ _]. apply (getLineFeedCnt_ok _ _ b _ so _ eo); done || lia.
Qed.

(** Counting line breaks never fails, also between equal cursors. *)
Lemma getLineFeedCnt_runs bs i b c1 c2 o :
  znth bs i = Some b -> cursor_ok b c2 o -> exists n, getLineFeedCnt bs i c1 c2 = Ret n.
Proof.
  intros Hi (s & Hs & _). pose proof (znth_Some _ _ _ Hs). unfold getLineFeedCnt, buffer_at. rewrite Hi. cbn.
  destruct (_ === 0); [eauto |]. destruct (Z.eqb_spec (BufferCursor.line c2) (zlen (StringBuffer.lineStarts b) - 1)); [eauto |].
  destruct (num_at_in (StringBuffer.lineStarts b) (BufferCursor.line c2 + 1)) as (v & _ & ->); [lia |].
  rewrite (proj2 (num_at_Ret _ _ _) Hs). cbn. destruct (_ <? v); [eauto |]. destruct (_ === 13); eauto.
Qed.
