(* ===== verification/PieceTreePieces.v ===== *)
(** * New pieces

    [createNewPieces] of the piece table: it stores a text in the buffers, which
    keeps the text of every piece that is already there, and returns pieces for
    it. *)

From stdpp Require Import gmap.
From S2P Require Import Prelude RBTree RBTreeRep RBTreeOps RBTreeInsert RBTreeDelete RBTreeRemove.
From S2P Require Import PieceBuffers PieceTree PieceTreeEdit PieceTreeNodes PieceTreeRead PieceTreeList PieceTreeText.

(** ** Buffers that grow *)

(** The buffers are right, and [lc] is the end of the change buffer. *)
Definition bufs_ok (bs : list StringBuffer.t) (lc : BufferCursor.t) : Prop :=
  Forall buffer_ok bs /\ exists b0, head bs = Some b0 /\ cursor_ok b0 lc (zlen (StringBuffer.buffer b0)).

(** The size of the change buffer. *)
Definition blen (bs : list StringBuffer.t) : Z :=
  match bs with b0 :: _ => zlen (StringBuffer.buffer b0) | [] => 0 end.

Lemma blen_nonneg bs : 0 <= blen bs.
Proof. destruct bs; [done |]. apply zlen_nonneg. Qed.

(** Every piece keeps its text. *)
Definition grows (bs bs' : list StringBuffer.t) : Prop :=
  forall p b so eo, spans bs p b so eo -> exists b', spans bs' p b' so eo /\
    js_substring (StringBuffer.buffer b') so eo = js_substring (StringBuffer.buffer b) so eo.

Lemma grows_refl bs : grows bs bs.
Proof. intros p b so eo H. by exists b. Qed.

Lemma grows_trans bs1 bs2 bs3 : grows bs1 bs2 -> grows bs2 bs3 -> grows bs1 bs3.
Proof.
  intros H1 H2 p b so eo H. destruct (H1 _ _ _ _ H) as (b' & H' & E'). destruct (H2 _ _ _ _ H') as (b'' & H'' & E'').
  exists b''. by rewrite E''.
Qed.

Lemma grows_contents bs bs' p b so eo :
  grows bs bs' -> spans bs p b so eo -> contents bs' p = contents bs p.
Proof.
  intros Hg H. destruct (Hg _ _ _ _ H) as (b' & H' & E).
  by rewrite (spans_contents _ _ _ _ _ H), (spans_contents _ _ _ _ _ H').
Qed.

(** The pieces of [L] keep their texts. *)
Definition keeps (bs bs' : list StringBuffer.t) (L : seq) : Prop :=
  Forall (fun n => contents bs' (snd n) = contents bs (snd n) /\
                   (piece_ok bs (snd n) -> piece_ok bs' (snd n))) L.

Lemma grows_keeps_one bs bs' p :
  grows bs bs' -> (exists b so eo, spans bs p b so eo) ->
  contents bs' p = contents bs p /\ (piece_ok bs p -> piece_ok bs' p).
Proof.
  intros Hg (b & so & eo & H). split; [by eapply grows_contents |].
  intros (c & s & e & H1 & Hlt & Hlf). destruct (Hg _ _ _ _ H1) as (c' & H1' & _).
  exists c', s, e. split; [done |]. split; [done |]. by rewrite (grows_contents _ _ _ _ _ _ Hg H1).
Qed.

Lemma piece_ok_spans bs p : piece_ok bs p -> exists b so eo, spans bs p b so eo.
Proof. intros (b & so & eo & H & _). eauto. Qed.

Lemma grows_keeps bs bs' L : grows bs bs' -> pieces_ok bs L -> keeps bs bs' L.
Proof.
  intros Hg HL. eapply Forall_impl; [exact HL |]. cbn. intros n Hn.
  apply grows_keeps_one; [done |]. by apply piece_ok_spans.
Qed.

Lemma keeps_text bs bs' L : keeps bs bs' L -> text bs' L = text bs L.
Proof. induction 1 as [| [x p] L [Hp _] HL IH]; [done |]. rewrite !text_cons, IH. cbn in Hp. by rewrite Hp. Qed.

Lemma keeps_pieces_ok bs bs' L : keeps bs bs' L -> pieces_ok bs L -> pieces_ok bs' L.
Proof. induction 1 as [| [x p] L [_ Hp] HL IH]; [done |]. intros [? ?]%Forall_cons. constructor; auto. Qed.

Lemma keeps_sealed bs bs' L : keeps bs bs' L -> sealed bs L -> sealed bs' L.
Proof.
  intros Hk Hs l1 l2 ->. apply Forall_app in Hk as [Hk1 Hk2].
  rewrite (keeps_text _ _ _ Hk1), (keeps_text _ _ _ Hk2). by apply Hs.
Qed.

(** A buffer with a text appended. *)
Definition extend (b : StringBuffer.t) (u : jsstring) : StringBuffer.t :=
  StringBuffer.mk (StringBuffer.buffer b ++ u)
    (StringBuffer.lineStarts b ++ lineStarts_loop (zlen (StringBuffer.buffer b)) u).

Lemma zlen_starts b : buffer_ok b -> zlen (StringBuffer.lineStarts b) <= 1 + zlen (StringBuffer.buffer b).
Proof. intros [-> _]. rewrite zlen_cons. pose proof (breaks_le (StringBuffer.buffer b)). unfold breaks in *. lia. Qed.

Lemma extend_ok b u :
  buffer_ok b -> seam (StringBuffer.buffer b) u -> zlen (StringBuffer.buffer b) + zlen u < 2 ^ 31 - 1 ->
  buffer_ok (extend b u).
Proof.
  intros Hb Hs Hz. pose proof (zlen_starts b Hb) as Hl. destruct Hb as [Hb _]. split; cbn.
  - rewrite Hb, lineStarts_loop_app by done. by rewrite Z.add_0_l.
  - rewrite zlen_app, breaks_shift. pose proof (breaks_le u). lia.
Qed.

Lemma extend_cursor b u c o : buffer_ok b -> cursor_ok b c o -> cursor_ok (extend b u) c o.
Proof.
  intros Hb (s & Hs & -> & Hc & Hle & Hn). pose proof (znth_Some _ _ _ Hs) as Hl.
  exists s. cbn. split_and!; [| done | done | rewrite zlen_app; pose proof (zlen_nonneg u); lia |].
  - by rewrite znth_app_l by lia.
  - intros next Hnext. destruct (decide (BufferCursor.line c + 1 < zlen (StringBuffer.lineStarts b))) as [H | H].
    + rewrite znth_app_l in Hnext by lia. by apply Hn.
    + rewrite znth_app_r in Hnext by lia.
      assert (next ∈ lineStarts_loop (zlen (StringBuffer.buffer b)) u) as Hin by (apply elem_znth; eauto).
      apply lineStarts_loop_spec, breaks_at_pos in Hin. lia.
Qed.

Lemma extend_spans b bs u p c so eo :
  seam (StringBuffer.buffer b) u -> zlen (StringBuffer.buffer b) + zlen u < 2 ^ 31 - 1 ->
  spans (b :: bs) p c so eo ->
  exists c', spans (extend b u :: bs) p c' so eo /\
    js_substring (StringBuffer.buffer c') so eo = js_substring (StringBuffer.buffer c) so eo.
Proof.
  intros Hs Hz H. pose proof (spans_bounds _ _ _ _ _ H) as Hbd. destruct H as [Hi Hc H1 H2 Hle Hl].
  destruct (decide (Piece.bufferIndex p = 0)) as [E | E].
  - rewrite E, znth_cons_0 in Hi. injection Hi as <-. exists (extend b u). split.
    + constructor; try done; [by rewrite E | by apply extend_ok | by apply extend_cursor ..].
    + rewrite !js_substring_eq by (cbn; rewrite ?zlen_app; pose proof (zlen_nonneg u); lia). cbn.
      rewrite zdrop_app_l by lia. by rewrite ztake_app_l by (rewrite zlen_zdrop; lia).
  - exists c. split; [| done]. constructor; try done.
    pose proof (znth_Some _ _ _ Hi). rewrite znth_cons_S in Hi |- * by lia. done.
Qed.

Lemma append_spans bs b p c so eo : spans bs p c so eo -> spans (bs ++ [b]) p c so eo.
Proof.
  intros [Hi ? ? ? ? ?]. constructor; try done. pose proof (znth_Some _ _ _ Hi). by rewrite znth_app_l by lia.
Qed.

(** ** The piece that ends where the change buffer ends *)

Definition tip (lc : BufferCursor.t) (p : Piece.t) : bool :=
  (Piece.bufferIndex p === 0) && bool_decide (Piece.end_ p = lc).

(** How many pieces end there; never more than one in a document. *)
Fixpoint tips (lc : BufferCursor.t) (L : seq) : nat :=
  match L with [] => 0 | (_, p) :: L => (if tip lc p then 1 else 0) + tips lc L end.

Lemma tips_app lc l k : tips lc (l ++ k) = (tips lc l + tips lc k)%nat.
Proof. induction l as [| [x p] l IH]; cbn; [done |]. rewrite IH. lia. Qed.

Lemma tip_end bs lc p b so eo b0 :
  Forall buffer_ok bs -> head bs = Some b0 -> cursor_ok b0 lc (zlen (StringBuffer.buffer b0)) ->
  spans bs p b so eo -> tip lc p = true -> b = b0 /\ eo = zlen (StringBuffer.buffer b0).
Proof.
  intros Hbs Hb0 Hlc [Hi Hb _ He _ _] [Hidx He0]%andb_true_iff.
  apply Z.eqb_eq in Hidx. apply bool_decide_eq_true in He0. rewrite Hidx in Hi.
  destruct bs as [| b1 bs]; [done |]. injection Hb0 as ->. rewrite znth_cons_0 in Hi. injection Hi as <-.
  split; [done |]. rewrite He0 in He. destruct He as (s1 & H1 & -> & _), Hlc as (s2 & H2 & -> & _).
  rewrite H1 in H2. by injection H2 as ->.
Qed.

Lemma tip_before bs lc p b so eo b0 :
  Forall buffer_ok bs -> head bs = Some b0 -> cursor_ok b0 lc (zlen (StringBuffer.buffer b0)) ->
  spans bs p b so eo -> eo < zlen (StringBuffer.buffer b) -> tip lc p = false.
Proof.
  intros Hbs Hb0 Hlc Hsp Hlt. destruct (tip lc p) eqn:E; [| done].
  destruct (tip_end _ _ _ _ _ _ _ Hbs Hb0 Hlc Hsp E) as [-> ->]. lia.
Qed.

(** ** [createNewPieces] *)

Lemma pushBuffer_ok s u :
  u <> [] -> zlen u < 2 ^ 31 - 1 -> _buffers s <> [] ->
  exists p s', pushBuffer u s = Ret (p, s') /\ s' = set_buffers (_buffers s') s /\
    (exists b, _buffers s' = _buffers s ++ [b] /\ buffer_ok b) /\
    piece_ok (_buffers s') p /\ contents (_buffers s') p = u /\ Piece.bufferIndex p <> 0.
Proof.
  intros Hu Hz Hbs. unfold pushBuffer. erewrite pbind_run by done.
  rewrite createLineStartsFast_eq by lia. set (ls := 0 :: lineStarts_loop 0 u).
  assert (buffer_ok (StringBuffer.mk u ls)) as Hb.
  { split; [done |]. cbn. unfold ls. rewrite zlen_cons. pose proof (breaks_le u). unfold breaks in *. lia. }
  destruct (last ls) as [e |] eqn:He; [| by apply last_None in He].
  assert (znth ls (zlen ls - 1) = Some e) as Hlast.
  { rewrite last_lookup in He. unfold znth, zlen.
    rewrite (proj2 (Z.ltb_ge _ _)) by (cbn; lia). rewrite <- He. f_equal. cbn. lia. }
  erewrite pbind_run by done. erewrite pbind_run by done.
  eexists _, _. split; [done |]. cbn. split; [done |].
  assert (0 < zlen u) as Hpos by (destruct u; [done | rewrite zlen_cons; pose proof (zlen_nonneg u); lia]).
  assert (e <= zlen u) as Hle.
  { assert (e ∈ ls) as H by (apply elem_znth; eauto).
    apply (elem_of_starts _ _ Hb) in H as [-> | H%breaks_at_pos]; cbn in *; lia. }
  set (p := Piece.mk _ _ _ _ _).
  assert (spans (_buffers s ++ [StringBuffer.mk u ls]) p (StringBuffer.mk u ls) 0 (zlen u)) as Hsp.
  { constructor; cbn; [| done | | | lia | lia].
    - by apply znth_mid.
    - exists 0. cbn. split_and!; try done; [lia |]. intros next Hn.
      eapply (sorted_znth ls 0 1 0 next); [apply lineStarts_loop_sorted | done | done | lia].
    - exists e. cbn. split_and!; [done | lia | lia | lia |]. intros next Hn%znth_Some. lia. }
  pose proof (spans_contents _ _ _ _ _ Hsp) as Hc. cbn [StringBuffer.buffer] in Hc.
  rewrite js_substring_eq, Z.sub_0_r, zdrop_0, ztake_all in Hc by lia.
  split_and!.
  - by exists (StringBuffer.mk u ls).
  - exists (StringBuffer.mk u ls), 0, (zlen u). split; [done |]. split; [done |].
    rewrite Hc. cbn. unfold breaks, ls. rewrite zlen_cons. lia.
  - done.
  - destruct (_buffers s); [done |]. rewrite zlen_cons. pose proof (zlen_nonneg l). lia.
Qed.

Lemma appends_grows bs more : grows bs (bs ++ more).
Proof.
  intros p c so eo [Hi ? ? ? ? ?]. exists c. split; [| done]. constructor; try done.
  pose proof (znth_Some _ _ _ Hi). by rewrite znth_app_l by lia.
Qed.

(** New pieces [ps] in the buffers [bs] that hold the text [u]. *)
Definition holds_text (bs : list StringBuffer.t) (ps : list Piece.t) (u : jsstring) : Prop :=
  ps <> [] /\ Forall (piece_ok bs) ps /\ forall L : seq, snd <$> L = ps -> text bs L = u /\ sealed bs L.

Lemma holds_text_one bs p : piece_ok bs p -> holds_text bs [p] (contents bs p).
Proof.
  intros Hp. split; [done |]. split; [by repeat constructor |]. intros [| [x q] [| ]] [= ->].
  split; [apply app_nil_r | apply sealed_one].
Qed.

Lemma holds_text_cons bs bs' p ps u :
  grows bs bs' -> piece_ok bs p -> holds_text bs' ps u -> seam (contents bs p) u ->
  holds_text bs' (p :: ps) (contents bs p ++ u).
Proof.
  intros Hg Hp (Hne & Hps & HL) Hs. destruct (grows_keeps_one _ _ _ Hg (piece_ok_spans _ _ Hp)) as [Hc Hok].
  split; [done |]. split; [constructor; auto |]. intros [| [x q] L] [= -> H].
  destruct (HL L H) as [Ht HsL]. rewrite text_cons, Hc, Ht. split; [done |].
  apply sealed_cons. by rewrite Hc, Ht.
Qed.

Lemma holds_text_ok bs ps u (L : seq) : holds_text bs ps u -> snd <$> L = ps -> pieces_ok bs L.
Proof. intros (_ & H & _) <-. by rewrite Forall_fmap in H. Qed.

(** Where the loop cuts a large text. *)
Lemma cut_seam (u : jsstring) :
  AverageBufferSize < zlen u ->
  let lastChar := charCodeAt u (AverageBufferSize - 1) in
  let n := if (lastChar === CarriageReturn) || ((55296 <=? lastChar) && (lastChar <=? 56319))
           then AverageBufferSize - 1 else AverageBufferSize in
  0 < n <= AverageBufferSize /\ seam (ztake n u) (zdrop n u).
Proof.
  intros Hz lastChar n. change AverageBufferSize with 65535 in *.
  assert (znth u 65534 = Some lastChar) as Hl.
  { destruct (znth_is_Some u 65534 ltac:(lia)) as [v Hv]. unfold lastChar, charCodeAt.
    change (65535 - 1) with 65534. by rewrite Hv. }
  assert (0 < n <= 65535) as Hn by (unfold n; destruct (_ || _); lia). split; [done |].
  intros [H1 H2]. rewrite last_lookup in H1. unfold ztake in H1. rewrite length_take in H1.
  unfold zlen in Hz. rewrite lookup_take_lt in H1 by lia. unfold zdrop in H2. rewrite head_lookup, lookup_drop in H2.
  unfold znth in Hl. rewrite (proj2 (Z.ltb_ge _ _)) in Hl by lia. revert H1 H2. unfold n.
  change (65535 - 1) with 65534.
  destruct (Z.eqb_spec lastChar CarriageReturn) as [E | E]; cbn [orb].
  - intros _ H. rewrite Nat.add_0_r, Hl in H. injection H as H. rewrite E in H. done.
  - destruct ((55296 <=? lastChar) && (lastChar <=? 56319)) eqn:E2.
    + intros _ H. rewrite Nat.add_0_r, Hl in H. injection H as H. rewrite H in E2. done.
    + intros H _. replace (Init.Nat.pred (Z.to_nat 65535 `min` List.length u)) with (Z.to_nat 65534) in H by lia.
      rewrite Hl in H. injection H as H. done.
Qed.

Lemma largePieces_ok fuel s u acc :
  u <> [] -> (List.length u < fuel)%nat -> _buffers s <> [] ->
  exists ps s', largePieces fuel u acc s = Ret (acc ++ ps, s') /\ s' = set_buffers (_buffers s') s /\
    (exists more, _buffers s' = _buffers s ++ more /\ Forall buffer_ok more) /\
    holds_text (_buffers s') ps u /\ Forall (fun p => Piece.bufferIndex p <> 0) ps.
Proof.
  revert s u acc. induction fuel as [| fuel IH]; intros s u acc Hu Hf Hbs; [lia |]. cbn [largePieces].
  destruct (Z.ltb_spec AverageBufferSize (zlen u)) as [Hlt | Hge].
  - destruct (cut_seam u Hlt) as [Hn Hseam]. set (n := if _ || _ then _ else _) in *.
    unfold AverageBufferSize in Hlt, Hn.
    replace (js_substring u 0 n) with (ztake n u) by (rewrite js_substring_eq, zdrop_0, Z.sub_0_r by lia; done).
    replace (js_substring u n (zlen u)) with (zdrop n u)
      by (rewrite js_substring_eq, ztake_all by (rewrite ?zlen_zdrop; lia); done).
    destruct (pushBuffer_ok s (ztake n u)) as (p & s1 & H1 & Hs1 & (b & Hb & Hbok) & Hp & Hc & Hidx).
    { intros E. apply (f_equal zlen) in E. rewrite zlen_ztake, zlen_nil in E by lia. lia. }
    { rewrite zlen_ztake by lia. lia. }
    { done. }
    erewrite pbind_run by exact H1.
    assert (zlen (zdrop n u) = zlen u - n) as Hzd by (apply zlen_zdrop; lia).
    destruct (IH s1 (zdrop n u) (acc ++ [p])) as (ps & s2 & H2 & Hs2 & (more & Hm & Hmok) & Hps & Hidxs).
    { intros E. rewrite E, zlen_nil in Hzd. lia. }
    { unfold zlen in *. lia. }
    { rewrite Hb. by destruct (_buffers s). }
    exists (p :: ps), s2. rewrite H2, <- app_assoc. split; [done |]. split; [by rewrite Hs2, Hs1 |].
    split; [exists (b :: more); rewrite Hm, Hb, <- app_assoc; split; [done | by constructor] |].
    split; [| by constructor].
    assert (u = contents (_buffers s1) p ++ zdrop n u) as Hu' by (by rewrite Hc, ztake_zdrop).
    rewrite Hu'. apply holds_text_cons; [rewrite Hm; apply appends_grows | done | done | by rewrite Hc].
  - unfold AverageBufferSize in Hge.
    destruct (pushBuffer_ok s u Hu ltac:(lia) Hbs) as (p & s1 & H1 & Hs1 & (b & Hb & Hbok) & Hp & Hc & Hidx).
    erewrite pbind_run by exact H1. exists [p], s1. split; [done |]. split; [done |].
    split; [exists [b]; split; [done | by apply Forall_singleton] |]. split; [| by apply Forall_singleton].
    rewrite <- Hc. by apply holds_text_one.
Qed.

(** The change buffer with [u] appended, as the code builds its line starts. *)
Lemma extend_code b u :
  extend b u = StringBuffer.mk (StringBuffer.buffer b ++ u)
    (StringBuffer.lineStarts b ++ tail ((fun x => x + zlen (StringBuffer.buffer b)) <$> createLineStartsFast u false)).
Proof.
  unfold extend, createLineStartsFast. cbn [fmap list_fmap tail].
  rewrite <- (Z.add_0_l (zlen (StringBuffer.buffer b))) at 1. by rewrite lineStarts_loop_shift.
Qed.

(** The cursor at the end of a buffer. *)
Definition end_of (b : StringBuffer.t) : BufferCursor.t :=
  BufferCursor.mk (zlen (StringBuffer.lineStarts b) - 1)
    (zlen (StringBuffer.buffer b) - default 0 (last (StringBuffer.lineStarts b))).

Lemma znth_last {A} (l : list A) : znth l (zlen l - 1) = last l.
Proof.
  rewrite last_lookup. destruct l as [| x l]; [done |]. unfold znth, zlen.
  rewrite (proj2 (Z.ltb_ge _ _)) by (cbn; lia). f_equal. cbn. lia.
Qed.

Lemma starts_last b : buffer_ok b -> exists e, last (StringBuffer.lineStarts b) = Some e /\ 0 <= e <= zlen (StringBuffer.buffer b).
Proof.
  intros Hb. destruct (last (StringBuffer.lineStarts b)) as [e |] eqn:He.
  - exists e. split; [done |]. rewrite <- znth_last in He.
    assert (e ∈ StringBuffer.lineStarts b) as H by (apply elem_znth; eauto).
    pose proof (zlen_nonneg (StringBuffer.buffer b)).
    apply elem_of_starts in H as [-> | H%breaks_at_pos]; [lia | lia | done].
  - apply last_None in He. destruct Hb as [Hb _]. by rewrite Hb in He.
Qed.

Lemma end_of_ok b : buffer_ok b -> cursor_ok b (end_of b) (zlen (StringBuffer.buffer b)).
Proof.
  intros Hb. destruct (starts_last b Hb) as (e & He & Hle). exists e. unfold end_of. cbn. rewrite He. cbn.
  rewrite znth_last. split_and!; [done | lia | lia | lia |]. intros next Hn%znth_Some. lia.
Qed.

Lemma lastChange_eq b c : buffer_ok b -> cursor_ok b c (zlen (StringBuffer.buffer b)) -> c = end_of b.
Proof. intros Hb Hc. eapply cursor_unique; [done | exact Hc | by apply end_of_ok]. Qed.

(** A piece for the whole of what was appended to the change buffer after its
    first [so] units. *)
Lemma appended_piece b rest so start :
  buffer_ok b -> cursor_ok b start so -> so < zlen (StringBuffer.buffer b) ->
  exists lastStart lfc,
    num_at (StringBuffer.lineStarts b) (zlen (StringBuffer.lineStarts b) - 1) = Ret lastStart /\
    BufferCursor.mk (zlen (StringBuffer.lineStarts b) - 1) (zlen (StringBuffer.buffer b) - lastStart) = end_of b /\
    getLineFeedCnt (b :: rest) 0 start (end_of b) = Ret lfc /\
    let p := Piece.mk 0 start (end_of b) lfc (zlen (StringBuffer.buffer b) - so) in
    spans (b :: rest) p b so (zlen (StringBuffer.buffer b)) /\ piece_ok (b :: rest) p /\
    contents (b :: rest) p = zdrop so (StringBuffer.buffer b).
Proof.
  intros Hb Hs Hlt. destruct (starts_last b Hb) as (e & He & Hle).
  pose proof (end_of_ok b Hb) as Hend. set (p lfc := Piece.mk 0 start (end_of b) lfc (zlen (StringBuffer.buffer b) - so)).
  assert (forall lfc, spans (b :: rest) (p lfc) b so (zlen (StringBuffer.buffer b))) as Hsp
    by (intros lfc; constructor; cbn; done || lia).
  exists e, (breaks (contents (b :: rest) (p 0))). split_and!.
  - apply num_at_Ret. by rewrite znth_last.
  - unfold end_of. by rewrite He.
  - apply (spans_lf _ _ _ _ _ (Hsp 0) Hlt).
  - cbn zeta. fold (p (breaks (contents (b :: rest) (p 0)))). split; [apply Hsp |]. split.
    + exists b, so, (zlen (StringBuffer.buffer b)). split; [apply Hsp |]. split; [done |]. done.
    + rewrite (spans_contents _ _ _ _ _ (Hsp _)). pose proof (cursor_nonneg _ _ _ Hb Hs).
      by rewrite js_substring_eq, ztake_all by (rewrite ?zlen_zdrop; lia).
Qed.

Lemma startWithLF_str_spec u : startWithLF_str u = true <-> head u = Some LineFeed.
Proof.
  unfold startWithLF_str, charCodeAt, LineFeed. destruct u as [| c u]; [done |]. rewrite znth_cons_0. cbn.
  rewrite Z.eqb_eq. split; [by intros -> | by intros [= ->]].
Qed.

Lemma endWithCR_str_spec u : endWithCR_str u = true <-> last u = Some CarriageReturn.
Proof.
  unfold endWithCR_str, charCodeAt, CarriageReturn. rewrite znth_last. destruct (last u) as [c |]; cbn; [| done].
  rewrite Z.eqb_eq. split; [by intros -> | by intros [= ->]].
Qed.

Lemma str_seam a b : startWithLF_str b && endWithCR_str a = false -> seam a b.
Proof.
  intros H [H1 H2]. apply endWithCR_str_spec in H1. apply startWithLF_str_spec in H2. by rewrite H1, H2 in H.
Qed.

(** A buffer that ends with CR has its last line start at its end. *)
Lemma last_start_cr b :
  buffer_ok b -> last (StringBuffer.buffer b) = Some CarriageReturn ->
  exists ls, StringBuffer.lineStarts b = ls ++ [zlen (StringBuffer.buffer b)] /\
    0 :: lineStarts_loop 0 (removelast (StringBuffer.buffer b)) = ls /\
    StringBuffer.buffer b = removelast (StringBuffer.buffer b) ++ [CarriageReturn].
Proof.
  intros [Hb _] [l Hl]%last_Some. assert (removelast (StringBuffer.buffer b) = l) as Hrl by (rewrite Hl; apply removelast_last).
  rewrite Hrl. exists (0 :: lineStarts_loop 0 l). rewrite Hb, Hl. split; [| done].
  rewrite lineStarts_loop_app by (by intros [_ ?]). by rewrite zlen_app.
Qed.

Definition newPieces_spec (s s' : state) (ps : list Piece.t) (u : jsstring) : Prop :=
  kept s s' /\ tr s' = tr s /\ bufs_ok (_buffers s') (_lastChangeBufferPos s') /\
  grows (_buffers s) (_buffers s') /\ holds_text (_buffers s') ps u /\
  blen (_buffers s') <= blen (_buffers s) + zlen u + 1 /\
  (zlen u <= AverageBufferSize -> exists p, ps = [p]) /\
  (forall L L' : seq, Forall (fun n => exists b so eo, spans (_buffers s) (snd n) b so eo) L ->
     snd <$> L' = ps -> (tips (_lastChangeBufferPos s) L <= 1)%nat ->
     (tips (_lastChangeBufferPos s') L + tips (_lastChangeBufferPos s') L' <= 1)%nat).

Lemma tips_none lc (L : seq) : Forall (fun n => tip lc (snd n) = false) L -> tips lc L = 0%nat.
Proof. induction 1 as [| [x p] L Hp HL IH]; [done |]. cbn in *. by rewrite Hp, IH. Qed.

(** The change buffer grows from [so] units on by [u], for which it returns a
    piece. *)
Lemma newPiece_spec s s' b0 b rest u start so lfc :
  _buffers s = b0 :: rest -> Forall buffer_ok (_buffers s) -> buffer_ok b ->
  _buffers s' = b :: rest -> _lastChangeBufferPos s' = end_of b -> kept s s' -> tr s' = tr s ->
  grows (b0 :: rest) (b :: rest) -> (exists w, StringBuffer.buffer b = StringBuffer.buffer b0 ++ w) ->
  zlen (StringBuffer.buffer b0) <= so <= zlen (StringBuffer.buffer b0) + 1 ->
  zdrop so (StringBuffer.buffer b) = u -> u <> [] -> zlen (StringBuffer.buffer b) = so + zlen u ->
  (let p := Piece.mk 0 start (end_of b) lfc (zlen (StringBuffer.buffer b) - so) in
   spans (b :: rest) p b so (zlen (StringBuffer.buffer b)) /\ piece_ok (b :: rest) p /\
   contents (b :: rest) p = zdrop so (StringBuffer.buffer b)) ->
  newPieces_spec s s' [Piece.mk 0 start (end_of b) lfc (zlen (StringBuffer.buffer b) - so)] u.
Proof.
  intros Hbs Hok Hb Hbs' Hlc Hk Ht Hg (w & Hw) Hso Hu Hne Hz (Hsp & Hp & Hc).
  assert (Forall buffer_ok (b :: rest)) as Hok'.
  { rewrite Hbs in Hok. apply Forall_cons in Hok as [_ ?]. by constructor. }
  assert (0 < zlen u) as Hpos by (destruct u; [done | rewrite zlen_cons; pose proof (zlen_nonneg u); lia]).
  unfold newPieces_spec. rewrite Hbs', Hlc, Hbs. split_and!; try done.
  - split; [done |]. exists b. split; [done | by apply end_of_ok].
  - rewrite <- Hu, <- Hc. by apply holds_text_one.
  - cbn. lia.
  - intros _. eauto.
  - intros L L' HL HL' _. rewrite tips_none.
    + destruct L' as [| [x p] [|]]; cbn in HL'; [done | | done]. injection HL' as ->. cbn.
      case_match; cbn; lia.
    + eapply Forall_impl; [exact HL |]. cbn. intros [x p] (c & s0 & e0 & H0). cbn in *.
      destruct (Hg _ _ _ _ H0) as (c' & H1 & _).
      apply spans_bounds in H0 as Hbd. destruct (tip (end_of b) p) eqn:Et; [| done].
      destruct (tip_end _ _ _ _ _ _ b Hok' eq_refl (end_of_ok b Hb) H1 Et) as [-> ->].
      apply andb_true_iff in Et as [Ei%Z.eqb_eq _]. destruct H0 as [Hi _ _ _ _ _].
      rewrite Ei, znth_cons_0 in Hi. injection Hi as <-. lia.
Qed.

(** The line starts the code computes when it separates a CR from a LF by an
    underscore. *)
Lemma extend_underscore b u :
  extend b (95 :: u) = StringBuffer.mk (StringBuffer.buffer b ++ 95 :: u)
    (StringBuffer.lineStarts b ++
     tail ((fun x => x + (zlen (StringBuffer.buffer b) + 1)) <$> createLineStartsFast u false)).
Proof.
  unfold extend, createLineStartsFast. cbn [fmap list_fmap tail lineStarts_loop]. cbn.
  f_equal. f_equal. by rewrite <- lineStarts_loop_shift.
Qed.

Lemma extend_plain b u :
  extend b u = StringBuffer.mk (StringBuffer.buffer b ++ u)
    (StringBuffer.lineStarts b ++ tail (if zlen (StringBuffer.buffer b) !== 0
       then (fun x => x + zlen (StringBuffer.buffer b)) <$> createLineStartsFast u false
       else createLineStartsFast u false)).
Proof.
  rewrite extend_code. destruct (Z.eqb_spec (zlen (StringBuffer.buffer b)) 0) as [-> | ]; [| done]. cbn [negb].
  do 3 f_equal. rewrite <- (list_fmap_id (createLineStartsFast u false)) at 2.
  apply list_fmap_ext. intros ? x _. unfold id. lia.
Qed.

Lemma after_underscore b u lc :
  buffer_ok b -> buffer_ok (extend b (95 :: u)) -> cursor_ok b lc (zlen (StringBuffer.buffer b)) ->
  cursor_ok (extend b (95 :: u)) (BufferCursor.mk (BufferCursor.line lc) (BufferCursor.column lc + 1))
    (zlen (StringBuffer.buffer b) + 1).
Proof.
  intros Hb Heb Hlc. destruct (extend_cursor b (95 :: u) _ _ Hb Hlc) as (s0 & H0 & E0 & C0 & L0 & N0).
  exists s0. cbn [BufferCursor.line BufferCursor.column]. split_and!; [done | lia | lia | |].
  - cbn. rewrite zlen_app, zlen_cons. pose proof (zlen_nonneg u). lia.
  - intros next Hnext. pose proof (N0 _ Hnext) as Hgt.
    assert (next ∈ StringBuffer.lineStarts (extend b (95 :: u))) as Hin by (apply elem_znth; eauto).
    pose proof (zlen_nonneg (StringBuffer.buffer b)).
    apply elem_of_starts in Hin; [| done]. destruct Hin as [-> | [Hin | [Hin _]]]; [lia | |];
      cbn in Hin; destruct (decide (next = zlen (StringBuffer.buffer b) + 1)) as [-> | ]; try lia;
      rewrite znth_mid in Hin by lia; done.
Qed.

(** Without the underscore the texts meet properly. *)
Lemma no_underscore_seam b u :
  buffer_ok b ->
  bool_decide (last (StringBuffer.lineStarts b) = Some (zlen (StringBuffer.buffer b)))
    && (zlen (StringBuffer.buffer b) !== 0) && startWithLF_str u && endWithCR_str (StringBuffer.buffer b) = false ->
  seam (StringBuffer.buffer b) u.
Proof.
  intros Hb Hcond [E2 E1%startWithLF_str_spec]. pose proof (proj2 (endWithCR_str_spec _) E2) as E3.
  rewrite E1, E3, !andb_true_r in Hcond. destruct (last_start_cr b Hb E2) as (l & Hls & _ & Hcr).
  rewrite Hls, last_snoc, bool_decide_true in Hcond by done. cbn in Hcond.
  apply negb_false_iff, Z.eqb_eq in Hcond. rewrite Hcr, zlen_app, zlen_cons in Hcond.
  pose proof (zlen_nonneg (removelast (StringBuffer.buffer b))). pose proof (zlen_nonneg (@nil Z)). lia.
Qed.

(** The rest of [createNewPieces] once the change buffer has been extended. *)
Lemma finish_newPiece s s1 b0 w rest start so u :
  _buffers s = b0 :: rest -> Forall buffer_ok (b0 :: rest) -> _buffers s1 = b0 :: rest -> kept s s1 -> tr s1 = tr s ->
  let b := extend b0 w in
  buffer_ok b -> seam (StringBuffer.buffer b0) w -> zlen (StringBuffer.buffer b0) + zlen w < 2 ^ 31 - 1 ->
  cursor_ok b start so -> zlen (StringBuffer.buffer b0) <= so <= zlen (StringBuffer.buffer b0) + 1 ->
  zdrop so (StringBuffer.buffer b) = u -> u <> [] -> zlen (StringBuffer.buffer b) = so + zlen u ->
  exists ps s', (modify (set_buffers (b :: tail (b0 :: rest)));;
    lastStart ← bufs (fun _ => num_at (StringBuffer.lineStarts b) (zlen (StringBuffer.lineStarts b) - 1));
    let endPos := BufferCursor.mk (zlen (StringBuffer.lineStarts b) - 1) (zlen (StringBuffer.buffer b) - lastStart) in
    lfc ← bufs (fun bs => getLineFeedCnt bs 0 start endPos);
    let newPiece := Piece.mk 0 start endPos lfc (zlen (StringBuffer.buffer b) - so) in
    modify (set_lastChange endPos);;
    mret [newPiece]) s1 = Ret (ps, s') /\ newPieces_spec s s' ps u.
Proof.
  intros Hbs Hok Hbs1 Hk Ht b Hb Hseam Hz Hstart Hso Hdrop Hu Hlen.
  assert (0 < zlen u) as Hpos by (destruct u; [done | rewrite zlen_cons; pose proof (zlen_nonneg u); lia]).
  erewrite pbind_run by done.
  destruct (appended_piece b rest so start Hb Hstart ltac:(lia)) as (ls & lfc & H1 & H2 & H3 & H4).
  erewrite pbind_run; [| unfold bufs; rewrite H1; reflexivity]. cbn zeta. rewrite H2.
  erewrite pbind_run; [| unfold bufs; cbn [_buffers set_buffers tail]; rewrite H3; reflexivity].
  erewrite pbind_run by done. eexists _, _. split; [reflexivity |].
  eapply (newPiece_spec _ _ b0 b rest); try done.
  - by rewrite Hbs.
  - by rewrite Hk.
  - intros p c s0 e0 Hsp. by apply extend_spans.
  - by exists w.
Qed.

Lemma createNewPieces_ok s u :
  u <> [] -> bufs_ok (_buffers s) (_lastChangeBufferPos s) -> blen (_buffers s) + zlen u + 1 < 2 ^ 31 - 1 ->
  exists ps s', createNewPieces u s = Ret (ps, s') /\ newPieces_spec s s' ps u.
Proof.
  intros Hu (Hok & b0 & Hb0 & Hlc) Hroom. unfold createNewPieces.
  destruct (_buffers s) as [| b rest] eqn:Hbs; [done |]. injection Hb0 as ->.
  apply Forall_cons in Hok as Hok'. destruct Hok' as [Hb Hrest]. cbn in Hroom.
  destruct (Z.ltb_spec AverageBufferSize (zlen u)) as [Hlarge | _].
  { destruct (largePieces_ok (S (List.length u)) s u [] Hu) as (ps & s' & H1 & Hs' & (more & Hm & Hmok) & Hps & Hidx);
      [lia | by rewrite Hbs |].
    exists ps, s'. split; [done |]. rewrite Hs'. unfold newPieces_spec. cbn.
    rewrite Hm, Hbs in *. pose proof (zlen_nonneg u). split_and!; try done; [| apply appends_grows | cbn; lia | lia |].
    - split; [apply Forall_app; done |]. by exists b0.
    - intros L L' _ HL' HtL. rewrite (tips_none _ L'); [lia |]. rewrite <- HL', Forall_fmap in Hidx.
      eapply Forall_impl; [exact Hidx |]. cbn. intros [x p] Hp. unfold tip. cbn in *.
      by rewrite (proj2 (Z.eqb_neq _ _) Hp). }
  erewrite pbind_run by done. rewrite Hbs. erewrite pbind_run by done. erewrite pbind_run by done.
  set (cond := bool_decide _ && _ && _ && _). destruct cond eqn:Hcond; subst cond.
  - erewrite pbind_run; [| erewrite pbind_run by done; reflexivity]. cbn beta iota zeta.
    rewrite <- extend_underscore. assert (seam (StringBuffer.buffer b0) (95 :: u)) as Hseam by (by intros [_ ?]).
    assert (zlen (StringBuffer.buffer b0) + zlen (95 :: u) < 2 ^ 31 - 1) as Hz by (rewrite zlen_cons; lia).
    pose proof (extend_ok b0 (95 :: u) Hb Hseam Hz) as Heb.
    apply (finish_newPiece s _ b0 (95 :: u) rest); try done; [by apply after_underscore | lia | |].
    + cbn. rewrite zdrop_app_r by lia. by rewrite Z.add_simpl_l.
    + cbn. rewrite zlen_app, zlen_cons. lia.
  - apply no_underscore_seam in Hcond as Hseam; [| done].
    erewrite pbind_run by done. cbn beta iota zeta. rewrite <- extend_plain.
    pose proof (extend_ok b0 u Hb Hseam ltac:(lia)) as Heb.
    apply (finish_newPiece s _ b0 u rest); try done;
      [apply kept_refl | lia | by apply extend_cursor | lia | | cbn; by rewrite zlen_app].
    cbn. rewrite zdrop_app_r by lia. by rewrite Z.sub_diag.
Qed.
