(* ===== verification/PieceTreeChange.v ===== *)
(** * Changes of one node

    The editing operations of the piece table that touch one or two nodes:
    cutting a node at a cursor, the tests for a CR at the end and a LF at the
    start of a node, and the repair of a CR LF pair that lies across two
    nodes. *)

From stdpp Require Import gmap.
From S2P Require Import Prelude RBTree RBTreeRep RBTreeOps RBTreeInsert RBTreeDelete RBTreeRemove.
From S2P Require Import PieceBuffers PieceTree PieceTreeEdit PieceTreeNodes PieceTreeRead PieceTreeList PieceTreeText.
From S2P Require Import PieceTreePieces.

(** ** The state between two steps of an edit *)

(** The nodes [L] are in the tree, each lies in its buffer (it may be empty, until
    it is deleted), and at most one ends where the change buffer ends. *)
Record fits (F : gmap ref TreeNode.t) (s : state) (L : seq) : Prop := mkfits {
  fits_holds : holds F s L;
  fits_bufs : bufs_ok (_buffers s) (_lastChangeBufferPos s);
  fits_spans : Forall (fun n => exists b so eo, spans (_buffers s) (snd n) b so eo) L;
  fits_tips : (tips (_lastChangeBufferPos s) L <= 1)%nat
}.

Arguments fits_holds {F s L}.
Arguments fits_bufs {F s L}.
Arguments fits_spans {F s L}.
Arguments fits_tips {F s L}.

(** A node that was taken out of the tree; the search cache drops it. *)
Definition detached_in (F : gmap ref TreeNode.t) (x : ref) : Prop :=
  exists n, F !! x = Some n /\ TreeNode.parent n = NULL.

Lemma fits_piece F s L x p : fits F s L -> (x, p) ∈ L -> piece_of x s = Ret (p, s).
Proof. intros H. apply (holds_piece _ _ _ _ (fits_holds H)). Qed.

Lemma fits_piece_mid F s l1 x p l2 : fits F s (l1 ++ (x, p) :: l2) -> piece_of x s = Ret (p, s).
Proof. intros H. eapply fits_piece; [exact H |]. set_solver. Qed.

Lemma bufs_run {A} (f : list StringBuffer.t -> res A) s a : f (_buffers s) = Ret a -> bufs f s = Ret (a, s).
Proof. intros H. unfold bufs. by rewrite H. Qed.

(** ** Cursors next to each other *)

(** The cursor after a line break. *)
Lemma next_start b c o :
  buffer_ok b -> cursor_ok b c o -> breaks_at (StringBuffer.buffer b) (o + 1) ->
  znth (StringBuffer.lineStarts b) (BufferCursor.line c + 1) = Some (o + 1) /\
  cursor_ok b (BufferCursor.mk (BufferCursor.line c + 1) 0) (o + 1).
Proof.
  intros Hb (s & Hs & -> & Hc & _ & Hn) Hbr. destruct (buffer_starts_ok b Hb) as [HS _].
  assert (s + BufferCursor.column c + 1 ∈ StringBuffer.lineStarts b) as Hin by (apply elem_of_starts; auto).
  apply elem_znth in Hin as [j Hj].
  assert (j = BufferCursor.line c + 1) as ->.
  { pose proof (znth_Some _ _ _ Hs). pose proof (znth_Some _ _ _ Hj).
    destruct (Z.lt_trichotomy j (BufferCursor.line c + 1)) as [Hlt | [? | Hgt]]; [exfalso | done | exfalso].
    - destruct (decide (j = BufferCursor.line c)) as [-> |]; [rewrite Hs in Hj; injection Hj; lia |].
      pose proof (sorted_znth _ _ _ _ _ HS Hj Hs ltac:(lia)). lia.
    - destruct (znth_is_Some (StringBuffer.lineStarts b) (BufferCursor.line c + 1) ltac:(lia)) as [n Hn'].
      pose proof (Hn _ Hn'). pose proof (sorted_znth _ _ _ _ _ HS Hn' Hj Hgt). lia. }
  split; [done |]. exists (s + BufferCursor.column c + 1). cbn. split_and!; [done | lia | lia | |].
  - apply breaks_at_pos in Hbr. lia.
  - intros next Hnext. apply (sorted_znth _ _ _ _ _ HS Hj Hnext). lia.
Qed.

(** The cursor one unit back, as [fixCRLF] computes it. *)
Lemma cursor_back b c o :
  buffer_ok b -> cursor_ok b c o -> 0 < o ->
  exists c', (if BufferCursor.column c === 0 then
                exists l1 l0, num_at (StringBuffer.lineStarts b) (BufferCursor.line c) = Ret l1 /\
                  num_at (StringBuffer.lineStarts b) (BufferCursor.line c - 1) = Ret l0 /\
                  c' = BufferCursor.mk (BufferCursor.line c - 1) (l1 - l0 - 1)
              else c' = BufferCursor.mk (BufferCursor.line c) (BufferCursor.column c - 1)) /\
    cursor_ok b c' (o - 1).
Proof.
  intros Hb (s & Hs & -> & Hc & Hle & Hn) Hpos. destruct (buffer_starts_ok b Hb) as [HS _].
  pose proof (znth_Some _ _ _ Hs) as Hl.
  destruct (Z.eqb_spec (BufferCursor.column c) 0) as [E | E].
  - assert (BufferCursor.line c <> 0) as Hl0.
    { intros H0. rewrite H0 in Hs. destruct Hb as [Hb _]. rewrite Hb, znth_cons_0 in Hs. injection Hs as <-. lia. }
    destruct (num_at_in (StringBuffer.lineStarts b) (BufferCursor.line c - 1)) as (l0 & Hl0' & Hnum); [lia |].
    pose proof (sorted_znth _ _ _ _ _ HS Hl0' Hs ltac:(lia)).
    eexists. split; [exists s, l0; split; [by apply num_at_Ret |]; split; [exact Hnum | reflexivity] |].
    exists l0. cbn. split_and!; [done | lia | lia | lia |].
    intros next. rewrite Z.sub_add, Hs. intros [= <-]. lia.
  - eexists. split; [reflexivity |]. exists s. cbn. split_and!; [done | lia | lia | lia |].
    intros next Hnext. pose proof (Hn _ Hnext). lia.
Qed.

(** ** Pieces without their last or first unit *)

Lemma head_substring (l : jsstring) so eo :
  0 <= so < eo -> eo <= zlen l -> head (js_substring l so eo) = znth l so.
Proof.
  intros. rewrite head_lookup. pose proof (znth_substring l so eo 0 ltac:(lia) ltac:(lia) ltac:(lia)) as Hz.
  rewrite (proj2 (Z.ltb_lt _ _)), Z.add_0_r in Hz by lia. done.
Qed.

Lemma last_substring (l : jsstring) so eo :
  0 <= so < eo -> eo <= zlen l -> last (js_substring l so eo) = znth l (eo - 1).
Proof.
  intros. rewrite <- znth_last, zlen_substring by lia. rewrite znth_substring by lia.
  rewrite (proj2 (Z.ltb_lt _ _)) by lia. f_equal. lia.
Qed.

Lemma drop_lf bs p c :
  piece_ok bs p -> contents bs p = LineFeed :: c ->
  let newStart := BufferCursor.mk (BufferCursor.line (Piece.start p) + 1) 0 in
  exists lfc, getLineFeedCnt bs (Piece.bufferIndex p) newStart (Piece.end_ p) = Ret lfc /\
    lfc = Piece.lineFeedCnt p - 1 /\
    let p' := Piece.mk (Piece.bufferIndex p) newStart (Piece.end_ p) lfc (Piece.length p - 1) in
    (exists b so eo, spans bs p' b so eo) /\ contents bs p' = c /\ (c <> [] -> piece_ok bs p').
Proof.
  intros (b & so & eo & Hsp & Hlt & Hlf) Hc newStart. pose proof (spans_bounds _ _ _ _ _ Hsp) as Hbd.
  rewrite (spans_contents _ _ _ _ _ Hsp) in Hc.
  assert (znth (StringBuffer.buffer b) so = Some LineFeed) as Hso
    by (rewrite <- (head_substring _ so eo), Hc by lia; done).
  destruct (next_start b (Piece.start p) so (sp_ok Hsp) (sp_start Hsp)) as [_ Hns].
  { left. by rewrite Z.add_simpl_r. }
  assert (forall lf, let p' := Piece.mk (Piece.bufferIndex p) newStart (Piece.end_ p) lf (Piece.length p - 1) in
    spans bs p' b (so + 1) eo /\ contents bs p' = c) as Hp'.
  { intros lf. destruct (spans_tail bs p b so eo newStart (so + 1) lf (Piece.length p - 1) Hsp Hns) as [H1 H2];
      [lia | rewrite (sp_length Hsp); lia |]. split; [done |].
    rewrite H2, (spans_contents _ _ _ _ _ Hsp), Hc. by replace (so + 1 - so) with 1 by lia. }
  assert (Piece.lineFeedCnt p = 1 + breaks c) as Hlf'
    by (rewrite Hlf, (spans_contents _ _ _ _ _ Hsp), Hc; apply breaks_cons_lf).
  destruct (Hp' 0) as [Hsp' Hc'].
  exists (breaks c). split_and!; [| lia |].
  - destruct (decide (so + 1 < eo)) as [Hlt' | Hge].
    + rewrite <- Hc'. apply (spans_lf _ _ _ _ _ Hsp' Hlt').
    + assert (eo = so + 1) as -> by lia.
      assert (Piece.end_ p = newStart) as He by (eapply cursor_unique; [apply Hsp | apply Hsp | apply Hns]).
      assert (c = []) as ->.
      { apply (f_equal zlen) in Hc. rewrite zlen_substring, zlen_cons in Hc by lia. apply zlen_0. lia. }
      rewrite He. unfold getLineFeedCnt. cbn. by rewrite Z.sub_diag.
  - destruct (Hp' (breaks c)) as [H1 H2]. split; [eauto |]. split; [done |]. intros Hne.
    exists b, (so + 1), eo. split; [done |]. rewrite H2. split; [| done].
    destruct (decide (so + 1 < eo)); [done |]. exfalso. apply Hne, zlen_0.
    apply (f_equal zlen) in Hc. rewrite zlen_substring, zlen_cons in Hc by lia. lia.
Qed.

Lemma chop_cr bs p a :
  piece_ok bs p -> contents bs p = a ++ [CarriageReturn] ->
  exists b c', znth bs (Piece.bufferIndex p) = Some b /\
    (let c := Piece.end_ p in
     if BufferCursor.column c === 0 then
       exists l1 l0, num_at (StringBuffer.lineStarts b) (BufferCursor.line c) = Ret l1 /\
         num_at (StringBuffer.lineStarts b) (BufferCursor.line c - 1) = Ret l0 /\
         c' = BufferCursor.mk (BufferCursor.line c - 1) (l1 - l0 - 1)
     else c' = BufferCursor.mk (BufferCursor.line c) (BufferCursor.column c - 1)) /\
    let p' := Piece.mk (Piece.bufferIndex p) (Piece.start p) c' (Piece.lineFeedCnt p - 1) (Piece.length p - 1) in
    (exists so eo, spans bs p' b so eo /\ eo < zlen (StringBuffer.buffer b)) /\ contents bs p' = a /\
    (a <> [] -> piece_ok bs p').
Proof.
  intros (b & so & eo & Hsp & Hlt & Hlf) Hc. pose proof (spans_bounds _ _ _ _ _ Hsp) as Hbd.
  destruct (cursor_back b (Piece.end_ p) eo (sp_ok Hsp) (sp_end Hsp) ltac:(lia)) as (c' & Hc' & Hcur).
  exists b, c'. split; [apply Hsp |]. split; [done |].
  assert (zlen (contents bs p) = eo - so) as Hz by (rewrite (spans_zlen _ _ _ _ _ Hsp); apply Hsp).
  rewrite Hc, zlen_app, zlen_cons, zlen_nil in Hz.
  destruct (spans_head bs p b so eo c' (eo - 1) (Piece.lineFeedCnt p - 1) (Piece.length p - 1) Hsp Hcur)
    as [H1 H2]; [lia | rewrite (sp_length Hsp); lia |].
  rewrite Hc in H2. rewrite ztake_app_l, ztake_all in H2 by lia.
  split; [exists so, (eo - 1); split; [done | lia] |]. split; [done |]. intros Hne.
  exists b, so, (eo - 1). split; [done |]. split.
  - destruct a as [| y a]; [done |]. rewrite zlen_cons in Hz. pose proof (zlen_nonneg a). lia.
  - rewrite H2. cbn. rewrite Hlf, Hc, breaks_snoc_cr. lia.
Qed.

(** ** Tests on nodes *)

Lemma startWithLF_ok F s L x p :
  fits F s L -> (x, p) ∈ L -> piece_ok (_buffers s) p ->
  startWithLF x s = Ret (bool_decide (head (contents (_buffers s) p) = Some LineFeed), s).
Proof.
  intros Hf Hin (b & so & eo & Hsp & Hlt & Hlf). pose proof (spans_bounds _ _ _ _ _ Hsp) as Hbd.
  unfold startWithLF. rewrite same_ne by (eapply holds_ne; [apply Hf | exact Hin]).
  erewrite pbind_run by (eapply fits_piece; [exact Hf | exact Hin]).
  pose proof (sp_start Hsp) as Hs. destruct Hs as (s0 & Hs0 & Eso & Cso & _ & Nso).
  destruct (buffer_starts_ok b (sp_ok Hsp)) as [HS _].
  pose proof (znth_Some _ _ _ Hs0) as Hline.
  rewrite (spans_contents _ _ _ _ _ Hsp) in *. rewrite head_substring by lia.
  assert (znth (StringBuffer.buffer b) so = Some LineFeed ->
    znth (StringBuffer.lineStarts b) (BufferCursor.line (Piece.start p) + 1) = Some (so + 1)) as Hnext.
  { intros H. eapply next_start; [apply Hsp | apply Hsp |]. left. by rewrite Z.add_simpl_r. }
  destruct (Z.eqb_spec (Piece.lineFeedCnt p) 0) as [E0 | E0].
  { rewrite bool_decide_eq_false_2; [done |]. intros H. rewrite Hlf in E0.
    destruct (js_substring (StringBuffer.buffer b) so eo) as [| c str] eqn:Hstr.
    - apply (f_equal zlen) in Hstr. rewrite zlen_substring, zlen_nil in Hstr by lia. lia.
    - pose proof (head_substring (StringBuffer.buffer b) so eo ltac:(lia) ltac:(lia)) as Hh.
      rewrite Hstr, H in Hh. injection Hh as ->. rewrite breaks_cons_lf in E0. pose proof (breaks_nonneg str). lia. }
  erewrite pbind_run by (apply bufs_run; unfold buffer_at; by rewrite (sp_buffer Hsp)).
  erewrite pbind_run by (apply bufs_run; by apply num_at_Ret). rewrite <- Eso.
  destruct (Z.eqb_spec (BufferCursor.line (Piece.start p)) (zlen (StringBuffer.lineStarts b) - 1)) as [E1 | E1].
  { rewrite bool_decide_eq_false_2; [done |]. intros H%Hnext%znth_Some. lia. }
  destruct (num_at_in (StringBuffer.lineStarts b) (BufferCursor.line (Piece.start p) + 1)) as (nx & Hnx & Hnum); [lia |].
  erewrite pbind_run by (by apply bufs_run). pose proof (Nso _ Hnx) as Hgt.
  destruct (Z.ltb_spec (so + 1) nx) as [Hlt' | Hge].
  { rewrite bool_decide_eq_false_2; [done |]. intros H%Hnext. rewrite H in Hnx. injection Hnx as <-. lia. }
  unfold mret, P_ret, charCodeAt. f_equal. f_equal.
  destruct (znth_is_Some (StringBuffer.buffer b) so ltac:(lia)) as [c Hc]. rewrite Hc. cbn.
  apply eq_true_iff_eq. rewrite bool_decide_eq_true, Z.eqb_eq. split; [by intros -> | by intros [= ->]].
Qed.

Lemma nodeCharCodeAt_ok F s L x p k c :
  fits F s L -> (x, p) ∈ L -> piece_ok (_buffers s) p -> znth (contents (_buffers s) p) k = Some c ->
  nodeCharCodeAt x k s = Ret (if Piece.lineFeedCnt p <? 1 then -1 else c, s).
Proof.
  intros Hf Hin (b & so & eo & Hsp & Hlt & Hlf) Hk. pose proof (spans_bounds _ _ _ _ _ Hsp) as Hbd.
  unfold nodeCharCodeAt. erewrite pbind_run by (eapply fits_piece; [exact Hf | exact Hin]).
  destruct (_ <? 1); [done |].
  erewrite pbind_run by (apply bufs_run; unfold buffer_text, buffer_at; by rewrite (sp_buffer Hsp)).
  erewrite pbind_run by (apply bufs_run; by apply (offsetInBuffer_ok _ _ b), Hsp; apply Hsp).
  pose proof (znth_Some _ _ _ Hk) as Hkb.
  rewrite (spans_contents _ _ _ _ _ Hsp), znth_substring in Hk by lia.
  destruct (k <? eo - so); [| done]. unfold charCodeAt. by rewrite Hk.
Qed.

(** A CR or LF counts as a line break. *)
Lemma lf_pos bs p k c :
  piece_ok bs p -> znth (contents bs p) k = Some c -> c = LineFeed \/ c = CarriageReturn -> 1 <= Piece.lineFeedCnt p.
Proof.
  intros (b & so & eo & _ & _ & ->) Hk Hc. unfold breaks.
  assert (exists j, j ∈ lineStarts_loop 0 (contents bs p)) as [j Hin].
  { setoid_rewrite lineStarts_loop_spec. destruct (decide (znth (contents bs p) (k + 1) = Some LineFeed)) as [Hn | Hn].
    - exists (k + 2). left. by replace (k + 2 - 0 - 1) with (k + 1) by lia.
    - exists (k + 1). unfold breaks_at. rewrite Z.sub_0_r, Z.add_simpl_r, Hk.
      destruct Hc as [-> | ->]; [by left | by right]. }
  destruct (lineStarts_loop 0 (contents bs p)) as [| z l]; [by apply elem_of_nil in Hin |].
  rewrite zlen_cons. pose proof (zlen_nonneg l). lia.
Qed.

(** So reading it from a node succeeds. *)
Lemma nodeCharCodeAt_is F s L x p k c v :
  fits F s L -> (x, p) ∈ L -> piece_ok (_buffers s) p -> znth (contents (_buffers s) p) k = Some c ->
  v = LineFeed \/ v = CarriageReturn ->
  exists d, nodeCharCodeAt x k s = Ret (d, s) /\ (d === v) = bool_decide (c = v).
Proof.
  intros Hf Hin Hp Hk Hv. eexists. split; [by eapply nodeCharCodeAt_ok |].
  destruct (Z.ltb_spec (Piece.lineFeedCnt p) 1) as [Hlt | Hge].
  - rewrite bool_decide_eq_false_2; [by destruct Hv as [-> | ->] |]. intros ->.
    pose proof (lf_pos _ _ _ _ Hp Hk Hv). lia.
  - apply eq_true_iff_eq. by rewrite Z.eqb_eq, bool_decide_eq_true.
Qed.

Lemma endWithCR_ok F s L x p :
  fits F s L -> (x, p) ∈ L -> piece_ok (_buffers s) p ->
  endWithCR x s = Ret (bool_decide (last (contents (_buffers s) p) = Some CarriageReturn), s).
Proof.
  intros Hf Hin Hp. unfold endWithCR. rewrite same_ne by (eapply holds_ne; [apply Hf | exact Hin]).
  erewrite pbind_run by (eapply fits_piece; [exact Hf | exact Hin]).
  pose proof (piece_ok_zlen _ _ Hp) as Hz. pose proof (piece_ok_length _ _ Hp) as Hpos.
  destruct (znth_is_Some (contents (_buffers s) p) (Piece.length p - 1) ltac:(lia)) as [c Hc].
  assert (last (contents (_buffers s) p) = Some c) as Hlast by (by rewrite <- znth_last, Hz).
  rewrite Hlast. destruct (Z.eqb_spec (Piece.lineFeedCnt p) 0) as [E0 | E0].
  { rewrite bool_decide_eq_false_2; [done |]. intros [= ->].
    pose proof (lf_pos _ _ _ _ Hp Hc (or_intror eq_refl)). lia. }
  destruct (nodeCharCodeAt_is _ _ _ _ _ _ _ CarriageReturn Hf Hin Hp Hc) as (d & Hd & Hdc); [by right |].
  erewrite pbind_run by exact Hd. unfold mret, P_ret. f_equal. f_equal. etransitivity; [exact Hdc |].
  apply bool_decide_ext. split; [by intros -> | by intros [= ->]].
Qed.

(** The neighbours of a node, or [SENTINEL] at the ends of the document. *)
Lemma next_startWithLF F s l1 l2 :
  fits F s (l1 ++ l2) -> pieces_ok (_buffers s) l2 ->
  startWithLF (hd SENTINEL (fst <$> l2)) s = Ret (bool_decide (head (text (_buffers s) l2) = Some LineFeed), s).
Proof.
  intros Hf Hl. destruct l2 as [| [y q] l2]; [done |]. apply Forall_cons in Hl as [Hq Hl]. cbn [snd] in Hq.
  cbn [hd fmap list_fmap fst]. rewrite (startWithLF_ok F s (l1 ++ (y, q) :: l2) y q Hf) by (done || set_solver).
  rewrite text_cons, head_app_ne by (by apply piece_ok_ne). done.
Qed.

Lemma prev_endWithCR F s l1 l2 :
  fits F s (l1 ++ l2) -> pieces_ok (_buffers s) l1 ->
  endWithCR (default SENTINEL (last (fst <$> l1))) s
  = Ret (bool_decide (last (text (_buffers s) l1) = Some CarriageReturn), s).
Proof.
  intros Hf Hl. destruct l1 as [| [y q] l1 _] using rev_ind; [done |].
  apply Forall_app in Hl as [Hl [Hq _]%Forall_cons]. cbn [snd] in Hq.
  rewrite fmap_app. change (fst <$> [(y, q)]) with [y]. rewrite last_snoc.
  change (default SENTINEL (Some y)) with y.
  rewrite (endWithCR_ok F s ((l1 ++ [(y, q)]) ++ l2) y q Hf) by (done || (rewrite !elem_of_app, list_elem_of_singleton; auto)).
  rewrite text_app, last_app_ne; cbn; rewrite ?app_nil_r; [done |]. by apply piece_ok_ne.
Qed.

(** ** The tree operations on such states *)

Lemma fits_only_tr F F' s s' L L' :
  fits F s L -> only_tr s s' -> holds F' s' L' ->
  Forall (fun n => exists b so eo, spans (_buffers s) (snd n) b so eo) L' ->
  (tips (_lastChangeBufferPos s) L' <= tips (_lastChangeBufferPos s) L)%nat -> fits F' s' L'.
Proof.
  intros Hf Ho Hh Hs Ht. pose proof (fits_tips Hf).
  constructor; rewrite ?(only_tr_buffers _ _ Ho), ?(only_tr_last _ _ Ho); [done | apply Hf | done | lia].
Qed.

Lemma fits_set F s l1 x p l2 p' ds dl :
  fits F s (l1 ++ (x, p) :: l2) -> (exists b so eo, spans (_buffers s) p' b so eo) ->
  (tip (_lastChangeBufferPos s) p' = true -> tip (_lastChangeBufferPos s) p = true) ->
  ds = Piece.length p' - Piece.length p -> dl = Piece.lineFeedCnt p' - Piece.lineFeedCnt p ->
  exists s1 s2, set_piece x p' s = Ret (tt, s1) /\ only_tr s s1 /\
    rbt (updateTreeMetadata x ds dl) s1 = Ret (tt, s2) /\ only_tr s s2 /\ fits F s2 (l1 ++ (x, p') :: l2).
Proof.
  intros Hf Hs Ht Hds Hdl. destruct (holds_set _ _ _ _ _ _ p' ds dl (fits_holds Hf) Hds Hdl)
    as (s1 & s2 & H1 & Ho1 & H2 & Ho2 & Hh).
  exists s1, s2. do 4 (split; [done |]). eapply fits_only_tr; [done | done | done | |].
  - pose proof (fits_spans Hf) as HF. apply Forall_app in HF as [HF1 [_ HF2]%Forall_cons].
    apply Forall_app. split; [done |]. by constructor.
  - rewrite !tips_app. cbn. destruct (tip _ p') eqn:E; [rewrite Ht by done |]; lia.
Qed.

Lemma fits_insertRight F s l1 x q l2 p :
  fits F s (l1 ++ (x, q) :: l2) -> (exists b so eo, spans (_buffers s) p b so eo) ->
  (tips (_lastChangeBufferPos s) (l1 ++ (x, q) :: l2) + (if tip (_lastChangeBufferPos s) p then 1 else 0) <= 1)%nat ->
  exists z s', rbt (rbInsertRight x p) s = Ret (z, s') /\ only_tr s s' /\ fits F s' (l1 ++ (x, q) :: (z, p) :: l2) /\
    F !! z = None.
Proof.
  intros Hf Hs Ht. destruct (holds_insertRight _ _ _ _ _ _ p (fits_holds Hf)) as (z & s' & H1 & Ho & Hh & Hz).
  exists z, s'. do 2 (split; [done |]). split; [| done].
  constructor; rewrite ?(only_tr_buffers _ _ Ho), ?(only_tr_last _ _ Ho); [done | apply Hf | |].
  - pose proof (fits_spans Hf) as HF. apply Forall_app in HF as [HF1 [HF0 HF2]%Forall_cons].
    apply Forall_app. split; [done |]. constructor; [done |]. by constructor.
  - rewrite tips_app in *. cbn in *. lia.
Qed.

Lemma fits_insertLeft F s l1 x q l2 p :
  fits F s (l1 ++ (x, q) :: l2) -> (exists b so eo, spans (_buffers s) p b so eo) ->
  (tips (_lastChangeBufferPos s) (l1 ++ (x, q) :: l2) + (if tip (_lastChangeBufferPos s) p then 1 else 0) <= 1)%nat ->
  exists z s', rbt (rbInsertLeft x p) s = Ret (z, s') /\ only_tr s s' /\ fits F s' (l1 ++ (z, p) :: (x, q) :: l2).
Proof.
  intros Hf Hs Ht. destruct (holds_insertLeft _ _ _ _ _ _ p (fits_holds Hf)) as (z & s' & H1 & Ho & Hh).
  exists z, s'. do 2 (split; [done |]).
  constructor; rewrite ?(only_tr_buffers _ _ Ho), ?(only_tr_last _ _ Ho); [done | apply Hf | |].
  - pose proof (fits_spans Hf) as HF. apply Forall_app in HF as [HF1 [HF0 HF2]%Forall_cons].
    apply Forall_app. split; [done |]. constructor; [done |]. by constructor.
  - rewrite tips_app in *. cbn in *. lia.
Qed.

Lemma detached_parent zn : TreeNode.parent (detached zn) = NULL.
Proof. done. Qed.

Lemma fits_delete F s l1 x p l2 :
  fits F s (l1 ++ (x, p) :: l2) ->
  exists s' zn, rbt (rbDelete x) s = Ret (tt, s') /\ only_tr s s' /\
    fits (<[x := detached zn]> F) s' (l1 ++ l2) /\ x ∉ fst <$> (l1 ++ l2).
Proof.
  intros Hf. destruct (holds_delete _ _ _ _ _ _ (fits_holds Hf)) as (s' & zn & H1 & Ho & Hh).
  exists s', zn. do 2 (split; [done |]). split.
  - eapply fits_only_tr; [done | done | done | |].
    + pose proof (fits_spans Hf) as HF. apply Forall_app in HF as [HF1 [_ HF2]%Forall_cons].
      by apply Forall_app.
    + rewrite !tips_app. cbn. lia.
  - pose proof (holds_nodup _ _ (fits_holds Hf)) as Hnd. rewrite fmap_app, fmap_cons in Hnd. cbn in Hnd.
    apply NoDup_app in Hnd as (_ & Hdis & [Hx _]%NoDup_cons). rewrite fmap_app.
    rewrite elem_of_app. intros [Hin | Hin]; [| done]. apply (Hdis _ Hin). left.
Qed.

(** [deleteNodes] takes the named nodes out of the sequence. *)
Definition without (xs : list ref) (L : seq) : seq := filter (fun n => n.1 ∉ xs) L.

Lemma without_app xs l k : without xs (l ++ k) = without xs l ++ without xs k.
Proof. apply filter_app. Qed.

Lemma without_id xs (l : seq) : (forall x, x ∈ fst <$> l -> x ∉ xs) -> without xs l = l.
Proof.
  intros H. induction l as [| [x p] l IH]; [done |]. unfold without. rewrite filter_cons_True; cbn.
  - f_equal. apply IH. intros y Hy. apply H. by right.
  - apply H. left.
Qed.

Lemma without_nil xs (l : seq) : (forall x, x ∈ fst <$> l -> x ∈ xs) -> without xs l = [].
Proof.
  intros H. induction l as [| [x p] l IH]; [done |]. unfold without. rewrite filter_cons_False; cbn.
  - apply IH. intros y Hy. apply H. by right.
  - intros Hx. apply Hx, H. left.
Qed.

Lemma without_cons x xs l1 p l2 :
  x ∉ fst <$> (l1 ++ l2) -> without (x :: xs) (l1 ++ (x, p) :: l2) = without xs (l1 ++ l2).
Proof.
  intros Hx. rewrite !without_app.
  assert (forall l : seq, x ∉ fst <$> l -> without (x :: xs) l = without xs l) as Hl.
  { intros l. induction l as [| [y q] l IH]; [done |]. rewrite fmap_cons, not_elem_of_cons. intros [Hne Hy].
    cbn [fst] in Hne. specialize (IH Hy). unfold without in *. rewrite !filter_cons. cbn [fst]. rewrite IH.
    destruct (decide (y ∉ x :: xs)), (decide (y ∉ xs)); set_solver. }
  rewrite fmap_app, not_elem_of_app in Hx. destruct Hx as [Hx1 Hx2].
  rewrite (Hl l1 Hx1). f_equal. unfold without at 1. rewrite filter_cons_False by (cbn; set_solver).
  by apply Hl.
Qed.

Lemma deleteNodes_ok xs F s L :
  fits F s L -> NoDup xs -> (forall x, x ∈ xs -> x ∈ fst <$> L) ->
  exists F' s', deleteNodes xs s = Ret (tt, s') /\ only_tr s s' /\ fits F' s' (without xs L) /\
    (forall x, x ∈ xs -> detached_in F' x) /\ (forall x, x ∉ xs -> F' !! x = F !! x).
Proof.
  revert F s L. induction xs as [| x xs IH]; intros F s L Hf Hnd Hin.
  - exists F, s. split; [done |]. split; [apply only_tr_refl |]. rewrite without_id by set_solver.
    split; [done |]. split; [set_solver | done].
  - apply NoDup_cons in Hnd as [Hx Hnd].
    assert (x ∈ fst <$> L) as HxL by (apply Hin; left).
    apply list_elem_of_fmap in HxL as ([y p] & Hy & HpL). cbn in Hy. subst y.
    apply list_elem_of_split in HpL as (l1 & l2 & ->).
    destruct (fits_delete _ _ _ _ _ _ Hf) as (s1 & zn & H1 & Ho1 & Hf1 & Hx1).
    destruct (IH _ s1 (l1 ++ l2) Hf1 Hnd) as (F' & s' & H2 & Ho2 & Hf2 & Hd & Hk).
    { intros y Hy. assert (y ∈ fst <$> l1 ++ (x, p) :: l2) as H by (apply Hin; by right).
      rewrite fmap_app, fmap_cons in H. rewrite fmap_app. cbn in H. set_solver. }
    exists F', s'. split; [cbn [deleteNodes]; by erewrite pbind_run by exact H1 |].
    split; [by eapply only_tr_trans |]. rewrite without_cons by done. split; [done |]. split.
    + intros y [-> | Hy]%elem_of_cons; [| by apply Hd].
      exists (detached zn). rewrite Hk by done. by rewrite lookup_insert_eq.
    + intros y Hy. rewrite Hk by set_solver. apply lookup_insert_ne. set_solver.
Qed.

(** ** Cutting a node *)

Lemma tip_head s p b so eo c m lf len :
  bufs_ok (_buffers s) (_lastChangeBufferPos s) -> spans (_buffers s) p b so eo -> m < eo ->
  spans (_buffers s) (Piece.mk (Piece.bufferIndex p) (Piece.start p) c lf len) b so m ->
  tip (_lastChangeBufferPos s) (Piece.mk (Piece.bufferIndex p) (Piece.start p) c lf len) = false.
Proof.
  intros (Hok & b0 & Hb0 & Hlc) Hsp Hlt Hsp'. eapply tip_before; [done | done | done | exact Hsp' |].
  pose proof (spans_bounds _ _ _ _ _ Hsp). lia.
Qed.

Lemma deleteNodeTail_ok F s l1 x p l2 b so eo pos m :
  fits F s (l1 ++ (x, p) :: l2) -> spans (_buffers s) p b so eo -> cursor_ok b pos m -> so <= m <= eo ->
  exists s' p', deleteNodeTail x pos s = Ret (tt, s') /\ only_tr s s' /\ fits F s' (l1 ++ (x, p') :: l2) /\
    Piece.length p' = m - so /\ contents (_buffers s) p' = ztake (m - so) (contents (_buffers s) p) /\
    (so < m -> piece_ok (_buffers s) p') /\ (m < eo -> tip (_lastChangeBufferPos s) p' = false).
Proof.
  intros Hf Hsp Hpos Hm. unfold deleteNodeTail.
  erewrite pbind_run by (eapply fits_piece_mid; exact Hf).
  erewrite pbind_run by (apply bufs_run; eapply offsetInBuffer_ok; apply Hsp).
  erewrite pbind_run by (apply bufs_run; eapply offsetInBuffer_ok; [apply Hsp | exact Hpos]).
  destruct (getLineFeedCnt_runs _ _ b (Piece.start p) pos m (sp_buffer Hsp) Hpos) as [lfc Hlfc].
  erewrite pbind_run by (apply bufs_run; exact Hlfc).
  set (p' := Piece.mk _ _ _ _ _).
  destruct (spans_head (_buffers s) p b so eo pos m lfc (Piece.length p + (m - eo)) Hsp Hpos) as [Hsp' Hc'];
    [lia | rewrite (sp_length Hsp); lia |]. fold p' in Hsp', Hc'.
  assert (m < eo -> tip (_lastChangeBufferPos s) p' = false) as Htip
    by (intros; by eapply tip_head; [apply Hf | exact Hsp | | exact Hsp']).
  assert (tip (_lastChangeBufferPos s) p' = true -> tip (_lastChangeBufferPos s) p = true) as Htip'.
  { destruct (decide (m < eo)); [by rewrite Htip by done |]. assert (m = eo) as -> by lia.
    pose proof (cursor_unique _ _ _ _ (sp_ok Hsp) Hpos (sp_end Hsp)) as ->. done. }
  destruct (fits_set F s l1 x p l2 p' (m - eo) (lfc - Piece.lineFeedCnt p) Hf) as (s1 & s2 & H1 & _ & H2 & Ho & Hf2);
    [eauto | done | cbn; lia | done |].
  erewrite pbind_run by exact H1. exists s2, p'. split; [exact H2 |]. split; [done |]. split; [done |].
  split; [apply Hsp' |]. split; [done |]. split; [| done]. intros Hlt.
  exists b, so, m. split; [done |]. split; [done |]. pose proof (spans_lf _ _ _ _ _ Hsp' Hlt) as Hlf. cbn in Hlf.
  rewrite Hlfc in Hlf. by injection Hlf.
Qed.

Lemma deleteNodeHead_ok F s l1 x p l2 b so eo pos m :
  fits F s (l1 ++ (x, p) :: l2) -> spans (_buffers s) p b so eo -> cursor_ok b pos m -> so <= m <= eo ->
  exists s' p', deleteNodeHead x pos s = Ret (tt, s') /\ only_tr s s' /\ fits F s' (l1 ++ (x, p') :: l2) /\
    Piece.length p' = eo - m /\ contents (_buffers s) p' = zdrop (m - so) (contents (_buffers s) p) /\
    (m < eo -> piece_ok (_buffers s) p').
Proof.
  intros Hf Hsp Hpos Hm. unfold deleteNodeHead.
  erewrite pbind_run by (eapply fits_piece_mid; exact Hf).
  erewrite pbind_run by (apply bufs_run; eapply offsetInBuffer_ok; apply Hsp).
  destruct (getLineFeedCnt_runs _ _ b pos (Piece.end_ p) eo (sp_buffer Hsp) (sp_end Hsp)) as [lfc Hlfc].
  erewrite pbind_run by (apply bufs_run; exact Hlfc).
  erewrite pbind_run by (apply bufs_run; eapply offsetInBuffer_ok; [apply Hsp | exact Hpos]).
  set (p' := Piece.mk _ _ _ _ _).
  destruct (spans_tail (_buffers s) p b so eo pos m lfc (Piece.length p + (so - m)) Hsp Hpos) as [Hsp' Hc'];
    [lia | rewrite (sp_length Hsp); lia |]. fold p' in Hsp', Hc'.
  destruct (fits_set F s l1 x p l2 p' (so - m) (lfc - Piece.lineFeedCnt p) Hf) as (s1 & s2 & H1 & _ & H2 & Ho & Hf2);
    [eauto | done | cbn; lia | done |].
  erewrite pbind_run by exact H1. exists s2, p'. split; [exact H2 |]. split; [done |]. split; [done |].
  split; [apply Hsp' |]. split; [done |]. intros Hlt.
  exists b, m, eo. split; [done |]. split; [done |]. pose proof (spans_lf _ _ _ _ _ Hsp' Hlt) as Hlf. cbn in Hlf.
  rewrite Hlfc in Hlf. by injection Hlf.
Qed.

Lemma dropFirstLF_ok F s l1 x p l2 c :
  fits F s (l1 ++ (x, p) :: l2) -> piece_ok (_buffers s) p -> contents (_buffers s) p = LineFeed :: c ->
  exists s' p', dropFirstLF x s = Ret (tt, s') /\ only_tr s s' /\ fits F s' (l1 ++ (x, p') :: l2) /\
    Piece.length p' = Piece.length p - 1 /\ contents (_buffers s) p' = c /\ (c <> [] -> piece_ok (_buffers s) p').
Proof.
  intros Hf Hp Hc. destruct (drop_lf _ _ _ Hp Hc) as (lfc & Hlfc & Hlf & Hsp' & Hc' & Hok'). unfold dropFirstLF.
  erewrite pbind_run by (eapply fits_piece_mid; exact Hf).
  erewrite pbind_run by (apply bufs_run; exact Hlfc).
  destruct (fits_set F s l1 x p l2 _ (-1) (-1) Hf Hsp') as (s1 & s2 & H1 & _ & H2 & Ho & Hf2);
    [done | cbn; lia | cbn; lia |].
  erewrite pbind_run by exact H1. eexists s2, _. split; [exact H2 |]. done.
Qed.

(** ** The repair of a CR LF pair across two nodes *)

Lemma kept_fits F s s' (L : seq) ps u :
  fits F s L -> newPieces_spec s s' ps u -> fits F s' L.
Proof.
  intros Hf (Hk & Ht & Hb & Hg & Hps & _ & _ & Htips). constructor.
  - destruct (fits_holds Hf) as (t & Hv & Hn). exists t. by rewrite Ht.
  - done.
  - eapply Forall_impl; [apply Hf |]. cbn. intros n (b & so & eo & H). destruct (Hg _ _ _ _ H) as (b' & H' & _). eauto.
  - specialize (Htips L ((fun p => (SENTINEL, p)) <$> ps) (fits_spans Hf)).
    rewrite <- list_fmap_compose in Htips. unfold compose in Htips. rewrite list_fmap_id in Htips.
    specialize (Htips eq_refl (fits_tips Hf)). lia.
Qed.

Lemma kept_only_tr s1 s2 s3 : kept s1 s2 -> only_tr s2 s3 -> kept s1 s3.
Proof. intros H1 H2. eapply kept_trans; [exact H1 | by apply only_tr_kept]. Qed.

Lemma only_tr_kept_trans s1 s2 s3 : only_tr s1 s2 -> kept s2 s3 -> kept s1 s3.
Proof. intros H1 H2. eapply kept_trans; [by apply only_tr_kept | exact H2]. Qed.

(** [x] is the first node of [M], or it was taken out of the document [L]. *)
Definition pinned (F : gmap ref TreeNode.t) (x : ref) (M L : seq) : Prop :=
  (exists p M', M = (x, p) :: M') \/ (detached_in F x /\ x ∉ fst <$> L).

Lemma zlen_pred_0 {A} (a : list A) n : n = zlen a + 1 -> (n - 1 === 0) = bool_decide (a = []).
Proof.
  intros ->. rewrite Z.add_simpl_r. apply eq_true_iff_eq. rewrite Z.eqb_eq, bool_decide_eq_true.
  split; [apply zlen_0 | by intros ->].
Qed.

Lemma text_one bs x p : text bs [(x, p)] = contents bs p.
Proof. apply app_nil_r. Qed.

(** A node that is left out when its text [a] is empty. *)
Definition unless_empty (a : jsstring) (x : ref) (p : Piece.t) : seq := if bool_decide (a = []) then [] else [(x, p)].

Lemma unless_empty_ids a x p i : i ∈ fst <$> unless_empty a x p -> i = x.
Proof. unfold unless_empty. case_bool_decide; cbn; [by intros ?%elem_of_nil | by intros ?%list_elem_of_singleton]. Qed.

Lemma unless_empty_ok bs a x p :
  contents bs p = a -> (a <> [] -> piece_ok bs p) ->
  text bs (unless_empty a x p) = a /\ pieces_ok bs (unless_empty a x p) /\ sealed bs (unless_empty a x p).
Proof.
  intros Hc Hp. unfold unless_empty. case_bool_decide as H0.
  - rewrite H0. split_and!; [done | done | apply sealed_nil].
  - split_and!; [by rewrite text_one | by apply Forall_singleton, Hp | apply sealed_one].
Qed.

(** Deleting the two outer nodes of three where their texts are empty. *)
Lemma deleteOuter F s (l1 l2 : seq) x p z r y q (a c : jsstring) :
  fits F s (l1 ++ (x, p) :: (z, r) :: (y, q) :: l2) ->
  exists F' s', deleteNodes ((if bool_decide (a = []) then [x] else []) ++ (if bool_decide (c = []) then [y] else [])) s
      = Ret (tt, s') /\ only_tr s s' /\
    let M := unless_empty a x p ++ (z, r) :: unless_empty c y q in
    fits F' s' (l1 ++ M ++ l2) /\ pinned F' x M (l1 ++ M ++ l2) /\
    (forall i, i ∉ [x; y] -> F' !! i = F !! i).
Proof.
  intros Hf. set (xs := _ ++ _). pose (L := l1 ++ (x, p) :: (z, r) :: (y, q) :: l2).
  pose proof (holds_nodup _ _ (fits_holds Hf)) as Hnd. rewrite fmap_app, !fmap_cons in Hnd. cbn in Hnd.
  apply NoDup_app in Hnd as (Hn1 & Hd & Hnd). apply NoDup_cons in Hnd as [Hx Hnd].
  apply NoDup_cons in Hnd as [Hz Hnd]. apply NoDup_cons in Hnd as [Hy Hn2].
  assert (forall i, i ∈ xs -> (i = x /\ a = []) \/ (i = y /\ c = [])) as Hxs.
  { intros i. unfold xs. do 2 case_bool_decide; set_solver. }
  assert (a = [] -> x ∈ xs) as Hxa by (intros; unfold xs; case_bool_decide; [left | done]).
  assert (c = [] -> y ∈ xs) as Hyc
    by (intros; unfold xs; rewrite elem_of_app; right; case_bool_decide; [left | done]).
  destruct (deleteNodes_ok xs F s L Hf) as (F' & s' & H1 & Ho & Hf' & Hdet & Hkeep).
  { unfold xs. do 2 case_bool_decide; cbn; repeat constructor; set_solver. }
  { intros i [[-> _] | [-> _]]%Hxs; unfold L; rewrite fmap_app; set_solver. }
  exists F', s'. split; [exact H1 |]. split; [done |]. intros M.
  assert (without xs L = l1 ++ M ++ l2) as HM.
  { unfold L. change ((x, p) :: (z, r) :: (y, q) :: l2) with ([(x, p)] ++ [(z, r)] ++ [(y, q)] ++ l2).
    rewrite !without_app, (without_id xs l1), (without_id xs l2), (without_id xs [(z, r)]).
    - unfold M, unless_empty. rewrite <- app_assoc. cbn [app]. f_equal. f_equal; [| f_equal; f_equal].
      + case_bool_decide; [apply without_nil | apply without_id]; cbn;
          intros i ->%list_elem_of_singleton; [by apply Hxa |].
        intros [[_ ?] | [-> _]]%Hxs; [done | set_solver].
      + case_bool_decide; [apply without_nil | apply without_id]; cbn;
          intros i ->%list_elem_of_singleton; [by apply Hyc |].
        intros [[-> _] | [_ ?]]%Hxs; [set_solver | done].
    - cbn. intros i ->%list_elem_of_singleton [[-> _] | [-> _]]%Hxs; set_solver.
    - intros i Hi [[-> _] | [-> _]]%Hxs; set_solver.
    - intros i Hi [[-> _] | [-> _]]%Hxs; [apply (Hd x Hi); left | apply (Hd y Hi); set_solver]. }
  rewrite HM in Hf'. split; [done |]. split.
  - unfold M, unless_empty. case_bool_decide as Ha; [right | left; cbn; eauto]. split.
    + by apply Hdet, Hxa.
    + change (x ∉ fst <$> (l1 ++ ([] ++ (z, r) :: (if bool_decide (c = []) then [] else [(y, q)])) ++ l2)).
      rewrite !fmap_app, fmap_cons. cbn. case_bool_decide; cbn; set_solver.
  - intros i Hi. apply Hkeep. intros [[-> _] | [-> _]]%Hxs; set_solver.
Qed.

(** What an operation that replaces some nodes by the nodes [M] with text [u]
    leaves: [l1] and [l2] are the nodes around them, [n] the units added to the
    change buffer at most. *)
Record replaced (F : gmap ref TreeNode.t) (s s' : state) (l1 M l2 : seq) (u : jsstring) (n : Z) : Prop := mkreplaced {
  re_kept : kept s s';
  re_fits : fits F s' (l1 ++ M ++ l2);
  re_grows : grows (_buffers s) (_buffers s');
  re_pieces : pieces_ok (_buffers s') M;
  re_sealed : sealed (_buffers s') M;
  re_text : text (_buffers s') M = u;
  re_blen : blen (_buffers s') <= blen (_buffers s) + n
}.

(** The nodes that [fixCRLF] leaves. *)
Lemma crlf_nodes bs x p z r y q a c :
  contents bs p = a -> contents bs r = [CarriageReturn; LineFeed] -> contents bs q = c ->
  (a <> [] -> piece_ok bs p) -> piece_ok bs r -> (c <> [] -> piece_ok bs q) ->
  let M := unless_empty a x p ++ (z, r) :: unless_empty c y q in
  pieces_ok bs M /\ sealed bs M /\ text bs M = a ++ [CarriageReturn; LineFeed] ++ c.
Proof.
  intros Ha Hr Hc Hpa Hpr Hpc M. destruct (unless_empty_ok _ _ x _ Ha Hpa) as (Ta & Oa & Sa).
  destruct (unless_empty_ok _ _ y _ Hc Hpc) as (Tc & Oc & Sc). unfold M. split_and!.
  - apply Forall_app. split; [done |]. by constructor.
  - apply sealed_app. rewrite Ta, text_cons, sealed_cons, Tc, Hr.
    split_and!; [done | done | by intros [? _] | by intros [_ ?]].
  - by rewrite text_app, text_cons, Ta, Tc, Hr.
Qed.

Lemma fits_nonempty_length bs p a :
  (exists b so eo, spans bs p b so eo) -> contents bs p = a -> Piece.length p = zlen a.
Proof. intros (b & so & eo & H) <-. by rewrite (spans_zlen _ _ _ _ _ H). Qed.

Lemma fixCRLF_ok F s l1 x p y q l2 a c :
  fits F s (l1 ++ (x, p) :: (y, q) :: l2) -> piece_ok (_buffers s) p -> piece_ok (_buffers s) q ->
  contents (_buffers s) p = a ++ [CarriageReturn] -> contents (_buffers s) q = LineFeed :: c ->
  blen (_buffers s) + 3 < 2 ^ 31 - 1 ->
  exists F' s' M, fixCRLF x y s = Ret (tt, s') /\
    replaced F' s s' l1 M l2 (a ++ [CarriageReturn; LineFeed] ++ c) 3 /\
    pinned F' x M (l1 ++ M ++ l2) /\ (forall i, i ∉ [x; y] -> F' !! i = F !! i) /\
    (forall i, i ∈ fst <$> M -> i ∈ [x; y] \/ F !! i = None).
Proof.
  intros Hf Hp Hq Hcp Hcq Hroom. unfold fixCRLF.
  erewrite pbind_run by (eapply fits_piece_mid; exact Hf).
  destruct (chop_cr _ _ _ Hp Hcp) as (b & c' & Hb & Hnew & (so & eo & Hspp & Heo) & Hcp' & Hokp').
  erewrite pbind_run by (apply bufs_run; unfold buffer_at; by rewrite Hb). cbn zeta in Hnew |- *.
  erewrite (pbind_run _ _ s c' s).
  2: { destruct (BufferCursor.column (Piece.end_ p) === 0); [| by subst c'].
       destruct Hnew as (e1 & e0 & He1 & He0 & ->).
       erewrite pbind_run by (apply bufs_run; exact He1). by erewrite pbind_run by (apply bufs_run; exact He0). }
  set (p' := Piece.mk _ _ c' _ _) in *.
  assert (tip (_lastChangeBufferPos s) p' = false) as Htip.
  { destruct (fits_bufs Hf) as (Hok & b0 & Hb0 & Hlc). by eapply tip_before. }
  destruct (fits_set F s l1 x p ((y, q) :: l2) p' (-1) (-1) Hf) as (s1 & s2 & H1 & _ & H2 & Ho2 & Hf2);
    [eauto | by rewrite Htip | cbn; lia | cbn; lia |].
  erewrite pbind_run by exact H1. erewrite pbind_run by exact H2.
  rewrite <- (only_tr_buffers _ _ Ho2) in *.
  assert (l1 ++ (x, p') :: (y, q) :: l2 = (l1 ++ [(x, p')]) ++ (y, q) :: l2) as E1 by (by rewrite <- app_assoc).
  rewrite E1 in Hf2.
  erewrite pbind_run by (eapply fits_piece_mid; exact Hf2).
  destruct (drop_lf _ _ _ Hq Hcq) as (lfc & Hlfc & Hlf & Hspq & Hcq' & Hokq').
  erewrite pbind_run by (apply bufs_run; exact Hlfc). set (q' := Piece.mk _ _ _ lfc _) in *.
  destruct (fits_set F s2 (l1 ++ [(x, p')]) y q l2 q' (-1) (-1) Hf2 Hspq) as (s3 & s4 & H3 & _ & H4 & Ho4 & Hf4);
    [done | cbn; lia | cbn; lia |].
  erewrite pbind_run by exact H3. erewrite pbind_run by exact H4.
  rewrite <- (only_tr_buffers _ _ Ho4) in *.
  destruct (createNewPieces_ok s4 [CarriageReturn; LineFeed]) as (ps & s5 & H5 & Hnp); [done | apply Hf4 | autorewrite with s2len; lia |].
  pose proof (kept_fits _ _ _ _ _ _ Hf4 Hnp) as Hf5.
  destruct Hnp as (Hk5 & Ht5 & Hb5 & Hg5 & (Hne & Hpsok & HpsL) & Hbl5 & Hone & Htips5).
  destruct Hone as [r ->]; [done |].
  erewrite pbind_run by exact H5. erewrite pbind_run by done.
  rewrite <- app_assoc in Hf5. cbn [app] in Hf5.
  destruct (HpsL [(SENTINEL, r)] eq_refl) as [Hr _]. rewrite text_one in Hr. apply Forall_cons in Hpsok as [Hrok _].
  destruct (fits_insertRight F s5 l1 x p' ((y, q') :: l2) r Hf5) as (z & s6 & H6 & Ho6 & Hf6 & Hz);
    [by apply piece_ok_spans | |].
  { rewrite <- app_assoc in Hf4. specialize (Htips5 _ [(SENTINEL, r)] (fits_spans Hf4) eq_refl (fits_tips Hf4)).
    cbn in Htips5. rewrite Nat.add_0_r in Htips5. exact Htips5. }
  erewrite pbind_run by exact H6.
  destruct (deleteOuter F s6 l1 l2 x p' z r y q' a c Hf6) as (F' & s7 & H7 & Ho7 & Hf7 & Hpin & HF').
  rewrite (zlen_pred_0 a), (zlen_pred_0 c).
  2: { rewrite <- (piece_ok_zlen _ _ Hq), Hcq, zlen_cons. lia. }
  2: { rewrite <- (piece_ok_zlen _ _ Hp), Hcp, zlen_app, zlen_cons, zlen_nil. lia. }
  exists F', s7, (unless_empty a x p' ++ (z, r) :: unless_empty c y q'). split; [exact H7 |].
  assert (only_tr s s4) as Ho by (by eapply only_tr_trans).
  assert (only_tr s5 s7) as Ho57 by (by eapply only_tr_trans).
  pose proof (only_tr_buffers _ _ Ho57) as Hb57.
  destruct (grows_keeps_one _ _ p' Hg5) as [Kp Op]; [eauto |].
  destruct (grows_keeps_one _ _ q' Hg5) as [Kq Oq]; [eauto |].
  destruct (crlf_nodes (_buffers s7) x p' z r y q' a c) as (M1 & M2 & M3);
    rewrite ?Hb57; [congruence | done | congruence | auto | done | auto |].
  split; [| split; [done |]; split; [done |]].
  2: { intros i. rewrite fmap_app, fmap_cons, elem_of_app, elem_of_cons.
       intros [->%unless_empty_ids | [-> | ->%unless_empty_ids]]; [left | by right | left]; clear; set_solver. }
  constructor; try done.
  - eapply kept_only_tr; [| exact Ho57]. eapply only_tr_kept_trans; [exact Ho | done].
  - by rewrite Hb57, <- (only_tr_buffers _ _ Ho).
  - rewrite Hb57, <- (only_tr_buffers _ _ Ho). autorewrite with s2len in Hbl5. lia.
Qed.

(** ** The border of two nodes *)

(** Whether the code looks for CR LF pairs at all. *)
Definition checks (s : state) : bool := negb (_EOLNormalized s && bool_decide (_EOL s = [LineFeed])).

Lemma shouldCheckCRLF_run s : shouldCheckCRLF s = Ret (checks s, s).
Proof. done. Qed.

Lemma checks_kept s s' : kept s s' -> checks s' = checks s.
Proof. by intros ->. Qed.

Lemma replaced_refl F s l1 M l2 u n :
  fits F s (l1 ++ M ++ l2) -> pieces_ok (_buffers s) M -> sealed (_buffers s) M -> text (_buffers s) M = u -> 0 <= n ->
  replaced F s s l1 M l2 u n.
Proof. intros. constructor; auto using kept_refl, grows_refl. lia. Qed.

Lemma fits_cons_app F s l1 n l2 : fits F s ((l1 ++ [n]) ++ l2) <-> fits F s (l1 ++ n :: l2).
Proof. by rewrite <- app_assoc. Qed.

(** Both [validateCRLFWithPrevNode] of the second node and
    [validateCRLFWithNextNode] of the first one seal the border between them. *)
Lemma border_ok F s l1 x p y q l2 m :
  m = validateCRLFWithPrevNode y \/ m = validateCRLFWithNextNode x ->
  fits F s (l1 ++ (x, p) :: (y, q) :: l2) -> piece_ok (_buffers s) p -> piece_ok (_buffers s) q ->
  (checks s = false -> CarriageReturn ∉ contents (_buffers s) p) -> blen (_buffers s) + 3 < 2 ^ 31 - 1 ->
  exists F' s' M, m s = Ret (tt, s') /\
    replaced F' s s' l1 M l2 (contents (_buffers s) p ++ contents (_buffers s) q) 3 /\
    pinned F' x M (l1 ++ M ++ l2) /\ (forall i, i ∉ [x; y] -> F' !! i = F !! i) /\
    (forall i, i ∈ fst <$> M -> i ∈ [x; y] \/ F !! i = None).
Proof.
  intros Hm Hf Hp Hq Hcr Hroom.
  assert (fits F s (l1 ++ [(x, p); (y, q)] ++ l2)) as Hf' by done.
  assert (fits F s ((l1 ++ [(x, p)]) ++ (y, q) :: l2)) as Hf'' by (by apply fits_cons_app).
  assert ((x, p) ∈ l1 ++ (x, p) :: (y, q) :: l2 /\ (y, q) ∈ l1 ++ (x, p) :: (y, q) :: l2) as [Hx Hy] by set_solver.
  assert (m s = if checks s && bool_decide (~ seam (contents (_buffers s) p) (contents (_buffers s) q))
                then fixCRLF x y s else Ret (tt, s)) as ->.
  { assert (bool_decide (~ seam (contents (_buffers s) p) (contents (_buffers s) q))
      = bool_decide (last (contents (_buffers s) p) = Some CarriageReturn)
        && bool_decide (head (contents (_buffers s) q) = Some LineFeed)) as ->.
    { unfold seam. rewrite <- bool_decide_and. apply bool_decide_ext. split; [apply dec_stable | tauto]. }
    pose proof (endWithCR_ok _ _ _ _ _ Hf Hx Hp) as HCR. pose proof (startWithLF_ok _ _ _ _ _ Hf Hy Hq) as HLF.
    pose proof (holds_next _ _ _ _ _ (fits_holds Hf)) as Hnext.
    pose proof (holds_prev _ _ _ _ _ (fits_holds Hf'')) as Hprev.
    rewrite fmap_app in Hprev. change (fst <$> [(x, p)]) with [x] in Hprev. rewrite last_snoc in Hprev.
    destruct Hm as [-> | ->]; [unfold validateCRLFWithPrevNode | unfold validateCRLFWithNextNode];
      erewrite pbind_run by apply shouldCheckCRLF_run; (destruct (checks s); [| done]); cbn [andb].
    - erewrite pbind_run by exact HLF. destruct (bool_decide (head _ = _)); [| by rewrite andb_false_r].
      rewrite andb_true_r. erewrite pbind_run by exact Hprev. erewrite pbind_run by exact HCR. by case_bool_decide.
    - erewrite pbind_run by exact HCR. destruct (bool_decide (last _ = _)); [| done]. cbn [andb].
      erewrite pbind_run by exact Hnext. erewrite pbind_run by exact HLF. by case_bool_decide. }
  assert (text (_buffers s) [(x, p); (y, q)] = contents (_buffers s) p ++ contents (_buffers s) q) as Ht
    by (rewrite text_cons, text_one; done).
  assert (seam (contents (_buffers s) p) (contents (_buffers s) q) -> sealed (_buffers s) [(x, p); (y, q)]) as Hseal
    by (intros; rewrite sealed_cons, text_one; split; [apply sealed_one | done]).
  destruct (decide (seam (contents (_buffers s) p) (contents (_buffers s) q))) as [Hs | Hns].
  - rewrite (bool_decide_eq_false_2 _) by tauto. rewrite andb_false_r.
    exists F, s, [(x, p); (y, q)]. split; [done |]. split; [apply replaced_refl; auto; lia |].
    split; [left; eauto |]. split; [done |]. cbn. intros i Hi. by left.
  - destruct (checks s) eqn:Hch.
    + rewrite bool_decide_eq_true_2 by done. cbn [andb]. apply dec_stable in Hns as [[a Ha]%last_Some Hc].
      destruct (contents (_buffers s) q) as [| c0 c] eqn:Eq; [done |]. injection Hc as ->.
      destruct (fixCRLF_ok F s l1 x p y q l2 a c Hf Hp Hq Ha Eq Hroom) as (F' & s' & M & H1 & H2 & H3 & H4).
      exists F', s', M. split; [done |]. split; [| done]. rewrite Ha, <- app_assoc. exact H2.
    + exfalso. apply dec_stable in Hns as [[a Ha]%last_Some _]. apply (Hcr eq_refl). rewrite Ha. set_solver.
Qed.
