(* ===== verification/PieceTreeSeal.v ===== *)
(** * Joining two parts of a document

    The operations that keep CR LF pairs inside one node where two parts of the
    document meet: [validateCRLFWithPrevNode], [validateCRLFWithNextNode] and
    [adjustCarriageReturnFromNext]. *)

From stdpp Require Import gmap.
From S2P Require Import Prelude RBTree RBTreeRep RBTreeOps RBTreeInsert RBTreeDelete RBTreeRemove.
From S2P Require Import PieceBuffers PieceTree PieceTreeEdit PieceTreeNodes PieceTreeRead PieceTreeList PieceTreeText.
From S2P Require Import PieceTreePieces PieceTreeChange.

(** What an operation leaves of the nodes it works on: the nodes [M] with the
    text [u], in front of [l2]; [n] bounds the units added to the change buffer. *)
Record edited (F : gmap ref TreeNode.t) (s s' : state) (M l2 : seq) (u : jsstring) (n : Z) : Prop := mkedited {
  ed_kept : kept s s';
  ed_fits : fits F s' (M ++ l2);
  ed_grows : grows (_buffers s) (_buffers s');
  ed_pieces : pieces_ok (_buffers s') M;
  ed_sealed : sealed (_buffers s') M;
  ed_text : text (_buffers s') M = u;
  ed_blen : blen (_buffers s') <= blen (_buffers s) + n
}.

Arguments ed_kept {F s s' M l2 u n}.
Arguments ed_fits {F s s' M l2 u n}.
Arguments ed_grows {F s s' M l2 u n}.
Arguments ed_pieces {F s s' M l2 u n}.
Arguments ed_sealed {F s s' M l2 u n}.
Arguments ed_text {F s s' M l2 u n}.
Arguments ed_blen {F s s' M l2 u n}.

(** Node [y], which stood after the nodes [l0], still does, or it is no longer in
    the document. *)
Definition stays (F : gmap ref TreeNode.t) (l0 : seq) (y : ref) (L : seq) : Prop :=
  (exists q r, L = l0 ++ (y, q) :: r) \/ (detached_in F y /\ y ∉ fst <$> L).

Lemma edited_refl F s M l2 u n :
  fits F s (M ++ l2) -> pieces_ok (_buffers s) M -> sealed (_buffers s) M -> text (_buffers s) M = u -> 0 <= n ->
  edited F s s M l2 u n.
Proof. intros. constructor; auto using kept_refl, grows_refl. lia. Qed.

(** A seam does not see what lies further away. *)
Lemma seam_wide a b c d : b <> [] -> c <> [] -> seam b c -> seam (a ++ b) (c ++ d).
Proof. intros Hb Hc Hs. unfold seam. by rewrite last_app_ne, head_app_ne. Qed.

Lemma seam_right a b c : b <> [] -> seam a b -> seam a (b ++ c).
Proof. intros Hb Hs. unfold seam. by rewrite head_app_ne. Qed.

Lemma seam_left a b c : b <> [] -> seam b c -> seam (a ++ b) c.
Proof. intros Hb Hs. unfold seam. by rewrite last_app_ne. Qed.

Lemma no_cr_seam a b : CarriageReturn ∉ a -> seam a b.
Proof. intros H [[l ->]%last_Some _]. apply H. set_solver. Qed.

(** Replacing the two nodes at a border by nodes with the same text. *)
Lemma seal_around bs bs' l1 x p y q l2 M :
  keeps bs bs' l1 -> keeps bs bs' l2 -> piece_ok bs p -> piece_ok bs q ->
  sealed bs (l1 ++ [(x, p)]) -> sealed bs ((y, q) :: l2) ->
  sealed bs' M -> text bs' M = contents bs p ++ contents bs q ->
  sealed bs' (l1 ++ M ++ l2).
Proof.
  intros K1 K2 Hp%piece_ok_ne Hq%piece_ok_ne S1 S2 SM TM.
  apply sealed_app in S1 as (S1 & _ & Sm1). rewrite text_one in Sm1. apply sealed_cons in S2 as [S2 Sm2].
  rewrite !sealed_app, text_app, (keeps_text _ _ _ K1), (keeps_text _ _ _ K2), TM.
  split_and!; [by eapply keeps_sealed | done | by eapply keeps_sealed | by apply seam_left |].
  rewrite <- app_assoc. by apply seam_right.
Qed.

Lemma grows_spans bs bs' (L : seq) :
  grows bs bs' -> Forall (fun n => exists b so eo, spans bs (snd n) b so eo) L -> keeps bs bs' L.
Proof. intros Hg HL. eapply Forall_impl; [exact HL |]. intros n Hn. by apply grows_keeps_one. Qed.

(** Which of the two operations seals where the nodes [l1] meet the nodes [l2]. *)
Definition sealing (l1 l2 : seq) (m : P unit) : Prop :=
  m = validateCRLFWithPrevNode (hd SENTINEL (fst <$> l2)) \/
  m = validateCRLFWithNextNode (default SENTINEL (last (fst <$> l1))).

(** At the ends of the document there is nothing to do. *)
Lemma seal_nothing F s l1 l2 l3 m :
  sealing l1 l2 m -> (l2 = [] -> l3 = []) -> l1 = [] \/ l2 = [] -> fits F s (l1 ++ l2 ++ l3) ->
  pieces_ok (_buffers s) l1 -> pieces_ok (_buffers s) l2 -> m s = Ret (tt, s).
Proof.
  intros Hm Hl3 Hempty Hf H1 H2. destruct Hm as [-> | ->].
  - unfold validateCRLFWithPrevNode. erewrite pbind_run by apply shouldCheckCRLF_run. destruct (checks s); [| done].
    destruct l2 as [| [y q] l2]; [done |]. destruct Hempty as [-> | ?]; [| done].
    apply Forall_cons in H2 as [Hq H2]. cbn [hd fmap list_fmap fst].
    erewrite pbind_run by (eapply startWithLF_ok; [exact Hf | left | done]). case_bool_decide; [| done].
    erewrite pbind_run by (eapply (holds_prev (F := F) s []); apply Hf). done.
  - unfold validateCRLFWithNextNode. erewrite pbind_run by apply shouldCheckCRLF_run. destruct (checks s); [| done].
    destruct l1 as [| [x p] l1 _] using rev_ind; [done |].
    destruct Hempty as [? | ->]; [by destruct l1 |]. rewrite Hl3 in * by done.
    pose proof (prev_endWithCR F s (l1 ++ [(x, p)]) [] ltac:(by rewrite app_nil_r in Hf |- *) H1) as HCR.
    erewrite pbind_run by exact HCR. case_bool_decide; [| done].
    rewrite fmap_app. change (fst <$> [(x, p)]) with [x]. rewrite last_snoc.
    change (default SENTINEL (Some x)) with x.
    erewrite pbind_run; [| eapply (holds_next (F := F) s l1 x p []); rewrite app_nil_r in Hf; apply Hf]. done.
Qed.

(** Sealing where the nodes [l1] meet the nodes [l2]; [l3] are the nodes after
    them, which may still be empty. *)
Lemma seal_ok F s l1 l2 l3 m :
  sealing l1 l2 m -> (l2 = [] -> l3 = []) ->
  fits F s (l1 ++ l2 ++ l3) -> pieces_ok (_buffers s) l1 -> pieces_ok (_buffers s) l2 ->
  sealed (_buffers s) l1 -> sealed (_buffers s) l2 ->
  (checks s = false -> CarriageReturn ∉ text (_buffers s) l1) -> blen (_buffers s) + 3 < 2 ^ 31 - 1 ->
  exists F' s' L', m s = Ret (tt, s') /\
    edited F' s s' L' l3 (text (_buffers s) l1 ++ text (_buffers s) l2) 3 /\
    (forall l0 y q, l1 = l0 ++ [(y, q)] -> stays F' l0 y (L' ++ l3)) /\
    (forall i, i ∉ fst <$> (l1 ++ l2) -> F' !! i = F !! i) /\
    (forall i, i ∈ fst <$> L' -> i ∈ fst <$> (l1 ++ l2) \/ F !! i = None).
Proof.
  intros Hm Hl3 Hf H1 H2 S1 S2 Hcr Hroom.
  destruct (decide (l1 = [] \/ l2 = [])) as [Hempty | Hne].
  - exists F, s, (l1 ++ l2). split; [by eapply seal_nothing |]. split; [| split; [| by auto]].
    + apply edited_refl; [by rewrite <- app_assoc | by apply Forall_app | | by rewrite text_app | lia].
      apply sealed_app. split_and!; [done | done |]. destruct Hempty as [-> | ->]; [apply seam_nil_l | apply seam_nil_r].
    + intros l0 y q ->. left. exists q, (l2 ++ l3). by rewrite <- !app_assoc.
  - destruct l1 as [| [x p] l1 _] using rev_ind; [tauto |]. destruct l2 as [| [y q] l2]; [tauto |]. clear Hne.
    apply Forall_app in H1 as [H1 [Hp _]%Forall_cons]. apply Forall_cons in H2 as [Hq H2]. cbn [snd] in Hp, Hq.
    unfold sealing in Hm. rewrite fmap_app in Hm. change (fst <$> [(x, p)]) with [x] in Hm. rewrite last_snoc in Hm.
    rewrite <- app_assoc in Hf. cbn [app] in Hf.
    destruct (border_ok F s l1 x p y q (l2 ++ l3) m) as (F' & s' & M & Hrun & [Rk Rf Rg Rp Rs Rt Rb] & Hpin & HF & HM);
      [exact Hm | done | done | done | | done |].
    { intros Hch Hin. apply (Hcr Hch). rewrite text_app, text_one. set_solver. }
    pose proof (grows_keeps _ _ _ Rg H1) as K1. pose proof (grows_keeps _ _ _ Rg H2) as K2.
    exists F', s', (l1 ++ M ++ l2). split; [done |]. split; [| split; [| split]].
    + constructor; [done | | done | | | | done].
      * by rewrite <- !app_assoc.
      * rewrite !Forall_app. split_and!; [by eapply keeps_pieces_ok | done | by eapply keeps_pieces_ok].
      * by eapply (seal_around _ _ l1 x p y q l2 M).
      * rewrite !text_app, text_one, text_cons, Rt, (keeps_text _ _ _ K1), (keeps_text _ _ _ K2). by rewrite <- !app_assoc.
    + intros l0 y' q' [-> [= -> ->]]%app_inj_tail. destruct Hpin as [(p' & M' & ->) | [Hd Hn]]; [left | right].
      * exists p', (M' ++ l2 ++ l3). by rewrite <- !app_assoc.
      * split; [done |]. by rewrite <- !app_assoc.
    + intros i Hi. apply HF. rewrite !fmap_app, fmap_cons in Hi. cbn in Hi. set_solver.
    + intros i. rewrite !fmap_app, fmap_cons. cbn [fmap list_fmap fst]. specialize (HM i). set_solver.
Qed.

(** ** Taking a LF from the next node *)

Lemma sealed_drop_lf bs x p q l c :
  contents bs p = LineFeed :: c -> contents bs q = c -> sealed bs ((x, p) :: l) -> sealed bs ((x, q) :: l).
Proof.
  intros Hp Hq [Hs Hm]%sealed_cons. apply sealed_cons. split; [done |]. rewrite Hq.
  rewrite Hp in Hm. change (LineFeed :: c) with ([LineFeed] ++ c) in Hm. by apply seam_of_app_l in Hm.
Qed.

Lemma startsLF_cons bs y q l :
  piece_ok bs q -> head (text bs ((y, q) :: l)) = Some LineFeed -> exists c, contents bs q = LineFeed :: c.
Proof.
  intros Hq%piece_ok_ne. rewrite text_cons. destruct (contents bs q) as [| c0 c]; [done |].
  cbn. intros [= ->]. eauto.
Qed.

Lemma adjustCarriageReturnFromNext_ok F s l1 x p l2 value :
  fits F s (l1 ++ (x, p) :: l2) -> pieces_ok (_buffers s) l2 -> sealed (_buffers s) l2 ->
  (checks s = false -> CarriageReturn ∉ value) ->
  exists b F' s' l2', adjustCarriageReturnFromNext value x s = Ret (b, s') /\ only_tr s s' /\
    fits F' s' (l1 ++ (x, p) :: l2') /\ pieces_ok (_buffers s) l2' /\ sealed (_buffers s) l2' /\
    let value' := if b : bool then value ++ [LineFeed] else value in
    value' ++ text (_buffers s) l2' = value ++ text (_buffers s) l2 /\ seam value' (text (_buffers s) l2').
Proof.
  intros Hf H2 S2 Hcr. unfold adjustCarriageReturnFromNext.
  erewrite pbind_run by apply shouldCheckCRLF_run.
  assert (seam value (text (_buffers s) l2) -> exists b F' s' l2', Ret (false, s) = Ret (b, s') /\ only_tr s s' /\
    fits F' s' (l1 ++ (x, p) :: l2') /\ pieces_ok (_buffers s) l2' /\ sealed (_buffers s) l2' /\
    let value' := if b : bool then value ++ [LineFeed] else value in
    value' ++ text (_buffers s) l2' = value ++ text (_buffers s) l2 /\ seam value' (text (_buffers s) l2')) as Hno.
  { intros. exists false, F, s, l2. split; [done |]. split; [apply only_tr_refl | done]. }
  destruct (checks s && endWithCR_str value) eqn:Hc.
  2: { apply Hno. apply andb_false_iff in Hc as [Hc | Hc]; [by apply no_cr_seam, Hcr |].
       intros [H%endWithCR_str_spec _]. congruence. }
  apply andb_true_iff in Hc as [_ Hc%endWithCR_str_spec].
  erewrite pbind_run by (eapply holds_next; apply Hf).
  pose proof Hf as Hf'. apply fits_cons_app in Hf'.
  erewrite pbind_run by (eapply next_startWithLF; [exact Hf' | done]).
  case_bool_decide as Hlf; [| apply Hno; by intros [_ ?]].
  destruct l2 as [| [y q] l2]; [done |]. apply Forall_cons in H2 as [Hq H2]. cbn [snd] in Hq.
  destruct (startsLF_cons _ _ _ _ Hq Hlf) as [c Eq]. cbn [hd fmap list_fmap fst].
  erewrite pbind_run by (eapply fits_piece_mid; exact Hf').
  pose proof (piece_ok_zlen _ _ Hq) as Hz. rewrite Eq, zlen_cons in Hz.
  assert (forall k, (value ++ [LineFeed]) ++ c ++ k = value ++ text (_buffers s) ((y, q) :: l2) <-> k = text (_buffers s) l2) as Ht.
  { intros k. rewrite text_cons, Eq, <- app_assoc. cbn. split; [| by intros ->]. intros H.
    apply app_inv_head in H. injection H as H. by apply app_inv_head in H. }
  assert (forall k, seam (value ++ [LineFeed]) k) as Hseam.
  { intros k [H _]. by rewrite last_snoc in H. }
  destruct (Z.eqb_spec (Piece.length q) 1) as [E1 | E1].
  - destruct (fits_delete _ _ _ _ _ _ Hf') as (s1 & zn & Hd & Ho & Hf1 & _). erewrite pbind_run by exact Hd.
    exists true, (<[y := detached zn]> F), s1, l2. rewrite fits_cons_app in Hf1. split; [done |]. do 2 (split; [done |]). split; [done |].
    apply sealed_cons in S2 as [S2 _]. split; [done |]. split; [| apply Hseam].
    assert (c = []) as -> by (apply zlen_0; lia). by apply (Ht (text (_buffers s) l2)).
  - destruct (dropFirstLF_ok _ _ _ _ _ _ _ Hf' Hq Eq) as (s1 & q' & Hd & Ho & Hf1 & Hl & Hc' & Hok).
    erewrite pbind_run by exact Hd. rewrite fits_cons_app in Hf1.
    exists true, F, s1, ((y, q') :: l2). split; [done |]. do 2 (split; [done |]). split.
    { constructor; [| done]. apply Hok. intros ->. rewrite zlen_nil in Hz. lia. }
    split; [by eapply sealed_drop_lf |]. split; [| apply Hseam]. cbn zeta. rewrite text_cons, Hc'. by apply Ht.
Qed.

(** ** Inserting several nodes in a row *)

Lemma insertAllRight_ok ps F s l1 x q l2 :
  fits F s (l1 ++ (x, q) :: l2) -> Forall (piece_ok (_buffers s)) ps ->
  (forall N : seq, snd <$> N = ps ->
     tips (_lastChangeBufferPos s) (l1 ++ (x, q) :: l2) + tips (_lastChangeBufferPos s) N <= 1)%nat ->
  exists y s' (N : seq), insertAllRight x ps s = Ret (y, s') /\ only_tr s s' /\ snd <$> N = ps /\
    fits F s' (l1 ++ (x, q) :: N ++ l2).
Proof.
  revert s l1 x q. induction ps as [| p ps IH]; intros s l1 x q Hf Hps Ht.
  - exists x, s, []. split; [done |]. split; [apply only_tr_refl |]. done.
  - apply Forall_cons in Hps as [Hp Hps]. cbn [insertAllRight].
    assert (forall N : seq, snd <$> N = ps -> (tips (_lastChangeBufferPos s) (l1 ++ (x, q) :: l2) +
      ((if tip (_lastChangeBufferPos s) p then 1 else 0) + tips (_lastChangeBufferPos s) N) <= 1)%nat) as Ht'.
    { intros N HN. apply (Ht ((SENTINEL, p) :: N)). by rewrite fmap_cons, HN. }
    specialize (Ht' ((fun p => (SENTINEL, p)) <$> ps)) as Ht0. rewrite <- list_fmap_compose in Ht0.
    unfold compose in Ht0. rewrite list_fmap_id in Ht0. specialize (Ht0 eq_refl).
    destruct (fits_insertRight F s l1 x q l2 p Hf) as (z & s1 & H1 & Ho1 & Hf1 & _); [by apply piece_ok_spans | lia |].
    erewrite pbind_run by exact H1. apply fits_cons_app in Hf1.
    pose proof (only_tr_buffers _ _ Ho1) as Hb1. pose proof (only_tr_last _ _ Ho1) as Hl1.
    destruct (IH s1 (l1 ++ [(x, q)]) z p) as (y & s2 & N & H2 & Ho2 & HN & Hf2); [done | by rewrite Hb1 | |].
    { intros N HN. rewrite Hl1. specialize (Ht' N HN). rewrite !tips_app in *. cbn in *. lia. }
    exists y, s2, ((z, p) :: N). split; [done |]. split; [by eapply only_tr_trans |].
    split; [by rewrite fmap_cons, HN |]. rewrite <- app_assoc in Hf2. exact Hf2.
Qed.

Lemma insertAllLeft_ok ps F s l1 x q l2 :
  fits F s (l1 ++ (x, q) :: l2) -> Forall (piece_ok (_buffers s)) ps -> ps <> [] ->
  (forall N : seq, snd <$> N = ps ->
     tips (_lastChangeBufferPos s) (l1 ++ (x, q) :: l2) + tips (_lastChangeBufferPos s) N <= 1)%nat ->
  exists y s' (N : seq), insertAllLeft x ps s = Ret (y, s') /\ only_tr s s' /\ snd <$> N = rev ps /\
    hd SENTINEL (fst <$> N) = y /\ fits F s' (l1 ++ N ++ (x, q) :: l2).
Proof.
  revert s x q l2. induction ps as [| p ps IH]; intros s x q l2 Hf Hps Hne Ht; [done |]. clear Hne.
  apply Forall_cons in Hps as [Hp Hps]. cbn [insertAllLeft].
  assert (forall N : seq, snd <$> N = ps -> (tips (_lastChangeBufferPos s) (l1 ++ (x, q) :: l2) +
    ((if tip (_lastChangeBufferPos s) p then 1 else 0) + tips (_lastChangeBufferPos s) N) <= 1)%nat) as Ht'.
  { intros N HN. apply (Ht ((SENTINEL, p) :: N)). by rewrite fmap_cons, HN. }
  specialize (Ht' ((fun p => (SENTINEL, p)) <$> ps)) as Ht0. rewrite <- list_fmap_compose in Ht0.
  unfold compose in Ht0. rewrite list_fmap_id in Ht0. specialize (Ht0 eq_refl).
  destruct (fits_insertLeft F s l1 x q l2 p Hf) as (z & s1 & H1 & Ho1 & Hf1); [by apply piece_ok_spans | lia |].
  erewrite pbind_run by exact H1.
  pose proof (only_tr_buffers _ _ Ho1) as Hb1. pose proof (only_tr_last _ _ Ho1) as Hl1.
  destruct (decide (ps = [])) as [-> | Hne].
  - exists z, s1, [(z, p)]. done.
  - destruct (IH s1 z p ((x, q) :: l2)) as (y & s2 & N & H2 & Ho2 & HN & Hy & Hf2); [done | by rewrite Hb1 | done | |].
    { intros N HN. rewrite Hl1. specialize (Ht' N HN). rewrite !tips_app in *. cbn in *. lia. }
    exists y, s2, (N ++ [(z, p)]). split; [done |]. split; [by eapply only_tr_trans |].
    split; [by rewrite fmap_app, HN |]. split; [| by rewrite <- app_assoc].
    destruct N; [| done]. cbn in HN. destruct ps; [done |]. cbn in HN. by destruct (rev ps).
Qed.
