(* ===== verification/PieceTreeInsert.v ===== *)
(** * Insertion into the piece table

    [insert] of [PieceTreeBase] and its four cases: extending the node that ends
    where the change buffer ends, inserting before a node, inside of it and after
    it.  Each splices the new text into the document. *)

From stdpp Require Import gmap.
From S2P Require Import Prelude RBTree RBTreeRep RBTreeOps RBTreeInsert RBTreeDelete RBTreeRemove.
From S2P Require Import PieceBuffers PieceTree PieceTreeEdit PieceTreeNodes PieceTreeRead PieceTreeList PieceTreeText.
From S2P Require Import PieceTreePieces PieceTreeChange PieceTreeSeal.

(** ** Extending the last piece of the change buffer *)

(** The buffer [appendToNode] builds; when a CR and a LF meet, the line start
    between them goes. *)
Definition glue (b : StringBuffer.t) (v : jsstring) (hit : bool) : StringBuffer.t :=
  StringBuffer.mk (StringBuffer.buffer b ++ v)
    ((if hit then removelast (StringBuffer.lineStarts b) else StringBuffer.lineStarts b)
     ++ tail ((fun x => x + zlen (StringBuffer.buffer b)) <$> createLineStartsFast v false)).

Definition glued (b b' : StringBuffer.t) (v : jsstring) : Prop :=
  buffer_ok b' /\ StringBuffer.buffer b' = StringBuffer.buffer b ++ v /\
  forall c o, cursor_ok b c o -> o < zlen (StringBuffer.buffer b) -> cursor_ok b' c o.

Lemma glue_seam b v :
  buffer_ok b -> seam (StringBuffer.buffer b) v -> zlen (StringBuffer.buffer b) + zlen v < 2 ^ 31 - 1 ->
  glued b (glue b v false) v.
Proof.
  intros Hb Hs Hz. unfold glue. rewrite <- extend_code. split; [by apply extend_ok |]. split; [done |].
  intros c o Hc _. by apply extend_cursor.
Qed.

Lemma glue_crlf b v :
  buffer_ok b -> last (StringBuffer.buffer b) = Some CarriageReturn ->
  zlen (StringBuffer.buffer b) + zlen (LineFeed :: v) < 2 ^ 31 - 1 ->
  glued b (glue b (LineFeed :: v) true) (LineFeed :: v).
Proof.
  intros Hb Hcr Hz. destruct (last_start_cr b Hb Hcr) as (ls & Hls & Hls' & Ht).
  set (t := removelast (StringBuffer.buffer b)) in *. set (n := zlen (StringBuffer.buffer b)) in *.
  assert (n = zlen t + 1) as Hn by (unfold n; rewrite Ht, zlen_app; done).
  assert (glue b (LineFeed :: v) true = StringBuffer.mk (StringBuffer.buffer b ++ LineFeed :: v)
    (ls ++ lineStarts_loop n (LineFeed :: v))) as ->.
  { unfold glue. rewrite Hls, removelast_last. do 2 f_equal. unfold createLineStartsFast. cbn [fmap list_fmap tail].
    rewrite <- (Z.add_0_l n) at 1. by rewrite lineStarts_loop_shift. }
  assert (0 :: lineStarts_loop 0 (StringBuffer.buffer b ++ LineFeed :: v) = ls ++ lineStarts_loop n (LineFeed :: v)) as Hstarts.
  { rewrite Ht, <- app_assoc. cbn [app]. rewrite lineStarts_loop_app by (by intros [_ ?]).
    rewrite <- Hls'. cbn [app lineStarts_loop]. cbn. rewrite Hn. do 3 f_equal; [lia |]. f_equal. lia. }
  split; [split; cbn [StringBuffer.lineStarts StringBuffer.buffer]; [by rewrite Hstarts |] |].
  { pose proof (breaks_le (StringBuffer.buffer b ++ LineFeed :: v)) as Hle. rewrite <- Hstarts, zlen_cons.
    unfold breaks in Hle. rewrite zlen_app in Hle. unfold n in *. lia. }
  split; [done |]. intros c o (s & Hs & -> & Hc & Hle & Hnx) Hlt. pose proof (znth_Some _ _ _ Hs) as Hln.
  rewrite Hls, zlen_app in Hln. change (zlen [n]) with 1 in Hln.
  assert (BufferCursor.line c < zlen ls) as Hline.
  { destruct (decide (BufferCursor.line c = zlen ls)) as [E1 | ]; [exfalso | lia].
    rewrite Hls, E1, znth_mid in Hs by done. injection Hs as <-. unfold n in *. lia. }
  exists s. cbn. split_and!; [| done | done | rewrite zlen_app; pose proof (zlen_nonneg (LineFeed :: v)); lia |].
  - rewrite Hls, znth_app_l in Hs by lia. by rewrite znth_app_l by lia.
  - intros next Hnext. destruct (decide (BufferCursor.line c + 1 < zlen ls)) as [H | H].
    + apply Hnx. rewrite Hls. rewrite znth_app_l in Hnext |- * by lia. done.
    + rewrite znth_app_r in Hnext by lia.
      assert (next ∈ lineStarts_loop n (LineFeed :: v)) as Hin by (apply elem_znth; eauto).
      apply lineStarts_loop_spec, breaks_at_pos in Hin. unfold n in *. lia.
Qed.

(** A piece that does not end where the change buffer ends keeps its text. *)
Lemma glued_keeps b b' rest v lc p :
  buffer_ok b -> cursor_ok b lc (zlen (StringBuffer.buffer b)) -> glued b b' v -> v <> [] ->
  piece_ok (b :: rest) p -> tip lc p = false ->
  contents (b' :: rest) p = contents (b :: rest) p /\ piece_ok (b' :: rest) p /\ tip (end_of b') p = false.
Proof.
  intros Hb Hlc (Hb' & Htext & Hcur) Hv (c & so & eo & Hsp & Hlt & Hlf) Htip.
  pose proof (spans_bounds _ _ _ _ _ Hsp) as Hbd.
  destruct (decide (Piece.bufferIndex p = 0)) as [Ei | Ei].
  - pose proof (sp_buffer Hsp) as Hi. rewrite Ei, znth_cons_0 in Hi. injection Hi as <-.
    assert (eo < zlen (StringBuffer.buffer b)) as Heo.
    { destruct (decide (eo = zlen (StringBuffer.buffer b))) as [-> |]; [exfalso | lia].
      pose proof (cursor_unique _ _ _ _ Hb (sp_end Hsp) Hlc) as He. unfold tip in Htip.
      rewrite Ei, He, bool_decide_eq_true_2 in Htip by done. done. }
    assert (spans (b' :: rest) p b' so eo) as Hsp'.
    { constructor; [by rewrite Ei | done | | | lia | apply Hsp]; apply Hcur; try apply Hsp; lia. }
    assert (contents (b' :: rest) p = contents (b :: rest) p) as Hc.
    { rewrite (spans_contents _ _ _ _ _ Hsp), (spans_contents _ _ _ _ _ Hsp'), Htext.
      rewrite !js_substring_eq by (rewrite ?zlen_app; pose proof (zlen_nonneg v); lia).
      rewrite zdrop_app_l by lia. by rewrite ztake_app_l by (rewrite zlen_zdrop; lia). }
    split; [done |]. split; [exists b', so, eo; by rewrite Hc |].
    unfold tip. rewrite Ei. cbn [Z.eqb andb]. apply bool_decide_eq_false_2. intros He.
    pose proof (sp_end Hsp') as (e1 & H1 & E1 & _). pose proof (end_of_ok b' Hb') as (e2 & H2 & E2 & _).
    rewrite He in H1, E1. rewrite H1 in H2. injection H2 as ->. rewrite Htext, zlen_app in E2.
    pose proof (zlen_nonneg v). lia.
  - assert (spans (b' :: rest) p c so eo) as Hsp'.
    { destruct Hsp as [Hi ? ? ? ? ?]. constructor; try done. pose proof (znth_Some _ _ _ Hi).
      rewrite znth_cons_S in Hi |- * by lia. done. }
    assert (contents (b' :: rest) p = contents (b :: rest) p) as Hc
      by (by rewrite (spans_contents _ _ _ _ _ Hsp), (spans_contents _ _ _ _ _ Hsp')).
    split; [done |]. split; [exists c, so, eo; by rewrite Hc |].
    unfold tip. by rewrite (proj2 (Z.eqb_neq _ _) Ei).
Qed.

Lemma tips_0_none lc (L : seq) : tips lc L = 0%nat -> Forall (fun n => tip lc (snd n) = false) L.
Proof.
  induction L as [| [x p] L IH]; [done |]. cbn. intros H. destruct (tip lc p) eqn:E1; [done |].
  constructor; [done | auto].
Qed.

Lemma glued_all b b' rest v lc (L : seq) :
  buffer_ok b -> cursor_ok b lc (zlen (StringBuffer.buffer b)) -> glued b b' v -> v <> [] ->
  pieces_ok (b :: rest) L -> tips lc L = 0%nat ->
  keeps (b :: rest) (b' :: rest) L /\ tips (end_of b') L = 0%nat.
Proof.
  intros Hb Hlc Hg Hv HL Ht%tips_0_none.
  assert (Forall (fun n => (contents (b' :: rest) (snd n) = contents (b :: rest) (snd n) /\
    (piece_ok (b :: rest) (snd n) -> piece_ok (b' :: rest) (snd n))) /\ tip (end_of b') (snd n) = false) L) as H.
  { rewrite Forall_forall in *. intros n Hn.
    destruct (glued_keeps b b' rest v lc (snd n) Hb Hlc Hg Hv (HL n Hn) (Ht n Hn)) as (? & ? & ?). auto. }
  split; [| apply tips_none]; (eapply Forall_impl; [exact H |]); by intros n [? ?].
Qed.

(** ** Documents *)

(** A state between two edits: every piece is right and no CR LF pair lies across
    two nodes; when the code does not look for CR LF pairs there is no CR. *)
Record docs (F : gmap ref TreeNode.t) (s : state) (L : seq) : Prop := mkdocs {
  doc_fits : fits F s L;
  doc_pieces : pieces_ok (_buffers s) L;
  doc_sealed : sealed (_buffers s) L;
  doc_nocr : checks s = false -> CarriageReturn ∉ text (_buffers s) L
}.

Arguments doc_fits {F s L}.
Arguments doc_pieces {F s L}.
Arguments doc_sealed {F s L}.
Arguments doc_nocr {F s L}.

(** The document has become [str]; [n] bounds the units added to the change
    buffer. *)
Record spliced (F : gmap ref TreeNode.t) (s s' : state) (L' : seq) (str : jsstring) (n : Z) : Prop := mkspliced {
  sd_kept : kept s s';
  sd_docs : docs F s' L';
  sd_text : text (_buffers s') L' = str;
  sd_blen : blen (_buffers s') <= blen (_buffers s) + n
}.

Lemma rbt_at {A} (m : M A) s s' s0 a :
  rbt m s = Ret (a, s') -> tr s0 = tr s -> rbt m s0 = Ret (a, set_tr (tr s') s0).
Proof.
  unfold rbt. intros H ->. destruct (m (tr s)) as [[a' t] | e]; [| done]. injection H as -> <-. done.
Qed.

(** Where the tip of the change buffer lies. *)
Lemma tip_spans s p b rest :
  _buffers s = b :: rest -> bufs_ok (_buffers s) (_lastChangeBufferPos s) -> piece_ok (_buffers s) p ->
  tip (_lastChangeBufferPos s) p = true ->
  exists so, spans (_buffers s) p b so (zlen (StringBuffer.buffer b)) /\ so < zlen (StringBuffer.buffer b) /\
    contents (_buffers s) p = zdrop so (StringBuffer.buffer b) /\ Piece.bufferIndex p = 0.
Proof.
  intros Hbs (Hok & b0 & Hb0 & Hlc) (c & so & eo & Hsp & Hlt & _) Htip. rewrite Hbs in Hb0. injection Hb0 as <-.
  destruct (tip_end _ _ _ _ _ _ b Hok ltac:(by rewrite Hbs) Hlc Hsp Htip) as [-> ->].
  exists so. pose proof (spans_bounds _ _ _ _ _ Hsp). split; [done |]. split; [done |]. split.
  - rewrite (spans_contents _ _ _ _ _ Hsp), js_substring_eq by lia.
    by rewrite ztake_all by (rewrite zlen_zdrop; lia).
  - by apply andb_true_iff in Htip as [?%Z.eqb_eq _].
Qed.

Lemma last_zdrop {A} (l : list A) n : 0 <= n < zlen l -> last (zdrop n l) = last l.
Proof.
  intros H. rewrite <- (ztake_zdrop n l) at 2. rewrite last_app_ne; [done |].
  intros E1. apply (f_equal zlen) in E1. rewrite zlen_zdrop in E1 by lia. change (zlen []) with 0 in E1. lia.
Qed.

(** The tail of [appendToNode]: the change buffer becomes [b'] and the node takes
    the new text in. *)
Lemma append_finish F s s1 l1 x p l2 b b' rest so v :
  fits F s (l1 ++ (x, p) :: l2) -> pieces_ok (_buffers s) (l1 ++ (x, p) :: l2) ->
  _buffers s = b :: rest -> kept s s1 -> tr s1 = tr s ->
  tip (_lastChangeBufferPos s) p = true -> spans (_buffers s) p b so (zlen (StringBuffer.buffer b)) ->
  so < zlen (StringBuffer.buffer b) -> Piece.bufferIndex p = 0 -> glued b b' v -> v <> [] ->
  exists s' p', (modify (set_buffers (b' :: tail (b :: rest)));;
    lastStart ← bufs (fun _ => num_at (StringBuffer.lineStarts b') (zlen (StringBuffer.lineStarts b') - 1));
    let newEnd := BufferCursor.mk (zlen (StringBuffer.lineStarts b') - 1) (zlen (StringBuffer.buffer b') - lastStart) in
    piece ← piece_of x;
    let newLength := Piece.length piece + zlen v in
    newLineFeedCnt ← bufs (fun bs => getLineFeedCnt bs 0 (Piece.start piece) newEnd);
    let lf_delta := newLineFeedCnt - Piece.lineFeedCnt piece in
    set_piece x (Piece.mk (Piece.bufferIndex piece) (Piece.start piece) newEnd newLineFeedCnt newLength);;
    modify (set_lastChange newEnd);;
    rbt (updateTreeMetadata x (zlen v) lf_delta)) s1 = Ret (tt, s') /\ kept s s' /\
    fits F s' (l1 ++ (x, p') :: l2) /\ _buffers s' = b' :: rest /\ piece_ok (b' :: rest) p' /\
    contents (b' :: rest) p' = contents (b :: rest) p ++ v /\
    keeps (b :: rest) (b' :: rest) l1 /\ keeps (b :: rest) (b' :: rest) l2.
Proof.
  intros Hf Hpk Hbs Hk Ht Htip Hsp Hlt Hidx Hg Hv.
  destruct (fits_bufs Hf) as (Hok & b0 & Hb0 & Hlc). rewrite Hbs in Hb0. injection Hb0 as <-.
  pose proof (fits_tips Hf) as Htips. rewrite tips_app in Htips. cbn in Htips. rewrite Htip in Htips.
  apply Forall_app in Hpk as [Hp1 [Hpp Hp2]%Forall_cons]. rewrite Hbs in *.
  pose proof (sp_ok Hsp) as Hb.
  destruct (glued_all b b' rest v _ l1 Hb Hlc Hg Hv Hp1) as [K1 T1]; [lia |].
  destruct (glued_all b b' rest v _ l2 Hb Hlc Hg Hv Hp2) as [K2 T2]; [lia |].
  pose proof Hg as (Hb' & Htext & Hcur).
  destruct (appended_piece b' rest so (Piece.start p) Hb') as (ls & lfc & H1 & H2 & H3 & Hspn & Hokn & Hcn).
  { apply Hcur; [apply Hsp | done]. }
  { rewrite Htext, zlen_app. pose proof (zlen_nonneg v). lia. }
  set (s2 := set_buffers (b' :: tail (b :: rest)) s1).
  assert (holds F s2 (l1 ++ (x, p) :: l2)) as Hh2.
  { destruct (fits_holds Hf) as (t & Hvt & Hn). exists t. cbn. by rewrite Ht. }
  rewrite Htext, zlen_app in Hspn, Hokn, Hcn.
  set (p' := Piece.mk _ _ _ _ _) in Hspn, Hokn, Hcn.
  destruct (holds_set F s2 l1 x p l2 p' (zlen v) (lfc - Piece.lineFeedCnt p) Hh2)
    as (s3 & s4 & G1 & Go1 & G2 & Go2 & Gh); [cbn; rewrite (sp_length Hsp); lia | done |].
  exists (set_tr (tr s4) (set_lastChange (end_of b') s3)), p'. split.
  { erewrite pbind_run by done. erewrite pbind_run by (apply bufs_run; exact H1). cbn zeta. rewrite H2.
    assert ((x, p) ∈ l1 ++ (x, p) :: l2) as Hin by set_solver.
    erewrite pbind_run by (eapply holds_piece; [exact Hh2 | exact Hin]).
    erewrite pbind_run by (apply bufs_run; exact H3).
    assert (Piece.mk (Piece.bufferIndex p) (Piece.start p) (end_of b') lfc (Piece.length p + zlen v) = p') as ->.
    { unfold p'. rewrite Hidx, (sp_length Hsp). f_equal. lia. }
    erewrite pbind_run by exact G1. erewrite pbind_run by done. by eapply rbt_at. }
  split; [rewrite Go1; unfold s2; by rewrite Hk |].
  assert (_buffers s3 = b' :: rest) as Hb3 by (by rewrite Go1).
  split; [| split; [done |]; split; [done |]; split; [| done]].
  - constructor; cbn.
    + destruct Gh as (t & Hvt & Hn). by exists t.
    + rewrite Hb3. split; [constructor; [done |]; by apply Forall_cons in Hok as [_ ?] |].
      exists b'. split; [done | by apply end_of_ok].
    + rewrite Hb3. apply Forall_app. split; [| constructor; [eauto |]];
        (eapply Forall_impl; [eapply keeps_pieces_ok; [done | exact Hp1] || (eapply keeps_pieces_ok; [done | exact Hp2]) |]);
        intros n Hn; by apply piece_ok_spans.
    + rewrite tips_app. cbn. rewrite T1, T2. case_match; lia.
  - rewrite Hcn, zdrop_app_l by lia. rewrite (spans_contents _ _ _ _ _ Hsp).
    pose proof (spans_bounds _ _ _ _ _ Hsp). rewrite js_substring_eq by lia.
    by rewrite ztake_all by (rewrite zlen_zdrop; lia).
Qed.

(** Nodes whose texts stay, with one node in between whose text changes. *)
Lemma docs_mid F s s' l1 x p l2 p' a :
  fits F s' (l1 ++ (x, p') :: l2) -> keeps (_buffers s) (_buffers s') l1 -> keeps (_buffers s) (_buffers s') l2 ->
  pieces_ok (_buffers s) l1 -> pieces_ok (_buffers s) l2 -> piece_ok (_buffers s') p' ->
  sealed (_buffers s) (l1 ++ [(x, p)]) -> sealed (_buffers s) l2 -> piece_ok (_buffers s) p ->
  contents (_buffers s') p' = contents (_buffers s) p ++ a -> seam (contents (_buffers s) p ++ a) (text (_buffers s) l2) ->
  (checks s' = false -> CarriageReturn ∉ text (_buffers s) (l1 ++ [(x, p)]) ++ a ++ text (_buffers s) l2) ->
  docs F s' (l1 ++ (x, p') :: l2) /\
  text (_buffers s') (l1 ++ (x, p') :: l2) = text (_buffers s) (l1 ++ [(x, p)]) ++ a ++ text (_buffers s) l2.
Proof.
  intros Hf K1 K2 P1 P2 Pp S1 S2 Op%piece_ok_ne Hc Hseam Hcr.
  apply sealed_app in S1 as (S1 & _ & Sm1). rewrite text_one in Sm1.
  assert (text (_buffers s') (l1 ++ (x, p') :: l2) = text (_buffers s) (l1 ++ [(x, p)]) ++ a ++ text (_buffers s) l2) as Ht.
  { rewrite !text_app, text_cons, text_one, Hc, (keeps_text _ _ _ K1), (keeps_text _ _ _ K2). by rewrite <- !app_assoc. }
  split; [| done]. constructor; [done | | | intros Hch; rewrite Ht; auto].
  - apply Forall_app. split; [by eapply keeps_pieces_ok |]. constructor; [done | by eapply keeps_pieces_ok].
  - apply sealed_app. rewrite sealed_cons, text_cons, Hc, (keeps_text _ _ _ K1), (keeps_text _ _ _ K2).
    split_and!; [by eapply keeps_sealed | by eapply keeps_sealed | done |]. rewrite <- app_assoc. by apply seam_right.
Qed.

Lemma appendToNode_ok F s l1 x p l2 value :
  docs F s (l1 ++ (x, p) :: l2) -> tip (_lastChangeBufferPos s) p = true -> value <> [] ->
  (checks s = false -> CarriageReturn ∉ value) -> blen (_buffers s) + zlen value + 1 < 2 ^ 31 - 1 ->
  exists F' s' L', appendToNode x value s = Ret (tt, s') /\
    spliced F' s s' L' (text (_buffers s) (l1 ++ [(x, p)]) ++ value ++ text (_buffers s) l2) (zlen value + 1) /\
    stays F' l1 x L'.
Proof.
  intros [Hf Hpk Hs Hcr] Htip Hv Hcrv Hroom. unfold appendToNode.
  assert (l1 ++ (x, p) :: l2 = (l1 ++ [(x, p)]) ++ l2) as Ex by (by rewrite <- app_assoc).
  pose proof Hpk as Hpk'. apply Forall_app in Hpk' as [Hp1 [Hpp Hp2]%Forall_cons]. cbn [snd] in Hpp.
  rewrite Ex in Hs, Hcr. apply sealed_app in Hs as (Hs1 & Hs2 & Hsm).
  destruct (adjustCarriageReturnFromNext_ok F s l1 x p l2 value Hf Hp2 Hs2 Hcrv)
    as (b & F1 & s1 & l2' & H1 & Ho1 & Hf1 & Hp2' & Hs2' & Htx & Hsm').
  erewrite pbind_run by exact H1. cbn zeta. set (v := if b then value ++ [LineFeed] else value) in *.
  assert (v <> []) as Hv' by (unfold v; destruct b, value; done).
  assert (zlen v <= zlen value + 1) as Hzv by (unfold v; destruct b; rewrite ?zlen_app, ?zlen_cons, ?zlen_nil; lia).
  assert (checks s1 = checks s) as Hch1 by (by apply checks_kept, only_tr_kept).
  pose proof (only_tr_buffers _ _ Ho1) as Hb1. pose proof (only_tr_last _ _ Ho1) as Hl1.
  erewrite pbind_run by apply shouldCheckCRLF_run. rewrite Hch1.
  destruct (fits_bufs Hf) as (Hok & b0 & Hb0 & Hlc). destruct (_buffers s) as [| b1 rest] eqn:Hbs; [done |].
  injection Hb0 as ->. apply Forall_cons in Hok as Hok'. destruct Hok' as [Hbok _].
  destruct (tip_spans s1 p b0 rest Hb1) as (so & Hsp & Hlt & Hc & Hidx); [apply Hf1 | by rewrite Hb1 | by rewrite Hl1 |].
  pose proof (spans_bounds _ _ _ _ _ Hsp) as Hbd. rewrite Hb1 in Hc.
  set (hit := checks s && startWithLF_str v && bool_decide (last (contents (b0 :: rest) p) = Some CarriageReturn)).
  assert (last (contents (b0 :: rest) p) = last (StringBuffer.buffer b0)) as Hlast by (rewrite Hc; apply last_zdrop; lia).
  erewrite (pbind_run _ _ s1 hit s1).
  2: { unfold hit. destruct (checks s && startWithLF_str v); [cbn [andb] | done]. rewrite <- Hb1.
       eapply endWithCR_ok; [exact Hf1 | set_solver | by rewrite Hb1]. }
  erewrite pbind_run by done. rewrite Hb1. erewrite pbind_run by done.
  assert (glued b0 (glue b0 v hit) v) as Hg.
  { cbn in Hroom. destruct hit eqn:Ehit; unfold hit in Ehit.
    - apply andb_true_iff in Ehit as [[_ E2%startWithLF_str_spec]%andb_true_iff E3%bool_decide_eq_true].
      rewrite Hlast in E3. destruct v as [| c0 v']; [done |]. injection E2 as ->. apply glue_crlf; [done | done | lia].
    - apply glue_seam; [done | | lia]. intros [E3 E2]. rewrite <- Hlast in E3.
      apply startWithLF_str_spec in E2. rewrite E2, (bool_decide_eq_true_2 _ E3), !andb_true_r in Ehit.
      apply (Hcr Ehit). rewrite text_app, text_app, text_one. apply last_Some in E3 as [k ->]. set_solver. }
  destruct (append_finish F1 s1 (if hit then set_lastChange (BufferCursor.mk (BufferCursor.line (_lastChangeBufferPos s1) - 1)
      (zlen (StringBuffer.buffer b0) - default 0 (znth (StringBuffer.lineStarts b0) (zlen (StringBuffer.lineStarts b0) - 2)))) s1
      else s1) l1 x p l2' b0 (glue b0 v hit) rest so v)
    as (s' & p' & H2 & Hk2 & Hf2 & Hb2 & Hp' & Hc' & K1 & K2); try done.
  { rewrite Hb1. apply Forall_app. split; [done |]. by constructor. }
  { destruct hit; [done | apply kept_refl]. }
  { by destruct hit. }
  { by rewrite Hl1. }
  exists F1, s', (l1 ++ (x, p') :: l2'). split.
  { erewrite pbind_run; [exact H2 |]. unfold glue. destruct hit eqn:Ehit; [| reflexivity].
    unfold hit in Ehit. apply andb_true_iff in Ehit as [_ E3%bool_decide_eq_true]. rewrite Hlast in E3.
    destruct (last_start_cr b0 Hbok E3) as (ls & Hls & Hls' & _).
    destruct (num_at_in (StringBuffer.lineStarts b0) (zlen (StringBuffer.lineStarts b0) - 2)) as (ps & Hps & Hnum).
    { rewrite Hls, <- Hls', zlen_app, zlen_cons. pose proof (zlen_nonneg (lineStarts_loop 0 (removelast (StringBuffer.buffer b0)))).
      change (zlen [zlen (StringBuffer.buffer b0)]) with 1. lia. }
    erewrite pbind_run by (apply bufs_run; exact Hnum). erewrite pbind_run by done. erewrite pbind_run by done.
    by rewrite Hps. }
  assert (kept s s') as Hk by (by eapply only_tr_kept_trans).
  destruct (docs_mid F1 s1 s' l1 x p l2' p' v) as [Hd Ht]; rewrite ?Hb1, ?Hb2; try done.
  { apply seam_left; [done | exact Hsm']. }
  { rewrite (checks_kept _ _ Hk). intros Hch. rewrite Htx. rewrite text_app in Hcr.
    specialize (Hcr Hch). specialize (Hcrv Hch). set_solver. }
  rewrite Hb1, Htx in Ht. split; [| left; eauto]. constructor; [done | done | done |].
  rewrite Hb2, Hbs. cbn. rewrite zlen_app. lia.
Qed.

(** ** Inserting after a node *)

Lemma keeps_app bs bs' (l k : seq) : keeps bs bs' (l ++ k) <-> keeps bs bs' l /\ keeps bs bs' k.
Proof. apply Forall_app. Qed.

(** The tips of a document to which new pieces come. *)
Lemma newPieces_tips F s s' L ps u :
  fits F s L -> newPieces_spec s s' ps u ->
  forall N : seq, snd <$> N = ps ->
    (tips (_lastChangeBufferPos s') L + tips (_lastChangeBufferPos s') N <= 1)%nat.
Proof. intros Hf (_ & _ & _ & _ & _ & _ & _ & Ht) N HN. apply Ht; [apply Hf | done | apply Hf]. Qed.

Lemma tips_pieces lc (N N' : seq) : snd <$> N = snd <$> N' -> tips lc N = tips lc N'.
Proof.
  revert N'. induction N as [| [x p] N IH]; intros [| [y q] N'] [=]; [done |]. subst. cbn. by rewrite (IH N').
Qed.

(** The first new node and the nodes after it. *)
Lemma insertFirstRight_ok F s l1 x q l2 p0 ps :
  fits F s (l1 ++ (x, q) :: l2) -> Forall (piece_ok (_buffers s)) (p0 :: ps) ->
  (forall N : seq, snd <$> N = p0 :: ps ->
     tips (_lastChangeBufferPos s) (l1 ++ (x, q) :: l2) + tips (_lastChangeBufferPos s) N <= 1)%nat ->
  exists z s1 y s2 (N : seq), rbt (rbInsertRight x p0) s = Ret (z, s1) /\ insertAllRight z ps s1 = Ret (y, s2) /\
    only_tr s s2 /\ snd <$> N = ps /\ fits F s2 (l1 ++ (x, q) :: ((z, p0) :: N) ++ l2).
Proof.
  intros Hf [Hp Hps]%Forall_cons Ht.
  pose proof (Ht ((fun p => (SENTINEL, p)) <$> (p0 :: ps))) as Ht0. rewrite <- list_fmap_compose in Ht0.
  unfold compose in Ht0. rewrite list_fmap_id in Ht0. specialize (Ht0 eq_refl). cbn in Ht0.
  destruct (fits_insertRight F s l1 x q l2 p0 Hf) as (z & s1 & H1 & Ho1 & Hf1 & _); [by apply piece_ok_spans | lia |].
  pose proof (only_tr_buffers _ _ Ho1) as Hb1. pose proof (only_tr_last _ _ Ho1) as Hl1.
  pose proof Hf1 as Hf1'. apply fits_cons_app in Hf1'.
  destruct (insertAllRight_ok ps F s1 (l1 ++ [(x, q)]) z p0 l2 Hf1') as (y & s2 & N & H2 & Ho2 & HN & Hf2);
    [by rewrite Hb1 | |].
  { intros N HN. rewrite Hl1. assert (snd <$> (SENTINEL, p0) :: N = p0 :: ps) as HN' by (by rewrite fmap_cons, HN).
    specialize (Ht _ HN'). rewrite !tips_app in *. cbn in *. lia. }
  exists z, s1, y, s2, N. do 2 (split; [done |]). split; [by eapply only_tr_trans |]. split; [done |].
  rewrite <- app_assoc in Hf2. exact Hf2.
Qed.

Lemma insertContentToNodeRight_ok F s l1 x p l2 value :
  docs F s (l1 ++ (x, p) :: l2) -> value <> [] -> (checks s = false -> CarriageReturn ∉ value) ->
  blen (_buffers s) + zlen value + 5 < 2 ^ 31 - 1 ->
  exists F' s' L', insertContentToNodeRight value x s = Ret (tt, s') /\
    spliced F' s s' L' (text (_buffers s) (l1 ++ [(x, p)]) ++ value ++ text (_buffers s) l2) (zlen value + 5) /\
    stays F' l1 x L'.
Proof.
  intros [Hf Hpk Hs Hcr] Hv Hcrv Hroom. unfold insertContentToNodeRight.
  assert (l1 ++ (x, p) :: l2 = (l1 ++ [(x, p)]) ++ l2) as Ex by (by rewrite <- app_assoc).
  rewrite Ex in Hs, Hcr, Hpk. apply Forall_app in Hpk as [Hp1 Hp2]. apply sealed_app in Hs as (Hs1 & Hs2 & Hsm).
  destruct (adjustCarriageReturnFromNext_ok F s l1 x p l2 value Hf Hp2 Hs2 Hcrv)
    as (b & F1 & s1 & l2' & H1 & Ho1 & Hf1 & Hp2' & Hs2' & Htx & Hsm').
  erewrite pbind_run by exact H1. cbn zeta. set (v := if b then value ++ [LineFeed] else value) in *.
  assert (v <> []) as Hv' by (unfold v; destruct b, value; done).
  assert (zlen v <= zlen value + 1) as Hzv by (unfold v; destruct b; rewrite ?zlen_app, ?zlen_cons, ?zlen_nil; lia).
  pose proof (only_tr_buffers _ _ Ho1) as Hb1.
  destruct (createNewPieces_ok s1 v Hv') as (ps & s2 & H2 & Hnp); [apply Hf1 | rewrite Hb1; lia |].
  erewrite pbind_run by exact H2.
  pose proof (kept_fits _ _ _ _ _ _ Hf1 Hnp) as Hf2. pose proof (newPieces_tips _ _ _ _ _ _ Hf1 Hnp) as Htips.
  destruct Hnp as (Hk2 & _ & _ & Hg2 & (Hne & Hpsok & HpsL) & Hbl2 & _ & _). rewrite Hb1 in Hg2, Hbl2.
  destruct ps as [| p0 ps]; [done |]. erewrite pbind_run by done.
  destruct (insertFirstRight_ok F1 s2 l1 x p l2' p0 ps Hf2 Hpsok Htips)
    as (z & s3 & y & s4 & N & H3 & H4 & Ho4 & HN & Hf4).
  erewrite pbind_run by exact H3. erewrite pbind_run by exact H4.
  destruct (HpsL ((z, p0) :: N)) as [HtN HsN]; [by rewrite fmap_cons, HN |].
  pose proof (only_tr_buffers _ _ Ho4) as Hb4.
  assert (pieces_ok (_buffers s2) ((z, p0) :: N)) as HokN.
  { rewrite <- HN in Hpsok. change (p0 :: (snd <$> N)) with (snd <$> (z, p0) :: N) in Hpsok. by rewrite Forall_fmap in Hpsok. }
  pose proof (grows_keeps _ _ _ Hg2 Hp1) as K1. pose proof (grows_keeps _ _ _ Hg2 Hp2') as K2.
  assert (kept s s4) as Hk4 by (eapply kept_only_tr; [| exact Ho4]; by eapply only_tr_kept_trans).
  destruct (seal_ok F1 s4 (l1 ++ [(x, p)]) (((z, p0) :: N) ++ l2') [] (validateCRLFWithPrevNode z))
    as (F' & s' & L' & H5 & [Ek Ef Eg Ep Es Et Eb] & Hst & _); rewrite ?Hb4.
  { by left. }
  { done. }
  { rewrite app_nil_r, <- app_assoc. exact Hf4. }
  { by eapply keeps_pieces_ok. }
  { apply Forall_app. split; [done | by eapply keeps_pieces_ok]. }
  { by eapply keeps_sealed. }
  { apply sealed_app. rewrite HtN, (keeps_text _ _ _ K2). split_and!; [done | by eapply keeps_sealed | done]. }
  { rewrite (checks_kept _ _ Hk4), (keeps_text _ _ _ K1). intros Hch Hin. apply (Hcr Hch).
    rewrite text_app. set_solver. }
  { lia. }
  exists F', s', L'. split; [exact H5 |]. rewrite app_nil_r in *. rewrite Hb4 in *.
  assert (kept s s') as Hk by (by eapply kept_trans).
  assert (text (_buffers s') L' = text (_buffers s) (l1 ++ [(x, p)]) ++ value ++ text (_buffers s) l2) as Ht'
    by (by rewrite Et, (text_app _ (_ :: _)), HtN, (keeps_text _ _ _ K1), (keeps_text _ _ _ K2), Htx).
  split; [| exact (Hst l1 x p eq_refl)].
  constructor; [done | constructor; [done | done | done |] | done | lia].
  rewrite (checks_kept _ _ Hk), Ht'. intros Hch. specialize (Hcr Hch). specialize (Hcrv Hch).
  rewrite text_app in Hcr. set_solver.
Qed.

(** ** Inserting before a node *)

(** A LF at the start of the node moves to the end of the inserted text. *)
Lemma takeFirstLF_ok F s l1 x p l2 value :
  docs F s (l1 ++ (x, p) :: l2) -> (checks s = false -> CarriageReturn ∉ value) ->
  exists lf s' p' c v,
    (if checks s && endWithCR_str value then startWithLF x else mret false) s = Ret (lf, s) /\
    (if lf : bool then
       dropFirstLF x;;
       q ← piece_of x;
       mret (value ++ [LineFeed], if Piece.length q === 0 then [x] else [])
     else mret (value, [])) s = Ret ((v, if bool_decide (c = []) then [x] else []), s') /\
    only_tr s s' /\ fits F s' (l1 ++ (x, p') :: l2) /\ contents (_buffers s) p' = c /\
    (c <> [] -> piece_ok (_buffers s) p') /\ sealed (_buffers s) ((x, p') :: l2) /\
    v ++ c = value ++ contents (_buffers s) p /\ seam v (text (_buffers s) ((x, p') :: l2)) /\
    (v = value \/ v = value ++ [LineFeed]).
Proof.
  intros [Hf Hpk Hs Hcr] Hcrv.
  apply Forall_app in Hpk as [Hp1 [Hpp Hp2]%Forall_cons]. cbn [snd] in Hpp. apply sealed_app in Hs as (Hs1 & Hs2 & Hsm).
  pose proof (piece_ok_ne _ _ Hpp) as Hne.
  pose proof (startWithLF_ok F s (l1 ++ (x, p) :: l2) x p Hf ltac:(set_solver) Hpp) as Hrun.
  set (lf := checks s && endWithCR_str value && bool_decide (head (contents (_buffers s) p) = Some LineFeed)).
  assert ((if checks s && endWithCR_str value then startWithLF x else mret false) s = Ret (lf, s)) as H1
    by (unfold lf; destruct (checks s && endWithCR_str value); done).
  exists lf. destruct lf eqn:Elf; unfold lf in Elf.
  - apply andb_true_iff in Elf as [_ Hlf%bool_decide_eq_true].
    destruct (contents (_buffers s) p) as [| c0 c] eqn:Eq; [done |]. injection Hlf as ->.
    destruct (dropFirstLF_ok _ _ _ _ _ _ _ Hf Hpp Eq) as (s1 & p' & Hd & Ho & Hf1 & Hl & Hc' & Hok).
    exists s1, p', c, (value ++ [LineFeed]). split; [done |]. split.
    { erewrite pbind_run by exact Hd. erewrite pbind_run by (eapply fits_piece_mid; exact Hf1).
      rewrite Hl. rewrite (zlen_pred_0 c); [done |]. rewrite <- (piece_ok_zlen _ _ Hpp), Eq, zlen_cons. lia. }
    do 4 (split; [done |]). split; [by eapply sealed_drop_lf |]. split; [by rewrite <- app_assoc |].
    split; [| by right]. intros [H _]. by rewrite last_snoc in H.
  - exists s, p, (contents (_buffers s) p), value. rewrite bool_decide_eq_false_2 by done.
    split; [done |]. split; [done |]. split; [apply only_tr_refl |]. do 5 (split; [done |]). split; [| by left].
    intros [E1 E2]. rewrite text_cons, head_app_ne in E2 by done. rewrite bool_decide_eq_true_2, andb_true_r in Elf by done.
    rewrite (proj2 (endWithCR_str_spec _) E1), andb_true_r in Elf. apply (Hcrv Elf).
    apply last_Some in E1 as [k ->]. set_solver.
Qed.

Lemma rev_ne {A} (l : list A) : l <> [] -> rev l <> [].
Proof. destruct l; [done |]. cbn. intros _ H. by apply app_nil in H as [_ ?]. Qed.

Lemma fmap_rev {A B} (f : A -> B) (l : list A) : f <$> rev l = rev (f <$> l).
Proof. induction l as [| x l IH]; [done |]. cbn. by rewrite fmap_app, IH. Qed.

Lemma tips_rev lc (N : seq) : tips lc (rev N) = tips lc N.
Proof. induction N as [| [x p] N IH]; [done |]. cbn. rewrite tips_app, IH. cbn. lia. Qed.

(** Deleting a node when its text is empty. *)
Lemma deleteIfEmpty F s l1 x p l2 (c : jsstring) :
  fits F s (l1 ++ (x, p) :: l2) ->
  exists F' s', deleteNodes (if bool_decide (c = []) then [x] else []) s = Ret (tt, s') /\ only_tr s s' /\
    fits F' s' (l1 ++ unless_empty c x p ++ l2) /\ stays F' l1 x (l1 ++ unless_empty c x p ++ l2).
Proof.
  intros Hf. unfold unless_empty. case_bool_decide.
  - cbn [deleteNodes]. destruct (fits_delete _ _ _ _ _ _ Hf) as (s1 & zn & H1 & Ho & Hf1 & Hn).
    exists (<[x := detached zn]> F), s1. split; [by erewrite pbind_run by exact H1 |]. do 2 (split; [done |]).
    right. split; [| done]. exists (detached zn). by rewrite lookup_insert_eq.
  - exists F, s. split; [done |]. split; [apply only_tr_refl |]. split; [done |]. left. by exists p, l2.
Qed.

Lemma unless_empty_rest bs x p l c :
  contents bs p = c -> (c <> [] -> piece_ok bs p) -> pieces_ok bs l -> sealed bs ((x, p) :: l) ->
  text bs (unless_empty c x p ++ l) = c ++ text bs l /\ pieces_ok bs (unless_empty c x p ++ l) /\
  sealed bs (unless_empty c x p ++ l).
Proof.
  intros Hc Hok Hl [Hs Hm]%sealed_cons. destruct (unless_empty_ok bs c x p Hc Hok) as (T1 & O1 & S1).
  rewrite text_app, T1, sealed_app, T1. rewrite Hc in Hm. split_and!; try done. by apply Forall_app.
Qed.

(** Putting new nodes in front of nodes whose texts stay. *)
Lemma docs_app F s s' M l u :
  fits F s' (M ++ l) -> pieces_ok (_buffers s') M -> sealed (_buffers s') M -> text (_buffers s') M = u ->
  keeps (_buffers s) (_buffers s') l -> pieces_ok (_buffers s) l -> sealed (_buffers s) l -> seam u (text (_buffers s) l) ->
  (checks s' = false -> CarriageReturn ∉ u ++ text (_buffers s) l) ->
  docs F s' (M ++ l) /\ text (_buffers s') (M ++ l) = u ++ text (_buffers s) l.
Proof.
  intros Hf HM SM TM K Hl Sl Hseam Hcr.
  assert (text (_buffers s') (M ++ l) = u ++ text (_buffers s) l) as Ht
    by (rewrite text_app, TM, (keeps_text _ _ _ K); done).
  split; [| done]. constructor; [done | | | by rewrite Ht].
  - apply Forall_app. split; [done | by eapply keeps_pieces_ok].
  - apply sealed_app. rewrite TM, (keeps_text _ _ _ K). split_and!; [done | by eapply keeps_sealed | done].
Qed.

Lemma insertContentToNodeLeft_ok F s l1 x p l2 value :
  docs F s (l1 ++ (x, p) :: l2) -> value <> [] -> (checks s = false -> CarriageReturn ∉ value) ->
  blen (_buffers s) + zlen value + 5 < 2 ^ 31 - 1 ->
  exists F' s' L', insertContentToNodeLeft value x s = Ret (tt, s') /\
    spliced F' s s' L' (text (_buffers s) l1 ++ value ++ text (_buffers s) ((x, p) :: l2)) (zlen value + 5) /\
    (x ∈ fst <$> L' \/ detached_in F' x).
Proof.
  intros Hd Hv Hcrv Hroom. unfold insertContentToNodeLeft.
  erewrite pbind_run by apply shouldCheckCRLF_run.
  destruct (takeFirstLF_ok F s l1 x p l2 value Hd Hcrv)
    as (lf & s1 & p' & c & v & H0 & H1 & Ho1 & Hf1 & Hc' & Hok & Hsx & Htv & Hsv & Hvv).
  destruct Hd as [Hf Hpk Hs Hcr].
  apply Forall_app in Hpk as [Hp1 [Hpp Hp2]%Forall_cons]. apply sealed_app in Hs as (Hs1 & Hs2 & Hsm).
  erewrite pbind_run by exact H0. erewrite pbind_run by exact H1. cbn beta iota.
  assert (v <> []) as Hv' by (destruct Hvv as [-> | ->], value; done).
  assert (zlen v <= zlen value + 1) as Hzv by (destruct Hvv as [-> | ->]; rewrite ?zlen_app, ?zlen_cons, ?zlen_nil; lia).
  pose proof (only_tr_buffers _ _ Ho1) as Hb1.
  destruct (createNewPieces_ok s1 v Hv') as (ps & s2 & H2 & Hnp); [apply Hf1 | rewrite Hb1; lia |].
  erewrite pbind_run by exact H2.
  pose proof (kept_fits _ _ _ _ _ _ Hf1 Hnp) as Hf2. pose proof (newPieces_tips _ _ _ _ _ _ Hf1 Hnp) as Htips.
  destruct Hnp as (Hk2 & _ & _ & Hg2 & (Hne & Hpsok & HpsL) & Hbl2 & _ & _). rewrite Hb1 in Hg2, Hbl2.
  destruct (insertAllLeft_ok (rev ps) F s2 l1 x p' l2 Hf2) as (z & s3 & N & H3 & Ho3 & HN & Hz & Hf3);
    [by apply Forall_rev | by apply rev_ne | |].
  { intros N HN. specialize (Htips (rev N)). rewrite !fmap_rev, HN, rev_involutive in Htips.
    specialize (Htips eq_refl). by rewrite tips_rev in Htips. }
  rewrite rev_involutive in HN. erewrite pbind_run by exact H3.
  destruct (HpsL N HN) as [HtN HsN]. pose proof (only_tr_buffers _ _ Ho3) as Hb3.
  assert (pieces_ok (_buffers s2) N) as HokN by (rewrite <- HN, Forall_fmap in Hpsok; done).
  assert (N <> []) as HNne by (intros ->; by destruct ps).
  pose proof (grows_keeps _ _ _ Hg2 Hp1) as K1. pose proof (grows_keeps _ _ _ Hg2 Hp2) as K2.
  assert (kept s s3) as Hk3 by (eapply kept_only_tr; [| exact Ho3]; by eapply only_tr_kept_trans).
  destruct (seal_ok F s3 l1 N ((x, p') :: l2) (validateCRLFWithPrevNode z))
    as (F' & s4 & L' & H4 & [Ek Ef Eg Ep Es Et Eb] & _ & _); rewrite ?Hb3; try done.
  { left. by rewrite Hz. }
  { by eapply keeps_pieces_ok. }
  { by eapply keeps_sealed. }
  { rewrite (checks_kept _ _ Hk3), (keeps_text _ _ _ K1). intros Hch Hin. apply (Hcr Hch).
    rewrite text_app. set_solver. }
  { lia. }
  erewrite pbind_run by exact H4.
  destruct (deleteIfEmpty F' s4 L' x p' l2 c Ef) as (F5 & s5 & H5 & Ho5 & Hf5 & Hst5).
  exists F5, s5, (L' ++ unless_empty c x p' ++ l2). split; [exact H5 |]. rewrite Hb3 in *.
  pose proof (only_tr_buffers _ _ Ho5) as Hb5.
  assert (kept s s5) as Hk by (eapply kept_only_tr; [| exact Ho5]; by eapply kept_trans).
  destruct (unless_empty_rest (_buffers s) x p' l2 c Hc' Hok Hp2 Hsx) as (T1 & O1 & S1).
  destruct (docs_app F5 s s5 L' (unless_empty c x p' ++ l2) (text (_buffers s) l1 ++ v)) as [Hd Ht];
    rewrite ?Hb5; try done.
  { by rewrite Et, HtN, (keeps_text _ _ _ K1). }
  { apply grows_keeps; [by eapply grows_trans | done]. }
  { rewrite T1. apply seam_left; [done |]. by rewrite text_cons, Hc' in Hsv. }
  { rewrite (checks_kept _ _ Hk), T1, <- app_assoc, (app_assoc v), Htv. intros Hch. specialize (Hcr Hch). specialize (Hcrv Hch).
    rewrite text_app, text_cons in Hcr. set_solver. }
  split.
  - constructor; [done | done | | rewrite Hb5; lia].
    by rewrite Ht, T1, text_cons, <- app_assoc, (app_assoc v), Htv, <- app_assoc.
  - destruct Hst5 as [(q' & r & ->) | [? ?]]; [left | by right]. rewrite fmap_app, fmap_cons. set_solver.
Qed.

(** ** Inserting inside of a node *)

Section Middle.
Context (F : gmap ref TreeNode.t) (s : state) (l1 l2 : seq) (x : ref) (p : Piece.t).
Context (b : StringBuffer.t) (so eo remainder : Z) (pos : BufferCursor.t).
Hypothesis Hf : fits F s (l1 ++ (x, p) :: l2).
Hypothesis Hp : piece_ok (_buffers s) p.
Hypothesis Hsp : spans (_buffers s) p b so eo.
Hypothesis Hpos : cursor_ok b pos (so + remainder).
Hypothesis Hrem : 0 < remainder < eo - so.

Local Notation A := (ztake remainder (contents (_buffers s) p)).
Local Notation B := (zdrop remainder (contents (_buffers s) p)).

Lemma middle_zlen : zlen A = remainder /\ zlen B = eo - so - remainder /\ zlen (contents (_buffers s) p) = eo - so.
Proof.
  assert (zlen (contents (_buffers s) p) = eo - so) as Hz by (rewrite (spans_zlen _ _ _ _ _ Hsp); apply Hsp).
  rewrite zlen_ztake, zlen_zdrop by lia. lia.
Qed.

Lemma middle_ne : A <> [] /\ B <> [].
Proof.
  destruct middle_zlen as (HA & HB & _). split; intros E1; rewrite E1 in *; change (zlen []) with 0 in *; lia.
Qed.

(** The piece for the part after the cursor. *)
Lemma middle_right_piece :
  exists lfc, getLineFeedCnt (_buffers s) (Piece.bufferIndex p) pos (Piece.end_ p) = Ret lfc /\
    let R := Piece.mk (Piece.bufferIndex p) pos (Piece.end_ p) lfc (eo - (so + remainder)) in
    piece_ok (_buffers s) R /\ contents (_buffers s) R = B.
Proof.
  destruct (spans_tail (_buffers s) p b so eo pos (so + remainder) 0 (eo - (so + remainder)) Hsp Hpos) as [H1 H2]; [lia | done |].
  assert (so + remainder < eo) as Hlt by lia. pose proof (spans_lf _ _ _ _ _ H1 Hlt) as Hlf. cbn in Hlf.
  eexists. split; [exact Hlf |]. cbn zeta. rewrite Z.add_simpl_l in H2. split; [| done].
  exists b, (so + remainder), eo. split; [destruct H1; by constructor |]. split; [done |]. done.
Qed.

Lemma middle_head : znth (contents (_buffers s) p) remainder = head B.
Proof.
  destruct middle_zlen as (HA & HB & Hz). rewrite <- (ztake_zdrop remainder (contents (_buffers s) p)) at 1.
  rewrite znth_app_r by lia. rewrite HA, Z.sub_diag, head_lookup. done.
Qed.

Lemma middle_last : znth (contents (_buffers s) p) (remainder - 1) = last A.
Proof.
  destruct middle_zlen as (HA & HB & Hz). rewrite <- (ztake_zdrop remainder (contents (_buffers s) p)) at 1.
  rewrite znth_app_l by lia. by rewrite <- znth_last, HA.
Qed.

(** A LF at the start of the right part moves to the end of the inserted text. *)
Lemma middle_right_ok R value :
  piece_ok (_buffers s) R -> contents (_buffers s) R = B -> Piece.end_ R = Piece.end_ p ->
  Piece.bufferIndex R = Piece.bufferIndex p -> (checks s = false -> CarriageReturn ∉ value) -> value <> [] ->
  exists R' v B', (if checks s && endWithCR_str value then
      headOfRight ← nodeCharCodeAt x remainder;
      if headOfRight === 10 then
        let newStart := BufferCursor.mk (BufferCursor.line (Piece.start R) + 1) 0 in
        lfc ← bufs (fun bs => getLineFeedCnt bs (Piece.bufferIndex p) newStart (Piece.end_ R));
        mret (Piece.mk (Piece.bufferIndex p) newStart (Piece.end_ R) lfc (Piece.length R - 1), value ++ [LineFeed])
      else mret (R, value)
    else mret (R, value)) s = Ret ((R', v), s) /\
    (exists b so eo, spans (_buffers s) R' b so eo) /\ contents (_buffers s) R' = B' /\
    (B' <> [] -> piece_ok (_buffers s) R') /\ tip (_lastChangeBufferPos s) R' = tip (_lastChangeBufferPos s) p /\
    v ++ B' = value ++ B /\ (forall k, seam B k -> seam v (B' ++ k) /\ seam B' k) /\ (v = value \/ v = value ++ [LineFeed]).
Proof.
  intros HR HcR HeR HiR Hcrv Hv. destruct middle_ne as [_ HB].
  destruct B as [| c B'] eqn:EB; [done |]. pose proof middle_head as Hh. rewrite EB in Hh. cbn in Hh.
  destruct (nodeCharCodeAt_is F s _ x p remainder c LineFeed Hf ltac:(set_solver) Hp Hh) as (d & Hd & Hdc); [by left |].
  set (take := checks s && endWithCR_str value && bool_decide (c = LineFeed)).
  destruct take eqn:Etake; unfold take in Etake.
  - apply andb_true_iff in Etake as [Hch ->%bool_decide_eq_true]. rewrite Hch.
    rewrite bool_decide_eq_true_2 in Hdc by done.
    destruct (drop_lf _ _ _ HR HcR) as (lfc & Hlfc & Hlf & Hspan & Hc' & Hok'). rewrite HiR in Hlfc, Hspan, Hc', Hok'.
    eexists _, _, B'. split.
    { erewrite pbind_run by exact Hd. change 10 with LineFeed. rewrite Hdc. by erewrite pbind_run by (apply bufs_run; exact Hlfc). }
    do 3 (split; [done |]). split; [unfold tip; cbn; by rewrite HeR |]. split; [by rewrite <- app_assoc |].
    split; [| by right]. intros k Hk. split; [intros [H _]; by rewrite last_snoc in H |].
    change (LineFeed :: B') with ([LineFeed] ++ B') in Hk. by apply seam_of_app_l in Hk.
  - exists R, value, (c :: B'). split.
    { destruct (checks s && endWithCR_str value); [| done]. erewrite pbind_run by exact Hd.
      cbn in Etake. rewrite Etake in Hdc. change 10 with LineFeed. by rewrite Hdc. }
    split; [by apply piece_ok_spans |]. do 2 (split; [done |]). split; [unfold tip; by rewrite HeR, HiR |].
    split; [done |]. split; [| by left]. intros k Hk. split; [| done]. intros [E1 [= E2]].
    rewrite (bool_decide_eq_true_2 _ E2), andb_true_r, (proj2 (endWithCR_str_spec _) E1), andb_true_r in Etake.
    apply (Hcrv Etake). apply last_Some in E1 as [k' ->]. set_solver.
Qed.

(** A CR at the end of the left part moves to the start of the inserted text; the
    node keeps the rest of the left part. *)
Lemma middle_left_ok v :
  (checks s = false -> CarriageReturn ∉ contents (_buffers s) p) -> v <> [] ->
  exists s' p' v' A', (if checks s && startWithLF_str v then
      tailOfLeft ← nodeCharCodeAt x (remainder - 1);
      if tailOfLeft === 13 then
        previousPos ← bufs (fun bs => positionInBuffer bs p (remainder - 1));
        deleteNodeTail x previousPos;;
        q ← piece_of x;
        mret (CarriageReturn :: v, if Piece.length q === 0 then [x] else [])
      else deleteNodeTail x pos;; mret (v, [])
    else deleteNodeTail x pos;; mret (v, [])) s = Ret ((v', if bool_decide (A' = []) then [x] else []), s') /\
    only_tr s s' /\ fits F s' (l1 ++ (x, p') :: l2) /\ contents (_buffers s) p' = A' /\
    (A' <> [] -> piece_ok (_buffers s) p') /\ tip (_lastChangeBufferPos s) p' = false /\
    A' ++ v' = A ++ v /\ (forall k, seam k A -> seam (k ++ A') v' /\ seam k A') /\ (v' = v \/ v' = CarriageReturn :: v).
Proof.
  intros Hcr Hv. destruct middle_ne as [HA _]. destruct middle_zlen as (HzA & HzB & Hz).
  destruct (last A) as [c |] eqn:EA; [| by apply last_None in EA].
  pose proof middle_last as Hh. rewrite EA in Hh.
  destruct (nodeCharCodeAt_is F s _ x p (remainder - 1) c CarriageReturn Hf ltac:(set_solver) Hp Hh) as (d & Hd & Hdc); [by right |].
  apply last_Some in EA as [A' EA].
  set (take := checks s && startWithLF_str v && bool_decide (c = CarriageReturn)).
  destruct take eqn:Etake; unfold take in Etake.
  - apply andb_true_iff in Etake as [Hch ->%bool_decide_eq_true]. rewrite Hch.
    rewrite bool_decide_eq_true_2 in Hdc by done.
    destruct (positionInBuffer_ok (_buffers s) b p so eo (remainder - 1)) as (c' & Hc' & Hcur & _);
      [apply Hsp | apply buffer_starts_ok, Hsp | apply Hsp | apply Hsp | lia |].
    destruct (deleteNodeTail_ok F s l1 x p l2 b so eo c' (so + (remainder - 1)) Hf Hsp Hcur) as (s' & p' & H1 & Ho & Hf' & Hl & Hct & Hok & Htip); [lia |].
    rewrite Z.add_simpl_l in Hl, Hct.
    assert (contents (_buffers s) p' = A') as HA'.
    { rewrite Hct. rewrite <- (ztake_zdrop remainder (contents (_buffers s) p)), EA, <- app_assoc.
      rewrite EA, zlen_app in HzA. change (zlen [CarriageReturn]) with 1 in HzA.
      by rewrite ztake_app_l, ztake_all by lia. }
    exists s', p', (CarriageReturn :: v), A'. split.
    { erewrite pbind_run by exact Hd. change 13 with CarriageReturn. rewrite Hdc.
      erewrite pbind_run by (apply bufs_run; exact Hc'). erewrite pbind_run by exact H1.
      erewrite pbind_run by (eapply fits_piece_mid; exact Hf').
      rewrite Hl. rewrite (zlen_pred_0 A'); [done |]. by rewrite <- HzA, EA, zlen_app. }
    do 3 (split; [done |]). split.
    { intros Hne. apply Hok. rewrite EA, zlen_app in HzA. change (zlen [CarriageReturn]) with 1 in HzA.
      assert (zlen A' <> 0) by (intros ?%zlen_0; done). pose proof (zlen_nonneg A'). lia. }
    split; [apply Htip; lia |]. split; [rewrite EA, <- app_assoc; done |]. split; [| by right]. intros k Hk.
    split; [by intros [_ ?] |]. rewrite EA in Hk. by apply seam_of_app_r in Hk.
  - assert ((if checks s && startWithLF_str v then
      tailOfLeft ← nodeCharCodeAt x (remainder - 1);
      if tailOfLeft === 13 then
        previousPos ← bufs (fun bs => positionInBuffer bs p (remainder - 1));
        deleteNodeTail x previousPos;;
        q ← piece_of x;
        mret (CarriageReturn :: v, if Piece.length q === 0 then [x] else [])
      else deleteNodeTail x pos;; mret (v, [])
    else deleteNodeTail x pos;; mret (v, [])) s = (deleteNodeTail x pos;; mret (v, @nil ref)) s) as ->.
    { destruct (checks s && startWithLF_str v); [| done]. erewrite pbind_run by exact Hd.
      cbn in Etake. rewrite Etake in Hdc. change 13 with CarriageReturn. by rewrite Hdc. }
    destruct (deleteNodeTail_ok F s l1 x p l2 b so eo pos (so + remainder) Hf Hsp Hpos) as (s' & p' & H1 & Ho & Hf' & Hl & Hct & Hok & Htip); [lia |].
    rewrite Z.add_simpl_l in Hl, Hct.
    exists s', p', v, A. erewrite pbind_run by exact H1. rewrite bool_decide_eq_false_2 by done.
    do 4 (split; [done |]). split; [intros _; apply Hok; lia |]. split; [apply Htip; lia |]. split; [done |]. split; [| by left].
    intros k Hk. split; [| done]. apply seam_left; [done |]. rewrite EA. intros [E1 E2]. rewrite last_snoc in E1.
    injection E1 as ->. rewrite bool_decide_eq_true_2, andb_true_r, (proj2 (startWithLF_str_spec _) E2), andb_true_r in Etake by done.
    apply (Hcr Etake). rewrite <- (ztake_zdrop remainder (contents (_buffers s) p)), EA. set_solver.
Qed.
End Middle.

Lemma tips_unless lc c z R : (tips lc (unless_empty c z R) <= if tip lc R then 1 else 0)%nat.
Proof. unfold unless_empty. case_bool_decide; cbn; case_match; lia. Qed.

(** The right part comes back as a node of its own, unless it is empty. *)
Lemma insertRest_ok F s l1 x q l2 R c :
  fits F s (l1 ++ (x, q) :: l2) -> (exists b so eo, spans (_buffers s) R b so eo) -> contents (_buffers s) R = c ->
  (tips (_lastChangeBufferPos s) (l1 ++ (x, q) :: l2) + (if tip (_lastChangeBufferPos s) R then 1 else 0) <= 1)%nat ->
  exists z s', (if 0 <? Piece.length R then rbt (rbInsertRight x R);; mret tt else mret tt) s = Ret (tt, s') /\
    only_tr s s' /\ fits F s' (l1 ++ (x, q) :: unless_empty c z R ++ l2).
Proof.
  intros Hf Hs Hc Ht. pose proof (fits_nonempty_length _ _ _ Hs Hc) as Hl. pose proof (zlen_nonneg c).
  unfold unless_empty. case_bool_decide as H0.
  - rewrite Hl, H0. change (zlen []) with 0. exists SENTINEL, s. split; [done |]. split; [apply only_tr_refl | done].
  - assert (zlen c <> 0) by (intros ?%zlen_0; done). rewrite Hl, (proj2 (Z.ltb_lt _ _)) by lia.
    destruct (fits_insertRight F s l1 x q l2 R Hf Hs Ht) as (z & s' & Hrun & Ho & Hf' & _).
    exists z, s'. split; [by erewrite pbind_run by exact Hrun |]. done.
Qed.

(** The nodes after an insertion inside of node [x]. *)
Lemma middle_docs bs bs' l1 l2 x p1 N z R A' v B' :
  grows bs bs' -> pieces_ok bs l1 -> pieces_ok bs l2 -> sealed bs l1 -> sealed bs l2 ->
  (exists b so eo, spans bs p1 b so eo) -> contents bs p1 = A' -> (A' <> [] -> piece_ok bs p1) ->
  (exists b so eo, spans bs R b so eo) -> contents bs R = B' -> (B' <> [] -> piece_ok bs R) ->
  pieces_ok bs' N -> sealed bs' N -> text bs' N = v -> v <> [] ->
  seam (text bs l1) A' -> seam (text bs l1 ++ A') v -> seam v (B' ++ text bs l2) -> seam B' (text bs l2) ->
  let L := l1 ++ unless_empty A' x p1 ++ N ++ unless_empty B' z R ++ l2 in
  pieces_ok bs' L /\ sealed bs' L /\ text bs' L = text bs l1 ++ A' ++ v ++ B' ++ text bs l2.
Proof.
  intros Hg O1 O2 S1 S2 Sp1 C1 Op1 SpR CR OR ON SN TN Hv M1 M2 M3 M4 L.
  pose proof (grows_keeps _ _ _ Hg O1) as K1. pose proof (grows_keeps _ _ _ Hg O2) as K2.
  destruct (grows_keeps_one _ _ _ Hg Sp1) as [Cp Kp]. destruct (grows_keeps_one _ _ _ Hg SpR) as [Cr Kr].
  destruct (unless_empty_ok bs' A' x p1) as (TA & OA & SA); [congruence | auto |].
  destruct (unless_empty_ok bs' B' z R) as (TB & OB & SB); [congruence | auto |].
  unfold L. rewrite !Forall_app, !sealed_app, !text_app, TA, TN, TB, (keeps_text _ _ _ K1), (keeps_text _ _ _ K2).
  split_and!; try done; try (by eapply keeps_pieces_ok); try (by eapply keeps_sealed).
  - apply seam_right; [done |]. destruct (decide (A' = [])) as [-> | HA]; [apply seam_nil_l |].
    by apply (seam_of_app_l (text bs l1)).
  - destruct (decide (A' = [])) as [-> | HA]; [| by apply seam_right].
    rewrite app_nil_r in M2. cbn [app]. by apply seam_right.
Qed.

Lemma insertMiddle_ok F s l1 x p l2 b so eo remainder pos value :
  docs F s (l1 ++ (x, p) :: l2) -> spans (_buffers s) p b so eo -> cursor_ok b pos (so + remainder) ->
  0 < remainder < eo - so -> value <> [] -> (checks s = false -> CarriageReturn ∉ value) ->
  blen (_buffers s) + zlen value + 5 < 2 ^ 31 - 1 ->
  exists F' s' L', insertMiddle x p remainder pos value s = Ret (tt, s') /\
    spliced F' s s' L' (text (_buffers s) l1 ++ ztake remainder (contents (_buffers s) p) ++ value ++
      zdrop remainder (contents (_buffers s) p) ++ text (_buffers s) l2) (zlen value + 5) /\
    stays F' l1 x L'.
Proof.
  intros [Hf Hpk Hs Hcr] Hsp Hpos Hrem Hv Hcrv Hroom.
  apply Forall_app in Hpk as [Hp1 [Hp Hp2]%Forall_cons]. cbn [snd] in Hp. apply sealed_app in Hs as (Hs1 & [Hs2 Hm2]%sealed_cons & Hm1).
  set (Aa := ztake remainder (contents (_buffers s) p)). set (Bb := zdrop remainder (contents (_buffers s) p)).
  assert (contents (_buffers s) p = Aa ++ Bb) as Hab by (symmetry; apply ztake_zdrop).
  rewrite text_cons, Hab, <- app_assoc in Hm1. apply seam_of_app_r in Hm1.
  rewrite Hab in Hm2. apply seam_of_app_l in Hm2.
  destruct (middle_right_piece s p b so eo remainder pos Hsp Hpos Hrem) as (lfc & Hlfc & HR & HcR). set (R := Piece.mk _ _ _ lfc _) in *.
  destruct (middle_right_ok F s l1 l2 x p b so eo remainder pos Hf Hp Hsp Hpos Hrem R value HR HcR eq_refl eq_refl Hcrv Hv)
    as (R' & v & B' & H1 & HsR & HcR' & HoR & HtR & Hvb & Hmb & Hvv).
  assert (v <> []) as Hv1 by (destruct Hvv as [-> | ->], value; done).
  destruct (middle_left_ok F s l1 l2 x p b so eo remainder pos Hf Hp Hsp Hpos Hrem v) as
    (s1 & p1 & v' & A' & H2 & Ho1 & Hf1 & HcA & HoA & HtA & Hav & Hma & Hvv'); [| done |].
  { intros Hch Hin. apply (Hcr Hch). rewrite text_app, text_cons. set_solver. }
  assert (v' <> []) as Hv2 by (by destruct Hvv' as [-> | ->]).
  assert (zlen v' <= zlen value + 2) as Hzv
    by (destruct Hvv as [-> | ->], Hvv' as [-> | ->]; autorewrite with s2len; lia).
  pose proof (only_tr_buffers _ _ Ho1) as Hb1. pose proof (only_tr_last _ _ Ho1) as Hlc1.
  destruct (createNewPieces_ok s1 v' Hv2) as (ps & s2 & H3 & Hnp); [apply Hf1 | rewrite Hb1; lia |].
  pose proof (kept_fits _ _ _ _ _ _ Hf1 Hnp) as Hf2.
  destruct Hnp as (Hk2 & _ & _ & Hg2 & Hht & Hbl2 & _ & Htips). rewrite Hb1 in *. rewrite Hlc1 in *.
  destruct Hht as (Hne & Hpsok & HpsL).
  assert (forall N : seq, snd <$> N = ps -> (tips (_lastChangeBufferPos s2) (l1 ++ (x, p1) :: (SENTINEL, R') :: l2) +
    tips (_lastChangeBufferPos s2) N <= 1)%nat) as Htips2.
  { intros N HN. apply Htips; [| done |].
    - pose proof (fits_spans Hf1) as HF. rewrite Hb1 in HF. apply Forall_app in HF as [HF1 [HF0 HF2]%Forall_cons].
      apply Forall_app. split; [done |]. constructor; [done |]. by constructor.
    - pose proof (fits_tips Hf) as H0. rewrite !tips_app in *. cbn in *. rewrite HtA, HtR. lia. }
  specialize (Htips2 ((fun p => (SENTINEL, p)) <$> ps)) as Ht0. rewrite <- list_fmap_compose in Ht0.
  unfold compose in Ht0. rewrite list_fmap_id in Ht0. specialize (Ht0 eq_refl). rewrite tips_app in Ht0. cbn in Ht0.
  destruct (grows_keeps_one _ _ R' Hg2 HsR) as [CR2 _].
  destruct (insertRest_ok F s2 l1 x p1 l2 R' B' Hf2) as (z & s3 & H4 & Ho3 & Hf3).
  { destruct HsR as (b1 & so1 & eo1 & HsR). destruct (Hg2 _ _ _ _ HsR) as (b1' & HsR' & _). eauto. }
  { congruence. }
  { rewrite tips_app. cbn. lia. }
  pose proof (only_tr_buffers _ _ Ho3) as Hb3. pose proof (only_tr_last _ _ Ho3) as Hlc3.
  destruct (insertAllRight_ok ps F s3 l1 x p1 (unless_empty B' z R' ++ l2) Hf3) as (y & s4 & N & H5 & Ho4 & HN & Hf4).
  { by rewrite Hb3. }
  { intros N HN. specialize (Htips2 N HN). rewrite Hlc3, tips_app. cbn [tips]. rewrite tips_app.
    rewrite tips_app in Htips2. cbn [tips] in Htips2. pose proof (tips_unless (_lastChangeBufferPos s2) B' z R'). lia. }
  destruct (deleteIfEmpty F s4 l1 x p1 (N ++ unless_empty B' z R' ++ l2) A' Hf4) as (F' & s5 & H6 & Ho5 & Hf5 & Hst).
  assert (only_tr s2 s5) as Ho25 by (eapply only_tr_trans; [exact Ho3 |]; eapply only_tr_trans; [exact Ho4 | exact Ho5]).
  pose proof (only_tr_buffers _ _ Ho25) as Hb5.
  assert (kept s s5) as Hk by (eapply kept_only_tr; [| exact Ho25]; by eapply only_tr_kept_trans).
  destruct (HpsL N HN) as [HtN HsN].
  destruct (Hma (text (_buffers s) l1) Hm1) as [Hma1 Hma2]. destruct (Hmb (text (_buffers s) l2) Hm2) as [Hmb1 Hmb2].
  destruct (middle_docs (_buffers s) (_buffers s2) l1 l2 x p1 N z R' A' v' B') as (D1 & D2 & D3); try done.
  { pose proof (fits_spans Hf1) as HF. rewrite Hb1 in HF. by apply Forall_app in HF as [_ [HF0 _]%Forall_cons]. }
  { rewrite <- HN, Forall_fmap in Hpsok. done. }
  { destruct Hvv' as [-> | ->]; [done |]. change (CarriageReturn :: v) with ([CarriageReturn] ++ v). by apply seam_left. }
  exists F', s5, (l1 ++ unless_empty A' x p1 ++ N ++ unless_empty B' z R' ++ l2). split; [| split; [| done]].
  - unfold insertMiddle. erewrite pbind_run by (apply bufs_run; exact Hlfc).
    erewrite pbind_run by (apply bufs_run; eapply offsetInBuffer_ok; apply Hsp).
    erewrite pbind_run by (apply bufs_run; eapply offsetInBuffer_ok; [apply Hsp | exact Hpos]). fold R. cbn zeta.
    erewrite pbind_run by apply shouldCheckCRLF_run. erewrite pbind_run by exact H1. cbn beta iota.
    erewrite pbind_run by exact H2. cbn beta iota. erewrite pbind_run by exact H3. erewrite pbind_run by exact H4.
    by erewrite pbind_run by exact H5.
  - assert (A' ++ v' ++ B' ++ text (_buffers s) l2 = Aa ++ value ++ Bb ++ text (_buffers s) l2) as Htext.
    { rewrite (app_assoc A'), Hav, <- app_assoc. f_equal. rewrite (app_assoc v), Hvb, <- app_assoc. done. }
    constructor; [done | | by rewrite Hb5, D3, Htext | rewrite Hb5; lia].
    constructor; [done | by rewrite Hb5 | by rewrite Hb5 |]. rewrite Hb5, D3, Htext, (checks_kept _ _ Hk). intros Hch.
    specialize (Hcr Hch). specialize (Hcrv Hch). rewrite text_app, text_cons, Hab in Hcr. set_solver.
Qed.
