(* ===== verification/PieceTreeDocument.v ===== *)
(** * The piece table as a document

    When a state of [PieceTreeBase] stands for a text, and the theorem that
    [insert] splices a text into it: the tree, the buffers, the counts of units
    and lines and the search cache all stay right. *)

From stdpp Require Import gmap.
From S2P Require Import Prelude RBTree RBTreeRep RBTreeOps RBTreeInsert RBTreeDelete RBTreeRemove.
From S2P Require Import PieceBuffers PieceTree PieceTreeEdit PieceTreeNodes PieceTreeRead PieceTreeList PieceTreeText.
From S2P Require Import PieceTreePieces PieceTreeChange PieceTreeSeal PieceTreeInsert.

(** ** The search cache *)

(** The entry knows where its node starts. *)
Definition entry_ok (L : seq) (e : CacheEntry) : Prop :=
  exists l1 p l2, L = l1 ++ (ce_node e, p) :: l2 /\ ce_nodeStartOffset e = nsize l1.

(** While an edit runs, the node of an entry may also have left the tree. *)
Definition entry_known (F : gmap ref TreeNode.t) (L : seq) (e : CacheEntry) : Prop :=
  entry_ok L e \/ (detached_in F (ce_node e) /\ ce_node e ∉ fst <$> L).

Lemma entry_starts_at t e :
  entry_ok (nodes t) e <-> exists p, starts_at t (ce_node e) p (ce_nodeStartOffset e).
Proof.
  split.
  - intros (l1 & p & l2 & H1 & H2). exists p, l1, l2. done.
  - intros (p & l1 & l2 & H1 & H2). exists l1, p, l2. done.
Qed.

Lemma holds_node F s L x : holds F s L -> x ∈ fst <$> L -> exists n, node_of x s = Ret (n, s).
Proof.
  intros (t & (Hr & _) & <-) Hx. rewrite fmap_nodes in Hx.
  destruct (focus t x Hx) as (c & d & l & r & -> & <-). eexists. apply rbt_run, get_run. by eapply reps_node.
Qed.

Lemma holds_detached F s L x :
  holds F s L -> detached_in F x -> x ∉ fst <$> L -> x <> SENTINEL ->
  exists n, node_of x s = Ret (n, s) /\ TreeNode.parent n = NULL.
Proof.
  intros (t & (Hr & _) & <-) (n & Hn & Hp) Hx Hs. exists n. split; [| done]. apply rbt_run, get_run.
  rewrite (reps_frame _ _ Hr); [done |]. rewrite <- fmap_nodes. set_solver.
Qed.

(** Dropping the entries of removed nodes and those from an offset on. *)
Lemma validate_loop F s L offset es :
  holds F s L -> Forall (fun e => entry_known F L e /\ ce_node e <> SENTINEL) es ->
  exists es', cacheValidate_loop offset es s = Ret (es', s) /\
    Forall (fun e => entry_ok L e /\ ce_nodeStartOffset e < offset) es' /\ zlen es' <= zlen es /\ es' ⊆ es.
Proof.
  intros Hh. induction 1 as [| e es [He Hne] Hes (es' & IHr & IH & IHl & IHs)]; cbn [cacheValidate_loop].
  - by exists [].
  - destruct He as [He | [Hd Hn]].
    + destruct (holds_node F s L (ce_node e) Hh) as [n Hnode].
      { destruct He as (l1 & p & l2 & -> & _). rewrite fmap_app, fmap_cons. set_solver. }
      erewrite pbind_run by exact Hnode. erewrite pbind_run by exact IHr. rewrite zlen_cons.
      destruct (_ || _) eqn:E1; [exists es'; split_and!; [done | done | lia | set_solver] |].
      apply orb_false_iff in E1 as [_ E1%Z.leb_gt]. exists (e :: es'). rewrite zlen_cons.
      split; [done |]. split; [by constructor |]. split; [lia | set_solver].
    + destruct (holds_detached F s L (ce_node e) Hh Hd Hn Hne) as (n & Hnode & Hp).
      erewrite pbind_run by exact Hnode. erewrite pbind_run by exact IHr. rewrite Hp, same_eq. cbn [orb].
      exists es'. rewrite zlen_cons. split_and!; [done | done | lia | set_solver].
Qed.

Lemma cacheValidate_ok F s L offset :
  holds F s L -> Forall (fun e => entry_known F L e /\ ce_node e <> SENTINEL) (_cache s) ->
  exists es', cacheValidate offset s = Ret (tt, set_cache es' s) /\
    Forall (fun e => entry_ok L e /\ ce_nodeStartOffset e < offset) es' /\ zlen es' <= zlen (_cache s) /\ es' ⊆ _cache s.
Proof.
  intros Hh He. destruct (validate_loop F s L offset _ Hh He) as (es' & H1 & H2 & H3).
  exists es'. split; [| done]. unfold cacheValidate. erewrite pbind_run by done. by erewrite pbind_run by exact H1.
Qed.

(** ** Counting *)

Lemma tlf_nodes t : tlf t = zsum (Piece.lineFeedCnt ∘ snd <$> nodes t).
Proof.
  induction t as [| d l IHl r IHr]; [done |]. cbn [tlf nodes].
  rewrite fmap_app, zsum_app, fmap_cons, zsum_cons, IHl, IHr. unfold compose; cbn [snd]. lia.
Qed.

Lemma docs_ext F s s' L :
  tr s' = tr s -> _buffers s' = _buffers s -> _lastChangeBufferPos s' = _lastChangeBufferPos s ->
  (checks s' = false -> checks s = false) -> docs F s L -> docs F s' L.
Proof.
  intros Ht Hb Hl Hc [[Hh Hbo Hs Htp] Hp Hse Hcr]. constructor; rewrite ?Hb; [constructor; rewrite ?Hb, ?Hl | | |]; try done.
  - destruct Hh as (t & Hv & Hn). exists t. by rewrite Ht.
  - auto.
Qed.

Lemma computeBufferMetadata_ok F s L :
  docs F s L -> Forall (fun e => entry_known F L e /\ ce_node e <> SENTINEL) (_cache s) ->
  exists es, computeBufferMetadata s
      = Ret (tt, set_cache es (set_counts (1 + breaks (text (_buffers s) L)) (zlen (text (_buffers s) L)) s)) /\
    Forall (entry_ok L) es /\ zlen es <= zlen (_cache s) /\ es ⊆ _cache s.
Proof.
  intros [Hf Hp Hs _] Hc. pose proof (fits_holds Hf) as Hh. pose proof Hh as (t & (Hr & Hm & Hb) & Hn).
  pose proof (reps_size _ _ Hr) as Hsz.
  assert (this_root s = Ret (rid t, s)) as Hrun by (apply rbt_run; unfold get_root; by rewrite (reps_root _ _ Hr)).
  assert (pfuel s = Ret (S (S (size (heap (tr s)))), s)) as Hfuel by (apply rbt_run; reflexivity).
  unfold computeBufferMetadata. erewrite pbind_run by exact Hrun. erewrite pbind_run by exact Hfuel.
  erewrite pbind_run by (eapply (computeBufferMetadata_descend s [] t); [exact Hr | done | lia]).
  erewrite pbind_run by done. cbn [fst snd].
  rewrite tlf_nodes, tsize_nodes, Hn, (text_size _ _ Hp), (breaks_text _ _ Hp Hs), !Z.add_0_l.
  destruct (cacheValidate_ok F (set_counts (1 + breaks (text (_buffers s) L)) (zlen (text (_buffers s) L)) s) L
    (zlen (text (_buffers s) L)) Hh Hc) as (es & H1 & H2 & H3).
  exists es. split; [exact H1 |]. split; [| exact H3]. eapply Forall_impl; [exact H2 |]. by intros e [? _].
Qed.

(** ** Documents *)

(** The state stands for the text [str]. *)
Definition is_doc (s : state) (str : jsstring) : Prop :=
  exists F L, docs F s L /\ text (_buffers s) L = str /\
    _length s = zlen str /\ _lineCnt s = 1 + breaks str /\
    _limit s = 1 /\ zlen (_cache s) <= 1 /\ Forall (entry_ok L) (_cache s).

Lemma entry_ne F s L e : holds F s L -> entry_ok L e -> ce_node e <> SENTINEL.
Proof. intros Hh (l1 & p & l2 & HL & _). apply (holds_ne _ _ _ p Hh). rewrite HL. set_solver. Qed.

Lemma entries_known F s L es :
  holds F s L -> Forall (entry_ok L) es -> Forall (fun e => entry_known F L e /\ ce_node e <> SENTINEL) es.
Proof.
  intros Hh He. eapply Forall_impl; [exact He |]. intros e H. split; [by left | by eapply entry_ne].
Qed.

Lemma empty_cache (es : list CacheEntry) : Forall (entry_ok []) es -> es = [].
Proof.
  intros He. destruct es as [| e es]; [done |]. apply Forall_cons in He as [(l1 & p & l2 & He & _) _]. by destruct l1.
Qed.

Lemma no_entries (es : list CacheEntry) : es ⊆ [] -> es = [].
Proof. destruct es as [| e es]; [done |]. intros H. assert (e ∈ e :: es) as He%H by left. by apply elem_of_nil in He. Qed.

(** [nodeAt] in a document: it leaves exactly the entry of the node it found. *)
Lemma nodeAt_doc F s L offset :
  docs F s L -> _limit s = 1 -> zlen (_cache s) <= 1 -> Forall (entry_ok L) (_cache s) -> L <> [] ->
  0 <= offset <= nsize L ->
  exists pos l1 p l2 ln, nodeAt offset s = Ret (Some pos, set_cache [mkEntry (np_node pos) (nsize l1) ln] s) /\
    (ln = None \/ mkEntry (np_node pos) (nsize l1) ln ∈ _cache s) /\
    L = l1 ++ (np_node pos, p) :: l2 /\ np_nodeStartOffset pos = nsize l1 /\
    nsize l1 + np_remainder pos = offset /\ 0 <= np_remainder pos <= Piece.length p.
Proof.
  intros Hd Hlim Hlen Hc Hne Ho. pose proof (fits_holds (doc_fits Hd)) as (t & (Hr & Hm & _) & HL). subst L.
  assert (cache_ok s t) as Hck.
  { eapply Forall_impl; [exact Hc |]. intros e He. by apply entry_starts_at. }
  destruct (nodeAt_ok s t offset Hr Hm Hck Hne Ho) as (pos & s' & H1 & (p & (l1 & l2 & Hn & Hs) & H3 & H4) & _ & _ & H5).
  exists pos, l1, p, l2. rewrite Hs in *. destruct H5 as [(e & He & E1 & E2 & ->) | Hset].
  - exists (ce_nodeStartLineNumber e). split_and!; try done; try lia; [| right; by destruct e; cbn in *; subst]. rewrite H1. do 2 f_equal.
    destruct (_cache s) as [| e0 [| e1 es]] eqn:Ec; [by apply elem_of_nil in He | |].
    + apply list_elem_of_singleton in He as <-. destruct s, e. cbn in *. by subst.
    + rewrite !zlen_cons in Hlen. pose proof (zlen_nonneg es). lia.
  - exists None. split_and!; try done; try lia; [| by left]. rewrite H1. unfold cacheSet in Hset.
    erewrite pbind_run in Hset by done. erewrite pbind_run in Hset by done. rewrite Hlim in Hset.
    injection Hset as <-. do 3 f_equal.
    destruct (_cache s) as [| e0 [| e1 es]]; [done | done |].
    rewrite !zlen_cons in Hlen. pose proof (zlen_nonneg es). lia.
Qed.

(** What an edit leaves of the rest of the state: the line end, whether all line
    ends are normalized, at most [n] more units in the change buffer, no new entry in
    the cache, and the last visited line. *)
Record after (s s' : state) (normalized : bool) (n : Z) : Prop := mkafter {
  af_eol : _EOL s' = _EOL s;
  af_normalized : _EOLNormalized s' = normalized;
  af_blen : blen (_buffers s') <= blen (_buffers s) + n;
  af_eolLength : _EOLLength s' = _EOLLength s;
  af_cache : _cache s' ⊆ _cache s;
  af_visited : _lastVisitedLine s' = _lastVisitedLine s
}.

(** Finishing an edit: the counts are set and the cache is cleaned. *)
Lemma finish_edit F s s' L str n :
  kept s s' -> docs F s' L -> text (_buffers s') L = str -> blen (_buffers s') <= blen (_buffers s) + n ->
  _limit s = 1 -> zlen (_cache s) <= 1 ->
  Forall (fun e => entry_known F L e /\ ce_node e <> SENTINEL) (_cache s) ->
  exists s2, computeBufferMetadata s' = Ret (tt, s2) /\ is_doc s2 str /\ after s s2 (_EOLNormalized s) n.
Proof.
  intros Hk Hd Ht Hbl Hlim Hlen Hc. rewrite <- (kept_cache _ _ Hk) in Hc, Hlen.
  destruct (computeBufferMetadata_ok F s' L Hd Hc) as (es & H1 & H2 & H3 & H4). rewrite (kept_cache _ _ Hk) in H4.
  eexists. split; [exact H1 |]. split; [| constructor; cbn; [by rewrite Hk | by rewrite Hk | done | by rewrite Hk | done | by rewrite Hk]].
  exists F, L. rewrite Ht. split.
  { eapply docs_ext; [.. | exact Hd]; done. }
  cbn. split_and!; try done; [by rewrite Hk | lia].
Qed.

(** When the one entry of the cache is that of the node the edit started from. *)
Lemma finish_spliced F s s' L str n l0 x ln :
  spliced F s s' L str n -> stays F l0 x L -> _limit s = 1 -> _cache s = [mkEntry x (nsize l0) ln] -> x <> SENTINEL ->
  exists s2, computeBufferMetadata s' = Ret (tt, s2) /\ is_doc s2 str /\ after s s2 (_EOLNormalized s) n.
Proof.
  intros [Sk Sd St Sb] Hst Hlim Hc Hx. eapply finish_edit; try done; rewrite Hc; [done |].
  apply Forall_singleton. split; [| done]. destruct Hst as [(q & r & ->) | H]; [left; by exists l0, q, r | by right].
Qed.

(** Dropping the one entry of the cache, whose node starts at the offset or after it. *)
Lemma cacheValidate_drop F s L x o ln offset :
  holds F s L -> _cache s = [mkEntry x o ln] -> x ∈ fst <$> L \/ detached_in F x -> x <> SENTINEL -> offset <= o ->
  cacheValidate offset s = Ret (tt, set_cache [] s).
Proof.
  intros Hh Hc Hin Hx Ho.
  assert (exists n, node_of x s = Ret (n, s)) as [n Hn].
  { destruct (decide (x ∈ fst <$> L)) as [Hi | Hi]; [by eapply holds_node |].
    destruct Hin as [? | Hdet]; [done |]. destruct (holds_detached F s L x Hh Hdet Hi Hx) as (n & Hn & _). eauto. }
  unfold cacheValidate. erewrite pbind_run by done. rewrite Hc.
  erewrite pbind_run; [reflexivity |]. cbn [cacheValidate_loop ce_node].
  erewrite pbind_run by exact Hn. erewrite pbind_run by done. cbn [ce_nodeStartOffset].
  by rewrite (proj2 (Z.leb_le offset o) Ho), orb_true_r.
Qed.

(** An offset inside a document falls into one node. *)
Lemma split_text bs l1 x p l2 r :
  pieces_ok bs l1 -> piece_ok bs p -> 0 <= r <= Piece.length p ->
  ztake (nsize l1 + r) (text bs (l1 ++ (x, p) :: l2)) = text bs l1 ++ ztake r (contents bs p) /\
  zdrop (nsize l1 + r) (text bs (l1 ++ (x, p) :: l2)) = zdrop r (contents bs p) ++ text bs l2.
Proof.
  intros H1 Hp Hr. rewrite (text_size _ _ H1), text_app, text_cons. rewrite <- (piece_ok_zlen _ _ Hp) in Hr.
  pose proof (zlen_nonneg (text bs l1)).
  rewrite ztake_app_r, zdrop_app_r by lia. rewrite Z.add_simpl_l.
  rewrite ztake_app_l, zdrop_app_l by lia. done.
Qed.

Lemma cursor_eq (a b : BufferCursor.t) :
  (BufferCursor.line a === BufferCursor.line b) && (BufferCursor.column a === BufferCursor.column b) = true -> a = b.
Proof. destruct a, b. cbn. intros [?%Z.eqb_eq ?%Z.eqb_eq]%andb_true_iff. congruence. Qed.

Lemma spliced_le F s s' L str n m : spliced F s s' L str n -> n <= m -> spliced F s s' L str m.
Proof. intros [? ? ? ?] ?. constructor; try done. lia. Qed.

(** Inserting before a node: its cache entry goes. *)
Lemma insertBefore_ok F s l1 x p l2 ln value :
  docs F s (l1 ++ (x, p) :: l2) -> _limit s = 1 -> _cache s = [mkEntry x (nsize l1) ln] -> x <> SENTINEL ->
  value <> [] -> (checks s = false -> CarriageReturn ∉ value) -> blen (_buffers s) + zlen value + 5 < 2 ^ 31 - 1 ->
  exists s', ((insertContentToNodeLeft value x;; cacheValidate (nsize l1));; computeBufferMetadata) s = Ret (tt, s') /\
    is_doc s' (text (_buffers s) l1 ++ value ++ text (_buffers s) ((x, p) :: l2)) /\
    after s s' (_EOLNormalized s) (zlen value + 5).
Proof.
  intros Hd Hlim Hc Hx Hv Hcrv Hroom.
  destruct (insertContentToNodeLeft_ok F s l1 x p l2 value Hd) as (F' & s1 & L' & H1 & [Sk Sd St Sb] & Hin); try done.
  assert (_cache s1 = [mkEntry x (nsize l1) ln]) as Hc1 by (rewrite (kept_cache _ _ Sk); done).
  pose proof (cacheValidate_drop F' s1 L' x (nsize l1) ln (nsize l1) (fits_holds (doc_fits Sd)) Hc1 Hin Hx (Z.le_refl _)) as H2.
  destruct (finish_edit F' (set_cache [] s1) (set_cache [] s1) L'
    (text (_buffers s) l1 ++ value ++ text (_buffers s) ((x, p) :: l2)) 0)
    as (s2 & H3 & H4 & [A1 A2 A3 A4 A5 A6]); [apply kept_refl | by eapply docs_ext; [.. | exact Sd] | done | cbn; lia | cbn; by rewrite Sk | done | done |].
  exists s2. split; [| split; [exact H4 |]].
  - erewrite pbind_run; [exact H3 |]. by erewrite pbind_run by exact H1.
  - constructor; [rewrite A1; cbn; by rewrite Sk | rewrite A2; cbn; by rewrite Sk | cbn in A3; lia | rewrite A4; cbn; by rewrite Sk | |
      rewrite A6; cbn; by rewrite Sk]. cbn in A5. set_solver.
Qed.

(** The four cases of [insert] in a document with nodes. *)
Lemma insertAt_ok F s l1 x p l2 ln r value offset :
  docs F s (l1 ++ (x, p) :: l2) -> _limit s = 1 -> _cache s = [mkEntry x (nsize l1) ln] ->
  nsize l1 + r = offset -> 0 <= r <= Piece.length p -> value <> [] -> (checks s = false -> CarriageReturn ∉ value) ->
  blen (_buffers s) + zlen value + 5 < 2 ^ 31 - 1 ->
  exists s', (piece ← piece_of x;
    insertPosInBuffer ← bufs (fun bs => positionInBuffer bs piece r);
    last ← gets _lastChangeBufferPos;
    if (Piece.bufferIndex piece === 0)
       && (BufferCursor.line (Piece.end_ piece) === BufferCursor.line last)
       && (BufferCursor.column (Piece.end_ piece) === BufferCursor.column last)
       && (nsize l1 + Piece.length piece === offset)
       && (zlen value <? AverageBufferSize)
    then
      appendToNode x value;;
      computeBufferMetadata
    else
      (if nsize l1 === offset then
         insertContentToNodeLeft value x;;
         cacheValidate offset
       else if offset <? nsize l1 + Piece.length piece then
         insertMiddle x piece r insertPosInBuffer value
       else insertContentToNodeRight value x);;
      computeBufferMetadata) s = Ret (tt, s') /\
    is_doc s' (text (_buffers s) l1 ++ ztake r (contents (_buffers s) p) ++ value ++
               zdrop r (contents (_buffers s) p) ++ text (_buffers s) l2) /\
    after s s' (_EOLNormalized s) (zlen value + 5).
Proof.
  intros Hd Hlim Hc Hoff Hr Hv Hcrv Hroom. pose proof Hd as [Hf Hpk _ _].
  assert (x <> SENTINEL) as Hx by (apply (holds_ne _ _ _ p (fits_holds Hf)); set_solver).
  apply Forall_app in Hpk as [Hp1 [Hp Hp2]%Forall_cons]. cbn [snd] in Hp.
  pose proof (piece_ok_zlen _ _ Hp) as Hz. pose proof (piece_ok_length _ _ Hp) as Hlen.
  erewrite pbind_run by (eapply fits_piece_mid; exact Hf).
  pose proof Hp as (b & so & eo & Hsp & Hlt & _).
  destruct (positionInBuffer_ok (_buffers s) b p so eo r) as (pos & Hpos & Hcur & _);
    [apply Hsp | apply buffer_starts_ok, Hsp | apply Hsp | apply Hsp | rewrite (sp_length Hsp) in Hr; lia |].
  erewrite pbind_run by (apply bufs_run; exact Hpos). erewrite pbind_run by done.
  set (cond := _ && _ && _ && _ && _). destruct cond eqn:Hcond; subst cond.
  - apply andb_true_iff in Hcond as [[[[Hi Hl]%andb_true_iff Hcol]%andb_true_iff Hend%Z.eqb_eq]%andb_true_iff _].
    assert (Piece.end_ p = _lastChangeBufferPos s) as He by (apply cursor_eq; by rewrite Hl, Hcol).
    destruct (appendToNode_ok F s l1 x p l2 value Hd) as (F' & s1 & L' & H1 & Hs & Hst); try done; [| lia |].
    { unfold tip. by rewrite Hi, He, bool_decide_eq_true_2. }
    assert (r = Piece.length p) as -> by lia.
    rewrite <- Hz, ztake_all, zdrop_all by lia. apply (spliced_le _ _ _ _ _ _ (zlen value + 5)) in Hs; [| lia].
    destruct (finish_spliced _ _ _ _ _ _ _ _ _ Hs Hst Hlim Hc Hx) as (s2 & H2 & H3).
    exists s2. split; [by erewrite pbind_run by exact H1 |]. rewrite text_app, text_one, <- app_assoc in H3. done.
  - clear Hcond. destruct (Z.eqb_spec (nsize l1) offset) as [E0 | E0]; [| destruct (Z.ltb_spec offset (nsize l1 + Piece.length p)) as [Hin | Hout]].
    + assert (r = 0) as -> by lia. rewrite ztake_0, zdrop_0, <- E0. by apply (insertBefore_ok F s l1 x p l2 ln value).
    + destruct (insertMiddle_ok F s l1 x p l2 b so eo r pos value Hd Hsp Hcur) as (F' & s1 & L' & H1 & Hs & Hst);
        try done; [rewrite (sp_length Hsp) in *; lia |].
      apply (spliced_le _ _ _ _ _ _ (zlen value + 5)) in Hs; [| lia].
      destruct (finish_spliced _ _ _ _ _ _ _ _ _ Hs Hst Hlim Hc Hx) as (s2 & H2 & H3).
      exists s2. split; [by erewrite pbind_run by exact H1 | done].
    + assert (r = Piece.length p) as -> by lia. rewrite <- Hz, ztake_all, zdrop_all by lia.
      destruct (insertContentToNodeRight_ok F s l1 x p l2 value Hd) as (F' & s1 & L' & H1 & Hs & Hst); try done.
      destruct (finish_spliced _ _ _ _ _ _ _ _ _ Hs Hst Hlim Hc Hx) as (s2 & H2 & H3).
      exists s2. split; [by erewrite pbind_run by exact H1 |]. rewrite text_app, text_one, <- app_assoc in H3. done.
Qed.

(** Insertion into the empty document. *)
Lemma insertEmpty_ok F s value :
  docs F s [] -> _limit s = 1 -> _cache s = [] -> value <> [] -> (checks s = false -> CarriageReturn ∉ value) ->
  blen (_buffers s) + zlen value + 5 < 2 ^ 31 - 1 ->
  exists s', (pieces ← createNewPieces value;
    p0 ← nonnull (head pieces);
    node ← rbt (rbInsertLeft NULL p0);
    insertAllRight node (tail pieces);;
    computeBufferMetadata) s = Ret (tt, s') /\ is_doc s' value /\ after s s' (_EOLNormalized s) (zlen value + 5).
Proof.
  intros [Hf _ _ _] Hlim Hc Hv Hcrv Hroom.
  destruct (createNewPieces_ok s value Hv) as (ps & s1 & H1 & Hnp); [apply Hf | lia |].
  pose proof (kept_fits _ _ _ _ _ _ Hf Hnp) as Hf1. pose proof (newPieces_tips _ _ _ _ _ _ Hf Hnp) as Htips.
  destruct Hnp as (Hk1 & _ & _ & _ & (Hne & Hpsok & HpsL) & Hbl & _ & _).
  destruct ps as [| p0 ps]; [done |]. pose proof Hpsok as [Hp0 Hps]%Forall_cons.
  destruct (holds_insertFirst F s1 NULL p0 (fits_holds Hf1)) as (z & s2 & H2 & _ & Ho2 & Hh2).
  pose proof (only_tr_buffers _ _ Ho2) as Hb2. pose proof (only_tr_last _ _ Ho2) as Hl2.
  assert (forall N : seq, snd <$> N = ps -> (tips (_lastChangeBufferPos s1) ([(z, p0)] ++ N) <= 1)%nat) as Ht.
  { intros N HN. apply (Htips ((z, p0) :: N)). by rewrite fmap_cons, HN. }
  pose proof (Ht ((fun p => (SENTINEL, p)) <$> ps)) as Ht0. rewrite <- list_fmap_compose in Ht0.
  unfold compose in Ht0. rewrite list_fmap_id in Ht0. specialize (Ht0 eq_refl). rewrite tips_app in Ht0.
  assert (fits F s2 [(z, p0)]) as Hf2.
  { constructor; rewrite ?Hb2, ?Hl2; [done | apply Hf1 | | lia]. apply Forall_singleton. by apply piece_ok_spans. }
  destruct (insertAllRight_ok ps F s2 [] z p0 [] Hf2) as (y & s3 & N & H3 & Ho3 & HN & Hf3).
  { by rewrite Hb2. }
  { intros N HN. rewrite Hl2. specialize (Ht N HN). by rewrite tips_app in Ht. }
  cbn [app] in Hf3. rewrite app_nil_r in Hf3. destruct (HpsL ((z, p0) :: N)) as [HtN HsN]; [by rewrite fmap_cons, HN |].
  pose proof (only_tr_buffers _ _ Ho3) as Hb3. rewrite Hb2 in Hb3.
  assert (kept s s3) as Hk by (eapply kept_only_tr; [exact Hk1 |]; by eapply only_tr_trans).
  assert (docs F s3 ((z, p0) :: N)) as Hd.
  { constructor; rewrite ?Hb3; [done | | done | by rewrite HtN, (checks_kept _ _ Hk)].
    rewrite <- HN in Hpsok. change (p0 :: (snd <$> N)) with (snd <$> (z, p0) :: N) in Hpsok. by rewrite Forall_fmap in Hpsok. }
  destruct (finish_edit F s s3 ((z, p0) :: N) value (zlen value + 5) Hk Hd) as (s4 & H4 & H5);
    [by rewrite Hb3 | rewrite Hb3; lia | done | by rewrite Hc | by rewrite Hc |].
  exists s4. split; [| done]. erewrite pbind_run by exact H1. erewrite pbind_run by done.
  erewrite pbind_run by exact H2. cbn [tail]. by erewrite pbind_run by exact H3.
Qed.

(** What an edit from the text [str] to the text [str'] leaves of the rest of the
    state: an entry that stays in the cache with a line number starts where the text
    is still the old one. *)
Record edited (s s' : state) (str str' : jsstring) (normalized : bool) (n : Z) : Prop := mkedited {
  ed_eol : _EOL s' = _EOL s;
  ed_normalized : _EOLNormalized s' = normalized;
  ed_blen : blen (_buffers s') <= blen (_buffers s) + n;
  ed_eolLength : _EOLLength s' = _EOLLength s;
  ed_cache : forall e, e ∈ _cache s' -> ce_nodeStartLineNumber e = None \/
    (e ∈ _cache s /\ ztake (ce_nodeStartOffset e) str' = ztake (ce_nodeStartOffset e) str);
  ed_visited : _lastVisitedLine s' = (0, [])
}.

(** The text up to an offset is what an edit behind it leaves. *)
Lemma ztake_edit (str rest : jsstring) o offset :
  o <= offset <= zlen str -> ztake o (ztake offset str ++ rest) = ztake o str.
Proof.
  intros Ho. destruct (decide (o <= 0)) as [H0 | H0]; [unfold ztake; by replace (Z.to_nat o) with 0%nat by lia |].
  rewrite ztake_app_l by (rewrite zlen_ztake; lia). unfold ztake. rewrite take_take. f_equal. lia.
Qed.

Lemma after_edited s s1 s' str str' o x ln normalized n :
  after s1 s' normalized n -> _EOL s1 = _EOL s -> _EOLLength s1 = _EOLLength s -> blen (_buffers s1) = blen (_buffers s) ->
  _cache s1 = [mkEntry x o ln] -> ln = None \/ mkEntry x o ln ∈ _cache s -> _lastVisitedLine s1 = (0, []) ->
  ztake o str' = ztake o str -> edited s s' str str' normalized n.
Proof.
  intros [A1 A2 A3 A4 A5 A6] E1 E2 E3 Hc Hln Hv Ht. constructor; [congruence | done | lia | congruence | | congruence].
  intros e He%A5. rewrite Hc in He. apply list_elem_of_singleton in He as ->. cbn.
  destruct Hln as [-> | Hin]; [by left | by right].
Qed.

(** What the caller of [insert] guarantees about the text: it is not empty, the
    change buffer stays below 2^31 units, and if it says that its line ends are
    normalized (and the document's are, to LF), it has no CR. *)
Record insertable (s : state) (value : jsstring) (eolNormalized : bool) : Prop := mkinsertable {
  ins_ne : value <> [];
  ins_room : blen (_buffers s) + zlen value + 5 < 2 ^ 31 - 1;
  ins_eol : _EOLNormalized s && eolNormalized = true -> _EOL s = [LineFeed] -> CarriageReturn ∉ value
}.

Lemma insert_ok s str offset value eolNormalized :
  is_doc s str -> 0 <= offset <= zlen str -> insertable s value eolNormalized ->
  exists s', insert offset value eolNormalized s = Ret (tt, s') /\
    is_doc s' (ztake offset str ++ value ++ zdrop offset str) /\
    edited s s' str (ztake offset str ++ value ++ zdrop offset str) (_EOLNormalized s && eolNormalized) (zlen value + 5).
Proof.
  intros (F & L & Hd & Ht & _ & _ & Hlim & Hcl & Hc) Ho [Hv Hroom Heol]. unfold insert.
  erewrite pbind_run by done. erewrite pbind_run by done. erewrite pbind_run by done.
  set (s0 := set_lastVisited _ _).
  assert (checks s0 = false -> checks s = false) as Hch.
  { unfold checks, s0. cbn. intros H%negb_false_iff. apply andb_true_iff in H as [[-> _]%andb_true_iff ->]. done. }
  assert (docs F s0 L) as Hd0 by (by eapply docs_ext; [.. | exact Hd]).
  assert (checks s0 = false -> CarriageReturn ∉ value) as Hcrv.
  { unfold checks, s0. cbn. intros [H1 H2%bool_decide_eq_true]%negb_false_iff%andb_true_iff. by apply Heol. }
  destruct (holds_root s0 L (fits_holds (doc_fits Hd0))) as (r & Hr & Hrs).
  erewrite pbind_run by exact Hr. rewrite Hrs.
  pose proof (text_size _ _ (doc_pieces Hd)) as Hsz. rewrite Ht in Hsz.
  case_bool_decide as HL; cbn [negb].
  - rewrite HL in *. destruct (insertEmpty_ok F s0 value Hd0) as (s' & H1 & H2 & H3); try done.
    { cbn. apply (empty_cache _ Hc). }
    exists s'. split; [exact H1 |]. rewrite text_nil in Ht. subst str. change (zlen []) with 0 in Ho.
    assert (offset = 0) as -> by lia. cbn. rewrite app_nil_r.
    split; [done |]. destruct H3 as [A1 A2 A3 A4 A5 A6]. constructor; try done. cbn in A5. rewrite (empty_cache _ Hc) in A5.
    intros e He%A5. by apply elem_of_nil in He.
  - destruct (nodeAt_doc F s0 L offset Hd0) as (pos & l1 & p & l2 & ln & H1 & Hln & HL2 & H3 & H4 & H5); try done; [lia |].
    rewrite HL2 in *. erewrite pbind_run by exact H1. erewrite pbind_run by done. rewrite H3.
    set (s1 := set_cache _ s0). assert (docs F s1 (l1 ++ (np_node pos, p) :: l2)) as Hd1 by (by eapply docs_ext; [.. | exact Hd0]).
    destruct (insertAt_ok F s1 l1 (np_node pos) p l2 ln (np_remainder pos) value offset Hd1) as (s' & G1 & G2 & G3); try done.
    exists s'. split; [exact G1 |]. pose proof (doc_pieces Hd) as [O1 [O2 _]%Forall_cons]%Forall_app.
    destruct (split_text (_buffers s) l1 (np_node pos) p l2 (np_remainder pos) O1 O2 H5) as [T1 T2].
    rewrite H4, Ht in T1, T2. split; [rewrite T1, T2, <- app_assoc; exact G2 |].
    eapply after_edited; [exact G3 | done | done | done | done | exact Hln | done |]. apply ztake_edit. lia.
Qed.
