(* ===== verification/PieceTreeErase.v ===== *)
(** * Deletion from the piece table

    [delete] of [PieceTreeBase]: inside one node (the whole node, its head, its
    tail or its middle) and across several nodes.  Each removes the given units
    from the document and seals the border where a CR and a LF may have met. *)

From stdpp Require Import gmap.
From S2P Require Import Prelude RBTree RBTreeRep RBTreeOps RBTreeInsert RBTreeDelete RBTreeRemove.
From S2P Require Import PieceBuffers PieceTree PieceTreeEdit PieceTreeNodes PieceTreeRead PieceTreeList PieceTreeText.
From S2P Require Import PieceTreePieces PieceTreeChange PieceTreeSeal PieceTreeInsert PieceTreeDocument.

(** ** Parts of a sealed sequence *)

Lemma sealed_suffix bs x p p' l a :
  contents bs p = a ++ contents bs p' -> sealed bs ((x, p) :: l) -> sealed bs ((x, p') :: l).
Proof.
  intros Hc [Hs Hm]%sealed_cons. apply sealed_cons. split; [done |]. rewrite Hc in Hm. by apply seam_of_app_l in Hm.
Qed.

Lemma sealed_prefix bs l x p p' a :
  contents bs p = contents bs p' ++ a -> sealed bs (l ++ [(x, p)]) -> sealed bs (l ++ [(x, p')]).
Proof.
  intros Hc (Hs & _ & Hm)%sealed_app. apply sealed_app. rewrite text_one in *.
  split_and!; [done | apply sealed_one |]. rewrite Hc in Hm. by apply seam_of_app_r in Hm.
Qed.

Lemma sealed_mid bs l1 n l2 : sealed bs (l1 ++ n :: l2) -> sealed bs (l1 ++ [n]) /\ sealed bs (n :: l2).
Proof.
  intros Hs. split; [| by apply sealed_app in Hs as (_ & ? & _)].
  replace (l1 ++ n :: l2) with ((l1 ++ [n]) ++ l2) in Hs by (by rewrite <- app_assoc).
  by apply sealed_app in Hs as (? & _).
Qed.

Lemma sealed_ends bs l1 x p l2 : sealed bs (l1 ++ (x, p) :: l2) -> sealed bs l1 /\ sealed bs l2.
Proof. intros (H1 & [H2 _]%sealed_cons & _)%sealed_app. done. Qed.

Lemma elem_of_zdrop {A} n (l : list A) u : u ∈ zdrop n l -> u ∈ l.
Proof. intros H. rewrite <- (ztake_zdrop n l). set_solver. Qed.

Lemma elem_of_ztake {A} n (l : list A) u : u ∈ ztake n l -> u ∈ l.
Proof. intros H. rewrite <- (ztake_zdrop n l). set_solver. Qed.

#[export] Hint Resolve elem_of_zdrop elem_of_ztake : piece.

(** ** Sealing after the nodes have changed *)

(** The nodes [l1] and [l2] around the removed text are sealed: the edit is done. *)
Lemma seal_docs F s s1 l1 l2 m :
  only_tr s s1 -> sealing l1 l2 m -> fits F s1 (l1 ++ l2) -> pieces_ok (_buffers s) l1 -> pieces_ok (_buffers s) l2 ->
  sealed (_buffers s) l1 -> sealed (_buffers s) l2 ->
  (checks s = false -> CarriageReturn ∉ text (_buffers s) l1 ++ text (_buffers s) l2) ->
  blen (_buffers s) + 3 < 2 ^ 31 - 1 ->
  exists F' s' L', m s1 = Ret (tt, s') /\
    spliced F' s s' L' (text (_buffers s) l1 ++ text (_buffers s) l2) 3 /\
    (forall l0 y q, l1 = l0 ++ [(y, q)] -> stays F' l0 y L') /\
    (forall i, i ∉ fst <$> (l1 ++ l2) -> F' !! i = F !! i) /\
    (forall i, i ∈ fst <$> L' -> i ∈ fst <$> (l1 ++ l2) \/ F !! i = None).
Proof.
  intros Ho Hm Hf H1 H2 S1 S2 Hcr Hroom. rewrite <- (only_tr_buffers _ _ Ho) in *.
  rewrite <- (checks_kept _ _ (only_tr_kept _ _ Ho)) in Hcr.
  destruct (seal_ok F s1 l1 l2 [] m Hm) as (F' & s' & L' & Hrun & [Ek Ef Eg Ep Es Et Eb] & Hst & Hout & Hfr); try done.
  { by rewrite app_nil_r. }
  { intros Hch Hin. apply (Hcr Hch). set_solver. }
  rewrite app_nil_r in Ef. setoid_rewrite app_nil_r in Hst.
  exists F', s', L'. split; [done |]. split; [| done]. constructor; [by eapply only_tr_kept_trans | | done |].
  - constructor; [done | done | done |]. rewrite Et, (checks_kept _ _ Ek). done.
  - by rewrite <- (only_tr_buffers _ _ Ho).
Qed.

(** ** Inside one node *)

Section One_node.
Context (F : gmap ref TreeNode.t) (s : state) (l1 : seq) (x : ref) (p : Piece.t) (l2 : seq) (ln : option Z).
Hypothesis Hd : docs F s (l1 ++ (x, p) :: l2).
Hypothesis Hlim : _limit s = 1.
Hypothesis Hcache : _cache s = [mkEntry x (nsize l1) ln].
Hypothesis Hroom : blen (_buffers s) + 3 < 2 ^ 31 - 1.
Notation bs := (_buffers s).
Notation done_with s' str := (is_doc s' str /\ after s s' (_EOLNormalized s) 3).

Local Lemma node_ne : x <> SENTINEL.
Proof. apply (holds_ne _ _ _ p (fits_holds (doc_fits Hd))). set_solver. Qed.

Local Lemma nodes_ok : pieces_ok bs l1 /\ piece_ok bs p /\ pieces_ok bs l2.
Proof. pose proof (doc_pieces Hd) as [H1 [H2 H3]%Forall_cons]%Forall_app. done. Qed.

(** no CR appears where there was none *)
Local Lemma part_nocr a c :
  (forall u, u ∈ a ++ c -> u ∈ contents bs p) -> checks s = false ->
  CarriageReturn ∉ (text bs l1 ++ a) ++ c ++ text bs l2.
Proof.
  intros Hsub Hch Hin. apply (doc_nocr Hd Hch). rewrite text_app, text_cons.
  assert (CarriageReturn ∈ text bs l1 \/ CarriageReturn ∈ a ++ c \/ CarriageReturn ∈ text bs l2) as [H | [H | H]]
    by set_solver; [set_solver | | set_solver]. apply Hsub in H. set_solver.
Qed.

Lemma deleteWhole_ok :
  exists s', (next' ← rbt (next x); rbt (rbDelete x);; validateCRLFWithPrevNode next';; computeBufferMetadata) s
      = Ret (tt, s') /\ done_with s' (text bs l1 ++ text bs l2).
Proof.
  destruct nodes_ok as (P1 & Pp & P2). destruct (sealed_ends _ _ _ _ _ (doc_sealed Hd)) as [S1 S2].
  erewrite pbind_run by (eapply holds_next; apply (doc_fits Hd)).
  destruct (fits_delete _ _ _ _ _ _ (doc_fits Hd)) as (s1 & zn & H1 & Ho & Hf1 & Hx). erewrite pbind_run by exact H1.
  destruct (seal_docs _ s s1 l1 l2 _ Ho (or_introl eq_refl) Hf1) as (F' & s2 & L' & H2 & Hs & _ & Hout & Hfr); try done.
  { intros Hch. pose proof (part_nocr [] [] ltac:(set_solver) Hch) as H. by rewrite app_nil_r in H. }
  erewrite pbind_run by exact H2. eapply finish_spliced; [exact Hs | | done | exact Hcache | apply node_ne].
  right. split.
  - exists (detached zn). rewrite Hout by done. by rewrite lookup_insert_eq.
  - intros [Hi | Hi]%Hfr; [done |]. by rewrite lookup_insert_eq in Hi.
Qed.

Context (b : StringBuffer.t) (so eo : Z).
Hypothesis Hsp : spans bs p b so eo.

Lemma deleteFront_ok r pos :
  cursor_ok b pos (so + r) -> 0 <= r -> so + r < eo ->
  exists s', (deleteNodeHead x pos;; cacheValidate (nsize l1);; validateCRLFWithPrevNode x;; computeBufferMetadata) s
      = Ret (tt, s') /\ done_with s' (text bs l1 ++ zdrop r (contents bs p) ++ text bs l2).
Proof.
  intros Hpos Hr Hlt. destruct nodes_ok as (P1 & Pp & P2).
  destruct (sealed_mid _ _ _ _ (doc_sealed Hd)) as [_ S2]. destruct (sealed_ends _ _ _ _ _ (doc_sealed Hd)) as [S1 _].
  destruct (deleteNodeHead_ok F s l1 x p l2 b so eo pos (so + r) (doc_fits Hd) Hsp Hpos) as (s1 & p' & H1 & Ho & Hf1 & _ & Hc & Hok); [lia |].
  rewrite Z.add_simpl_l in Hc. specialize (Hok Hlt).
  erewrite pbind_run by exact H1.
  assert (cacheValidate (nsize l1) s1 = Ret (tt, set_cache [] s1)) as H2.
  { eapply cacheValidate_drop; [apply Hf1 | | left | apply node_ne | apply Z.le_refl].
    - rewrite (kept_cache _ _ (only_tr_kept _ _ Ho)). exact Hcache.
    - rewrite fmap_app, fmap_cons. set_solver. }
  erewrite pbind_run by exact H2.
  assert (only_tr (set_cache [] s) (set_cache [] s1)) as Ho' by (rewrite Ho; done).
  assert (fits F (set_cache [] s1) (l1 ++ (x, p') :: l2)) as Hf1'.
  { destruct Hf1. by constructor. }
  destruct (seal_docs F (set_cache [] s) (set_cache [] s1) l1 ((x, p') :: l2) (validateCRLFWithPrevNode x) Ho')
    as (F' & s2 & L' & H3 & [Sk Sd St Sb] & _); try done; [by left | by constructor | | |].
  { eapply sealed_suffix; [| exact S2]. cbn [_buffers set_cache]. rewrite Hc. symmetry. apply ztake_zdrop. }
  { cbn [_buffers set_cache]. rewrite text_cons, Hc. intros Hch.
    pose proof (part_nocr [] (zdrop r (contents bs p))) as H. rewrite app_nil_r in H. apply H; [| done].
    intros u. cbn. eauto with piece. }
  erewrite pbind_run by exact H3. cbn [_buffers set_cache] in St. rewrite text_cons, Hc in St.
  destruct (finish_edit F' (set_cache [] s) s2 L' _ 3 Sk Sd St) as (s3 & H4 & H5 & [A1 A2 A3 A4 A5 A6]); try done.
  exists s3. split; [done |]. split; [done |]. constructor; try done. cbn in A5. set_solver.
Qed.

Lemma deleteBack_ok r pos :
  cursor_ok b pos (so + r) -> 0 < r -> so + r < eo ->
  exists s', (deleteNodeTail x pos;; validateCRLFWithNextNode x;; computeBufferMetadata) s
      = Ret (tt, s') /\ done_with s' (text bs l1 ++ ztake r (contents bs p) ++ text bs l2).
Proof.
  intros Hpos Hr Hlt. destruct nodes_ok as (P1 & Pp & P2).
  destruct (sealed_mid _ _ _ _ (doc_sealed Hd)) as [S1 _]. destruct (sealed_ends _ _ _ _ _ (doc_sealed Hd)) as [_ S2].
  destruct (deleteNodeTail_ok F s l1 x p l2 b so eo pos (so + r) (doc_fits Hd) Hsp Hpos) as (s1 & p' & H1 & Ho & Hf1 & _ & Hc & Hok & _); [lia |].
  rewrite Z.add_simpl_l in Hc. specialize (Hok ltac:(lia)). erewrite pbind_run by exact H1.
  apply fits_cons_app in Hf1.
  destruct (seal_docs F s s1 (l1 ++ [(x, p')]) l2 (validateCRLFWithNextNode x) Ho)
    as (F' & s2 & L' & H3 & Hs & Hst & _); try done.
  { right. rewrite fmap_app. cbn. by rewrite last_snoc. }
  { apply Forall_app. split; [done |]. by apply Forall_singleton. }
  { eapply sealed_prefix; [| exact S1]. rewrite Hc. symmetry. apply ztake_zdrop. }
  { rewrite text_app, text_one, Hc. intros Hch. apply (part_nocr (ztake r (contents bs p)) []); [| done].
    intros u. rewrite app_nil_r. eauto with piece. }
  erewrite pbind_run by exact H3. rewrite text_app, text_one, Hc, <- app_assoc in Hs.
  eapply finish_spliced; [exact Hs | by eapply Hst | done | exact Hcache | apply node_ne].
Qed.

(** The two pieces of [shrinkNode]. *)
Local Lemma cut_out r pos r' pos' :
  cursor_ok b pos (so + r) -> cursor_ok b pos' (so + r') -> 0 < r -> r < r' -> so + r' < eo ->
  let i := Piece.bufferIndex p in
  exists lf lf', getLineFeedCnt bs i (Piece.start p) pos = Ret lf /\ getLineFeedCnt bs i pos' (Piece.end_ p) = Ret lf' /\
    let A := Piece.mk i (Piece.start p) pos lf (so + r - so) in
    let B := Piece.mk i pos' (Piece.end_ p) lf' (eo - (so + r')) in
    piece_ok bs A /\ piece_ok bs B /\ contents bs A = ztake r (contents bs p) /\ contents bs B = zdrop r' (contents bs p) /\
    tip (_lastChangeBufferPos s) A = false /\ tip (_lastChangeBufferPos s) B = tip (_lastChangeBufferPos s) p.
Proof.
  intros Hpos Hpos' Hr Hr' Hlt i.
  assert (forall lf, let A := Piece.mk i (Piece.start p) pos lf (so + r - so) in
    spans bs A b so (so + r) /\ contents bs A = ztake r (contents bs p)) as HA.
  { intros lf. destruct (spans_head bs p b so eo pos (so + r) lf (so + r - so) Hsp Hpos) as [H1 H2]; [lia | done |].
    split; [done |]. etransitivity; [exact H2 |]. by rewrite Z.add_simpl_l. }
  assert (forall lf, let B := Piece.mk i pos' (Piece.end_ p) lf (eo - (so + r')) in
    spans bs B b (so + r') eo /\ contents bs B = zdrop r' (contents bs p)) as HB.
  { intros lf. destruct (spans_tail bs p b so eo pos' (so + r') lf (eo - (so + r')) Hsp Hpos') as [H1 H2]; [lia | done |].
    split; [done |]. etransitivity; [exact H2 |]. by rewrite Z.add_simpl_l. }
  exists (breaks (ztake r (contents bs p))), (breaks (zdrop r' (contents bs p))).
  split; [rewrite <- (proj2 (HA 0)); apply (spans_lf _ _ _ _ _ (proj1 (HA 0))); lia |].
  split; [rewrite <- (proj2 (HB 0)); apply (spans_lf _ _ _ _ _ (proj1 (HB 0))); lia |].
  intros A B. destruct (HA (breaks (ztake r (contents bs p)))) as [A1 A2].
  destruct (HB (breaks (zdrop r' (contents bs p)))) as [B1 B2].
  fold A in A1, A2. fold B in B1, B2. split_and!; try done.
  - exists b, so, (so + r). rewrite A2. split_and!; [done | lia | done].
  - exists b, (so + r'), eo. rewrite B2. split_and!; [done | lia | done].
  - eapply tip_head; [apply (doc_fits Hd) | exact Hsp | | exact A1]. lia.
Qed.

Lemma shrinkNode_ok r pos r' pos' :
  cursor_ok b pos (so + r) -> cursor_ok b pos' (so + r') -> 0 < r -> r < r' -> so + r' < eo ->
  exists s', (shrinkNode x pos pos';; computeBufferMetadata) s = Ret (tt, s') /\
    done_with s' (text bs l1 ++ ztake r (contents bs p) ++ zdrop r' (contents bs p) ++ text bs l2).
Proof.
  intros Hpos Hpos' Hr Hr' Hlt. destruct nodes_ok as (P1 & Pp & P2).
  destruct (sealed_mid _ _ _ _ (doc_sealed Hd)) as [S1 S2].
  destruct (cut_out r pos r' pos') as (lf & lf' & Hlf & Hlf' & OA & OB & CA & CB & TA & TB); try done.
  set (A := Piece.mk _ _ pos lf _) in *. set (B := Piece.mk _ pos' _ lf' _) in *.
  destruct (fits_set F s l1 x p l2 A (so + r - so - Piece.length p) (lf - Piece.lineFeedCnt p) (doc_fits Hd))
    as (s1 & s2 & H1 & Ho1 & H2 & Ho2 & Hf2); [by apply piece_ok_spans | by rewrite TA | done | done |].
  pose proof (only_tr_buffers _ _ Ho1) as Hb1. pose proof (only_tr_buffers _ _ Ho2) as Hb2.
  pose proof (only_tr_last _ _ Ho2) as Hl2.
  destruct (fits_insertRight F s2 l1 x A l2 B Hf2) as (z & s3 & H3 & Ho3 & Hf3 & _).
  { rewrite Hb2. by apply piece_ok_spans. }
  { rewrite Hl2, tips_app. cbn. rewrite TA, TB. pose proof (fits_tips (doc_fits Hd)) as Ht.
    rewrite tips_app in Ht. cbn in Ht. lia. }
  apply fits_cons_app in Hf3.
  destruct (seal_docs F s s3 (l1 ++ [(x, A)]) ((z, B) :: l2) (validateCRLFWithPrevNode z))
    as (F' & s4 & L' & H4 & Hs & Hst & _); try done.
  { by eapply only_tr_trans. }
  { by left. }
  { apply Forall_app. split; [done |]. by apply Forall_singleton. }
  { by constructor. }
  { eapply sealed_prefix; [| exact S1]. rewrite CA. symmetry. apply ztake_zdrop. }
  { eapply sealed_cons. pose proof (proj1 (sealed_cons _ _ _ _) S2) as [? Hm]. split; [done |]. rewrite CB.
    rewrite <- (ztake_zdrop r' (contents bs p)) in Hm. by apply seam_of_app_l in Hm. }
  { rewrite text_app, text_one, text_cons, CA, CB. intros Hch. apply part_nocr; [| done].
    intros u [H | H]%elem_of_app; eauto with piece. }
  assert (shrinkNode x pos pos' s = Ret (tt, s4)) as Hrun.
  { unfold shrinkNode. erewrite pbind_run by (eapply fits_piece_mid; apply (doc_fits Hd)).
    erewrite pbind_run by (apply bufs_run; exact Hlf).
    erewrite pbind_run by (apply bufs_run; eapply offsetInBuffer_ok; [apply Hsp | exact Hpos]).
    erewrite pbind_run by (apply bufs_run; eapply offsetInBuffer_ok; apply Hsp).
    erewrite pbind_run by exact H1. erewrite pbind_run by exact H2.
    erewrite pbind_run by (apply bufs_run; rewrite Hb2; exact Hlf').
    erewrite pbind_run by (apply bufs_run; rewrite Hb2; eapply offsetInBuffer_ok; apply Hsp).
    erewrite pbind_run by (apply bufs_run; rewrite Hb2; eapply offsetInBuffer_ok; [apply Hsp | exact Hpos']).
    by erewrite pbind_run by exact H3. }
  erewrite pbind_run by exact Hrun. rewrite text_app, text_one, text_cons, CA, CB, <- app_assoc in Hs.
  eapply finish_spliced; [exact Hs | by eapply Hst | done | exact Hcache | apply node_ne].
Qed.

End One_node.

(** The four cases of a deletion inside one node, from [r] to [r'] in its text. *)
Lemma deleteInNode_ok F s l1 x p l2 ln sp ep r r' :
  docs F s (l1 ++ (x, p) :: l2) -> _limit s = 1 -> _cache s = [mkEntry x (nsize l1) ln] ->
  blen (_buffers s) + 3 < 2 ^ 31 - 1 ->
  np_remainder sp = r -> np_remainder ep = r' -> np_nodeStartOffset sp = nsize l1 -> 0 <= r < r' -> r' <= Piece.length p ->
  exists s', deleteInNode x sp ep (nsize l1 + r) (r' - r) s = Ret (tt, s') /\
    is_doc s' (text (_buffers s) l1 ++ ztake r (contents (_buffers s) p) ++
               zdrop r' (contents (_buffers s) p) ++ text (_buffers s) l2) /\
    after s s' (_EOLNormalized s) 3.
Proof.
  intros Hd Hlim Hc Hroom <- <- Hstart Hr Hr'. unfold deleteInNode. rewrite Hstart.
  set (r := np_remainder sp) in *. set (r' := np_remainder ep) in *.
  pose proof (doc_pieces Hd) as [_ [Hp _]%Forall_cons]%Forall_app. cbn [snd] in Hp.
  pose proof (piece_ok_zlen _ _ Hp) as Hz. pose proof Hp as (b & so & eo & Hsp & Hlt & _).
  pose proof (sp_length Hsp) as Hlen.
  erewrite pbind_run by (eapply fits_piece_mid; apply (doc_fits Hd)).
  assert (forall k, 0 <= k <= Piece.length p ->
    exists pos, positionInBuffer (_buffers s) p k = Ret pos /\ cursor_ok b pos (so + k)) as Hposn.
  { intros k Hk. destruct (positionInBuffer_ok (_buffers s) b p so eo k) as (pos & H1 & H2 & _);
      [apply Hsp | apply buffer_starts_ok, Hsp | apply Hsp | apply Hsp | lia |]. eauto. }
  destruct (Hposn r) as (pos & Hpos & Hcur); [lia |]. destruct (Hposn r') as (pos' & Hpos' & Hcur'); [lia |].
  erewrite pbind_run by (apply bufs_run; exact Hpos). erewrite pbind_run by (apply bufs_run; exact Hpos').
  destruct (Z.eqb_spec (nsize l1) (nsize l1 + r)) as [E1 | E1].
  - assert (r = 0) as Er by lia. rewrite Er, Z.add_0_r, Z.sub_0_r, ztake_0.
    destruct (Z.eqb_spec r' (Piece.length p)) as [E2 | E2].
    + rewrite E2, <- Hz, zdrop_all by lia. by eapply deleteWhole_ok.
    + eapply deleteFront_ok; try done; lia.
  - destruct (Z.eqb_spec (nsize l1 + Piece.length p) (nsize l1 + r + (r' - r))) as [E2 | E2].
    + assert (r' = Piece.length p) as -> by lia. rewrite <- Hz, zdrop_all by lia.
      eapply deleteBack_ok; try done; lia.
    + eapply shrinkNode_ok; try done; lia.
Qed.

(** ** Across several nodes *)

Lemma nodesBetween_loop fuel F s l0 mid y q l3 acc :
  holds F s (l0 ++ mid ++ (y, q) :: l3) -> (length mid < fuel)%nat ->
  piter fuel (fun '(node, acc) =>
    if negb (same node SENTINEL) && negb (same node y) then
      node' ← rbt (next node);
      mret (inl (node', acc ++ [node]))
    else mret (inr acc)) (hd SENTINEL (fst <$> mid ++ [(y, q)]), acc) s = Ret (acc ++ (fst <$> mid), s).
Proof.
  revert fuel l0 acc. induction mid as [| [m pm] mid IH]; intros [| fuel] l0 acc Hh Hfuel; cbn [length] in *; [lia | | lia |].
  - cbn [app fmap list_fmap fst hd]. eapply piter_stop. rewrite same_eq. cbn [negb]. rewrite andb_false_r, app_nil_r. done.
  - cbn [app fmap list_fmap fst hd].
    assert (m <> SENTINEL) as Hms by (apply (holds_ne _ _ _ pm Hh); set_solver).
    assert (m <> y) as Hmy.
    { pose proof (holds_nodup _ _ Hh) as Hnd. rewrite !fmap_app, !fmap_cons in Hnd. cbn in Hnd.
      apply NoDup_app in Hnd as (_ & _ & [Hn _]%NoDup_cons). intros ->. apply Hn. clear. set_solver. }
    specialize (IH fuel (l0 ++ [(m, pm)]) (acc ++ [m])). rewrite <- !app_assoc in IH. cbn [app] in IH.
    erewrite piter_next; [apply IH; [done | lia] |]. rewrite !same_ne by done. cbn [negb andb].
    erewrite pbind_run by (eapply holds_next; exact Hh). unfold mret, P_ret. do 4 f_equal. by destruct mid.
Qed.

Lemma holds_size F s L : holds F s L -> (length L < size (heap (tr s)))%nat.
Proof.
  intros (t & (Hr & _) & <-). pose proof (reps_size _ _ Hr) as H.
  rewrite <- (length_fmap fst), fmap_nodes. exact H.
Qed.

Lemma without_unless xs (a : jsstring) x p :
  (x ∈ xs <-> a = []) -> without xs [(x, p)] = unless_empty a x p.
Proof.
  intros H. unfold unless_empty. case_bool_decide as Ha; [apply without_nil | apply without_id]; cbn;
    intros i ->%list_elem_of_singleton; tauto.
Qed.

Lemma elem_of_when (b : bool) (x i : ref) : i ∈ (if b then [x] else []) -> i = x.
Proof. destruct b; [by intros ?%list_elem_of_singleton | by intros ?%elem_of_nil]. Qed.

Lemma NoDup_when (b : bool) (x : ref) : NoDup (if b then [x] else []).
Proof. destruct b; repeat constructor. by intros ?%elem_of_nil. Qed.

(** [deleteNodes] on the inner nodes and the emptied outer ones. *)
Lemma deleteBetween F s (l1 mid l3 : seq) x p y q (a c : jsstring) :
  fits F s (l1 ++ (x, p) :: mid ++ (y, q) :: l3) ->
  exists F' s', deleteNodes ((if bool_decide (a = []) then [x] else []) ++
      (if bool_decide (c = []) then [y] else []) ++ (fst <$> mid)) s = Ret (tt, s') /\ only_tr s s' /\
    fits F' s' ((l1 ++ unless_empty a x p) ++ unless_empty c y q ++ l3).
Proof.
  intros Hf. set (xs := _ ++ _ ++ _).
  pose proof (holds_nodup _ _ (fits_holds Hf)) as Hnd. rewrite fmap_app, fmap_cons, fmap_app, fmap_cons in Hnd.
  cbn [fst] in Hnd. apply NoDup_app in Hnd as (Hn1 & Hd & Hnd). apply NoDup_cons in Hnd as [Hx Hnd].
  apply NoDup_app in Hnd as (Hnm & Hdm & [Hy Hn3]%NoDup_cons).
  assert (forall i, i ∈ xs <-> (i = x /\ a = []) \/ (i = y /\ c = []) \/ i ∈ fst <$> mid) as Hxs.
  { intros i. unfold xs. rewrite !elem_of_app. do 2 case_bool_decide; rewrite ?list_elem_of_singleton, ?elem_of_nil; tauto. }
  apply not_elem_of_app in Hx as [Hxm [Hxy Hx3]%not_elem_of_cons].
  assert (y ∉ fst <$> mid) as Hym by (intros Hi; apply (Hdm _ Hi); left).
  destruct (deleteNodes_ok xs F s _ Hf) as (F' & s' & H1 & Ho & Hf' & _ & _).
  { unfold xs. apply NoDup_app. split; [apply NoDup_when |]. split.
    - intros i ->%elem_of_when [->%elem_of_when | Hj]%elem_of_app; done.
    - apply NoDup_app. split; [apply NoDup_when |]. split; [| done]. by intros i ->%elem_of_when. }
  { intros i Hi. rewrite fmap_app, fmap_cons, fmap_app, fmap_cons. apply Hxs in Hi. cbn [fst]. clear - Hi. set_solver. }
  exists F', s'. split; [exact H1 |]. split; [done |].
  assert (without xs (l1 ++ (x, p) :: mid ++ (y, q) :: l3) = (l1 ++ unless_empty a x p) ++ unless_empty c y q ++ l3) as <-; [| done].
  change ((x, p) :: mid ++ (y, q) :: l3) with ([(x, p)] ++ mid ++ [(y, q)] ++ l3).
  rewrite !without_app, (without_id xs l1), (without_id xs l3), (without_nil xs mid), <- app_assoc.
  - f_equal. f_equal; [| cbn [app]; f_equal]; apply without_unless; rewrite Hxs; naive_solver.
  - intros i Hi. apply Hxs. auto.
  - intros i Hi [[-> _] | [[-> _] | Hm]]%Hxs; [done | done |]. apply (Hdm _ Hm). by right.
  - intros i Hi Hj%Hxs. apply (Hd i Hi). clear - Hj. set_solver.
Qed.

Lemma length_zero (a : jsstring) n : n = zlen a -> (n === 0) = bool_decide (a = []).
Proof.
  intros ->. apply eq_true_iff_eq. rewrite Z.eqb_eq, bool_decide_eq_true. split; [apply zlen_0 | by intros ->].
Qed.

Lemma sealed_unless_r bs l x p a : contents bs p = a -> sealed bs (l ++ [(x, p)]) -> sealed bs (l ++ unless_empty a x p).
Proof.
  intros Hc Hs. unfold unless_empty. case_bool_decide; [| done]. rewrite app_nil_r. by apply sealed_app in Hs as (? & _).
Qed.

(** The second half of a deletion across nodes: [x] and [y] are cut already. *)
Lemma finishAcross_ok F s s3 l1 x p mid y q l3 a c :
  only_tr s s3 -> _limit s = 1 -> _cache s = [] -> blen (_buffers s) + 3 < 2 ^ 31 - 1 ->
  fits F s3 (l1 ++ (x, p) :: mid ++ (y, q) :: l3) -> pieces_ok (_buffers s) l1 -> pieces_ok (_buffers s) l3 ->
  contents (_buffers s) p = a -> contents (_buffers s) q = c -> Piece.length p = zlen a -> Piece.length q = zlen c ->
  (a <> [] -> piece_ok (_buffers s) p) -> (c <> [] -> piece_ok (_buffers s) q) ->
  sealed (_buffers s) (l1 ++ [(x, p)]) -> sealed (_buffers s) ((y, q) :: l3) ->
  (checks s = false -> CarriageReturn ∉ (text (_buffers s) l1 ++ a) ++ c ++ text (_buffers s) l3) ->
  exists s', (secondNode ← rbt (next x);
    between ← nodesBetween secondNode y;
    startPiece ← piece_of x;
    prev' ← (if Piece.length startPiece === 0 then rbt (prev x) else mret x);
    deleteNodes ((if Piece.length p === 0 then [x] else []) ++ (if Piece.length q === 0 then [y] else []) ++ between);;
    validateCRLFWithNextNode prev';;
    computeBufferMetadata) s3 = Ret (tt, s') /\
    is_doc s' (text (_buffers s) l1 ++ a ++ c ++ text (_buffers s) l3) /\ after s s' (_EOLNormalized s) 3.
Proof.
  intros Ho Hlim Hc Hroom Hf P1 P3 Cp Cq Lp Lq Okp Okq S1 S2 Hcr.
  erewrite pbind_run by (eapply holds_next; apply Hf).
  assert (hd SENTINEL (fst <$> mid ++ (y, q) :: l3) = hd SENTINEL (fst <$> mid ++ [(y, q)])) as -> by (by destruct mid).
  assert (nodesBetween (hd SENTINEL (fst <$> mid ++ [(y, q)])) y s3 = Ret (fst <$> mid, s3)) as Hbt.
  { unfold nodesBetween. erewrite pbind_run by (apply rbt_run; reflexivity).
    pose proof (holds_size _ _ _ (fits_holds Hf)) as Hsz. rewrite length_app in Hsz. cbn in Hsz. rewrite length_app in Hsz.
    apply (nodesBetween_loop _ F s3 (l1 ++ [(x, p)]) mid y q l3 []); [| lia]. rewrite <- app_assoc. apply Hf. }
  erewrite pbind_run by exact Hbt. erewrite pbind_run by (eapply fits_piece_mid; exact Hf).
  rewrite (length_zero a _ Lp), (length_zero c _ Lq).
  erewrite (pbind_run _ _ s3 (default SENTINEL (last (fst <$> l1 ++ unless_empty a x p))) s3).
  2: { unfold unless_empty. case_bool_decide; rewrite ?app_nil_r; [eapply holds_prev; apply Hf |].
       rewrite fmap_app. change (fst <$> [(x, p)]) with [x]. by rewrite last_snoc. }
  destruct (deleteBetween F s3 l1 mid l3 x p y q a c Hf) as (F' & s4 & H4 & Ho4 & Hf4). erewrite pbind_run by exact H4.
  destruct (unless_empty_ok (_buffers s) a x p Cp Okp) as (Ta & Oa & _).
  destruct (unless_empty_rest (_buffers s) y q l3 c Cq Okq P3 S2) as (Tc & Oc & Sc).
  destruct (seal_docs F' s s4 (l1 ++ unless_empty a x p) (unless_empty c y q ++ l3)
    (validateCRLFWithNextNode (default SENTINEL (last (fst <$> l1 ++ unless_empty a x p)))))
    as (F2 & s5 & L' & H5 & [Sk Sd St Sb] & _); try done.
  { by eapply only_tr_trans. }
  { by right. }
  { by apply Forall_app. }
  { by apply sealed_unless_r. }
  { by rewrite text_app, Ta, Tc. }
  erewrite pbind_run by exact H5. rewrite text_app, Ta, Tc, <- app_assoc in St.
  destruct (finish_edit F2 s s5 L' _ 3 Sk Sd St) as (s6 & H6 & H7); try done; [by rewrite Hc | by rewrite Hc |]. eauto.
Qed.

(** The whole deletion across nodes, from [r] in the text of [x] to [r'] in that of [y]. *)
Lemma deleteAcross_ok F s l1 x p mid y q l3 ln r r' :
  docs F s (l1 ++ (x, p) :: mid ++ (y, q) :: l3) -> _limit s = 1 ->
  _cache s = [mkEntry y (nsize (l1 ++ (x, p) :: mid)) ln] -> blen (_buffers s) + 3 < 2 ^ 31 - 1 ->
  0 <= r <= Piece.length p -> 0 <= r' <= Piece.length q ->
  exists s', (startPiece ← piece_of x;
    startSplit ← bufs (fun bs => positionInBuffer bs startPiece r);
    deleteNodeTail x startSplit;;
    cacheValidate (nsize l1 + r);;
    startPiece ← piece_of x;
    let del1 := if Piece.length startPiece === 0 then [x] else [] in
    endPiece ← piece_of y;
    endSplit ← bufs (fun bs => positionInBuffer bs endPiece r');
    deleteNodeHead y endSplit;;
    endPiece ← piece_of y;
    let del2 := if Piece.length endPiece === 0 then [y] else [] in
    secondNode ← rbt (next x);
    between ← nodesBetween secondNode y;
    startPiece ← piece_of x;
    prev' ← (if Piece.length startPiece === 0 then rbt (prev x) else mret x);
    deleteNodes (del1 ++ del2 ++ between);;
    validateCRLFWithNextNode prev';;
    computeBufferMetadata) s = Ret (tt, s') /\
    is_doc s' (text (_buffers s) l1 ++ ztake r (contents (_buffers s) p) ++
               zdrop r' (contents (_buffers s) q) ++ text (_buffers s) l3) /\
    after s s' (_EOLNormalized s) 3 /\ _cache s' = [].
Proof.
  intros Hd Hlim Hc Hroom Hr Hr'. pose proof Hd as [Hf Hpk Hse _].
  apply Forall_app in Hpk as [P1 [Pp Pk]%Forall_cons]. apply Forall_app in Pk as [Pm [Pq P3]%Forall_cons].
  cbn [snd] in Pp, Pq.
  pose proof (piece_ok_zlen _ _ Pp) as Zp. pose proof (piece_ok_zlen _ _ Pq) as Zq.
  pose proof Pp as (b & so & eo & Hsp & Hlt & _). pose proof Pq as (b' & so' & eo' & Hsp' & Hlt' & _).
  pose proof (sp_length Hsp) as Lp. pose proof (sp_length Hsp') as Lq.
  destruct (positionInBuffer_ok (_buffers s) b p so eo r) as (pos & Hpos & Hcur & _);
    [apply Hsp | apply buffer_starts_ok, Hsp | apply Hsp | apply Hsp | lia |].
  destruct (positionInBuffer_ok (_buffers s) b' q so' eo' r') as (pos' & Hpos' & Hcur' & _);
    [apply Hsp' | apply buffer_starts_ok, Hsp' | apply Hsp' | apply Hsp' | lia |].
  destruct (deleteNodeTail_ok F s l1 x p (mid ++ (y, q) :: l3) b so eo pos (so + r) Hf Hsp Hcur)
    as (s1 & p' & H1 & Ho1 & Hf1 & Lp' & Cp' & Okp' & _); [lia |]. rewrite Z.add_simpl_l in Lp', Cp'.
  erewrite pbind_run by (eapply fits_piece_mid; exact Hf). erewrite pbind_run by (apply bufs_run; exact Hpos).
  erewrite pbind_run by exact H1.
  assert (y <> SENTINEL) as Hy by (apply (holds_ne _ _ _ q (fits_holds Hf)); set_solver).
  assert (cacheValidate (nsize l1 + r) s1 = Ret (tt, set_cache [] s1)) as H2.
  { eapply cacheValidate_drop; [apply Hf1 | | left | done |].
    - rewrite (kept_cache _ _ (only_tr_kept _ _ Ho1)). exact Hc.
    - rewrite fmap_app, fmap_cons, fmap_app, fmap_cons. set_solver.
    - rewrite nsize_app, nsize_cons. pose proof (text_size _ _ Pm). pose proof (zlen_nonneg (text (_buffers s) mid)). lia. }
  erewrite pbind_run by exact H2.
  assert (only_tr (set_cache [] s) (set_cache [] s1)) as Ho2 by (rewrite Ho1; done).
  assert (fits F (set_cache [] s1) ((l1 ++ (x, p') :: mid) ++ (y, q) :: l3)) as Hf2.
  { rewrite <- app_assoc. destruct Hf1. by constructor. }
  pose proof (only_tr_buffers _ _ Ho2) as Hb2. cbn [_buffers set_cache] in Hb2.
  destruct (deleteNodeHead_ok F (set_cache [] s1) (l1 ++ (x, p') :: mid) y q l3 b' so' eo' pos' (so' + r') Hf2)
    as (s3 & q' & H3 & Ho3 & Hf3 & Lq' & Cq' & Okq'); [cbn [_buffers set_cache]; by rewrite Hb2 | done | lia |].
  cbn [_buffers set_cache] in Cq', Okq'. rewrite Hb2 in Cq', Okq'. rewrite Z.add_simpl_l in Cq'.
  pose proof (fits_piece_mid _ _ _ _ _ _ Hf3) as Hq3. rewrite <- app_assoc in Hf3. cbn [app] in Hf3.
  erewrite pbind_run by (eapply fits_piece_mid; rewrite <- app_assoc in Hf2; exact Hf2).
  erewrite pbind_run by (eapply fits_piece_mid; exact Hf2).
  erewrite pbind_run by (apply bufs_run; cbn [_buffers set_cache]; rewrite Hb2; exact Hpos').
  erewrite pbind_run by exact H3.
  erewrite pbind_run by exact Hq3.
  destruct (sealed_mid _ _ _ _ Hse) as [S1 S2]. apply sealed_cons in S2 as [S2 _]. apply sealed_app in S2 as (_ & S2 & _).
  destruct (finishAcross_ok F (set_cache [] s) s3 l1 x p' mid y q' l3 (ztake r (contents (_buffers s) p))
    (zdrop r' (contents (_buffers s) q))) as (s4 & H4 & H5 & [A1 A2 A3 A4 A5 A6]); try done.
  { by eapply only_tr_trans. }
  { rewrite zlen_ztake; lia. }
  { rewrite zlen_zdrop; lia. }
  { intros Hne. apply Okp'. destruct (decide (r = 0)) as [-> |]; [by rewrite ztake_0 in Hne | lia]. }
  { intros Hne. apply Okq'. destruct (decide (r' = Piece.length q)) as [-> |]; [rewrite zdrop_all in Hne by lia; done | lia]. }
  { eapply sealed_prefix; [| exact S1]. cbn [_buffers set_cache]. rewrite Cp'. symmetry. apply ztake_zdrop. }
  { eapply sealed_suffix; [| exact S2]. cbn [_buffers set_cache]. rewrite Cq'. symmetry. apply ztake_zdrop. }
  { intros Hch Hin. apply (doc_nocr Hd Hch). rewrite text_app, text_cons, text_app, text_cons. cbn [_buffers set_cache] in Hin.
    rewrite !elem_of_app in *. destruct Hin as [[? | ?%elem_of_ztake] | [?%elem_of_zdrop | ?]]; tauto. }
  exists s4. split; [exact H4 |]. split; [exact H5 |].
  assert (_cache s4 = []) as Hnil by (by apply no_entries).
  split; [| done]. constructor; try done. rewrite Hnil. by intros e ?%elem_of_nil.
Qed.

(** ** Deletion *)

(** Two nodes of a sequence: the same, or one before the other. *)
Lemma two_nodes (L l1 l2 k1 k2 : seq) n m :
  L = l1 ++ n :: l2 -> L = k1 ++ m :: k2 ->
  (l1 = k1 /\ n = m /\ l2 = k2) \/
  (exists mid, l2 = mid ++ m :: k2 /\ k1 = l1 ++ n :: mid) \/
  (exists mid, k2 = mid ++ n :: l2 /\ l1 = k1 ++ m :: mid).
Proof.
  intros -> H. revert k1 H. induction l1 as [| a l1 IH]; intros [| c k1] H; cbn in H; injection H as H1 H.
  - left. by subst.
  - right. left. exists k1. by subst.
  - right. right. exists l1. by subst.
  - destruct (IH k1 H) as [(-> & -> & ->) | [(mid & -> & ->) | (mid & -> & ->)]];
      [left; by subst | right; left; exists mid; by subst | right; right; exists mid; by subst].
Qed.

Lemma is_doc_visited s str v : is_doc s str -> is_doc (set_lastVisited v s) str.
Proof.
  intros (F & L & Hd & H). exists F, L. split; [| done]. by eapply docs_ext; [.. | exact Hd].
Qed.

Lemma delete_ok s str offset cnt :
  is_doc s str -> 0 <= offset -> 0 <= cnt -> offset + cnt <= zlen str -> blen (_buffers s) + 3 < 2 ^ 31 - 1 ->
  exists s', delete offset cnt s = Ret (tt, s') /\
    is_doc s' (ztake offset str ++ zdrop (offset + cnt) str) /\
    edited s s' str (ztake offset str ++ zdrop (offset + cnt) str) (_EOLNormalized s) 3.
Proof.
  intros Hdoc Ho Hcnt Hle Hroom. unfold delete. erewrite pbind_run by done.
  apply (is_doc_visited _ _ (0, [])) in Hdoc. set (s0 := set_lastVisited _ s) in *.
  destruct (Z.leb_spec cnt 0) as [Hc0 | Hc0].
  { assert (cnt = 0) as -> by lia. rewrite Z.add_0_r, ztake_zdrop. destruct Hdoc as (F & L & Hd & Hrest).
    destruct (holds_root s0 L (fits_holds (doc_fits Hd))) as (r & Hr & _). erewrite pbind_run by exact Hr.
    exists s0. split; [done |]. split; [by exists F, L |]. constructor; cbn; [done | done | lia | done | by right | done]. }
  destruct Hdoc as (F & L & Hd & Ht & _ & _ & Hlim & Hcl & Hc).
  pose proof (text_size _ _ (doc_pieces Hd)) as Hsz. rewrite Ht in Hsz.
  assert (L <> []) as HL by (intros ->; change (nsize []) with 0 in Hsz; lia).
  destruct (holds_root s0 L (fits_holds (doc_fits Hd))) as (r & Hr & Hrs).
  erewrite pbind_run by exact Hr. rewrite Hrs, bool_decide_eq_false_2 by done. cbn [orb].
  destruct (nodeAt_doc F s0 L offset Hd) as (sp & l1 & p & l2 & ln & H1 & Hln & E1 & Hs1 & Hr1 & Hb1); try done; [lia |].
  erewrite pbind_run by exact H1. set (s1 := set_cache _ s0).
  assert (docs F s1 L) as Hd1 by (by eapply docs_ext; [.. | exact Hd]).
  destruct (nodeAt_doc F s1 L (offset + cnt) Hd1) as (ep & k1 & q & k2 & ln' & H2 & Hln' & E2 & Hs2 & Hr2 & Hb2); try done.
  { apply Forall_singleton. exists l1, p, l2. done. }
  { lia. }
  erewrite pbind_run by exact H2. set (s2 := set_cache _ s1). do 2 erewrite pbind_run by done.
  assert (docs F s2 L) as Hd2 by (by eapply docs_ext; [.. | exact Hd]).
  pose proof (fun o => ztake_edit str (zdrop (offset + cnt) str) o offset) as Hte. revert Hte.
  assert (ztake offset str = text (_buffers s) l1 ++ ztake (np_remainder sp) (contents (_buffers s) p)) as ->.
  { pose proof (doc_pieces Hd) as HP. rewrite E1 in HP. apply Forall_app in HP as [P1 [Pp _]%Forall_cons].
    destruct (split_text (_buffers s) l1 (np_node sp) p l2 (np_remainder sp) P1 Pp Hb1) as [T _].
    rewrite <- E1, Hr1 in T. rewrite <- Ht. exact T. }
  assert (zdrop (offset + cnt) str = zdrop (np_remainder ep) (contents (_buffers s) q) ++ text (_buffers s) k2) as ->.
  { pose proof (doc_pieces Hd) as HP. rewrite E2 in HP. apply Forall_app in HP as [P1 [Pp _]%Forall_cons].
    destruct (split_text (_buffers s) k1 (np_node ep) q k2 (np_remainder ep) P1 Pp Hb2) as [_ T].
    rewrite <- E2, Hr2 in T. rewrite <- Ht. exact T. }
  rewrite <- app_assoc. intros Hte. clear Ht.
  destruct (two_nodes L l1 l2 k1 k2 _ _ E1 E2) as [(-> & Hn & ->) | [(mid & -> & ->) | (mid & -> & ->)]].
  - injection Hn as Hn <-. rewrite <- Hn in *. rewrite same_eq. rewrite E1 in Hd2. rewrite <- Hr1.
    assert (cnt = np_remainder ep - np_remainder sp) as -> by lia.
    destruct (deleteInNode_ok F s2 k1 (np_node sp) p k2 ln' sp ep (np_remainder sp) (np_remainder ep) Hd2)
      as (s' & G1 & G2 & G3); try done; [unfold s2; by rewrite Hn | lia | lia |].
    exists s'. split; [exact G1 |]. split; [exact G2 |].
    eapply after_edited; [exact G3 | done | done | done | done | | done | apply Hte; lia].
    destruct Hln' as [-> | Hin]; [by left |]. cbn in Hin. apply list_elem_of_singleton in Hin. rewrite Hin, <- Hn in *.
    injection Hin as ->. exact Hln.
  - rewrite E1 in Hd2. rewrite same_ne.
    2: { intros Hn. pose proof (holds_nodup _ _ (fits_holds (doc_fits Hd2))) as Hnd.
         rewrite fmap_app, fmap_cons in Hnd. apply NoDup_app in Hnd as (_ & _ & [Hni _]%NoDup_cons).
         apply Hni. rewrite fmap_app, fmap_cons, elem_of_app, elem_of_cons. by right; left. }
    destruct (deleteAcross_ok F s2 l1 (np_node sp) p mid (np_node ep) q k2 ln' (np_remainder sp) (np_remainder ep) Hd2)
      as (s' & G1 & G2 & [A1 A2 A3 A4 A5 A6] & G4); try done.
    exists s'. split; [rewrite <- Hr1; exact G1 |]. split; [exact G2 |]. constructor; try done. rewrite G4. by intros e ?%elem_of_nil.
  - exfalso. pose proof (doc_pieces Hd) as HP. rewrite E2 in HP.
    apply Forall_app in HP as [_ [_ [Pm _]%Forall_app]%Forall_cons].
    rewrite nsize_app, nsize_cons, (text_size _ _ Pm) in Hr1. pose proof (zlen_nonneg (text (_buffers s0) mid)). lia.
Qed.
