(* ===== verification/PieceTreeCreate.v ===== *)
(** * Creating a document and changing its line ends

    [create] of [PieceTreeBase] (and its constructor) builds a document from the
    chunks of a file, [normalizeEOL] (and [setEOL]) builds one from the text of the
    old document with all line ends replaced. *)

From stdpp Require Import gmap.
From S2P Require Import Prelude RBTree RBTreeRep RBTreeOps RBTreeInsert RBTreeDelete RBTreeRemove.
From S2P Require Import PieceBuffers PieceTree PieceTreeEdit PieceTreeNodes PieceTreeRead PieceTreeList PieceTreeText.
From S2P Require Import PieceTreePieces PieceTreeChange PieceTreeSeal PieceTreeInsert PieceTreeDocument.

(** ** Chunks *)

(** The text of a list of chunks. *)
Definition chunks_text (cs : list StringBuffer.t) : jsstring := mjoin (StringBuffer.buffer <$> cs).

(** No CR LF pair lies across two chunks. *)
Fixpoint chunks_sealed (cs : list StringBuffer.t) : Prop :=
  match cs with
  | [] => True
  | c :: cs => seam (StringBuffer.buffer c) (chunks_text cs) /\ chunks_sealed cs
  end.

(** A chunk with text and its line starts. *)
Definition chunk_ok (c : StringBuffer.t) : Prop := buffer_ok c /\ StringBuffer.buffer c <> [].

(** The piece [create] makes of a chunk. *)
Lemma chunk_piece bs c :
  bs <> [] -> chunk_ok c ->
  let ls := StringBuffer.lineStarts c in
  exists e, num_at ls (zlen ls - 1) = Ret e /\
    let p := Piece.mk (zlen bs) (BufferCursor.mk 0 0)
      (BufferCursor.mk (zlen ls - 1) (zlen (StringBuffer.buffer c) - e)) (zlen ls - 1) (zlen (StringBuffer.buffer c)) in
    piece_ok (bs ++ [c]) p /\ contents (bs ++ [c]) p = StringBuffer.buffer c /\ (forall lc, tip lc p = false).
Proof.
  intros Hbs [Hc Hne] ls. destruct (starts_last c Hc) as (e & He & _).
  assert (znth ls (zlen ls - 1) = Some e) as Hlast by (unfold ls; by rewrite znth_last).
  exists e. split; [by apply num_at_Ret |]. intros p.
  pose proof (end_of_ok c Hc) as Hend. unfold end_of in Hend. rewrite He in Hend. cbn [default] in Hend. fold ls in Hend.
  assert (0 < zlen (StringBuffer.buffer c)) as Hpos.
  { pose proof (zlen_nonneg (StringBuffer.buffer c)). assert (zlen (StringBuffer.buffer c) <> 0); [| lia]. by intros ?%zlen_0. }
  assert (spans (bs ++ [c]) p c 0 (zlen (StringBuffer.buffer c))) as Hsp.
  { constructor; cbn; [by apply znth_mid | done | | exact Hend | lia | lia].
    exists 0. cbn. pose proof Hc as [Hls _]. split_and!; [by rewrite Hls, znth_cons_0 | done | done | lia |]. intros next Hn.
    destruct (buffer_starts_ok c Hc) as [HS _]. eapply (sorted_znth _ 0 1 0 next); [exact HS | by rewrite Hls, znth_cons_0 | done | lia]. }
  pose proof (spans_contents _ _ _ _ _ Hsp) as Hcont.
  rewrite js_substring_eq, Z.sub_0_r, zdrop_0, ztake_all in Hcont by lia.
  split_and!; [| done |].
  - exists c, 0, (zlen (StringBuffer.buffer c)). split; [done |]. split; [done |]. rewrite Hcont. cbn.
    unfold breaks, ls. destruct Hc as [-> _]. rewrite zlen_cons. lia.
  - intros lc. unfold tip. cbn. destruct bs; [done |]. rewrite zlen_cons. pose proof (zlen_nonneg bs).
    by rewrite (proj2 (Z.eqb_neq _ _)) by lia.
Qed.

(** ** The loop over the chunks *)

Lemma chunks_text_cons c cs : chunks_text (c :: cs) = StringBuffer.buffer c ++ chunks_text cs.
Proof. done. Qed.

Lemma fits_push F s L c :
  fits F s L -> buffer_ok c -> fits F (set_buffers (_buffers s ++ [c]) s) L.
Proof.
  intros [Hh (Hok & b0 & Hb0 & Hlc) Hs Ht] Hc. constructor; cbn; [done | | | done].
  - split; [apply Forall_app; split; [done | by apply Forall_singleton] |]. exists b0. by destruct (_buffers s).
  - eapply Forall_impl; [exact Hs |]. intros n (b & so & eo & H).
    destruct (appends_grows (_buffers s) [c] _ _ _ _ H) as (b' & H' & _). eauto.
Qed.

Lemma insertEmptyChunks_ok i es x s : Forall (fun c => StringBuffer.buffer c = []) es -> insertChunks i es x s = Ret (tt, s).
Proof. intros He. revert i. induction He as [| c es Hc He IH]; intros i; cbn [insertChunks]; [done |]. rewrite Hc. apply IH. Qed.

(** The node [create] inserts after: the last one, or [null] at first. *)
Definition last_node (L : seq) (x : ref) : Prop := L = [] \/ exists l q, L = l ++ [(x, q)].

Lemma insertLast_ok F s L x p :
  fits F s L -> last_node L x -> piece_ok (_buffers s) p -> tip (_lastChangeBufferPos s) p = false ->
  exists z s', rbt (rbInsertRight x p) s = Ret (z, s') /\ only_tr s s' /\ fits F s' (L ++ [(z, p)]).
Proof.
  intros Hf [-> | (l & q & ->)] Hp Htip.
  - destruct (holds_insertFirst F s x p (fits_holds Hf)) as (z & s' & _ & H1 & Ho & Hh).
    exists z, s'. split; [done |]. split; [done |].
    constructor; rewrite ?(only_tr_buffers _ _ Ho), ?(only_tr_last _ _ Ho); [done | apply Hf | |].
    + apply Forall_singleton. by apply piece_ok_spans.
    + cbn. rewrite Htip. lia.
  - destruct (fits_insertRight F s l x q [] p Hf) as (z & s' & H1 & Ho & Hf' & _); [by apply piece_ok_spans | |].
    { rewrite Htip. pose proof (fits_tips Hf). lia. }
    exists z, s'. split; [done |]. split; [done |]. by rewrite <- app_assoc.
Qed.

Lemma insertChunks_ok cs es F s L x :
  Forall chunk_ok cs -> Forall (fun c => StringBuffer.buffer c = []) es ->
  fits F s L -> last_node L x -> pieces_ok (_buffers s) L -> sealed (_buffers s) L -> _buffers s <> [] ->
  seam (text (_buffers s) L) (chunks_text cs) -> chunks_sealed cs ->
  exists s' L', insertChunks (zlen (_buffers s) - 1) (cs ++ es) x s = Ret (tt, s') /\ kept s s' /\
    fits F s' L' /\ pieces_ok (_buffers s') L' /\ sealed (_buffers s') L' /\
    text (_buffers s') L' = text (_buffers s) L ++ chunks_text cs /\ blen (_buffers s') = blen (_buffers s).
Proof.
  intros Hcs Hes. revert s L x. induction Hcs as [| c cs Hc Hcs IH]; intros s L x Hf Hx Hp Hs Hbs Hm Hcm.
  - exists s, L. split; [by apply insertEmptyChunks_ok |]. split; [apply kept_refl |].
    split_and!; try done. by rewrite app_nil_r.
  - rewrite chunks_text_cons in Hm. destruct Hcm as [Hcm1 Hcm].
    destruct (chunk_piece (_buffers s) c Hbs Hc) as (e & He & Hpo & Hpc & Htip).
    pose proof Hc as [Hcok Hcne]. cbn [app insertChunks].
    assert (0 <? zlen (StringBuffer.buffer c) = true) as ->.
    { apply Z.ltb_lt. pose proof (zlen_nonneg (StringBuffer.buffer c)).
      assert (zlen (StringBuffer.buffer c) <> 0); [| lia]. by intros ?%zlen_0. }
    erewrite pbind_run by (apply bufs_run; exact He). erewrite pbind_run by done. erewrite pbind_run by done.
    rewrite Z.sub_add. set (p := Piece.mk _ _ _ _ _) in *. set (s1 := set_buffers _ s).
    destruct (insertLast_ok F s1 L x p (fits_push _ _ _ _ Hf Hcok) Hx Hpo (Htip _)) as (z & s2 & H2 & Ho & Hf2).
    erewrite pbind_run by exact H2. pose proof (only_tr_buffers _ _ Ho) as Hb2.
    assert (_buffers s2 = _buffers s ++ [c]) as Hb by (by rewrite Hb2).
    pose proof (grows_keeps _ _ _ (appends_grows (_buffers s) [c]) Hp) as K.
    assert (text (_buffers s2) (L ++ [(z, p)]) = text (_buffers s) L ++ StringBuffer.buffer c) as Ht
      by (by rewrite Hb, text_app, text_one, (keeps_text _ _ _ K), Hpc).
    destruct (IH s2 (L ++ [(z, p)]) z) as (s' & L' & H3 & Hk & Hf' & Hp' & Hs' & Ht' & Hbl); try done.
    + right. by exists L, p.
    + rewrite Hb. apply Forall_app. split; [by eapply keeps_pieces_ok | by apply Forall_singleton].
    + rewrite Hb. apply sealed_app. rewrite text_one, Hpc, (keeps_text _ _ _ K).
      split_and!; [by eapply keeps_sealed | apply sealed_one | by eapply seam_of_app_r].
    + rewrite Hb. by destruct (_buffers s).
    + rewrite Ht. by apply seam_left.
    + exists s', L'. rewrite Hb, zlen_app in H3. change (zlen [c]) with 1 in H3.
      replace (zlen (_buffers s) + 1 - 1) with (zlen (_buffers s)) in H3 by lia.
      split; [exact H3 |]. split; [| split; [done |]; split; [done |]; split; [done |]; split].
      * eapply kept_trans; [| exact Hk]. eapply kept_trans; [| by apply only_tr_kept]. by destruct s.
      * rewrite Ht', Ht, chunks_text_cons. by rewrite <- app_assoc.
      * rewrite Hbl, Hb. by destruct (_buffers s).
Qed.

(** ** [create] *)

(** The sentinel of the tree module is in place; the rest of the heap may hold the
    nodes of an older document. *)
Definition has_sentinel (s : state) : Prop := heap (tr s) !! SENTINEL = Some (TreeNode.with_parent SENTINEL sentinel_node).

Lemma holds_sentinel F s L : holds F s L -> has_sentinel s.
Proof. intros (t & (Hr & _) & _). apply Hr. Qed.

Lemma blank_sentinel : has_sentinel blank.
Proof. reflexivity. Qed.

(** A new document: its cache is empty, and no line was visited. *)
Record fresh (s : state) : Prop := mkfresh {
  fr_eolLength : _EOLLength s = zlen (_EOL s);
  fr_cache : _cache s = [];
  fr_visited : _lastVisitedLine s = (0, [])
}.

(** What [create] expects of the chunks: line starts, no CR LF across two chunks,
    no text after an empty chunk, and no CR in a text that claims LF line ends. *)
Record creatable (chunks : list StringBuffer.t) (eol : jsstring) (eolNormalized : bool) : Prop := mkcreatable {
  cr_split : exists cs es, chunks = cs ++ es /\ Forall chunk_ok cs /\ Forall (fun c => StringBuffer.buffer c = []) es /\
    chunks_sealed cs;
  cr_eol : eolNormalized = true -> eol = [LineFeed] -> CarriageReturn ∉ chunks_text chunks
}.

Lemma chunks_text_empty cs es :
  Forall (fun c => StringBuffer.buffer c = []) es -> chunks_text (cs ++ es) = chunks_text cs.
Proof.
  intros He. induction cs as [| c cs IH]; cbn [app].
  - induction He as [| c es Hc He IH]; [done |]. by rewrite chunks_text_cons, Hc.
  - by rewrite !chunks_text_cons, IH.
Qed.

Lemma create_ok s chunks eol eolNormalized :
  has_sentinel s -> _limit s = 1 -> creatable chunks eol eolNormalized ->
  exists s', create chunks eol eolNormalized s = Ret (tt, s') /\ is_doc s' (chunks_text chunks) /\
    _EOL s' = eol /\ _EOLNormalized s' = eolNormalized /\ blen (_buffers s') = 0 /\ fresh s'.
Proof.
  intros Hsent Hlim [(cs & es & -> & Hcs & Hes & Hcm) Hcr]. unfold create.
  do 2 erewrite pbind_run by done. erewrite pbind_run; [| unfold rbt, set_root; cbn; reflexivity].
  do 3 erewrite pbind_run by done. set (s0 := set_EOLNormalized _ _).
  assert (fits (heap (tr s)) s0 []) as Hf.
  { constructor; [| | done | cbn; lia].
    - exists E. split; [| done]. split; [| split; [done | split; [done | by exists 0%nat]]]. constructor; [done | done | exact Hsent | |].
      + apply NoDup_singleton.
      + done.
    - split; [apply Forall_singleton; by split |]. eexists. split; [reflexivity |]. exists 0. cbn. split_and!; try done. }
  destruct (insertChunks_ok cs es (heap (tr s)) s0 [] NULL Hcs Hes Hf) as (s1 & L & H1 & Hk & Hf1 & Hp & Hs & Ht & Hbl);
    [by left | done | apply sealed_nil | done | apply seam_nil_l | done |].
  change (zlen (_buffers s0) - 1) with 0 in H1. erewrite pbind_run by exact H1. do 2 erewrite pbind_run by done.
  rewrite chunks_text_empty in Hcr |- * by done. cbn in Ht. 
  set (s2 := set_lastVisited _ _).
  assert (checks s2 = negb (eolNormalized && bool_decide (eol = [LineFeed]))) as Hch by (unfold s2; rewrite Hk; done).
  assert (docs (heap (tr s)) s2 L) as Hd.
  { constructor; [by destruct Hf1 | done | done |]. rewrite Hch. cbn. rewrite Ht.
    intros [? ?%bool_decide_eq_true]%negb_false_iff%andb_true_iff. auto. }
  destruct (finish_edit (heap (tr s)) s2 s2 L (chunks_text cs) 0 (kept_refl _) Hd) as (s3 & H3 & Hdoc & [A1 A2 A3 A4 A5 A6]);
    [done | lia | unfold s2; by rewrite Hk | done | done |].
  exists s3. split; [exact H3 |]. split; [done |].
  split_and!; [rewrite A1; unfold s2; by rewrite Hk | rewrite A2; unfold s2; by rewrite Hk | |].
  2: { constructor; [rewrite A4, A1; unfold s2; by rewrite Hk | by apply no_entries | by rewrite A6]. }
  change (blen (_buffers s2)) with (blen (_buffers s1)) in A3. rewrite Hbl in A3. change (blen (_buffers s0)) with 0 in A3.
  pose proof (blen_nonneg (_buffers s3)). lia.
Qed.

(** ** Replacing the line ends *)

Lemma replace_eol_cons eol c str :
  replace_eol eol (c :: str) =
    if c === CarriageReturn then
      eol ++ match str with
             | d :: str2 => if d === LineFeed then replace_eol eol str2 else replace_eol eol str
             | [] => []
             end
    else if c === LineFeed then eol ++ replace_eol eol str
    else c :: replace_eol eol str.
Proof. cbn. destruct (c === CarriageReturn); [| done]. destruct str as [| d str]; [by rewrite app_nil_r |]. by destruct (d === LineFeed). Qed.

Lemma replace_eol_app eol a b : seam a b -> replace_eol eol (a ++ b) = replace_eol eol a ++ replace_eol eol b.
Proof.
  remember (length a) as n eqn:Hn. revert a Hn. induction (lt_wf n) as [n _ IH]. intros a -> Hs.
  destruct a as [| c a]; [done |]. cbn [app]. rewrite !replace_eol_cons. destruct (Z.eqb_spec c CarriageReturn) as [-> | Hc].
  - destruct a as [| d a]; cbn [app].
    + rewrite app_nil_r. f_equal. destruct b as [| d b]; [done |]. destruct (Z.eqb_spec d LineFeed) as [-> |]; [| done].
      by destruct Hs.
    + destruct (d === LineFeed).
      * rewrite (IH (length a)); [by rewrite app_assoc | cbn; lia | done | by apply (seam_of_app_l [CarriageReturn; d])].
      * change (d :: a ++ b) with ((d :: a) ++ b).
        rewrite (IH (length (d :: a))); [by rewrite app_assoc | cbn; lia | done | by apply (seam_of_app_l [CarriageReturn])].
  - assert (replace_eol eol (a ++ b) = replace_eol eol a ++ replace_eol eol b) as ->; [| by destruct (c === LineFeed); rewrite ?app_assoc].
    apply (IH (length a)); [cbn; lia | done | by apply (seam_of_app_l [c])].
Qed.

(** [iterate] with a callback that keeps an invariant over the nodes it has seen. *)
Lemma iterate_inv {B} F (Inv : B -> seq -> Prop) (callback : ref -> B -> P (B * bool)) s (L : seq) c t0 fuel acc (pre post : seq) :
  reps F (tr s) (plug c t0) -> L = pre ++ nodes t0 ++ post ->
  (forall b k, Inv b k -> exists b', callback SENTINEL b s = Ret ((b', true), s) /\ Inv b' k) ->
  (forall x p b k k', L = k ++ (x, p) :: k' -> x <> SENTINEL -> piece_of x s = Ret (p, s) -> Inv b k ->
     exists b', callback x b s = Ret ((b', true), s) /\ Inv b' (k ++ [(x, p)])) ->
  (List.length (ids t0) < fuel)%nat -> Inv acc pre ->
  exists b', iterate_rec fuel (rid t0) callback acc s = Ret ((b', true), s) /\ Inv b' (pre ++ nodes t0).
Proof.
  intros Hr HL Hsent Hcb. revert c fuel acc pre post Hr HL.
  induction t0 as [| d l IHl r IHr]; intros c fuel acc pre post Hr HL Hf HI;
    (destruct fuel as [| fuel]; [lia |]); cbn [iterate_rec rid].
  - rewrite same_eq. cbn [nodes]. rewrite app_nil_r. by apply Hsent.
  - cbn in Hf. rewrite length_app in Hf. cbn in Hf.
    assert (nid d <> SENTINEL) as Hne by (eapply (reps_ids_ne (tr s) c); [exact Hr | left]).
    pose proof (reps_node _ _ _ _ _ Hr) as Hd.
    assert (node_of (nid d) s = Ret (cell d (cpar c) (rid l) (rid r), s)) as Hnode
      by (apply rbt_run, get_run; exact Hd).
    assert (piece_of (nid d) s = Ret (npiece d, s)) as Hpiece
      by (eapply piece_of_run; [exact Hr | eapply starts_at_elem, starts_at_plug]).
    cbn [nodes] in *. rewrite <- app_assoc in HL. cbn [app] in HL.
    rewrite same_ne by done. erewrite pbind_run by exact Hnode. cbn [TreeNode.left cell].
    destruct (IHl (FL d r :: c) fuel acc pre ((nid d, npiece d) :: nodes r ++ post) Hr HL ltac:(lia) HI) as (b1 & H1 & HI1).
    erewrite pbind_run by exact H1. cbn [negb snd fst].
    rewrite app_assoc in HL. destruct (Hcb _ _ _ _ _ HL Hne Hpiece HI1) as (b2 & H2 & HI2).
    erewrite pbind_run by exact H2. cbn [negb snd fst]. erewrite pbind_run by exact Hnode. cbn [TreeNode.right cell].
    destruct (IHr (FR d l :: c) fuel b2 ((pre ++ nodes l) ++ [(nid d, npiece d)]) post Hr) as (b3 & H3 & HI3);
      [by rewrite HL, <- !app_assoc | lia | done |].
    exists b3. split; [exact H3 |]. rewrite <- !app_assoc in HI3. done.
Qed.

Lemma getNodeContent_ok s x p :
  x <> SENTINEL -> piece_of x s = Ret (p, s) -> piece_ok (_buffers s) p ->
  getNodeContent x s = Ret (contents (_buffers s) p, s).
Proof.
  intros Hne Hp (b & so & eo & Hsp & _). unfold getNodeContent. rewrite same_ne by done.
  erewrite pbind_run by exact Hp. apply bufs_run. rewrite (spans_contents _ _ _ _ _ Hsp). apply (spans_content _ _ _ _ _ Hsp).
Qed.

Section Normalize.
Context (eol : jsstring).
Hypothesis Heol : eol = [LineFeed] \/ eol = [CarriageReturn; LineFeed].

Lemma replace_eol_ne str : str <> [] -> replace_eol eol str <> [].
Proof.
  destruct str as [| c str]; [done |]. intros _. rewrite replace_eol_cons.
  destruct (_ === _); [| destruct (_ === _)]; destruct Heol as [-> | ->]; done.
Qed.

(** No CR is left at the end of a part, and none at all if the line end is LF. *)
Lemma replace_eol_last str : last (replace_eol eol str) <> Some CarriageReturn.
Proof.
  remember (length str) as n eqn:Hn. revert str Hn. induction (lt_wf n) as [n _ IH]. intros str ->.
  destruct str as [| c str]; [done |].
  assert (forall k, last k <> Some CarriageReturn -> last (eol ++ k) <> Some CarriageReturn) as He.
  { intros k Hk. destruct (decide (k = [])) as [-> | Hne]; [destruct Heol as [-> | ->]; done | by rewrite last_app_ne]. }
  assert (last (replace_eol eol str) <> Some CarriageReturn) as Hstr by (apply (IH (length str)); [cbn; lia | done]).
  rewrite replace_eol_cons. destruct (Z.eqb_spec c CarriageReturn) as [-> | Hc].
  - apply He. destruct str as [| d str]; [done |]. destruct (d === LineFeed); [| done]. apply (IH (length str)); [cbn; lia | done].
  - destruct (c === LineFeed); [by apply He |]. rewrite last_cons. destruct (last (replace_eol eol str)); [done |].
    congruence.
Qed.

Lemma replace_eol_nocr str : eol = [LineFeed] -> CarriageReturn ∉ replace_eol eol str.
Proof.
  intros ->. remember (length str) as n eqn:Hn. revert str Hn. induction (lt_wf n) as [n _ IH]. intros str ->.
  destruct str as [| c str]; [by intros ?%elem_of_nil |].
  assert (CarriageReturn ∉ replace_eol [LineFeed] str) as Hstr by (apply (IH (length str)); [cbn; lia | done]).
  rewrite replace_eol_cons. destruct (Z.eqb_spec c CarriageReturn) as [-> | Hc].
  - cbn. apply not_elem_of_cons. split; [done |]. destruct str as [| d str]; [by intros ?%elem_of_nil |].
    destruct (d === LineFeed); [| done]. apply (IH (length str)); [cbn; lia | done].
  - destruct (c === LineFeed); apply not_elem_of_cons; split; done || congruence.
Qed.

(** Replacing again changes nothing, and the line breaks stay as many. *)
Lemma replace_eol_eol : replace_eol eol eol = eol /\ breaks eol = 1.
Proof. destruct Heol as [-> | ->]; done. Qed.

Lemma eol_seam k : seam eol k.
Proof. intros [H _]. destruct Heol as [-> | ->]; done. Qed.

Lemma plain_seam c k : c <> CarriageReturn -> seam [c] k.
Proof. intros Hc [H _]. by injection H. Qed.

Lemma replace_eol_idem str :
  replace_eol eol (replace_eol eol str) = replace_eol eol str /\ breaks (replace_eol eol str) = breaks str.
Proof.
  destruct replace_eol_eol as [E1 E2].
  remember (length str) as n eqn:Hn. revert str Hn. induction (lt_wf n) as [n _ IH]. intros str ->.
  assert (forall k, replace_eol eol k = k -> replace_eol eol (eol ++ k) = eol ++ k /\ breaks (eol ++ k) = 1 + breaks k) as He.
  { intros k Hk. rewrite replace_eol_app, breaks_app by apply eol_seam. by rewrite E1, E2, Hk. }
  destruct str as [| c str]; [done |]. rewrite replace_eol_cons.
  destruct (IH (length str) ltac:(cbn; lia) str eq_refl) as [IH1 IH2].
  destruct (Z.eqb_spec c CarriageReturn) as [-> | Hc].
  - destruct str as [| d str]; [apply (He [] eq_refl) |]. destruct (Z.eqb_spec d LineFeed) as [-> | Hd].
    + destruct (IH (length str) ltac:(cbn; lia) str eq_refl) as [J1 J2]. destruct (He _ J1) as [K1 K2].
      split; [done |]. rewrite K2, J2. change (CarriageReturn :: LineFeed :: str) with ([CarriageReturn; LineFeed] ++ str).
      rewrite breaks_app; [done |]. by intros [? _].
    + destruct (He _ IH1) as [K1 K2]. split; [done |]. rewrite K2, IH2.
      change (CarriageReturn :: d :: str) with ([CarriageReturn] ++ d :: str). rewrite (breaks_app [CarriageReturn]); [done |].
      intros [_ [= ->]]. done.
  - destruct (Z.eqb_spec c LineFeed) as [-> | Hl].
    + destruct (He _ IH1) as [K1 K2]. split; [done |]. rewrite K2, IH2. by rewrite breaks_cons_lf.
    + change (c :: replace_eol eol str) with ([c] ++ replace_eol eol str). change (c :: str) with ([c] ++ str).
      rewrite replace_eol_app, !breaks_app by (by apply plain_seam). rewrite IH1, IH2.
      split; [| done]. f_equal. rewrite replace_eol_cons. by rewrite (proj2 (Z.eqb_neq _ _) Hc), (proj2 (Z.eqb_neq _ _) Hl).
Qed.

(** The chunk [normalizeEOL] makes of a part of the text. *)
Notation chunk u := (StringBuffer.mk (replace_eol eol u) (createLineStartsFast (replace_eol eol u) true)).

Lemma chunk_of_ok u : u <> [] -> zlen (replace_eol eol u) < 2 ^ 31 - 1 -> chunk_ok (chunk u).
Proof.
  intros Hne Hlt. split; [| by apply replace_eol_ne]. unfold buffer_ok. cbn [StringBuffer.buffer StringBuffer.lineStarts].
  rewrite createLineStartsFast_eq by lia. split; [done |].
  rewrite zlen_cons. pose proof (breaks_le (replace_eol eol u)). unfold breaks in *. lia.
Qed.

Lemma chunks_of_sealed ts : chunks_sealed ((fun u => chunk u) <$> ts).
Proof.
  induction ts as [| u ts IH]; cbn; [done |]. split; [| done]. intros [H _]. by apply (replace_eol_last u).
Qed.

(** What the loop has put into chunks, and what it still holds back. *)
Definition gathered (s : state) (acc : jsstring * Z * list StringBuffer.t) (k : seq) : Prop :=
  let '(tempChunk, tempChunkLen, chunks) := acc in
  exists ts pre, chunks = (fun u => chunk u) <$> ts /\ tempChunkLen = zlen tempChunk /\ Forall (fun u => u <> []) ts /\
    text (_buffers s) k = pre ++ tempChunk /\
    replace_eol eol (text (_buffers s) k) = chunks_text chunks ++ replace_eol eol tempChunk.

Lemma chunks_text_snoc cs c : chunks_text (cs ++ [c]) = chunks_text cs ++ StringBuffer.buffer c.
Proof.
  induction cs as [| d cs IH]; cbn [app]; rewrite !chunks_text_cons; [by rewrite app_nil_r |]. by rewrite IH, app_assoc.
Qed.

(** One step: the next text [str], which may be empty (at a leaf). *)
Lemma gathered_step s temp len chunks k k' str :
  gathered s (temp, len, chunks) k -> text (_buffers s) k' = text (_buffers s) k ++ str -> seam (text (_buffers s) k) str ->
  let min := AverageBufferSize - AverageBufferSize / 3 in
  let acc := if (len <=? min) || (len + zlen str <? min * 2) then (temp ++ str, len + zlen str, chunks)
             else (str, zlen str, chunks ++ [chunk temp]) in
  gathered s acc k'.
Proof.
  intros (ts & pre & -> & -> & Hts & Hpre & Hrep) Hk' Hs min acc. subst acc.
  assert (seam temp str) as Hts' by (rewrite Hpre in Hs; by apply seam_of_app_l in Hs).
  assert (replace_eol eol (text (_buffers s) k') = chunks_text ((fun u => chunk u) <$> ts) ++ replace_eol eol (temp ++ str)) as Hr.
  { rewrite Hk', replace_eol_app, Hrep by done. rewrite (replace_eol_app _ temp) by done. by rewrite app_assoc. }
  destruct (_ || _) eqn:Hb.
  - exists ts, pre. split_and!; [done | by rewrite zlen_app | done | by rewrite Hk', Hpre, app_assoc | exact Hr].
  - apply orb_false_iff in Hb as [Hb%Z.leb_gt _]. exists (ts ++ [temp]), (pre ++ temp). split_and!.
    + by rewrite fmap_app.
    + done.
    + apply Forall_app. split; [done |]. apply Forall_singleton. intros ->.
      change min with 43690 in Hb. change (zlen []) with 0 in Hb. lia.
    + by rewrite Hk', Hpre.
    + rewrite Hr, chunks_text_snoc, replace_eol_app by done. by rewrite app_assoc.
Qed.

Lemma chunks_text_in cs c : c ∈ cs -> zlen (StringBuffer.buffer c) <= zlen (chunks_text cs).
Proof.
  induction cs as [| d cs IH]; [by intros ?%elem_of_nil |]. rewrite chunks_text_cons, zlen_app.
  pose proof (zlen_nonneg (chunks_text cs)). pose proof (zlen_nonneg (StringBuffer.buffer d)).
  intros [-> | Hc]%elem_of_cons; [lia | specialize (IH Hc); lia].
Qed.

Lemma normalizeEOL_ok F s L str :
  holds F s L -> pieces_ok (_buffers s) L -> sealed (_buffers s) L -> text (_buffers s) L = str -> _limit s = 1 ->
  zlen (replace_eol eol str) < 2 ^ 31 - 1 ->
  exists s', normalizeEOL eol s = Ret (tt, s') /\ is_doc s' (replace_eol eol str) /\
    _EOL s' = eol /\ _EOLNormalized s' = true /\ blen (_buffers s') = 0 /\ fresh s'.
Proof.
  intros Hh Hpk Hse Ht Hlim Hlt. unfold normalizeEOL. pose proof Hh as (t & (Hr & _) & Hn).
  erewrite pbind_run by (apply rbt_run; unfold get_root; by rewrite (reps_root _ _ Hr)).
  set (cb := fun node '(tempChunk, tempChunkLen, chunks) => _).
  destruct (iterate_inv F (gathered s) cb s L [] t (S (S (size (heap (tr s))))) ([], 0, []) [] [])
    as (acc & Hrun & Hacc); [exact Hr | by rewrite app_nil_r | | | pose proof (reps_size _ _ Hr); lia | |].
  { intros [[temp len] chunks] k HI. unfold cb. erewrite pbind_run by done.
    pose proof (gathered_step s temp len chunks k k [] HI ltac:(by rewrite app_nil_r) (seam_nil_r _)) as G. cbn zeta in G.
    destruct (_ || _) in G |- *; eexists; (split; [reflexivity | exact G]). }
  { intros x p [[temp len] chunks] k k' HLk Hx Hp HI. unfold cb.
    assert (piece_ok (_buffers s) p) as Hpok.
    { rewrite HLk in Hpk. by apply Forall_app in Hpk as [_ [? _]%Forall_cons]. }
    erewrite pbind_run by (by apply getNodeContent_ok).
    assert (seam (text (_buffers s) k) (contents (_buffers s) p)) as Hseam.
    { rewrite HLk in Hse. apply sealed_app in Hse as (_ & _ & HS). rewrite text_cons in HS. by apply seam_of_app_r in HS. }
    pose proof (gathered_step s temp len chunks k (k ++ [(x, p)]) (contents (_buffers s) p) HI
      ltac:(by rewrite text_app, text_one) Hseam) as G. cbn zeta in G.
    destruct (_ || _) in G |- *; eexists; (split; [reflexivity | exact G]). }
  { exists [], []. done. }
  erewrite pbind_run; [| unfold iterate; erewrite pbind_run by (apply rbt_run; reflexivity); exact Hrun].
  cbn [app fst] in Hacc |- *. rewrite Hn in Hacc. destruct acc as [[temp len] chunks]. rewrite <- Ht in *.
  set (cs := if 0 <? len then _ else _).
  assert (exists ts, cs = (fun u => chunk u) <$> ts /\ Forall (fun u => u <> []) ts /\ chunks_text cs = replace_eol eol (text (_buffers s) L))
    as (ts & Hcs & Hts & Hct).
  { destruct Hacc as (ts & pre & -> & -> & Hts & Hpre & Hrep). unfold cs. destruct (Z.ltb_spec 0 (zlen temp)) as [H0 | H0].
    - exists (ts ++ [temp]). split; [by rewrite fmap_app |]. split; [| by rewrite chunks_text_snoc].
      apply Forall_app. split; [done |]. apply Forall_singleton. by intros ->.
    - exists ts. split; [done |]. split; [done |]. pose proof (zlen_nonneg temp).
      assert (temp = []) as -> by (apply zlen_0; lia). by rewrite Hrep, app_nil_r. }
  destruct (create_ok s cs eol true (holds_sentinel _ _ _ Hh) Hlim) as (s' & H1 & H2 & H3).
  { constructor.
    - exists cs, []. split; [by rewrite app_nil_r |]. split; [| split; [done | rewrite Hcs; apply chunks_of_sealed]].
      rewrite Forall_forall. intros c Hc. pose proof (chunks_text_in _ _ Hc) as Hle. rewrite Hct in Hle.
      rewrite Hcs in Hc. apply list_elem_of_fmap in Hc as (u & -> & Hu). cbn [StringBuffer.buffer] in Hle.
      apply chunk_of_ok; [rewrite Forall_forall in Hts; auto | lia].
    - intros _ He. rewrite Hct. by apply replace_eol_nocr. }
  exists s'. split; [exact H1 |]. by rewrite <- Hct.
Qed.

Lemma setEOL_ok s str :
  is_doc s str -> zlen (replace_eol eol str) < 2 ^ 31 - 1 ->
  exists s', setEOL eol s = Ret (tt, s') /\ is_doc s' (replace_eol eol str) /\
    _EOL s' = eol /\ _EOLNormalized s' = true /\ blen (_buffers s') = 0 /\ fresh s'.
Proof.
  intros (F & L & Hd & Ht & _ & _ & Hlim & _) Hlt. unfold setEOL. erewrite pbind_run by done.
  eapply (normalizeEOL_ok F _ L); [apply (doc_fits Hd) | apply Hd | apply Hd | exact Ht | exact Hlim | done].
Qed.

End Normalize.
