(* ===== verification/PieceTreeChars.v ===== *)
(** * Single characters, and offsets outside of the document

    [getCharCode] of [PieceTreeBase], the text and the counts of a document, and what
    [nodeAt], [insert] and [delete] do at offsets that are not of the document. *)

From stdpp Require Import gmap.
From S2P Require Import Prelude RBTree RBTreeRep RBTreeOps RBTreeInsert RBTreeDelete RBTreeRemove.
From S2P Require Import PieceBuffers PieceTree PieceTreeEdit PieceTreeNodes PieceTreeRead PieceTreeList PieceTreeText.
From S2P Require Import PieceTreePieces PieceTreeChange PieceTreeSeal PieceTreeInsert PieceTreeDocument.
From S2P Require Import PieceTreeErase PieceTreeCreate.

(** Reading a document. *)
Lemma read_doc s str :
  is_doc s str -> getLinesRawContent s = Ret (str, s) /\ getLength s = Ret (zlen str, s) /\
    getLineCount s = Ret (1 + breaks str, s).
Proof.
  intros (F & L & Hd & Ht & Hl & Hc & _). split.
  - pose proof (fits_holds (doc_fits Hd)) as (t & (Hr & _) & Hn). subst L. rewrite <- Ht.
    unfold getLinesRawContent, getContentOfSubTree, iterate.
    erewrite pbind_run by (apply rbt_run; unfold get_root; by rewrite (reps_root _ _ Hr)).
    erewrite pbind_run; [| erewrite pbind_run by (apply rbt_run; reflexivity);
      apply (iterate_fold (fun b p => b ++ contents (_buffers s) p) _ s [] t _ [] Hr);
      [intros b; erewrite pbind_run by done; by rewrite app_nil_r | | pose proof (reps_size _ _ Hr); lia]].
    + cbn [fst]. rewrite foldl_concat. done.
    + intros x p b Hin Hne Hp. eapply content_callback; [| exact Hin | done | done].
      apply text_of_ok, (doc_pieces Hd).
  - unfold getLength, getLineCount, gets. by rewrite Hl, Hc.
Qed.

(** ** Outside of the document *)

Lemma nsize_nonneg (L : seq) : Forall (fun n => 0 <= Piece.length (snd n)) L -> 0 <= nsize L.
Proof. induction 1 as [| [y q] k Hq Hk IH]; [done |]. rewrite nsize_cons. cbn [snd] in Hq. lia. Qed.

Lemma nodeAt_descend_none F s c t0 offset fuel :
  reps F (tr s) (plug c t0) -> meta_ok t0 -> Forall (fun n => 0 <= Piece.length (snd n)) (nodes t0) ->
  offset < 0 \/ tsize t0 < offset -> (List.length (ids t0) < fuel)%nat -> forall start,
  piter fuel nodeAt_body (rid t0, offset, start) s = Ret (None, s).
Proof.
  revert c offset fuel. induction t0 as [| d l IHl r IHr]; intros c offset fuel Hr Hm Hp Ho Hf start;
    (destruct fuel as [| fuel]; [lia |]); cbn [rid].
  - apply piter_stop. unfold nodeAt_body. by rewrite same_eq.
  - cbn in Hf. rewrite length_app in Hf. cbn in Hf. cbn [nodes] in Hp.
    apply Forall_app in Hp as [Hpl [Hpd Hpr]%Forall_cons]. cbn [snd] in Hpd.
    destruct Hm as (Hsl & Hlf & Hml & Hmr). cbn [tsize] in Ho.
    pose proof (nsize_nonneg _ Hpl) as H1. pose proof (nsize_nonneg _ Hpr) as H2. rewrite <- tsize_nodes in H1, H2.
    assert (nid d <> SENTINEL) as Hne by (eapply (reps_ids_ne (tr s) c); [exact Hr | left]).
    assert (node_of (nid d) s = Ret (cell d (cpar c) (rid l) (rid r), s)) as Hnode
      by (apply rbt_run, get_run; by eapply reps_node).
    assert (piece_of (nid d) s = Ret (npiece d, s)) as Hpiece
      by (eapply piece_of_run; [exact Hr | by eapply starts_at_elem, starts_at_plug]).
    destruct Ho as [Ho | Ho].
    + erewrite piter_next; [eapply (IHl (FL d r :: c)); [exact Hr | done | done | by left | lia] |].
      unfold nodeAt_body. rewrite same_ne by done. erewrite pbind_run by exact Hnode.
      cbn [TreeNode.size_left TreeNode.left cell]. rewrite Hsl, (proj2 (Z.ltb_lt _ _)) by lia. done.
    + erewrite piter_next; [eapply (IHr (FR d l :: c)); [exact Hr | done | done | | lia] |].
      2: { unfold nodeAt_body. rewrite same_ne by done. erewrite pbind_run by exact Hnode.
           cbn [TreeNode.size_left TreeNode.left TreeNode.right cell].
           rewrite Hsl, (proj2 (Z.ltb_ge _ _)) by lia. erewrite pbind_run by exact Hpiece.
           rewrite (proj2 (Z.leb_gt _ _)) by lia. reflexivity. }
      right. lia.
Qed.

Lemma pieces_lengths bs (L : seq) : pieces_ok bs L -> Forall (fun n => 0 <= Piece.length (snd n)) L.
Proof. intros H. eapply Forall_impl; [exact H |]. intros n Hn%piece_ok_length. lia. Qed.

Lemma nodeAt_outside F s L offset :
  docs F s L -> Forall (entry_ok L) (_cache s) -> offset < 0 \/ nsize L < offset -> nodeAt offset s = Ret (None, s).
Proof.
  intros Hd Hc Ho. pose proof (fits_holds (doc_fits Hd)) as (t & (Hr & Hm & _) & HL).
  pose proof (pieces_lengths _ _ (doc_pieces Hd)) as Hlen. unfold nodeAt.
  erewrite pbind_run by (apply rbt_run; unfold get_root; by rewrite (reps_root _ _ Hr)).
  destruct (cacheGet_loop_ok s t offset (rev (_cache s)) Hr) as (r & Hg & Hres).
  { apply Forall_rev. eapply Forall_impl; [exact Hc |]. intros e He. rewrite <- HL in He. by apply entry_starts_at. }
  erewrite pbind_run; [| unfold cacheGet; erewrite pbind_run by done; exact Hg].
  destruct r as [e |].
  - exfalso. destruct Hres as (_ & p & (l1 & l2 & Hn & Hs) & Hle). rewrite <- HL in Ho. rewrite Hn in Ho.
    rewrite <- HL, Hn in Hlen. apply Forall_app in Hlen as [L1 [_ L2]%Forall_cons].
    rewrite nsize_app, nsize_cons in Ho.
    pose proof (nsize_nonneg _ L1). pose proof (nsize_nonneg _ L2). lia.
  - erewrite pbind_run by (apply rbt_run; reflexivity).
    apply (nodeAt_descend_none F s [] t); [exact Hr | done | by rewrite HL | by rewrite tsize_nodes, HL | pose proof (reps_size _ _ Hr); lia].
Qed.

Lemma nodeAt_empty F s offset :
  docs F s [] -> Forall (entry_ok []) (_cache s) -> nodeAt offset s = Ret (None, s).
Proof.
  intros Hd Hc. destruct (decide (offset < 0 \/ 0 < offset)) as [Ho | Ho]; [by eapply nodeAt_outside|].
  pose proof (fits_holds (doc_fits Hd)) as (t & (Hr & _) & ->%nodes_fst). unfold nodeAt.
  erewrite pbind_run by (apply rbt_run; unfold get_root; by rewrite (reps_root _ _ Hr)).
  assert (_cache s = []) as Hnil.
  { destruct (_cache s) as [| e es]; [done |]. apply Forall_cons in Hc as [(l1 & p & l2 & He & _) _]. by destruct l1. }
  rewrite (pbind_run _ _ s None s) by (unfold cacheGet; erewrite pbind_run by done; by rewrite Hnil). cbv iota.
  erewrite pbind_run by (apply rbt_run; reflexivity). apply piter_stop. cbn [rid]. by rewrite same_eq.
Qed.

(** ** Single characters *)

Lemma zdrop_znth {A} (l : list A) n c : znth l n = Some c -> zdrop n l = c :: zdrop (n + 1) l.
Proof.
  intros Hp. unfold zdrop, znth in *. destruct (Z.ltb_spec n 0); [done |]. rewrite (drop_S _ c) by done. f_equal. f_equal. lia.
Qed.

Lemma first_unit bs p :
  piece_ok bs p -> exists b so c, buffer_text bs p = Ret (StringBuffer.buffer b) /\
    offsetInBuffer bs (Piece.bufferIndex p) (Piece.start p) = Ret so /\
    (forall k, 0 <= k < Piece.length p -> charCodeAt (StringBuffer.buffer b) (so + k) = default (-1) (znth (contents bs p) k)) /\
    head (contents bs p) = Some c.
Proof.
  intros (b & so & eo & Hsp & Hlt & Hlf). pose proof (spans_bounds _ _ _ _ _ Hsp) as Hbd.
  pose proof (sp_length Hsp) as Hl.
  destruct (znth_is_Some (StringBuffer.buffer b) so) as [c Hc]; [lia |]. exists b, so, c. split_and!.
  - unfold buffer_text, buffer_at. by rewrite (sp_buffer Hsp).
  - eapply offsetInBuffer_ok; apply Hsp.
  - intros k Hk. unfold charCodeAt. rewrite (spans_contents _ _ _ _ _ Hsp), znth_substring by lia.
    by rewrite (proj2 (Z.ltb_lt k (eo - so))) by lia.
  - rewrite (spans_contents _ _ _ _ _ Hsp), head_substring by lia. done.
Qed.

(** [_getCharCode] at a position of the document: the unit there, or an exception
    at its end. *)
Lemma getCharCode_at F s l1 x p l2 pos :
  docs F s (l1 ++ (x, p) :: l2) -> np_node pos = x -> 0 <= np_remainder pos <= Piece.length p ->
  _getCharCode pos s = match zdrop (np_remainder pos) (contents (_buffers s) p) ++ text (_buffers s) l2 with
                       | c :: _ => Ret (c, s) | [] => Throw TypeError end.
Proof.
  intros Hd <- Hr. unfold _getCharCode. pose proof (doc_pieces Hd) as [_ [Hp Hl2]%Forall_cons]%Forall_app. cbn [snd] in Hp.
  pose proof (piece_ok_zlen _ _ Hp) as Hz.
  erewrite pbind_run by (eapply fits_piece_mid; apply (doc_fits Hd)).
  destruct (Z.eqb_spec (np_remainder pos) (Piece.length p)) as [E1 | E1].
  - rewrite E1, <- Hz, zdrop_all by lia. cbn [app]. erewrite pbind_run by (eapply holds_next; apply (doc_fits Hd)).
    destruct l2 as [| [y q] l2].
    + cbn [hd fmap list_fmap text]. pose proof (fits_holds (doc_fits Hd)) as (t & (Hrp & _) & _).
      assert (piece_of SENTINEL s = Throw TypeError) as HT.
      { unfold piece_of, rbt, get_piece, mbind, M_bind, get. by rewrite (reps_sentinel _ _ Hrp). }
      unfold mbind, P_bind. by rewrite HT.
    + apply Forall_cons in Hl2 as [Hq _]. cbn [snd] in Hq. cbn [hd fmap list_fmap fst].
      destruct (first_unit _ _ Hq) as (b & so & c & H1 & H2 & H3 & H4). rewrite text_cons.
      erewrite pbind_run by (eapply (fits_piece_mid F s (l1 ++ [(np_node pos, p)])); apply fits_cons_app; apply Hd).
      erewrite pbind_run by (apply bufs_run; exact H1). erewrite pbind_run by (apply bufs_run; exact H2).
      specialize (H3 0). rewrite Z.add_0_r in H3. rewrite H3 by (pose proof (piece_ok_length _ _ Hq); lia).
      destruct (contents (_buffers s) q) as [| c0 cs]; [done |]. done.
  - destruct (first_unit _ _ Hp) as (b & so & c & H1 & H2 & H3 & _).
    erewrite pbind_run by (apply bufs_run; exact H1). erewrite pbind_run by (apply bufs_run; exact H2).
    rewrite H3 by lia. destruct (znth_is_Some (contents (_buffers s) p) (np_remainder pos)) as [u Hu]; [lia |].
    rewrite Hu. rewrite (zdrop_znth _ _ _ Hu). done.
Qed.

(** A read changes at most the cache, and leaves no new line number in it. *)
Definition looked (s s' : state) : Prop :=
  s' = set_cache (_cache s') s /\ (forall e, e ∈ _cache s' -> ce_nodeStartLineNumber e = None \/ e ∈ _cache s).

Lemma getCharCode_ok s str offset :
  is_doc s str ->
  match znth str offset with
  | Some c => exists s', getCharCode offset s = Ret (c, s') /\ is_doc s' str /\ looked s s'
  | None => getCharCode offset s = Throw TypeError
  end.
Proof.
  intros (F & L & Hd & Ht & Hl & Hcn & Hlim & Hcl & Hc).
  pose proof (text_size _ _ (doc_pieces Hd)) as Hsz. rewrite Ht in Hsz. unfold getCharCode.
  destruct (decide (0 <= offset <= zlen str)) as [Ho | Ho].
  2: { assert (znth str offset = None) as -> by (destruct (znth str offset) eqn:Hn; [apply znth_Some in Hn; lia | done]).
       erewrite pbind_run by (eapply nodeAt_outside; [exact Hd | done | lia]). done. }
  destruct (decide (L = [])) as [-> | HL].
  { rewrite text_nil in Ht. subst str. erewrite pbind_run by (by eapply nodeAt_empty).
    unfold znth. by destruct (offset <? 0). }
  destruct (nodeAt_doc F s L offset Hd) as (pos & l1 & p & l2 & ln & H1 & Hln & HL2 & H3 & H4 & H5); try done; [lia |].
  erewrite pbind_run by exact H1. erewrite pbind_run by done. rewrite HL2 in *.
  set (s1 := set_cache _ s). assert (docs F s1 (l1 ++ (np_node pos, p) :: l2)) as Hd1 by (by eapply docs_ext; [.. | exact Hd]).
  rewrite (getCharCode_at F s1 l1 (np_node pos) p l2 pos Hd1 eq_refl H5).
  pose proof (doc_pieces Hd) as [O1 [O2 _]%Forall_cons]%Forall_app.
  destruct (split_text (_buffers s) l1 (np_node pos) p l2 (np_remainder pos) O1 O2 H5) as [_ T2].
  rewrite H4, Ht in T2. change (_buffers s1) with (_buffers s). rewrite <- T2.
  destruct (znth str offset) as [c |] eqn:Hn.
  - rewrite (zdrop_znth _ _ _ Hn). eexists. split; [reflexivity |].
    split; [| split; [done |]; cbn; intros e ->%list_elem_of_singleton; destruct Hln as [-> | ?]; [by left | by right]].
    exists F, (l1 ++ (np_node pos, p) :: l2). split; [done |]. cbn. split_and!; try done. apply Forall_singleton. by exists l1, p, l2.
  - rewrite zdrop_all; [done |]. destruct (decide (offset < zlen str)); [| lia].
    destruct (znth_is_Some str offset) as [? H]; [lia | congruence].
Qed.

Lemma insert_outside s str offset value flag :
  is_doc s str -> str <> [] -> offset < 0 \/ zlen str < offset -> insert offset value flag s = Throw TypeError.
Proof.
  intros (F & L & Hd & Ht & _ & _ & _ & _ & Hc) Hne Ho. unfold insert. do 3 erewrite pbind_run by done.
  set (s0 := set_lastVisited _ _).
  assert (checks s0 = false -> checks s = false) as Hch.
  { unfold checks, s0. cbn. intros H%negb_false_iff. apply andb_true_iff in H as [[-> _]%andb_true_iff ->]. done. }
  assert (docs F s0 L) as Hd0 by (by eapply docs_ext; [.. | exact Hd]).
  destruct (holds_root s0 L (fits_holds (doc_fits Hd0))) as (r & Hr & Hrs).
  erewrite pbind_run by exact Hr. rewrite Hrs. rewrite bool_decide_eq_false_2; [| intros ->; by rewrite text_nil in Ht]. cbn [negb].
  erewrite pbind_run by (eapply nodeAt_outside; [exact Hd0 | done | rewrite (text_size _ _ (doc_pieces Hd)), Ht; exact Ho]).
  done.
Qed.

Lemma delete_outside s str offset cnt :
  is_doc s str -> str <> [] -> 0 < cnt -> offset < 0 \/ zlen str < offset + cnt -> delete offset cnt s = Throw TypeError.
Proof.
  intros Hdoc Hne Hcnt Ho. unfold delete. erewrite pbind_run by done.
  apply (is_doc_visited _ _ (0, [])) in Hdoc. set (s0 := set_lastVisited _ s) in *.
  destruct Hdoc as (F & L & Hd & Ht & _ & _ & Hlim & Hcl & Hc).
  pose proof (text_size _ _ (doc_pieces Hd)) as Hsz. rewrite Ht in Hsz.
  assert (L <> []) as HL by (intros ->; by rewrite text_nil in Ht).
  destruct (holds_root s0 L (fits_holds (doc_fits Hd))) as (r & Hr & Hrs).
  erewrite pbind_run by exact Hr. rewrite Hrs, bool_decide_eq_false_2, (proj2 (Z.leb_gt cnt 0)) by done. cbn [orb].
  assert (exists r1 s1 r2 s2, nodeAt offset s0 = Ret (r1, s1) /\ nodeAt (offset + cnt) s1 = Ret (r2, s2) /\ (r1 = None \/ r2 = None))
    as (r1 & s1 & r2 & s2 & H1 & H2 & Hn).
  { assert (forall s1 o, docs F s1 L -> Forall (entry_ok L) (_cache s1) -> _limit s1 = 1 -> zlen (_cache s1) <= 1 ->
      exists r s2, nodeAt o s1 = Ret (r, s2) /\ docs F s2 L /\ Forall (entry_ok L) (_cache s2) /\ _limit s2 = 1 /\ zlen (_cache s2) <= 1 /\
        (o < 0 \/ nsize L < o -> r = None)) as Hany.
    { intros s1 o Hd1 Hc1 Hlim1 Hcl1. destruct (decide (0 <= o <= nsize L)) as [Hin | Hout].
      - destruct (nodeAt_doc F s1 L o Hd1) as (pos & l1 & p & l2 & ln & H1 & _ & HL2 & _); try done.
        eexists _, _. split; [exact H1 |]. split; [by eapply docs_ext; [.. | exact Hd1] |].
        split; [apply Forall_singleton; by exists l1, p, l2 |]. split_and!; [done | done | lia].
      - exists None, s1. split; [eapply nodeAt_outside; [exact Hd1 | exact Hc1 | lia] |]. done. }
    destruct (Hany s0 offset Hd Hc Hlim Hcl) as (r1 & s1 & H1 & Hd1 & Hc1 & Hlim1 & Hcl1 & Hr1).
    destruct (Hany s1 (offset + cnt) Hd1 Hc1 Hlim1 Hcl1) as (r2 & s2 & H2 & _ & _ & _ & _ & Hr2).
    exists r1, s1, r2, s2. split_and!; [done | done |]. rewrite Hsz in Hr1, Hr2.
    destruct Ho; [left; apply Hr1; lia | right; apply Hr2; lia]. }
  erewrite pbind_run by exact H1. erewrite pbind_run by exact H2.
  destruct Hn as [-> | ->]; [done |]. by destruct r1.
Qed.

Lemma insert_anywhere_empty s offset value flag :
  is_doc s [] -> insert offset value flag s = insert 0 value flag s.
Proof.
  intros (F & L & Hd & Ht & _). set (s0 := set_lastVisited (0, []) (set_EOLNormalized (_EOLNormalized s && flag) s)).
  assert (L = []) as ->.
  { destruct L as [| [x p] L]; [done |]. exfalso. pose proof (doc_pieces Hd) as [Hp _]%Forall_cons.
    apply piece_ok_ne in Hp. rewrite text_cons in Ht. by apply app_nil in Ht as [? _]. }
  assert (holds F s0 []) as Hh by (destruct (fits_holds (doc_fits Hd)) as (t & Hv & Hn); by exists t).
  destruct (holds_root s0 [] Hh) as (r & Hr & Hrs).
  assert (forall o, insert o value flag s = (pieces ← createNewPieces value; p0 ← nonnull (head pieces);
    node ← rbt (rbInsertLeft NULL p0); insertAllRight node (tail pieces);; computeBufferMetadata) s0) as Hi; [| by rewrite !Hi].
  intros o. unfold insert. do 3 erewrite pbind_run by done. erewrite pbind_run by exact Hr. by rewrite Hrs.
Qed.
