(* ===== verification/PieceTreeLines.v ===== *)
(** * Lines and offsets of a document

    [getOffsetAt] and [getPositionAt] of [PieceTreeBase] convert between offsets
    and positions by walking the tree with the line feed counts.  They agree with
    the line starts of the text, and they invert each other. *)

From stdpp Require Import gmap.
From S2P Require Import Prelude Position RBTree RBTreeRep RBTreeOps RBTreeInsert RBTreeDelete RBTreeRemove.
From S2P Require Import PieceBuffers PieceTree PieceTreeEdit PieceTreeNodes PieceTreeRead PieceTreeList PieceTreeText.
From S2P Require Import PieceTreePieces PieceTreeChange PieceTreeSeal PieceTreeInsert PieceTreeDocument.
From S2P Require Import PieceTreeErase PieceTreeCreate PieceTreeChars.

(** ** The line starts of a text *)

(** Where the line after the break number [i] (from 0) starts; 0 for [-1], the end
    of the text if there are not that many breaks. *)
Definition lstart (str : jsstring) (i : Z) : Z :=
  if i <? 0 then 0 else default (zlen str) (znth (lineStarts_loop 0 str) i).

(** The number of breaks that end at the offset or before it. *)
Definition lines_upto (str : jsstring) (o : Z) : Z := zlen (filter (fun k => k <= o) (lineStarts_loop 0 str)).

Lemma starts_app a b :
  seam a b -> lineStarts_loop 0 (a ++ b) = lineStarts_loop 0 a ++ ((fun k => k + zlen a) <$> lineStarts_loop 0 b).
Proof.
  intros Hs. rewrite lineStarts_loop_app by done. f_equal. by rewrite <- lineStarts_loop_shift, Z.add_0_l.
Qed.

Lemma starts_bounds str k : k ∈ lineStarts_loop 0 str -> 1 <= k <= zlen str.
Proof. intros H%lineStarts_loop_spec. rewrite Z.sub_0_r in H. by apply breaks_at_pos in H. Qed.

Lemma znth_fmap {A B} (f : A -> B) (l : list A) i : znth (f <$> l) i = f <$> znth l i.
Proof. unfold znth. destruct (i <? 0); [done |]. apply list_lookup_fmap. Qed.

Lemma filter_none {A} (Q : A -> Prop) `{!forall x, Decision (Q x)} (l : list A) : (forall x, x ∈ l -> ~ Q x) -> filter Q l = [].
Proof.
  induction l as [| x l IH]; [done |]. intros Hq. rewrite filter_cons_False by (apply Hq; left).
  apply IH. intros y Hy. apply Hq. by right.
Qed.

Lemma filter_all {A} (Q : A -> Prop) `{!forall x, Decision (Q x)} (l : list A) : (forall x, x ∈ l -> Q x) -> filter Q l = l.
Proof.
  induction l as [| x l IH]; [done |]. intros Hq. rewrite filter_cons_True by (apply Hq; left).
  f_equal. apply IH. intros y Hy. apply Hq. by right.
Qed.

Lemma lstart_neg str i : i < 0 -> lstart str i = 0.
Proof. intros H. unfold lstart. by rewrite (proj2 (Z.ltb_lt _ _) H). Qed.

Lemma lstart_high str i : 0 <= i -> breaks str <= i -> lstart str i = zlen str.
Proof.
  intros H0 H. unfold lstart. rewrite (proj2 (Z.ltb_ge _ _) H0).
  destruct (znth _ i) eqn:E1; [| done]. apply znth_Some in E1. unfold breaks in H. lia.
Qed.

Lemma lstart_bounds str i : 0 <= lstart str i <= zlen str.
Proof.
  pose proof (zlen_nonneg str). unfold lstart. destruct (Z.ltb_spec i 0); [lia |].
  destruct (znth _ i) as [k |] eqn:Hk; [change (0 <= k <= zlen str) | change (0 <= zlen str <= zlen str); lia].
  assert (k ∈ lineStarts_loop 0 str) as Hin by (apply elem_znth; eauto). apply starts_bounds in Hin. lia.
Qed.

Lemma lstart_app_l a b i : seam a b -> i < breaks a -> lstart (a ++ b) i = lstart a i.
Proof.
  intros Hs Hi. unfold lstart. destruct (Z.ltb_spec i 0); [done |]. rewrite starts_app by done.
  rewrite znth_app_l by done. destruct (znth_is_Some (lineStarts_loop 0 a) i) as [k Hk]; [done |]. by rewrite Hk.
Qed.

Lemma lstart_app_r a b i : seam a b -> 0 <= i -> breaks a <= i -> lstart (a ++ b) i = zlen a + lstart b (i - breaks a).
Proof.
  intros Hs H0 Hi. unfold lstart. rewrite (proj2 (Z.ltb_ge i 0)), (proj2 (Z.ltb_ge (i - breaks a) 0)) by lia.
  rewrite starts_app, znth_app_r by done. unfold breaks. rewrite znth_fmap.
  destruct (znth _ (i - _)); cbn; [lia | by rewrite zlen_app].
Qed.

Lemma lines_app_l a b o : seam a b -> o <= zlen a -> lines_upto (a ++ b) o = lines_upto a o.
Proof.
  intros Hs Ho. unfold lines_upto. rewrite starts_app, filter_app by done.
  assert (filter (fun k => k <= o) ((fun k => k + zlen a) <$> lineStarts_loop 0 b) = []) as ->; [| by rewrite app_nil_r].
  apply filter_none. intros x (k & -> & Hk%starts_bounds)%list_elem_of_fmap. lia.
Qed.

Lemma filter_shift (l : list Z) d o : zlen (filter (fun k => k <= o) ((fun k => k + d) <$> l)) = zlen (filter (fun k => k <= o - d) l).
Proof.
  induction l as [| x l IH]; [done |]. rewrite fmap_cons, !filter_cons.
  destruct (decide (x + d <= o)), (decide (x <= o - d)); try lia; rewrite ?zlen_cons; lia.
Qed.

Lemma lines_app_r a b o : seam a b -> zlen a <= o -> lines_upto (a ++ b) o = breaks a + lines_upto b (o - zlen a).
Proof.
  intros Hs Ho. unfold lines_upto. rewrite starts_app, filter_app, zlen_app, filter_shift by done.
  rewrite (filter_all _ (lineStarts_loop 0 a)); [done |]. intros x Hx%starts_bounds. lia.
Qed.

Lemma lines_upto_bounds str o : 0 <= lines_upto str o <= breaks str.
Proof.
  unfold lines_upto, breaks. split; [apply zlen_nonneg |]. unfold zlen.
  pose proof (length_filter (fun k => k <= o) (lineStarts_loop 0 str)). lia.
Qed.

Lemma lines_upto_end str o : zlen str <= o -> lines_upto str o = breaks str.
Proof. intros Ho. unfold lines_upto. rewrite filter_all; [done |]. intros x Hx%starts_bounds. lia. Qed.

(** The breaks up to an offset are the first ones. *)
Lemma filter_prefix (l : list Z) o :
  StronglySorted Z.lt l -> filter (fun k => k <= o) l = ztake (zlen (filter (fun k => k <= o) l)) l /\
  (forall k, znth l (zlen (filter (fun k => k <= o) l)) = Some k -> o < k).
Proof.
  induction 1 as [| x l Hs [IH1 IH2] Hf]; [done |]. rewrite filter_cons. destruct (decide (x <= o)) as [Hx | Hx].
  - rewrite zlen_cons. pose proof (zlen_nonneg (filter (fun k => k <= o) l)).
    split.
    + unfold ztake in *. rewrite Z2Nat.inj_add by lia. change (Z.to_nat 1) with 1%nat. cbn [Nat.add firstn]. f_equal. exact IH1.
    + intros k. rewrite znth_cons_S by lia. rewrite Z.add_simpl_l. apply IH2.
  - rewrite filter_none; [split; [done |]; intros k; rewrite znth_cons_0; intros [= <-]; lia |].
    intros y Hy. rewrite Forall_forall in Hf. specialize (Hf y Hy). lia.
Qed.

Lemma starts_sorted str : StronglySorted Z.lt (lineStarts_loop 0 str).
Proof. pose proof (lineStarts_loop_sorted str 0) as H. by apply StronglySorted_inv in H as [? _]. Qed.

(** The line of an offset: it starts at the offset or before it, and the next line
    starts behind it. *)
Lemma lines_upto_line str o :
  0 <= o <= zlen str ->
  lstart str (lines_upto str o - 1) <= o /\ (lines_upto str o < breaks str -> o < lstart str (lines_upto str o)).
Proof.
  intros Ho. destruct (filter_prefix _ o (starts_sorted str)) as [H1 H2]. pose proof (lines_upto_bounds str o) as Hb.
  fold (lines_upto str o) in H1, H2. split.
  - unfold lstart. destruct (Z.ltb_spec (lines_upto str o - 1) 0); [lia |].
    destruct (znth_is_Some (lineStarts_loop 0 str) (lines_upto str o - 1)) as [k Hk]; [unfold breaks in Hb; lia |].
    rewrite Hk. cbn. assert (k ∈ filter (fun k => k <= o) (lineStarts_loop 0 str)) as Hin.
    { rewrite H1. apply elem_znth. exists (lines_upto str o - 1). rewrite znth_ztake by lia. done. }
    by apply list_elem_of_filter in Hin as [? _].
  - intros Hlt. unfold lstart. destruct (Z.ltb_spec (lines_upto str o) 0); [lia |].
    destruct (znth_is_Some (lineStarts_loop 0 str) (lines_upto str o)) as [k Hk]; [unfold breaks in Hlt; lia |].
    rewrite Hk. cbn. by apply H2.
Qed.

(** ** One piece *)

Lemma piece_starts bs p b so eo :
  spans bs p b so eo -> so < eo ->
  let n := BufferCursor.line (Piece.end_ p) - BufferCursor.line (Piece.start p) in
  let A := ztake n (zdrop (BufferCursor.line (Piece.start p) + 1) (StringBuffer.lineStarts b)) in
  zlen A = n /\
  ((lineStarts_loop 0 (contents bs p) = (fun k => k - so) <$> A /\ breaks (contents bs p) = n) \/
   (lineStarts_loop 0 (contents bs p) = ((fun k => k - so) <$> A) ++ [eo - so] /\ breaks (contents bs p) = n + 1 /\
    splits_crlf (StringBuffer.buffer b) eo)).
Proof.
  intros Hsp Hlt n A. pose proof (spans_bounds _ _ _ _ _ Hsp) as Hbd. rewrite (spans_contents _ _ _ _ _ Hsp).
  destruct (range_starts b _ so _ eo (sp_ok Hsp) (sp_start Hsp) (sp_end Hsp)) as [Hy Hn]; [lia |]. fold n A in Hy, Hn.
  assert (forall l : list Z, (fun k => k - so) <$> ((fun k => so + k) <$> l) = l) as Hinv.
  { intros l. rewrite <- list_fmap_compose. rewrite <- (list_fmap_id l) at 2. apply list_fmap_ext. intros i k _. unfold compose, id. lia. }
  assert (zlen A = n) as HA.
  { pose proof (cursor_line_mono b _ _ _ _ (proj1 (buffer_starts_ok b (sp_ok Hsp))) (sp_start Hsp) (sp_end Hsp) ltac:(lia)) as Hl.
    destruct (sp_start Hsp) as (? & B1%znth_Some & _), (sp_end Hsp) as (? & B2%znth_Some & _).
    unfold A. rewrite zlen_ztake; [unfold n; lia |]. rewrite zlen_zdrop; unfold n; lia. }
  split; [done |]. unfold breaks. destruct (splits_crlf_dec (StringBuffer.buffer b) eo) as [Hs | Hs].
  - right. rewrite <- (Hinv (lineStarts_loop 0 _)), (Hy Hs). split; [by rewrite fmap_app |]. split; [| done].
    unfold zlen in *. rewrite length_fmap, length_app. cbn. lia.
  - left. rewrite <- (Hinv (lineStarts_loop 0 _)), (Hn Hs). split; [done |].
    unfold zlen in *. by rewrite length_fmap.
Qed.

Lemma znth_take_drop {A} (l : list A) n k i : 0 <= i < n -> 0 <= k -> znth (ztake n (zdrop k l)) i = znth l (k + i).
Proof.
  intros Hi Hk. rewrite znth_ztake by lia. unfold znth, zdrop. rewrite !(proj2 (Z.ltb_ge _ _)) by lia.
  rewrite lookup_drop. f_equal. lia.
Qed.

Lemma getAccumulatedValue_ok bs p i :
  piece_ok bs p -> getAccumulatedValue bs p i = Ret (lstart (contents bs p) i).
Proof.
  intros (b & so & eo & Hsp & Hlt & _). unfold getAccumulatedValue, lstart. destruct (Z.ltb_spec i 0) as [Hi | Hi]; [done |].
  destruct (piece_starts bs p b so eo Hsp Hlt) as [HA Hst]. pose proof (spans_zlen _ _ _ _ _ Hsp) as Hz.
  rewrite (sp_length Hsp) in Hz.
  unfold buffer_at. rewrite (sp_buffer Hsp). cbn [js_get res_bind].
  destruct (sp_start Hsp) as (s & Hs & Eso & _). destruct (sp_end Hsp) as (e & He & Eeo & _).
  rewrite (proj2 (num_at_Ret _ _ _) Hs). cbn [res_bind]. pose proof (znth_Some _ _ _ Hs) as Hl.
  set (n := BufferCursor.line (Piece.end_ p) - BufferCursor.line (Piece.start p)) in *.
  set (A := ztake n _) in *.
  destruct (Z.ltb_spec (BufferCursor.line (Piece.end_ p)) (BufferCursor.line (Piece.start p) + i + 1)) as [Hx | Hx].
  - rewrite (proj2 (num_at_Ret _ _ _) He). cbn [res_bind]. f_equal. rewrite Hz.
    replace (e + _ - s - _) with (eo - so) by lia.
    destruct Hst as [[-> _] | (-> & _ & _)].
    + destruct (znth _ i) eqn:E1; [| done]. apply znth_Some in E1. unfold zlen in *. rewrite length_fmap in E1. unfold n in *. lia.
    + destruct (decide (i = n)) as [-> | Hne].
      * rewrite znth_mid; [done |]. unfold zlen in *. by rewrite length_fmap.
      * destruct (znth _ i) eqn:E1; [| done]. apply znth_Some in E1. rewrite zlen_app in E1. change (zlen [eo - so]) with 1 in E1.
        unfold zlen in *. rewrite length_fmap in E1. unfold n in *. lia.
  - assert (znth A i = znth (StringBuffer.lineStarts b) (BufferCursor.line (Piece.start p) + i + 1)) as HAi.
    { unfold A. rewrite znth_take_drop by (unfold n; lia). f_equal. lia. }
    destruct (znth_is_Some A i) as [k Hk]; [unfold n in *; lia |]. rewrite Hk in HAi. symmetry in HAi.
    rewrite (proj2 (num_at_Ret _ _ _) HAi). cbn [res_bind]. f_equal.
    assert (znth ((fun k => k - so) <$> A) i = Some (k - so)) as Hki by (by rewrite znth_fmap, Hk).
    destruct Hst as [[-> _] | (-> & _ & _)]; [rewrite Hki; cbn; lia |].
    rewrite znth_app_l by (unfold zlen in *; rewrite length_fmap; unfold n in *; lia). rewrite Hki. cbn. lia.
Qed.

(** ** [getOffsetAt] *)

Definition getOffsetAt_body (column : Z) (st : ref * Z * Z) : P ((ref * Z * Z) + Z) :=
  let '(x, lineNumber, leftLen) := st in
  if same x SENTINEL then mret (inr leftLen) else
  n ← node_of x;
  if negb (same (TreeNode.left n) SENTINEL) && (lineNumber <=? TreeNode.lf_left n + 1) then
    mret (inl (TreeNode.left n, lineNumber, leftLen))
  else
    p ← piece_of x;
    if lineNumber <=? TreeNode.lf_left n + Piece.lineFeedCnt p + 1 then
      let leftLen := leftLen + TreeNode.size_left n in
      acc ← bufs (fun bs => getAccumulatedValue bs p (lineNumber - TreeNode.lf_left n - 2));
      mret (inr (leftLen + (acc + column - 1)))
    else
      mret (inl (TreeNode.right n, lineNumber - (TreeNode.lf_left n + Piece.lineFeedCnt p),
                 leftLen + (TreeNode.size_left n + Piece.length p))).

(** The offset in a subtree with the text [str]. *)
Definition offset_in (str : jsstring) (lineNumber column : Z) : Z :=
  if lineNumber - 2 <? breaks str then lstart str (lineNumber - 2) + column - 1 else zlen str.

(** What a tree of nodes says about their text. *)
Lemma tree_text bs d l r :
  pieces_ok bs (nodes (T d l r)) -> sealed bs (nodes (T d l r)) ->
  let a := text bs (nodes l) in let c := contents bs (npiece d) in let e := text bs (nodes r) in
  text bs (nodes (T d l r)) = a ++ c ++ e /\ seam a c /\ seam a (c ++ e) /\ seam c e /\
  tsize l = zlen a /\ tlf l = breaks a /\ Piece.length (npiece d) = zlen c /\ Piece.lineFeedCnt (npiece d) = breaks c /\
  piece_ok bs (npiece d) /\ pieces_ok bs (nodes l) /\ pieces_ok bs (nodes r) /\ sealed bs (nodes l) /\ sealed bs (nodes r).
Proof.
  intros HP HS a c e. cbn [nodes] in HP, HS |- *. apply Forall_app in HP as [Pl [Pd Pr]%Forall_cons]. cbn [snd] in Pd.
  apply sealed_app in HS as (Sl & [Sr Sc]%sealed_cons & Sm).
  rewrite text_app, text_cons. rewrite text_cons in Sm.
  assert (Piece.lineFeedCnt (npiece d) = breaks c) as Hlf by (by destruct Pd as (b & so & eo & _ & _ & ?)).
  split_and!; try done.
  - by apply seam_of_app_r in Sm.
  - rewrite tsize_nodes. by apply text_size.
  - rewrite tlf_nodes. by apply breaks_text.
  - symmetry. by apply piece_ok_zlen.
Qed.

Lemma offset_in_app a b n col :
  seam a b -> breaks a <= n - 2 -> 0 <= n - 2 -> zlen a + offset_in b (n - breaks a) col = offset_in (a ++ b) n col.
Proof.
  intros Hs Hn H0. unfold offset_in. rewrite breaks_app, zlen_app by done.
  replace (n - breaks a - 2) with (n - 2 - breaks a) by lia.
  destruct (Z.ltb_spec (n - 2 - breaks a) (breaks b)), (Z.ltb_spec (n - 2) (breaks a + breaks b)); try lia.
  rewrite lstart_app_r by (done || lia). lia.
Qed.

Lemma offset_in_l a b n col : seam a b -> n - 2 < breaks a -> offset_in (a ++ b) n col = offset_in a n col.
Proof.
  intros Hs Hn. unfold offset_in. rewrite breaks_app, lstart_app_l by done. pose proof (breaks_nonneg b).
  rewrite !(proj2 (Z.ltb_lt _ _)) by lia. done.
Qed.

Definition is_leaf (t : rtree) : bool := match t with E => true | T _ _ _ => false end.

Lemma is_leaf_spec t : if is_leaf t then t = E else t <> E.
Proof. by destruct t. Qed.

Lemma leaf_left F s c d l r : reps F (tr s) (plug c (T d l r)) -> same (rid l) SENTINEL = is_leaf l.
Proof.
  intros Hr. destruct l as [| dl ll lr]; [done |]. rewrite same_ne; [done |]. cbn [rid].
  eapply (reps_ids_ne (tr s) (FL d r :: c)); [exact Hr | left].
Qed.

Lemma leaf_right F s c d l r : reps F (tr s) (plug c (T d l r)) -> same (rid r) SENTINEL = is_leaf r.
Proof.
  intros Hr. destruct r as [| dr rl rr]; [done |]. rewrite same_ne; [done |]. cbn [rid].
  eapply (reps_ids_ne (tr s) (FR d l :: c)); [exact Hr | left].
Qed.

Lemma getOffsetAt_descend F s c t0 lineNumber column leftLen fuel :
  reps F (tr s) (plug c t0) -> meta_ok t0 -> pieces_ok (_buffers s) (nodes t0) -> sealed (_buffers s) (nodes t0) ->
  t0 <> E -> (List.length (ids t0) < fuel)%nat ->
  piter fuel (getOffsetAt_body column) (rid t0, lineNumber, leftLen) s
  = Ret (leftLen + offset_in (text (_buffers s) (nodes t0)) lineNumber column, s).
Proof.
  revert c lineNumber leftLen fuel. induction t0 as [| d l IHl r IHr]; intros c lineNumber leftLen fuel Hr Hm Hp Hs Ht Hf; [done |].
  destruct fuel as [| fuel]; [cbn in Hf; lia |]. cbn in Hf. rewrite length_app in Hf. cbn in Hf.
  destruct Hm as (Hsl & Hlf & Hml & Hmr).
  destruct (tree_text _ _ _ _ Hp Hs) as (Htx & Sac & Sace & Sce & Tl & Fl & Ld & Fd & Pd & Pl & Pr & Sl & Sr).
  set (a := text _ (nodes l)) in *. set (u := contents _ _) in *. set (e := text _ (nodes r)) in *.
  assert (nid d <> SENTINEL) as Hne by (eapply (reps_ids_ne (tr s) c); [exact Hr | left]).
  assert (node_of (nid d) s = Ret (cell d (cpar c) (rid l) (rid r), s)) as Hnode
    by (apply rbt_run, get_run; by eapply reps_node).
  assert (piece_of (nid d) s = Ret (npiece d, s)) as Hpiece
    by (eapply piece_of_run; [exact Hr | by eapply starts_at_elem, starts_at_plug]).
  pose proof (leaf_left _ _ _ _ _ _ Hr) as Hl. pose proof (is_leaf_spec l) as HEl. pose proof (is_leaf_spec r) as HEr.
  pose proof (breaks_nonneg a). pose proof (breaks_nonneg u). pose proof (breaks_nonneg e). rewrite Htx. cbn [rid].
  destruct (negb (is_leaf l) && (lineNumber <=? breaks a + 1)) eqn:Hleft.
  - apply andb_true_iff in Hleft as [HlE%negb_true_iff Hle%Z.leb_le]. rewrite HlE in HEl.
    erewrite piter_next.
    2: { unfold getOffsetAt_body. rewrite same_ne by done. erewrite pbind_run by exact Hnode.
         cbn [TreeNode.left TreeNode.lf_left cell]. rewrite Hl, Hlf, Fl, HlE, (proj2 (Z.leb_le _ _) Hle).
         reflexivity. }
    rewrite (IHl (FL d r :: c)) by (done || lia). by rewrite (offset_in_l a) by (done || lia).
  - destruct (Z.leb_spec lineNumber (breaks a + breaks u + 1)) as [Hin | Hout].
    + apply piter_stop. unfold getOffsetAt_body. rewrite same_ne by done. erewrite pbind_run by exact Hnode.
      cbn [TreeNode.left TreeNode.lf_left TreeNode.size_left cell]. rewrite Hl, Hlf, Fl, Hleft.
      erewrite pbind_run by exact Hpiece. rewrite Fd, (proj2 (Z.leb_le _ _) Hin).
      erewrite pbind_run by (apply bufs_run; by apply getAccumulatedValue_ok). fold u.
      unfold mret, P_ret. do 3 f_equal. rewrite Hsl, Tl.
      apply andb_false_iff in Hleft as [HE | Hgt%Z.leb_gt].
      * apply negb_false_iff in HE. rewrite HE in HEl. subst l. cbn [nodes] in a. unfold a in *. rewrite text_nil in *.
        change (zlen []) with 0. change (breaks []) with 0 in *. cbn [app]. rewrite (offset_in_l u) by (done || lia).
        unfold offset_in. rewrite (proj2 (Z.ltb_lt _ _)) by lia. rewrite Z.sub_0_r. lia.
      * rewrite <- (offset_in_app a) by (done || lia). rewrite (offset_in_l u) by (done || lia).
        unfold offset_in. rewrite (proj2 (Z.ltb_lt _ _)) by lia. replace (lineNumber - breaks a - 2) with (lineNumber - 2 - breaks a) by lia. lia.
    + erewrite piter_next.
      2: { unfold getOffsetAt_body. rewrite same_ne by done. erewrite pbind_run by exact Hnode.
           cbn [TreeNode.left TreeNode.right TreeNode.lf_left TreeNode.size_left cell]. rewrite Hl, Hlf, Fl, Hleft.
           erewrite pbind_run by exact Hpiece. rewrite Fd, (proj2 (Z.leb_gt _ _) Hout), Hsl, Tl, Ld. reflexivity. }
      assert (seam (a ++ u) e) as Saue by (destruct (decide (u = [])) as [Hu |]; [| by apply seam_left]; exfalso; by apply (piece_ok_ne _ _ Pd)).
      rewrite (app_assoc a), <- (offset_in_app (a ++ u)) by (rewrite ?breaks_app by done; done || lia).
      rewrite zlen_app, breaks_app by done. destruct (is_leaf r); [subst r |].
      * destruct fuel; [lia |]. cbn [rid]. unfold e. cbn [nodes]. rewrite text_nil.
        erewrite piter_stop by (unfold getOffsetAt_body; by rewrite same_eq). unfold offset_in.
        change (breaks []) with 0. rewrite (proj2 (Z.ltb_ge _ _)) by lia. change (zlen []) with 0. do 2 f_equal. lia.
      * rewrite (IHr (FR d l :: c)) by (done || lia). do 2 f_equal. fold e. lia.
Qed.

Lemma getOffsetAt_ok s str lineNumber column :
  is_doc s str -> str <> [] -> getOffsetAt lineNumber column s = Ret (offset_in str lineNumber column, s).
Proof.
  intros (F & L & Hd & Ht & _) Hne. pose proof (fits_holds (doc_fits Hd)) as (t & (Hr & Hm & _) & Hn). unfold getOffsetAt.
  erewrite pbind_run by (apply rbt_run; unfold get_root; by rewrite (reps_root _ _ Hr)).
  erewrite pbind_run by (apply rbt_run; reflexivity).
  etransitivity; [apply (getOffsetAt_descend F s [] t lineNumber column 0 (S (S (size (heap (tr s)))))) |].
  - exact Hr.
  - done.
  - rewrite Hn. apply Hd.
  - rewrite Hn. apply Hd.
  - intros ->. apply Hne. rewrite <- Ht, <- Hn. done.
  - pose proof (reps_size _ _ Hr). lia.
  - by rewrite Hn, Ht.
Qed.

(** ** [getPositionAt] *)

Lemma count_upto (l : list Z) o m :
  StronglySorted Z.lt l -> 0 <= m <= zlen l -> (0 < m -> exists k, znth l (m - 1) = Some k /\ k <= o) ->
  (forall k, znth l m = Some k -> o < k) -> zlen (filter (fun k => k <= o) l) = m.
Proof.
  intros HS Hm Hlo Hhi. destruct (filter_prefix l o HS) as [H1 H2]. set (n := zlen (filter _ l)) in *.
  assert (0 <= n <= zlen l) as Hn.
  { split; [apply zlen_nonneg |]. unfold n, zlen. pose proof (length_filter (fun k => k <= o) l). lia. }
  destruct (Z.lt_trichotomy n m) as [Hlt | [? | Hgt]]; [exfalso | done | exfalso].
  - destruct (Hlo ltac:(lia)) as (k & Hk & Hko). destruct (znth_is_Some l n) as [k' Hk']; [lia |]. specialize (H2 _ Hk').
    destruct (decide (n = m - 1)) as [E1 |]; [rewrite E1, Hk in Hk'; injection Hk' as ->; lia |].
    pose proof (sorted_znth _ _ _ _ _ HS Hk' Hk ltac:(lia)). lia.
  - destruct (znth_is_Some l m) as [k Hk]; [lia |]. specialize (Hhi _ Hk).
    assert (k ∈ filter (fun k => k <= o) l) as Hin.
    { rewrite H1. apply elem_znth. exists m. by rewrite znth_ztake by lia. }
    apply list_elem_of_filter in Hin as [? _]. lia.
Qed.

Lemma lstart_some str i k : 0 <= i -> znth (lineStarts_loop 0 str) i = Some k -> lstart str i = k.
Proof. intros H0 Hk. unfold lstart. rewrite (proj2 (Z.ltb_ge _ _) H0). by rewrite Hk. Qed.

Lemma getIndexOf_ok bs p r :
  piece_ok bs p -> 0 <= r <= Piece.length p ->
  exists col, getIndexOf bs p r = Ret (lines_upto (contents bs p) r, col) /\
    (0 < lines_upto (contents bs p) r -> col = r - lstart (contents bs p) (lines_upto (contents bs p) r - 1)).
Proof.
  intros (b & so & eo & Hsp & Hlt & Hlf) Hr. rewrite (sp_length Hsp) in Hr. unfold getIndexOf.
  destruct (positionInBuffer_ok bs b p so eo r) as (pos & Hpos & Hcur & Hline);
    [apply Hsp | apply buffer_starts_ok, Hsp | apply Hsp | apply Hsp | lia |].
  rewrite Hpos. cbn [res_bind]. rewrite !(offsetInBuffer_ok bs (Piece.bufferIndex p) b _ eo) by apply Hsp. cbn [res_bind].
  rewrite (offsetInBuffer_ok bs (Piece.bufferIndex p) b _ so) by apply Hsp. cbn [res_bind].
  destruct (piece_starts bs p b so eo Hsp Hlt) as [HA Hst].
  set (n := BufferCursor.line (Piece.end_ p) - BufferCursor.line (Piece.start p)) in *.
  set (A := ztake n _) in *. set (m := BufferCursor.line pos - BufferCursor.line (Piece.start p)).
  destruct Hcur as (s & Hs & Es & Cs & _ & Ns). destruct (sp_start Hsp) as (s0 & Hs0 & _). pose proof (znth_Some _ _ _ Hs0) as Hl0.
  assert (forall i, 0 <= i < n -> znth ((fun k => k - so) <$> A) i =
    (fun k => k - so) <$> znth (StringBuffer.lineStarts b) (BufferCursor.line (Piece.start p) + 1 + i)) as HAi.
  { intros i Hi. rewrite znth_fmap. unfold A. rewrite znth_take_drop by lia. done. }
  assert (0 < m -> znth ((fun k => k - so) <$> A) (m - 1) = Some (s - so)) as Hlast.
  { intros Hm. rewrite HAi by (unfold m, n in *; lia). replace (_ + 1 + (m - 1)) with (BufferCursor.line pos) by (unfold m; lia).
    by rewrite Hs. }
  assert (forall k, m < n -> znth ((fun k => k - so) <$> A) m = Some k -> r < k) as Hnext.
  { intros k Hmn. rewrite HAi by (unfold m in *; lia). replace (_ + 1 + m) with (BufferCursor.line pos + 1) by (unfold m; lia).
    intros Hk. apply fmap_Some in Hk as (k' & Hk' & ->). specialize (Ns _ Hk'). lia. }
  assert (zlen ((fun k => k - so) <$> A) = n) as HzA by (unfold zlen in *; by rewrite length_fmap).
  pose proof (starts_sorted (contents bs p)) as HS. unfold lines_upto.
  destruct Hst as [[Hst Hbr] | (Hst & Hbr & Hsplit)].
  - assert (zlen (filter (fun k => k <= r) (lineStarts_loop 0 (contents bs p))) = m) as ->.
    { apply count_upto; [done | rewrite Hst; unfold m, n in *; lia | |]; rewrite Hst.
      - intros Hm. exists (s - so). split; [auto | lia].
      - intros k Hk. apply Hnext; [| done]. apply znth_Some in Hk. lia. }
    assert ((if eo - so === r then getLineFeedCnt bs (Piece.bufferIndex p) (Piece.start p) pos else Ret m) = Ret m) as ->.
    { destruct (Z.eqb_spec (eo - so) r) as [<- |]; [| done].
      assert (pos = Piece.end_ p) as ->.
      { eapply cursor_unique; [apply Hsp | | apply Hsp]. exists s. split_and!; try done; [lia | apply spans_bounds in Hsp; lia |].
        intros next Hn. specialize (Ns _ Hn). lia. }
      rewrite (spans_lf _ _ _ _ _ Hsp Hlt), Hbr. done. }
    cbn [res_bind]. rewrite Z.eqb_refl. cbn [negb]. eexists. split; [done |]. intros Hm.
    rewrite (lstart_some _ _ (s - so)); [lia | lia | rewrite Hst; auto].
  - destruct (Z.eqb_spec (eo - so) r) as [<- | Hne].
    + assert (pos = Piece.end_ p) as Hpe.
      { eapply cursor_unique; [apply Hsp | | apply Hsp]. exists s. split_and!; try done; [lia | apply spans_bounds in Hsp; lia |].
        intros next Hn. specialize (Ns _ Hn). lia. }
      assert (m = n) as Hmn by (unfold m, n; by rewrite Hpe).
      rewrite Hpe, (spans_lf _ _ _ _ _ Hsp Hlt), Hbr. cbn [res_bind]. fold n.
      assert (zlen (filter (fun k => k <= eo - so) (lineStarts_loop 0 (contents bs p))) = n + 1) as ->.
      { rewrite filter_all; [| intros x Hx%starts_bounds; rewrite (spans_zlen _ _ _ _ _ Hsp), (sp_length Hsp) in Hx; lia].
        exact Hbr. }
      rewrite (proj2 (Z.eqb_neq (n + 1) m)) by lia. cbn [negb]. eexists. split; [done |]. intros _. rewrite Z.add_simpl_r.
      rewrite (lstart_some _ _ (eo - so)); [lia | lia | rewrite Hst; by apply znth_mid].
    + cbn [res_bind]. rewrite Z.eqb_refl. cbn [negb].
      assert (zlen (filter (fun k => k <= r) (lineStarts_loop 0 (contents bs p))) = m) as ->.
      { apply count_upto; [done | rewrite Hst, zlen_app, HzA; change (zlen [eo - so]) with 1; unfold m, n in *; lia | |]; rewrite Hst.
        - intros Hm. exists (s - so). split; [rewrite znth_app_l; [auto | unfold m, n in *; lia] | lia].
        - intros k Hk. destruct (decide (m < n)) as [Hmn | Hmn].
          + apply Hnext; [done |]. by rewrite znth_app_l in Hk by (unfold m, n in *; lia).
          + assert (m = n) as Hmn' by (unfold m, n in *; lia). rewrite Hmn', znth_mid in Hk by done. injection Hk as <-. lia. }
      eexists. split; [done |]. intros Hm.
      rewrite (lstart_some _ _ (s - so)); [lia | lia | rewrite Hst, znth_app_l; [auto | unfold m, n in *; lia]].
Qed.

(** The position of an offset of the text. *)
Definition pos_of (str : jsstring) (o : Z) : Position.t :=
  Position.new (lines_upto str o + 1) (o - lstart str (lines_upto str o - 1) + 1).

Definition getPositionAt_body (originalOffset : Z) (st : ref * Z * Z) : P ((ref * Z * Z) + Position.t) :=
  let '(x, offset, lfCnt) := st in
  if same x SENTINEL then mret (inr (Position.new 1 1)) else
  n ← node_of x;
  if (TreeNode.size_left n !== 0) && (offset <=? TreeNode.size_left n) then
    mret (inl (TreeNode.left n, offset, lfCnt))
  else
    p ← piece_of x;
    if offset <=? TreeNode.size_left n + Piece.length p then
      out ← bufs (fun bs => getIndexOf bs p (offset - TreeNode.size_left n));
      let lfCnt := lfCnt + (TreeNode.lf_left n + fst out) in
      if fst out === 0 then
        lineStartOffset ← getOffsetAt (lfCnt + 1) 1;
        let column := originalOffset - lineStartOffset in
        mret (inr (Position.new (lfCnt + 1) (column + 1)))
      else mret (inr (Position.new (lfCnt + 1) (snd out + 1)))
    else
      let offset := offset - (TreeNode.size_left n + Piece.length p) in
      let lfCnt := lfCnt + (TreeNode.lf_left n + Piece.lineFeedCnt p) in
      if same (TreeNode.right n) SENTINEL then
        lineStartOffset ← getOffsetAt (lfCnt + 1) 1;
        let column := originalOffset - offset - lineStartOffset in
        mret (inr (Position.new (lfCnt + 1) (column + 1)))
      else mret (inl (TreeNode.right n, offset, lfCnt)).

(** Three parts of a text, and an offset in the middle one. *)
Lemma lines_mid pre u post r :
  seam pre (u ++ post) -> seam u post -> 0 <= r <= zlen u -> lines_upto (pre ++ u ++ post) (zlen pre + r) = breaks pre + lines_upto u r.
Proof.
  intros H1 H2 Hr. rewrite lines_app_r by (done || lia). rewrite Z.add_simpl_l. by rewrite lines_app_l by (done || lia).
Qed.

Lemma lstart_mid pre u post i :
  seam pre (u ++ post) -> seam u post -> 0 <= i < breaks u -> lstart (pre ++ u ++ post) (breaks pre + i) = zlen pre + lstart u i.
Proof.
  intros H1 H2 Hi. pose proof (breaks_nonneg pre). rewrite lstart_app_r by (done || lia).
  rewrite Z.add_simpl_l. by rewrite lstart_app_l by (done || lia).
Qed.

(** The line start [getOffsetAt] returns for the line of an offset. *)
Lemma offset_in_line str o : offset_in str (lines_upto str o + 1) 1 = lstart str (lines_upto str o - 1).
Proof.
  pose proof (lines_upto_bounds str o). unfold offset_in. rewrite (proj2 (Z.ltb_lt _ _)) by lia.
  replace (lines_upto str o + 1 - 2) with (lines_upto str o - 1) by lia. lia.
Qed.

(** The text around a node of the tree. *)
Lemma plug_text bs c d l r :
  pieces_ok bs (nodes (plug c (T d l r))) -> sealed bs (nodes (plug c (T d l r))) ->
  let pre := text bs (nbefore c) in let a := text bs (nodes l) in let u := contents bs (npiece d) in
  let e := text bs (nodes r) in let post := text bs (nafter c) in
  text bs (nodes (plug c (T d l r))) = (pre ++ a) ++ u ++ e ++ post /\
  seam (pre ++ a) (u ++ e ++ post) /\ seam u (e ++ post) /\ seam pre a /\
  tsize l = zlen a /\ tlf l = breaks a /\ Piece.length (npiece d) = zlen u /\ Piece.lineFeedCnt (npiece d) = breaks u /\
  piece_ok bs (npiece d).
Proof.
  intros HP HS. rewrite nodes_plug in *. cbn [nodes].
  assert (nbefore c ++ (nodes l ++ (nid d, npiece d) :: nodes r) ++ nafter c
    = (nbefore c ++ nodes l) ++ (nid d, npiece d) :: nodes r ++ nafter c) as HE by (by rewrite <- !app_assoc).
  pose proof HS as (_ & HS0 & _)%sealed_app. apply sealed_app in HS0 as (HS0 & _ & _). pose proof HP as [_ [HP0 _]%Forall_app]%Forall_app.
  destruct (tree_text _ _ _ _ HP0 HS0) as (_ & _ & _ & _ & Tl & Fl & Ld & Fd & Pd & _).
  cbn [nodes] in HS. rewrite HE in *. apply sealed_app in HS as (HS1 & [_ HS2]%sealed_cons & HS3).
  apply sealed_app in HS1 as (_ & _ & HS1). rewrite text_cons, !text_app in HS3. rewrite text_app in HS2.
  rewrite text_app, text_cons, !text_app. split_and!; done.
Qed.

Lemma getPositionAt_descend F s c t0 offset fuel str :
  reps F (tr s) (plug c t0) -> meta_ok t0 -> pieces_ok (_buffers s) (nodes (plug c t0)) -> sealed (_buffers s) (nodes (plug c t0)) ->
  text (_buffers s) (nodes (plug c t0)) = str -> (forall n, getOffsetAt n 1 s = Ret (offset_in str n 1, s)) ->
  let pre := text (_buffers s) (nbefore c) in
  t0 <> E -> (List.length (ids t0) < fuel)%nat -> 0 <= offset ->
  nafter c = [] \/ offset <= zlen (text (_buffers s) (nodes t0)) ->
  piter fuel (getPositionAt_body (zlen pre + offset)) (rid t0, offset, breaks pre) s
  = Ret (pos_of str (Z.min (zlen pre + offset) (zlen str)), s).
Proof.
  revert c offset fuel. induction t0 as [| d l IHl r IHr]; intros c offset fuel Hr Hm Hp Hs Htx Hget pre Ht Hf Ho Hend; [done |].
  destruct fuel as [| fuel]; [cbn in Hf; lia |]. cbn in Hf. rewrite length_app in Hf. cbn in Hf.
  destruct Hm as (Hsl & Hlf & Hml & Hmr).
  destruct (plug_text _ _ _ _ _ Hp Hs) as (Htx' & S1 & S2 & S3 & Tl & Fl & Ld & Fd & Pd). rewrite Htx in Htx'. fold pre in Htx', S1, S3.
  set (a := text _ (nodes l)) in *. set (u := contents _ _) in *. set (e := text _ (nodes r)) in *. set (post := text _ (nafter c)) in *.
  assert (nid d <> SENTINEL) as Hne by (eapply (reps_ids_ne (tr s) c); [exact Hr | left]).
  assert (node_of (nid d) s = Ret (cell d (cpar c) (rid l) (rid r), s)) as Hnode
    by (apply rbt_run, get_run; by eapply reps_node).
  assert (piece_of (nid d) s = Ret (npiece d, s)) as Hpiece
    by (eapply piece_of_run; [exact Hr | by eapply starts_at_elem, starts_at_plug]).
  pose proof (zlen_nonneg pre). pose proof (zlen_nonneg a). pose proof (zlen_nonneg u). pose proof (zlen_nonneg e).
  pose proof (zlen_nonneg post). cbn [rid].
  assert (zlen str = zlen pre + zlen a + zlen u + zlen e + zlen post) as Hstr by (rewrite Htx', !zlen_app; lia).
  destruct ((zlen a !== 0) && (offset <=? zlen a)) eqn:Hleft.
  - apply andb_true_iff in Hleft as [Hz0%negb_true_iff%Z.eqb_neq Hle%Z.leb_le].
    erewrite piter_next.
    2: { unfold getPositionAt_body. rewrite same_ne by done. erewrite pbind_run by exact Hnode.
         cbn [TreeNode.left TreeNode.size_left cell]. rewrite Hsl, Tl, (proj2 (Z.eqb_neq _ _) Hz0), (proj2 (Z.leb_le _ _) Hle).
         reflexivity. }
    apply (IHl (FL d r :: c)); try done; [| lia | by right]. intros ->. by unfold a in Hz0.
  - assert (zlen a <= offset) as Hge by (apply andb_false_iff in Hleft as [?%negb_false_iff%Z.eqb_eq | ?%Z.leb_gt]; lia).
    destruct (Z.leb_spec offset (zlen a + zlen u)) as [Hin | Hout].
    + apply piter_stop. unfold getPositionAt_body. rewrite same_ne by done. erewrite pbind_run by exact Hnode.
      cbn [TreeNode.left TreeNode.size_left TreeNode.lf_left cell]. rewrite Hsl, Hlf, Tl, Fl, Hleft.
      erewrite pbind_run by exact Hpiece. rewrite Ld, (proj2 (Z.leb_le _ _) Hin).
      destruct (getIndexOf_ok (_buffers s) (npiece d) (offset - zlen a) Pd) as (col & Hidx & Hcol); [lia |]. fold u in Hidx, Hcol.
      erewrite pbind_run by (apply bufs_run; exact Hidx). cbn [fst snd].
      rewrite Z.min_l by lia.
      assert (lines_upto str (zlen pre + offset) = breaks pre + (breaks a + lines_upto u (offset - zlen a))) as HL.
      { rewrite Htx'. replace (zlen pre + offset) with (zlen (pre ++ a) + (offset - zlen a)) by (rewrite zlen_app; lia).
        rewrite lines_mid by (done || lia). rewrite breaks_app by done. lia. }
      rewrite <- HL. unfold pos_of. destruct (Z.eqb_spec (lines_upto u (offset - zlen a)) 0) as [E0 | E0].
      * erewrite pbind_run by apply Hget. rewrite offset_in_line. done.
      * unfold mret, P_ret. do 3 f_equal. f_equal. rewrite Hcol by (pose proof (lines_upto_bounds u (offset - zlen a)); lia).
        pose proof (lines_upto_bounds u (offset - zlen a)) as Hb.
        assert (lstart str (lines_upto str (zlen pre + offset) - 1) = zlen (pre ++ a) + lstart u (lines_upto u (offset - zlen a) - 1)) as ->;
          [| rewrite zlen_app; lia].
        rewrite HL, Htx'. replace (_ - 1) with (breaks (pre ++ a) + (lines_upto u (offset - zlen a) - 1)) at 1 by (rewrite breaks_app by done; lia).
        apply lstart_mid; [done | done | lia].
    + pose proof (leaf_right _ _ _ _ _ _ Hr) as Hrl. pose proof (is_leaf_spec r) as HEr.
      assert (breaks (pre ++ a ++ u) = breaks pre + (breaks a + breaks u)) as Hbr.
      { rewrite app_assoc, !breaks_app by (done || by apply seam_of_app_r in S1). lia. }
      assert (zlen (pre ++ a ++ u) = zlen pre + (zlen a + zlen u)) as Hzl by (rewrite !zlen_app; lia).
      destruct (is_leaf r).
      * subst r. apply piter_stop. unfold getPositionAt_body. rewrite same_ne by done. erewrite pbind_run by exact Hnode.
        cbn [TreeNode.left TreeNode.right TreeNode.size_left TreeNode.lf_left cell]. rewrite Hsl, Hlf, Tl, Fl, Hleft.
        erewrite pbind_run by exact Hpiece. rewrite Ld, Fd, (proj2 (Z.leb_gt _ _) Hout), Hrl.
        assert (post = []) as Hpost.
        { unfold post. destruct Hend as [-> | Hend]; [done |]. cbn [nodes] in Hend. rewrite text_app, text_cons, !zlen_app in Hend.
          fold a u in Hend. change (text (_buffers s) []) with (@nil Z) in Hend. change (zlen []) with 0 in Hend. lia. }
        assert (str = pre ++ a ++ u) as Hdoc.
        { rewrite Htx', Hpost. unfold e. cbn [nodes]. rewrite text_nil, !app_nil_r. by rewrite app_assoc. }
        rewrite <- Hbr, <- Hdoc. rewrite <- Hdoc in Hzl. rewrite Z.min_r by lia.
        erewrite pbind_run by apply Hget. unfold pos_of. rewrite (lines_upto_end str (zlen str)) by lia.
        pose proof (offset_in_line str (zlen str)) as Hol. rewrite (lines_upto_end str (zlen str)) in Hol by lia. rewrite Hol.
        unfold mret, P_ret. do 3 f_equal. f_equal. lia.
      * assert (nbefore (FR d l :: c) = nbefore c ++ nodes l ++ [(nid d, npiece d)]) as Hnb by done.
        assert (text (_buffers s) (nbefore (FR d l :: c)) = pre ++ a ++ u) as Hpre' by (rewrite Hnb, !text_app, text_one; done).
        pose proof (IHr (FR d l :: c) (offset - (zlen a + zlen u)) fuel Hr Hmr Hp Hs Htx Hget) as IH. cbn zeta in IH.
        rewrite Hpre', Hzl, Hbr in IH. replace (zlen pre + (zlen a + zlen u) + (offset - (zlen a + zlen u))) with (zlen pre + offset) in IH by lia.
        erewrite piter_next; [apply IH; [done | lia | lia |] |].
        -- destruct Hend as [? | Hend]; [by left | right]. cbn [nodes] in Hend. rewrite text_app, text_cons, !zlen_app in Hend.
           fold a u e in Hend |- *. lia.
        -- unfold getPositionAt_body. rewrite same_ne by done. erewrite pbind_run by exact Hnode.
           cbn [TreeNode.left TreeNode.right TreeNode.size_left TreeNode.lf_left cell]. rewrite Hsl, Hlf, Tl, Fl, Hleft.
           erewrite pbind_run by exact Hpiece. rewrite Ld, Fd, (proj2 (Z.leb_gt _ _) Hout), Hrl. done.
Qed.

Lemma getPositionAt_ok s str offset :
  is_doc s str -> str <> [] -> getPositionAt offset s = Ret (pos_of str (Z.min (Z.max 0 offset) (zlen str)), s).
Proof.
  intros Hdoc Hne. pose proof (fun n => getOffsetAt_ok s str n 1 Hdoc Hne) as Hget. destruct Hdoc as (F & L & Hd & Ht & _).
  pose proof (fits_holds (doc_fits Hd)) as (t & (Hr & Hm & _) & Hn). unfold getPositionAt.
  erewrite pbind_run by (apply rbt_run; unfold get_root; by rewrite (reps_root _ _ Hr)).
  erewrite pbind_run by (apply rbt_run; reflexivity).
  pose proof (getPositionAt_descend F s [] t (Z.max 0 offset) (S (S (size (heap (tr s))))) str) as H.
  cbn [nbefore nafter text] in H. change (zlen []) with 0 in H. change (breaks []) with 0 in H. rewrite Z.add_0_l in H.
  apply H; try done.
  - change (plug [] t) with t. rewrite Hn. apply Hd.
  - change (plug [] t) with t. rewrite Hn. apply Hd.
  - change (plug [] t) with t. by rewrite Hn.
  - intros ->. apply Hne. rewrite <- Ht, <- Hn. done.
  - pose proof (reps_size _ _ Hr). lia.
  - lia.
  - by left.
Qed.

(** In the empty document both return the start. *)
Lemma empty_positions s :
  is_doc s [] -> (forall n col, getOffsetAt n col s = Ret (0, s)) /\ (forall o, getPositionAt o s = Ret (Position.new 1 1, s)).
Proof.
  intros (F & L & Hd & Ht & _).
  assert (L = []) as ->.
  { destruct L as [| [x p] L]; [done |]. exfalso. pose proof (doc_pieces Hd) as [Hp _]%Forall_cons.
    apply piece_ok_ne in Hp. rewrite text_cons in Ht. by apply app_nil in Ht as [? _]. }
  pose proof (fits_holds (doc_fits Hd)) as (t & (Hr & Hm & _) & ->%nodes_fst).
  assert (this_root s = Ret (SENTINEL, s)) as Hroot by (apply rbt_run; unfold get_root; by rewrite (reps_root _ _ Hr)).
  split; intros; [unfold getOffsetAt | unfold getPositionAt]; erewrite pbind_run by exact Hroot;
    (erewrite pbind_run by (apply rbt_run; reflexivity)); apply piter_stop; by rewrite same_eq.
Qed.

(** ** Both ways *)

Lemma offset_of_pos str o :
  0 <= o <= zlen str ->
  let n := lines_upto str o + 1 in let col := o - lstart str (lines_upto str o - 1) + 1 in
  offset_in str n col = o /\ 1 <= n <= 1 + breaks str /\ 1 <= col.
Proof.
  intros Ho n col. pose proof (lines_upto_bounds str o). destruct (lines_upto_line str o Ho) as [H1 _].
  unfold offset_in. rewrite (proj2 (Z.ltb_lt _ _)) by (unfold n; lia).
  replace (n - 2) with (lines_upto str o - 1) by (unfold n; lia). unfold n, col. lia.
Qed.

Lemma line_of_start str n o :
  1 <= n <= 1 + breaks str -> lstart str (n - 2) <= o <= zlen str -> (n <= breaks str -> o < lstart str (n - 1)) ->
  lines_upto str o = n - 1.
Proof.
  intros Hn Hlo Hhi. apply count_upto; [apply starts_sorted | unfold breaks in *; lia | |].
  - intros Hpos. destruct (znth_is_Some (lineStarts_loop 0 str) (n - 1 - 1)) as [k Hk]; [unfold breaks in *; lia |].
    exists k. split; [done |]. rewrite (lstart_some str (n - 2) k) in Hlo; [lia | lia |]. by replace (n - 2) with (n - 1 - 1) by lia.
  - intros k Hk. pose proof (znth_Some _ _ _ Hk). rewrite (lstart_some str (n - 1) k) in Hhi by (done || lia).
    apply Hhi. unfold breaks. lia.
Qed.
