(* ===== verification/PieceTreeRange.v ===== *)
(** * Reading a range of a document

    [nodeAt2] of [PieceTreeBase] finds the node of a line and a column, and
    [getValueInRange] reads the text between two of them.  For every position of
    the document the node found holds the offset of the position, and the text
    read is the part of the document between the two offsets. *)

From stdpp Require Import gmap.
From S2P Require Import Prelude Position Range RBTree RBTreeRep RBTreeOps RBTreeInsert RBTreeDelete RBTreeRemove.
From S2P Require Import PieceBuffers PieceTree PieceTreeEdit PieceTreeNodes PieceTreeRead PieceTreeList PieceTreeText.
From S2P Require Import PieceTreePieces PieceTreeChange PieceTreeSeal PieceTreeInsert PieceTreeDocument.
From S2P Require Import PieceTreeErase PieceTreeCreate PieceTreeChars PieceTreeLines.

(** ** The offset of a node *)

Definition offsetOfNode_body (st : ref * Z) : P ((ref * Z) + Z) :=
  let '(node, pos) := st in
  r ← this_root;
  if negb (same node r) then
    n ← node_of node;
    pn ← node_of (TreeNode.parent n);
    if same (TreeNode.right pn) node then
      pp ← piece_of (TreeNode.parent n);
      mret (inl (TreeNode.parent n, pos + (TreeNode.size_left pn + Piece.length pp)))
    else mret (inl (TreeNode.parent n, pos))
  else mret (inr pos).

Lemma offsetOfNode_climb F s c t0 pos fuel :
  reps F (tr s) (plug c t0) -> cmeta (tsize t0) (tlf t0) c -> t0 <> E -> (length c < fuel)%nat ->
  piter fuel offsetOfNode_body (rid t0, pos) s = Ret (pos + nsize (nbefore c), s).
Proof.
  revert t0 pos fuel. induction c as [| f c IH]; intros t0 pos fuel Hr Hm Ht Hf; (destruct fuel as [| fuel]; [lia |]).
  - apply piter_stop. unfold offsetOfNode_body.
    erewrite pbind_run by (apply rbt_run; unfold get_root; by rewrite (reps_root _ _ Hr)).
    rewrite same_eq. cbn [negb nbefore]. change (nsize []) with 0. by rewrite Z.add_0_r.
  - cbn in Hf. destruct t0 as [| d l r]; [done |].
    assert (this_root s = Ret (root (tr s), s)) as Hroot by (apply rbt_run; by unfold get_root).
    pose proof (reps_not_root (tr s) c f _ Ht Hr) as Hnr. cbn [rid] in Hnr.
    assert (node_of (nid d) s = Ret (cell d (cpar (f :: c)) (rid l) (rid r), s)) as Hn by (apply rbt_run, get_run; by eapply reps_node).
    pose proof (reps_parent (tr s) c f _ Hr) as Hp.
    assert (node_of (nid (fdata f)) s = Ret (fcell f (cpar c) (nid d), s)) as Hpn by (apply rbt_run, get_run; exact Hp).
    assert (forall pos', piter fuel offsetOfNode_body (nid (fdata f), pos') s = Ret (pos' + nsize (nbefore c), s)) as IH'.
    { intros pos'. destruct f as [g k | g k]; [apply (IH (T g (T d l r) k)) | apply (IH (T g k (T d l r)))]; try done; try lia;
        cbn in Hm |- *; apply Hm. }
    erewrite piter_next; [erewrite IH' |].
    2: { unfold offsetOfNode_body. cbn [rid]. erewrite pbind_run by exact Hroot. rewrite same_ne by done. cbn [negb].
         erewrite pbind_run by exact Hn. cbn [TreeNode.parent cell cpar]. erewrite pbind_run by exact Hpn.
         instantiate (1 := match f with FL _ _ => pos | FR g k => pos + (tsize k + Piece.length (npiece g)) end).
         destruct f as [g k | g k]; cbn [fcell TreeNode.right cell fdata].
         - rewrite same_ne; [done |]. exact (reps_right_only (tr s) c g k (T d l r) Ht Hr).
         - rewrite same_eq. erewrite pbind_run by (eapply piece_of_run; [exact Hr | eapply starts_at_elem, (starts_at_plug c g k (T d l r))]).
           cbn [TreeNode.size_left cell]. cbn in Hm. destruct Hm as (-> & _). done. }
    destruct f as [g k | g k]; [done |]. do 2 f_equal. cbn [nbefore].
    rewrite !nsize_app, nsize_cons, tsize_nodes. change (nsize []) with 0. lia.
Qed.

Lemma offsetOfNode_ok F s l1 x p l2 :
  holds F s (l1 ++ (x, p) :: l2) -> offsetOfNode x s = Ret (nsize l1, s).
Proof.
  intros (t & (Hr & Hm & _) & Hn).
  assert (NoDup (ids t)) as Hnd by (destruct Hr as [_ _ _ [_ ?]%NoDup_cons _]; done).
  destruct (focus_nodes _ _ _ _ _ Hnd Hn) as (c & d & l & r & -> & <- & <- & -> & ->).
  unfold offsetOfNode. erewrite pbind_run by (apply rbt_run, get_run; by eapply reps_node).
  erewrite pbind_run by (apply rbt_run; reflexivity). cbn [TreeNode.size_left cell].
  pose proof (reps_ctx_size (tr s) c _ Hr) as Hsz. apply meta_plug in Hm as [(Hsl & _) Hc].
  etransitivity; [apply (offsetOfNode_climb F s c (T d l r)); [done | done | done | lia] |].
  do 2 f_equal. rewrite nsize_app, Hsl, tsize_nodes. lia.
Qed.

(** ** The node of a line and a column *)

(** The line and the column are a position of the text: its offset is [o], which is
    not behind the end of the text and before the next line. *)
Record at_offset (str : jsstring) (lineNumber column o : Z) : Prop := mkat {
  at_line : 1 <= lineNumber <= 1 + breaks str;
  at_column : 1 <= column;
  at_eq : o = lstart str (lineNumber - 2) + column - 1;
  at_end : o <= zlen str;
  at_next : lineNumber <= breaks str -> o < lstart str (lineNumber - 1)
}.

(** The node position lies at the offset [o] of the sequence. *)
Definition pos_at (L : seq) (pos : NodePosition) (o : Z) : Prop :=
  exists l1 p l2, L = l1 ++ (np_node pos, p) :: l2 /\ nsize l1 + np_remainder pos = o /\
    0 <= np_remainder pos <= Piece.length p.

Definition nodeAt2_body (column : Z) (st : ref * Z * Z) : P ((ref * Z * Z) + (NodePosition + ref * Z)) :=
  let '(x, lineNumber, nodeStartOffset) := st in
  if same x SENTINEL then mret (inr (inr (x, column))) else
  n ← node_of x;
  if negb (same (TreeNode.left n) SENTINEL) && (lineNumber - 1 <=? TreeNode.lf_left n) then
    mret (inl (TreeNode.left n, lineNumber, nodeStartOffset))
  else
    p ← piece_of x;
    let lf := TreeNode.lf_left n + Piece.lineFeedCnt p in
    if lineNumber - 1 <? lf then
      prevAcc ← bufs (fun bs => getAccumulatedValue bs p (lineNumber - TreeNode.lf_left n - 2));
      acc ← bufs (fun bs => getAccumulatedValue bs p (lineNumber - TreeNode.lf_left n - 1));
      mret (inr (inl (mkNodePosition x (Z.min (prevAcc + column - 1) acc)
                        (nodeStartOffset + TreeNode.size_left n))))
    else if lf === lineNumber - 1 then
      prevAcc ← bufs (fun bs => getAccumulatedValue bs p (lineNumber - TreeNode.lf_left n - 2));
      if prevAcc + column - 1 <=? Piece.length p then
        mret (inr (inl (mkNodePosition x (prevAcc + column - 1) nodeStartOffset)))
      else mret (inr (inr (x, column - (Piece.length p - prevAcc))))
    else
      mret (inl (TreeNode.right n, lineNumber - lf,
                 nodeStartOffset + (TreeNode.size_left n + Piece.length p))).

(** What the descent into the nodes [K] ends with: the position, or the node up to
    which the line runs on, with the column left. *)
Definition descended (bs : list StringBuffer.t) (K : seq) (lineNumber o : Z) (r : NodePosition + ref * Z) : Prop :=
  match r with
  | inl pos => pos_at K pos o
  | inr (x, column) => exists l1 p l2, K = l1 ++ (x, p) :: l2 /\ 1 < column /\
      nsize (l1 ++ [(x, p)]) + column - 1 = o /\ breaks (text bs (l1 ++ [(x, p)])) = lineNumber - 1
  end.

Lemma descended_l bs K K' n o r : descended bs K n o r -> descended bs (K ++ K') n o r.
Proof.
  destruct r as [pos | [x col]]; intros (l1 & p & l2 & -> & H); exists l1, p, (l2 ++ K'); by rewrite <- app_assoc.
Qed.

Lemma descended_r bs K K' n o r :
  seam (text bs K) (text bs K') -> descended bs K' n o r ->
  descended bs (K ++ K') (n + breaks (text bs K)) (nsize K + o) r.
Proof.
  intros Hs. destruct r as [pos | [x col]].
  - intros (l1 & p & l2 & -> & H1 & H2). exists (K ++ l1), p, l2. rewrite nsize_app, <- app_assoc. split_and!; try done; lia.
  - intros (l1 & p & l2 & -> & H1 & H2 & H3). exists (K ++ l1), p, l2. rewrite <- !app_assoc. split_and!; try done.
    + rewrite nsize_app. lia.
    + rewrite text_app, breaks_app; [lia |]. rewrite cons_middle, app_assoc, text_app in Hs. by apply seam_of_app_r in Hs.
Qed.

Lemma nodeAt2_descend_ok F s c t0 n column start fuel :
  reps F (tr s) (plug c t0) -> meta_ok t0 -> pieces_ok (_buffers s) (nodes t0) -> sealed (_buffers s) (nodes t0) ->
  t0 <> E -> (List.length (ids t0) < fuel)%nat ->
  let str := text (_buffers s) (nodes t0) in let o := lstart str (n - 2) + column - 1 in
  1 <= n <= 1 + breaks str -> 1 <= column -> (n <= breaks str -> o < lstart str (n - 1)) ->
  exists r, piter fuel (nodeAt2_body column) (rid t0, n, start) s = Ret (r, s) /\ descended (_buffers s) (nodes t0) n o r.
Proof.
  revert c n start fuel. induction t0 as [| d l IHl r IHr]; intros c n start fuel Hr Hm Hp Hs Ht Hf str o Hn Hcol Hnext; [done |].
  destruct fuel as [| fuel]; [cbn in Hf; lia |]. cbn in Hf. rewrite length_app in Hf. cbn in Hf.
  destruct Hm as (Hsl & Hlf & Hml & Hmr).
  destruct (tree_text _ _ _ _ Hp Hs) as (Htx & Sac & Sace & Sce & Tl & Fl & Ld & Fd & Pd & Pl & Pr & Sl & Sr).
  fold str in Htx. pose proof (text_size _ _ Pl) as Zl.
  set (a := text _ (nodes l)) in *. set (u := contents _ _) in *. set (e := text _ (nodes r)) in *.
  assert (nid d <> SENTINEL) as Hne by (eapply (reps_ids_ne (tr s) c); [exact Hr | left]).
  assert (node_of (nid d) s = Ret (cell d (cpar c) (rid l) (rid r), s)) as Hnode
    by (apply rbt_run, get_run; by eapply reps_node).
  assert (piece_of (nid d) s = Ret (npiece d, s)) as Hpiece
    by (eapply piece_of_run; [exact Hr | by eapply starts_at_elem, starts_at_plug]).
  assert (forall i, bufs (fun bs => getAccumulatedValue bs (npiece d) i) s = Ret (lstart u i, s)) as Hacc
    by (intros i; apply bufs_run; by apply getAccumulatedValue_ok).
  pose proof (leaf_left _ _ _ _ _ _ Hr) as Hl. pose proof (is_leaf_spec l) as HEl. pose proof (is_leaf_spec r) as HEr.
  pose proof (breaks_nonneg a) as Ba. pose proof (breaks_nonneg u) as Bu. pose proof (breaks_nonneg e) as Be.
  assert (breaks str = breaks a + (breaks u + breaks e)) as Hbr by (by rewrite Htx, !breaks_app).
  cbn [rid nodes]. destruct (negb (is_leaf l) && (n - 1 <=? breaks a)) eqn:Hleft.
  - apply andb_true_iff in Hleft as [HlE%negb_true_iff Hle%Z.leb_le]. rewrite HlE in HEl.
    assert (o = lstart a (n - 2) + column - 1) as Ho by (unfold o; rewrite Htx, lstart_app_l by (done || lia); done).
    destruct (IHl (FL d r :: c) n start fuel) as (res & H1 & H2); try done; try lia.
    { fold a. intros Hlt. rewrite <- Ho. assert (lstart str (n - 1) = lstart a (n - 1)) as <- by (rewrite Htx; apply lstart_app_l; done || lia).
      apply Hnext. lia. }
    fold a in H2. rewrite <- Ho in H2. exists res. split; [| by apply descended_l].
    erewrite piter_next; [exact H1 |].
    unfold nodeAt2_body. rewrite same_ne by done. erewrite pbind_run by exact Hnode.
    cbn [TreeNode.left TreeNode.lf_left cell]. by rewrite Hl, Hlf, Fl, HlE, (proj2 (Z.leb_le _ _) Hle).
  - assert (breaks a <= n - 1 /\ (n - 2 < breaks a -> a = [])) as [Hge Hfirst].
    { apply andb_false_iff in Hleft as [HE | Hgt%Z.leb_gt]; [| lia]. apply negb_false_iff in HE. rewrite HE in HEl.
      subst l. unfold a. cbn [nodes]. rewrite text_nil. change (breaks []) with 0. split; [lia | done]. }
    assert (forall i, n - 2 <= i -> lstart str i = zlen a + lstart (u ++ e) (i - breaks a)) as Hls.
    { intros i Hi. destruct (decide (n - 2 < breaks a)) as [Hlt | Hlt].
      - rewrite Htx, (Hfirst Hlt). change (breaks []) with 0. change (zlen []) with 0. cbn [app]. by rewrite Z.sub_0_r.
      - rewrite Htx. apply lstart_app_r; [done | lia | lia]. }
    assert (nodeAt2_body column (nid d, n, start) s =
      Ret (if n - 1 <? breaks a + breaks u then
          (inr (inl (mkNodePosition (nid d) (Z.min (lstart u (n - breaks a - 2) + column - 1) (lstart u (n - breaks a - 1)))
            (start + zlen a))))
        else if breaks a + breaks u === n - 1 then
          if lstart u (n - breaks a - 2) + column - 1 <=? zlen u then
            inr (inl (mkNodePosition (nid d) (lstart u (n - breaks a - 2) + column - 1) start))
          else inr (inr (nid d, column - (zlen u - lstart u (n - breaks a - 2))))
        else inl (rid r, n - (breaks a + breaks u), start + (zlen a + zlen u)), s)) as Hbody.
    { unfold nodeAt2_body. rewrite same_ne by done. erewrite pbind_run by exact Hnode.
      cbn [TreeNode.left TreeNode.right TreeNode.lf_left TreeNode.size_left cell]. rewrite Hl, Hlf, Fl, Hleft.
      erewrite pbind_run by exact Hpiece. cbn zeta. rewrite Fd, Hsl, Tl, Ld. destruct (_ <? _).
      - erewrite pbind_run by apply Hacc. by erewrite pbind_run by apply Hacc.
      - destruct (_ === _); [| done]. erewrite pbind_run by apply Hacc. by destruct (lstart _ _ + _ - 1 <=? zlen u). }
    destruct (Z.ltb_spec (n - 1) (breaks a + breaks u)) as [Hin | Hout];
      [| destruct (Z.eqb_spec (breaks a + breaks u) (n - 1)) as [Hat | Hgt]].
    + assert (o = zlen a + (lstart u (n - breaks a - 2) + column - 1)) as Ho.
      { unfold o. rewrite Hls, lstart_app_l by (done || lia). replace (n - 2 - breaks a) with (n - breaks a - 2) by lia. lia. }
      rewrite Hls, lstart_app_l in Hnext by (done || lia). specialize (Hnext ltac:(lia)).
      replace (n - 1 - breaks a) with (n - breaks a - 1) in Hnext by lia.
      eexists. split; [apply piter_stop; exact Hbody |]. exists (nodes l), (npiece d), (nodes r). cbn [np_node np_remainder].
      pose proof (lstart_bounds u (n - breaks a - 1)). pose proof (lstart_bounds u (n - breaks a - 2)).
      split; [done |]. rewrite Zl, Ld, Z.min_l by lia. split; lia.
    + assert (o = zlen a + (lstart u (n - breaks a - 2) + column - 1)) as Ho.
      { unfold o. rewrite Hls, lstart_app_l by (done || lia). replace (n - 2 - breaks a) with (n - breaks a - 2) by lia. lia. }
      pose proof (lstart_bounds u (n - breaks a - 2)).
      destruct (Z.leb_spec (lstart u (n - breaks a - 2) + column - 1) (zlen u)) as [Hle | Hgt].
      * eexists. split; [apply piter_stop; exact Hbody |]. exists (nodes l), (npiece d), (nodes r). cbn [np_node np_remainder].
        split; [done |]. rewrite Zl, Ld. split; lia.
      * eexists. split; [apply piter_stop; exact Hbody |]. exists (nodes l), (npiece d), (nodes r).
        split; [done |]. split; [lia |]. rewrite nsize_app, nsize_cons, text_app, text_one, Zl, Ld. change (nsize []) with 0.
        fold a u. rewrite breaks_app by done. lia.
    + assert (seam (a ++ u) e) as Saue by (destruct (decide (u = [])) as [Hu |]; [| by apply seam_left]; exfalso; by apply (piece_ok_ne _ _ Pd)).
      assert (text (_buffers s) (nodes l ++ [(nid d, npiece d)]) = a ++ u) as Hau by (by rewrite text_app, text_one).
      assert (nsize (nodes l ++ [(nid d, npiece d)]) = zlen a + zlen u) as Zau
        by (rewrite nsize_app, nsize_cons, Zl, Ld; change (nsize []) with 0; lia).
      assert (forall i, n - 2 <= i -> lstart str i = zlen a + zlen u + lstart e (i - (breaks a + breaks u))) as Hlr.
      { intros i Hi. rewrite Hls, lstart_app_r by (done || lia). replace (i - breaks a - breaks u) with (i - (breaks a + breaks u)) by lia. lia. }
      assert (o = zlen a + zlen u + (lstart e (n - (breaks a + breaks u) - 2) + column - 1)) as Ho.
      { unfold o. rewrite Hlr by lia. replace (n - 2 - _) with (n - (breaks a + breaks u) - 2) by lia. lia. }
      destruct (IHr (FR d l :: c) (n - (breaks a + breaks u)) (start + (zlen a + zlen u)) fuel) as (res & H1 & H2); try done; try lia.
      { intros ->. unfold e in Hbr. cbn [nodes] in Hbr. rewrite text_nil in Hbr. change (breaks []) with 0 in Hbr. lia. }
      { fold e. intros Hlt. rewrite Hlr in Hnext by lia. replace (n - (breaks a + breaks u) - 1) with (n - 1 - (breaks a + breaks u)) by lia. lia. }
      exists res. split; [erewrite piter_next by exact Hbody; exact H1 |].
      rewrite cons_middle, app_assoc, Ho. replace n with (n - (breaks a + breaks u) + breaks (a ++ u)) at 1 by (rewrite breaks_app by done; lia).
      rewrite <- Zau, <- Hau. apply descended_r; [by rewrite Hau |]. exact H2.
Qed.

Definition nodeAt2_walk (st : ref * Z) : P ((ref * Z) + option NodePosition) :=
  let '(x, column) := st in
  if same x SENTINEL then mret (inr None) else
  p ← piece_of x;
  if 0 <? Piece.lineFeedCnt p then
    acc ← bufs (fun bs => getAccumulatedValue bs p 0);
    nodeStartOffset ← offsetOfNode x;
    mret (inr (Some (mkNodePosition x (Z.min (column - 1) acc) nodeStartOffset)))
  else if column - 1 <=? Piece.length p then
    nodeStartOffset ← offsetOfNode x;
    mret (inr (Some (mkNodePosition x (column - 1) nodeStartOffset)))
  else
    x' ← rbt (next x);
    mret (inl (x', column - Piece.length p)).

(** The line that runs on from the nodes [l1] ends at the end of the text or where
    the first break of the nodes [k] starts the next line. *)
Lemma nodeAt2_walk_ok F s k l1 column fuel o :
  docs F s (l1 ++ k) -> 1 < column -> nsize l1 + column - 1 = o -> o <= nsize (l1 ++ k) ->
  (0 < breaks (text (_buffers s) k) -> column - 1 < lstart (text (_buffers s) k) 0) ->
  (length k < fuel)%nat ->
  exists pos, piter fuel nodeAt2_walk (hd SENTINEL (fst <$> k), column) s = Ret (Some pos, s) /\ pos_at (l1 ++ k) pos o.
Proof.
  revert l1 column fuel. induction k as [| [x p] k IH]; intros l1 column fuel Hd Hcol Ho Hend Hnext Hf.
  - rewrite nsize_app in Hend. change (nsize []) with 0 in Hend. lia.
  - destruct fuel as [| fuel]; [lia |]. cbn in Hf. cbn [fmap list_fmap fst hd].
    pose proof (doc_pieces Hd) as [_ [Hp Hk]%Forall_cons]%Forall_app. cbn [snd] in Hp.
    pose proof (doc_sealed Hd) as (_ & [_ Hsm]%sealed_cons & _)%sealed_app. rewrite text_cons in Hnext.
    pose proof (piece_ok_zlen _ _ Hp) as Hz. set (u := contents _ p) in *. set (e := text _ k) in *.
    assert (Piece.lineFeedCnt p = breaks u) as Hlf by (by destruct Hp as (b & so & eo & _ & _ & ?)).
    pose proof (fits_holds (doc_fits Hd)) as Hh. pose proof (breaks_nonneg u). pose proof (breaks_nonneg e).
    assert (piece_of x s = Ret (p, s)) as Hpiece by (eapply fits_piece_mid; apply (doc_fits Hd)).
    assert (x <> SENTINEL) as Hne by (eapply (holds_ne _ _ x p Hh); set_solver).
    rewrite breaks_app in Hnext by done.
    destruct (Z.ltb_spec 0 (breaks u)) as [Hb | Hb]; [| destruct (Z.leb_spec (column - 1) (zlen u)) as [Hle | Hgt]].
    + rewrite lstart_app_l in Hnext by done. specialize (Hnext ltac:(lia)). pose proof (lstart_bounds u 0).
      eexists. split.
      * apply piter_stop. unfold nodeAt2_walk. rewrite same_ne by done. erewrite pbind_run by exact Hpiece.
        rewrite Hlf, (proj2 (Z.ltb_lt _ _) Hb). erewrite pbind_run by (apply bufs_run; by apply getAccumulatedValue_ok).
        erewrite pbind_run by (by eapply offsetOfNode_ok). reflexivity.
      * exists l1, p, k. cbn [np_node np_remainder]. fold u. split; [done |]. rewrite Z.min_l by lia. lia.
    + eexists. split.
      * apply piter_stop. unfold nodeAt2_walk. rewrite same_ne by done. erewrite pbind_run by exact Hpiece.
        rewrite Hlf, (proj2 (Z.ltb_ge _ _) Hb), <- Hz, (proj2 (Z.leb_le _ _) Hle).
        erewrite pbind_run by (by eapply offsetOfNode_ok). reflexivity.
      * exists l1, p, k. cbn [np_node np_remainder]. split; [done |]. lia.
    + assert (breaks u = 0) as Hb0 by lia. rewrite Hb0 in Hnext.
      rewrite cons_middle, app_assoc in Hd, Hend |- *.
      destruct (IH (l1 ++ [(x, p)]) (column - zlen u) fuel Hd) as (pos & H1 & H2); [lia | | done | | lia |].
      * rewrite nsize_app, nsize_cons. change (nsize []) with 0. lia.
      * intros Hlt. specialize (Hnext ltac:(lia)). rewrite lstart_app_r in Hnext by (done || lia). fold e.
        rewrite Hb0, Z.sub_0_r in Hnext. lia.
      * exists pos. split; [| done]. erewrite piter_next; [exact H1 |].
        unfold nodeAt2_walk. rewrite same_ne by done. erewrite pbind_run by exact Hpiece.
        rewrite Hlf, (proj2 (Z.ltb_ge _ _) Hb), <- Hz, (proj2 (Z.leb_gt _ _) Hgt).
        erewrite pbind_run by (eapply holds_next; exact Hh). done.
Qed.

Lemma nodeAt2_ok F s L n column o :
  docs F s L -> L <> [] -> at_offset (text (_buffers s) L) n column o ->
  exists pos, nodeAt2 n column s = Ret (Some pos, s) /\ pos_at L pos o.
Proof.
  intros Hd Hne [Hn Hcol Ho Hend Hnext].
  pose proof (fits_holds (doc_fits Hd)) as (t & (Hr & Hm & _) & HL). unfold nodeAt2, nodeAt2_descend. subst L.
  destruct (nodeAt2_descend_ok F s [] t n column 0 (S (S (size (heap (tr s)))))) as (r & H1 & H2); try done.
  - apply Hd.
  - apply Hd.
  - by intros ->.
  - pose proof (reps_size _ _ Hr). lia.
  - intros Hlt. rewrite <- Ho. by apply Hnext.
  - rewrite <- Ho in H2. erewrite pbind_run.
    2: { erewrite pbind_run by (apply rbt_run; unfold get_root; by rewrite (reps_root _ _ Hr)).
         erewrite pbind_run by (apply rbt_run; reflexivity). exact H1. }
    destruct r as [pos | [x col]]; [by exists pos |].
    destruct H2 as (l1 & p & l2 & HL & Hc & Hsz & Hbr). rewrite HL in *.
    pose proof (fits_holds (doc_fits Hd)) as Hh. erewrite pbind_run by (eapply holds_next; exact Hh).
    erewrite pbind_run by (apply rbt_run; reflexivity).
    pose proof (text_size _ _ (doc_pieces Hd)) as Hz.
    rewrite cons_middle, app_assoc in Hd, Hend, Hnext, Ho, Hz |- *.
    eapply (nodeAt2_walk_ok F s l2 (l1 ++ [(x, p)]) col); [done | done | done | by rewrite Hz | |].
    + intros Hb. pose proof (doc_sealed Hd) as (_ & _ & Hsm)%sealed_app. rewrite text_app in Hnext.
      rewrite breaks_app, (lstart_app_r _ _ (n - 1)), Hbr, Z.sub_diag in Hnext by (done || lia). specialize (Hnext ltac:(lia)).
      rewrite <- (text_size _ (l1 ++ [(x, p)])) in Hnext by (pose proof (doc_pieces Hd) as [? _]%Forall_app; done).
      lia.
    + pose proof (reps_size _ _ Hr) as Hsize. assert (length (nodes t) = length (ids t)) as Hlen by (by rewrite <- fmap_nodes, length_fmap).
      rewrite HL, length_app in Hlen. cbn in Hlen. lia.
Qed.

(** ** The text between two node positions *)

(** The units of a piece between two remainders. *)
Lemma piece_part F s l1 x p l2 :
  docs F s (l1 ++ (x, p) :: l2) ->
  exists buffer so, piece_of x s = Ret (p, s) /\ bufs (fun bs => buffer_text bs p) s = Ret (buffer, s) /\
    bufs (fun bs => offsetInBuffer bs (Piece.bufferIndex p) (Piece.start p)) s = Ret (so, s) /\
    (forall i j, 0 <= i <= j -> j <= Piece.length p ->
       js_substring buffer (so + i) (so + j) = zdrop i (ztake j (contents (_buffers s) p))) /\
    js_substr buffer so (Piece.length p) = contents (_buffers s) p.
Proof.
  intros Hd. pose proof (doc_pieces Hd) as [_ [Hp _]%Forall_cons]%Forall_app. cbn [snd] in Hp.
  destruct Hp as (b & so & eo & Hsp & Hlt & _). pose proof (spans_bounds _ _ _ _ _ Hsp) as Hbd.
  pose proof (sp_length Hsp) as Hl. exists (StringBuffer.buffer b), so. split_and!.
  - eapply fits_piece_mid. apply (doc_fits Hd).
  - apply bufs_run. unfold buffer_text, buffer_at. by rewrite (sp_buffer Hsp).
  - apply bufs_run. eapply offsetInBuffer_ok; apply Hsp.
  - intros i j Hij Hj. rewrite (spans_contents _ _ _ _ _ Hsp), ztake_substring, zdrop_substring by lia. done.
  - rewrite (spans_contents _ _ _ _ _ Hsp). replace eo with (so + Piece.length p) by lia.
    rewrite js_substring_eq by lia. unfold js_substr, js_index. rewrite (proj2 (Z.ltb_ge _ _)), (Z.min_l so), Z.min_l by lia.
    f_equal. lia.
Qed.

(** The units of a text between two offsets. *)
Definition slice (str : jsstring) (o1 o2 : Z) : jsstring := zdrop o1 (ztake o2 str).

Lemma slice_mid a u b i j :
  0 <= i <= j -> j <= zlen u -> slice (a ++ u ++ b) (zlen a + i) (zlen a + j) = zdrop i (ztake j u).
Proof.
  intros Hi Hj. unfold slice. rewrite ztake_app_r by lia. rewrite Z.add_simpl_l, ztake_app_l by lia.
  rewrite zdrop_app_r by lia. by rewrite Z.add_simpl_l.
Qed.

Lemma slice_span a u m v b i j :
  0 <= i <= zlen u -> 0 <= j <= zlen v ->
  slice (a ++ u ++ m ++ v ++ b) (zlen a + i) (zlen a + zlen u + zlen m + j) = zdrop i u ++ m ++ ztake j v.
Proof.
  intros Hi Hj. pose proof (zlen_nonneg m).
  replace (a ++ u ++ m ++ v ++ b) with (a ++ (u ++ m ++ v) ++ b) by (by rewrite <- !app_assoc).
  replace (zlen a + zlen u + zlen m + j) with (zlen a + (zlen (u ++ m) + j)) by (rewrite zlen_app; lia).
  rewrite slice_mid; [| rewrite !zlen_app; lia | rewrite !zlen_app; lia].
  rewrite (app_assoc u), ztake_app_r by lia. rewrite Z.add_simpl_l, <- app_assoc. by rewrite zdrop_app_l by lia.
Qed.

Definition readRange_body (last : NodePosition) (st : ref * jsstring) : P ((ref * jsstring) + jsstring) :=
  let '(x, ret) := st in
  if same x SENTINEL then mret (inr ret) else
  p ← piece_of x;
  buffer ← bufs (fun bs => buffer_text bs p);
  startOffset ← bufs (fun bs => offsetInBuffer bs (Piece.bufferIndex p) (Piece.start p));
  if same x (np_node last) then
    mret (inr (ret ++ js_substring buffer startOffset (startOffset + np_remainder last)))
  else
    x' ← rbt (next x);
    mret (inl (x', ret ++ js_substr buffer startOffset (Piece.length p))).

Lemma readRange_ok F s last q m : forall l1 k ret fuel,
  docs F s (l1 ++ m ++ (np_node last, q) :: k) -> 0 <= np_remainder last <= Piece.length q -> (length m < fuel)%nat ->
  piter fuel (readRange_body last) (hd SENTINEL (fst <$> m ++ (np_node last, q) :: k), ret) s
  = Ret (ret ++ text (_buffers s) m ++ ztake (np_remainder last) (contents (_buffers s) q), s).
Proof.
  induction m as [| [x p] m IH]; intros l1 k ret fuel Hd Hrem Hf; (destruct fuel as [| fuel]; [lia |]).
  - cbn [app fmap list_fmap fst hd] in *. destruct (piece_part _ _ _ _ _ _ Hd) as (buffer & so & H1 & H2 & H3 & H4 & _).
    assert (np_node last <> SENTINEL) as Hne by (eapply (holds_ne _ _ _ q (fits_holds (doc_fits Hd))); set_solver).
    apply piter_stop. unfold readRange_body. rewrite same_ne by done. erewrite pbind_run by exact H1.
    erewrite pbind_run by exact H2. erewrite pbind_run by exact H3. rewrite same_eq.
    specialize (H4 0 (np_remainder last)). rewrite Z.add_0_r in H4. rewrite H4 by lia. rewrite zdrop_0, text_nil. done.
  - cbn in Hf. cbn [app fmap list_fmap fst hd] in *. pose proof Hd as Hd'.
    destruct (piece_part _ _ _ _ _ _ Hd) as (buffer & so & H1 & H2 & H3 & _ & H5).
    assert (x <> SENTINEL) as Hne by (eapply (holds_ne _ _ _ p (fits_holds (doc_fits Hd))); set_solver).
    assert (x <> np_node last) as Hnl.
    { pose proof (holds_nodup _ _ (fits_holds (doc_fits Hd))) as Hnd. rewrite fmap_app, fmap_cons, fmap_app, fmap_cons in Hnd.
      apply NoDup_app in Hnd as (_ & _ & [Hn _]%NoDup_cons). intros ->. apply Hn. cbn. set_solver. }
    rewrite cons_middle, app_assoc in Hd'. erewrite piter_next; [erewrite (IH _ _ (ret ++ contents (_buffers s) p) _ Hd') by lia |].
    2: { unfold readRange_body. rewrite same_ne by done. erewrite pbind_run by exact H1.
         erewrite pbind_run by exact H2. erewrite pbind_run by exact H3. rewrite (same_ne x) by done.
         erewrite pbind_run by (eapply holds_next; apply (doc_fits Hd)). by rewrite H5. }
    by rewrite text_cons, <- !app_assoc.
Qed.

Lemma split_unique_seq (x : ref) (p q : Piece.t) (l1 l2 k1 k2 : seq) :
  NoDup (fst <$> l1 ++ (x, p) :: l2) -> l1 ++ (x, p) :: l2 = k1 ++ (x, q) :: k2 -> k1 = l1 /\ q = p /\ k2 = l2.
Proof.
  revert k1. induction l1 as [| a l1 IH]; intros [| b k1] Hnd Heq; cbn in *; simplify_eq;
    [done | | |]; apply NoDup_cons in Hnd as [Hx Hnd].
  - exfalso. apply Hx. rewrite fmap_app. cbn. set_solver.
  - exfalso. apply Hx. rewrite fmap_app. cbn. set_solver.
  - destruct (IH k1) as (-> & -> & ->); done.
Qed.

Lemma getValueInRange2_ok F s L pos1 pos2 o1 o2 :
  docs F s L -> pos_at L pos1 o1 -> pos_at L pos2 o2 -> o1 < o2 ->
  getValueInRange2 pos1 pos2 s = Ret (slice (text (_buffers s) L) o1 o2, s).
Proof.
  intros Hd (l1 & p & l2 & HL & <- & Hr1) (k1 & q & k2 & HK & <- & Hr2) Hlt.
  pose proof (holds_nodup _ _ (fits_holds (doc_fits Hd))) as Hnd. pose proof (doc_pieces Hd) as HP.
  unfold getValueInRange2. destruct (decide (np_node pos1 = np_node pos2)) as [He | Hne].
  - rewrite <- He in HK |- *. rewrite same_eq.
    assert (k1 = l1 /\ q = p /\ k2 = l2) as (-> & -> & ->).
    { rewrite HL in HK, Hnd. destruct (split_unique_seq _ _ _ _ _ _ _ Hnd HK) as (-> & -> & ->). done. }
    rewrite HL in Hd, HP |- *. apply Forall_app in HP as [HPl [Hp _]%Forall_cons]. cbn [snd] in Hp.
    destruct (piece_part _ _ _ _ _ _ Hd) as (buffer & so & H1 & H2 & H3 & H4 & _).
    erewrite pbind_run by exact H1. erewrite pbind_run by exact H2. erewrite pbind_run by exact H3.
    rewrite H4, text_app, text_cons, (text_size _ _ HPl) by lia.
    rewrite slice_mid; [done | lia | rewrite (piece_ok_zlen _ _ Hp); lia].
  - rewrite same_ne by done.
    assert (exists m, l2 = m ++ (np_node pos2, q) :: k2) as [m ->].
    { rewrite HL in HK. apply app_eq_app in HK as (r & [[-> HK] | [-> HK]]).
      - destruct r as [| g r]; [by injection HK as ? ? ?|]. cbn in HK. injection HK as <- ->.
        exfalso. rewrite nsize_app, nsize_cons in Hlt.
        rewrite HL in HP. apply Forall_app in HP as [[_ [_ HPr]%Forall_cons]%Forall_app _].
        pose proof (nsize_nonneg _ (pieces_lengths _ _ HPr)). lia.
      - destruct r as [| g r]; [by injection HK as ? ? ?|]. cbn in HK. injection HK as <- ->. by exists r. }
    rewrite HL in Hd, HP |- *. apply Forall_app in HP as [HPl [Hp [HPm [Hq HPr]%Forall_cons]%Forall_app]%Forall_cons]. cbn [snd] in Hp, Hq.
    assert (k1 = l1 ++ (np_node pos1, p) :: m) as ->.
    { rewrite HL in HK, Hnd. rewrite app_comm_cons, app_assoc in HK, Hnd.
      by destruct (split_unique_seq _ _ _ _ _ _ _ Hnd HK) as (-> & _ & _). }
    destruct (piece_part _ _ _ _ _ _ Hd) as (buffer & so & H1 & H2 & H3 & H4 & _).
    erewrite pbind_run by exact H1. erewrite pbind_run by exact H2. erewrite pbind_run by exact H3.
    erewrite pbind_run by (eapply holds_next; apply (doc_fits Hd)). erewrite pbind_run by (apply rbt_run; reflexivity).
    pose proof Hd as Hd'. rewrite cons_middle, app_assoc in Hd'. fold (readRange_body pos2).
    rewrite (readRange_ok F s pos2 q m _ _ _ _ Hd' Hr2).
    + rewrite H4 by lia. rewrite ztake_all by (rewrite (piece_ok_zlen _ _ Hp); lia).
      rewrite text_app, text_cons, text_app, text_cons, nsize_app, nsize_cons.
      rewrite (text_size _ _ HPl), (text_size _ _ HPm), <- (piece_ok_zlen _ _ Hp) in *.
      rewrite <- (piece_ok_zlen _ _ Hq) in Hr2.
      replace (_ + _ + np_remainder pos2) with (zlen (text (_buffers s) l1) + zlen (contents (_buffers s) p) + zlen (text (_buffers s) m) + np_remainder pos2) by lia.
      by rewrite slice_span by lia.
    + pose proof (fits_holds (doc_fits Hd)) as (t & (Hr & _) & Hn). pose proof (reps_size _ _ Hr).
      assert (length (nodes t) = length (ids t)) as Hlen by (by rewrite <- fmap_nodes, length_fmap).
      rewrite Hn, length_app in Hlen. cbn in Hlen. rewrite length_app in Hlen. lia.
Qed.

(** ** Reading a range *)

Lemma doc_nodes F s (L : seq) str : docs F s L -> text (_buffers s) L = str -> str <> [] -> L <> [].
Proof. intros _ <- Hne ->. by rewrite text_nil in Hne. Qed.

(** The text of a range with the line end asked for. *)
Definition with_eol (s : state) (eol : option jsstring) (value : jsstring) : jsstring :=
  match eol with
  | Some ((_ :: _) as eol) => if bool_decide (eol = _EOL s) && _EOLNormalized s then value else replace_eol eol value
  | _ => value
  end.

Lemma getValueInRange_ok s str range eol o1 o2 :
  is_doc s str ->
  at_offset str (Range.startLineNumber range) (Range.startColumn range) o1 ->
  at_offset str (Range.endLineNumber range) (Range.endColumn range) o2 -> o1 < o2 ->
  getValueInRange range eol s = Ret (with_eol s eol (slice str o1 o2), s).
Proof.
  intros (F & L & Hd & Ht & _) H1 H2 Hlt. subst str.
  assert (L <> []) as Hne.
  { intros ->. rewrite text_nil in *. pose proof (at_end _ _ _ _ H2). rewrite (at_eq _ _ _ _ H1) in Hlt. pose proof (at_column _ _ _ _ H1).
    pose proof (lstart_bounds [] (Range.startLineNumber range - 2)). change (zlen []) with 0 in *. lia. }
  unfold getValueInRange. destruct (_ && _) eqn:Hsame.
  - apply andb_true_iff in Hsame as [E1%Z.eqb_eq E2%Z.eqb_eq].
    rewrite (at_eq _ _ _ _ H1), (at_eq _ _ _ _ H2), E1, E2 in Hlt. lia.
  - destruct (nodeAt2_ok _ _ _ _ _ _ Hd Hne H1) as (pos1 & N1 & P1). destruct (nodeAt2_ok _ _ _ _ _ _ Hd Hne H2) as (pos2 & N2 & P2).
    erewrite pbind_run by exact N1. erewrite pbind_run by exact N2. do 2 erewrite pbind_run by done.
    erewrite pbind_run by (by eapply getValueInRange2_ok). unfold with_eol.
    destruct eol as [[| c eol] |]; [done | | done]. do 2 erewrite pbind_run by done.
    destruct (decide (c :: eol = _EOL s)) as [E1 | E1];
      [rewrite !(bool_decide_eq_true_2 _ E1) | rewrite !(bool_decide_eq_false_2 _ E1)]; by destruct (_EOLNormalized s).
Qed.

(** A position of the text, in terms of the line starts found in it. *)
Lemma at_offset_intro str n column o :
  znth (createLineStartsFast str false) (n - 1) = Some (o - (column - 1)) -> 1 <= column -> o <= zlen str ->
  (forall o', znth (createLineStartsFast str false) n = Some o' -> o < o') -> at_offset str n column o.
Proof.
  intros Hn Hc Ho Hnext. unfold createLineStartsFast in *. pose proof (znth_Some _ _ _ Hn) as Hb. rewrite zlen_cons in Hb.
  assert (lstart str (n - 2) = o - (column - 1)) as Hls.
  { destruct (decide (n = 1)) as [-> |]; [by injection Hn as <- |]. rewrite znth_cons_S in Hn by lia.
    replace (n - 1 - 1) with (n - 2) in Hn by lia. by apply lstart_some; [lia |]. }
  constructor; [unfold breaks; lia | done | lia | done |].
  intros Hlt. destruct (znth_is_Some (lineStarts_loop 0 str) (n - 1)) as [k Hk]; [unfold breaks in Hlt; lia |].
  rewrite (lstart_some str (n - 1) k) by (done || lia). apply Hnext. rewrite znth_cons_S by lia. done.
Qed.
