(* ===== verification/PieceTreeContent.v ===== *)
(** * The content of lines

    [getLineContent] of [PieceTreeBase] finds a line by the line feed counts in the
    tree, or from the entry of the search cache, and remembers the line it returned
    last.  For a document it returns the text of the line without its line break. *)

From stdpp Require Import gmap.
From S2P Require Import Prelude Position Range RBTree RBTreeRep RBTreeOps RBTreeInsert RBTreeDelete RBTreeRemove.
From S2P Require Import PieceBuffers PieceTree PieceTreeEdit PieceTreeNodes PieceTreeRead PieceTreeList PieceTreeText.
From S2P Require Import PieceTreePieces PieceTreeChange PieceTreeSeal PieceTreeInsert PieceTreeDocument.
From S2P Require Import PieceTreeErase PieceTreeCreate PieceTreeChars PieceTreeLines PieceTreeRange.

(** ** Lines of a text *)

Lemma lstart_mono str i j : i <= j -> lstart str i <= lstart str j.
Proof.
  intros Hij. destruct (decide (i < 0)) as [Hi | Hi]; [rewrite (lstart_neg str i Hi); apply lstart_bounds |].
  destruct (decide (breaks str <= j)) as [Hj | Hj]; [rewrite (lstart_high str j) by lia; apply lstart_bounds |].
  destruct (znth_is_Some (lineStarts_loop 0 str) i) as [x Hx]; [unfold breaks in Hj; lia |].
  destruct (znth_is_Some (lineStarts_loop 0 str) j) as [y Hy]; [unfold breaks in Hj; lia |].
  rewrite (lstart_some str i x), (lstart_some str j y) by (done || lia).
  destruct (decide (i = j)) as [-> |]; [assert (x = y) by congruence; lia |].
  pose proof (sorted_znth _ _ _ _ _ (starts_sorted str) Hx Hy ltac:(lia)). lia.
Qed.

(** The units of line [n] up to [cut] before its end. *)
Definition line_part (str : jsstring) (n cut : Z) : jsstring := slice str (lstart str (n - 2)) (lstart str (n - 1) - cut).

(** The last [cut] units of every line with a break lie behind its start. *)
Definition cut_ok (cut : Z) (str : jsstring) : Prop :=
  forall i, 0 <= i < breaks str -> lstart str (i - 1) + cut <= lstart str i.

Lemma cut_ok_0 str : cut_ok 0 str.
Proof. intros i _. pose proof (lstart_mono str (i - 1) i). lia. Qed.

Lemma slice_app_l a b i j : j <= zlen a -> slice (a ++ b) i j = slice a i j.
Proof. intros Hj. unfold slice. by rewrite ztake_app_l. Qed.

Lemma slice_app_r a b i j : 0 <= i -> 0 <= j -> slice (a ++ b) (zlen a + i) (zlen a + j) = slice b i j.
Proof.
  intros Hi Hj. unfold slice. rewrite ztake_app_r by lia. rewrite Z.add_simpl_l.
  rewrite zdrop_app_r by lia. by rewrite Z.add_simpl_l.
Qed.

Lemma line_part_l a b n cut : seam a b -> 0 <= cut -> n - 1 < breaks a -> line_part (a ++ b) n cut = line_part a n cut.
Proof.
  intros Hs Hc Hn. unfold line_part. rewrite !lstart_app_l by (done || lia). apply slice_app_l.
  pose proof (lstart_bounds a (n - 1)). lia.
Qed.

Lemma line_part_r a b n cut :
  seam a b -> breaks a <= n - 2 -> 0 <= n - 2 -> cut <= lstart b (n - 1 - breaks a) ->
  line_part (a ++ b) n cut = line_part b (n - breaks a) cut.
Proof.
  intros Hs Hn H0 Hc. unfold line_part. rewrite !lstart_app_r by (done || lia).
  replace (n - breaks a - 2) with (n - 2 - breaks a) by lia. replace (n - breaks a - 1) with (n - 1 - breaks a) by lia.
  rewrite <- Z.add_sub_assoc. apply slice_app_r; [apply lstart_bounds | lia].
Qed.

(** A line that starts in [a] (its last line) and ends in [b]. *)
Lemma line_part_mid a b n cut :
  seam a b -> breaks a = n - 1 -> 1 <= n -> cut <= lstart b 0 ->
  line_part (a ++ b) n cut = zdrop (lstart a (n - 2)) a ++ ztake (lstart b 0 - cut) b.
Proof.
  intros Hs Hn H1 Hc. unfold line_part, slice. rewrite (lstart_app_l a b (n - 2)), (lstart_app_r a b (n - 1)) by (done || lia).
  rewrite Hn, Z.sub_diag, ztake_app_r by lia. replace (zlen a + lstart b 0 - cut - zlen a) with (lstart b 0 - cut) by lia.
  rewrite zdrop_app_l; [done | apply lstart_bounds].
Qed.

(** ** Finding the line in the tree *)

Definition getLineRaw_body (originalLineNumber endOffset : Z) (st : ref * Z * Z)
    : P ((ref * Z * Z) + (jsstring + ref * jsstring)) :=
  let '(x, lineNumber, nodeStartOffset) := st in
  if same x SENTINEL then mret (inr (inr (x, []))) else
  n ← node_of x;
  if negb (same (TreeNode.left n) SENTINEL) && (lineNumber - 1 <=? TreeNode.lf_left n) then
    mret (inl (TreeNode.left n, lineNumber, nodeStartOffset))
  else
    p ← piece_of x;
    let lf := TreeNode.lf_left n + Piece.lineFeedCnt p in
    if lineNumber - 1 <? lf then
      prevAcc ← bufs (fun bs => getAccumulatedValue bs p (lineNumber - TreeNode.lf_left n - 2));
      acc ← bufs (fun bs => getAccumulatedValue bs p (lineNumber - TreeNode.lf_left n - 1));
      buffer ← bufs (fun bs => buffer_text bs p);
      startOffset ← bufs (fun bs => offsetInBuffer bs (Piece.bufferIndex p) (Piece.start p));
      cacheSet (mkEntry x (nodeStartOffset + TreeNode.size_left n)
                  (Some (originalLineNumber - (lineNumber - 1 - TreeNode.lf_left n))));;
      mret (inr (inl (js_substring buffer (startOffset + prevAcc) (startOffset + acc - endOffset))))
    else if lf === lineNumber - 1 then
      prevAcc ← bufs (fun bs => getAccumulatedValue bs p (lineNumber - TreeNode.lf_left n - 2));
      buffer ← bufs (fun bs => buffer_text bs p);
      startOffset ← bufs (fun bs => offsetInBuffer bs (Piece.bufferIndex p) (Piece.start p));
      mret (inr (inr (x, js_substring buffer (startOffset + prevAcc) (startOffset + Piece.length p))))
    else
      mret (inl (TreeNode.right n, lineNumber - lf,
                 nodeStartOffset + (TreeNode.size_left n + Piece.length p))).

Lemma cacheSet_run e s :
  cacheSet e s = Ret (tt, set_cache ((if _limit s <=? zlen (_cache s) then tail (_cache s) else _cache s) ++ [e]) s).
Proof. unfold cacheSet. do 2 erewrite pbind_run by done. done. Qed.

(** What the descent into the nodes [K] ends with: the line and a new cache entry for
    its node, or the node up to which the line runs, with its text so far. *)
Definition raw_found (bs : list StringBuffer.t) (K : seq) (n cut start orig : Z) (s : state)
    (r : jsstring + ref * jsstring) (s' : state) : Prop :=
  match r with
  | inl ret => exists l1 x p l2, K = l1 ++ (x, p) :: l2 /\ ret = line_part (text bs K) n cut /\
      n - 1 < breaks (text bs K) /\ cut <= lstart (text bs K) (n - 1) /\
      cacheSet (mkEntry x (start + nsize l1) (Some (orig - (n - 1 - breaks (text bs l1))))) s = Ret (tt, s')
  | inr (x, ret) => exists l1 p l2, K = l1 ++ (x, p) :: l2 /\ breaks (text bs (l1 ++ [(x, p)])) = n - 1 /\
      ret = zdrop (lstart (text bs (l1 ++ [(x, p)])) (n - 2)) (text bs (l1 ++ [(x, p)])) /\ s' = s
  end.

Lemma raw_found_l bs K K' n cut start orig s r s' :
  seam (text bs K) (text bs K') -> 0 <= cut ->
  raw_found bs K n cut start orig s r s' -> raw_found bs (K ++ K') n cut start orig s r s'.
Proof.
  intros Hs Hc. destruct r as [ret | [x ret]].
  - intros (l1 & x & p & l2 & HK & -> & Hn & Hcut & H). exists l1, x, p, (l2 ++ K').
    rewrite text_app, line_part_l, lstart_app_l, breaks_app by done. pose proof (breaks_nonneg (text bs K')).
    split; [rewrite HK; by rewrite <- app_assoc |]. split_and!; [done | lia | done | done].
  - intros (l1 & p & l2 & -> & H). exists l1, p, (l2 ++ K'). by rewrite <- app_assoc.
Qed.

Lemma raw_found_r bs K K' n cut start orig s r s' :
  seam (text bs K) (text bs K') -> breaks (text bs K) <= n - 2 ->
  raw_found bs K' (n - breaks (text bs K)) cut (start + nsize K) orig s r s' ->
  zlen (text bs K) = nsize K -> raw_found bs (K ++ K') n cut start orig s r s'.
Proof.
  intros Hs Hn H Hz. pose proof (breaks_nonneg (text bs K)) as H0. destruct r as [ret | [x ret]].
  - destruct H as (l1 & x & p & l2 & HK & -> & Hb & Hcut & H). exists (K ++ l1), x, p, l2.
    replace (n - breaks (text bs K) - 1) with (n - 1 - breaks (text bs K)) in Hcut by lia.
    pose proof (zlen_nonneg (text bs K)). pose proof (lstart_bounds (text bs K') (n - 1 - breaks (text bs K))).
    rewrite text_app, line_part_r, lstart_app_r, breaks_app by (done || lia).
    split; [by rewrite HK, <- app_assoc |]. split_and!; [done | lia | lia |].
    rewrite nsize_app, text_app, breaks_app; [| rewrite HK, text_app in Hs; by apply seam_of_app_r in Hs].
    rewrite Z.add_assoc. by replace (n - 1 - _) with (n - breaks (text bs K) - 1 - breaks (text bs l1)) by lia.
  - destruct H as (l1 & p & l2 & -> & Hb & -> & ->). exists (K ++ l1), p, l2.
    assert (seam (text bs K) (text bs (l1 ++ [(x, p)]))) as Hs'.
    { rewrite cons_middle, app_assoc, text_app in Hs. by apply seam_of_app_r in Hs. }
    rewrite <- !app_assoc. rewrite (text_app _ K), breaks_app, lstart_app_r by (done || lia).
    split_and!; [done | lia | | done].
    rewrite zdrop_app_r; [| pose proof (lstart_bounds (text bs (l1 ++ [(x, p)])) (n - 2 - breaks (text bs K))); lia].
    rewrite Z.add_simpl_l. by replace (n - 2 - _) with (n - breaks (text bs K) - 2) by lia.
Qed.

(** The part of a line in one piece, as the code cuts it out of the buffer. *)
Lemma piece_line F s l1 x p l2 cut i :
  docs F s (l1 ++ (x, p) :: l2) -> cut_ok cut (contents (_buffers s) p) -> 0 <= cut -> 0 <= i < breaks (contents (_buffers s) p) ->
  let u := contents (_buffers s) p in
  forall B (k : jsstring -> P B),
  (buffer ← bufs (fun bs => buffer_text bs p);
   startOffset ← bufs (fun bs => offsetInBuffer bs (Piece.bufferIndex p) (Piece.start p));
   k (js_substring buffer (startOffset + lstart u (i - 1)) (startOffset + lstart u i - cut))) s
  = k (line_part u (i + 1) cut) s.
Proof.
  intros Hd Hcut Hc Hi u B k. destruct (piece_part _ _ _ _ _ _ Hd) as (buffer & so & _ & H2 & H3 & H4 & _).
  pose proof (doc_pieces Hd) as [_ [Hp _]%Forall_cons]%Forall_app. cbn [snd] in Hp. pose proof (piece_ok_zlen _ _ Hp) as Hz. fold u in Hz, H4.
  erewrite pbind_run by exact H2. erewrite pbind_run by exact H3.
  specialize (Hcut i Hi). fold u in Hcut. pose proof (lstart_bounds u i). pose proof (lstart_bounds u (i - 1)).
  rewrite <- Z.add_sub_assoc, H4 by lia. unfold line_part. replace (i + 1 - 2) with (i - 1) by lia. by replace (i + 1 - 1) with i by lia.
Qed.

Lemma plug_mid c d l r : nodes (plug c (T d l r)) = (nbefore c ++ nodes l) ++ (nid d, npiece d) :: nodes r ++ nafter c.
Proof. rewrite nodes_plug. cbn [nodes]. by rewrite <- !app_assoc. Qed.

Lemma getLineRaw_descend_ok F s c t0 n cut start orig fuel :
  docs F s (nodes (plug c t0)) -> reps F (tr s) (plug c t0) -> meta_ok t0 ->
  pieces_ok (_buffers s) (nodes t0) -> sealed (_buffers s) (nodes t0) -> t0 <> E -> (List.length (ids t0) < fuel)%nat ->
  Forall (fun m => cut_ok cut (contents (_buffers s) (snd m))) (nodes t0) -> 0 <= cut ->
  1 <= n <= 1 + breaks (text (_buffers s) (nodes t0)) ->
  exists r s', piter fuel (getLineRaw_body orig cut) (rid t0, n, start) s = Ret (r, s') /\
    raw_found (_buffers s) (nodes t0) n cut start orig s r s'.
Proof.
  revert c n start fuel. induction t0 as [| d l IHl r IHr]; intros c n start fuel Hd Hr Hm Hp Hs Ht Hf Hcuts Hcut Hn; [done |].
  destruct fuel as [| fuel]; [cbn in Hf; lia |]. cbn in Hf. rewrite length_app in Hf. cbn in Hf.
  destruct Hm as (Hsl & Hlf & Hml & Hmr). cbn [nodes] in Hcuts. apply Forall_app in Hcuts as [Cl [Cd Cr]%Forall_cons]. cbn [snd] in Cd.
  destruct (tree_text _ _ _ _ Hp Hs) as (Htx & Sac & Sace & Sce & Tl & Fl & Ld & Fd & Pd & Pl & Pr & Sl & Sr).
  pose proof (text_size _ _ Pl) as Zl. rewrite Htx in Hn.
  pose proof Hd as Hd'. rewrite plug_mid in Hd'. pose proof (piece_line F s _ _ _ _ cut (n - 1 - tlf l) Hd' Cd Hcut) as Hline.
  destruct (piece_part _ _ _ _ _ _ Hd') as (buffer & so & _ & B2 & B3 & B4 & _).
  set (a := text _ (nodes l)) in *. set (u := contents _ _) in *. set (e := text _ (nodes r)) in *.
  assert (nid d <> SENTINEL) as Hne by (eapply (reps_ids_ne (tr s) c); [exact Hr | left]).
  assert (node_of (nid d) s = Ret (cell d (cpar c) (rid l) (rid r), s)) as Hnode
    by (apply rbt_run, get_run; by eapply reps_node).
  assert (piece_of (nid d) s = Ret (npiece d, s)) as Hpiece
    by (eapply piece_of_run; [exact Hr | by eapply starts_at_elem, starts_at_plug]).
  assert (forall i, bufs (fun bs => getAccumulatedValue bs (npiece d) i) s = Ret (lstart u i, s)) as Hacc
    by (intros i; apply bufs_run; by apply getAccumulatedValue_ok).
  pose proof (leaf_left _ _ _ _ _ _ Hr) as Hl. pose proof (is_leaf_spec l) as HEl.
  pose proof (breaks_nonneg a) as Ba. pose proof (breaks_nonneg u) as Bu. pose proof (breaks_nonneg e) as Be.
  rewrite !breaks_app in Hn by done. cbn [rid nodes]. destruct (negb (is_leaf l) && (n - 1 <=? breaks a)) eqn:Hleft.
  - apply andb_true_iff in Hleft as [HlE%negb_true_iff Hle%Z.leb_le]. rewrite HlE in HEl.
    destruct (IHl (FL d r :: c) n start fuel) as (res & s' & H1 & H2); try done; try lia.
    exists res, s'. split; [| apply raw_found_l; [by rewrite text_cons | done | done]].
    erewrite piter_next; [exact H1 |].
    unfold getLineRaw_body. rewrite same_ne by done. erewrite pbind_run by exact Hnode.
    cbn [TreeNode.left TreeNode.lf_left cell]. by rewrite Hl, Hlf, Fl, HlE, (proj2 (Z.leb_le _ _) Hle).
  - assert (breaks a <= n - 1 /\ (n - 2 < breaks a -> a = [])) as [Hge Hfirst].
    { apply andb_false_iff in Hleft as [HE | Hgt%Z.leb_gt]; [| lia]. apply negb_false_iff in HE. rewrite HE in HEl.
      subst l. unfold a. cbn [nodes]. rewrite text_nil. change (breaks []) with 0. split; [lia | done]. }
    assert (forall b, seam a b -> forall i, n - 2 <= i -> lstart (a ++ b) i = zlen a + lstart b (i - breaks a)) as Hls.
    { intros b Hab i Hi. destruct (decide (n - 2 < breaks a)) as [Hlt | Hlt].
      - rewrite (Hfirst Hlt). change (breaks []) with 0. change (zlen []) with 0. cbn [app]. by rewrite Z.sub_0_r.
      - apply lstart_app_r; [done | lia | lia]. }
    destruct (Z.ltb_spec (n - 1) (breaks a + breaks u)) as [Hin | Hout];
      [| destruct (Z.eqb_spec (breaks a + breaks u) (n - 1)) as [Hat | Hgt]].
    + specialize (Cd (n - 1 - breaks a) ltac:(lia)). pose proof (lstart_bounds u (n - 1 - breaks a - 1)) as Hb0.
      assert (cut <= lstart (a ++ u ++ e) (n - 1)) as Hc1.
      { rewrite (Hls _ Sace), lstart_app_l by (done || lia). pose proof (zlen_nonneg a). lia. }
      assert (exists s', cacheSet (mkEntry (nid d) (start + zlen a) (Some (orig - (n - 1 - breaks a)))) s = Ret (tt, s')) as [s' Hset]
        by (eexists; apply cacheSet_run).
      exists (inl (line_part u (n - breaks a) cut)), s'. split.
      * apply piter_stop. unfold getLineRaw_body. rewrite same_ne by done. erewrite pbind_run by exact Hnode.
        cbn [TreeNode.left TreeNode.right TreeNode.lf_left TreeNode.size_left cell]. rewrite Hl, Hlf, Fl, Hleft.
        erewrite pbind_run by exact Hpiece. cbn zeta. rewrite Fd, Hsl, Tl, (proj2 (Z.ltb_lt _ _) Hin).
        do 2 erewrite pbind_run by apply Hacc. rewrite Fl in Hline. cbn zeta in Hline.
        replace (n - breaks a - 2) with (n - 1 - breaks a - 1) by lia. replace (n - breaks a - 1) with (n - 1 - breaks a) by lia.
        etransitivity; [apply (Hline ltac:(lia) _ (fun v => cacheSet _;; mret (inr (inl v)))) |].
        erewrite pbind_run by exact Hset. by replace (n - 1 - breaks a + 1) with (n - breaks a) by lia.
      * exists (nodes l), (nid d), (npiece d), (nodes r). split; [done |]. rewrite text_app, text_cons, Zl. fold a u e.
        rewrite !breaks_app by done. split_and!; [| lia | done | done].
        unfold line_part. rewrite !(Hls _ Sace), !lstart_app_l by (done || lia).
        replace (n - breaks a - 2) with (n - 2 - breaks a) by lia. replace (n - breaks a - 1) with (n - 1 - breaks a) by lia.
        replace (n - 1 - breaks a - 1) with (n - 2 - breaks a) in * by lia.
        rewrite <- Z.add_sub_assoc, slice_app_r by lia. rewrite slice_app_l; [done |].
        pose proof (lstart_bounds u (n - 1 - breaks a)). lia.
    + pose proof (lstart_bounds u (n - breaks a - 2)) as Hb0.
      eexists _, s. split.
      * apply piter_stop. unfold getLineRaw_body. rewrite same_ne by done. erewrite pbind_run by exact Hnode.
        cbn [TreeNode.left TreeNode.right TreeNode.lf_left TreeNode.size_left cell]. rewrite Hl, Hlf, Fl, Hleft.
        erewrite pbind_run by exact Hpiece. cbn zeta. rewrite Fd, (proj2 (Z.ltb_ge _ _) Hout), (proj2 (Z.eqb_eq _ _) Hat).
        erewrite pbind_run by apply Hacc. erewrite pbind_run by exact B2. erewrite pbind_run by exact B3.
        rewrite B4 by lia. rewrite ztake_all by lia. reflexivity.
      * exists (nodes l), (npiece d), (nodes r). rewrite text_app, text_one. fold a u. rewrite breaks_app by done.
        split_and!; [done | lia | | done]. rewrite (Hls u Sac) by lia.
        replace (n - 2 - breaks a) with (n - breaks a - 2) by lia. rewrite zdrop_app_r by lia. by rewrite Z.add_simpl_l.
    + assert (seam (a ++ u) e) as Saue by (destruct (decide (u = [])) as [Hu |]; [| by apply seam_left]; exfalso; by apply (piece_ok_ne _ _ Pd)).
      assert (text (_buffers s) (nodes l ++ [(nid d, npiece d)]) = a ++ u) as Hau by (by rewrite text_app, text_one).
      assert (nsize (nodes l ++ [(nid d, npiece d)]) = zlen a + zlen u) as Zau
        by (rewrite nsize_app, nsize_cons, Zl, Ld; change (nsize []) with 0; lia).
      destruct (IHr (FR d l :: c) (n - (breaks a + breaks u)) (start + (zlen a + zlen u)) fuel) as (res & s' & H1 & H2); try done; try lia.
      { intros ->. unfold e in Hn. cbn [nodes] in Hn. rewrite text_nil in Hn. change (breaks []) with 0 in Hn. lia. }
      exists res, s'. split.
      * erewrite piter_next; [exact H1 |]. unfold getLineRaw_body. rewrite same_ne by done. erewrite pbind_run by exact Hnode.
        cbn [TreeNode.left TreeNode.right TreeNode.lf_left TreeNode.size_left cell]. rewrite Hl, Hlf, Fl, Hleft.
        erewrite pbind_run by exact Hpiece. cbn zeta. rewrite Fd, (proj2 (Z.ltb_ge _ _) Hout), (proj2 (Z.eqb_neq _ _) Hgt), Hsl, Tl, Ld. done.
      * rewrite cons_middle, app_assoc. apply raw_found_r; rewrite ?Hau, ?Zau, ?breaks_app, ?zlen_app by done; try done; lia.
Qed.

(** ** The rest of the line in the next nodes *)

Definition getLineRaw_walk (endOffset : Z) (st : ref * jsstring) : P ((ref * jsstring) + jsstring) :=
  let '(x, ret) := st in
  if same x SENTINEL then mret (inr ret) else
  p ← piece_of x;
  buffer ← bufs (fun bs => buffer_text bs p);
  if 0 <? Piece.lineFeedCnt p then
    acc ← bufs (fun bs => getAccumulatedValue bs p 0);
    startOffset ← bufs (fun bs => offsetInBuffer bs (Piece.bufferIndex p) (Piece.start p));
    mret (inr (ret ++ js_substring buffer startOffset (startOffset + acc - endOffset)))
  else
    startOffset ← bufs (fun bs => offsetInBuffer bs (Piece.bufferIndex p) (Piece.start p));
    x' ← rbt (next x);
    mret (inl (x', ret ++ js_substr buffer startOffset (Piece.length p))).

Lemma getLineRaw_walk_ok F s n cut k : forall l1 fuel,
  docs F s (l1 ++ k) -> Forall (fun m => cut_ok cut (contents (_buffers s) (snd m))) k -> 0 <= cut -> 1 <= n ->
  (breaks (text (_buffers s) k) = 0 -> cut = 0) -> breaks (text (_buffers s) l1) = n - 1 -> (length k < fuel)%nat ->
  piter fuel (getLineRaw_walk cut) (hd SENTINEL (fst <$> k), zdrop (lstart (text (_buffers s) l1) (n - 2)) (text (_buffers s) l1)) s
  = Ret (line_part (text (_buffers s) (l1 ++ k)) n cut, s).
Proof.
  induction k as [| [x p] k IH]; intros l1 fuel Hd Hcuts Hcut Hn H0 Hb Hf; (destruct fuel as [| fuel]; [lia |]).
  - cbn [fmap list_fmap hd]. erewrite piter_stop; [reflexivity |]. unfold getLineRaw_walk. rewrite same_eq.
    unfold mret, P_ret. do 3 f_equal. rewrite app_nil_r. unfold line_part, slice.
    rewrite (lstart_high _ (n - 1)), H0, Z.sub_0_r by (done || lia). by rewrite ztake_all by lia.
  - cbn in Hf. cbn [fmap list_fmap fst hd]. apply Forall_cons in Hcuts as [Cp Ck]. cbn [snd] in Cp.
    pose proof (doc_pieces Hd) as [_ [Hp _]%Forall_cons]%Forall_app. cbn [snd] in Hp. pose proof (piece_ok_zlen _ _ Hp) as Hz.
    pose proof (doc_sealed Hd) as (_ & [_ Hsm]%sealed_cons & Hsl)%sealed_app. rewrite text_cons in H0, Hsl.
    destruct (piece_part _ _ _ _ _ _ Hd) as (buffer & so & B1 & B2 & B3 & B4 & B5).
    set (u := contents _ p) in *. set (e := text _ k) in *. set (a := text _ l1) in *.
    assert (Piece.lineFeedCnt p = breaks u) as Hlf by (by destruct Hp as (b & ? & ? & _ & _ & ?)).
    assert (x <> SENTINEL) as Hne by (eapply (holds_ne _ _ x p (fits_holds (doc_fits Hd))); set_solver).
    pose proof (breaks_nonneg u) as Bu. pose proof (breaks_nonneg e) as Be. pose proof (lstart_bounds u 0) as Hl0.
    destruct (Z.ltb_spec 0 (breaks u)) as [Hpos | Hzero].
    + apply piter_stop. unfold getLineRaw_walk. rewrite same_ne by done. erewrite pbind_run by exact B1.
      erewrite pbind_run by exact B2. rewrite Hlf, (proj2 (Z.ltb_lt _ _) Hpos).
      erewrite pbind_run by (apply bufs_run; by apply getAccumulatedValue_ok). erewrite pbind_run by exact B3.
      pose proof (Cp 0 ltac:(lia)) as Hc0. rewrite (lstart_neg u (0 - 1)) in Hc0 by lia. fold u.
      specialize (B4 0 (lstart u 0 - cut)). rewrite Z.add_0_r in B4. rewrite <- Z.add_sub_assoc, B4, zdrop_0 by lia.
      rewrite text_app, text_cons. fold a u e.
      rewrite line_part_mid by (done || (rewrite lstart_app_l by done; lia)).
      rewrite lstart_app_l by done. by rewrite ztake_app_l by lia.
    + assert (breaks u = 0) as Hu by lia. rewrite breaks_app, Hu in H0 by done.
      assert (seam a u) as Hau by (by apply seam_of_app_r in Hsl).
      assert (text (_buffers s) (l1 ++ [(x, p)]) = a ++ u) as Hau' by (by rewrite text_app, text_one).
      pose proof Hd as Hd'. rewrite cons_middle, app_assoc in Hd' |- *.
      rewrite <- (IH (l1 ++ [(x, p)]) fuel Hd') by (done || lia || (rewrite Hau', breaks_app by done; lia)).
      rewrite Hau'. erewrite piter_next; [reflexivity |].
      unfold getLineRaw_walk. rewrite same_ne by done. erewrite pbind_run by exact B1.
      erewrite pbind_run by exact B2. rewrite Hlf, (proj2 (Z.ltb_ge _ _) Hzero). erewrite pbind_run by exact B3.
      erewrite pbind_run by (eapply holds_next; apply (doc_fits Hd)). rewrite B5. unfold mret, P_ret. do 4 f_equal.
      pose proof (lstart_bounds a (n - 2)). rewrite (lstart_app_l a u) by (done || lia). by rewrite zdrop_app_l by lia.
Qed.

(** ** From the cache *)

(** The entry knows the line its node starts in. *)
Definition line_known (str : jsstring) (e : CacheEntry) : Prop :=
  forall n, ce_nodeStartLineNumber e = Some n -> n = 1 + breaks (ztake (ce_nodeStartOffset e) str).

Lemma cacheGet2_ok F s L n es :
  docs F s L -> Forall (entry_ok L) es -> Forall (line_known (text (_buffers s) L)) es ->
  exists r, cacheGet2_loop n es s = Ret (r, s) /\
    match r with
    | None => True
    | Some (e, startLine) => exists l1 p l2, L = l1 ++ (ce_node e, p) :: l2 /\ startLine = 1 + breaks (text (_buffers s) l1) /\
        startLine < n <= startLine + Piece.lineFeedCnt p
    end.
Proof.
  intros Hd. induction es as [| e es IH]; intros He Hl; [by exists None |]. apply Forall_cons in He as [He Hes]. apply Forall_cons in Hl as [Hl Hls].
  specialize (IH Hes Hls). cbn [cacheGet2_loop]. destruct (ce_nodeStartLineNumber e) as [l |] eqn:Hline; [| done].
  destruct ((l !== 0) && (l <? n)) eqn:Hlt; [| done]. apply andb_true_iff in Hlt as [_ Hlt%Z.ltb_lt].
  destruct He as (l1 & p & l2 & HL & Hs). rewrite HL in *.
  erewrite pbind_run by (eapply fits_piece_mid; apply (doc_fits Hd)).
  destruct (Z.leb_spec n (l + Piece.lineFeedCnt p)) as [Hle | Hgt]; [| done].
  exists (Some (e, l)). split; [done |]. exists l1, p, l2. split; [done |]. split; [| lia].
  rewrite (Hl l Hline), Hs. pose proof (doc_pieces Hd) as [H1 _]%Forall_app. rewrite (text_size _ _ H1), text_app.
  rewrite ztake_app_l, ztake_all by lia. done.
Qed.

Lemma getLineRaw_cached_ok F s l1 x p l2 n cut e :
  docs F s (l1 ++ (x, p) :: l2) -> ce_node e = x -> cut_ok cut (contents (_buffers s) p) -> 0 <= cut ->
  let startLine := 1 + breaks (text (_buffers s) l1) in startLine < n <= startLine + Piece.lineFeedCnt p ->
  exists r, getLineRaw_cached n cut e startLine s = Ret (r, s) /\
    match r with
    | inl ret => ret = line_part (text (_buffers s) (l1 ++ (x, p) :: l2)) n cut
    | inr (y, ret) => y = x /\ breaks (text (_buffers s) (l1 ++ [(x, p)])) = n - 1 /\
        ret = zdrop (lstart (text (_buffers s) (l1 ++ [(x, p)])) (n - 2)) (text (_buffers s) (l1 ++ [(x, p)]))
    end.
Proof.
  intros Hd Hx Hcutp Hcut startLine Hn. pose proof (doc_pieces Hd) as [_ [Hp _]%Forall_cons]%Forall_app. cbn [snd] in Hp.
  pose proof (doc_sealed Hd) as (_ & [_ Hsm]%sealed_cons & Hsl)%sealed_app. rewrite text_cons in Hsl.
  destruct (piece_part _ _ _ _ _ _ Hd) as (buffer & so & B1 & B2 & B3 & B4 & _). pose proof (piece_ok_zlen _ _ Hp) as Hz.
  pose proof (piece_line F s l1 x p l2 cut (n - startLine) Hd Hcutp Hcut) as Hline. cbn zeta in Hline.
  rewrite text_app, text_cons, text_app, text_one.
  set (a := text _ l1) in *. set (u := contents _ p) in *. set (k := text _ l2) in *.
  assert (Piece.lineFeedCnt p = breaks u) as Hlf by (by destruct Hp as (b & ? & ? & _ & _ & ?)). rewrite Hlf in Hn.
  assert (forall i, bufs (fun bs => getAccumulatedValue bs p i) s = Ret (lstart u i, s)) as Hacc
    by (intros i; apply bufs_run; by apply getAccumulatedValue_ok).
  pose proof (breaks_nonneg a) as Ba. pose proof (lstart_bounds u (n - startLine - 1)) as Hlb.
  assert (seam a u) as Hau by (by apply seam_of_app_r in Hsl).
  unfold getLineRaw_cached. rewrite Hx. erewrite pbind_run by exact B1. erewrite pbind_run by apply Hacc.
  destruct (Z.eqb_spec (startLine + Piece.lineFeedCnt p) n) as [Hat | Hne].
  - eexists. split.
    { erewrite pbind_run by exact B2. erewrite pbind_run by exact B3. rewrite B4 by lia. rewrite ztake_all by lia. reflexivity. }
    cbn. split; [done |]. rewrite breaks_app by done. split; [unfold startLine in *; lia |].
    rewrite lstart_app_r by (done || lia || (unfold startLine in *; lia)).
    replace (n - 2 - breaks a) with (n - startLine - 1) by (unfold startLine; lia).
    rewrite zdrop_app_r by lia. by rewrite Z.add_simpl_l.
  - rewrite Hlf in Hne. specialize (Hcutp (n - startLine) ltac:(lia)). fold u in Hcutp.
    eexists (inl (line_part u (n - startLine + 1) cut)). split.
    + erewrite pbind_run by exact B2. erewrite pbind_run by exact B3. erewrite pbind_run by apply Hacc.
      specialize (Hline ltac:(lia) (jsstring + ref * jsstring)%type (fun v => mret (inl v))).
      erewrite pbind_run in Hline by exact B2. erewrite pbind_run in Hline by exact B3. exact Hline.
    + rewrite line_part_r; [| done | unfold startLine in *; lia | lia |].
      * rewrite (line_part_l u k) by (done || (unfold startLine in *; lia)). f_equal. unfold startLine. lia.
      * replace (n - 1 - breaks a) with (n - startLine) by (unfold startLine; lia). rewrite lstart_app_l by (done || lia). lia.
Qed.

(** ** The line *)

Lemma next_sentinel F s L : holds F s L -> rbt (next SENTINEL) s = Ret (SENTINEL, s).
Proof.
  intros (t & (Hr & _) & _). pose proof (reps_sentinel _ _ Hr) as Hs. apply rbt_run. unfold next.
  erewrite bind_run by (by eapply field_run). cbn [TreeNode.right TreeNode.with_parent sentinel_node new_TreeNode]. rewrite same_eq. cbn [negb].
  erewrite bind_run by done. erewrite bind_run.
  2: { apply iter_stop. erewrite bind_run by (by eapply field_run). cbn [TreeNode.parent TreeNode.with_parent]. by rewrite same_eq. }
  erewrite bind_run by (by eapply field_run). cbn [TreeNode.parent TreeNode.with_parent]. by rewrite same_eq.
Qed.

Lemma getLineRawContent_ok F s L n cut :
  docs F s L -> _limit s = 1 -> zlen (_cache s) <= 1 -> Forall (entry_ok L) (_cache s) ->
  let str := text (_buffers s) L in Forall (line_known str) (_cache s) -> 1 <= n <= 1 + breaks str ->
  Forall (fun m => cut_ok cut (contents (_buffers s) (snd m))) L -> 0 <= cut -> (n = 1 + breaks str -> cut = 0) ->
  exists s', getLineRawContent n cut s = Ret (line_part str n cut, s') /\
    (s' = s \/ exists l1 x p l2, L = l1 ++ (x, p) :: l2 /\
       s' = set_cache [mkEntry x (nsize l1) (Some (1 + breaks (text (_buffers s) l1)))] s).
Proof.
  intros Hd Hlim Hlen Hc str Hk Hn Hcuts Hcut Hlast. pose proof (fits_holds (doc_fits Hd)) as Hh.
  unfold getLineRawContent.
  destruct (cacheGet2_ok F s L n (rev (_cache s)) Hd) as (g & Hg & Hres); [by apply Forall_rev | by apply Forall_rev |].
  erewrite pbind_run by (unfold cacheGet2; erewrite pbind_run by done; exact Hg).
  assert (forall l1 x p l2 ret, L = l1 ++ (x, p) :: l2 -> breaks (text (_buffers s) (l1 ++ [(x, p)])) = n - 1 ->
    ret = zdrop (lstart (text (_buffers s) (l1 ++ [(x, p)])) (n - 2)) (text (_buffers s) (l1 ++ [(x, p)])) ->
    (x' ← rbt (next x); fuel ← pfuel; piter fuel (getLineRaw_walk cut) (x', ret)) s = Ret (line_part str n cut, s)) as Hwalk.
  { intros l1 x p l2 ret HL Hb ->. unfold str in *. rewrite HL in *. erewrite pbind_run by (eapply holds_next; exact Hh).
    erewrite pbind_run by (apply rbt_run; reflexivity).
    assert (l1 ++ (x, p) :: l2 = (l1 ++ [(x, p)]) ++ l2) as HE by (by rewrite <- app_assoc). rewrite HE in Hd, Hh, Hcuts, Hlast |- *.
    apply Forall_app in Hcuts as [_ Hcuts]. eapply getLineRaw_walk_ok; try done; [lia | |].
    - intros H0. apply Hlast. rewrite text_app. pose proof (doc_sealed Hd) as (_ & _ & Hsl)%sealed_app.
      rewrite breaks_app by done. lia.
    - pose proof (holds_size _ _ _ Hh) as Hsz. rewrite length_app in Hsz. lia. }
  destruct g as [[e startLine] |].
  - destruct Hres as (l1 & p & l2 & HL & -> & Hline). exists s. split; [| by left].
    assert (cut_ok cut (contents (_buffers s) p)) as Hcp by (rewrite HL in Hcuts; by apply Forall_app in Hcuts as [_ [? _]%Forall_cons]).
    pose proof Hd as Hd'. rewrite HL in Hd'.
    destruct (getLineRaw_cached_ok F s l1 (ce_node e) p l2 n cut e Hd' eq_refl Hcp Hcut Hline) as (r & Hr & Hsp).
    erewrite pbind_run by exact Hr. destruct r as [ret | [y ret]].
    + rewrite Hsp. unfold str. by rewrite HL.
    + destruct Hsp as (-> & Hb & Hret). by eapply Hwalk.
  - pose proof Hh as (t & (Hr & Hm & _) & HL). unfold getLineRaw_descend. pose proof (is_leaf_spec t) as Ht. destruct (is_leaf t).
    + subst t. exists s. split; [| by left]. cbn in HL. unfold str in *. rewrite <- HL in *.
      assert (n = 1) as -> by (rewrite text_nil in Hn; change (breaks []) with 0 in Hn; lia).
      erewrite pbind_run.
      2: { erewrite pbind_run by (apply rbt_run; unfold get_root; by rewrite (reps_root _ _ Hr)).
           erewrite pbind_run by (apply rbt_run; reflexivity). apply piter_stop. cbn [rid]. by rewrite same_eq. }
      cbn [rid]. erewrite pbind_run by (eapply next_sentinel; exact Hh). erewrite pbind_run by (apply rbt_run; reflexivity).
      apply piter_stop. rewrite same_eq. unfold line_part, slice, zdrop, ztake. by rewrite text_nil, take_nil, drop_nil.
    + destruct (getLineRaw_descend_ok F s [] t n cut 0 n (S (S (size (heap (tr s)))))) as (r & s' & H1 & H2); try done.
      * by rewrite <- HL in Hd.
      * rewrite HL. apply Hd.
      * rewrite HL. apply Hd.
      * pose proof (reps_size _ _ Hr). lia.
      * by rewrite HL.
      * by rewrite HL.
      * erewrite pbind_run.
        2: { erewrite pbind_run by (apply rbt_run; unfold get_root; by rewrite (reps_root _ _ Hr)).
             erewrite pbind_run by (apply rbt_run; reflexivity). exact H1. }
        rewrite HL in H2. destruct r as [ret | [y ret]].
        -- destruct H2 as (l1 & x & p & l2 & HL2 & -> & _ & _ & Hset). exists s'. split; [done |]. right. exists l1, x, p, l2. split; [done |].
           rewrite cacheSet_run, Hlim in Hset. injection Hset as <-. f_equal.
           rewrite Z.add_0_l. replace (n - (n - 1 - breaks (text (_buffers s) l1))) with (1 + breaks (text (_buffers s) l1)) by lia.
           destruct (_cache s) as [| e0 [| e1 es]]; [done | done |]. rewrite !zlen_cons in Hlen. pose proof (zlen_nonneg es). lia.
        -- destruct H2 as (l1 & p & l2 & HL2 & Hb & Hret & ->). exists s. split; [| by left]. by eapply Hwalk.
Qed.

(** ** Texts with one kind of line break *)

Section Normal.
Context (eol : jsstring).
Hypothesis Heol : eol = [LineFeed] \/ eol = [CarriageReturn; LineFeed].

(** Every line break of the text is [eol]. *)
Definition normal (str : jsstring) : Prop := replace_eol eol str = str.

Lemma normal_ind (Q : jsstring -> Prop) :
  Q [] -> (forall str, normal str -> Q str -> Q (eol ++ str)) ->
  (forall c str, c <> CarriageReturn -> c <> LineFeed -> normal str -> Q str -> Q (c :: str)) ->
  forall str, normal str -> Q str.
Proof.
  intros H0 He Hc str. remember (length str) as n eqn:Hn. revert str Hn. induction (lt_wf n) as [n _ IH]. intros str -> Hstr.
  destruct str as [| c str]; [done |]. unfold normal in Hstr. rewrite replace_eol_cons in Hstr.
  assert (forall k r, eol ++ k = c :: r -> (length k < length (c :: r))%nat) as Hlen.
  { intros k r Hk. rewrite <- Hk, length_app. destruct Heol as [-> | ->]; cbn; lia. }
  assert (forall k, eol ++ replace_eol eol k = c :: str -> (length (replace_eol eol k) < length (c :: str))%nat -> Q (c :: str)) as Hstep.
  { intros k Hk Hl. rewrite <- Hk. assert (normal (replace_eol eol k)) as Hnk by apply (replace_eol_idem eol Heol k).
    apply He; [done |]. by apply (IH (length (replace_eol eol k))). }
  destruct (Z.eqb_spec c CarriageReturn) as [-> | Hcr]; [| destruct (Z.eqb_spec c LineFeed) as [-> | Hlf]].
  - destruct str as [| d str2]; [apply (Hstep []); [done | by apply Hlen] |].
    destruct (d === LineFeed); eapply Hstep; first [exact Hstr | by apply Hlen].
  - eapply Hstep; first [exact Hstr | by apply Hlen].
  - injection Hstr as Hstr. apply Hc; try done. apply (IH (length str)); [cbn; lia | done | done].
Qed.

(** Replacing line breaks only makes a text longer (CR LF) or shorter (LF). *)
Lemma replace_eol_len str :
  (eol = [LineFeed] -> zlen (replace_eol eol str) <= zlen str) /\
  (eol = [CarriageReturn; LineFeed] -> zlen str <= zlen (replace_eol eol str)).
Proof.
  remember (length str) as n eqn:Hn. revert str Hn. induction (lt_wf n) as [n _ IH]. intros str ->.
  destruct str as [| c str]; [done |]. rewrite replace_eol_cons, zlen_cons.
  destruct (IH (length str) ltac:(cbn; lia) str eq_refl) as [I1 I2].
  assert (eol = [LineFeed] -> zlen eol = 1) as E1 by (by intros ->).
  assert (eol = [CarriageReturn; LineFeed] -> zlen eol = 2) as E2 by (by intros ->).
  destruct (c === CarriageReturn).
  - destruct str as [| d str]; [rewrite app_nil_r; change (zlen []) with 0; split; intros H; rewrite ?E1, ?E2 by done; lia |].
    destruct (IH (length str) ltac:(cbn; lia) str eq_refl) as [J1 J2].
    destruct (d === LineFeed); rewrite zlen_app, zlen_cons in *; split; intros H; rewrite ?E1, ?E2 by done; intuition lia.
  - destruct (c === LineFeed); rewrite ?zlen_app, ?zlen_cons; split; intros H; rewrite ?E1, ?E2 by done; intuition lia.
Qed.

Lemma normal_join a b : seam a b -> normal (a ++ b) -> normal a /\ normal b.
Proof.
  unfold normal. intros Hs H. rewrite replace_eol_app in H by done.
  pose proof (f_equal zlen H) as Hz. rewrite !zlen_app in Hz.
  destruct (replace_eol_len a) as [A1 A2], (replace_eol_len b) as [B1 B2].
  apply app_inj_1; [| done]. assert (zlen (replace_eol eol a) = zlen a) as Hl by (destruct Heol; intuition lia).
  unfold zlen in Hl. lia.
Qed.

(** The lines of a normal text end with [eol]. *)
Lemma normal_lines str :
  normal str -> forall i, 0 <= i < breaks str ->
  lstart str (i - 1) + zlen eol <= lstart str i /\ slice str (lstart str i - zlen eol) (lstart str i) = eol.
Proof.
  destruct (replace_eol_eol eol Heol) as [_ Hbe]. revert str.
  apply (normal_ind (fun str => forall i, 0 <= i < breaks str ->
    lstart str (i - 1) + zlen eol <= lstart str i /\ slice str (lstart str i - zlen eol) (lstart str i) = eol)).
  - change (breaks []) with 0. lia.
  - intros str _ IH i Hi. rewrite breaks_app, Hbe in Hi by (by apply eol_seam).
    destruct (decide (i = 0)) as [-> |].
    + rewrite lstart_neg by lia. assert (lstart (eol ++ str) 0 = zlen eol) as ->.
      { rewrite lstart_app_l by (by apply eol_seam || lia). by destruct Heol as [-> | ->]. }
      split; [lia |]. rewrite Z.sub_diag. unfold slice. rewrite ztake_app_l, ztake_all by lia. apply zdrop_0.
    + destruct (IH (i - 1)) as [I1 I2]; [lia |]. pose proof (lstart_bounds str (i - 1 - 1)). pose proof (zlen_nonneg eol).
      rewrite (lstart_app_r eol str i), Hbe by (by apply eol_seam || lia).
      split.
      * destruct (decide (i - 1 < 1)); [| rewrite (lstart_app_r eol str (i - 1)), Hbe by (by apply eol_seam || lia); lia].
        assert (i = 1) as -> by lia. rewrite lstart_neg in I1 by lia. change (1 - 1) with 0 in *.
        assert (lstart (eol ++ str) 0 = zlen eol) as ->; [| lia].
        rewrite lstart_app_l by (by apply eol_seam || lia). by destruct Heol as [-> | ->].
      * rewrite <- Z.add_sub_assoc, slice_app_r by lia. done.
  - intros c str H1 H2 _ IH i Hi. change (c :: str) with ([c] ++ str) in *. assert (seam [c] str) as Hs by (by apply plain_seam).
    assert (breaks [c] = 0) as Hb0 by (cbn; unfold breaks, zlen; cbn; by rewrite (proj2 (Z.eqb_neq _ _) H1), (proj2 (Z.eqb_neq _ _) H2)).
    rewrite breaks_app, Hb0 in Hi by done. destruct (IH i) as [I1 I2]; [lia |]. pose proof (lstart_bounds str (i - 1)). pose proof (zlen_nonneg eol).
    rewrite (lstart_app_r [c] str i), Hb0, Z.sub_0_r by (done || lia). change (zlen [c]) with 1. split.
    + destruct (decide (i = 0)) as [-> |]; [rewrite lstart_neg by lia; rewrite lstart_neg in I1 by lia; lia |].
      rewrite (lstart_app_r [c] str (i - 1)), Hb0, Z.sub_0_r by (done || lia). change (zlen [c]) with 1. lia.
    + rewrite <- Z.add_sub_assoc. change 1 with (zlen [c]). rewrite slice_app_r by lia. done.
Qed.

Lemma normal_cut str : normal str -> cut_ok (zlen eol) str.
Proof. intros Hn i Hi. by apply normal_lines. Qed.

Lemma trim_eol_eol b : (eol = [LineFeed] -> last b <> Some CarriageReturn) -> trim_eol (b ++ eol) = b.
Proof.
  intros Hb. unfold trim_eol. rewrite rev_app_distr. destruct Heol as [-> | ->]; cbn.
  - specialize (Hb eq_refl). destruct (rev b) as [| c r] eqn:Hr; [by rewrite <- (rev_involutive b), Hr |].
    assert (b = rev (c :: r)) as Hb' by (by rewrite <- Hr, rev_involutive).
    destruct (Z.eqb_spec c CarriageReturn) as [-> |]; [exfalso; apply Hb; rewrite Hb'; cbn; by rewrite last_snoc | by rewrite Hb'].
  - by rewrite rev_involutive.
Qed.

Lemma normal_trim str n :
  normal str -> 1 <= n <= breaks str -> trim_eol (line_part str n 0) = line_part str n (zlen eol).
Proof.
  intros Hn Hb. destruct (normal_lines str Hn (n - 1)) as [H1 H2]; [lia |]. unfold line_part. rewrite Z.sub_0_r.
  replace (n - 1 - 1) with (n - 2) in H1 by lia. pose proof (lstart_bounds str (n - 2)). pose proof (lstart_bounds str (n - 1)).
  pose proof (zlen_nonneg eol).
  assert (slice str (lstart str (n - 2)) (lstart str (n - 1)) = slice str (lstart str (n - 2)) (lstart str (n - 1) - zlen eol) ++ eol) as ->.
  { rewrite <- H2 at 2. unfold slice. rewrite <- (ztake_zdrop (lstart str (n - 1) - zlen eol) (ztake (lstart str (n - 1)) str)) at 1.
    rewrite zdrop_app_l by (rewrite zlen_ztake; rewrite ?zlen_ztake; lia). f_equal. f_equal.
    unfold ztake. rewrite take_take. f_equal. lia. }
  apply trim_eol_eol. intros E1 Hl. assert (CarriageReturn ∉ str) as Hno by (rewrite <- Hn; by apply replace_eol_nocr).
  apply Hno. apply last_Some_elem_of in Hl. unfold slice, zdrop, ztake in Hl.
  apply (subseteq_take (Z.to_nat (lstart str (n - 1) - zlen eol)) str), (subseteq_drop (Z.to_nat (lstart str (n - 2))) _), Hl.
Qed.

End Normal.

(** ** [getLineContent] *)

(** A line of the text without its line break. *)
Definition line_text (str : jsstring) (n : Z) : jsstring :=
  if n === 1 + breaks str then line_part str n 0 else trim_eol (line_part str n 0).

(** What the state remembers of the lines of the text is right. *)
Record memo_ok (s : state) (str : jsstring) : Prop := mkmemo {
  me_lines : Forall (line_known str) (_cache s);
  me_visited : fst (_lastVisitedLine s) = 0 \/ snd (_lastVisitedLine s) = line_text str (fst (_lastVisitedLine s))
}.

(** The promise behind [_EOLNormalized]. *)
Definition eol_promise (s : state) (str : jsstring) : Prop :=
  _EOLLength s = zlen (_EOL s) /\
  (_EOLNormalized s = true -> (_EOL s = [LineFeed] \/ _EOL s = [CarriageReturn; LineFeed]) /\ normal (_EOL s) str).

Lemma normal_pieces eol bs (L : seq) :
  eol = [LineFeed] \/ eol = [CarriageReturn; LineFeed] -> sealed bs L -> normal eol (text bs L) ->
  Forall (fun m => cut_ok (zlen eol) (contents bs (snd m))) L.
Proof.
  intros Heol. induction L as [| [x p] L IH]; [done |]. intros [Hs Hsm]%sealed_cons. rewrite text_cons. intros Hn.
  apply normal_join in Hn as [H1 H2]; [| done | done]. constructor; [by apply normal_cut | by apply IH].
Qed.

(** Reading the raw text of a line keeps the document and what it remembers. *)
Lemma getLineRaw_doc s str n cut :
  is_doc s str -> Forall (line_known str) (_cache s) -> 1 <= n <= 1 + breaks str -> 0 <= cut -> (n = 1 + breaks str -> cut = 0) ->
  cut = 0 \/ (cut = zlen (_EOL s) /\ (_EOL s = [LineFeed] \/ _EOL s = [CarriageReturn; LineFeed]) /\ normal (_EOL s) str) ->
  exists es, getLineRawContent n cut s = Ret (line_part str n cut, set_cache es s) /\
    is_doc (set_cache es s) str /\ Forall (line_known str) es.
Proof.
  intros (F & L & Hd & Ht & Hl & Hlc & Hlim & Hlen & Hc) Hk Hn Hcut Hlast Hcuts. subst str.
  destruct (getLineRawContent_ok F s L n cut Hd) as (s' & H1 & H2); try done.
  { destruct Hcuts as [-> | (-> & Heol & Hno)]; [apply Forall_true; intros; apply cut_ok_0 |].
    apply normal_pieces; [done | apply Hd | done]. }
  assert (forall es, zlen es <= 1 -> Forall (entry_ok L) es -> is_doc (set_cache es s) (text (_buffers s) L)) as Hdoc.
  { intros es Hz He. exists F, L. split; [by eapply docs_ext; [.. | exact Hd] |]. done. }
  destruct H2 as [-> | (l1 & x & p & l2 & HL & ->)].
  - exists (_cache s). split; [rewrite H1; by destruct s |]. split; [by apply Hdoc | done].
  - eexists. split; [exact H1 |]. split.
    + apply Hdoc; [done |]. apply Forall_singleton. by exists l1, p, l2.
    + apply Forall_singleton. intros m [= <-]. cbn [ce_nodeStartOffset]. pose proof (doc_pieces Hd) as HP. rewrite HL in HP |- *.
      apply Forall_app in HP as [HP _]. rewrite (text_size _ _ HP), text_app, ztake_app_l, ztake_all by lia. done.
Qed.

Lemma getLineContent_ok s str n :
  is_doc s str -> memo_ok s str -> eol_promise s str -> 1 <= n <= 1 + breaks str ->
  exists s', getLineContent n s = Ret (line_text str n, s') /\ is_doc s' str /\ memo_ok s' str /\
    s' = set_lastVisited (_lastVisitedLine s') (set_cache (_cache s') s).
Proof.
  intros Hdoc [Hk Hv] [Hlen Hnorm] Hn. unfold getLineContent. erewrite pbind_run by done.
  destruct (Z.eqb_spec (fst (_lastVisitedLine s)) n) as [Hfst | Hfst].
  { exists s. destruct Hv as [Hv | Hv]; [lia |]. rewrite Hfst in Hv. rewrite <- Hv.
    split; [done |]. split; [done |]. split; [constructor; [done | right; by rewrite Hfst] | by destruct s]. }
  erewrite pbind_run by done. set (s0 := set_lastVisited _ s).
  assert (_lineCnt s0 = 1 + breaks str) as Hlc by (destruct Hdoc as (F & L & _ & _ & _ & Hlc & _); exact Hlc).
  assert (is_doc s0 str) as Hdoc0 by (by apply is_doc_visited).
  do 2 erewrite pbind_run by done. rewrite Hlc.
  assert (exists es, (if n === 1 + breaks str then getLineRawContent n 0
     else if _EOLNormalized s0 : bool then eolLength ← gets _EOLLength; getLineRawContent n eolLength
     else raw ← getLineRawContent n 0; mret (trim_eol raw)) s0 = Ret (line_text str n, set_cache es s0) /\
     is_doc (set_cache es s0) str /\ Forall (line_known str) es) as (es & Hrun & Hdoc1 & Hk1).
  { unfold line_text. destruct (Z.eqb_spec n (1 + breaks str)) as [Hlast | Hlast].
    - apply getLineRaw_doc; try done. by left.
    - change (_EOLNormalized s0) with (_EOLNormalized s). destruct (_EOLNormalized s).
      + destruct (Hnorm eq_refl) as [Heol Hno]. erewrite pbind_run by done. change (_EOLLength s0) with (_EOLLength s). rewrite Hlen.
        rewrite (normal_trim _ Heol str n Hno) by lia. pose proof (zlen_nonneg (_EOL s)).
        apply getLineRaw_doc; try done. by right.
      + destruct (getLineRaw_doc s0 str n 0) as (es & H1 & H2 & H3); try done; [by left |].
        exists es. split; [by erewrite pbind_run by exact H1 | done]. }
  erewrite pbind_run by exact Hrun. erewrite pbind_run by done.
  eexists. split; [reflexivity |]. split; [by apply is_doc_visited |]. split; [by constructor; [| right] | done].
Qed.

(** ** The lines as a list *)

(** [str.split(/\r\n|\r|\n/)]: the lines of a text without their breaks. *)
Fixpoint split_lines (str : jsstring) : list jsstring :=
  match str with
  | [] => [[]]
  | c :: str1 =>
      if c === CarriageReturn then
        match str1 with
        | d :: str2 => if d === LineFeed then [] :: split_lines str2 else [] :: split_lines str1
        | [] => [[]; []]
        end
      else if c === LineFeed then [] :: split_lines str1
      else match split_lines str1 with l :: ls => (c :: l) :: ls | [] => [[c]] end
  end.

(** Cutting a text at its first unit or line break. *)
Lemma text_ind (Q : jsstring -> Prop) :
  Q [] ->
  (forall br str, br = [LineFeed] \/ br = [CarriageReturn; LineFeed] \/ br = [CarriageReturn] -> seam br str -> Q str -> Q (br ++ str)) ->
  (forall c str, c <> CarriageReturn -> c <> LineFeed -> Q str -> Q (c :: str)) -> forall str, Q str.
Proof.
  intros H0 Hb Hc str. remember (length str) as n eqn:Hn. revert str Hn. induction (lt_wf n) as [n _ IH]. intros str ->.
  destruct str as [| c str]; [done |]. assert (Q str) as Hq by (apply (IH (length str)); [cbn; lia | done]).
  destruct (decide (c = CarriageReturn)) as [-> |]; [| destruct (decide (c = LineFeed)) as [-> |]; [| by apply Hc]].
  - destruct str as [| d str]; [apply (Hb [CarriageReturn] []); [auto | apply seam_nil_r | done] |].
    destruct (decide (d = LineFeed)) as [-> | Hd].
    + apply (Hb [CarriageReturn; LineFeed] str); [auto | by intros [? _] |]. apply (IH (length str)); [cbn; lia | done].
    + apply (Hb [CarriageReturn] (d :: str)); [auto | | done]. intros [_ [= ->]]. done.
  - apply (Hb [LineFeed] str); [auto | by intros [? _] | done].
Qed.

Lemma split_lines_break br str :
  br = [LineFeed] \/ br = [CarriageReturn; LineFeed] \/ br = [CarriageReturn] -> seam br str ->
  split_lines (br ++ str) = [] :: split_lines str /\ breaks br = 1 /\ trim_eol br = [] /\ lstart br 0 = zlen br.
Proof.
  intros [-> | [-> | ->]] Hs; [done | done |]. split; [| done]. cbn [app split_lines]. change (CarriageReturn === CarriageReturn) with true.
  destruct str as [| d str]; [done |]. destruct (Z.eqb_spec d LineFeed) as [-> |]; [| done]. by destruct Hs.
Qed.

Lemma trim_eol_cons c x : c <> CarriageReturn -> c <> LineFeed -> trim_eol (c :: x) = c :: trim_eol x.
Proof.
  intros H1%Z.eqb_neq H2%Z.eqb_neq. unfold trim_eol. cbn [rev]. destruct (rev x) as [| e [| f r]] eqn:Hr; cbn [app].
  - rewrite H1, H2. by rewrite <- (rev_involutive x), Hr.
  - rewrite H1, andb_false_r. rewrite <- (rev_involutive x), Hr. by destruct (_ || _).
  - cbn [rev]. rewrite !rev_app_distr. cbn [rev app]. destruct (_ && _); [done |]. by destruct (_ || _).
Qed.

Lemma line_text_break br str n :
  seam br str -> breaks br = 1 -> lstart br 0 = zlen br -> 2 <= n -> line_text (br ++ str) n = line_text str (n - 1).
Proof.
  intros Hs Hb Hl Hn. unfold line_text. rewrite breaks_app, Hb by done.
  assert (line_part (br ++ str) n 0 = line_part str (n - 1) 0) as ->.
  { unfold line_part. rewrite !Z.sub_0_r. assert (forall i, 0 <= i -> lstart (br ++ str) i = zlen br + lstart str (i - 1)) as Hi.
    { intros i Hi. destruct (decide (i = 0)) as [-> |]; [rewrite lstart_app_l, (lstart_neg str) by (done || lia); lia |].
      rewrite lstart_app_r by (done || lia). by rewrite Hb. }
    rewrite !Hi by lia. rewrite slice_app_r by apply lstart_bounds. by replace (n - 1 - 2) with (n - 2 - 1) by lia. }
  destruct (Z.eqb_spec n (1 + (1 + breaks str))), (Z.eqb_spec (n - 1) (1 + breaks str)); done || lia.
Qed.

Lemma line_text_first br str :
  seam br str -> breaks br = 1 -> lstart br 0 = zlen br -> trim_eol br = [] -> line_text (br ++ str) 1 = [].
Proof.
  intros Hs Hb Hl Ht. unfold line_text. pose proof (breaks_nonneg str). rewrite breaks_app, Hb by done.
  rewrite (proj2 (Z.eqb_neq _ _)) by lia. unfold line_part, slice. rewrite lstart_neg, zdrop_0, Z.sub_0_r by lia.
  change (1 - 1) with 0. rewrite lstart_app_l, Hl, ztake_app_l, ztake_all by (done || lia). done.
Qed.

Lemma line_text_cons c str n :
  c <> CarriageReturn -> c <> LineFeed -> 1 <= n ->
  line_text (c :: str) n = if n === 1 then c :: line_text str 1 else line_text str n.
Proof.
  intros H1 H2 Hn. assert (seam [c] str) as Hs by (by apply plain_seam).
  assert (breaks [c] = 0) as Hb0 by (cbn; unfold breaks, zlen; cbn; by rewrite (proj2 (Z.eqb_neq _ _) H1), (proj2 (Z.eqb_neq _ _) H2)).
  change (c :: str) with ([c] ++ str). unfold line_text. rewrite breaks_app, Hb0, Z.add_0_l by done.
  assert (forall i, 0 <= i -> lstart ([c] ++ str) i = 1 + lstart str i) as Hi.
  { intros i Hi. rewrite lstart_app_r, Hb0, Z.sub_0_r by (done || lia). done. }
  destruct (Z.eqb_spec n 1) as [-> |].
  - assert (line_part ([c] ++ str) 1 0 = c :: line_part str 1 0) as ->.
    { unfold line_part, slice. rewrite !(lstart_neg _ (1 - 2)), !zdrop_0, !Z.sub_0_r, Hi by lia. change 1 with (zlen [c]) at 1.
      pose proof (lstart_bounds str (1 - 1)). rewrite ztake_app_r by lia. by rewrite Z.add_simpl_l. }
    destruct (1 === _); [done |]. by apply trim_eol_cons.
  - assert (line_part ([c] ++ str) n 0 = line_part str n 0) as ->; [| done].
    unfold line_part. rewrite !Hi, !Z.sub_0_r by lia. change 1 with (zlen [c]) at 1 3. apply slice_app_r; apply lstart_bounds.
Qed.

Lemma split_lines_ok str :
  zlen (split_lines str) = 1 + breaks str /\
  forall n, 1 <= n <= 1 + breaks str -> znth (split_lines str) (n - 1) = Some (line_text str n).
Proof.
  pattern str. apply text_ind.
  - split; [done |]. change (breaks []) with 0. intros n Hn. by assert (n = 1) as -> by lia.
  - intros br k Hbr Hs [IHl IH]. destruct (split_lines_break br k Hbr Hs) as (-> & Hb & Ht & Hl).
    rewrite breaks_app, Hb, zlen_cons by done. split; [lia |]. intros n Hn. destruct (decide (n = 1)) as [-> |].
    + by rewrite line_text_first.
    + rewrite znth_cons_S by lia. rewrite (line_text_break br k n) by (done || lia). apply IH. lia.
  - intros c k H1 H2 [IHl IH]. assert (split_lines (c :: k) = match split_lines k with l :: ls => (c :: l) :: ls | [] => [[c]] end) as ->.
    { cbn. by rewrite (proj2 (Z.eqb_neq _ _) H1), (proj2 (Z.eqb_neq _ _) H2). }
    assert (breaks (c :: k) = breaks k) as ->.
    { unfold breaks. cbn. rewrite (proj2 (Z.eqb_neq _ _) H1), (proj2 (Z.eqb_neq _ _) H2). apply (breaks_shift k 1). }
    destruct (split_lines k) as [| l ls]; [change (zlen []) with 0 in IHl; pose proof (breaks_nonneg k); lia |].
    rewrite zlen_cons in *. split; [done |]. intros n Hn. specialize (IH n Hn). rewrite line_text_cons by (done || lia).
    destruct (Z.eqb_spec n 1) as [-> |]; [by injection IH as -> | by rewrite znth_cons_S in IH |- * by lia].
Qed.
