(* ===== verification/PieceTreeSession.v ===== *)
(** * Editing sessions

    The contract of [PieceTreeBase] as a text store: an abstract document, the
    edits on it, the relation between a state of the piece table and a document,
    and the theorems that every session refines the edits of the text, that it
    never gets stuck, and what the operations do outside of the document. *)

From stdpp Require Import gmap.
From S2P Require Import Prelude RBTree RBTreeRep RBTreeOps RBTreeInsert RBTreeDelete RBTreeRemove.
From S2P Require Import PieceBuffers PieceTree PieceTreeEdit PieceTreeNodes PieceTreeRead PieceTreeList PieceTreeText.
From S2P Require Import PieceTreePieces PieceTreeChange PieceTreeSeal PieceTreeInsert PieceTreeDocument.
From S2P Require Import PieceTreeErase PieceTreeCreate PieceTreeChars PieceTreeLines PieceTreeRange PieceTreeContent.

(** ** The abstract document *)

Module Doc.

(** A text, its line end, whether every line break of it is that line end, and a
    bound on the size of the change buffer. *)
Record t := mk { content : jsstring; eol : jsstring; normalized : bool; used : Z }.

Inductive edit :=
  | Insert (offset : Z) (value : jsstring) (eolNormalized : bool)
  | Delete (offset cnt : Z)
  | SetEOL (eol : jsstring).

(** [None]: the edit is outside of the contract. *)
Definition apply (e : edit) (d : t) : option t :=
  match e with
  | Insert offset value eolNormalized =>
      if (0 <=? offset) && (offset <=? zlen (content d)) && bool_decide (value <> []) &&
         (used d + zlen value + 5 <? 2 ^ 31 - 1) &&
         negb (normalized d && eolNormalized && bool_decide (eol d = [LineFeed]) && bool_decide (CarriageReturn ∈ value))
      then Some (mk (ztake offset (content d) ++ value ++ zdrop offset (content d)) (eol d)
                   (normalized d && eolNormalized) (used d + zlen value + 5))
      else None
  | Delete offset cnt =>
      if (0 <=? offset) && (0 <=? cnt) && (offset + cnt <=? zlen (content d)) && (used d + 3 <? 2 ^ 31 - 1)
      then Some (mk (ztake offset (content d) ++ zdrop (offset + cnt) (content d)) (eol d) (normalized d) (used d + 3))
      else None
  | SetEOL eol =>
      if (bool_decide (eol = [LineFeed]) || bool_decide (eol = [CarriageReturn; LineFeed])) &&
         (zlen (replace_eol eol (content d)) <? 2 ^ 31 - 1)
      then Some (mk (replace_eol eol (content d)) eol true 0)
      else None
  end.

End Doc.

(** The operation of the piece table for an edit. *)
Definition perform (e : Doc.edit) : P unit :=
  match e with
  | Doc.Insert offset value eolNormalized => insert offset value eolNormalized
  | Doc.Delete offset cnt => delete offset cnt
  | Doc.SetEOL eol => setEOL eol
  end.

(** The state stands for the document. *)
Record stands_for (s : state) (d : Doc.t) : Prop := mkstands {
  st_doc : is_doc s (Doc.content d);
  st_eol : _EOL s = Doc.eol d;
  st_normalized : _EOLNormalized s = Doc.normalized d;
  st_used : blen (_buffers s) <= Doc.used d;
  st_eolLength : _EOLLength s = zlen (_EOL s);
  st_memo : memo_ok s (Doc.content d)
}.

Arguments st_doc {s d}.

Lemma edited_memo s s' str str' normalized n : edited s s' str str' normalized n -> memo_ok s str -> memo_ok s' str'.
Proof.
  intros [_ _ _ _ Hc Hv] [Hk _]. constructor; [| left; by rewrite Hv]. apply Forall_forall. intros e He m Hm.
  destruct (Hc e He) as [Hnone | [Hin ->]]; [congruence |]. rewrite Forall_forall in Hk. by apply (Hk e).
Qed.

Lemma fresh_memo s str : fresh s -> memo_ok s str.
Proof. intros [_ Hc Hv]. constructor; [by rewrite Hc | left; by rewrite Hv]. Qed.

(** ** Each edit *)

(** The operation refines the edit of the document. *)
Lemma perform_ok s d e d' :
  stands_for s d -> Doc.apply e d = Some d' -> exists s', perform e s = Ret (tt, s') /\ stands_for s' d'.
Proof.
  intros [Hdoc He Hn Hu Hlen Hmemo] Ha. destruct e as [offset value flag | offset cnt | eol]; cbn [Doc.apply perform] in *.
  - destruct (_ && _) eqn:Hb in Ha; [| done]. injection Ha as <-.
    repeat (apply andb_true_iff in Hb as [Hb ?]). apply bool_decide_eq_true in H1. apply Z.ltb_lt in H0.
    destruct (insert_ok s (Doc.content d) offset value flag Hdoc) as (s' & H3 & H4 & [A1 A2 A3 A4 A5 A6]); [lia | |].
    + constructor; [done | lia |]. rewrite Hn, He. intros E1 E2 Hin.
      by rewrite E1, !bool_decide_eq_true_2 in H by done.
    + exists s'. split; [done |].
      constructor; cbn; [done | congruence | congruence | lia | congruence | by eapply edited_memo; [constructor |]].
  - destruct (_ && _) eqn:Hb in Ha; [| done]. injection Ha as <-. repeat (apply andb_true_iff in Hb as [Hb ?]).
    destruct (delete_ok s (Doc.content d) offset cnt Hdoc) as (s' & H3 & H4 & [A1 A2 A3 A4 A5 A6]); [lia | lia | lia | lia |].
    exists s'. split; [done |].
    constructor; cbn; [done | congruence | congruence | lia | congruence | by eapply edited_memo; [constructor |]].
  - destruct (_ && _) eqn:Hb in Ha; [| done]. injection Ha as <-. apply andb_true_iff in Hb as [Hb Hlt%Z.ltb_lt].
    assert (eol = [LineFeed] \/ eol = [CarriageReturn; LineFeed]) as Heol
      by (apply orb_true_iff in Hb; rewrite !bool_decide_eq_true in Hb; done).
    destruct (setEOL_ok eol Heol s (Doc.content d) Hdoc Hlt) as (s' & H1 & H2 & H3 & H4 & H5 & H6).
    exists s'. split; [done |]. constructor; cbn; [done | done | done | lia | apply H6 | by apply fresh_memo].
Qed.

(** ** Reachable states *)

(** Every line break of a document that claims so is its line end. *)
Definition keeps_promise (d : Doc.t) : Prop :=
  Doc.normalized d = true -> (Doc.eol d = [LineFeed] \/ Doc.eol d = [CarriageReturn; LineFeed]) /\ normal (Doc.eol d) (Doc.content d).

(** The states a program reaches that creates a text store, edits it within the
    contract and reads lines and characters in between (which changes the search
    cache and the line visited last), each with the document it should stand for. *)
Inductive reachable : state -> Doc.t -> Prop :=
  | reach_new chunks eol eolNormalized s :
      creatable chunks eol eolNormalized -> new_PieceTreeBase chunks eol eolNormalized = Ret s ->
      reachable s (Doc.mk (chunks_text chunks) eol eolNormalized 0)
  | reach_edit s d e d' s' :
      reachable s d -> Doc.apply e d = Some d' -> perform e s = Ret (tt, s') -> reachable s' d'
  | reach_line s d n value s' :
      reachable s d -> keeps_promise d -> 1 <= n <= 1 + breaks (Doc.content d) ->
      getLineContent n s = Ret (value, s') -> reachable s' d
  | reach_char s d offset c s' :
      reachable s d -> getCharCode offset s = Ret (c, s') -> reachable s' d.

Lemma new_stands chunks eol eolNormalized :
  creatable chunks eol eolNormalized ->
  exists s, new_PieceTreeBase chunks eol eolNormalized = Ret s /\
    stands_for s (Doc.mk (chunks_text chunks) eol eolNormalized 0).
Proof.
  intros Hc. destruct (create_ok blank chunks eol eolNormalized blank_sentinel eq_refl Hc) as (s & H1 & H2 & H3 & H4 & H5 & H6).
  exists s. split; [unfold new_PieceTreeBase; by rewrite H1 |].
  constructor; cbn; [done | done | done | lia | apply H6 | by apply fresh_memo].
Qed.

Lemma stands_promise s d : stands_for s d -> keeps_promise d -> eol_promise s (Doc.content d).
Proof. intros [_ He Hn _ Hl _] Hp. split; [done |]. by rewrite Hn, He. Qed.

Lemma read_line_ok s d n :
  stands_for s d -> keeps_promise d -> 1 <= n <= 1 + breaks (Doc.content d) ->
  exists s', getLineContent n s = Ret (line_text (Doc.content d) n, s') /\ stands_for s' d.
Proof.
  intros Hs Hp Hn. pose proof (stands_promise _ _ Hs Hp) as Hpr. destruct Hs as [Hdoc He Hno Hu Hl Hm].
  destruct (getLineContent_ok s (Doc.content d) n Hdoc Hm Hpr Hn) as (s' & H1 & H2 & H3 & H4).
  exists s'. split; [done |]. constructor; try done; by rewrite H4.
Qed.

Lemma read_char_ok s d offset c s' : stands_for s d -> getCharCode offset s = Ret (c, s') -> stands_for s' d.
Proof.
  intros [Hdoc He Hno Hu Hl [Hk Hv]] Hr. pose proof (getCharCode_ok s (Doc.content d) offset Hdoc) as H.
  destruct (znth (Doc.content d) offset); [| congruence]. destruct H as (s2 & H1 & H2 & H3 & H4).
  rewrite Hr in H1. injection H1 as _ <-. revert H3 H4. generalize (_cache s') as es. intros es -> H4. constructor; try done.
  constructor; [| done]. apply Forall_forall. intros e He' m Hm.
  destruct (H4 e He') as [? | Hin]; [congruence |]. rewrite Forall_forall in Hk. by apply (Hk e).
Qed.

Lemma reachable_stands s d : reachable s d -> stands_for s d.
Proof.
  induction 1 as [chunks eol flag s Hc Hnew | s d e d' s' _ IH He Hp | s d n v s' _ IH Hp Hn Hr | s d o c s' _ IH Hr];
    [| | destruct (read_line_ok _ _ _ IH Hp Hn) as (s2 & H2 & H3); rewrite Hr in H2; by injection H2 as _ -> | by eapply read_char_ok].
  - destruct (new_stands _ _ _ Hc) as (s' & Hs' & H). rewrite Hnew in Hs'. by injection Hs' as ->.
  - destruct (perform_ok _ _ _ _ IH He) as (s2 & H2 & H3). rewrite Hp in H2. by injection H2 as ->.
Qed.

(** A session: edits in a row. *)
Fixpoint performAll (es : list Doc.edit) : P unit :=
  match es with [] => mret tt | e :: es => perform e;; performAll es end.

Fixpoint applyAll (es : list Doc.edit) (d : Doc.t) : option Doc.t :=
  match es with [] => Some d | e :: es => match Doc.apply e d with Some d' => applyAll es d' | None => None end end.

(** ** The theorems *)

(** C4: inserting into a text store splices the text.  In every state a program
    can reach, for an offset of the document (its end included) and a text that is
    not empty, fits into the change buffer and has no CR if it is declared to have
    normalized line ends and the document's are all LF, [insert] ends without an
    exception, and the text, its length and its line count are then those of the
    document with the text spliced in. *)
Theorem insert_splices s d offset value eolNormalized :
  reachable s d -> 0 <= offset <= zlen (Doc.content d) -> value <> [] -> Doc.used d + zlen value + 5 < 2 ^ 31 - 1 ->
  (Doc.normalized d && eolNormalized = true -> Doc.eol d = [LineFeed] -> CarriageReturn ∉ value) ->
  let str := ztake offset (Doc.content d) ++ value ++ zdrop offset (Doc.content d) in
  exists s', insert offset value eolNormalized s = Ret (tt, s') /\
    getLinesRawContent s' = Ret (str, s') /\ getLength s' = Ret (zlen str, s') /\
    getLineCount s' = Ret (1 + breaks str, s').
Proof.
  intros [Hdoc He Hn Hu _ _]%reachable_stands Ho Hv Hroom Hcr str.
  destruct (insert_ok s (Doc.content d) offset value eolNormalized Hdoc Ho) as (s' & H1 & H2 & _).
  { constructor; [done | lia |]. by rewrite Hn, He. }
  exists s'. split; [done |]. by apply read_doc.
Qed.

(** The document "ab CR LF cd" in two chunks. *)
Definition sample_chunks : list StringBuffer.t :=
  [StringBuffer.mk [97; 98; 13; 10] [0; 4]; StringBuffer.mk [99; 100] [0]].

Lemma sample_creatable flag : creatable sample_chunks [CarriageReturn; LineFeed] flag.
Proof.
  constructor; [| done]. exists sample_chunks, []. split; [done |]. split_and!; [| done |].
  - repeat constructor; done.
  - split; [by intros [? _] |]. split; [by intros [? _] | done].
Qed.

Definition sample_store : state :=
  match new_PieceTreeBase sample_chunks [CarriageReturn; LineFeed] true with Ret s => s | Throw _ => blank end.

Lemma sample_reachable :
  reachable sample_store (Doc.mk [97; 98; 13; 10; 99; 100] [CarriageReturn; LineFeed] true 0).
Proof. apply (reach_new sample_chunks); [apply sample_creatable | by vm_compute]. Qed.

Lemma insert_splices_witness :
  exists s', insert 3 [10; 120; 13] true sample_store = Ret (tt, s') /\
    getLinesRawContent s' = Ret ([97; 98; 13; 10; 120; 13; 10; 99; 100], s') /\ getLineCount s' = Ret (3, s').
Proof.
  destruct (insert_splices sample_store _ 3 [10; 120; 13] true sample_reachable) as (s' & H1 & H2 & _ & H3);
    [done | done | done | done |].
  exists s'. split; [exact H1 |]. split; [exact H2 | exact H3].
Defined.

(** C5: deleting from a text store removes exactly the given units, whatever the
    nodes they lie in: in every state a program can reach, for a range inside the
    document, [delete] ends without an exception, and text, length and line count
    are those of the document without the range. *)
Theorem delete_splices s d offset cnt :
  reachable s d -> 0 <= offset -> 0 <= cnt -> offset + cnt <= zlen (Doc.content d) -> Doc.used d + 3 < 2 ^ 31 - 1 ->
  let str := ztake offset (Doc.content d) ++ zdrop (offset + cnt) (Doc.content d) in
  exists s', delete offset cnt s = Ret (tt, s') /\
    getLinesRawContent s' = Ret (str, s') /\ getLength s' = Ret (zlen str, s') /\
    getLineCount s' = Ret (1 + breaks str, s').
Proof.
  intros [Hdoc He Hn Hu _ _]%reachable_stands Ho Hcnt Hle Hroom str.
  destruct (delete_ok s (Doc.content d) offset cnt Hdoc Ho Hcnt Hle) as (s' & H1 & H2 & _); [lia |].
  exists s'. split; [done |]. by apply read_doc.
Qed.

Lemma delete_splices_witness :
  exists s', delete 1 4 sample_store = Ret (tt, s') /\ getLinesRawContent s' = Ret ([97; 100], s') /\
    getLineCount s' = Ret (1, s').
Proof.
  destruct (delete_splices sample_store _ 1 4 sample_reachable) as (s' & H1 & H2 & _ & H3); [done | done | done | done |].
  exists s'. split; [exact H1 |]. split; [exact H2 | exact H3].
Defined.

Lemma performAll_ok es s d d' :
  stands_for s d -> applyAll es d = Some d' -> exists s', performAll es s = Ret (tt, s') /\ stands_for s' d'.
Proof.
  revert s d. induction es as [| e es IH]; intros s d Hs Ha; cbn [applyAll performAll] in *.
  - injection Ha as <-. by exists s.
  - destruct (Doc.apply e d) as [d1 |] eqn:He; [| done].
    destruct (perform_ok _ _ _ _ Hs He) as (s1 & H1 & H2). destruct (IH s1 d1 H2 Ha) as (s' & H3 & H4).
    exists s'. split; [by erewrite pbind_run by exact H1 | done].
Qed.

(** C1: a whole editing session refines the edits of the text.  A text store
    created from chunks of a file and then edited by any sequence of insertions,
    deletions and changes of the line end within the contract runs without an
    exception, and afterwards reads as the abstract document: its text, length,
    line count and line end. *)
Theorem session_refines_edits chunks eol eolNormalized es d :
  creatable chunks eol eolNormalized -> applyAll es (Doc.mk (chunks_text chunks) eol eolNormalized 0) = Some d ->
  exists s0 s, new_PieceTreeBase chunks eol eolNormalized = Ret s0 /\ performAll es s0 = Ret (tt, s) /\
    getLinesRawContent s = Ret (Doc.content d, s) /\ getLength s = Ret (zlen (Doc.content d), s) /\
    getLineCount s = Ret (1 + breaks (Doc.content d), s) /\ getEOL s = Ret (Doc.eol d, s).
Proof.
  intros Hc Ha. destruct (new_stands _ _ _ Hc) as (s0 & H0 & Hs0).
  destruct (performAll_ok _ _ _ _ Hs0 Ha) as (s & H1 & [Hd He _ _ _ _]). exists s0, s.
  destruct (read_doc _ _ Hd) as (R1 & R2 & R3). split_and!; try done. unfold getEOL, gets. by rewrite He.
Qed.

(** The session: type "x" at the end, delete the line break, append a CR and a LF
    in two steps, change the line ends to LF. *)
Definition sample_session : list Doc.edit :=
  [Doc.Insert 6 [120] true; Doc.Delete 1 4; Doc.Insert 3 [13] false; Doc.Insert 4 [10] false; Doc.SetEOL [LineFeed]].

Lemma session_refines_edits_witness :
  exists s0 s, new_PieceTreeBase sample_chunks [CarriageReturn; LineFeed] true = Ret s0 /\
    performAll sample_session s0 = Ret (tt, s) /\ getLinesRawContent s = Ret ([97; 100; 120; 10], s) /\
    getLineCount s = Ret (2, s).
Proof.
  destruct (session_refines_edits sample_chunks [CarriageReturn; LineFeed] true sample_session
    (Doc.mk [97; 100; 120; 10] [LineFeed] true 0)) as (s0 & s & H1 & H2 & H3 & _ & H4 & _);
    [apply sample_creatable | by vm_compute |].
  exists s0, s. split; [exact H1 |]. split; [exact H2 |]. split; [exact H3 | exact H4].
Defined.

(** C25: [setEOL] replaces every line break of the document by the new line end and
    nothing else, sets the line end, and leaves a text whose line breaks are all
    that line end; the line count stays. *)
Theorem setEOL_replaces s d eol :
  reachable s d -> eol = [LineFeed] \/ eol = [CarriageReturn; LineFeed] ->
  zlen (replace_eol eol (Doc.content d)) < 2 ^ 31 - 1 ->
  exists s', setEOL eol s = Ret (tt, s') /\ getEOL s' = Ret (eol, s') /\
    getLinesRawContent s' = Ret (replace_eol eol (Doc.content d), s') /\
    replace_eol eol (replace_eol eol (Doc.content d)) = replace_eol eol (Doc.content d) /\
    getLineCount s' = Ret (1 + breaks (Doc.content d), s').
Proof.
  intros [Hdoc _ _ _ _ _]%reachable_stands Heol Hlt.
  destruct (setEOL_ok eol Heol s (Doc.content d) Hdoc Hlt) as (s' & H1 & H2 & H3 & _ & _ & _).
  destruct (read_doc _ _ H2) as (R1 & _ & R3). exists s'. split; [done |]. split; [unfold getEOL, gets; by rewrite H3 |].
  split; [done |]. destruct (replace_eol_idem eol Heol (Doc.content d)) as [E1 <-]. done.
Qed.

Lemma setEOL_replaces_witness :
  exists s', setEOL [LineFeed] sample_store = Ret (tt, s') /\
    getLinesRawContent s' = Ret ([97; 98; 10; 99; 100], s') /\ getLineCount s' = Ret (2, s').
Proof.
  destruct (setEOL_replaces sample_store _ [LineFeed] sample_reachable) as (s' & H1 & _ & H2 & _ & H3); [by left | done |].
  exists s'. split; [exact H1 |]. split; [exact H2 | exact H3].
Defined.

(** C28: what the operations do outside of the document.  [getCharCode] returns the
    unit at every offset before the end and throws a [TypeError] everywhere else,
    at the end of the document too; in a document that is not empty, [insert] at
    an offset outside of it and [delete] of a non-empty range that leaves it throw
    a [TypeError] instead of clamping; in the empty document [insert] takes any
    offset as 0; a [delete] of nothing (or of fewer units) changes no text. *)
Theorem outside_of_document s d offset :
  reachable s d ->
  match znth (Doc.content d) offset with
  | Some c => exists s', getCharCode offset s = Ret (c, s')
  | None => getCharCode offset s = Throw TypeError
  end /\
  (Doc.content d <> [] -> offset < 0 \/ zlen (Doc.content d) < offset ->
     forall value eolNormalized, insert offset value eolNormalized s = Throw TypeError) /\
  (Doc.content d <> [] -> forall cnt, 0 < cnt -> offset < 0 \/ zlen (Doc.content d) < offset + cnt ->
     delete offset cnt s = Throw TypeError) /\
  (Doc.content d = [] -> forall value eolNormalized, insert offset value eolNormalized s = insert 0 value eolNormalized s) /\
  (forall cnt, cnt <= 0 -> exists s', delete offset cnt s = Ret (tt, s') /\ getLinesRawContent s' = Ret (Doc.content d, s')).
Proof.
  intros [Hdoc _ _ _ _ _]%reachable_stands. split_and!.
  - pose proof (getCharCode_ok _ _ offset Hdoc) as H. destruct (znth _ _); [| done]. destruct H as (s' & H & _). by exists s'.
  - intros. by eapply insert_outside.
  - intros. by eapply delete_outside.
  - intros He. rewrite He in Hdoc. intros. by apply insert_anywhere_empty.
  - intros cnt Hcnt. apply (is_doc_visited _ _ (0, [])) in Hdoc. exists (set_lastVisited (0, []) s). split; [| by apply read_doc].
    unfold delete. erewrite pbind_run by done. destruct Hdoc as (F & L & Hd & _).
    destruct (holds_root _ L (fits_holds (doc_fits Hd))) as (r & Hr & _). erewrite pbind_run by exact Hr.
    by rewrite (proj2 (Z.leb_le cnt 0) Hcnt).
Qed.

Lemma outside_of_document_witness :
  getCharCode 6 sample_store = Throw TypeError /\ insert 7 [97] true sample_store = Throw TypeError /\
  delete 6 1 sample_store = Throw TypeError.
Proof.
  destruct (outside_of_document _ _ 6 sample_reachable) as (H1 & _ & H2 & _).
  destruct (outside_of_document _ _ 7 sample_reachable) as (_ & H3 & _).
  split; [exact H1 |]. split; [apply H3; [discriminate | right; reflexivity] |].
  apply H2; [discriminate | reflexivity | right; reflexivity].
Defined.
