(* ===== verification/PieceTreeReads.v ===== *)
(** * Reading a document

    The claims on the reading operations of [PieceTreeBase] in every reachable state:
    offsets and positions, ranges, and the content of lines. *)

From stdpp Require Import gmap.
From S2P Require Import Prelude Position Range RBTree RBTreeRep RBTreeOps RBTreeInsert RBTreeDelete RBTreeRemove.
From S2P Require Import PieceBuffers PieceTree PieceTreeEdit PieceTreeNodes PieceTreeRead PieceTreeList PieceTreeText.
From S2P Require Import PieceTreePieces PieceTreeChange PieceTreeSeal PieceTreeInsert PieceTreeDocument.
From S2P Require Import PieceTreeErase PieceTreeCreate PieceTreeChars PieceTreeLines PieceTreeRange PieceTreeContent PieceTreeSession.

(** C19: offsets and positions of a document.  In every reachable state with some
    text: [getOffsetAt] of a line is the line's start in the text (the line starts
    [createLineStartsFast] finds in it) plus the column; [getPositionAt] of an
    offset inside the text gives a line of the document and a column such that the
    line starts at the offset or before it and the next line behind it, and
    [getOffsetAt] leads back to the offset; for a column within its line the other
    round trip holds too; offsets before the start and behind the end are clamped;
    neither changes the state. *)
Theorem positions_and_offsets s d :
  reachable s d -> Doc.content d <> [] ->
  let str := Doc.content d in
  (forall n o column, znth (createLineStartsFast str false) (n - 1) = Some o -> getOffsetAt n column s = Ret (o + column - 1, s)) /\
  (forall offset, 0 <= offset <= zlen str -> exists n column,
     getPositionAt offset s = Ret (Position.new n column, s) /\ getOffsetAt n column s = Ret (offset, s) /\
     1 <= n <= 1 + breaks str /\ 1 <= column /\
     (forall o, znth (createLineStartsFast str false) n = Some o -> offset < o)) /\
  (forall n column o, znth (createLineStartsFast str false) (n - 1) = Some o -> 1 <= column -> o + column - 1 <= zlen str ->
     (forall o', znth (createLineStartsFast str false) n = Some o' -> o + column - 1 < o') ->
     getPositionAt (o + column - 1) s = Ret (Position.new n column, s)) /\
  (forall offset, offset < 0 -> getPositionAt offset s = getPositionAt 0 s) /\
  (forall offset, zlen str < offset -> getPositionAt offset s = getPositionAt (zlen str) s).
Proof.
  intros Hst%reachable_stands Hne str. pose proof (st_doc Hst) as Hdoc. fold str in Hdoc.
  pose proof (fun n col => getOffsetAt_ok s str n col Hdoc Hne) as Hget.
  pose proof (fun o => getPositionAt_ok s str o Hdoc Hne) as Hpos. pose proof (zlen_nonneg str).
  assert (forall i o, znth (createLineStartsFast str false) i = Some o -> 0 <= i <= breaks str /\ o = lstart str (i - 1)) as Hls.
  { intros i o Hi. unfold createLineStartsFast in Hi. pose proof (znth_Some _ _ _ Hi) as Hb. rewrite zlen_cons in Hb.
    split; [unfold breaks; lia |]. destruct (decide (i = 0)) as [-> |]; [by injection Hi as <- |].
    rewrite znth_cons_S in Hi by lia. by rewrite (lstart_some str (i - 1) o) by (done || lia). }
  assert (forall i, 0 <= i <= breaks str -> znth (createLineStartsFast str false) i = Some (lstart str (i - 1))) as Hls'.
  { intros i Hi. destruct (znth_is_Some (createLineStartsFast str false) i) as [o Ho].
    { unfold createLineStartsFast. rewrite zlen_cons. unfold breaks in Hi. lia. }
    rewrite Ho. f_equal. by destruct (Hls _ _ Ho). }
  assert (forall n o col, znth (createLineStartsFast str false) (n - 1) = Some o -> offset_in str n col = o + col - 1) as Hin.
  { intros n o col [Hn ->]%Hls. unfold offset_in. rewrite (proj2 (Z.ltb_lt _ _)) by lia. by replace (n - 1 - 1) with (n - 2) by lia. }
  split_and!.
  - intros n o col Hn. by rewrite Hget, (Hin n o col Hn).
  - intros offset Ho. rewrite Hpos, Z.max_r, Z.min_l by lia. unfold pos_of.
    destruct (offset_of_pos str offset Ho) as (H1 & H2 & H3). destruct (lines_upto_line str offset Ho) as [_ H4].
    eexists _, _. split; [done |]. rewrite Hget, H1. split_and!; try done; [lia | lia |].
    intros o [Hn ->]%Hls. rewrite Z.add_simpl_r. apply H4. lia.
  - intros n col o Hn Hc Hle Hnext. rewrite Hpos. pose proof (Hls _ _ Hn) as [Hn' Ho].
    pose proof (lstart_bounds str (n - 1 - 1)).
    rewrite Z.max_r, Z.min_l by lia. unfold pos_of.
    rewrite (line_of_start str n (o + col - 1)); [| lia | |].
    + rewrite <- Ho. replace (n - 1 + 1) with n by lia. by replace (o + col - 1 - o + 1) with col by lia.
    + rewrite Ho in *. replace (n - 1 - 1) with (n - 2) in * by lia. lia.
    + intros Hnb. apply Hnext. apply Hls'. lia.
  - intros offset Ho. by rewrite !Hpos, !Z.max_l by lia.
  - intros offset Ho. by rewrite !Hpos, !Z.max_r, !Z.min_r by lia.
Qed.

Lemma positions_and_offsets_witness :
  getOffsetAt 2 3 sample_store = Ret (6, sample_store) /\
  getPositionAt 5 sample_store = Ret (Position.new 2 2, sample_store).
Proof.
  destruct (positions_and_offsets sample_store _ sample_reachable) as (H1 & _ & H2 & _); [discriminate |].
  split; [apply (H1 2 4 3); reflexivity |]. apply (H2 2 2 4); [reflexivity | lia | discriminate | discriminate].
Defined.

(** C20: reading a range.  In every reachable state, for two positions of the
    document (a line, and a column that stays within the line) at the offsets [o1]
    before [o2], [getValueInRange] ends without an exception, gives exactly the
    units of the text from [o1] to [o2], whether they lie in one piece or in many,
    with every line break replaced when another line end is asked for or the line
    breaks are mixed, and changes nothing; [getOffsetAt] gives the same offsets. *)
Theorem getValueInRange_reads s d range eol o1 o2 :
  reachable s d -> let starts := createLineStartsFast (Doc.content d) false in
  let n1 := Range.startLineNumber range in let c1 := Range.startColumn range in
  let n2 := Range.endLineNumber range in let c2 := Range.endColumn range in
  znth starts (n1 - 1) = Some (o1 - (c1 - 1)) -> 1 <= c1 -> (forall o, znth starts n1 = Some o -> o1 < o) ->
  znth starts (n2 - 1) = Some (o2 - (c2 - 1)) -> 1 <= c2 -> (forall o, znth starts n2 = Some o -> o2 < o) ->
  o1 < o2 -> o2 <= zlen (Doc.content d) ->
  getOffsetAt n1 c1 s = Ret (o1, s) /\ getOffsetAt n2 c2 s = Ret (o2, s) /\
  getValueInRange range None s = Ret (ztake (o2 - o1) (zdrop o1 (Doc.content d)), s) /\
  getValueInRange range (Some eol) s =
    Ret (let value := ztake (o2 - o1) (zdrop o1 (Doc.content d)) in
         if bool_decide (eol = []) || (bool_decide (eol = Doc.eol d) && Doc.normalized d) then value
         else replace_eol eol value, s).
Proof.
  intros [Hdoc He Hn _ _ _]%reachable_stands starts n1 c1 n2 c2 S1 C1 N1 S2 C2 N2 Hlt Hend.
  assert (at_offset (Doc.content d) n1 c1 o1) as A1 by (apply at_offset_intro; [done | done | lia | done]).
  assert (at_offset (Doc.content d) n2 c2 o2) as A2 by (by apply at_offset_intro).
  assert (0 <= o1) as Hpos.
  { pose proof (lstart_bounds (Doc.content d) (n1 - 2)). pose proof (at_eq _ _ _ _ A1). lia. }
  assert (Doc.content d <> []) as Hne by (intros E1; rewrite E1 in Hend; change (zlen []) with 0 in Hend; lia).
  assert (forall n c o, at_offset (Doc.content d) n c o -> getOffsetAt n c s = Ret (o, s)) as Hget.
  { intros n c o [? ? Ho _ _]. rewrite (getOffsetAt_ok _ _ _ _ Hdoc Hne). unfold offset_in.
    rewrite (proj2 (Z.ltb_lt _ _)) by lia. by rewrite Ho. }
  assert (slice (Doc.content d) o1 o2 = ztake (o2 - o1) (zdrop o1 (Doc.content d))) as Hsl.
  { unfold slice, zdrop, ztake. rewrite skipn_firstn_comm. f_equal. lia. }
  split; [by apply Hget |]. split; [by apply Hget |]. rewrite <- Hsl.
  split; [by rewrite (getValueInRange_ok _ _ _ _ _ _ Hdoc A1 A2 Hlt) |].
  rewrite (getValueInRange_ok _ _ _ _ _ _ Hdoc A1 A2 Hlt). unfold with_eol. rewrite He, Hn.
  by destruct eol as [| c eol].
Qed.

Lemma getValueInRange_reads_witness :
  getValueInRange (Range.new 1 2 2 2) None sample_store = Ret ([98; 13; 10; 99], sample_store) /\
  getValueInRange (Range.new 1 2 2 2) (Some [LineFeed]) sample_store = Ret ([98; 10; 99], sample_store).
Proof.
  destruct (getValueInRange_reads sample_store _ (Range.new 1 2 2 2) [LineFeed] 1 5 sample_reachable)
    as (_ & _ & H1 & H2); [reflexivity | discriminate | | reflexivity | discriminate | discriminate | reflexivity | discriminate |].
  - intros o [= <-]. reflexivity.
  - split; [exact H1 | exact H2].
Defined.

(** C18: the content of lines.  In every state reached by edits and reads in any order
    (with whatever they left in the search cache and as the line visited last), of a
    document whose line breaks are what it claims: [getLineContent] of every line
    ends without an exception and returns that line of the text split at its line
    breaks (CR LF, CR and LF), the document stays the same and the state reachable,
    and there are as many lines as [getLineCount] says. *)
Theorem getLineContent_reads s d n :
  reachable s d -> keeps_promise d -> 1 <= n <= 1 + breaks (Doc.content d) ->
  exists value s', getLineContent n s = Ret (value, s') /\ reachable s' d /\
    znth (split_lines (Doc.content d)) (n - 1) = Some value /\
    getLineCount s' = Ret (zlen (split_lines (Doc.content d)), s').
Proof.
  intros Hr Hp Hn. pose proof (reachable_stands _ _ Hr) as Hs.
  destruct (read_line_ok s d n Hs Hp Hn) as (s' & H1 & H2). destruct (split_lines_ok (Doc.content d)) as [H3 H4].
  exists (line_text (Doc.content d) n), s'. split; [done |]. split; [by eapply reach_line |]. split; [by apply H4 |].
  rewrite H3. apply (read_doc _ _ (st_doc H2)).
Qed.

Lemma getLineContent_reads_witness :
  exists value s', getLineContent 2 sample_store = Ret (value, s') /\ value = [99; 100].
Proof.
  destruct (getLineContent_reads sample_store _ 2 sample_reachable) as (value & s' & H1 & _ & H2 & _).
  - intros _. split; [right; reflexivity | reflexivity].
  - split; discriminate.
  - exists value, s'. split; [exact H1 |]. injection H2 as <-. reflexivity.
Defined.
