(* ===== verification/Strings.v ===== *)
(** * Strings

    The functions of [strings.ts] and [eolCounter.ts] the text buffer calls: tests
    on the units of a string and the count of its line breaks. *)

From stdpp Require Import base.
From S2P Require Import Prelude PieceBuffers.

Module strings.

(** ** Tests *)

Definition isHighSurrogate (charCode : Z) : bool := (0xD800 <=? charCode) && (charCode <=? 0xDBFF).
Definition isLowSurrogate (charCode : Z) : bool := (0xDC00 <=? charCode) && (charCode <=? 0xDFFF).

(** The character classes of the regular expression of [makeContainsRtl]. *)
Definition rtl_units : list (Z * Z) :=
  [
    (0x5be, 0x5be); (0x5c0, 0x5c0); (0x5c3, 0x5c3); (0x5c6, 0x5c6); (0x5d0, 0x5f4); (0x608, 0x608);
    (0x60b, 0x60b); (0x60d, 0x60d); (0x61b, 0x64a); (0x66d, 0x66f); (0x671, 0x6d5); (0x6e5, 0x6e5);
    (0x6e6, 0x6e6); (0x6ee, 0x6ee); (0x6ef, 0x6ef); (0x6fa, 0x710); (0x712, 0x72f); (0x74d, 0x7a5);
    (0x7b1, 0x7ea); (0x7f4, 0x7f4); (0x7f5, 0x7f5); (0x7fa, 0x7fa); (0x7fe, 0x815); (0x81a, 0x81a);
    (0x824, 0x824); (0x828, 0x828); (0x830, 0x858); (0x85e, 0x88e); (0x8a0, 0x8c9); (0x200f, 0x200f);
    (0xfb1d, 0xfb1d); (0xfb1f, 0xfb28); (0xfb2a, 0xfd3d); (0xfd50, 0xfdc7); (0xfdf0, 0xfdfc); (0xfe70, 0xfefc)
  ].

Definition rtl_D802 : list (Z * Z) :=
  [
    (0xdc00, 0xdd1b); (0xdd20, 0xde00); (0xde10, 0xde35); (0xde40, 0xdee4); (0xdeeb, 0xdf35); (0xdf40, 0xdfff)
  ].

Definition rtl_D803 : list (Z * Z) :=
  [
    (0xdc00, 0xdd23); (0xde80, 0xdea9); (0xdead, 0xdf45); (0xdf51, 0xdf81); (0xdf86, 0xdff6)
  ].

Definition rtl_D83A : list (Z * Z) :=
  [
    (0xdc00, 0xdccf); (0xdd00, 0xdd43); (0xdd4b, 0xdfff)
  ].

Definition rtl_D83B : list (Z * Z) :=
  [
    (0xdc00, 0xdebb)
  ].

Definition in_class (ranges : list (Z * Z)) (u : Z) : bool := existsb (fun '(lo, hi) => (lo <=? u) && (u <=? hi)) ranges.

(** a match of the regular expression at the head of the string *)
Definition rtl_here (str : jsstring) : bool :=
  match str with
  | [] => false
  | u :: rest =>
      in_class rtl_units u ||
      match rest with
      | [] => false
      | v :: _ =>
          ((u === 0xD802) && in_class rtl_D802 v) || ((u === 0xD803) && in_class rtl_D803 v) ||
          ((u === 0xD83A) && in_class rtl_D83A v) || ((u === 0xD83B) && in_class rtl_D83B v)
      end
  end.

Fixpoint containsRTL (str : jsstring) : bool :=
  match str with [] => false | _ :: rest => rtl_here str || containsRTL rest end.

Definition isBasicASCII (str : jsstring) : bool :=
  forallb (fun c => (c === Tab) || (c === LineFeed) || (c === CarriageReturn) || ((0x20 <=? c) && (c <=? 0x7E))) str.

Definition containsUnusualLineTerminators (str : jsstring) : bool :=
  existsb (fun c => (c === 0x2028) || (c === 0x2029)) str.

Definition UTF8_BOM : Z := 65279.
Definition startsWithUTF8BOM (str : jsstring) : bool := (0 <? zlen str) && (charCodeAt str 0 === UTF8_BOM).

Definition Space : Z := 32.

(** the loop over [i] *)
Fixpoint firstNonWhitespace_loop (i : Z) (str : jsstring) : Z :=
  match str with
  | [] => -1
  | chCode :: str => if (chCode !== Space) && (chCode !== Tab) then i else firstNonWhitespace_loop (i + 1) str
  end.
Definition firstNonWhitespaceIndex (str : jsstring) : Z := firstNonWhitespace_loop 0 str.

(** the loop from [i] down, over the units before it in reverse *)
Fixpoint lastNonWhitespace_loop (i : Z) (rstr : jsstring) : Z :=
  match rstr with
  | [] => -1
  | chCode :: rstr => if (chCode !== Space) && (chCode !== Tab) then i else lastNonWhitespace_loop (i - 1) rstr
  end.

(** with the default [startIndex], the last unit *)
Definition lastNonWhitespaceIndex (str : jsstring) : Z := lastNonWhitespace_loop (zlen str - 1) (rev str).

(** [String.fromCharCode] of one code *)
Definition fromCharCode (code : Z) : jsstring := [uint16 code].

End strings.

(** ** Counting line breaks *)

Module eolCounter.

(** [StringEOL] *)
Definition EOL_Unknown : Z := 0.
Definition EOL_Invalid : Z := 3.
Definition EOL_StrLF : Z := 1.
Definition EOL_StrCRLF : Z := 2.

(** the variables of the loop of [countEOL] *)
Record eolAcc := mkEol { eolCount : Z; firstLineLength : Z; lastLineStart : Z; strEol : Z }.

Definition eol_at (acc : eolAcc) (i next flag : Z) : eolAcc :=
  mkEol (eolCount acc + 1) (if eolCount acc === 0 then i else firstLineLength acc) next (Z.lor (strEol acc) flag).

Fixpoint countEOL_loop (i : Z) (text : jsstring) (acc : eolAcc) : eolAcc :=
  match text with
  | [] => acc
  | chr :: rest =>
      if chr === CarriageReturn then
        match rest with
        | d :: rest2 =>
            if d === LineFeed then countEOL_loop (i + 2) rest2 (eol_at acc i (i + 2) EOL_StrCRLF)
            else countEOL_loop (i + 1) rest (eol_at acc i (i + 1) EOL_Invalid)
        | [] => eol_at acc i (i + 1) EOL_Invalid
        end
      else if chr === LineFeed then countEOL_loop (i + 1) rest (eol_at acc i (i + 1) EOL_StrLF)
      else countEOL_loop (i + 1) rest acc
  end.

Definition countEOL (text : jsstring) : Z * Z * Z * Z :=
  let acc := countEOL_loop 0 text (mkEol 0 0 0 EOL_Unknown) in
  (eolCount acc, if eolCount acc === 0 then zlen text else firstLineLength acc,
   zlen text - lastLineStart acc, strEol acc).

End eolCounter.
