(* ===== verification/TextBuffer.v ===== *)
(** * The text buffer

    [PieceTreeTextBuffer] of [pieceTreeTextBuffer.ts]: the piece table with the byte
    order mark and three flags on the characters of the text, the reading operations
    and [applyEdits], which checks a batch of edits, computes the edits that undo it
    and applies it. *)

From stdpp Require Import base.
From S2P Require Import Prelude Position Range Buffer TextChange RBTree PieceBuffers PieceTree PieceTreeEdit Strings.

(** ** Data *)

Inductive EndOfLinePreference := TextDefined | LF | CRLF.

Record ISingleEditOperationIdentifier := mkIdentifier { major : Z; minor : Z }.

Module ValidAnnotatedEditOperation.
Record t := mk {
  identifier : option ISingleEditOperationIdentifier;
  range : Range.t;
  text : option jsstring;
  forceMoveMarkers : bool;
  isAutoWhitespaceEdit : bool;
  _isTracked : bool
}.
End ValidAnnotatedEditOperation.

Module IValidatedEditOperation.
Record t := mk {
  sortIndex : Z;
  identifier : option ISingleEditOperationIdentifier;
  range : Range.t;
  rangeOffset : Z;
  rangeLength : Z;
  text : jsstring;
  eolCount : Z;
  firstLineLength : Z;
  lastLineLength : Z;
  forceMoveMarkers : bool;
  isAutoWhitespaceEdit : bool
}.
End IValidatedEditOperation.

Module IReverseSingleEditOperation.
Record t := mk {
  sortIndex : Z;
  identifier : option ISingleEditOperationIdentifier;
  range : Range.t;
  text : jsstring;
  textChange : TextChange.t
}.
End IReverseSingleEditOperation.

Module IInternalModelContentChange.
Record t := mk {
  range : Range.t;
  rangeLength : Z;
  text : jsstring;
  rangeOffset : Z;
  forceMoveMarkers : bool
}.
End IInternalModelContentChange.

Module ApplyEditsResult.
Record t := mk {
  reverseEdits : option (list IReverseSingleEditOperation.t);
  changes : list IInternalModelContentChange.t;
  trimAutoWhitespaceLineNumbers : option (list Z)
}.
End ApplyEditsResult.

Notation rawOp := ValidAnnotatedEditOperation.t.
Notation validOp := IValidatedEditOperation.t.
Notation reverseOp := IReverseSingleEditOperation.t.

(** The object; of the emitter [_onDidChangeContent] the model keeps how often it has
    fired. *)
Module PieceTreeTextBuffer.
Record t := mk {
  _pieceTree : state;
  _BOM : jsstring;
  _mightContainRTL : bool;
  _mightContainUnusualLineTerminators : bool;
  _mightContainNonBasicASCII : bool;
  _onDidChangeContent : Z
}.
End PieceTreeTextBuffer.
Import PieceTreeTextBuffer.

Definition new_PieceTreeTextBuffer (chunks : list StringBuffer.t) (BOM eol : jsstring)
    (containsRTL containsUnusualLineTerminators isBasicASCII eolNormalized : bool) : res PieceTreeTextBuffer.t :=
  let* tree := new_PieceTreeBase chunks eol eolNormalized in
  Ret (mk tree BOM containsRTL containsUnusualLineTerminators (negb isBasicASCII) 0).

(** ** The monad of [PieceTreeTextBuffer] *)

Definition B (A : Type) : Type := PieceTreeTextBuffer.t -> res (A * PieceTreeTextBuffer.t).

#[global] Instance B_ret : MRet B := fun A a b => Ret (a, b).
#[global] Instance B_bind : MBind B := fun X Y f m b =>
  match m b with Ret (a, b') => f a b' | Throw e => Throw e end.

Definition bthrow {A} (e : js_error) : B A := fun _ => Throw e.
Definition field {A} (f : PieceTreeTextBuffer.t -> A) : B A := fun b => Ret (f b, b).
Definition set_tree (v : state) (b : PieceTreeTextBuffer.t) : PieceTreeTextBuffer.t :=
  mk v (_BOM b) (_mightContainRTL b) (_mightContainUnusualLineTerminators b) (_mightContainNonBasicASCII b) (_onDidChangeContent b).

(** A call of [this._pieceTree]. *)
Definition tree {A} (m : P A) : B A := fun b =>
  match m (_pieceTree b) with Ret (a, s) => Ret (a, set_tree s b) | Throw e => Throw e end.

Definition set_flags (rtl ult nonASCII : bool) : B unit := fun b =>
  Ret (tt, mk (_pieceTree b) (_BOM b) rtl ult nonASCII (_onDidChangeContent b)).
Definition fire_onDidChangeContent : B unit := fun b =>
  Ret (tt, mk (_pieceTree b) (_BOM b) (_mightContainRTL b) (_mightContainUnusualLineTerminators b)
                (_mightContainNonBasicASCII b) (_onDidChangeContent b + 1)).

(** A loop over the indexes of an array, and one over a range of numbers. *)
Fixpoint mapM_B {X Y} (f : X -> B Y) (l : list X) : B (list Y) :=
  match l with [] => mret [] | x :: l => y ← f x; ys ← mapM_B f l; mret (y :: ys) end.

Fixpoint fold_B {X Y} (f : Y -> X -> B Y) (acc : Y) (l : list X) : B Y :=
  match l with [] => mret acc | x :: l => acc ← f acc x; fold_B f acc l end.

Definition numbers (from to : Z) : list Z := (fun i => from + Z.of_nat i) <$> seq 0 (Z.to_nat (to - from + 1)).

(** [Array.prototype.sort]: stable *)
Fixpoint js_insert {A} (cmp : A -> A -> Z) (x : A) (l : list A) : list A :=
  match l with [] => [x] | y :: k => if cmp x y <=? 0 then x :: l else y :: js_insert cmp x k end.
Definition js_sort {A} (cmp : A -> A -> Z) (l : list A) : list A := foldr (js_insert cmp) [] l.

(** ** Reading *)

Definition mightContainRTL : B bool := field _mightContainRTL.
Definition mightContainUnusualLineTerminators : B bool := field _mightContainUnusualLineTerminators.
Definition resetMightContainUnusualLineTerminators : B unit := fun b =>
  set_flags (_mightContainRTL b) false (_mightContainNonBasicASCII b) b.
Definition mightContainNonBasicASCII : B bool := field _mightContainNonBasicASCII.
Definition getBOM : B jsstring := field _BOM.

(** [None]: [other] is another kind of text buffer.  Comparing fills the search cache
    of [other] too. *)
Definition equals (other : option PieceTreeTextBuffer.t) : B (bool * option PieceTreeTextBuffer.t) :=
  match other with
  | None => mret (false, None)
  | Some o =>
      bom ← field _BOM;
      if negb (bool_decide (bom = _BOM o)) then mret (false, Some o) else
      eol ← tree getEOL;
      if negb (bool_decide (eol = _EOL (_pieceTree o))) then mret (false, Some o) else
      r ← tree (equal (_pieceTree o));
      mret (fst r, Some (set_tree (snd r) o))
  end.

Definition createSnapshot (preserveBOM : bool) : B PieceTreeSnapshot :=
  bom ← field _BOM; tree (PieceTree.createSnapshot (if preserveBOM then bom else [])).

Definition getRangeAt (start length : Z) : B Range.t :=
  let end_ := start + length in
  startPosition ← tree (getPositionAt start);
  endPosition ← tree (getPositionAt end_);
  mret (Range.new (Position.lineNumber startPosition) (Position.column startPosition)
          (Position.lineNumber endPosition) (Position.column endPosition)).

Definition _getEndOfLine (eol : EndOfLinePreference) : B jsstring :=
  match eol with
  | LF => mret [LineFeed]
  | CRLF => mret [CarriageReturn; LineFeed]
  | TextDefined => tree getEOL
  end.

Definition getValueInRange (range : Range.t) (eol : EndOfLinePreference) : B jsstring :=
  if Range.isEmpty range then mret [] else
  lineEnding ← _getEndOfLine eol;
  tree (PieceTree.getValueInRange range (Some lineEnding)).

Definition getValueLengthInRange (range : Range.t) (eol : EndOfLinePreference) : B Z :=
  if Range.isEmpty range then mret 0 else
  if Range.startLineNumber range === Range.endLineNumber range then
    mret (Range.endColumn range - Range.startColumn range) else
  startOffset ← tree (getOffsetAt (Range.startLineNumber range) (Range.startColumn range));
  endOffset ← tree (getOffsetAt (Range.endLineNumber range) (Range.endColumn range));
  desiredEOL ← _getEndOfLine eol;
  actualEOL ← tree getEOL;
  let eolOffsetCompensation :=
    if zlen desiredEOL !== zlen actualEOL then
      let delta := zlen desiredEOL - zlen actualEOL in
      let eolCount := Range.endLineNumber range - Range.startLineNumber range in
      delta * eolCount
    else 0 in
  mret (endOffset - startOffset + eolOffsetCompensation).

(** the loop over the offsets of one line; every round moves on by one or two *)
Fixpoint countCharacters (fuel : nat) (lineContent : jsstring) (offset toOffset result : Z) : Z :=
  match fuel with
  | O => result
  | S fuel =>
      if offset <? toOffset then
        if strings.isHighSurrogate (charCodeAt lineContent offset) then
          countCharacters fuel lineContent (offset + 2) toOffset (result + 1)
        else countCharacters fuel lineContent (offset + 1) toOffset (result + 1)
      else result
  end.

Definition getCharacterCountInRange (range : Range.t) (eol : EndOfLinePreference) : B Z :=
  nonASCII ← field _mightContainNonBasicASCII;
  if nonASCII : bool then
    let fromLineNumber := Range.startLineNumber range in
    let toLineNumber := Range.endLineNumber range in
    result ← fold_B (fun result lineNumber =>
      lineContent ← tree (getLineContent lineNumber);
      let fromOffset := if lineNumber === fromLineNumber then Range.startColumn range - 1 else 0 in
      let toOffset := if lineNumber === toLineNumber then Range.endColumn range - 1 else zlen lineContent in
      mret (countCharacters (Z.to_nat (toOffset - fromOffset)) lineContent fromOffset toOffset result))
      0 (numbers fromLineNumber toLineNumber);
    eol ← _getEndOfLine eol;
    mret (result + zlen eol * (toLineNumber - fromLineNumber))
  else getValueLengthInRange range eol.

Definition getLineMaxColumn (lineNumber : Z) : B Z := len ← tree (getLineLength lineNumber); mret (len + 1).

Definition getLineFirstNonWhitespaceColumn (lineNumber : Z) : B Z :=
  content ← tree (getLineContent lineNumber);
  let result := strings.firstNonWhitespaceIndex content in
  if result === -1 then mret 0 else mret (result + 1).

Definition getLineLastNonWhitespaceColumn (lineNumber : Z) : B Z :=
  content ← tree (getLineContent lineNumber);
  let result := strings.lastNonWhitespaceIndex content in
  if result === -1 then mret 0 else mret (result + 2).

Definition setEOL (newEOL : jsstring) : B unit := tree (PieceTreeEdit.setEOL newEOL).

(** ** Edits *)

Section Operations.
Import IValidatedEditOperation.

Definition _sortOpsAscending (a b : validOp) : Z :=
  let r := Range.compareRangesUsingEnds (range a) (range b) in
  if r === 0 then sortIndex a - sortIndex b else r.

Definition _sortOpsDescending (a b : validOp) : Z :=
  let r := Range.compareRangesUsingEnds (range a) (range b) in
  if r === 0 then sortIndex b - sortIndex a else - r.

(** the range of the text of an edit that starts at a position *)
Definition insertedRange (startLineNumber startColumn : Z) (textLength eolCount firstLineLength lastLineLength : Z) : Range.t :=
  if 0 <? textLength then
    let lineCount := eolCount + 1 in
    if lineCount === 1 then Range.new startLineNumber startColumn startLineNumber (startColumn + firstLineLength)
    else Range.new startLineNumber startColumn (startLineNumber + lineCount - 1) (lastLineLength + 1)
  else Range.new startLineNumber startColumn startLineNumber startColumn.

Definition _getInverseEditRange (range : Range.t) (text : jsstring) : Range.t :=
  let startLineNumber := Range.startLineNumber range in
  let startColumn := Range.startColumn range in
  let '(eolCount, firstLineLength, lastLineLength, _) := eolCounter.countEOL text in
  insertedRange startLineNumber startColumn (zlen text) eolCount firstLineLength lastLineLength.

(** the loop; [prev] is the operation before, with the end of its range *)
Fixpoint inverseRanges (prev : option (validOp * Z * Z)) (operations : list validOp) : list Range.t :=
  match operations with
  | [] => []
  | op :: operations =>
      let '(startLineNumber, startColumn) :=
        match prev with
        | Some (prevOp, prevOpEndLineNumber, prevOpEndColumn) =>
            if Range.endLineNumber (range prevOp) === Range.startLineNumber (range op) then
              (prevOpEndLineNumber, prevOpEndColumn + (Range.startColumn (range op) - Range.endColumn (range prevOp)))
            else
              (prevOpEndLineNumber + (Range.startLineNumber (range op) - Range.endLineNumber (range prevOp)),
               Range.startColumn (range op))
        | None => (Range.startLineNumber (range op), Range.startColumn (range op))
        end in
      let resultRange := insertedRange startLineNumber startColumn (zlen (text op)) (eolCount op)
                           (firstLineLength op) (lastLineLength op) in
      resultRange :: inverseRanges (Some (op, Range.endLineNumber resultRange, Range.endColumn resultRange)) operations
  end.
Definition _getInverseEditRanges (operations : list validOp) : list Range.t := inverseRanges None operations.

(** one round of the loop of [_doApplyEdits] *)
Definition applyOne (contentChanges : list IInternalModelContentChange.t) (op : validOp)
    : B (list IInternalModelContentChange.t) :=
  let startLineNumber := Range.startLineNumber (range op) in
  let startColumn := Range.startColumn (range op) in
  let endLineNumber := Range.endLineNumber (range op) in
  let endColumn := Range.endColumn (range op) in
  if (startLineNumber === endLineNumber) && (startColumn === endColumn) && (zlen (text op) === 0) then
    mret contentChanges
  else
    (if negb (zlen (text op) === 0) then
       tree (delete (rangeOffset op) (rangeLength op));;
       tree (insert (rangeOffset op) (text op) true)
     else tree (delete (rangeOffset op) (rangeLength op)));;
    let contentChangeRange := Range.new startLineNumber startColumn endLineNumber endColumn in
    mret (contentChanges ++ [IInternalModelContentChange.mk contentChangeRange (rangeLength op) (text op)
                               (rangeOffset op) (forceMoveMarkers op)]).

Definition _doApplyEdits (operations : list validOp) : B (list IInternalModelContentChange.t) :=
  let operations := js_sort _sortOpsDescending operations in
  fold_B applyOne [] operations.

(** the loop of [_toSingleEditOperation] *)
Fixpoint joinOps (operations : list validOp) (lastEndLineNumber lastEndColumn : Z) : B (jsstring * bool) :=
  match operations with
  | [] => mret ([], false)
  | operation :: operations =>
      let r := range operation in
      old ← getValueInRange (Range.new lastEndLineNumber lastEndColumn (Range.startLineNumber r) (Range.startColumn r)) TextDefined;
      rest ← joinOps operations (Range.endLineNumber r) (Range.endColumn r);
      mret (old ++ (if 0 <? zlen (text operation) then text operation else []) ++ fst rest,
            forceMoveMarkers operation || snd rest)
  end.

Definition _toSingleEditOperation (operations : list validOp) : B validOp :=
  match head operations, last operations with
  | Some first, Some last_ =>
      let firstEditRange := range first in
      let lastEditRange := range last_ in
      let entireEditRange := Range.new (Range.startLineNumber firstEditRange) (Range.startColumn firstEditRange)
                               (Range.endLineNumber lastEditRange) (Range.endColumn lastEditRange) in
      r ← joinOps operations (Range.startLineNumber firstEditRange) (Range.startColumn firstEditRange);
      let text := fst r in
      let '(eolCount, firstLineLength, lastLineLength, _) := eolCounter.countEOL text in
      rangeOffset ← tree (getOffsetAt (Range.startLineNumber entireEditRange) (Range.startColumn entireEditRange));
      rangeLength ← getValueLengthInRange entireEditRange TextDefined;
      mret (mk 0 (identifier first) entireEditRange rangeOffset rangeLength text eolCount firstLineLength
              lastLineLength (snd r) false)
  | _, _ => bthrow TypeError
  end.

Definition _reduceOperations (operations : list validOp) : B (list validOp) :=
  if zlen operations <? 1000 then mret operations
  else op ← _toSingleEditOperation operations; mret [op].

(** the check of neighbours; [true]: some ranges touch *)
Fixpoint touchingRanges (operations : list validOp) : B bool :=
  match operations with
  | op :: (next :: _) as rest =>
      let rangeEnd := Range.getEndPosition (range op) in
      let nextRangeStart := Range.getStartPosition (range next) in
      if Position.isBeforeOrEqual nextRangeStart rangeEnd then
        if Position.isBefore nextRangeStart rangeEnd then bthrow Error
        else r ← touchingRanges rest; mret true
      else touchingRanges rest
  | _ => mret false
  end.

End Operations.

(** the variables of the first loop of [applyEdits] *)
Record flags := mkFlags { fRTL : bool; fULT : bool; fNonASCII : bool; canReduceOperations : bool }.

(** [op.text], falsy when it is [null] or empty *)
Definition truthy_text (text : option jsstring) : option jsstring :=
  match text with Some ((_ :: _) as text) => Some text | _ => None end.

Definition flagsOf (f : flags) (op : rawOp) : flags :=
  let canReduce := if canReduceOperations f && ValidAnnotatedEditOperation._isTracked op then false else canReduceOperations f in
  match truthy_text (ValidAnnotatedEditOperation.text op) with
  | Some text =>
      let '(textMightContainNonBasicASCII, nonASCII) :=
        if negb (fNonASCII f) then (negb (strings.isBasicASCII text), negb (strings.isBasicASCII text))
        else (true, fNonASCII f) in
      let rtl := if negb (fRTL f) && textMightContainNonBasicASCII then strings.containsRTL text else fRTL f in
      let ult := if negb (fULT f) && textMightContainNonBasicASCII then strings.containsUnusualLineTerminators text
                 else fULT f in
      mkFlags rtl ult nonASCII canReduce
  | None => mkFlags (fRTL f) (fULT f) (fNonASCII f) canReduce
  end.

(** one round of the first loop of [applyEdits] *)
Definition validateOp (i : Z) (op : rawOp) : B validOp :=
  let validatedRange := ValidAnnotatedEditOperation.range op in
  r ← (match truthy_text (ValidAnnotatedEditOperation.text op) with
       | Some text =>
           let '(eolCount, firstLineLength, lastLineLength, strEOL) := eolCounter.countEOL text in
           bufferEOL ← tree getEOL;
           let expectedStrEOL :=
             if bool_decide (bufferEOL = [CarriageReturn; LineFeed]) then eolCounter.EOL_StrCRLF else eolCounter.EOL_StrLF in
           let validText :=
             if (strEOL === eolCounter.EOL_Unknown) || (strEOL === expectedStrEOL) then text
             else replace_eol bufferEOL text in
           mret (validText, eolCount, firstLineLength, lastLineLength)
       | None => mret ([], 0, 0, 0)
       end);
  let '(validText, eolCount, firstLineLength, lastLineLength) := r in
  rangeOffset ← tree (getOffsetAt (Range.startLineNumber validatedRange) (Range.startColumn validatedRange));
  rangeLength ← getValueLengthInRange validatedRange TextDefined;
  mret (IValidatedEditOperation.mk i (ValidAnnotatedEditOperation.identifier op) validatedRange rangeOffset rangeLength
          validText eolCount firstLineLength lastLineLength (ValidAnnotatedEditOperation.forceMoveMarkers op)
          (ValidAnnotatedEditOperation.isAutoWhitespaceEdit op)).

Fixpoint validateOps (i : Z) (rawOperations : list rawOp) (f : flags) : B (flags * list validOp) :=
  match rawOperations with
  | [] => mret (f, [])
  | op :: rawOperations =>
      let f := flagsOf f op in
      v ← validateOp i op;
      r ← validateOps (i + 1) rawOperations f;
      mret (fst r, v :: snd r)
  end.

(** the lines that may get trailing whitespace, with their old content *)
Definition trimCandidates (op : validOp) (reverseRange : Range.t) : B (list (Z * jsstring)) :=
  if IValidatedEditOperation.isAutoWhitespaceEdit op && Range.isEmpty (IValidatedEditOperation.range op) then
    fold_B (fun acc lineNumber =>
      if lineNumber === Range.startLineNumber reverseRange then
        currentLineContent ← tree (getLineContent (Range.startLineNumber (IValidatedEditOperation.range op)));
        if strings.firstNonWhitespaceIndex currentLineContent !== -1 then mret acc
        else mret (acc ++ [(lineNumber, currentLineContent)])
      else mret (acc ++ [(lineNumber, [])]))
      [] (numbers (Range.startLineNumber reverseRange) (Range.endLineNumber reverseRange))
  else mret [].

(** the loop that computes the edits that undo the operations *)
Fixpoint reverseOps (operations : list validOp) (reverseRanges : list Range.t) (reverseRangeDeltaOffset : Z)
    : B (list reverseOp) :=
  match operations, reverseRanges with
  | op :: operations, reverseRange :: reverseRanges =>
      bufferText ← getValueInRange (IValidatedEditOperation.range op) TextDefined;
      let reverseRangeOffset := IValidatedEditOperation.rangeOffset op + reverseRangeDeltaOffset in
      let delta := reverseRangeDeltaOffset + (zlen (IValidatedEditOperation.text op) - zlen bufferText) in
      rest ← reverseOps operations reverseRanges delta;
      mret (IReverseSingleEditOperation.mk (IValidatedEditOperation.sortIndex op) (IValidatedEditOperation.identifier op)
              reverseRange bufferText
              (TextChange.mk (IValidatedEditOperation.rangeOffset op) bufferText reverseRangeOffset
                 (IValidatedEditOperation.text op)) :: rest)
  | _, _ => mret []
  end.

(** the candidates that have trailing whitespace after the edit; [prev] is the line
    number of the candidate before *)
Fixpoint trimLines (prev : option Z) (candidates : list (Z * jsstring)) : B (list Z) :=
  match candidates with
  | [] => mret []
  | (lineNumber, prevContent) :: candidates =>
      if bool_decide (prev = Some lineNumber) then trimLines (Some lineNumber) candidates
      else
        lineContent ← tree (getLineContent lineNumber);
        rest ← trimLines (Some lineNumber) candidates;
        if (zlen lineContent === 0) || bool_decide (lineContent = prevContent)
           || (strings.firstNonWhitespaceIndex lineContent !== -1) then mret rest
        else mret (lineNumber :: rest)
  end.

Definition applyEdits (rawOperations : list rawOp) (recordTrimAutoWhitespace computeUndoEdits : bool)
    : B ApplyEditsResult.t :=
  rtl ← field _mightContainRTL;
  ult ← field _mightContainUnusualLineTerminators;
  nonASCII ← field _mightContainNonBasicASCII;
  r ← validateOps 0 rawOperations (mkFlags rtl ult nonASCII true);
  let '(f, operations) := r in
  let operations := js_sort _sortOpsAscending operations in
  hasTouchingRanges ← touchingRanges operations;
  operations ← (if canReduceOperations f then _reduceOperations operations else mret operations);
  let reverseRanges :=
    if computeUndoEdits || recordTrimAutoWhitespace then _getInverseEditRanges operations else [] in
  newTrimAutoWhitespaceCandidates ←
    (if recordTrimAutoWhitespace then
       fold_B (fun acc '(op, reverseRange) => more ← trimCandidates op reverseRange; mret (acc ++ more))
         [] (zip operations reverseRanges)
     else mret []);
  reverseOperations ←
    (if computeUndoEdits then
       reverseOperations ← reverseOps operations reverseRanges 0;
       mret (Some (if negb hasTouchingRanges then
                     js_sort (fun a b => IReverseSingleEditOperation.sortIndex a - IReverseSingleEditOperation.sortIndex b)
                       reverseOperations
                   else reverseOperations))
     else mret None);
  set_flags (fRTL f) (fULT f) (fNonASCII f);;
  contentChanges ← _doApplyEdits operations;
  trimAutoWhitespaceLineNumbers ←
    (if recordTrimAutoWhitespace && (0 <? zlen newTrimAutoWhitespaceCandidates) then
       lines ← trimLines None (js_sort (fun a b => fst b - fst a) newTrimAutoWhitespaceCandidates);
       mret (Some lines)
     else mret None);
  fire_onDidChangeContent;;
  mret (ApplyEditsResult.mk reverseOperations contentChanges trimAutoWhitespaceLineNumbers).
