(* ===== verification/TextBufferBuilder.v ===== *)
(** * Building a text buffer

    [PieceTreeTextBufferBuilder] and [PieceTreeTextBufferFactory] of
    [pieceTreeTextBufferBuilder.ts]: a file arrives in chunks of any length, cut
    anywhere; the builder strips the byte order mark, keeps back a CR or a high
    surrogate at the end of a chunk until the next one, and counts the line breaks;
    the factory chooses the line end and creates the text buffer. *)

From stdpp Require Import gmap.
From S2P Require Import Prelude Position Range RBTree RBTreeRep RBTreeOps RBTreeInsert RBTreeDelete RBTreeRemove.
From S2P Require Import PieceBuffers PieceTree PieceTreeEdit PieceTreeNodes PieceTreeRead PieceTreeList PieceTreeText.
From S2P Require Import PieceTreePieces PieceTreeChange PieceTreeSeal PieceTreeInsert PieceTreeDocument.
From S2P Require Import PieceTreeErase PieceTreeCreate PieceTreeChars PieceTreeLines PieceTreeRange PieceTreeContent PieceTreeSession.
From S2P Require Import Strings TextBuffer.

(** ** The builder *)

Inductive DefaultEndOfLine := DefaultLF | DefaultCRLF.

Module PieceTreeTextBufferBuilder.

Record t := mk {
  chunks : list StringBuffer.t;
  BOM : jsstring;
  _hasPreviousChar : bool;
  _previousChar : Z;
  cr : Z;
  lf : Z;
  crlf : Z;
  containsRTL : bool;
  containsUnusualLineTerminators : bool;
  isBasicASCII : bool
}.

Definition new : t := mk [] [] false 0 0 0 0 false false true.

Definition set_BOM (v : jsstring) (b : t) : t :=
  mk (chunks b) v (_hasPreviousChar b) (_previousChar b) (cr b) (lf b) (crlf b) (containsRTL b)
    (containsUnusualLineTerminators b) (isBasicASCII b).
Definition set_previous (has : bool) (char : Z) (b : t) : t :=
  mk (chunks b) (BOM b) has char (cr b) (lf b) (crlf b) (containsRTL b) (containsUnusualLineTerminators b) (isBasicASCII b).

Definition _acceptChunk2 (chunk : jsstring) (b : t) : t :=
  let lineStarts := createLineStarts chunk in
  let nonASCII := negb (PieceBuffers.isBasicASCII lineStarts) in
  mk (chunks b ++ [StringBuffer.mk chunk (PieceBuffers.lineStarts lineStarts)]) (BOM b) (_hasPreviousChar b) (_previousChar b)
    (cr b + PieceBuffers.cr lineStarts) (lf b + PieceBuffers.lf lineStarts) (crlf b + PieceBuffers.crlf lineStarts)
    (if nonASCII && negb (containsRTL b) then strings.containsRTL chunk else containsRTL b)
    (if nonASCII && negb (containsUnusualLineTerminators b) then strings.containsUnusualLineTerminators chunk
     else containsUnusualLineTerminators b)
    (if nonASCII then false else isBasicASCII b).

Definition _acceptChunk1 (chunk : jsstring) (allowEmptyStrings : bool) (b : t) : t :=
  if negb allowEmptyStrings && (zlen chunk === 0) then b else
  if _hasPreviousChar b then _acceptChunk2 (strings.fromCharCode (_previousChar b) ++ chunk) b
  else _acceptChunk2 chunk b.

Definition acceptChunk (chunk : jsstring) (b : t) : t :=
  if zlen chunk === 0 then b else
  let '(b, chunk) :=
    if (zlen (chunks b) === 0) && strings.startsWithUTF8BOM chunk then
      (set_BOM [strings.UTF8_BOM] b, js_substr_from chunk 1)
    else (b, chunk) in
  let lastChar := charCodeAt chunk (zlen chunk - 1) in
  if (lastChar === CarriageReturn) || ((0xD800 <=? lastChar) && (lastChar <=? 0xDBFF)) then
    let b := _acceptChunk1 (js_substr chunk 0 (zlen chunk - 1)) false b in
    set_previous true lastChar b
  else
    let b := _acceptChunk1 chunk false b in
    set_previous false lastChar b.

(** [this.chunks[this.chunks.length - 1]] is there after the first step *)
Definition _finish (b : t) : t :=
  let b := if zlen (chunks b) === 0 then _acceptChunk1 [] true b else b in
  if _hasPreviousChar b then
    let buffer := match last (chunks b) with Some lastChunk => StringBuffer.buffer lastChunk | None => [] end
                  ++ strings.fromCharCode (_previousChar b) in
    let newLineStarts := createLineStartsFast buffer true in
    mk (ztake (zlen (chunks b) - 1) (chunks b) ++ [StringBuffer.mk buffer newLineStarts]) (BOM b) false (_previousChar b)
      (if _previousChar b === CarriageReturn then cr b + 1 else cr b) (lf b) (crlf b) (containsRTL b)
      (containsUnusualLineTerminators b) (isBasicASCII b)
  else b.

End PieceTreeTextBufferBuilder.

(** ** The factory *)

Module PieceTreeTextBufferFactory.

Record t := mk {
  _chunks : list StringBuffer.t;
  _bom : jsstring;
  _cr : Z;
  _lf : Z;
  _crlf : Z;
  _containsRTL : bool;
  _containsUnusualLineTerminators : bool;
  _isBasicASCII : bool;
  _normalizeEOL : bool
}.

(** [totalCRCount > totalEOLCount / 2], with the division of JavaScript *)
Definition _getEOL (f : t) (defaultEOL : DefaultEndOfLine) : jsstring :=
  let totalEOLCount := _cr f + _lf f + _crlf f in
  let totalCRCount := _cr f + _crlf f in
  if totalEOLCount === 0 then
    match defaultEOL with DefaultLF => [LineFeed] | DefaultCRLF => [CarriageReturn; LineFeed] end
  else if totalEOLCount <? 2 * totalCRCount then [CarriageReturn; LineFeed]
  else [LineFeed].

(** the chunks [create] leaves in the factory and hands on *)
Definition normalizedChunks (f : t) (eol : jsstring) : list StringBuffer.t :=
  if _normalizeEOL f &&
     ((bool_decide (eol = [CarriageReturn; LineFeed]) && ((0 <? _cr f) || (0 <? _lf f)))
      || (bool_decide (eol = [LineFeed]) && ((0 <? _cr f) || (0 <? _crlf f))))
  then (fun chunk => let str := replace_eol eol (StringBuffer.buffer chunk) in
                     StringBuffer.mk str (createLineStartsFast str true)) <$> _chunks f
  else _chunks f.

Definition create (f : t) (defaultEOL : DefaultEndOfLine) : res (PieceTreeTextBuffer.t * t) :=
  let eol := _getEOL f defaultEOL in
  let chunks := normalizedChunks f eol in
  let* textBuffer := new_PieceTreeTextBuffer chunks (_bom f) eol (_containsRTL f) (_containsUnusualLineTerminators f)
                       (_isBasicASCII f) (_normalizeEOL f) in
  Ret (textBuffer, mk chunks (_bom f) (_cr f) (_lf f) (_crlf f) (_containsRTL f) (_containsUnusualLineTerminators f)
                     (_isBasicASCII f) (_normalizeEOL f)).

Definition getFirstLineText (f : t) (lengthLimit : Z) : res jsstring :=
  let* chunk := js_get (znth (_chunks f) 0) in
  Ret (hd [] (split_lines (js_substr (StringBuffer.buffer chunk) 0 lengthLimit))).

End PieceTreeTextBufferFactory.

Definition finish (normalizeEOL : bool) (b : PieceTreeTextBufferBuilder.t) : PieceTreeTextBufferFactory.t :=
  let b := PieceTreeTextBufferBuilder._finish b in
  PieceTreeTextBufferFactory.mk (PieceTreeTextBufferBuilder.chunks b) (PieceTreeTextBufferBuilder.BOM b)
    (PieceTreeTextBufferBuilder.cr b) (PieceTreeTextBufferBuilder.lf b) (PieceTreeTextBufferBuilder.crlf b)
    (PieceTreeTextBufferBuilder.containsRTL b) (PieceTreeTextBufferBuilder.containsUnusualLineTerminators b)
    (PieceTreeTextBufferBuilder.isBasicASCII b) normalizeEOL.
