(* ===== verification/TextBufferLoad.v ===== *)
(** * Loading a file

    The builder of text buffers loses nothing of a file that arrives in proper
    chunks: the chunks it hands to the piece table are what [create] expects, the
    byte order mark and the text are those of the file, and the line breaks are
    counted right, so the line end chosen is that of most lines. *)

From stdpp Require Import gmap.
From S2P Require Import Prelude Position Range RBTree RBTreeRep RBTreeOps RBTreeInsert RBTreeDelete RBTreeRemove.
From S2P Require Import PieceBuffers PieceTree PieceTreeEdit PieceTreeNodes PieceTreeRead PieceTreeList PieceTreeText.
From S2P Require Import PieceTreePieces PieceTreeChange PieceTreeSeal PieceTreeInsert PieceTreeDocument.
From S2P Require Import PieceTreeErase PieceTreeCreate PieceTreeChars PieceTreeLines PieceTreeRange PieceTreeContent PieceTreeSession.
From S2P Require Import Strings TextBuffer TextBufferBuilder.

(** ** Counting the kinds of line breaks *)

(** CR, LF and CR LF breaks of a text. *)
Record kinds := mkKinds { nCR : Z; nLF : Z; nCRLF : Z }.

Definition kadd (a b : kinds) : kinds := mkKinds (nCR a + nCR b) (nLF a + nLF b) (nCRLF a + nCRLF b).

Fixpoint kinds_of (str : jsstring) : kinds :=
  match str with
  | [] => mkKinds 0 0 0
  | c :: str1 =>
      if c === CarriageReturn then
        match str1 with
        | d :: str2 => if d === LineFeed then kadd (mkKinds 0 0 1) (kinds_of str2) else kadd (mkKinds 1 0 0) (kinds_of str1)
        | [] => mkKinds 1 0 0
        end
      else if c === LineFeed then kadd (mkKinds 0 1 0) (kinds_of str1)
      else kinds_of str1
  end.

Lemma kadd_assoc a b c : kadd a (kadd b c) = kadd (kadd a b) c.
Proof. unfold kadd. cbn. f_equal; lia. Qed.

Lemma kadd_0 a : kadd (mkKinds 0 0 0) a = a.
Proof. by destruct a. Qed.

Lemma kinds_break br str :
  br = [LineFeed] \/ br = [CarriageReturn; LineFeed] \/ br = [CarriageReturn] -> seam br str ->
  kinds_of (br ++ str) = kadd (kinds_of br) (kinds_of str).
Proof.
  intros [-> | [-> | ->]] Hs; [done | done |]. cbn [app kinds_of]. change (CarriageReturn === CarriageReturn) with true. cbv iota.
  destruct str as [| d str]; [done |]. destruct (Z.eqb_spec d LineFeed) as [-> |]; [| done]. by destruct Hs.
Qed.

Lemma kinds_plain c str : c <> CarriageReturn -> c <> LineFeed -> kinds_of (c :: str) = kinds_of str.
Proof. intros H1 H2. cbn. by rewrite (proj2 (Z.eqb_neq _ _) H1), (proj2 (Z.eqb_neq _ _) H2). Qed.

Lemma kinds_app a b : seam a b -> kinds_of (a ++ b) = kadd (kinds_of a) (kinds_of b).
Proof.
  pattern a. apply text_ind.
  - intros _. by rewrite kadd_0.
  - intros br k Hbr Hs IH Hab. assert (seam br (k ++ b)) as Hs2 by (apply seam_app_r; [done |]; intros ->; by rewrite app_nil_r in Hab).
    rewrite <- app_assoc, (kinds_break br (k ++ b)), (kinds_break br k) by done.
    rewrite IH, kadd_assoc; [done |]. by apply seam_of_app_l in Hab.
  - intros c k H1 H2 IH Hab. cbn [app]. rewrite !kinds_plain by done. apply IH. by apply (seam_of_app_l [c]).
Qed.

(** What [createLineStarts] counts. *)
Lemma count_kinds str : forall i acc,
  cr (countLineStarts_loop i str acc) = cr acc + nCR (kinds_of str) /\
  lf (countLineStarts_loop i str acc) = lf acc + nLF (kinds_of str) /\
  crlf (countLineStarts_loop i str acc) = crlf acc + nCRLF (kinds_of str).
Proof.
  remember (length str) as n eqn:Hn. revert str Hn. induction (lt_wf n) as [n _ IH]. intros str -> i acc.
  destruct str as [| c str]; [cbn; lia |]. cbn [countLineStarts_loop kinds_of].
  assert (forall k i acc, (length k < length (c :: str))%nat -> _) as IH' by (intros k j a Hk; exact (IH (length k) Hk k eq_refl j a)).
  destruct (c === CarriageReturn); [destruct str as [| d str]; [cbn; lia |]; destruct (d === LineFeed) | destruct (c === LineFeed)];
    match goal with |- context [countLineStarts_loop ?j ?k ?a] => destruct (IH' k j a ltac:(cbn; lia)) as (-> & -> & ->) end; cbn; lia.
Qed.

Lemma createLineStarts_kinds str :
  cr (createLineStarts str) = nCR (kinds_of str) /\ lf (createLineStarts str) = nLF (kinds_of str) /\
  crlf (createLineStarts str) = nCRLF (kinds_of str).
Proof. destruct (count_kinds str 0 (mkLineStarts [0] 0 0 0 true)) as (H1 & H2 & H3). done. Qed.

Lemma kinds_total str : nCR (kinds_of str) + nLF (kinds_of str) + nCRLF (kinds_of str) = breaks str /\
  0 <= nCR (kinds_of str) /\ 0 <= nLF (kinds_of str) /\ 0 <= nCRLF (kinds_of str).
Proof.
  pattern str. apply text_ind.
  - done.
  - intros br k Hbr Hs IH. rewrite kinds_break, breaks_app by done. destruct (split_lines_break br k Hbr Hs) as (_ & -> & _).
    destruct Hbr as [-> | [-> | ->]]; cbn; lia.
  - intros c k H1 H2 IH. rewrite kinds_plain by done. change (c :: k) with ([c] ++ k). rewrite breaks_app by (by apply plain_seam).
    assert (breaks [c] = 0) as ->; [| done]. unfold breaks. cbn. by rewrite (proj2 (Z.eqb_neq _ _) H1), (proj2 (Z.eqb_neq _ _) H2).
Qed.

(** Nothing to replace: all line breaks are of the kind of the line end. *)
Lemma kinds_normal str :
  (nCR (kinds_of str) = 0 -> nLF (kinds_of str) = 0 -> normal [CarriageReturn; LineFeed] str) /\
  (nCR (kinds_of str) = 0 -> nCRLF (kinds_of str) = 0 -> normal [LineFeed] str).
Proof.
  unfold normal. pattern str. apply text_ind.
  - done.
  - intros br k Hbr Hs [IH1 IH2]. destruct (kinds_total k) as (_ & K1 & K2 & K3). rewrite kinds_break, !replace_eol_app by done.
    destruct Hbr as [-> | [-> | ->]]; cbn [kinds_of kadd nCR nLF nCRLF]; cbn; split; intros; try lia; [rewrite IH2 by lia | rewrite IH1 by lia]; done.
  - intros c k H1 H2 [IH1 IH2]. rewrite kinds_plain, !replace_eol_cons by done.
    rewrite (proj2 (Z.eqb_neq _ _) H1), (proj2 (Z.eqb_neq _ _) H2). split; intros; [rewrite IH1 by done | rewrite IH2 by done]; done.
Qed.

(** ** The state of the builder *)

Module Builder := PieceTreeTextBufferBuilder.
Module Factory := PieceTreeTextBufferFactory.

#[local] Arguments chunks_text : simpl never.
#[local] Arguments createLineStarts : simpl never.

(** A CR or a high surrogate, which the builder keeps back at the end of a chunk. *)
Definition kept_back (c : Z) : bool := (c === CarriageReturn) || ((0xD800 <=? c) && (c <=? 0xDBFF)).

(** The character kept back. *)
Definition held (b : Builder.t) : jsstring := if Builder._hasPreviousChar b then [Builder._previousChar b] else [].

(** The builder has taken in the text [str]. *)
Record took (b : Builder.t) (str : jsstring) : Prop := mktook {
  tk_text : chunks_text (Builder.chunks b) ++ held b = str;
  tk_chunks : Forall chunk_ok (Builder.chunks b);
  tk_sealed : chunks_sealed (Builder.chunks b);
  tk_held : Builder._hasPreviousChar b = true -> kept_back (Builder._previousChar b) = true;
  tk_end : Builder._hasPreviousChar b = false -> last (chunks_text (Builder.chunks b)) <> Some CarriageReturn;
  tk_kinds : mkKinds (Builder.cr b) (Builder.lf b) (Builder.crlf b) = kinds_of (chunks_text (Builder.chunks b))
}.

Lemma kept_back_unit c : kept_back c = true -> strings.fromCharCode c = [c] /\ c <> LineFeed.
Proof.
  unfold kept_back, strings.fromCharCode, uint16, CarriageReturn, LineFeed. intros H. assert (0 <= c < 2 ^ 16 /\ c <> 10) as [? ?].
  { apply orb_true_iff in H as [?%Z.eqb_eq | [?%Z.leb_le ?%Z.leb_le]%andb_true_iff]; lia. }
  by rewrite Z.mod_small by lia.
Qed.

Lemma took_seam b str k : took b str -> seam (chunks_text (Builder.chunks b)) (held b ++ k).
Proof.
  intros [_ _ _ Hh He _]. unfold held. destruct (Builder._hasPreviousChar b).
  - intros [_ [= Hc]]. destruct (kept_back_unit _ (Hh eq_refl)) as [_ ?]. done.
  - intros [Hl _]. by apply He.
Qed.

(** The chunk [_acceptChunk2] makes of a text. *)
Lemma accepted_chunk str :
  str <> [] -> zlen str < 2 ^ 31 - 1 -> chunk_ok (StringBuffer.mk str (PieceBuffers.lineStarts (createLineStarts str))).
Proof.
  intros Hne Hlt. split; [| done]. unfold buffer_ok. cbn [StringBuffer.buffer StringBuffer.lineStarts].
  assert (PieceBuffers.lineStarts (createLineStarts str) = 0 :: lineStarts_loop 0 str) as ->.
  { unfold createLineStarts. cbn [PieceBuffers.lineStarts]. rewrite countLineStarts_loop_starts.
    exact (createLineStartsFast_eq str true ltac:(lia)). }
  split; [done |]. rewrite zlen_cons. pose proof (breaks_le str). unfold breaks in *. lia.
Qed.

Lemma chunks_sealed_snoc cs c :
  Forall chunk_ok cs -> chunks_sealed cs -> seam (chunks_text cs) (StringBuffer.buffer c) -> chunks_sealed (cs ++ [c]).
Proof.
  induction 1 as [| d cs [_ Hd] Hcs IH]; cbn [chunks_sealed app]; intros Hs Hm.
  - split; [apply seam_nil_r | done].
  - destruct Hs as [Hs1 Hs2]. rewrite chunks_text_cons in Hm. rewrite chunks_text_snoc. split.
    + apply seam_app_r; [done |]. intros Hnil. by rewrite Hnil, app_nil_r in Hm.
    + apply IH; [done |]. destruct (decide (chunks_text cs = [])) as [-> |]; [apply seam_nil_l | by apply seam_of_app_l in Hm].
Qed.

(** [_acceptChunk1] of a text that is not empty takes the kept back character and
    the text into a new chunk. *)
Lemma acceptChunk1_ok b str k has prev :
  took b str -> k <> [] -> zlen (held b ++ k) < 2 ^ 31 - 1 ->
  (has = true -> kept_back prev = true) -> (has = false -> last k <> Some CarriageReturn) ->
  took (Builder.set_previous has prev (Builder._acceptChunk1 k false b)) (str ++ k ++ (if has then [prev] else [])) /\
  Builder.chunks (Builder._acceptChunk1 k false b) <> [] /\ Builder.BOM (Builder._acceptChunk1 k false b) = Builder.BOM b.
Proof.
  intros Hb Hk Hlt Hh He. pose proof (took_seam b str k Hb) as Hseam. destruct Hb as [Ht Hc Hs Hheld Hend Hkinds].
  assert (Builder._acceptChunk1 k false b = Builder._acceptChunk2 (held b ++ k) b) as ->.
  { unfold Builder._acceptChunk1, held in *. destruct (Z.eqb_spec (zlen k) 0) as [?%zlen_0 |]; [done |]. cbn [negb andb].
    destruct (Builder._hasPreviousChar b); [| done]. by destruct (kept_back_unit _ (Hheld eq_refl)) as [-> _]. }
  split; [| split; [cbn; by destruct (Builder.chunks b) | done]].
  assert (last (chunks_text (Builder.chunks b) ++ held b ++ k) = last k) as Hlast.
  { rewrite app_assoc. by apply last_app_ne. }
  destruct (createLineStarts_kinds (held b ++ k)) as (K1 & K2 & K3).
  constructor; cbn; rewrite ?chunks_text_snoc; cbn [StringBuffer.buffer].
  - rewrite <- Ht, <- !app_assoc. reflexivity.
  - apply Forall_app. split; [done |]. apply Forall_singleton. apply accepted_chunk; [| done]. intros [_ ?]%app_nil. done.
  - by apply chunks_sealed_snoc.
  - done.
  - rewrite Hlast. done.
  - rewrite kinds_app, <- Hkinds, K1, K2, K3 by done. done.
Qed.

(** ** Chunk by chunk *)

(** The text without a byte order mark at its start. *)
Definition strip_bom (str : jsstring) : jsstring := if strings.startsWithUTF8BOM str then tail str else str.
Definition bom_of (str : jsstring) : jsstring := if strings.startsWithUTF8BOM str then [strings.UTF8_BOM] else [].

(** One character that would be kept back: the builder forgets what it kept before. *)
Definition lone (c : jsstring) : bool := match c with [u] => kept_back u | _ => false end.

Lemma kept_back_last (k : jsstring) u : charCodeAt (k ++ [u]) (zlen (k ++ [u]) - 1) = u.
Proof.
  unfold charCodeAt. rewrite zlen_app. change (zlen [u]) with 1. rewrite Z.add_simpl_r. by rewrite (znth_mid k u []).
Qed.

(** A chunk, the byte order mark taken off, that does not make the builder forget. *)
Lemma acceptBody_ok b str k :
  took b str -> k <> [] -> lone k && Builder._hasPreviousChar b = false -> zlen (held b ++ k) < 2 ^ 31 - 1 ->
  let lastChar := charCodeAt k (zlen k - 1) in
  let b' := if (lastChar === CarriageReturn) || ((0xD800 <=? lastChar) && (lastChar <=? 0xDBFF)) then
              Builder.set_previous true lastChar (Builder._acceptChunk1 (js_substr k 0 (zlen k - 1)) false b)
            else Builder.set_previous false lastChar (Builder._acceptChunk1 k false b) in
  took b' (str ++ k) /\ Builder.BOM b' = Builder.BOM b /\ (Builder.chunks b <> [] \/ lone k = false -> Builder.chunks b' <> []).
Proof.
  intros Hb Hk Hl Hlt. destruct (exists_last Hk) as (i & u & ->). rewrite kept_back_last. cbn zeta. fold (kept_back u).
  destruct (kept_back u) eqn:Hu.
  - assert (js_substr (i ++ [u]) 0 (zlen (i ++ [u]) - 1) = i) as ->.
    { unfold js_substr, js_index. change (0 <? 0) with false. cbv iota. rewrite zlen_app. change (zlen [u]) with 1.
      pose proof (zlen_nonneg i). rewrite Z.min_l, Z.min_l, zdrop_0 by lia. rewrite ztake_app_l, ztake_all by lia. done. }
    destruct (decide (i = [])) as [-> | Hi].
    + cbn [app lone] in *. rewrite Hu in Hl. cbn in Hl. change (Builder._acceptChunk1 [] false b) with b. destruct Hb as [Ht Hc Hs Hh He Hkk].
      unfold held in Ht. rewrite Hl, app_nil_r in Ht. split; [| split; [done | intros [? | ?]; [done | congruence]]].
      constructor; cbn; try done. by rewrite Ht.
    + destruct (acceptChunk1_ok b str i true u Hb Hi) as (H1 & H2 & H3); try done.
      { pose proof (zlen_nonneg [u]). rewrite !zlen_app in *. lia. }
  - destruct (acceptChunk1_ok b str (i ++ [u]) false u Hb Hk Hlt) as (H1 & H2 & H3); try done.
    { intros _. rewrite last_snoc. intros [= ->]. done. }
    rewrite app_nil_r in H1. done.
Qed.

(** Once there are chunks, a byte order mark is text. *)
Lemma acceptChunk_later b str c :
  took b str -> Builder.chunks b <> [] -> lone c = false -> zlen (held b ++ c) < 2 ^ 31 - 1 ->
  took (Builder.acceptChunk c b) (str ++ c) /\ Builder.BOM (Builder.acceptChunk c b) = Builder.BOM b /\
  Builder.chunks (Builder.acceptChunk c b) <> [].
Proof.
  intros Hb Hne Hl Hlt. unfold Builder.acceptChunk. destruct (Z.eqb_spec (zlen c) 0) as [->%zlen_0 | Hc].
  - rewrite app_nil_r. done.
  - rewrite (proj2 (Z.eqb_neq (zlen (Builder.chunks b)) 0)) by (by intros ?%zlen_0). cbn [andb].
    destruct (acceptBody_ok b str c Hb) as (H1 & H2 & H3); [by intros -> | by rewrite Hl | done |].
    split; [done |]. split; [done |]. apply H3. by left.
Qed.

Lemma acceptChunks_later cs : forall b str,
  took b str -> Builder.chunks b <> [] -> forallb (fun c => negb (lone c)) cs = true -> zlen (str ++ mjoin cs) < 2 ^ 31 - 1 ->
  let b' := foldl (fun b c => Builder.acceptChunk c b) b cs in
  took b' (str ++ mjoin cs) /\ Builder.BOM b' = Builder.BOM b /\ Builder.chunks b' <> [].
Proof.
  induction cs as [| c cs IH]; intros b str Hb Hne Hl Hlt; cbn [foldl forallb] in *.
  - change (mjoin []) with (@nil Z). rewrite app_nil_r. done.
  - apply andb_true_iff in Hl as [Hc%negb_true_iff Hcs]. change (mjoin (c :: cs)) with (c ++ mjoin cs) in *.
    rewrite app_assoc in Hlt |- *.
    destruct (acceptChunk_later b str c Hb Hne Hc) as (H1 & H2 & H3).
    { pose proof (f_equal zlen (tk_text _ _ Hb)) as Hz. rewrite !zlen_app in *. pose proof (zlen_nonneg (mjoin cs)).
      pose proof (zlen_nonneg (chunks_text (Builder.chunks b))). lia. }
    destruct (IH (Builder.acceptChunk c b) (str ++ c) H1 H3 Hcs Hlt) as (I1 & I2 & I3).
    split; [done |]. split; [congruence | done].
Qed.

(** A file in chunks the builder keeps whole: no chunk but the first is a lone CR or
    high surrogate, and the byte order mark, if the file starts with one, is followed
    by text in the same chunk or not by another one. *)
Fixpoint proper_split (cs : list jsstring) : bool :=
  match cs with
  | [] => true
  | [] :: cs => proper_split cs
  | c :: cs =>
      match strip_bom c with
      | [] => negb (strings.startsWithUTF8BOM (mjoin cs)) && proper_split cs
      | k => negb (lone k) && forallb (fun c => negb (lone c)) cs
      end
  end.

Lemma startsWithUTF8BOM_app c k : c <> [] -> strings.startsWithUTF8BOM (c ++ k) = strings.startsWithUTF8BOM c.
Proof.
  destruct c as [| u c]; [done |]. intros _. unfold strings.startsWithUTF8BOM. cbn [app].
  rewrite !zlen_cons. pose proof (zlen_nonneg c). pose proof (zlen_nonneg (c ++ k)).
  by rewrite !(proj2 (Z.ltb_lt _ _)) by lia.
Qed.

Lemma strip_bom_app c k : c <> [] -> strip_bom (c ++ k) = strip_bom c ++ k /\ bom_of (c ++ k) = bom_of c.
Proof.
  intros Hc. unfold strip_bom, bom_of. rewrite startsWithUTF8BOM_app by done. split; [| done].
  destruct (strings.startsWithUTF8BOM c); [| done]. by destruct c.
Qed.

Lemma took_bom b str bom : took b str -> took (Builder.set_BOM bom b) str.
Proof. intros [? ? ? ? ? ?]. by constructor. Qed.

(** The first chunk that is not empty. *)
Lemma acceptChunk_first b c :
  took b [] -> Builder.chunks b = [] -> Builder._hasPreviousChar b = false -> c <> [] -> zlen c < 2 ^ 31 - 1 ->
  let b' := Builder.acceptChunk c b in
  took b' (strip_bom c) /\ Builder.BOM b' = (if strings.startsWithUTF8BOM c then [strings.UTF8_BOM] else Builder.BOM b) /\
  (strip_bom c <> [] -> lone (strip_bom c) = false -> Builder.chunks b' <> []) /\
  (strip_bom c = [] -> Builder.chunks b' = [] /\ Builder._hasPreviousChar b' = false).
Proof.
  intros Hb Hnil Hhas Hc Hlt. unfold Builder.acceptChunk. rewrite (proj2 (Z.eqb_neq (zlen c) 0)) by (by intros ?%zlen_0).
  rewrite Hnil. change (zlen [] === 0) with true. cbn [andb].
  set (b0 := if strings.startsWithUTF8BOM c then Builder.set_BOM [strings.UTF8_BOM] b else b).
  match goal with |- context [if strings.startsWithUTF8BOM c then (?x, ?y) else ?z] =>
    assert ((if strings.startsWithUTF8BOM c then (x, y) else z) = (b0, strip_bom c)) as -> end.
  { unfold b0, strip_bom. destruct (strings.startsWithUTF8BOM c); [| done]. f_equal. destruct c as [| u c]; [done |].
    unfold js_substr_from, js_index. change (1 <? 0) with false. cbv iota. rewrite zlen_cons. pose proof (zlen_nonneg c).
    by rewrite Z.min_l by lia. }
  assert (took b0 [] /\ Builder.chunks b0 = [] /\ Builder._hasPreviousChar b0 = false /\ held b0 = [] /\
    Builder.BOM b0 = (if strings.startsWithUTF8BOM c then [strings.UTF8_BOM] else Builder.BOM b)) as (B1 & B2 & B3 & B4 & B5).
  { unfold b0, held. destruct (strings.startsWithUTF8BOM c); cbn; rewrite Hhas; split_and!; try done. by apply took_bom. }
  cbv iota beta. destruct (strip_bom c) as [| u k] eqn:Hk.
  - assert (charCodeAt [] (zlen [] - 1) = -1) as -> by done. change (Builder._acceptChunk1 [] false b0) with b0.
    change ((-1 === CarriageReturn) || _) with false. cbv iota.
    split; [| done]. destruct B1 as [T1 T2 T3 T4 T5 T6]. constructor; try done; cbn.
    + unfold held in T1. by rewrite B3 in T1.
    + by rewrite B2.
  - destruct (acceptBody_ok b0 [] (u :: k) B1) as (H1 & H2 & H3); [done | by rewrite B3, andb_false_r | |].
    { rewrite B4. cbn [app]. rewrite <- Hk. unfold strip_bom. destruct (strings.startsWithUTF8BOM c); [| done].
      destruct c as [| v c]; [done |]. rewrite zlen_cons in Hlt. cbn. lia. }
    cbn [app] in H1. split; [exact H1 |]. split; [rewrite <- B5; exact H2 |]. split; [| done].
    intros _ Hl. apply H3. by right.
Qed.

Lemma acceptChunks_ok cs : forall b,
  took b [] -> Builder.chunks b = [] -> Builder._hasPreviousChar b = false -> proper_split cs = true -> zlen (mjoin cs) < 2 ^ 31 - 1 ->
  let b' := foldl (fun b c => Builder.acceptChunk c b) b cs in
  took b' (strip_bom (mjoin cs)) /\ Builder.BOM b' = (if strings.startsWithUTF8BOM (mjoin cs) then [strings.UTF8_BOM] else Builder.BOM b) /\
  (Builder.chunks b' <> [] \/ Builder._hasPreviousChar b' = false).
Proof.
  induction cs as [| c cs IH]; intros b Hb Hnil Hhas Hp Hlt b'; [subst b'; cbn; auto |].
  destruct (decide (c = [])) as [-> | Hc]; [by apply IH |].
  assert (mjoin (c :: cs) = c ++ mjoin cs) as Hj by done. rewrite Hj in Hlt |- *. rewrite zlen_app in Hlt.
  pose proof (zlen_nonneg (mjoin cs)) as Hz0. pose proof (zlen_nonneg c) as Hz1. destruct (acceptChunk_first b c Hb Hnil Hhas Hc) as (H1 & H2 & H3 & H4); [lia |].
  destruct (strip_bom_app c (mjoin cs) Hc) as [-> _]. rewrite startsWithUTF8BOM_app by done.
  unfold b'. cbn [foldl]. destruct c as [| u c]; [done |]. cbn [proper_split] in Hp.
  destruct (strip_bom (u :: c)) as [| v k] eqn:Hk.
  - apply andb_true_iff in Hp as [Hno%negb_true_iff Hp]. destruct (H4 eq_refl) as [H5 H6].
    destruct (IH (Builder.acceptChunk (u :: c) b) H1 H5 H6 Hp ltac:(lia)) as (I1 & I2 & I3).
    unfold strip_bom in I1. rewrite Hno in I1, I2. split; [exact I1 |]. split; [by rewrite I2, H2 | done].
  - apply andb_true_iff in Hp as [Hl%negb_true_iff Hp]. specialize (H3 ltac:(done) Hl).
    destruct (acceptChunks_later cs _ _ H1 H3 Hp) as (I1 & I2 & I3).
    { rewrite zlen_app. assert (zlen (v :: k) <= zlen (u :: c)); [| lia]. rewrite <- Hk. unfold strip_bom.
      destruct (strings.startsWithUTF8BOM (u :: c)); [| lia]. rewrite zlen_cons. cbn [tail]. lia. }
    split; [exact I1 |]. split; [rewrite I2; exact H2 | by left].
Qed.

(** ** Finishing *)

(** The chunks of a finished builder hold the text [str]. *)
Record finished (b : Builder.t) (str : jsstring) : Prop := mkfinished {
  fi_text : chunks_text (Builder.chunks b) = str;
  fi_split : exists cs es, Builder.chunks b = cs ++ es /\ Forall chunk_ok cs /\
    Forall (fun c => StringBuffer.buffer c = []) es /\ chunks_sealed cs;
  fi_kinds : mkKinds (Builder.cr b) (Builder.lf b) (Builder.crlf b) = kinds_of str
}.

Lemma chunks_sealed_last cs c c' :
  Forall chunk_ok cs -> chunks_sealed (cs ++ [c]) -> StringBuffer.buffer c <> [] ->
  (exists k, StringBuffer.buffer c' = StringBuffer.buffer c ++ k) -> chunks_sealed (cs ++ [c']).
Proof.
  intros Hcs Hs Hne [k Hk]. induction Hcs as [| d cs Hd Hcs IH]; cbn [chunks_sealed app] in *.
  - split; [apply seam_nil_r | done].
  - destruct Hs as [Hs1 Hs2]. split; [| by apply IH]. rewrite chunks_text_snoc in *. rewrite Hk, app_assoc.
    apply seam_app_r; [done |]. intros [_ ?]%app_nil. done.
Qed.

Lemma finish_ok b str :
  took b str -> Builder.chunks b <> [] \/ Builder._hasPreviousChar b = false -> zlen str < 2 ^ 31 - 1 ->
  finished (Builder._finish b) str /\ Builder.BOM (Builder._finish b) = Builder.BOM b.
Proof.
  intros [Ht Hc Hs Hh He Hk] Hor Hlt. unfold Builder._finish, held in *.
  destruct (decide (Builder.chunks b = [])) as [Hnil | Hne].
  - destruct Hor as [? | Hhas]; [done |]. rewrite Hnil. change (zlen [] === 0) with true. cbv iota.
    unfold Builder._acceptChunk1. cbn [negb andb]. rewrite Hhas. cbn. rewrite Hhas. split; [| done].
    rewrite Hnil, Hhas in Ht. rewrite Hnil in Hk. change (chunks_text []) with (@nil Z) in Ht. cbn in Ht. subst str.
    constructor; cbn; rewrite ?Hnil; try done.
    + exists [], [StringBuffer.mk [] [0]]. split; [done |]. split; [done |]. split; [by apply Forall_singleton | done].
    + change (chunks_text []) with (@nil Z) in Hk. injection Hk as -> -> ->. done.
  - rewrite (proj2 (Z.eqb_neq (zlen (Builder.chunks b)) 0)) by (by intros ?%zlen_0).
    destruct (Builder._hasPreviousChar b) eqn:Hhas.
    + destruct (exists_last Hne) as (cs & c & Hcs). rewrite Hcs, last_snoc in *. destruct (kept_back_unit _ (Hh eq_refl)) as [-> Hlf].
      set (u := Builder._previousChar b) in *. rewrite chunks_text_snoc, <- app_assoc in Ht.
      apply Forall_app in Hc as [Hc1 [Hc2 Hc3]%Forall_singleton].
      assert (ztake (zlen (cs ++ [c]) - 1) (cs ++ [c]) = cs) as ->.
      { rewrite zlen_app. change (zlen [c]) with 1. rewrite Z.add_simpl_r, ztake_app_l, ztake_all by lia. done. }
      assert (zlen (StringBuffer.buffer c ++ [u]) < 2 ^ 31 - 1) as Hz.
      { rewrite <- Ht, zlen_app in Hlt. pose proof (zlen_nonneg (chunks_text cs)). lia. }
      split; [| done]. constructor; cbn [Builder.chunks Builder.cr Builder.lf Builder.crlf].
      * rewrite chunks_text_snoc. done.
      * eexists _, []. split; [by rewrite app_nil_r |]. split; [| split; [done |]].
        -- apply Forall_app. split; [done |]. apply Forall_singleton. split; [| by destruct (StringBuffer.buffer c)].
           unfold buffer_ok. cbn [StringBuffer.buffer StringBuffer.lineStarts]. rewrite createLineStartsFast_eq by lia.
           split; [done |]. rewrite zlen_cons. pose proof (breaks_le (StringBuffer.buffer c ++ [u])). unfold breaks in *. lia.
        -- eapply (chunks_sealed_last cs c); [done | done | done | by exists [u]].
      * rewrite <- Ht, app_assoc, kinds_app; [| intros [_ [= E1]]; done].
        rewrite <- chunks_text_snoc, <- Hk. cbn [kinds_of]. destruct (Z.eqb_spec u CarriageReturn) as [-> | Hcr]; [unfold kadd; cbn; f_equal; lia |].
        rewrite (proj2 (Z.eqb_neq _ _) Hlf). unfold kadd. cbn. f_equal; lia.
    + split; [| done]. rewrite app_nil_r in Ht. subst str. constructor; [done | | done].
      exists (Builder.chunks b), []. by rewrite app_nil_r.
Qed.

(** ** The factory *)

Lemma chunks_text_normalized eol cs es :
  chunks_sealed cs -> Forall (fun c => StringBuffer.buffer c = []) es ->
  chunks_text ((fun chunk => let str := replace_eol eol (StringBuffer.buffer chunk) in
                             StringBuffer.mk str (createLineStartsFast str true)) <$> cs ++ es) = replace_eol eol (chunks_text (cs ++ es)).
Proof.
  intros Hs He. rewrite (chunks_text_empty cs es He), fmap_app. induction cs as [| c cs IH]; cbn [app fmap list_fmap] in *.
  - induction He as [| e es He Hes IH]; [done |]. rewrite fmap_cons, chunks_text_cons, IH. cbn [StringBuffer.buffer]. by rewrite He.
  - destruct Hs as [Hs1 Hs2]. rewrite !chunks_text_cons, replace_eol_app by done. cbn [StringBuffer.buffer]. f_equal. by apply IH.
Qed.

Section Factory.
Context (eol : jsstring).
Hypothesis Heol : eol = [LineFeed] \/ eol = [CarriageReturn; LineFeed].

Lemma replace_chunks_creatable cs es flag :
  Forall chunk_ok cs -> Forall (fun c => StringBuffer.buffer c = []) es -> chunks_sealed cs ->
  zlen (replace_eol eol (chunks_text (cs ++ es))) < 2 ^ 31 - 1 ->
  creatable ((fun chunk => let str := replace_eol eol (StringBuffer.buffer chunk) in
                           StringBuffer.mk str (createLineStartsFast str true)) <$> cs ++ es) eol flag.
Proof.
  intros Hc He Hs Hlt. constructor.
  - rewrite fmap_app. eexists _, _. split; [reflexivity |]. split; [| split].
    + apply Forall_fmap. rewrite Forall_forall in Hc |- *. intros c Hin. unfold compose.
      apply (chunk_of_ok eol Heol); [by apply (Hc c) |].
      pose proof (chunks_text_normalized eol cs es Hs He) as Hn. rewrite <- Hn in Hlt.
      eapply Z.le_lt_trans; [| exact Hlt]. rewrite fmap_app.
      apply (chunks_text_in _ (StringBuffer.mk (replace_eol eol (StringBuffer.buffer c)) (createLineStartsFast (replace_eol eol (StringBuffer.buffer c)) true))).
      apply elem_of_app. left. apply list_elem_of_fmap. by exists c.
    + apply Forall_fmap. eapply Forall_impl; [exact He |]. intros c Hc'. unfold compose. cbn. by rewrite Hc'.
    + pose proof (chunks_of_sealed eol Heol (StringBuffer.buffer <$> cs)) as H. rewrite <- list_fmap_compose in H. exact H.
  - intros _ E1. rewrite chunks_text_normalized by done. by apply replace_eol_nocr.
Qed.

End Factory.

(** The line end of most lines; without lines the default. *)
Definition majority_eol (k : kinds) (defaultEOL : DefaultEndOfLine) : jsstring :=
  let total := nCR k + nLF k + nCRLF k in
  if total === 0 then match defaultEOL with DefaultLF => [LineFeed] | DefaultCRLF => [CarriageReturn; LineFeed] end
  else if total <? 2 * (nCR k + nCRLF k) then [CarriageReturn; LineFeed] else [LineFeed].

Lemma majority_eol_ok k default : majority_eol k default = [LineFeed] \/ majority_eol k default = [CarriageReturn; LineFeed].
Proof. unfold majority_eol. destruct (_ === 0); [destruct default | destruct (_ <? _)]; auto. Qed.

Lemma create_factory_ok b str normalizeEOL defaultEOL :
  let eol := majority_eol (kinds_of str) defaultEOL in
  let content := if normalizeEOL : bool then replace_eol eol str else str in
  finished b str -> zlen content < 2 ^ 31 - 1 ->
  let f := Factory.mk (Builder.chunks b) (Builder.BOM b) (Builder.cr b) (Builder.lf b) (Builder.crlf b)
             (Builder.containsRTL b) (Builder.containsUnusualLineTerminators b) (Builder.isBasicASCII b) normalizeEOL in
  creatable (Factory.normalizedChunks f eol) eol normalizeEOL /\ chunks_text (Factory.normalizedChunks f eol) = content /\
  Factory._getEOL f defaultEOL = eol.
Proof.
  intros eol content [Ht (cs & es & Hcs & Hc & He & Hs) Hk] Hlt f.
  assert (Builder.cr b = nCR (kinds_of str) /\ Builder.lf b = nLF (kinds_of str) /\ Builder.crlf b = nCRLF (kinds_of str)) as (K1 & K2 & K3)
    by (rewrite <- Hk; done).
  assert (Factory._getEOL f defaultEOL = eol) as Hget.
  { unfold Factory._getEOL, eol, majority_eol, f. cbn. by rewrite K1, K2, K3. }
  pose proof (majority_eol_ok (kinds_of str) defaultEOL) as Heol. fold eol in Heol.
  cut (creatable (Factory.normalizedChunks f eol) eol normalizeEOL /\ chunks_text (Factory.normalizedChunks f eol) = content); [tauto |].
  unfold Factory.normalizedChunks, f. cbn [Factory._normalizeEOL Factory._chunks Factory._cr Factory._lf Factory._crlf].
  rewrite K1, K2, K3, Hcs. rewrite Hcs in Ht. destruct (kinds_total str) as (_ & P1 & P2 & P3). destruct (kinds_normal str) as [N1 N2].
  destruct normalizeEOL.
  2: { cbn [andb]. split; [| done]. constructor; [by exists cs, es | done]. }
  cbn [andb]. destruct (_ || _) eqn:Hor.
  - split; [apply replace_chunks_creatable; try done; by rewrite Ht |]. rewrite chunks_text_normalized, Ht by done. done.
  - assert (normal eol str) as Hn.
    { apply orb_false_iff in Hor as [H1 H2]. destruct Heol as [-> | ->].
      - rewrite bool_decide_eq_true_2 in H2 by done. cbn [andb] in H2. apply orb_false_iff in H2 as [?%Z.ltb_ge ?%Z.ltb_ge]. apply N2; lia.
      - rewrite bool_decide_eq_true_2 in H1 by done. cbn [andb] in H1. apply orb_false_iff in H1 as [?%Z.ltb_ge ?%Z.ltb_ge]. apply N1; lia. }
    unfold content. rewrite Hn, Ht. split; [| done]. constructor; [by exists cs, es |].
    intros _ E1. rewrite Ht, <- Hn. by apply replace_eol_nocr.
Qed.

(** The builder after a whole file. *)
Definition load (cs : list jsstring) : Builder.t := foldl (fun b c => Builder.acceptChunk c b) Builder.new cs.

Lemma new_took : took Builder.new [].
Proof. by constructor. Qed.

Lemma bom_strip str : bom_of str ++ strip_bom str = str.
Proof.
  unfold bom_of, strip_bom. destruct (strings.startsWithUTF8BOM str) eqn:Hb; [| done].
  unfold strings.startsWithUTF8BOM in Hb. apply andb_true_iff in Hb as [Hz Hb%Z.eqb_eq].
  destruct str as [| c str]; [done |]. change (charCodeAt (c :: str) 0) with c in Hb. by rewrite Hb.
Qed.

(** What loading gives, with what the builder has taken in. *)
Lemma load_ok cs normalizeEOL defaultEOL :
  let str := strip_bom (mjoin cs) in let eol := majority_eol (kinds_of str) defaultEOL in
  let content := if normalizeEOL : bool then replace_eol eol str else str in
  proper_split cs = true -> zlen (mjoin cs) < 2 ^ 31 - 1 -> zlen content < 2 ^ 31 - 1 ->
  exists tb f, Factory.create (finish normalizeEOL (load cs)) defaultEOL = Ret (tb, f) /\
    let s := PieceTreeTextBuffer._pieceTree tb in
    PieceTreeTextBuffer._BOM tb ++ str = mjoin cs /\ getEOL s = Ret (eol, s) /\
    getLinesRawContent s = Ret (content, s) /\ getLineCount s = Ret (1 + breaks str, s) /\
    reachable s (Doc.mk content eol normalizeEOL 0) /\
    PieceTreeTextBuffer._mightContainNonBasicASCII tb = negb (Builder.isBasicASCII (Builder._finish (load cs))) /\
    took (load cs) str /\ (Builder.chunks (load cs) <> [] \/ Builder._hasPreviousChar (load cs) = false).
Proof.
  intros str eol content Hp Hlt Hlt2.
  destruct (acceptChunks_ok cs Builder.new new_took eq_refl eq_refl Hp Hlt) as (H1 & H2 & H3). fold (load cs) in H1, H2, H3.
  assert (zlen str < 2 ^ 31 - 1) as Hstr.
  { rewrite <- (bom_strip (mjoin cs)), zlen_app in Hlt. pose proof (zlen_nonneg (bom_of (mjoin cs))). unfold str. lia. }
  destruct (finish_ok (load cs) str H1 H3 Hstr) as [Hf Hbom].
  destruct (create_factory_ok _ str normalizeEOL defaultEOL Hf Hlt2) as (Hc & Ht & He).
  fold (finish normalizeEOL (load cs)) in Hc, Ht, He. fold eol content in Hc, Ht, He.
  destruct (new_stands _ _ _ Hc) as (s & Hs & Hst). rewrite Ht in Hst.
  eexists _, _. split; [unfold Factory.create, new_PieceTreeTextBuffer; rewrite He;
    change (Factory._normalizeEOL (finish normalizeEOL (load cs))) with normalizeEOL; rewrite Hs; reflexivity |].
  cbn [PieceTreeTextBuffer._pieceTree PieceTreeTextBuffer._BOM]. change (Factory._bom (finish normalizeEOL (load cs))) with (Builder.BOM (Builder._finish (load cs))).
  destruct (read_doc _ _ (st_doc Hst)) as (R1 & _ & R3). cbn [Doc.content] in R1, R3. split; [| split; [| split; [done | split; [| split; [| done]]]]].
  - rewrite Hbom, H2. apply (bom_strip (mjoin cs)).
  - unfold getEOL, gets. by rewrite (st_eol _ _ Hst).
  - rewrite R3. unfold content. destruct normalizeEOL; [| done]. by destruct (replace_eol_idem eol (majority_eol_ok _ _) str) as [_ ->].
  - rewrite <- Ht. by eapply reach_new.
Qed.

(** C21: loading a file.  For a file that arrives in chunks cut anywhere but so that no
    chunk is a lone CR or high surrogate (after the byte order mark of the first), the
    builder and its factory create a text buffer without an exception; its byte order
    mark and text are those of the file (with [normalizeEOL] every line break of the
    text replaced by the line end), the line end is CR LF exactly when more than half
    of the line breaks of the text have a CR (the default without line breaks), and
    the piece table is in a state from which every theorem on editing sessions holds. *)
Theorem file_loads cs normalizeEOL defaultEOL :
  let str := strip_bom (mjoin cs) in let eol := majority_eol (kinds_of str) defaultEOL in
  let content := if normalizeEOL : bool then replace_eol eol str else str in
  proper_split cs = true -> zlen (mjoin cs) < 2 ^ 31 - 1 -> zlen content < 2 ^ 31 - 1 ->
  exists tb f, Factory.create (finish normalizeEOL (load cs)) defaultEOL = Ret (tb, f) /\
    let s := PieceTreeTextBuffer._pieceTree tb in
    PieceTreeTextBuffer._BOM tb ++ str = mjoin cs /\ getEOL s = Ret (eol, s) /\
    getLinesRawContent s = Ret (content, s) /\ getLineCount s = Ret (1 + breaks str, s) /\
    reachable s (Doc.mk content eol normalizeEOL 0).
Proof.
  intros str eol content Hp Hlt Hlt2. destruct (load_ok cs normalizeEOL defaultEOL Hp Hlt Hlt2) as (tb & f & H1 & H2 & H3 & H4 & H5 & H6 & _).
  exists tb, f. done.
Qed.

(** A file with a byte order mark, its line breaks mixed, in three chunks, one cut
    between a CR and its LF. *)
Lemma file_loads_witness :
  exists tb f, Factory.create (finish true (load [[65279; 97; 13]; [10; 98; 10]; [99; 13]])) DefaultLF = Ret (tb, f) /\
    let s := PieceTreeTextBuffer._pieceTree tb in
    getLinesRawContent s = Ret ([97; 13; 10; 98; 13; 10; 99; 13; 10], s) /\ getLineCount s = Ret (4, s).
Proof.
  destruct (file_loads [[65279; 97; 13]; [10; 98; 10]; [99; 13]] true DefaultLF) as (tb & f & H1 & _ & _ & H2 & H3 & _);
    [reflexivity | reflexivity | reflexivity |].
  exists tb, f. split; [exact H1 |]. split; [exact H2 | exact H3].
Defined.

(** C40: what the builder does with lone characters.  A character kept back (a CR or a
    high surrogate) is lost when the next chunk is again a single such character, and
    a file that is only such a character is doubled. *)
Theorem lone_chunk_is_lossy str u v :
  str <> [] -> strings.startsWithUTF8BOM str = false -> zlen str < 2 ^ 31 - 2 -> kept_back u = true -> kept_back v = true ->
  chunks_text (Factory._chunks (finish true (load [str ++ [u]; [v]]))) = str ++ [v] /\
  chunks_text (Factory._chunks (finish true (load [[u]]))) = [u; u].
Proof.
  intros Hne Hbom Hlt Hu Hv. assert (forall w, kept_back w = true -> strings.startsWithUTF8BOM [w] = false) as Hnb.
  { intros w Hw. change (strings.startsWithUTF8BOM [w]) with (w === strings.UTF8_BOM). apply Z.eqb_neq. intros ->. done. }
  split.
  - unfold load. cbn [foldl].
    destruct (acceptChunk_first Builder.new (str ++ [u]) new_took eq_refl eq_refl) as (H1 & _ & H2 & _);
      [by intros [_ ?]%app_nil | rewrite zlen_app; change (zlen [u]) with 1; lia |].
    unfold strip_bom in H1, H2. rewrite startsWithUTF8BOM_app, Hbom in H1, H2 by done.
    specialize (H2 ltac:(by intros [_ ?]%app_nil) ltac:(destruct str as [| a [| b k]]; done)).
    set (b := Builder.acceptChunk (str ++ [u]) Builder.new) in *.
    assert (Builder._hasPreviousChar b = true /\ Builder._previousChar b = u) as [Hhas Hprev].
    { unfold b, Builder.acceptChunk. rewrite (proj2 (Z.eqb_neq (zlen (str ++ [u])) 0)) by (by intros [_ ?]%zlen_0%app_nil).
      rewrite startsWithUTF8BOM_app, Hbom, andb_false_r, kept_back_last by done. unfold kept_back in Hu. by rewrite Hu. }
    assert (chunks_text (Builder.chunks b) = str) as Ht.
    { pose proof (tk_text _ _ H1) as Ht. unfold held in Ht. rewrite Hhas, Hprev in Ht. by apply app_inv_tail in Ht. }
    assert (Builder.acceptChunk [v] b = Builder.set_previous true v b) as ->.
    { unfold Builder.acceptChunk. change (zlen [v] === 0) with false. cbv iota. rewrite (Hnb v Hv), andb_false_r.
      change (charCodeAt [v] (zlen [v] - 1)) with v. unfold kept_back in Hv. rewrite Hv. done. }
    destruct H1 as [_ C1 C2 _ _ C5]. unfold finish. cbn [Factory._chunks].
    destruct (finish_ok (Builder.set_previous true v b) (str ++ [v])) as [[-> _ _] _]; [| by left | rewrite zlen_app; change (zlen [v]) with 1; lia | done].
    constructor; cbn; try done. by rewrite Ht.
  - unfold load, finish. cbn [foldl Factory._chunks].
    assert (Builder.acceptChunk [u] Builder.new = Builder.set_previous true u Builder.new) as ->.
    { unfold Builder.acceptChunk. change (zlen [u] === 0) with false. cbv iota. rewrite (Hnb u Hu), andb_false_r.
      change (charCodeAt [u] (zlen [u] - 1)) with u. unfold kept_back in Hu. rewrite Hu. done. }
    destruct (kept_back_unit u Hu) as [Hf _]. unfold Builder._finish, Builder._acceptChunk1. cbn -[strings.fromCharCode].
    change (zlen [] === 0) with true. cbn -[strings.fromCharCode]. by rewrite !Hf.
Qed.

Lemma lone_chunk_is_lossy_witness :
  chunks_text (Factory._chunks (finish true (load [[97; 13]; [13]]))) = [97; 13] /\
  chunks_text (Factory._chunks (finish true (load [[13]]))) = [13; 13].
Proof. apply (lone_chunk_is_lossy [97] 13 13); [discriminate | reflexivity | reflexivity | reflexivity | reflexivity]. Defined.
