(* ===== verification/TextBufferSort.v ===== *)
(** * Sorting edits

    The stable sort of arrays, as the text buffer uses it on its edit operations. *)

From stdpp Require Import base list sorting.
From S2P Require Import Prelude TextBuffer.

Section Sort.
Context {A : Type} (cmp : A -> A -> Z).

Lemma js_insert_perm x l : js_insert cmp x l ≡ₚ x :: l.
Proof.
  induction l as [| y l IH]; cbn; [done |]. destruct (_ <=? 0); [done |]. rewrite IH. apply Permutation_swap.
Qed.

Lemma js_sort_cons x l : js_sort cmp (x :: l) = js_insert cmp x (js_sort cmp l).
Proof. done. Qed.

Lemma js_sort_perm l : js_sort cmp l ≡ₚ l.
Proof. induction l as [| x l IH]; [done |]. by rewrite js_sort_cons, js_insert_perm, IH. Qed.

(** A sorted array stays as it is. *)
Lemma js_sort_sorted_id l : StronglySorted (fun x y => cmp x y <= 0) l -> js_sort cmp l = l.
Proof.
  induction 1 as [| x l Hl IH Hx]; [done |]. rewrite js_sort_cons, IH. destruct l as [| y l]; [done |]. cbn.
  apply Forall_cons in Hx as [Hx _]. by rewrite (proj2 (Z.leb_le _ _) Hx).
Qed.

(** An array in the opposite order is reversed. *)
Lemma js_sort_reverse l : StronglySorted (fun x y => 0 < cmp x y) l -> js_sort cmp l = rev l.
Proof.
  induction 1 as [| x l Hl IH Hx]; [done |]. rewrite js_sort_cons, IH. cbn [rev]. apply Forall_rev in Hx. clear IH Hl. revert Hx.
  generalize (rev l) as k. induction 1 as [| y k Hy Hk IHk]; [done |]. cbn. rewrite (proj2 (Z.leb_gt _ _) Hy). by rewrite IHk.
Qed.

Hypothesis cmp_total : forall x y, cmp x y <= 0 \/ cmp y x <= 0.
Hypothesis cmp_trans : forall x y z, cmp x y <= 0 -> cmp y z <= 0 -> cmp x z <= 0.

Lemma js_sort_sorted l : StronglySorted (fun x y => cmp x y <= 0) (js_sort cmp l).
Proof.
  induction l as [| x l IH]; [constructor |]. rewrite js_sort_cons. generalize dependent (js_sort cmp l). clear l. intros l Hl.
  induction Hl as [| y l Hl IH Hy]; cbn; [repeat constructor |]. destruct (Z.leb_spec (cmp x y) 0) as [Hxy | Hxy].
  - constructor; [by constructor |]. constructor; [done |]. eapply Forall_impl; [exact Hy |]. intros z Hz. cbn in *. by eapply cmp_trans.
  - constructor; [done |]. rewrite js_insert_perm. constructor; [| done]. destruct (cmp_total x y); [lia | done].
Qed.

(** A strictly sorted array is what sorting any permutation of it gives. *)
Lemma js_sort_unique l k : l ≡ₚ k -> StronglySorted (fun x y => cmp x y <= 0 /\ 0 < cmp y x) k -> js_sort cmp l = k.
Proof.
  intros Hp Hk. pose proof (js_sort_sorted l) as Hs. assert (js_sort cmp l ≡ₚ k) as Hpl by (etransitivity; [apply js_sort_perm | done]).
  revert Hs Hpl. generalize (js_sort cmp l) as m. clear l Hp. induction Hk as [| x k Hk IH Hx]; intros m Hs Hpm.
  - by apply Permutation_nil_r in Hpm.
  - destruct Hs as [| y m Hm Hy]; [by apply Permutation_nil_l in Hpm |].
    assert (y = x) as ->.
    { assert (y ∈ x :: k) as [-> | Hin]%elem_of_cons by (rewrite <- Hpm; left); [done |]. exfalso.
      rewrite Forall_forall in Hx. destruct (Hx y Hin) as [_ Hlt].
      assert (x ∈ y :: m) as [-> | Hin2]%elem_of_cons by (rewrite Hpm; left).
      - destruct (cmp_total y y); lia.
      - rewrite Forall_forall in Hy. specialize (Hy x Hin2). cbn in Hy. lia. }
    f_equal. apply IH; [done |]. by apply Permutation_cons_inv in Hpm.
Qed.

End Sort.

(** Sorting along a map that keeps the comparisons the sort makes. *)
Lemma js_sort_map {A B} (f : A -> B) cmpA cmpB l :
  StronglySorted (fun x y => (cmpA x y <=? 0) = (cmpB (f x) (f y) <=? 0)) l ->
  f <$> js_sort cmpA l = js_sort cmpB (f <$> l).
Proof.
  induction 1 as [| x l Hl IH Hx]; [done |]. rewrite js_sort_cons, fmap_cons, js_sort_cons, <- IH. clear IH Hl. rewrite <- (js_sort_perm cmpA l) in Hx.
  induction Hx as [| y k Hy Hk IHk]; [done |]. rewrite fmap_cons. cbn [js_insert]. rewrite Hy.
  destruct (cmpB (f x) (f y) <=? 0); [done |]. by rewrite fmap_cons, IHk.
Qed.
