(* ===== verification/TextEdits.v ===== *)
(** * Simultaneous edits of a text

    What a batch of edits should do: each replaces one range of the old text, and no
    two of them overlap.  The specification works on offsets; the second part connects
    it to lines and columns. *)

From stdpp Require Import gmap.
From S2P Require Import Prelude Position Range Buffer TextChange RBTree RBTreeRep RBTreeOps RBTreeInsert RBTreeDelete RBTreeRemove.
From S2P Require Import PieceBuffers PieceTree PieceTreeEdit PieceTreeNodes PieceTreeRead PieceTreeList PieceTreeText.
From S2P Require Import PieceTreePieces PieceTreeChange PieceTreeSeal PieceTreeInsert PieceTreeDocument.
From S2P Require Import PieceTreeErase PieceTreeCreate PieceTreeChars PieceTreeLines PieceTreeRange PieceTreeContent.
From S2P Require Import Strings TextBuffer TextBufferSort.
Import TextChange Edits.

(** ** Replacements *)

(** The units from [from] to [to] give way to [new_text]. *)
Record replacement := mkRep { from : Z; to : Z; new_text : jsstring }.

(** The text from the offset [o] on, with replacements in ascending order carried
    out. *)
Fixpoint patch (o : Z) (rs : list replacement) (str : jsstring) : jsstring :=
  match rs with
  | [] => zdrop o str
  | r :: rs => slice str o (from r) ++ new_text r ++ patch (to r) rs str
  end.

(** The replacements lie in the text of length [n], in ascending order from [o] on. *)
Fixpoint chain (o n : Z) (rs : list replacement) : Prop :=
  match rs with
  | [] => o <= n
  | r :: rs => o <= from r <= to r /\ chain (to r) n rs
  end.

Definition inside (n : Z) (r : replacement) : Prop := 0 <= from r <= to r /\ to r <= n.

(** Two replacements overlap: they share a unit, or one inserts inside of the other. *)
Definition overlap (a b : replacement) : Prop := from a < to b /\ from b < to a.
Definition apart (rs : list replacement) : Prop :=
  forall i j a b, i <> j -> rs !! i = Some a -> rs !! j = Some b -> ~ overlap a b.

(** The order of ends, then of starts. *)
Definition by_end (a b : replacement) : Z := if to a === to b then from a - from b else to a - to b.

Lemma by_end_total a b : by_end a b <= 0 \/ by_end b a <= 0.
Proof. unfold by_end. destruct (Z.eqb_spec (to a) (to b)), (Z.eqb_spec (to b) (to a)); lia. Qed.

Lemma by_end_trans a b c : by_end a b <= 0 -> by_end b c <= 0 -> by_end a c <= 0.
Proof.
  unfold by_end. destruct (Z.eqb_spec (to a) (to b)), (Z.eqb_spec (to b) (to c)), (Z.eqb_spec (to a) (to c)); lia.
Qed.

Lemma chain_weaken o o' n rs : o' <= o -> chain o n rs -> chain o' n rs.
Proof. destruct rs; cbn; intuition lia. Qed.

Lemma chain_bounds o n rs : chain o n rs -> o <= n /\ Forall (fun r => o <= from r <= to r /\ to r <= n) rs.
Proof.
  revert o. induction rs as [| r rs IH]; intros o; cbn; [auto |]. intros [H1 H2]. destruct (IH _ H2) as [H3 H4].
  split; [lia |]. constructor; [lia |]. eapply Forall_impl; [exact H4 |]. cbn. lia.
Qed.

(** Sorted replacements are in a chain exactly when no two overlap. *)
Lemma chain_sorted_apart n rs : chain 0 n rs -> apart rs.
Proof.
  generalize 0 as o. induction rs as [| r rs IH]; intros o; [by intros _ i j a b _ ? |]. cbn [chain]. intros [Hr Hc].
  pose proof (proj2 (chain_bounds _ _ _ Hc)) as Hb. rewrite Forall_forall in Hb.
  assert (forall a, a ∈ rs -> to r <= from a <= to a) as Hin by (intros a Ha; specialize (Hb a Ha); lia).
  intros [| i] [| j] a b Hij; cbn; intros Ha Hb'.
  - done.
  - injection Ha as <-. apply list_elem_of_lookup_2, Hin in Hb'. unfold overlap. lia.
  - injection Hb' as <-. apply list_elem_of_lookup_2, Hin in Ha. unfold overlap. lia.
  - eapply (IH _ Hc i j); [congruence | done | done].
Qed.

Lemma apart_cons r rs : apart (r :: rs) -> apart rs /\ Forall (fun b => ~ overlap r b) rs.
Proof.
  intros Ha. split.
  - intros i j a b Hij Hi Hj. apply (Ha (S i) (S j)); [congruence | done | done].
  - apply Forall_forall. intros b [i Hi]%list_elem_of_lookup. by apply (Ha 0%nat (S i)).
Qed.

Lemma sorted_apart_chain n o rs :
  o <= n -> Forall (inside n) rs -> Forall (fun r => o <= from r) rs -> StronglySorted (fun a b => by_end a b <= 0) rs -> apart rs -> chain o n rs.
Proof.
  intros Ho Hin Hfrom Hs. revert o Ho Hin Hfrom. induction Hs as [| r rs Hs IH Hr]; intros o Ho Hin Hfrom; [done |].
  apply Forall_cons in Hin as [[Hr1 Hr2] Hin]. apply Forall_cons in Hfrom as [Hf _]. intros [Ha Hb]%apart_cons.
  cbn [chain]. split; [lia |]. apply IH; [done | done | | done].
  apply Forall_forall. intros b Hbin. rewrite Forall_forall in Hr, Hb, Hin. specialize (Hr b Hbin). specialize (Hb b Hbin).
  specialize (Hin b Hbin). unfold by_end, overlap, inside in *. destruct (Z.eqb_spec (to r) (to b)); lia.
Qed.

Lemma apart_perm rs rs' : rs ≡ₚ rs' -> apart rs -> apart rs'.
Proof.
  intros Hp%symmetry Ha i j a b Hij Hi Hj. apply Permutation_inj in Hp as (_ & f & Hf & Hl).
  eapply (Ha (f i) (f j)); [by intros ?%Hf | by rewrite <- Hl | by rewrite <- Hl].
Qed.

(** ** The parts of a patched text *)

Lemma slice_drop str a b : 0 <= a <= b -> b <= zlen str -> slice str a b ++ zdrop b str = zdrop a str.
Proof.
  intros Ha Hb. unfold slice. rewrite <- (ztake_zdrop b str) at 3. rewrite zdrop_app_l; [done |].
  rewrite zlen_ztake by lia. lia.
Qed.

Lemma take_slice str a b : 0 <= a <= b -> b <= zlen str -> ztake a str ++ slice str a b = ztake b str.
Proof.
  intros Ha Hb. unfold slice. rewrite <- (ztake_zdrop a (ztake b str)) at 2. f_equal.
  unfold ztake. rewrite take_take. f_equal. lia.
Qed.

Lemma zlen_slice str a b : 0 <= a <= b -> b <= zlen str -> zlen (slice str a b) = b - a.
Proof. intros Ha Hb. unfold slice. rewrite zlen_zdrop; rewrite zlen_ztake; lia. Qed.

Lemma slice_slice str a b c : 0 <= a <= b -> b <= c -> c <= zlen str -> slice str a b ++ slice str b c = slice str a c.
Proof.
  intros Ha Hb Hc. apply (app_inv_tail (zdrop c str)). rewrite <- app_assoc, !slice_drop by lia. done.
Qed.

(** A chain of replacements leaves the text before it alone. *)
Lemma patch_from o o' n rs str :
  n = zlen str -> 0 <= o' <= o -> chain o n rs -> patch o' rs str = slice str o' o ++ patch o rs str.
Proof.
  intros -> Ho Hc. pose proof (proj1 (chain_bounds _ _ _ Hc)). destruct rs as [| r rs]; cbn [patch]; [by rewrite slice_drop by lia |].
  destruct Hc as [Hr Hc]. pose proof (proj1 (chain_bounds _ _ _ Hc)). by rewrite (app_assoc (slice str o' o)), slice_slice by lia.
Qed.

(** ** The changes of a batch *)

(** The text changes of replacements, where the text before them has grown by
    [delta]. *)
Fixpoint changes_of (delta : Z) (rs : list replacement) (str : jsstring) : list TextChange.t :=
  match rs with
  | [] => []
  | r :: rs => TextChange.mk (from r) (slice str (from r) (to r)) (from r + delta) (new_text r) ::
               changes_of (delta + (zlen (new_text r) - (to r - from r))) rs str
  end.

Lemma edits_of_chain o delta n rs str :
  n = zlen str -> 0 <= o -> chain o n rs -> edits o (o + delta) (changes_of delta rs str) (zdrop o str) (patch o rs str).
Proof.
  intros ->. revert o delta. induction rs as [| r rs IH]; intros o delta Ho; cbn [chain changes_of patch]; [constructor |].
  intros [Hr Hc]. pose proof (proj1 (chain_bounds _ _ _ Hc)).
  eapply (edits_cons' _ _ (slice str o (from r))); cbn [oldPosition newPosition oldText newText].
  - rewrite zlen_slice by lia. lia.
  - rewrite zlen_slice by lia. lia.
  - by rewrite slice_drop, slice_drop by lia.
  - done.
  - reflexivity.
  - reflexivity.
  - unfold oldEnd, newEnd, oldLength, newLength. cbn [oldPosition newPosition oldText newText]. rewrite zlen_slice by lia.
    replace (from r + (to r - from r)) with (to r) by lia.
    replace (from r + delta + zlen (new_text r)) with (to r + (delta + (zlen (new_text r) - (to r - from r)))) by lia.
    apply IH; [lia | done].
Qed.

(** The replacement a text change makes in the old text. *)
Definition rep_of (c : TextChange.t) : replacement := mkRep (oldPosition c) (oldEnd c) (newText c).

Lemma rep_of_changes delta rs str n : n = zlen str -> Forall (inside n) rs -> rep_of <$> changes_of delta rs str = rs.
Proof.
  intros ->. revert delta. induction rs as [| r rs IH]; intros delta; [done |]. intros [[Hr1 Hr2] Hrs]%Forall_cons.
  cbn [changes_of]. rewrite fmap_cons, IH by done. f_equal. unfold rep_of, oldEnd, oldLength. cbn.
  rewrite zlen_slice by lia. destruct r; cbn in *. f_equal. lia.
Qed.

Lemma patch_of_edits o n cs a b : edits o n cs a b -> 0 <= o -> forall pre, zlen pre = o ->
  patch o (rep_of <$> cs) (pre ++ a) = b /\ chain o (zlen (pre ++ a)) (rep_of <$> cs).
Proof.
  induction 1 as [o n s | o n gap c es a b Hp Hn He IH]; intros Ho pre Hpre; cbn [fmap list_fmap patch chain rep_of from to new_text].
  - rewrite zdrop_app_r by lia. rewrite Hpre, Z.sub_diag, zdrop_0, zlen_app. pose proof (zlen_nonneg s). split; [done | lia].
  - pose proof (zlen_nonneg gap). pose proof (zlen_nonneg (oldText c)).
    destruct (IH ltac:(unfold oldEnd, oldLength; lia) (pre ++ gap ++ oldText c)) as [H1 H2].
    { rewrite !zlen_app. unfold oldEnd, oldLength. lia. }
    rewrite <- !app_assoc in H1, H2. rewrite H1. split.
    + f_equal. rewrite <- Hpre, Hp, <- Hpre. rewrite <- (Z.add_0_r (zlen pre)) at 1. rewrite slice_app_r by lia.
      unfold slice. by rewrite zdrop_0, ztake_app_l, ztake_all by lia.
    + unfold oldEnd, oldLength in *. split; [lia | done].
Qed.

(** ** Lines and columns *)

(** The length of the last line of a text. *)
Definition last_length (str : jsstring) : Z := zlen str - lstart str (breaks str - 1).

(** The line number and the column are the place of the offset: as many line breaks
    are before it as lines, and as many units follow the last of them.  The offset is
    not inside of a CR LF pair. *)
Record place (str : jsstring) (lineNumber column o : Z) : Prop := mkplace {
  pl_bounds : 0 <= o <= zlen str;
  pl_seam : seam (ztake o str) (zdrop o str);
  pl_line : lineNumber = 1 + breaks (ztake o str);
  pl_column : column = 1 + last_length (ztake o str)
}.

Lemma last_length_nonneg str : 0 <= last_length str.
Proof. unfold last_length. pose proof (lstart_bounds str (breaks str - 1)). lia. Qed.

Lemma last_length_plain str : breaks str = 0 -> last_length str = zlen str.
Proof. intros Hb. unfold last_length. rewrite Hb, lstart_neg by lia. lia. Qed.

Lemma last_length_app a t :
  seam a t -> last_length (a ++ t) = if breaks t === 0 then last_length a + zlen t else last_length t.
Proof.
  intros Hs. unfold last_length. rewrite breaks_app, zlen_app by done. pose proof (breaks_nonneg a). pose proof (breaks_nonneg t).
  destruct (Z.eqb_spec (breaks t) 0) as [Hz | Hz].
  - rewrite Hz, Z.add_0_r. rewrite lstart_app_l by (done || lia). lia.
  - rewrite lstart_app_r by (done || lia). replace (breaks a + breaks t - 1 - breaks a) with (breaks t - 1) by lia. lia.
Qed.

Lemma place_at str n c o : place str n c o -> at_offset str n c o.
Proof.
  intros [Hb Hs -> ->]. pose proof (breaks_app _ _ Hs) as Hbr. rewrite ztake_zdrop in Hbr.
  pose proof (breaks_nonneg (ztake o str)). pose proof (breaks_nonneg (zdrop o str)). pose proof (last_length_nonneg (ztake o str)).
  constructor.
  - lia.
  - lia.
  - unfold last_length. rewrite zlen_ztake by lia. replace (1 + breaks (ztake o str) - 2) with (breaks (ztake o str) - 1) by lia.
    pose proof (lstart_app_l _ _ (breaks (ztake o str) - 1) Hs ltac:(lia)) as He. rewrite ztake_zdrop in He. lia.
  - lia.
  - intros Hlt. replace (1 + breaks (ztake o str) - 1) with (breaks (ztake o str)) by lia.
    pose proof (lstart_app_r _ _ (breaks (ztake o str)) Hs ltac:(lia) ltac:(lia)) as He. rewrite ztake_zdrop, zlen_ztake, Z.sub_diag in He by lia.
    rewrite He.
    destruct (znth_is_Some (lineStarts_loop 0 (zdrop o str)) 0) as [k Hk]; [unfold breaks in *; lia |].
    rewrite (lstart_some _ 0 k) by done. assert (k ∈ lineStarts_loop 0 (zdrop o str)) as Hin by (apply elem_znth; eauto).
    apply starts_bounds in Hin. lia.
Qed.

Lemma at_offset_line str n1 c1 o1 n2 c2 o2 : at_offset str n1 c1 o1 -> at_offset str n2 c2 o2 -> n1 < n2 -> o1 < o2.
Proof.
  intros [L1 _ _ _ Hn1] [L2 C2 E2 _ _] Hlt. pose proof (lstart_mono str (n1 - 1) (n2 - 2)). lia.
Qed.

(** The order of places is the order of their offsets. *)
Lemma place_lt str n1 c1 o1 n2 c2 o2 :
  place str n1 c1 o1 -> place str n2 c2 o2 -> Position.lt (Position.new n1 c1) (Position.new n2 c2) <-> o1 < o2.
Proof.
  intros H1%place_at H2%place_at. unfold Position.lt. cbn.
  pose proof (at_offset_line _ _ _ _ _ _ _ H1 H2). pose proof (at_offset_line _ _ _ _ _ _ _ H2 H1).
  pose proof (at_eq _ _ _ _ H1). pose proof (at_eq _ _ _ _ H2).
  destruct (Z.lt_trichotomy n1 n2) as [Hlt | [-> | Hlt]]; lia.
Qed.

Lemma place_eq str n1 c1 o1 n2 c2 o2 :
  place str n1 c1 o1 -> place str n2 c2 o2 -> (n1 = n2 /\ c1 = c2) <-> o1 = o2.
Proof.
  intros H1 H2. pose proof (place_lt _ _ _ _ _ _ _ H1 H2) as L1. pose proof (place_lt _ _ _ _ _ _ _ H2 H1) as L2.
  unfold Position.lt in *. cbn in *. lia.
Qed.

(** ** Counting the line breaks of a text *)

(** What the kinds of line breaks have to do with the bits of [strEol]. *)
Definition eol_bits (text : jsstring) (bits : Z) : Prop :=
  bits = 0 /\ breaks text = 0 \/ bits = 1 /\ normal [LineFeed] text \/ bits = 2 /\ normal [CarriageReturn; LineFeed] text \/ bits = 3.

Lemma countEOL_break br flag i k acc :
  (br, flag) ∈ [([LineFeed], 1); ([CarriageReturn; LineFeed], 2); ([CarriageReturn], 3)] -> seam br k ->
  eolCounter.countEOL_loop i (br ++ k) acc =
  eolCounter.countEOL_loop (i + zlen br) k (eolCounter.eol_at acc i (i + zlen br) flag).
Proof.
  intros Hin Hs. repeat (apply elem_of_cons in Hin as [[= -> ->] | Hin]); [done | done | | by apply elem_of_nil in Hin].
  cbn [app]. destruct k as [| d k]; [done |]. cbn [eolCounter.countEOL_loop]. change (CarriageReturn === CarriageReturn) with true. cbv iota.
  destruct (Z.eqb_spec d LineFeed) as [-> |]; [by destruct Hs | done].
Qed.

Lemma countEOL_plain c i k acc :
  c <> CarriageReturn -> c <> LineFeed -> eolCounter.countEOL_loop i (c :: k) acc = eolCounter.countEOL_loop (i + 1) k acc.
Proof. intros H1 H2. cbn. by rewrite (proj2 (Z.eqb_neq _ _) H1), (proj2 (Z.eqb_neq _ _) H2). Qed.

Lemma breaks_plain c : c <> CarriageReturn -> c <> LineFeed -> breaks [c] = 0.
Proof. intros H1 H2. unfold breaks. cbn. by rewrite (proj2 (Z.eqb_neq _ _) H1), (proj2 (Z.eqb_neq _ _) H2). Qed.

Lemma no_breaks_normal eol text : breaks text = 0 -> normal eol text.
Proof.
  pattern text. apply text_ind.
  - done.
  - intros br k Hbr Hs _. destruct (split_lines_break br k Hbr Hs) as (_ & Hb & _). rewrite breaks_app, Hb by done.
    pose proof (breaks_nonneg k). lia.
  - intros c k H1 H2 IH Hk. change (c :: k) with ([c] ++ k) in Hk. rewrite breaks_app, breaks_plain in Hk by (done || by apply plain_seam).
    unfold normal in *. rewrite replace_eol_cons. rewrite (proj2 (Z.eqb_neq _ _) H1), (proj2 (Z.eqb_neq _ _) H2).
    by rewrite IH.
Qed.

Lemma normal_together eol a b : seam a b -> normal eol a -> normal eol b -> normal eol (a ++ b).
Proof. unfold normal. intros Hs Ha Hb. by rewrite replace_eol_app, Ha, Hb. Qed.

Lemma eol_bits_break br flag k bits :
  (br, flag) ∈ [([LineFeed], 1); ([CarriageReturn; LineFeed], 2); ([CarriageReturn], 3)] -> seam br k -> eol_bits k bits ->
  eol_bits (br ++ k) (Z.lor flag bits).
Proof.
  intros Hin Hs [[-> Hk] | [[-> Hk] | [[-> Hk] | ->]]];
    repeat (apply elem_of_cons in Hin as [[= -> ->] | Hin]); try (by apply elem_of_nil in Hin); unfold eol_bits; cbn [Z.lor Pos.lor].
  all: try (by repeat right).
  - right; left. split; [done |]. apply normal_together; [done | done | by apply no_breaks_normal].
  - do 2 right; left. split; [done |]. apply normal_together; [done | done | by apply no_breaks_normal].
  - right; left. split; [done |]. by apply normal_together.
  - do 2 right; left. split; [done |]. by apply normal_together.
Qed.

Lemma countEOL_loop_ok text : forall i acc, let r := eolCounter.countEOL_loop i text acc in
  eolCounter.eolCount r = eolCounter.eolCount acc + breaks text /\
  eolCounter.lastLineStart r = (if breaks text === 0 then eolCounter.lastLineStart acc else i + lstart text (breaks text - 1)) /\
  exists bits, eolCounter.strEol r = Z.lor (eolCounter.strEol acc) bits /\ eol_bits text bits.
Proof.
  pattern text. apply text_ind.
  - intros i acc. change (breaks []) with 0. split; [symmetry; apply Z.add_0_r |]. split; [done |]. exists 0. rewrite Z.lor_0_r. split; [done |]. by left.
  - intros br k Hbr Hs IH i acc. destruct (split_lines_break br k Hbr Hs) as (_ & Hb & _ & Hl).
    assert (exists flag, (br, flag) ∈ [([LineFeed], 1); ([CarriageReturn; LineFeed], 2); ([CarriageReturn], 3)]) as [flag Hf].
    { destruct Hbr as [-> | [-> | ->]]; eexists; rewrite !elem_of_cons; auto 10. }
    rewrite (countEOL_break br flag) by done.
    destruct (IH (i + zlen br) (eolCounter.eol_at acc i (i + zlen br) flag)) as (H1 & H2 & bits & H3 & H4).
    rewrite breaks_app, Hb by done. pose proof (breaks_nonneg k). split; [rewrite H1; cbn [eolCounter.eol_at eolCounter.eolCount]; lia |]. split.
    + rewrite H2. rewrite (proj2 (Z.eqb_neq (1 + breaks k) 0)) by lia. cbn [eolCounter.eol_at eolCounter.lastLineStart].
      destruct (Z.eqb_spec (breaks k) 0) as [-> |].
      * change (1 + 0 - 1) with 0. rewrite lstart_app_l by (done || lia). lia.
      * rewrite lstart_app_r by (done || lia). rewrite Hb. replace (1 + breaks k - 1 - 1) with (breaks k - 1) by lia. lia.
    + exists (Z.lor flag bits). rewrite H3. cbn [eolCounter.eol_at eolCounter.strEol]. rewrite Z.lor_assoc. split; [done |].
      by apply eol_bits_break.
  - intros c k H1 H2 IH i acc. rewrite countEOL_plain by done. destruct (IH (i + 1) acc) as (A & B & bits & C & D).
    assert (seam [c] k) as Hs by by apply plain_seam.
    pose proof (breaks_plain c H1 H2) as Hc.
    change (c :: k) with ([c] ++ k). rewrite breaks_app, Hc, Z.add_0_l by done. split; [done |]. split.
    + rewrite B. pose proof (breaks_nonneg k). destruct (Z.eqb_spec (breaks k) 0); [done |].
      rewrite lstart_app_r by (done || lia). rewrite Hc, Z.sub_0_r. change (zlen [c]) with 1. lia.
    + exists bits. split; [done |]. unfold eol_bits in *. rewrite breaks_app, Hc, Z.add_0_l by done.
      assert (forall eol, normal eol [c]) as Hn by (intros eol; by apply no_breaks_normal).
      destruct D as [? | [[? ?] | [[? ?] | ?]]]; [by left | | | by repeat right].
      * right; left. split; [done |]. by apply (normal_together _ [c]).
      * do 2 right; left. split; [done |]. by apply (normal_together _ [c]).
Qed.

Lemma countEOL_ok text : exists first bits,
  eolCounter.countEOL text = (breaks text, first, last_length text, bits) /\
  (breaks text = 0 -> first = zlen text) /\ eol_bits text bits.
Proof.
  destruct (countEOL_loop_ok text 0 (eolCounter.mkEol 0 0 0 eolCounter.EOL_Unknown)) as (H1 & H2 & bits & H3 & H4).
  unfold eolCounter.countEOL. cbn [eolCounter.eolCount eolCounter.lastLineStart eolCounter.strEol] in H1, H2, H3.
  rewrite H1, H2, H3, Z.add_0_l, Z.lor_0_l.
  assert (zlen text - (if breaks text === 0 then 0 else 0 + lstart text (breaks text - 1)) = last_length text) as ->.
  { unfold last_length. destruct (Z.eqb_spec (breaks text) 0) as [Hz |]; [| lia]. rewrite Hz, lstart_neg by lia. lia. }
  eexists _, bits. split; [reflexivity |]. split; [| done]. intros Hz. by rewrite Hz.
Qed.

(** Replacing the line breaks keeps the last line. *)
Lemma last_length_replace eol text :
  eol = [LineFeed] \/ eol = [CarriageReturn; LineFeed] -> last_length (replace_eol eol text) = last_length text.
Proof.
  intros Heol. assert (breaks eol = 1 /\ last_length eol = 0) as [Hbe Hle] by (by destruct Heol as [-> | ->]).
  pattern text. apply text_ind.
  - done.
  - intros br k Hbr Hs IH. destruct (split_lines_break br k Hbr Hs) as (_ & Hb & _ & Hl).
    assert (last_length br = 0) as Hbl by (unfold last_length; rewrite Hb; change (1 - 1) with 0; lia).
    assert (replace_eol eol br = eol) as Hr by (destruct Hbr as [-> | [-> | ->]]; cbn; by rewrite ?app_nil_r).
    rewrite replace_eol_app, Hr, !last_length_app by (done || by apply eol_seam).
    destruct (replace_eol_idem eol Heol k) as [_ ->]. destruct (Z.eqb_spec (breaks k) 0) as [Hk |]; [| done].
    by rewrite Hle, Hbl, (no_breaks_normal eol k Hk).
  - intros c k H1 H2 IH. change (c :: k) with ([c] ++ k). assert (seam [c] k) as Hs by by apply plain_seam.
    rewrite replace_eol_app by done. rewrite (no_breaks_normal eol [c]) by by apply breaks_plain.
    rewrite !last_length_app by (done || by apply plain_seam).
    destruct (replace_eol_idem eol Heol k) as [_ ->]. destruct (Z.eqb_spec (breaks k) 0) as [Hk |]; [| done].
    by rewrite (no_breaks_normal eol k Hk).
Qed.

(** A normalized text ends no line with a CR alone, so nothing behind it can join a
    CR LF pair. *)
Lemma normal_seam eol a b : eol = [LineFeed] \/ eol = [CarriageReturn; LineFeed] -> normal eol a -> seam a b.
Proof. intros Heol Ha [Hl _]. rewrite <- Ha in Hl. by apply replace_eol_last in Hl. Qed.

Lemma normal_take eol str o :
  eol = [LineFeed] \/ eol = [CarriageReturn; LineFeed] -> normal eol str -> seam (ztake o str) (zdrop o str) ->
  normal eol (ztake o str) /\ normal eol (zdrop o str).
Proof. intros Heol Hn Hs. apply normal_join; [done | done |]. by rewrite ztake_zdrop. Qed.

Lemma normal_slice eol str a b :
  eol = [LineFeed] \/ eol = [CarriageReturn; LineFeed] -> normal eol str -> 0 <= a <= b -> b <= zlen str ->
  seam (ztake a str) (zdrop a str) -> seam (ztake b str) (zdrop b str) -> normal eol (slice str a b).
Proof.
  intros Heol Hn Ha Hb Sa Sb. destruct (normal_take eol str b Heol Hn Sb) as [Hb1 _]. rewrite <- (take_slice str a b) in Hb1 by lia.
  apply normal_join in Hb1 as [_ H]; [done | done |]. rewrite <- (slice_drop str a b) in Sa by lia. by apply seam_of_app_r in Sa.
Qed.

#[global] Instance place_dec str n c o : Decision (place str n c o).
Proof.
  refine (cast_if (decide ((0 <= o <= zlen str) /\ seam (ztake o str) (zdrop o str) /\
    n = 1 + breaks (ztake o str) /\ c = 1 + last_length (ztake o str)))).
  - abstract by destruct_and!; constructor.
  - abstract by intros []; auto.
Defined.
