(* ===== verification/TextBufferEdits.v ===== *)
(** * Checking a batch of edits

    The first half of [applyEdits] of [PieceTreeTextBuffer]: the edits are validated,
    sorted and checked for overlaps, and many of them are joined to one. *)

From stdpp Require Import gmap.
From S2P Require Import Prelude Position Range Buffer TextChange RBTree RBTreeRep RBTreeOps RBTreeInsert RBTreeDelete RBTreeRemove.
From S2P Require Import PieceBuffers PieceTree PieceTreeEdit PieceTreeNodes PieceTreeRead PieceTreeList PieceTreeText.
From S2P Require Import PieceTreePieces PieceTreeChange PieceTreeSeal PieceTreeInsert PieceTreeDocument.
From S2P Require Import PieceTreeErase PieceTreeCreate PieceTreeChars PieceTreeLines PieceTreeRange PieceTreeContent PieceTreeSession.
From S2P Require Import Strings TextBuffer TextBufferSort TextEdits.
Import PieceTreeTextBuffer.

(** ** Running the text buffer *)

Lemma bbind_run {X Y} (m : B X) (k : X -> B Y) b a b' : m b = Ret (a, b') -> (m ≫= k) b = k a b'.
Proof. intros H. unfold mbind, B_bind. by rewrite H. Qed.

Lemma bbind_throw {X Y} (m : B X) (k : X -> B Y) b e : m b = Throw e -> (m ≫= k) b = Throw e.
Proof. intros H. unfold mbind, B_bind. by rewrite H. Qed.

Lemma tree_run {X} (m : P X) b a s : m (_pieceTree b) = Ret (a, s) -> tree m b = Ret (a, set_tree s b).
Proof. intros H. unfold tree. by rewrite H. Qed.

Lemma set_tree_same b : set_tree (_pieceTree b) b = b.
Proof. by destruct b. Qed.

Lemma tree_read {X} (m : P X) b a : m (_pieceTree b) = Ret (a, _pieceTree b) -> tree m b = Ret (a, b).
Proof. intros H. rewrite (tree_run _ _ _ _ H). by rewrite set_tree_same. Qed.

(** ** The text buffer and its document *)

(** The text buffer serves the document, whose line breaks are normalized. *)
Record serves (b : PieceTreeTextBuffer.t) (d : Doc.t) : Prop := mkserves {
  sv_tree : reachable (_pieceTree b) d;
  sv_normalized : Doc.normalized d = true;
  sv_promise : keeps_promise d
}.

Lemma serves_eol b d : serves b d -> Doc.eol d = [LineFeed] \/ Doc.eol d = [CarriageReturn; LineFeed].
Proof. intros [_ Hn Hp]. by destruct (Hp Hn). Qed.

Lemma serves_normal b d : serves b d -> normal (Doc.eol d) (Doc.content d).
Proof. intros [_ Hn Hp]. by destruct (Hp Hn). Qed.

Lemma getEOL_b b d : serves b d -> tree getEOL b = Ret (Doc.eol d, b).
Proof. intros [Hr _ _]. apply tree_read. unfold getEOL. by rewrite <- (st_eol _ _ (reachable_stands _ _ Hr)). Qed.

Lemma getOffsetAt_place b d n c o : serves b d -> place (Doc.content d) n c o -> tree (getOffsetAt n c) b = Ret (o, b).
Proof.
  intros [Hr _ _] Hp. apply tree_read. pose proof (st_doc (reachable_stands _ _ Hr)) as Hdoc.
  destruct (decide (Doc.content d = [])) as [He | Hne].
  - rewrite He in Hdoc. destruct (empty_positions _ Hdoc) as [-> _]. destruct Hp as [Hb _ _ _]. rewrite He in Hb.
    change (zlen []) with 0 in Hb. by assert (o = 0) as -> by lia.
  - rewrite (getOffsetAt_ok _ _ _ _ Hdoc Hne). destruct (place_at _ _ _ _ Hp) as [Hl _ Ho _ _]. unfold offset_in.
    rewrite (proj2 (Z.ltb_lt _ _)) by lia. by rewrite Ho.
Qed.

(** A range and the offsets of its ends. *)
Record spans (str : jsstring) (range : Range.t) (o1 o2 : Z) : Prop := mkspans {
  sp_start : place str (Range.startLineNumber range) (Range.startColumn range) o1;
  sp_end : place str (Range.endLineNumber range) (Range.endColumn range) o2;
  sp_le : o1 <= o2
}.

Lemma spans_empty str range o1 o2 : spans str range o1 o2 -> Range.isEmpty range = (o1 =? o2).
Proof.
  intros [H1 H2 _]. pose proof (place_eq _ _ _ _ _ _ _ H1 H2) as He. unfold Range.isEmpty.
  destruct (Z.eqb_spec o1 o2), (Z.eqb_spec (Range.startLineNumber range) (Range.endLineNumber range)),
    (Z.eqb_spec (Range.startColumn range) (Range.endColumn range)); cbn; try done; tauto.
Qed.

Lemma getValueInRange_b b d range o1 o2 :
  serves b d -> spans (Doc.content d) range o1 o2 ->
  getValueInRange range TextDefined b = Ret (slice (Doc.content d) o1 o2, b).
Proof.
  intros Hb Hs. unfold getValueInRange. rewrite (spans_empty _ _ _ _ Hs). destruct Hs as [H1 H2 Hle].
  destruct (Z.eqb_spec o1 o2) as [-> | Hne].
  - unfold slice. rewrite zdrop_all; [done |]. rewrite zlen_ztake; [lia | apply H2].
  - cbn [_getEndOfLine]. erewrite bbind_run by (by apply getEOL_b). apply tree_read.
    pose proof (reachable_stands _ _ (sv_tree _ _ Hb)) as [Hdoc He Hn _ _ _].
    rewrite (getValueInRange_ok _ _ range _ o1 o2 Hdoc) by (by apply place_at || lia). unfold with_eol. rewrite He, Hn, (sv_normalized _ _ Hb).
    destruct (serves_eol _ _ Hb) as [-> | ->]; by rewrite bool_decide_eq_true_2.
Qed.

Lemma getValueLengthInRange_b b d range o1 o2 :
  serves b d -> spans (Doc.content d) range o1 o2 -> getValueLengthInRange range TextDefined b = Ret (o2 - o1, b).
Proof.
  intros Hb Hs. unfold getValueLengthInRange. rewrite (spans_empty _ _ _ _ Hs). destruct Hs as [H1 H2 Hle].
  destruct (Z.eqb_spec o1 o2) as [-> | Hne]; [by rewrite Z.sub_diag |].
  destruct (Z.eqb_spec (Range.startLineNumber range) (Range.endLineNumber range)) as [He | _].
  - pose proof (at_eq _ _ _ _ (place_at _ _ _ _ H1)). pose proof (at_eq _ _ _ _ (place_at _ _ _ _ H2)). rewrite He in *.
    unfold mret, B_ret. do 2 f_equal. lia.
  - erewrite bbind_run by (by eapply getOffsetAt_place). erewrite bbind_run by (by eapply getOffsetAt_place). cbn [_getEndOfLine].
    do 2 erewrite bbind_run by (by apply getEOL_b). rewrite Z.eqb_refl. cbn [negb]. by rewrite Z.add_0_r.
Qed.

(** ** Validation *)

(** The edit asks for the replacement: its range is the one, and its text is the new
    one up to the form of the line breaks. *)
Record asks (d : Doc.t) (op : rawOp) (r : replacement) : Prop := mkasks {
  as_range : spans (Doc.content d) (ValidAnnotatedEditOperation.range op) (from r) (to r);
  as_text : new_text r = replace_eol (Doc.eol d) (default [] (ValidAnnotatedEditOperation.text op))
}.

(** The validated operation for the replacement. *)
Definition rep (v : validOp) : replacement :=
  mkRep (IValidatedEditOperation.rangeOffset v)
    (IValidatedEditOperation.rangeOffset v + IValidatedEditOperation.rangeLength v) (IValidatedEditOperation.text v).

Record vop_ok (d : Doc.t) (v : validOp) : Prop := mkvop {
  vo_range : spans (Doc.content d) (IValidatedEditOperation.range v) (from (rep v)) (to (rep v));
  vo_text : normal (Doc.eol d) (IValidatedEditOperation.text v);
  vo_count : IValidatedEditOperation.eolCount v = breaks (IValidatedEditOperation.text v);
  vo_first : breaks (IValidatedEditOperation.text v) = 0 ->
    IValidatedEditOperation.firstLineLength v = zlen (IValidatedEditOperation.text v);
  vo_last : IValidatedEditOperation.lastLineLength v = last_length (IValidatedEditOperation.text v)
}.

Lemma vop_inside d v : vop_ok d v -> inside (zlen (Doc.content d)) (rep v).
Proof. intros [[[Hb _ _ _] [Hb2 _ _ _] Hle] _ _ _ _]. unfold inside. lia. Qed.

(** The test of the line breaks of the new text. *)
Lemma validText_ok b d text bits (crlf : Decision (Doc.eol d = [CarriageReturn; LineFeed])) :
  serves b d -> eol_bits text bits ->
  (if (bits === eolCounter.EOL_Unknown) ||
      (bits === (if bool_decide (Doc.eol d = [CarriageReturn; LineFeed]) then eolCounter.EOL_StrCRLF else eolCounter.EOL_StrLF))
   then text else replace_eol (Doc.eol d) text) = replace_eol (Doc.eol d) text.
Proof.
  intros Hb Hbits.
  destruct (serves_eol _ _ Hb) as [He | He]; [rewrite bool_decide_eq_false_2 by (by rewrite He) | rewrite bool_decide_eq_true_2 by done]; rewrite He.
  all: destruct Hbits as [[-> Hn] | [[-> Hn] | [[-> Hn] | ->]]]; try done; symmetry; first [exact Hn | by apply no_breaks_normal].
Qed.

Lemma validateOp_ok b d i op r :
  serves b d -> asks d op r ->
  exists v, validateOp i op b = Ret (v, b) /\ vop_ok d v /\ rep v = r /\ IValidatedEditOperation.sortIndex v = i.
Proof.
  intros Hb [Hr Ht]. unfold validateOp. pose proof (serves_eol _ _ Hb) as Heol.
  set (inner := match truthy_text _ with Some _ => _ | None => _ end).
  assert (exists first, inner b = Ret ((new_text r, breaks (new_text r), first, last_length (new_text r)), b) /\
    (breaks (new_text r) = 0 -> first = zlen (new_text r))) as (first & Hin & Hfirst).
  { subst inner. rewrite Ht. destruct (ValidAnnotatedEditOperation.text op) as [[| u text] |]; cbn [truthy_text default]; [by exists 0 | | by exists 0].
    set (k := u :: text). destruct (countEOL_ok k) as (first & bits & -> & Hf & Hbits). exists first.
    erewrite bbind_run by (by apply getEOL_b). cbv beta zeta. rewrite (validText_ok b d k bits _ Hb Hbits). change (id k) with k.
    rewrite last_length_replace by done. destruct (replace_eol_idem _ Heol k) as [_ ->]. split; [done |].
    intros Hz. by rewrite (no_breaks_normal _ k Hz), Hf. }
  erewrite bbind_run by exact Hin. cbv iota beta.
  erewrite bbind_run by (eapply getOffsetAt_place; [done | apply Hr]). erewrite bbind_run by (by eapply getValueLengthInRange_b).
  eexists. split; [reflexivity |]. split_and!; [| | done].
  - constructor; cbn; [| | done | done | done].
    + by replace (from r + (to r - from r)) with (to r) by lia.
    + rewrite Ht. by apply replace_eol_idem.
  - unfold rep. cbn. destruct r. cbn. f_equal. lia.
Qed.

Lemma validateOps_ok b d ops rs : serves b d -> Forall2 (asks d) ops rs -> forall i f, exists vs,
  validateOps i ops f b = Ret ((foldl flagsOf f ops, vs), b) /\ Forall (vop_ok d) vs /\ rep <$> vs = rs /\
  StronglySorted (fun v w => IValidatedEditOperation.sortIndex v < IValidatedEditOperation.sortIndex w) vs /\
  Forall (fun v => i <= IValidatedEditOperation.sortIndex v) vs.
Proof.
  intros Hb. induction 1 as [| op r ops rs Ho Hos IH]; intros i f; cbn [validateOps foldl].
  - exists []. split_and!; [done | done | done | constructor | done].
  - destruct (validateOp_ok b d i op r Hb Ho) as (v & H1 & H2 & H3 & H4). erewrite bbind_run by exact H1.
    destruct (IH (i + 1) (flagsOf f op)) as (vs & K1 & K2 & K3 & K4 & K5). erewrite bbind_run by exact K1. cbn [fst snd].
    exists (v :: vs). split_and!; [done | by constructor | by rewrite fmap_cons, H3, K3 | | ].
    + constructor; [done |]. eapply Forall_impl; [exact K5 |]. cbn. lia.
    + constructor; [lia |]. eapply Forall_impl; [exact K5 |]. cbn. lia.
Qed.

(** ** Sorting *)

(** The order of the ranges is the order of the replacements. *)
Lemma compare_by_end d v w : vop_ok d v -> vop_ok d w ->
  let r := Range.compareRangesUsingEnds (IValidatedEditOperation.range v) (IValidatedEditOperation.range w) in
  (r < 0 <-> by_end (rep v) (rep w) < 0) /\ (r = 0 <-> by_end (rep v) (rep w) = 0).
Proof.
  intros [[S1 E1 _] _ _ _ _] [[S2 E2 _] _ _ _ _] r. subst r. unfold Range.compareRangesUsingEnds, by_end.
  pose proof (place_lt _ _ _ _ _ _ _ S1 S2) as L1. pose proof (place_eq _ _ _ _ _ _ _ S1 S2) as Q1.
  pose proof (place_lt _ _ _ _ _ _ _ E1 E2) as L2. pose proof (place_eq _ _ _ _ _ _ _ E1 E2) as Q2.
  unfold Position.lt in *. cbn [Position.lineNumber Position.column] in *.
  destruct (Z.eqb_spec (Range.endLineNumber (IValidatedEditOperation.range v)) (Range.endLineNumber (IValidatedEditOperation.range w))),
    (Z.eqb_spec (Range.endColumn (IValidatedEditOperation.range v)) (Range.endColumn (IValidatedEditOperation.range w))),
    (Z.eqb_spec (Range.startLineNumber (IValidatedEditOperation.range v)) (Range.startLineNumber (IValidatedEditOperation.range w))),
    (Z.eqb_spec (to (rep v)) (to (rep w))); lia.
Qed.

Lemma StronglySorted_Forall {A} (P : A -> Prop) (R Q : A -> A -> Prop) l :
  (forall x y, P x -> P y -> R x y -> Q x y) -> Forall P l -> StronglySorted R l -> StronglySorted Q l.
Proof.
  intros HQ HP. induction 1 as [| x l Hl IH Hx]; [constructor |]. apply Forall_cons in HP as [Px Pl]. constructor; [by apply IH |].
  rewrite Forall_forall in *. intros y Hy. apply HQ; [done | by apply Pl | by apply Hx].
Qed.

Lemma StronglySorted_NoDup {A} (f : A -> Z) (R : A -> A -> Prop) l :
  StronglySorted R l -> NoDup (f <$> l) -> StronglySorted (fun x y => R x y /\ f x <> f y) l.
Proof.
  induction 1 as [| x l Hl IH Hx]; [constructor |]. rewrite fmap_cons. intros [Hn Hnd]%NoDup_cons. constructor; [by apply IH |].
  rewrite Forall_forall in *. intros y Hy. split; [by apply Hx |]. intros He. apply Hn. rewrite He. by apply list_elem_of_fmap_2.
Qed.

Lemma increasing_NoDup {A} (f : A -> Z) l : StronglySorted (fun x y => f x < f y) l -> NoDup (f <$> l).
Proof.
  induction 1 as [| x l Hl IH Hx]; [constructor |]. rewrite fmap_cons. constructor; [| done].
  intros (y & He & Hy)%list_elem_of_fmap. rewrite Forall_forall in Hx. specialize (Hx y Hy). cbn in Hx. lia.
Qed.

(** The comparison of the sort is total and transitive. *)
Lemma ascending_total v w : _sortOpsAscending v w <= 0 \/ _sortOpsAscending w v <= 0.
Proof.
  unfold _sortOpsAscending. set (a := IValidatedEditOperation.range v). set (b := IValidatedEditOperation.range w).
  destruct (Range.compareRangesUsingEnds_total_order a b b) as (H & _).
  destruct (Z.eqb_spec (Range.compareRangesUsingEnds a b) 0), (Z.eqb_spec (Range.compareRangesUsingEnds b a) 0); lia.
Qed.

Lemma ascending_trans u v w : _sortOpsAscending u v <= 0 -> _sortOpsAscending v w <= 0 -> _sortOpsAscending u w <= 0.
Proof.
  unfold _sortOpsAscending. set (a := IValidatedEditOperation.range u). set (b := IValidatedEditOperation.range v).
  set (c := IValidatedEditOperation.range w).
  destruct (Range.compareRangesUsingEnds_total_order a b c) as (H1 & E1 & T1 & _).
  destruct (Range.compareRangesUsingEnds_total_order b c a) as (H2 & E2 & T2 & _).
  destruct (Range.compareRangesUsingEnds_total_order c a b) as (H3 & E3 & T3 & _).
  destruct (Z.eqb_spec (Range.compareRangesUsingEnds a b) 0), (Z.eqb_spec (Range.compareRangesUsingEnds b c) 0),
    (Z.eqb_spec (Range.compareRangesUsingEnds a c) 0); lia.
Qed.

(** What sorting the operations gives. *)
Record sorted_ops (d : Doc.t) (ws : list validOp) : Prop := mksorted {
  so_ok : Forall (vop_ok d) ws;
  so_sorted : StronglySorted (fun v w => by_end (rep v) (rep w) < 0 \/
    by_end (rep v) (rep w) = 0 /\ IValidatedEditOperation.sortIndex v < IValidatedEditOperation.sortIndex w) ws
}.

Lemma sortAscending_ok d vs :
  Forall (vop_ok d) vs ->
  StronglySorted (fun v w => IValidatedEditOperation.sortIndex v < IValidatedEditOperation.sortIndex w) vs ->
  sorted_ops d (js_sort _sortOpsAscending vs) /\ rep <$> js_sort _sortOpsAscending vs = js_sort by_end (rep <$> vs).
Proof.
  intros Hok Hidx.
  assert (forall v w, vop_ok d v -> vop_ok d w -> _sortOpsAscending v w <= 0 <->
    by_end (rep v) (rep w) < 0 \/ by_end (rep v) (rep w) = 0 /\ IValidatedEditOperation.sortIndex v <= IValidatedEditOperation.sortIndex w) as Hle.
  { intros v w Hv Hw. destruct (compare_by_end d v w Hv Hw) as [H1 H2]. unfold _sortOpsAscending.
    destruct (Z.eqb_spec (Range.compareRangesUsingEnds (IValidatedEditOperation.range v) (IValidatedEditOperation.range w)) 0); lia. }
  assert (Forall (vop_ok d) (js_sort _sortOpsAscending vs)) as Hok' by (by rewrite js_sort_perm).
  split.
  - constructor; [done |].
    assert (NoDup (IValidatedEditOperation.sortIndex <$> js_sort _sortOpsAscending vs)) as Hnd
      by (rewrite js_sort_perm; by apply increasing_NoDup).
    eapply StronglySorted_Forall; [| exact Hok' | apply (StronglySorted_NoDup _ _ _ (js_sort_sorted _ ascending_total ascending_trans vs) Hnd)].
    intros v w Hv Hw [Hc Hne]. apply (Hle v w Hv Hw) in Hc. lia.
  - apply js_sort_map. eapply StronglySorted_Forall; [| exact Hok | exact Hidx]. intros v w Hv Hw Hlt. cbn in Hlt.
    pose proof (Hle v w Hv Hw) as H. destruct (Z.leb_spec (_sortOpsAscending v w) 0), (Z.leb_spec (by_end (rep v) (rep w)) 0); try done; lia.
Qed.

(** ** Overlaps *)

Lemma touchingRanges_throws b d ws : forall o,
  Forall (vop_ok d) ws -> (forall v, head ws = Some v -> o <= from (rep v)) -> o <= zlen (Doc.content d) ->
  ~ chain o (zlen (Doc.content d)) (rep <$> ws) -> touchingRanges ws b = Throw Error.
Proof.
  induction ws as [| v ws IH]; intros o Hok Hhead Ho Hc; [done |]. apply Forall_cons in Hok as [Hv Hws].
  specialize (Hhead v eq_refl). destruct (vop_inside d v Hv) as [Hv1 Hv2].
  destruct ws as [| w ws]; [destruct Hc; cbn [fmap list_fmap chain]; lia |]. cbn [touchingRanges].
  pose proof (Forall_inv Hws) as Hw. pose proof (vop_inside d w Hw) as [Hw1 Hw2].
  pose proof (place_lt _ _ _ _ _ _ _ (sp_start _ _ _ _ (vo_range _ _ Hw)) (sp_end _ _ _ _ (vo_range _ _ Hv))) as Hlt.
  change (Position.lt (Range.getStartPosition (IValidatedEditOperation.range w)) (Range.getEndPosition (IValidatedEditOperation.range v)) <->
          from (rep w) < to (rep v)) in Hlt.
  assert (to (rep v) <= from (rep w) -> touchingRanges (w :: ws) b = Throw Error) as Hrest.
  { intros Hle. apply (IH (from (rep w))); [done | by intros ? [= ->] | lia |]. intros Hcw. apply Hc. rewrite fmap_cons. cbn [chain].
    split; [lia |]. rewrite fmap_cons in *. cbn [chain] in *. split; [lia | by destruct Hcw]. }
  destruct (Position.isBeforeOrEqual _ _) eqn:Hbe; [destruct (Position.isBefore _ _) eqn:Hb; [done |] |].
  - apply bbind_throw, Hrest. apply Z.nlt_ge. rewrite <- Hlt. intros ?%Position.isBefore_lt. congruence.
  - apply Hrest. apply Z.nlt_ge. rewrite <- Hlt. intros Hl.
    assert (Position.isBeforeOrEqual (Range.getStartPosition (IValidatedEditOperation.range w))
      (Range.getEndPosition (IValidatedEditOperation.range v)) = true) as He; [| congruence].
    apply Position.isBeforeOrEqual_le. unfold Position.lt, Position.le in *. lia.
Qed.

Lemma touchingRanges_ok b d ws : forall o,
  Forall (vop_ok d) ws -> chain o (zlen (Doc.content d)) (rep <$> ws) -> exists touching,
    touchingRanges ws b = Ret (touching, b) /\ (touching = false -> StronglySorted (fun v w => to (rep v) < from (rep w)) ws).
Proof.
  induction ws as [| v ws IH]; intros o Hok Hc; [exists false; split; [done | constructor] |]. apply Forall_cons in Hok as [Hv Hws].
  rewrite fmap_cons in Hc. destruct Hc as [Hc1 Hc2]. destruct (IH _ Hws Hc2) as (t & Ht & Hs).
  destruct ws as [| w ws]; [exists false; split; [done | repeat constructor] |]. cbn [touchingRanges].
  pose proof (Forall_inv Hws) as Hw. pose proof Hc2 as Hc3. rewrite fmap_cons in Hc3. destruct Hc3 as [Hw1 Hc3].
  pose proof (sp_start _ _ _ _ (vo_range _ _ Hw)) as Pw. pose proof (sp_end _ _ _ _ (vo_range _ _ Hv)) as Pv.
  pose proof (place_lt _ _ _ _ _ _ _ Pw Pv) as Hlt. pose proof (place_lt _ _ _ _ _ _ _ Pv Pw) as Hgt.
  destruct (Position.isBefore (Range.getStartPosition (IValidatedEditOperation.range w)) (Range.getEndPosition (IValidatedEditOperation.range v))) eqn:Hb.
  { apply Position.isBefore_lt, Hlt in Hb. lia. }
  destruct (Position.isBeforeOrEqual _ _) eqn:Hbe.
  - exists true. erewrite bbind_run by exact Ht. done.
  - exists t. split; [done |]. intros Hf. specialize (Hs Hf). assert (to (rep v) < from (rep w)) as Hvw.
    { destruct (decide (to (rep v) = from (rep w))) as [He | He]; [exfalso | lia].
      assert (Position.isBeforeOrEqual (Range.getStartPosition (IValidatedEditOperation.range w))
        (Range.getEndPosition (IValidatedEditOperation.range v)) = true) as Ht'; [| congruence].
      apply Position.isBeforeOrEqual_le. pose proof (proj2 (place_eq _ _ _ _ _ _ _ Pw Pv) (eq_sym He)) as [E1 E2].
      right. split; [exact E1 |]. cbn. rewrite E2. lia. }
    constructor; [done |]. constructor; [done |]. destruct (chain_bounds _ _ _ Hc3) as [_ Hall]. rewrite Forall_fmap in Hall.
    eapply Forall_impl; [exact Hall |]. intros x Hx. unfold compose in Hx. lia.
Qed.

(** ** Joining many operations to one *)

Lemma spans_new str n1 c1 o1 n2 c2 o2 : place str n1 c1 o1 -> place str n2 c2 o2 -> o1 <= o2 -> spans str (Range.new n1 c1 n2 c2) o1 o2.
Proof.
  intros H1 H2 Hle. pose proof (place_lt _ _ _ _ _ _ _ H2 H1) as Hlt. unfold Position.lt in Hlt. cbn in Hlt. unfold Range.new.
  destruct (_ || _) eqn:Hb; [exfalso | by constructor].
  apply orb_true_iff in Hb as [?%Z.ltb_lt | [?%Z.eqb_eq ?%Z.ltb_lt]%andb_true_iff]; lia.
Qed.

(** The end of the last replacement. *)
Definition last_to (o : Z) (rs : list replacement) : Z := default o (to <$> last rs).

Lemma last_to_cons o r rs : last_to o (r :: rs) = last_to (to r) rs.
Proof. unfold last_to. destruct rs as [| r2 rs]; [done |]. rewrite last_cons_cons. destruct (last (r2 :: rs)) eqn:He; [done | by apply last_None in He]. Qed.

Lemma joinOps_ok b d ws : serves b d -> forall o n c,
  place (Doc.content d) n c o -> Forall (vop_ok d) ws -> chain o (zlen (Doc.content d)) (rep <$> ws) -> exists text force,
  joinOps ws n c b = Ret ((text, force), b) /\ normal (Doc.eol d) text /\
  patch o (rep <$> ws) (Doc.content d) = text ++ zdrop (last_to o (rep <$> ws)) (Doc.content d).
Proof.
  intros Hb. pose proof (serves_eol _ _ Hb) as Heol. induction ws as [| v ws IH]; intros o n c Hp Hok Hc.
  - by exists [], false.
  - apply Forall_cons in Hok as [Hv Hws]. rewrite fmap_cons in Hc |- *. destruct Hc as [Hc1 Hc2]. cbn [joinOps].
    destruct (vo_range _ _ Hv) as [S1 S2 _]. destruct (vop_inside d v Hv) as [I1 I2].
    assert (spans (Doc.content d) (Range.new n c (Range.startLineNumber (IValidatedEditOperation.range v)) (Range.startColumn (IValidatedEditOperation.range v))) o (from (rep v))) as Hsp
      by (apply spans_new; [done | done | lia]).
    erewrite bbind_run by (by eapply getValueInRange_b).
    destruct (IH (to (rep v)) _ _ S2 Hws Hc2) as (text & force & H1 & H2 & H3). erewrite bbind_run by exact H1.
    eexists _, _. split; [reflexivity |]. cbn [fst snd].
    assert (forall t : jsstring, (if 0 <? zlen t then t else []) = t) as Hif.
    { intros t. destruct (Z.ltb_spec 0 (zlen t)); [done |]. symmetry. apply zlen_0. pose proof (zlen_nonneg t). lia. }
    rewrite Hif. split.
    + assert (normal (Doc.eol d) (slice (Doc.content d) o (from (rep v)))) as Hn1.
      { apply normal_slice; [done | by eapply serves_normal | | | apply Hp | apply S1]; pose proof (pl_bounds _ _ _ _ Hp); lia. }
      pose proof (vo_text _ _ Hv) as Hn2. apply normal_together; [by eapply normal_seam | done |].
      apply normal_together; [by eapply normal_seam | done | done].
    + cbn [patch]. rewrite H3, last_to_cons. by rewrite <- !app_assoc.
Qed.

Record reduced (d : Doc.t) (ws us : list validOp) : Prop := mkreduced {
  rd_sorted : sorted_ops d us;
  rd_chain : chain 0 (zlen (Doc.content d)) (rep <$> us);
  rd_patch : patch 0 (rep <$> us) (Doc.content d) = patch 0 (rep <$> ws) (Doc.content d);
  rd_same : us = ws \/ exists u, us = [u]
}.

Lemma toSingle_ok b d ws : serves b d -> sorted_ops d ws -> ws <> [] -> chain 0 (zlen (Doc.content d)) (rep <$> ws) ->
  exists u, _toSingleEditOperation ws b = Ret (u, b) /\ reduced d ws [u].
Proof.
  intros Hb [Hok _] Hne Hc. unfold _toSingleEditOperation. destruct ws as [| v ws]; [done |]. cbn [head].
  destruct (last (v :: ws)) as [w |] eqn:Hlast; [| by apply last_None in Hlast].
  assert (vop_ok d v) as Hv by by apply Forall_inv in Hok.
  assert (vop_ok d w) as Hw by (rewrite Forall_forall in Hok; by apply Hok, last_Some_elem_of).
  destruct (vo_range _ _ Hv) as [S1 _ _]. destruct (vo_range _ _ Hw) as [_ S2 _]. destruct (vop_inside d v Hv) as [I1 I2].
  assert (chain (from (rep v)) (zlen (Doc.content d)) (rep <$> v :: ws)) as Hcv by (rewrite fmap_cons in *; cbn [chain] in *; intuition lia).
  destruct (joinOps_ok b d (v :: ws) Hb (from (rep v)) _ _ S1 Hok Hcv) as (text & force & H1 & H2 & H3).
  assert (last_to (from (rep v)) (rep <$> v :: ws) = to (rep w)) as Hto by (unfold last_to; by rewrite fmap_last, Hlast).
  assert (from (rep v) <= to (rep w)) as Hle.
  { destruct (chain_bounds _ _ _ Hcv) as [_ Hall]. rewrite Forall_forall in Hall.
    specialize (Hall (rep w)). destruct Hall as [? ?]; [apply list_elem_of_fmap_2; by apply last_Some_elem_of | lia]. }
  assert (spans (Doc.content d) (Range.new (Range.startLineNumber (IValidatedEditOperation.range v)) (Range.startColumn (IValidatedEditOperation.range v))
    (Range.endLineNumber (IValidatedEditOperation.range w)) (Range.endColumn (IValidatedEditOperation.range w))) (from (rep v)) (to (rep w))) as Hsp
    by (by apply spans_new).
  erewrite bbind_run by exact H1. cbn [fst snd]. destruct (countEOL_ok text) as (first & bits & -> & Hfirst & _).
  erewrite bbind_run by (eapply getOffsetAt_place; [done | apply Hsp]). erewrite bbind_run by (by eapply getValueLengthInRange_b).
  eexists. split; [reflexivity |].
  match goal with |- reduced _ _ [?u] => set (one := u) end.
  assert (rep one = mkRep (from (rep v)) (to (rep w)) text) as Hrep by (unfold rep at 1; cbn; f_equal; lia).
  assert (vop_ok d one) as Hone by (constructor; rewrite ?Hrep; done).
  constructor; [constructor; [by constructor | repeat constructor] | | | by right; exists one].
  - cbn [fmap list_fmap chain]. rewrite Hrep. cbn [from to]. pose proof (pl_bounds _ _ _ _ S2). lia.
  - rewrite (patch_from (from (rep v)) 0 _ (rep <$> v :: ws) _ eq_refl ltac:(lia) Hcv), H3, Hto.
    cbn [fmap list_fmap patch]. by rewrite Hrep.
Qed.

Lemma reduceOperations_ok b d ws : serves b d -> sorted_ops d ws -> chain 0 (zlen (Doc.content d)) (rep <$> ws) ->
  exists us, _reduceOperations ws b = Ret (us, b) /\ reduced d ws us.
Proof.
  intros Hb Hs Hc. unfold _reduceOperations. destruct (Z.ltb_spec (zlen ws) 1000) as [Hlt | Hge].
  - exists ws. split; [done |]. constructor; auto.
  - destruct (toSingle_ok b d ws Hb Hs) as (u & H1 & H2); [by intros -> | done |]. erewrite bbind_run by exact H1. eauto.
Qed.
