(* ===== verification/TextBufferInverse.v ===== *)
(** * The inverse of a batch of edits

    [_getInverseEditRanges] and the loop of [applyEdits] that computes the edits which
    undo a batch, and what [EditStack.pushEditOperation] of [editStack.ts] makes of them:
    the text changes from the old document to the new. *)

From stdpp Require Import gmap.
From S2P Require Import Prelude Position Range Buffer TextChange RBTree RBTreeRep RBTreeOps RBTreeInsert RBTreeDelete RBTreeRemove.
From S2P Require Import PieceBuffers PieceTree PieceTreeEdit PieceTreeNodes PieceTreeRead PieceTreeList PieceTreeText.
From S2P Require Import PieceTreePieces PieceTreeChange PieceTreeSeal PieceTreeInsert PieceTreeDocument.
From S2P Require Import PieceTreeErase PieceTreeCreate PieceTreeChars PieceTreeLines PieceTreeRange PieceTreeContent PieceTreeSession.
From S2P Require Import Strings TextBuffer TextBufferSort TextEdits TextBufferEdits.
Import PieceTreeTextBuffer TextChange Edits.

(** The text changes of a batch, as [pushEditOperation] sorts them: by the old
    position, then by the index. *)
Definition textChangesOf (inverseEditOperations : list reverseOp) : list TextChange.t :=
  let textChanges := imap (fun index op => (Z.of_nat index, IReverseSingleEditOperation.textChange op)) inverseEditOperations in
  snd <$> js_sort (fun a b => if oldPosition (snd a) === oldPosition (snd b) then fst a - fst b
                              else oldPosition (snd a) - oldPosition (snd b)) textChanges.

(** ** The ranges of the new text *)

(** The place where a normalized text ends, whatever follows. *)
Lemma place_prefix eol a k :
  eol = [LineFeed] \/ eol = [CarriageReturn; LineFeed] -> normal eol a ->
  place (a ++ k) (1 + breaks a) (1 + last_length a) (zlen a).
Proof.
  intros Heol Ha. pose proof (zlen_nonneg a). pose proof (zlen_nonneg k).
  assert (ztake (zlen a) (a ++ k) = a) as Ht by (by rewrite ztake_app_l, ztake_all by lia).
  assert (zdrop (zlen a) (a ++ k) = k) as Hd by (by rewrite zdrop_app_r, Z.sub_diag, zdrop_0 by lia).
  constructor; rewrite ?Ht, ?Hd, ?zlen_app; [lia | by eapply normal_seam | done | done].
Qed.

Lemma insertedRange_ok a t first :
  seam a t -> (breaks t = 0 -> first = zlen t) ->
  insertedRange (1 + breaks a) (1 + last_length a) (zlen t) (breaks t) first (last_length t) =
  Range.mk (1 + breaks a) (1 + last_length a) (1 + breaks (a ++ t)) (1 + last_length (a ++ t)).
Proof.
  intros Hs Hf. unfold insertedRange. rewrite breaks_app, last_length_app by done. pose proof (breaks_nonneg t). pose proof (zlen_nonneg t).
  assert (forall n c n' c', n < n' \/ n = n' /\ c <= c' -> Range.new n c n' c' = Range.mk n c n' c') as Hnew.
  { intros n c n' c' Hle. unfold Range.new. destruct (_ || _) eqn:Hb; [exfalso | done].
    apply orb_true_iff in Hb as [?%Z.ltb_lt | [?%Z.eqb_eq ?%Z.ltb_lt]%andb_true_iff]; lia. }
  destruct (Z.ltb_spec 0 (zlen t)) as [Hpos | Hz].
  - destruct (Z.eqb_spec (breaks t + 1) 1) as [Hb | Hb], (Z.eqb_spec (breaks t) 0) as [Hb' | Hb']; try lia.
    + rewrite Hf, Hb', Z.add_0_r, Z.add_assoc by done. apply Hnew. lia.
    + rewrite Hnew by lia. f_equal; lia.
  - assert (t = []) as -> by (apply zlen_0; lia). change (breaks []) with 0. cbn [Z.eqb]. change (zlen []) with 0.
    rewrite !Z.add_0_r. apply Hnew. lia.
Qed.

(** The previous operation, whose old text ends at [o] and whose new text ends the new
    text [a]. *)
Definition previous (str a : jsstring) (o : Z) (prev : option (validOp * Z * Z)) : Prop :=
  match prev with
  | None => a = ztake o str
  | Some (p, endLine, endColumn) =>
      place str (Range.endLineNumber (IValidatedEditOperation.range p)) (Range.endColumn (IValidatedEditOperation.range p)) o /\
      endLine = 1 + breaks a /\ endColumn = 1 + last_length a
  end.

(** Where the new text of an operation starts. *)
Lemma inverse_start d a o prev v :
  let str := Doc.content d in let gap := slice str o (from (rep v)) in
  (Doc.eol d = [LineFeed] \/ Doc.eol d = [CarriageReturn; LineFeed]) -> normal (Doc.eol d) a -> normal (Doc.eol d) (ztake o str) ->
  0 <= o <= from (rep v) -> vop_ok d v -> previous str a o prev ->
  match prev with
  | Some (prevOp, prevOpEndLineNumber, prevOpEndColumn) =>
      if Range.endLineNumber (IValidatedEditOperation.range prevOp) === Range.startLineNumber (IValidatedEditOperation.range v) then
        (prevOpEndLineNumber, prevOpEndColumn +
          (Range.startColumn (IValidatedEditOperation.range v) - Range.endColumn (IValidatedEditOperation.range prevOp)))
      else
        (prevOpEndLineNumber +
          (Range.startLineNumber (IValidatedEditOperation.range v) - Range.endLineNumber (IValidatedEditOperation.range prevOp)),
         Range.startColumn (IValidatedEditOperation.range v))
  | None => (Range.startLineNumber (IValidatedEditOperation.range v), Range.startColumn (IValidatedEditOperation.range v))
  end = (1 + breaks (a ++ gap), 1 + last_length (a ++ gap)).
Proof.
  intros str gap Heol Ha Ho Hle Hv Hprev. destruct (vo_range _ _ Hv) as [[Hb _ Hl Hc] _ _].
  assert (ztake (from (rep v)) str = ztake o str ++ gap) as Hg by (symmetry; apply take_slice; [lia | apply Hb]).
  fold str in Hl, Hc. rewrite Hg in Hl, Hc. assert (seam (ztake o str) gap) as Hs by (by eapply normal_seam).
  destruct prev as [[[p el] ec] |]; cbn [previous] in Hprev.
  - destruct Hprev as ([_ _ Hpl Hpc] & -> & ->). assert (seam a gap) as Hs' by (by eapply normal_seam).
    rewrite breaks_app in Hl by done. rewrite last_length_app in Hc by done. rewrite breaks_app, last_length_app by done.
    rewrite Hl, Hc, Hpl, Hpc. destruct (Z.eqb_spec (breaks gap) 0) as [Hz | Hz].
    + rewrite Hz, Z.add_0_r, Z.eqb_refl. f_equal; lia.
    + rewrite (proj2 (Z.eqb_neq _ _)) by lia. f_equal; lia.
  - subst a. by rewrite Hl, Hc.
Qed.

Lemma inverseRanges_ok d us :
  (Doc.eol d = [LineFeed] \/ Doc.eol d = [CarriageReturn; LineFeed]) -> normal (Doc.eol d) (Doc.content d) ->
  Forall (vop_ok d) us -> forall a o prev, normal (Doc.eol d) a -> 0 <= o -> normal (Doc.eol d) (ztake o (Doc.content d)) ->
  chain o (zlen (Doc.content d)) (rep <$> us) -> previous (Doc.content d) a o prev ->
  Forall2 (fun range c => spans (a ++ patch o (rep <$> us) (Doc.content d)) range (newPosition c) (newEnd c))
    (inverseRanges prev us) (changes_of (zlen a - o) (rep <$> us) (Doc.content d)).
Proof.
  intros Heol Hn. induction 1 as [| v us Hv Hus IH]; intros a o prev Ha Ho Hto Hc Hprev; [constructor |].
  rewrite fmap_cons in Hc |- *. destruct Hc as [Hc1 Hc2]. destruct (vop_inside d v Hv) as [I1 I2].
  set (str := Doc.content d) in *. set (gap := slice str o (from (rep v))). set (t := new_text (rep v)).
  pose proof (inverse_start d a o prev v Heol Ha Hto ltac:(lia) Hv Hprev) as Hstart. cbv zeta in Hstart. fold str gap in Hstart.
  destruct (vo_range _ _ Hv) as [[_ Sv _ _] Pend _]. fold str in Sv, Pend.
  assert (normal (Doc.eol d) gap) as Hng.
  { assert (ztake o str ++ gap = ztake (from (rep v)) str) as Hg by (apply take_slice; lia).
    destruct (normal_take (Doc.eol d) str (from (rep v)) Heol Hn Sv) as [Hnf _]. rewrite <- Hg in Hnf.
    by apply normal_join in Hnf as [_ ?]; [| done | by eapply normal_seam]. }
  assert (normal (Doc.eol d) (a ++ gap)) as Hag by (apply normal_together; [by eapply normal_seam | done | done]).
  assert (normal (Doc.eol d) ((a ++ gap) ++ t)) as Hagt by (apply normal_together; [by eapply normal_seam | done | apply Hv]).
  assert (zlen gap = from (rep v) - o) as Hzg by (apply zlen_slice; lia).
  cbn [inverseRanges changes_of patch]. fold gap t. rewrite Hstart, (vo_count _ _ Hv), (vo_last _ _ Hv).
  change (IValidatedEditOperation.text v) with t.
  rewrite insertedRange_ok; [| by eapply normal_seam | exact (vo_first _ _ Hv)]. cbn [Range.endLineNumber Range.endColumn].
  assert (a ++ gap ++ t ++ patch (to (rep v)) (rep <$> us) str = ((a ++ gap) ++ t) ++ patch (to (rep v)) (rep <$> us) str) as Happ
    by (by rewrite <- !app_assoc).
  pose proof (zlen_nonneg t). constructor.
  - unfold newEnd, newLength. cbn [newPosition newText]. replace (from (rep v) + (zlen a - o)) with (zlen (a ++ gap)) by (rewrite zlen_app; lia).
    constructor; cbn [Range.startLineNumber Range.startColumn Range.endLineNumber Range.endColumn].
    + replace (a ++ gap ++ t ++ patch (to (rep v)) (rep <$> us) str) with ((a ++ gap) ++ t ++ patch (to (rep v)) (rep <$> us) str)
        by (by rewrite <- app_assoc). by eapply place_prefix.
    + rewrite Happ, <- zlen_app. by eapply place_prefix.
    + lia.
  - rewrite Happ. replace (zlen a - o + (zlen t - (to (rep v) - from (rep v)))) with (zlen ((a ++ gap) ++ t) - to (rep v))
      by (rewrite !zlen_app; lia).
    apply IH; [done | lia | | done |].
    + by apply normal_take; [| | apply Pend].
    + cbn [previous]. by split_and!.
Qed.

(** ** The inverse operations *)

(** The inverse operations belong to the changes. *)
Record inverts (cs : list TextChange.t) (ranges : list Range.t) (revs : list reverseOp) : Prop := mkinverts {
  iv_changes : IReverseSingleEditOperation.textChange <$> revs = cs;
  iv_ranges : IReverseSingleEditOperation.range <$> revs = ranges;
  iv_texts : IReverseSingleEditOperation.text <$> revs = oldText <$> cs
}.

Lemma reverseOps_ok b d us : serves b d -> Forall (vop_ok d) us -> forall ranges delta, length ranges = length us ->
  exists revs, reverseOps us ranges delta b = Ret (revs, b) /\
    inverts (changes_of delta (rep <$> us) (Doc.content d)) ranges revs.
Proof.
  intros Hb. induction 1 as [| v us Hv Hus IH]; intros ranges delta Hlen.
  - destruct ranges; [| done]. exists []. by split.
  - destruct ranges as [| range ranges]; [done |]. cbn [reverseOps]. pose proof (vo_range _ _ Hv) as Hs.
    erewrite bbind_run by (by eapply getValueInRange_b). destruct (vop_inside d v Hv) as [I1 I2].
    rewrite zlen_slice by lia. destruct (IH ranges (delta + (zlen (IValidatedEditOperation.text v) - (to (rep v) - from (rep v))))) as (revs & H1 & [H2 H3 H4]);
      [by injection Hlen |].
    erewrite bbind_run by exact H1. eexists. split; [reflexivity |]. rewrite fmap_cons. cbn [changes_of].
    constructor; rewrite !fmap_cons; cbn [IReverseSingleEditOperation.textChange IReverseSingleEditOperation.range IReverseSingleEditOperation.text oldText].
    + by rewrite H2.
    + by rewrite H3.
    + by rewrite H4.
Qed.

(** ** The text changes of a batch *)

Lemma imap_sorted {A B} (f : A -> B) l : StronglySorted (fun x y => fst x < fst y) (imap (fun i x => (Z.of_nat i, f x)) l).
Proof.
  cut (forall k, StronglySorted (fun x y : Z * B => fst x < fst y) (imap (fun i x => (Z.of_nat (k + i), f x)) l)).
  { intros H. exact (H 0%nat). }
  induction l as [| x l IH]; intros k; [constructor |]. rewrite imap_cons. constructor.
  - specialize (IH (S k)). erewrite imap_ext; [exact IH |]. intros i y _. cbn. do 2 f_equal. lia.
  - apply Forall_forall. intros [i y] Hy. apply elem_of_lookup_imap_1 in Hy as (j & z & [= -> _] & _). cbn. lia.
Qed.

Lemma textChangesOf_sort revs :
  textChangesOf revs = js_sort (fun a b => oldPosition a - oldPosition b) (IReverseSingleEditOperation.textChange <$> revs).
Proof.
  unfold textChangesOf. rewrite (js_sort_map snd _ (fun a b => oldPosition a - oldPosition b)).
  - f_equal. rewrite fmap_imap. apply list_eq. intros i. by rewrite list_lookup_imap, list_lookup_fmap.
  - eapply (StronglySorted_Forall (fun _ => True)); [| by apply Forall_true | apply imap_sorted].
    intros [i a] [j b'] _ _ Hlt. cbn in *. destruct (Z.eqb_spec (oldPosition a) (oldPosition b')).
    + rewrite !(proj2 (Z.leb_le _ _)) by lia. done.
    + done.
Qed.

(** The changes of a chain of replacements, in any order that keeps touching ones in
    place. *)
Lemma changes_increasing delta o n rs str :
  chain o n rs -> StronglySorted (fun a b => oldPosition a <= oldPosition b) (changes_of delta rs str) /\
  Forall (fun c => o <= oldPosition c) (changes_of delta rs str).
Proof.
  revert delta o. induction rs as [| r rs IH]; intros delta o; cbn [chain changes_of]; [repeat constructor |]. intros [Hr Hc].
  destruct (IH (delta + (zlen (new_text r) - (to r - from r))) _ Hc) as [H1 H2]. split; constructor; [done | | cbn; lia |].
  - eapply Forall_impl; [exact H2 |]. cbn. lia.
  - eapply Forall_impl; [exact H2 |]. cbn. lia.
Qed.

Lemma changes_strict delta rs str :
  Forall (fun r => from r <= to r) rs -> StronglySorted (fun a b => to a < from b) rs ->
  StronglySorted (fun a b => oldPosition a < oldPosition b) (changes_of delta rs str) /\
  Forall (fun c => exists r, r ∈ rs /\ oldPosition c = from r) (changes_of delta rs str).
Proof.
  intros Hle Hs. revert delta Hle. induction Hs as [| r rs Hs IH Hr]; intros delta Hle; cbn [changes_of]; [repeat constructor |].
  apply Forall_cons in Hle as [Hle1 Hle2]. destruct (IH (delta + (zlen (new_text r) - (to r - from r))) Hle2) as [H1 H2].
  split; constructor; [done | | exists r; split; [left | done] |].
  - rewrite Forall_forall in H2. rewrite Forall_forall in Hr. apply Forall_forall. intros c Hc. destruct (H2 c Hc) as (x & Hx & ->). specialize (Hr x Hx). cbn in *. lia.
  - eapply Forall_impl; [exact H2 |]. intros c (x & Hx & He). exists x. split; [by right | done].
Qed.

Lemma separated_reps us :
  StronglySorted (fun v w => to (rep v) < from (rep w)) us -> StronglySorted (fun a b => to a < from b) (rep <$> us).
Proof. induction 1 as [| v us Hs IH Hv]; [constructor |]. rewrite fmap_cons. constructor; [done |]. by rewrite Forall_fmap. Qed.

(** The order in which [applyEdits] returns the inverse operations. *)
Definition returned (touching : bool) (revs : list reverseOp) : list reverseOp :=
  if negb touching then
    js_sort (fun a b => IReverseSingleEditOperation.sortIndex a - IReverseSingleEditOperation.sortIndex b) revs
  else revs.

Lemma returned_perm touching revs : returned touching revs ≡ₚ revs.
Proof. unfold returned. destruct touching; cbn; [done | apply js_sort_perm]. Qed.

Lemma textChangesOf_returned touching revs us str n :
  IReverseSingleEditOperation.textChange <$> revs = changes_of 0 (rep <$> us) str -> chain 0 n (rep <$> us) ->
  (touching = false -> StronglySorted (fun v w => to (rep v) < from (rep w)) us) ->
  textChangesOf (returned touching revs) = changes_of 0 (rep <$> us) str.
Proof.
  intros Hcs Hc Ht. rewrite textChangesOf_sort. unfold returned. destruct touching; cbn [negb].
  - rewrite Hcs. apply js_sort_sorted_id. destruct (changes_increasing 0 0 n (rep <$> us) str Hc) as [H _].
    eapply (StronglySorted_Forall (fun _ => True)); [| by apply Forall_true | exact H]. cbn. lia.
  - apply js_sort_unique; [cbn; lia | cbn; lia | |].
    + rewrite js_sort_perm. by rewrite Hcs.
    + destruct (chain_bounds _ _ _ Hc) as [_ Hb]. destruct (changes_strict 0 (rep <$> us) str) as [H _].
      * eapply Forall_impl; [exact Hb |]. cbn. lia.
      * by apply separated_reps, Ht.
      * eapply (StronglySorted_Forall (fun _ => True)); [| by apply Forall_true | exact H]. cbn. lia.
Qed.

(** ** The inverse as a batch of the new document *)

(** The edit of the new document an inverse operation stands for, and its
    replacement. *)
Definition undo_op (r : reverseOp) : rawOp :=
  ValidAnnotatedEditOperation.mk (IReverseSingleEditOperation.identifier r) (IReverseSingleEditOperation.range r)
    (Some (IReverseSingleEditOperation.text r)) false false false.
Definition undo_rep (r : reverseOp) : replacement := rep_of (inverse (IReverseSingleEditOperation.textChange r)).

Lemma changes_old_normal d us delta :
  (Doc.eol d = [LineFeed] \/ Doc.eol d = [CarriageReturn; LineFeed]) -> normal (Doc.eol d) (Doc.content d) ->
  Forall (vop_ok d) us -> Forall (fun c => normal (Doc.eol d) (oldText c)) (changes_of delta (rep <$> us) (Doc.content d)).
Proof.
  intros Heol Hn Hus. revert delta. induction Hus as [| v us Hv Hus IH]; intros delta; [constructor |].
  rewrite fmap_cons. cbn [changes_of]. constructor; [| done]. destruct (vop_inside d v Hv). destruct (vo_range _ _ Hv) as [[_ S1 _ _] [_ S2 _ _] _].
  cbn [oldText]. by apply normal_slice.
Qed.

Lemma undo_asks d' cs ranges revs :
  inverts cs ranges revs -> Forall (fun c => normal (Doc.eol d') (oldText c)) cs ->
  Forall2 (fun range c => spans (Doc.content d') range (newPosition c) (newEnd c)) ranges cs ->
  Forall (fun r => asks d' (undo_op r) (undo_rep r)) revs.
Proof.
  intros [<- <- Ht] Hn Hr. induction revs as [| r revs IH]; [constructor |]. rewrite !fmap_cons in *.
  injection Ht as Ht1 Ht2. apply Forall_cons in Hn as [Hn1 Hn2]. apply Forall2_cons in Hr as [Hr1 Hr2].
  constructor; [| by apply IH]. constructor; [exact Hr1 |]. cbn. rewrite Ht1. by symmetry.
Qed.

Lemma new_positions delta o n rs str : chain o n rs -> Forall (fun c => o + delta <= newPosition c) (changes_of delta rs str).
Proof.
  revert delta o. induction rs as [| r rs IH]; intros delta o; cbn [chain changes_of]; [constructor |]. intros [Hr Hc].
  pose proof (zlen_nonneg (new_text r)). constructor; [cbn; lia |]. eapply Forall_impl; [apply (IH _ _ Hc) |]. cbn. lia.
Qed.

Lemma new_separated delta o n rs str :
  chain o n rs -> StronglySorted (fun a b => to a < from b) rs ->
  n = zlen str -> 0 <= o -> StronglySorted (fun a b => newEnd a < newPosition b) (changes_of delta rs str).
Proof.
  intros Hc Hs -> Ho. revert delta o Ho Hc. induction Hs as [| r rs Hs IH Hr]; intros delta o Ho; cbn [chain changes_of]; [constructor |].
  intros [Hr1 Hc]. constructor; [by apply (IH _ (to r)); [lia |] |]. destruct rs as [| r2 rs]; [constructor |].
  apply Forall_cons in Hr as [Hr2 _].
  assert (chain (from r2) (zlen str) (r2 :: rs)) as Hc2 by (cbn [chain] in *; intuition lia).
  eapply Forall_impl; [apply (new_positions _ _ _ _ str Hc2) |]. intros c Hc'. cbv beta in *. unfold newEnd, newLength. cbn [newPosition newText]. lia.
Qed.

Lemma chain_by_end o n rs : chain o n rs -> StronglySorted (fun a b => by_end a b <= 0) rs.
Proof.
  revert o. induction rs as [| r rs IH]; intros o; cbn [chain]; [constructor |]. intros [Hr Hc]. constructor; [by eapply IH |].
  eapply Forall_impl; [apply (chain_bounds _ _ _ Hc) |]. intros a Ha. cbv beta in *. unfold by_end. destruct (Z.eqb_spec (to r) (to a)); lia.
Qed.

(** Sorting the inverse batch brings its operations back in their order. *)
Lemma undo_sorted touching revs us str str' :
  IReverseSingleEditOperation.textChange <$> revs = changes_of 0 (rep <$> us) str ->
  chain 0 (zlen str) (rep <$> us) -> edits 0 0 (changes_of 0 (rep <$> us) str) str str' ->
  (touching = false -> StronglySorted (fun v w => to (rep v) < from (rep w)) us) ->
  patch 0 (js_sort by_end (undo_rep <$> returned touching revs)) str' = str /\ chain 0 (zlen str') (js_sort by_end (undo_rep <$> returned touching revs)).
Proof.
  intros Hcs Hc He Ht. set (A := (fun c => rep_of (inverse c)) <$> changes_of 0 (rep <$> us) str).
  assert (undo_rep <$> revs = A) as HA by (unfold A; rewrite <- Hcs, <- list_fmap_compose; done).
  destruct (patch_of_edits _ _ _ _ _ (edits_inverse _ _ _ _ _ He) ltac:(lia) [] eq_refl) as [Hp Hch]. rewrite <- list_fmap_compose in Hp, Hch.
  change (patch 0 A str' = str) in Hp. change (chain 0 (zlen str') A) in Hch.
  assert (js_sort by_end (undo_rep <$> returned touching revs) = A) as ->; [| done].
  unfold returned. destruct touching; cbn [negb].
  - rewrite HA. apply js_sort_sorted_id. by eapply chain_by_end.
  - apply js_sort_unique; [apply by_end_total | apply by_end_trans | by rewrite js_sort_perm, HA |].
    pose proof (new_separated 0 0 _ _ str Hc (separated_reps us (Ht eq_refl)) eq_refl ltac:(lia)) as Hsep. clear -Hsep.
    unfold A. clear A. induction Hsep as [| c cs Hs IH Hx]; [constructor |]. rewrite fmap_cons. constructor; [done |]. rewrite Forall_fmap.
    eapply Forall_impl; [exact Hx |]. intros e Hlt. unfold compose. cbv beta in *.
    unfold by_end, rep_of, inverse, oldEnd, newEnd, oldLength, newLength in *. cbn in *. pose proof (zlen_nonneg (newText e)). pose proof (zlen_nonneg (newText c)).
    destruct (Z.eqb_spec (newPosition c + zlen (newText c)) (newPosition e + zlen (newText e))),
      (Z.eqb_spec (newPosition e + zlen (newText e)) (newPosition c + zlen (newText c))); lia.
Qed.
