(* ===== verification/TextBufferApply.v ===== *)
(** * Applying a batch of edits

    The second half of [applyEdits] of [PieceTreeTextBuffer], and the claims on the
    whole operation: a batch takes effect as simultaneous replacements, its inverse
    restores the document, and overlapping edits are refused. *)

From stdpp Require Import gmap.
From S2P Require Import Prelude Position Range Buffer TextChange RBTree RBTreeRep RBTreeOps RBTreeInsert RBTreeDelete RBTreeRemove.
From S2P Require Import PieceBuffers PieceTree PieceTreeEdit PieceTreeNodes PieceTreeRead PieceTreeList PieceTreeText.
From S2P Require Import PieceTreePieces PieceTreeChange PieceTreeSeal PieceTreeInsert PieceTreeDocument.
From S2P Require Import PieceTreeErase PieceTreeCreate PieceTreeChars PieceTreeLines PieceTreeRange PieceTreeContent PieceTreeSession.
From S2P Require Import Strings TextBuffer TextBufferSort TextEdits TextBufferEdits TextBufferInverse.
Import PieceTreeTextBuffer TextChange Edits.

(** ** One edit *)

(** Nothing but the tree of the text buffer has changed. *)
Definition only_tree (b b' : PieceTreeTextBuffer.t) : Prop := b' = set_tree (_pieceTree b') b.

Lemma only_tree_refl b : only_tree b b.
Proof. unfold only_tree. by rewrite set_tree_same. Qed.

Lemma only_tree_trans b1 b2 b3 : only_tree b1 b2 -> only_tree b2 b3 -> only_tree b1 b3.
Proof. unfold only_tree. intros -> H. rewrite H. done. Qed.

Lemma only_tree_set s b : only_tree b (set_tree s b).
Proof. done. Qed.

(** A step of the document a text buffer serves. *)
Lemma perform_b b d e d' :
  serves b d -> Doc.apply e d = Some d' -> Doc.normalized d' = true -> keeps_promise d' ->
  exists b', tree (perform e) b = Ret (tt, b') /\ serves b' d' /\ only_tree b b'.
Proof.
  intros [Hr _ _] Ha Hn Hp. destruct (perform_ok _ _ _ _ (reachable_stands _ _ Hr) Ha) as (s' & H1 & _).
  exists (set_tree s' b). split; [by apply tree_run |]. split; [| done]. constructor; [by eapply reach_edit | done | done].
Qed.

(** The text with the change of a content event made. *)
Definition splice (str : jsstring) (c : IInternalModelContentChange.t) : jsstring :=
  ztake (IInternalModelContentChange.rangeOffset c) str ++ IInternalModelContentChange.text c ++
  zdrop (IInternalModelContentChange.rangeOffset c + IInternalModelContentChange.rangeLength c) str.

Lemma splice_at str range o1 o2 t force :
  splice str (IInternalModelContentChange.mk range (o2 - o1) t o1 force) = ztake o1 str ++ t ++ zdrop o2 str.
Proof. unfold splice. cbn. by replace (o1 + (o2 - o1)) with o2 by lia. Qed.

(** The changes of an event are edits of the text as it is when they are made. *)
Fixpoint follow (eol str : jsstring) (cs : list IInternalModelContentChange.t) : Prop :=
  match cs with
  | [] => True
  | c :: cs =>
      spans str (IInternalModelContentChange.range c) (IInternalModelContentChange.rangeOffset c)
        (IInternalModelContentChange.rangeOffset c + IInternalModelContentChange.rangeLength c) /\
      normal eol (IInternalModelContentChange.text c) /\ follow eol (splice str c) cs
  end.

Lemma follow_app eol cs : forall str k, follow eol str cs -> follow eol (foldl splice str cs) k -> follow eol str (cs ++ k).
Proof. induction cs as [| c cs IH]; intros str k; cbn [follow foldl app]; [done |]. intros (H1 & H2 & H3) Hk. auto. Qed.

(** The changes go from the end of the text to its start: each lies before [hi], where
    the one before starts. *)
Fixpoint descending (hi : Z) (cs : list IInternalModelContentChange.t) : Prop :=
  match cs with
  | [] => True
  | c :: cs =>
      IInternalModelContentChange.rangeOffset c + IInternalModelContentChange.rangeLength c <= hi /\
      descending (IInternalModelContentChange.rangeOffset c) cs
  end.

Lemma descending_app cs : forall hi lo k,
  descending hi cs -> Forall (fun c => lo <= IInternalModelContentChange.rangeOffset c) cs -> lo <= hi -> descending lo k -> descending hi (cs ++ k).
Proof.
  induction cs as [| c cs IH]; intros hi lo k; cbn [descending app].
  - intros _ _ Hle. destruct k; [done |]. cbn [descending]. intros [? ?]. split; [lia | done].
  - intros [H1 H2] [Hc Hcs]%Forall_cons Hle Hk. split; [done |]. by apply (IH _ lo).
Qed.

(** What the texts of the changes add. *)
Definition added (cs : list IInternalModelContentChange.t) : Z := zsum ((fun c => zlen (IInternalModelContentChange.text c)) <$> cs).

Lemma added_cons c cs : added (c :: cs) = zlen (IInternalModelContentChange.text c) + added cs.
Proof. done. Qed.

Lemma added_nonneg cs : 0 <= added cs.
Proof. induction cs as [| c cs IH]; [done |]. rewrite added_cons. pose proof (zlen_nonneg (IInternalModelContentChange.text c)). lia. Qed.

Lemma added_app cs k : added (cs ++ k) = added cs + added k.
Proof. unfold added. by rewrite fmap_app, zsum_app. Qed.

Lemma promise_of d content eol :
  Doc.content d = content -> Doc.eol d = eol -> (eol = [LineFeed] \/ eol = [CarriageReturn; LineFeed]) -> normal eol content ->
  keeps_promise d.
Proof. intros <- <- H1 H2 _. done. Qed.

Definition limit : Z := 2 ^ 31 - 1.

Lemma delete_b b d o n :
  serves b d -> 0 <= o -> 0 <= n -> o + n <= zlen (Doc.content d) -> Doc.used d + 3 < limit ->
  normal (Doc.eol d) (ztake o (Doc.content d)) -> normal (Doc.eol d) (zdrop (o + n) (Doc.content d)) ->
  exists b' d', tree (delete o n) b = Ret (tt, b') /\ serves b' d' /\ only_tree b b' /\ Doc.eol d' = Doc.eol d /\
    Doc.content d' = ztake o (Doc.content d) ++ zdrop (o + n) (Doc.content d) /\ Doc.used d' = Doc.used d + 3.
Proof.
  intros Hb Ho Hn Hle Hroom N1 N2. pose proof (serves_eol _ _ Hb) as Heol. unfold limit in Hroom.
  set (d' := Doc.mk (ztake o (Doc.content d) ++ zdrop (o + n) (Doc.content d)) (Doc.eol d) (Doc.normalized d) (Doc.used d + 3)).
  destruct (perform_b b d (Doc.Delete o n) d' Hb) as (b' & H1 & H2 & H3).
  - cbn [Doc.apply]. rewrite !(proj2 (Z.leb_le _ _)), (proj2 (Z.ltb_lt _ _)) by lia. done.
  - apply Hb.
  - eapply promise_of; [done | done | done |]. apply normal_together; [by eapply normal_seam | done | done].
  - exists b', d'. done.
Qed.

Lemma insert_b b d o t :
  serves b d -> 0 <= o <= zlen (Doc.content d) -> t <> [] -> Doc.used d + zlen t + 5 < limit -> normal (Doc.eol d) t ->
  normal (Doc.eol d) (ztake o (Doc.content d)) -> normal (Doc.eol d) (zdrop o (Doc.content d)) ->
  exists b' d', tree (insert o t true) b = Ret (tt, b') /\ serves b' d' /\ only_tree b b' /\ Doc.eol d' = Doc.eol d /\
    Doc.content d' = ztake o (Doc.content d) ++ t ++ zdrop o (Doc.content d) /\ Doc.used d' = Doc.used d + zlen t + 5.
Proof.
  intros Hb Ho Ht Hroom Nt N1 N2. pose proof (serves_eol _ _ Hb) as Heol. unfold limit in Hroom.
  set (d' := Doc.mk (ztake o (Doc.content d) ++ t ++ zdrop o (Doc.content d)) (Doc.eol d) true (Doc.used d + zlen t + 5)).
  destruct (perform_b b d (Doc.Insert o t true) d' Hb) as (b' & H1 & H2 & H3).
  - cbn [Doc.apply]. rewrite !(proj2 (Z.leb_le _ _)), (proj2 (Z.ltb_lt _ _)), bool_decide_eq_true_2, (sv_normalized _ _ Hb) by (done || lia).
    cbn [andb]. destruct (bool_decide (Doc.eol d = [LineFeed])) eqn:He; [| done]. apply bool_decide_eq_true in He.
    rewrite bool_decide_eq_false_2; [done |]. rewrite <- Nt. by apply replace_eol_nocr.
  - done.
  - eapply promise_of; [done | done | done |]. apply normal_together; [by eapply normal_seam | done |].
    apply normal_together; [by eapply normal_seam | done | done].
  - exists b', d'. done.
Qed.

(** The events of one operation. *)
Definition changes_one (v : validOp) : list IInternalModelContentChange.t :=
  if Range.isEmpty (IValidatedEditOperation.range v) && (zlen (IValidatedEditOperation.text v) === 0) then []
  else [IInternalModelContentChange.mk
          (Range.new (Range.startLineNumber (IValidatedEditOperation.range v)) (Range.startColumn (IValidatedEditOperation.range v))
             (Range.endLineNumber (IValidatedEditOperation.range v)) (Range.endColumn (IValidatedEditOperation.range v)))
          (IValidatedEditOperation.rangeLength v) (IValidatedEditOperation.text v) (IValidatedEditOperation.rangeOffset v)
          (IValidatedEditOperation.forceMoveMarkers v)].

Lemma applyOne_ok b d v acc :
  serves b d -> inside (zlen (Doc.content d)) (rep v) -> Range.isEmpty (IValidatedEditOperation.range v) = (from (rep v) =? to (rep v)) ->
  normal (Doc.eol d) (new_text (rep v)) -> Doc.used d + zlen (new_text (rep v)) + 8 < limit ->
  normal (Doc.eol d) (ztake (from (rep v)) (Doc.content d)) -> normal (Doc.eol d) (zdrop (to (rep v)) (Doc.content d)) ->
  exists b' d', applyOne acc v b = Ret (acc ++ changes_one v, b') /\ serves b' d' /\ only_tree b b' /\ Doc.eol d' = Doc.eol d /\
    Doc.content d' = ztake (from (rep v)) (Doc.content d) ++ new_text (rep v) ++ zdrop (to (rep v)) (Doc.content d) /\
    foldl splice (Doc.content d) (changes_one v) = Doc.content d' /\ Doc.used d' <= Doc.used d + zlen (new_text (rep v)) + 8.
Proof.
  intros Hb [I1 I2] Hemp Nt Hroom N1 N2. unfold applyOne, changes_one.
  change ((Range.startLineNumber (IValidatedEditOperation.range v) === Range.endLineNumber (IValidatedEditOperation.range v)) &&
          (Range.startColumn (IValidatedEditOperation.range v) === Range.endColumn (IValidatedEditOperation.range v)))
    with (Range.isEmpty (IValidatedEditOperation.range v)). rewrite Hemp.
  pose proof (zlen_nonneg (new_text (rep v))).
  assert (IValidatedEditOperation.rangeLength v = to (rep v) - from (rep v)) as Hlen by (cbn; lia).
  change (IValidatedEditOperation.text v) with (new_text (rep v)). change (IValidatedEditOperation.rangeOffset v) with (from (rep v)).
  destruct (Z.eqb_spec (zlen (new_text (rep v))) 0) as [Hz | Hz]; cbn [negb].
  - apply zlen_0 in Hz. rewrite Hz in *. destruct (Z.eqb_spec (from (rep v)) (to (rep v))) as [He | He]; cbn [andb].
    + exists b, d. rewrite app_nil_r. split_and!; [done | done | apply only_tree_refl | done | | | lia].
      * rewrite He. cbn [app]. by rewrite ztake_zdrop.
      * done.
    + destruct (delete_b b d (from (rep v)) (to (rep v) - from (rep v))) as (b' & d' & H1 & H2 & H3 & H4 & H5 & H6);
        [done | lia | lia | lia | change (zlen []) with 0 in *; lia | done | by replace (from (rep v) + (to (rep v) - from (rep v))) with (to (rep v)) by lia |].
      replace (from (rep v) + (to (rep v) - from (rep v))) with (to (rep v)) in H5 by lia.
      exists b', d'. rewrite Hlen. erewrite bbind_run by exact H1. split_and!; [done | done | done | done | done | | lia].
      cbn [foldl]. by rewrite splice_at, H5.
  - rewrite andb_false_r. 
    destruct (delete_b b d (from (rep v)) (to (rep v) - from (rep v))) as (b1 & d1 & H1 & H2 & H3 & H4 & H5 & H6);
      [done | lia | lia | lia | lia | done | by replace (from (rep v) + (to (rep v) - from (rep v))) with (to (rep v)) by lia |].
    replace (from (rep v) + (to (rep v) - from (rep v))) with (to (rep v)) in H5 by lia.
    assert (ztake (from (rep v)) (Doc.content d1) = ztake (from (rep v)) (Doc.content d) /\ zdrop (from (rep v)) (Doc.content d1) = zdrop (to (rep v)) (Doc.content d)) as [T1 T2].
    { rewrite H5. assert (zlen (ztake (from (rep v)) (Doc.content d)) = from (rep v)) as Hzl by (apply zlen_ztake; lia).
      split; [by rewrite ztake_app_l, ztake_all by lia | by rewrite zdrop_app_r, Hzl, Z.sub_diag, zdrop_0 by lia]. }
    destruct (insert_b b1 d1 (from (rep v)) (new_text (rep v))) as (b' & d' & K1 & K2 & K3 & K4 & K5 & K6);
      [done | | by intros Hnil; rewrite Hnil in Hz | lia | by rewrite H4 | by rewrite H4, T1 | by rewrite H4, T2 |].
    { rewrite H5, zlen_app, zlen_ztake by lia. pose proof (zlen_nonneg (zdrop (to (rep v)) (Doc.content d))). lia. }
    rewrite T1, T2 in K5. exists b', d'. rewrite Hlen. split_and!; [| done | by eapply only_tree_trans | congruence | done | | lia].
    + erewrite bbind_run; [reflexivity |]. erewrite bbind_run by exact H1. exact K1.
    + cbn [foldl]. by rewrite splice_at, K5.
Qed.

Lemma range_new_spans str range o1 o2 : spans str range o1 o2 ->
  Range.new (Range.startLineNumber range) (Range.startColumn range) (Range.endLineNumber range) (Range.endColumn range) = range.
Proof.
  intros [P1 P2 Hle]. pose proof (place_lt _ _ _ _ _ _ _ P2 P1) as Hlt. unfold Position.lt in Hlt. cbn in Hlt. unfold Range.new.
  destruct range as [sl sc el ec]. cbn in *.
  destruct (Z.ltb_spec el sl); [exfalso; assert (o2 < o1) by (apply Hlt; lia); lia |]. cbn [orb].
  destruct (Z.eqb_spec sl el); [| done]. cbn [andb]. destruct (Z.ltb_spec ec sc); [exfalso; assert (o2 < o1) by (apply Hlt; lia); lia | done].
Qed.

Lemma changes_one_follow eol str v :
  spans str (IValidatedEditOperation.range v) (from (rep v)) (to (rep v)) -> normal eol (new_text (rep v)) -> follow eol str (changes_one v).
Proof.
  intros Hs Hn. unfold changes_one. destruct (_ && _); [done |]. cbn [follow]. cbn [IInternalModelContentChange.range].
  rewrite (range_new_spans _ _ _ _ Hs). done.
Qed.

Lemma changes_one_added v : added (changes_one v) <= zlen (new_text (rep v)).
Proof. unfold changes_one. pose proof (zlen_nonneg (new_text (rep v))). destruct (_ && _); cbn in *; lia. Qed.

(** A place in the unchanged front of the text. *)
Lemma place_front str n c o m rest :
  place str n c o -> o <= m <= zlen str -> seam (ztake o str) (zdrop o (ztake m str ++ rest)) -> place (ztake m str ++ rest) n c o.
Proof.
  intros [P1 P2 P3 P4] Hm Hs. assert (zlen (ztake m str) = m) as Hz by (apply zlen_ztake; lia).
  assert (ztake o (ztake m str ++ rest) = ztake o str) as Ht.
  { rewrite ztake_app_l by lia. unfold ztake. rewrite take_take. f_equal. lia. }
  constructor; rewrite ?Ht; try done. rewrite zlen_app, Hz. pose proof (zlen_nonneg rest). lia.
Qed.

(** ** All edits, from the last to the first *)

Lemma fold_B_app {X Y} (f : Y -> X -> B Y) l k acc : forall b,
  fold_B f acc (l ++ k) b = (fold_B f acc l ≫= fun acc => fold_B f acc k) b.
Proof.
  revert acc. induction l as [| x l IH]; intros acc b; cbn [fold_B app]; [done |].
  unfold mbind, B_bind. destruct (f acc x b) as [[y b'] |]; [| done]. by rewrite IH.
Qed.

(** What the new texts take of the change buffer. *)
Definition needed (rs : list replacement) : Z := zsum ((fun r => zlen (new_text r) + 8) <$> rs).

Lemma needed_cons r rs : needed (r :: rs) = zlen (new_text r) + 8 + needed rs.
Proof. done. Qed.

Lemma needed_nonneg rs : 0 <= needed rs.
Proof. induction rs as [| r rs IH]; [done |]. rewrite needed_cons. pose proof (zlen_nonneg (new_text r)). lia. Qed.

Lemma needed_perm rs rs' : rs ≡ₚ rs' -> needed rs = needed rs'.
Proof. induction 1; rewrite ?needed_cons; lia. Qed.

Lemma applyRev_ok us : forall b d o acc,
  serves b d -> Forall (vop_ok d) us -> 0 <= o -> chain o (zlen (Doc.content d)) (rep <$> us) ->
  Doc.used d + needed (rep <$> us) < limit ->
  exists b' d' changes, fold_B applyOne acc (rev us) b = Ret (acc ++ changes, b') /\ serves b' d' /\ only_tree b b' /\
    Doc.eol d' = Doc.eol d /\ Doc.content d' = patch 0 (rep <$> us) (Doc.content d) /\
    foldl splice (Doc.content d) changes = Doc.content d' /\ Doc.used d' <= Doc.used d + needed (rep <$> us) /\
    follow (Doc.eol d) (Doc.content d) changes /\ added changes <= needed (rep <$> us) /\
    descending (zlen (Doc.content d)) changes /\ Forall (fun c => o <= IInternalModelContentChange.rangeOffset c) changes.
Proof.
  induction us as [| v us IH]; intros b d o acc Hb Hok Ho Hc Hroom.
  - exists b, d, []. cbn [fmap list_fmap patch]. rewrite app_nil_r, zdrop_0. split_and!; [done | done | apply only_tree_refl | done | done | done | change (needed []) with 0; lia | done | done | done | constructor].
  - apply Forall_cons in Hok as [Hv Hus]. rewrite fmap_cons in Hc, Hroom |- *. destruct Hc as [Hc1 Hc2]. rewrite needed_cons in *.
    destruct (vop_inside d v Hv) as [I1 I2]. pose proof (needed_nonneg (rep <$> us)). pose proof (zlen_nonneg (new_text (rep v))).
    destruct (IH b d (to (rep v)) acc Hb Hus ltac:(lia) Hc2 ltac:(lia)) as (b1 & d1 & cs & H1 & H2 & H3 & H4 & H5 & H6 & H7 & H8 & H9 & H10 & H11).
    pose proof (serves_eol _ _ Hb) as Heol. destruct (vo_range _ _ Hv) as [[_ S1 _ _] [_ S2 _ _] _].
    pose proof (sp_start _ _ _ _ (vo_range _ _ Hv)) as PL1. pose proof (sp_end _ _ _ _ (vo_range _ _ Hv)) as PL2.
    rewrite (patch_from (to (rep v)) 0 _ (rep <$> us) _ eq_refl ltac:(lia) Hc2) in H5.
    change (slice (Doc.content d) 0 (to (rep v))) with (ztake (to (rep v)) (Doc.content d)) in H5.
    set (rest := patch (to (rep v)) (rep <$> us) (Doc.content d)) in *.
    assert (zlen (ztake (to (rep v)) (Doc.content d)) = to (rep v)) as Hzl by (apply zlen_ztake; lia).
    assert (ztake (from (rep v)) (Doc.content d1) = ztake (from (rep v)) (Doc.content d)) as T1.
    { rewrite H5, ztake_app_l by lia. unfold ztake. rewrite take_take. f_equal. lia. }
    assert (zdrop (to (rep v)) (Doc.content d1) = rest) as T2 by (by rewrite H5, zdrop_app_r, Hzl, Z.sub_diag, zdrop_0 by lia).
    destruct (normal_take _ _ _ Heol (serves_normal _ _ Hb) S1) as [N1 _]. destruct (normal_take _ _ _ Heol (serves_normal _ _ Hb) S2) as [N2 _].
    pose proof (serves_normal _ _ H2) as Nd1. rewrite H4, H5 in Nd1. apply normal_join in Nd1 as [_ N3]; [| done | by eapply normal_seam].
    destruct (applyOne_ok b1 d1 v (acc ++ cs) H2) as (b' & d' & K1 & K2 & K3 & K4 & K5 & K6 & K7).
    + split; [lia |]. rewrite H5, zlen_app, Hzl. pose proof (zlen_nonneg rest). lia.
    + by eapply spans_empty, vo_range.
    + rewrite H4. apply Hv.
    + lia.
    + by rewrite H4, T1.
    + by rewrite H4, T2.
    + exists b', d', (cs ++ changes_one v). cbn [rev]. rewrite fold_B_app. erewrite bbind_run by exact H1. cbn [fold_B].
      erewrite bbind_run by exact K1. rewrite T1, T2 in K5. split_and!.
      * by rewrite app_assoc.
      * done.
      * by eapply only_tree_trans.
      * congruence.
      * done.
      * by rewrite foldl_app, H6.
      * lia.
      * apply follow_app; [done |]. rewrite H6, H5. apply changes_one_follow; [| apply Hv].
        constructor; [apply place_front; [done | lia | by eapply normal_seam] | apply place_front; [done | lia | by eapply normal_seam] | lia].
      * rewrite added_app. pose proof (changes_one_added v). lia.
      * apply (descending_app _ _ (to (rep v))); [done | done | lia |]. unfold changes_one. destruct (_ && _); cbn; lia.
      * apply Forall_app. split; [eapply Forall_impl; [exact H11 |]; intros c Hc; cbv beta in Hc |- *; lia |]. unfold changes_one. destruct (_ && _); [constructor |].
        constructor; [cbn in *; lia | constructor].
Qed.

(** The descending sort turns the operations around. *)
Lemma sortDescending_ok d us : sorted_ops d us -> js_sort _sortOpsDescending us = rev us.
Proof.
  intros [Hok Hs]. apply js_sort_reverse. eapply StronglySorted_Forall; [| exact Hok | exact Hs].
  intros v w Hv Hw Hlt. cbv beta in Hlt |- *. destruct (compare_by_end d v w Hv Hw) as [H1 H2]. unfold _sortOpsDescending.
  destruct (Z.eqb_spec (Range.compareRangesUsingEnds (IValidatedEditOperation.range v) (IValidatedEditOperation.range w)) 0); lia.
Qed.

(** ** The room a batch takes *)

Lemma zlen_patch o n rs str : n = zlen str -> 0 <= o -> chain o n rs -> zlen (patch o rs str) <= n - o + needed rs.
Proof.
  intros ->. revert o. induction rs as [| r rs IH]; intros o Ho; cbn [chain patch].
  - intros Hle. rewrite zlen_zdrop by lia. change (needed []) with 0. lia.
  - intros [Hr Hc]. pose proof (proj1 (chain_bounds _ _ _ Hc)). rewrite !zlen_app, zlen_slice, needed_cons by lia.
    specialize (IH (to r) ltac:(lia) Hc). lia.
Qed.

Lemma reduced_needed d ws us :
  reduced d ws us -> chain 0 (zlen (Doc.content d)) (rep <$> ws) ->
  needed (rep <$> us) <= zlen (Doc.content d) + needed (rep <$> ws) + 8.
Proof.
  intros [_ Hc Hp [-> | [u ->]]] Hcw; [pose proof (zlen_nonneg (Doc.content d)); lia |].
  pose proof (zlen_patch 0 _ _ (Doc.content d) eq_refl ltac:(lia) Hcw) as Hz. rewrite <- Hp in Hz.
  cbn [fmap list_fmap patch] in Hz. rewrite !zlen_app in Hz. cbn [fmap list_fmap]. rewrite needed_cons. change (needed []) with 0.
  pose proof (zlen_nonneg (slice (Doc.content d) 0 (from (rep u)))). pose proof (zlen_nonneg (zdrop (to (rep u)) (Doc.content d))). lia.
Qed.

(** ** Trailing whitespace *)

Lemma getLine_b b d n : serves b d -> 1 <= n <= 1 + breaks (Doc.content d) ->
  exists b', tree (getLineContent n) b = Ret (line_text (Doc.content d) n, b') /\ serves b' d /\ only_tree b b'.
Proof.
  intros [Hr Hn Hp] Hl. destruct (read_line_ok _ _ n (reachable_stands _ _ Hr) Hp Hl) as (s' & H1 & _).
  exists (set_tree s' b). split; [by apply tree_run |]. split; [| done]. constructor; [by eapply reach_line | done | done].
Qed.

Lemma fold_B_inv {X Y} (I : Y -> PieceTreeTextBuffer.t -> Prop) (Q : X -> Prop) (f : Y -> X -> B Y) l :
  (forall acc x b, Q x -> I acc b -> exists acc' b', f acc x b = Ret (acc', b') /\ I acc' b') ->
  Forall Q l -> forall acc b, I acc b -> exists acc' b', fold_B f acc l b = Ret (acc', b') /\ I acc' b'.
Proof.
  intros Hf. induction 1 as [| x l Hx Hl IH]; intros acc b Hi; cbn [fold_B]; [eauto |].
  destruct (Hf acc x b Hx Hi) as (acc1 & b1 & H1 & H2). erewrite bbind_run by exact H1. by apply IH.
Qed.

Lemma numbers_bounds i j : Forall (fun n => i <= n <= j) (numbers i j).
Proof.
  unfold numbers. apply Forall_fmap, Forall_forall. intros k Hk%elem_of_seq. unfold compose. lia.
Qed.

(** Candidates on lines of the ranges of the new text. *)
Definition on_line (n : Z) (c : Z * jsstring) : Prop := 1 <= fst c <= n.

Lemma trimCandidates_ok b d v range n :
  serves b d -> vop_ok d v -> 1 <= Range.startLineNumber range -> Range.endLineNumber range <= n ->
  exists cs b', trimCandidates v range b = Ret (cs, b') /\ Forall (on_line n) cs /\ serves b' d /\ only_tree b b'.
Proof.
  intros Hb Hv Hs He. unfold trimCandidates. destruct (_ && _); [| exists [], b; split_and!; [done | done | done | apply only_tree_refl]].
  apply (fold_B_inv (fun cs b' => Forall (on_line n) cs /\ serves b' d /\ only_tree b b') (fun k => 1 <= k <= n)).
  - intros acc k b1 Hk (Hacc & Hb1 & Hot).
    assert (forall t, Forall (on_line n) (acc ++ [(k, t)])) as Hall by (intros t; apply Forall_app; split; [done | repeat constructor; cbn; lia]).
    destruct (k === Range.startLineNumber range); [| by eexists _, b1].
    destruct (getLine_b b1 d (Range.startLineNumber (IValidatedEditOperation.range v)) Hb1) as (b2 & H1 & H2 & H3).
    { eapply at_line, place_at, vo_range, Hv. }
    erewrite bbind_run by exact H1. destruct (_ !== -1); eexists _, b2; (split; [reflexivity |]);
      (split; [done |]); (split; [done | by eapply only_tree_trans]).
  - eapply Forall_impl; [apply numbers_bounds |]. cbn. lia.
  - split; [done |]. split; [done | apply only_tree_refl].
Qed.

(** A line that has only whitespace, and some. *)
Definition trailing (str : jsstring) (n : Z) : Prop :=
  1 <= n <= 1 + breaks str /\ line_text str n <> [] /\ strings.firstNonWhitespaceIndex (line_text str n) = -1.

Lemma trimLines_ok d cs : Forall (on_line (1 + breaks (Doc.content d))) cs -> forall prev b, serves b d ->
  exists lines b', trimLines prev cs b = Ret (lines, b') /\ Forall (trailing (Doc.content d)) lines /\ serves b' d /\ only_tree b b'.
Proof.
  induction 1 as [| [k t] cs Hk Hcs IH]; intros prev b Hb; cbn [trimLines].
  - exists [], b. split_and!; [done | done | done | apply only_tree_refl].
  - destruct (bool_decide _); [by apply IH |].
    destruct (getLine_b b d k Hb Hk) as (b1 & H1 & H2 & H3). erewrite bbind_run by exact H1.
    destruct (IH (Some k) b1 H2) as (lines & b2 & K1 & K2 & K3 & K4). erewrite bbind_run by exact K1.
    destruct (_ || _) eqn:Hor; eexists _, b2; (split; [reflexivity |]).
    + split; [done |]. split; [done | by eapply only_tree_trans].
    + apply orb_false_iff in Hor as [[Hor1 _]%orb_false_iff Hor2]. split; [| split; [done | by eapply only_tree_trans]].
      constructor; [| done]. split; [done |]. split; [by intros Hnil; rewrite Hnil in Hor1 |].
      by apply negb_false_iff, Z.eqb_eq in Hor2.
Qed.

(** ** The whole operation *)

Lemma serves_tree b b' d : _pieceTree b' = _pieceTree b -> serves b d -> serves b' d.
Proof. intros He [H1 H2 H3]. constructor; [by rewrite He | done | done]. Qed.

Lemma needed_old o n rs str delta : n = zlen str -> 0 <= o -> chain o n rs ->
  needed ((fun c => rep_of (inverse c)) <$> changes_of delta rs str) <= n - o + needed rs.
Proof.
  intros ->. revert o delta. induction rs as [| r rs IH]; intros o delta Ho; cbn [chain changes_of].
  - intros Hle. change (0 <= zlen str - o + 0). lia.
  - intros [Hr Hc]. pose proof (proj1 (chain_bounds _ _ _ Hc)). rewrite fmap_cons, !needed_cons. pose proof (zlen_nonneg (new_text r)).
    specialize (IH (to r) (delta + (zlen (new_text r) - (to r - from r))) ltac:(lia) Hc). cbn [rep_of inverse new_text newText oldText].
    rewrite zlen_slice by lia. lia.
Qed.

(** What [applyEdits] leaves behind. *)
Record outcome (b : PieceTreeTextBuffer.t) (d : Doc.t) (rs : list replacement) (result : ApplyEditsResult.t)
    (b' : PieceTreeTextBuffer.t) (d' : Doc.t) : Prop := mkoutcome {
  oc_serves : serves b' d';
  oc_content : Doc.content d' = patch 0 (js_sort by_end rs) (Doc.content d);
  oc_eol : Doc.eol d' = Doc.eol d;
  oc_length : zlen (Doc.content d') <= zlen (Doc.content d) + needed rs;
  oc_used : Doc.used d' <= Doc.used d + zlen (Doc.content d) + needed rs + 8;
  oc_bom : _BOM b' = _BOM b;
  oc_event : _onDidChangeContent b' = _onDidChangeContent b + 1;
  oc_changes : foldl splice (Doc.content d) (ApplyEditsResult.changes result) = Doc.content d';
  oc_follow : follow (Doc.eol d) (Doc.content d) (ApplyEditsResult.changes result);
  oc_descending : descending (zlen (Doc.content d)) (ApplyEditsResult.changes result);
  oc_added : added (ApplyEditsResult.changes result) <= zlen (Doc.content d) + needed rs + 8;
  oc_trim : forall lines, ApplyEditsResult.trimAutoWhitespaceLineNumbers result = Some lines -> Forall (trailing (Doc.content d')) lines
}.

(** The inverse operations are edits of the new document that restore the old one. *)
Record undoes (d d' : Doc.t) (revs : list reverseOp) : Prop := mkundoes {
  un_changes : edits 0 0 (textChangesOf revs) (Doc.content d) (Doc.content d');
  un_asks : Forall (fun r => asks d' (undo_op r) (undo_rep r)) revs;
  un_patch : patch 0 (js_sort by_end (undo_rep <$> revs)) (Doc.content d') = Doc.content d;
  un_chain : chain 0 (zlen (Doc.content d')) (js_sort by_end (undo_rep <$> revs))
}.

Lemma candidates_ok b d us ranges n :
  serves b d -> Forall (vop_ok d) us -> Forall (fun r => 1 <= Range.startLineNumber r /\ Range.endLineNumber r <= n) ranges ->
  exists cs b', fold_B (fun acc '(op, reverseRange) => more ← trimCandidates op reverseRange; mret (acc ++ more)) [] (zip us ranges) b = Ret (cs, b') /\
    Forall (on_line n) cs /\ serves b' d /\ only_tree b b'.
Proof.
  intros Hb Hus Hr.
  apply (fold_B_inv (fun cs b' => Forall (on_line n) cs /\ serves b' d /\ only_tree b b')
    (fun '(v, r) => vop_ok d v /\ 1 <= Range.startLineNumber r /\ Range.endLineNumber r <= n)).
  - intros acc [v r] b1 (Hv & Hr1 & Hr2) (Hacc & Hb1 & Hot).
    destruct (trimCandidates_ok b1 d v r n Hb1 Hv Hr1 Hr2) as (cs & b2 & H1 & H2 & H3 & H4). erewrite bbind_run by exact H1.
    eexists _, b2. split; [reflexivity |]. split; [by apply Forall_app |]. split; [done | by eapply only_tree_trans].
  - clear -Hus Hr. revert ranges Hr. induction Hus as [| v us Hv Hus IH]; intros [| r ranges] Hr; [constructor | constructor | constructor |].
    apply Forall_cons in Hr as [Hr1 Hr2]. constructor; [done | by apply IH].
  - split; [done |]. split; [done | apply only_tree_refl].
Qed.

(** The operations that are applied, after validation, sorting, the check and the
    reduction. *)
Lemma prepare_ok b d ops rs f :
  serves b d -> Forall2 (asks d) ops rs -> apart rs -> exists vs touching us,
    validateOps 0 ops f b = Ret ((foldl flagsOf f ops, vs), b) /\
    touchingRanges (js_sort _sortOpsAscending vs) b = Ret (touching, b) /\
    (if canReduceOperations (foldl flagsOf f ops) then _reduceOperations (js_sort _sortOpsAscending vs)
     else mret (js_sort _sortOpsAscending vs)) b = Ret (us, b) /\
    reduced d (js_sort _sortOpsAscending vs) us /\ rep <$> js_sort _sortOpsAscending vs = js_sort by_end rs /\
    chain 0 (zlen (Doc.content d)) (js_sort by_end rs) /\
    (touching = false -> StronglySorted (fun v w => to (rep v) < from (rep w)) us).
Proof.
  intros Hb Hops Hap. destruct (validateOps_ok b d ops rs Hb Hops 0 f) as (vs & H1 & H2 & H3 & H4 & _).
  destruct (sortAscending_ok d vs H2 H4) as [Hso Hrep]. rewrite H3 in Hrep. set (ws := js_sort _sortOpsAscending vs) in *.
  assert (chain 0 (zlen (Doc.content d)) (js_sort by_end rs)) as Hc.
  { assert (Forall (inside (zlen (Doc.content d))) (js_sort by_end rs)) as Hin.
    { rewrite <- Hrep, Forall_fmap. eapply Forall_impl; [apply Hso |]. apply vop_inside. }
    apply sorted_apart_chain; [apply zlen_nonneg | done | | |].
    - eapply Forall_impl; [exact Hin |]. intros r [? ?]. lia.
    - apply js_sort_sorted; [apply by_end_total | apply by_end_trans].
    - eapply apart_perm; [| exact Hap]. by rewrite js_sort_perm. }
  rewrite <- Hrep in Hc. destruct (touchingRanges_ok b d ws 0 (so_ok _ _ Hso) Hc) as (touching & Ht & Hsep).
  assert (exists us, (if canReduceOperations (foldl flagsOf f ops) then _reduceOperations ws else mret ws) b = Ret (us, b) /\ reduced d ws us)
    as (us & Hus & Hred).
  { destruct (canReduceOperations _); [by apply reduceOperations_ok |]. exists ws. split; [done |]. constructor; auto. }
  exists vs, touching, us. rewrite <- Hrep. split_and!; try done.
  intros Htf. destruct (rd_same _ _ _ Hred) as [-> | [u ->]]; [by apply Hsep | repeat constructor].
Qed.

Lemma inverse_ranges_ok d us :
  (Doc.eol d = [LineFeed] \/ Doc.eol d = [CarriageReturn; LineFeed]) -> normal (Doc.eol d) (Doc.content d) ->
  Forall (vop_ok d) us -> chain 0 (zlen (Doc.content d)) (rep <$> us) ->
  let str' := patch 0 (rep <$> us) (Doc.content d) in
  Forall2 (fun range c => spans str' range (newPosition c) (newEnd c)) (_getInverseEditRanges us) (changes_of 0 (rep <$> us) (Doc.content d)) /\
  Forall (fun r => 1 <= Range.startLineNumber r /\ Range.endLineNumber r <= 1 + breaks str') (_getInverseEditRanges us).
Proof.
  intros Heol Hn Hus Hc str'. pose proof (inverseRanges_ok d us Heol Hn Hus [] 0 None eq_refl ltac:(lia) eq_refl Hc eq_refl) as H.
  change (zlen [] - 0) with 0 in H. change ([] ++ patch 0 (rep <$> us) (Doc.content d)) with str' in H. split; [exact H |].
  clear -H. unfold _getInverseEditRanges. induction H as [| r c ranges cs [H1 H2 _] H IH]; [constructor |]. constructor; [| done].
  pose proof (at_line _ _ _ _ (place_at _ _ _ _ H1)). pose proof (at_line _ _ _ _ (place_at _ _ _ _ H2)). lia.
Qed.

(** The inverse operations. *)
Lemma reverse_ok b d us touching ranges :
  let str' := patch 0 (rep <$> us) (Doc.content d) in let cs := changes_of 0 (rep <$> us) (Doc.content d) in
  serves b d -> Forall (vop_ok d) us -> chain 0 (zlen (Doc.content d)) (rep <$> us) -> edits 0 0 cs (Doc.content d) str' ->
  Forall2 (fun range c => spans str' range (newPosition c) (newEnd c)) ranges cs ->
  (touching = false -> StronglySorted (fun v w => to (rep v) < from (rep w)) us) ->
  exists revs, reverseOps us ranges 0 b = Ret (revs, b) /\
    needed (undo_rep <$> returned touching revs) <= zlen (Doc.content d) + needed (rep <$> us) /\
    forall d', Doc.content d' = str' -> Doc.eol d' = Doc.eol d -> undoes d d' (returned touching revs).
Proof.
  intros str' cs Hb Hus Hc He Hr Ht. pose proof (serves_eol _ _ Hb) as Heol. pose proof (serves_normal _ _ Hb) as Hn.
  assert (length ranges = length us) as Hlen.
  { rewrite (Forall2_length _ _ _ Hr). unfold cs. generalize 0 as delta. clear. induction us as [| v us IH]; intros delta; [done |]. cbn. by rewrite IH. }
  destruct (reverseOps_ok b d us Hb Hus ranges 0 Hlen) as (revs & H1 & Hiv). fold cs in Hiv. exists revs. split; [done |]. split.
  - rewrite (needed_perm _ (undo_rep <$> revs)) by (by rewrite returned_perm).
    replace (undo_rep <$> revs) with ((fun c => rep_of (inverse c)) <$> cs) by (rewrite <- (iv_changes _ _ _ Hiv), <- list_fmap_compose; done).
    etransitivity; [by apply needed_old |]. lia.
  - intros d' Hd' Heq. destruct (undo_sorted touching revs us (Doc.content d) str' (iv_changes _ _ _ Hiv) Hc He Ht) as [U1 U2].
    constructor; rewrite ?Hd'; [| | done | done].
    + rewrite (textChangesOf_returned touching revs us (Doc.content d) _ (iv_changes _ _ _ Hiv) Hc Ht). done.
    + rewrite returned_perm. eapply undo_asks; [exact Hiv | | by rewrite Hd'].
      rewrite Heq. by apply changes_old_normal.
Qed.

Lemma applyEdits_ok b d ops rs record compute :
  serves b d -> Forall2 (asks d) ops rs -> apart rs -> Doc.used d + zlen (Doc.content d) + needed rs + 8 < limit ->
  exists result b' d', applyEdits ops record compute b = Ret (result, b') /\ outcome b d rs result b' d' /\
    match ApplyEditsResult.reverseEdits result with
    | Some revs => compute = true /\ undoes d d' revs /\ needed (undo_rep <$> revs) <= 2 * zlen (Doc.content d) + needed rs + 8
    | None => compute = false
    end /\
    _mightContainNonBasicASCII b' =
      fNonASCII (foldl flagsOf (mkFlags (_mightContainRTL b) (_mightContainUnusualLineTerminators b) (_mightContainNonBasicASCII b) true) ops).
Proof.
  intros Hb Hops Hap Hroom. pose proof (serves_eol _ _ Hb) as Heol. pose proof (serves_normal _ _ Hb) as Hn.
  unfold applyEdits. do 3 erewrite bbind_run by reflexivity.
  set (f := mkFlags (_mightContainRTL b) _ _ true).
  destruct (prepare_ok b d ops rs f Hb Hops Hap) as (vs & touching & us & P1 & P2 & P3 & P4 & P5 & P6 & P7).
  set (ws := js_sort _sortOpsAscending vs) in *. pose proof P4 as [Hso Hc Hpatch _].
  erewrite bbind_run by exact P1. cbv iota beta. erewrite bbind_run by exact P2. erewrite bbind_run by exact P3.
  destruct (inverse_ranges_ok d us Heol Hn (so_ok _ _ Hso) Hc) as [Hinv Hlines].
  set (str' := patch 0 (rep <$> us) (Doc.content d)) in *. set (cs := changes_of 0 (rep <$> us) (Doc.content d)) in *.
  assert (edits 0 0 cs (Doc.content d) str') as Hedits.
  { pose proof (edits_of_chain 0 0 _ _ (Doc.content d) eq_refl ltac:(lia) Hc) as He. by rewrite zdrop_0 in He. }
  set (ranges := if compute || record then _getInverseEditRanges us else []).
  assert (exists cands b1, (if record then fold_B (fun acc '(op, reverseRange) => more ← trimCandidates op reverseRange; mret (acc ++ more)) [] (zip us ranges)
     else mret []) b = Ret (cands, b1) /\ Forall (on_line (1 + breaks str')) cands /\ serves b1 d /\ only_tree b b1) as (cands & b1 & C1 & C2 & C3 & C4).
  { destruct record; [| exists [], b; split_and!; [done | done | done | apply only_tree_refl]]. subst ranges. rewrite orb_true_r.
    apply candidates_ok; [done | apply Hso | done]. }
  erewrite bbind_run by exact C1.
  assert (needed (rep <$> us) <= zlen (Doc.content d) + needed rs + 8) as Hneed.
  { rewrite <- (needed_perm _ _ (js_sort_perm by_end rs)), <- P5. apply reduced_needed; [done | by rewrite P5]. }
  assert (exists reverse, (if compute then revs ← reverseOps us ranges 0; mret (Some (returned touching revs)) else mret None) b1 = Ret (reverse, b1) /\
    match reverse with
    | Some revs => compute = true /\ needed (undo_rep <$> revs) <= 2 * zlen (Doc.content d) + needed rs + 8 /\
        forall d', Doc.content d' = str' -> Doc.eol d' = Doc.eol d -> undoes d d' revs
    | None => compute = false
    end) as (reverse & R1 & R2).
  { destruct compute; [| by exists None]. subst ranges. cbn [orb].
    destruct (reverse_ok b1 d us touching _ C3 (so_ok _ _ Hso) Hc Hedits Hinv P7) as (revs & K1 & K2 & K3).
    exists (Some (returned touching revs)). erewrite bbind_run by exact K1. split; [done |]. split_and!; [done | lia | done]. }
  erewrite bbind_run by exact R1. erewrite bbind_run by reflexivity.
  set (b2 := PieceTreeTextBuffer.mk (_pieceTree b1) _ _ _ _ _).
  assert (serves b2 d) as Hb2 by exact (serves_tree b1 b2 d eq_refl C3).
  destruct (applyRev_ok us b2 d 0 [] Hb2 (so_ok _ _ Hso) ltac:(lia) Hc ltac:(lia)) as (b3 & d' & changes & A1 & A2 & A3 & A4 & A5 & A6 & A7 & A8 & A9 & A10 & _).
  erewrite bbind_run by (unfold _doApplyEdits; rewrite (sortDescending_ok d us Hso); exact A1). cbn [app].
  change (Doc.content d' = str') in A5. rewrite <- A5 in C2.
  assert (exists trim b4, (if record && (0 <? zlen cands) then
      lines ← trimLines None (js_sort (fun a b => fst b - fst a) cands); mret (Some lines) else mret None) b3 = Ret (trim, b4) /\
      serves b4 d' /\ only_tree b3 b4 /\ forall lines, trim = Some lines -> Forall (trailing (Doc.content d')) lines) as (trim & b4 & T1 & T2 & T3 & T4).
  { destruct (_ && _); [| exists None, b3; split_and!; [done | done | apply only_tree_refl | done]].
    destruct (trimLines_ok d' (js_sort (fun a b => fst b - fst a) cands) ltac:(by rewrite js_sort_perm) None b3 A2) as (lines & b4 & L1 & L2 & L3 & L4).
    erewrite bbind_run by exact L1. exists (Some lines), b4. split_and!; [done | done | done | by intros ? [= ->]]. }
  erewrite bbind_run by exact T1. erewrite bbind_run by reflexivity.
  eexists _, _, d'. split; [reflexivity |].
  assert (_BOM b4 = _BOM b /\ _onDidChangeContent b4 = _onDidChangeContent b /\
    _mightContainNonBasicASCII b4 = fNonASCII (foldl flagsOf f ops)) as (HB & HE & HF).
  { unfold only_tree in *. rewrite T3, A3. cbn. by rewrite C4. }
  assert (Doc.content d' = str') as Hcont by done. split; [| split; [| exact HF]].
  - constructor; cbn; [eapply (serves_tree b4); [reflexivity | exact T2] | by rewrite Hcont, Hpatch, P5 | done | | lia | done | by rewrite HE | done | done | done | exact (Z.le_trans _ _ _ A9 Hneed) | done].
    pose proof (zlen_patch 0 _ _ (Doc.content d) eq_refl ltac:(lia) P6) as Hz.
    rewrite (needed_perm _ _ (js_sort_perm by_end rs)), <- P5, <- Hpatch in Hz. rewrite Hcont. lia.
  - cbn [ApplyEditsResult.reverseEdits]. destruct reverse as [revs |]; [| done]. destruct R2 as (R2 & R3 & R4). auto.
Qed.

Lemma overlaps_throw b d ops rs recordTrimAutoWhitespace computeUndoEdits :
  serves b d -> Forall2 (asks d) ops rs ->
  (exists i j r1 r2, i <> j /\ rs !! i = Some r1 /\ rs !! j = Some r2 /\ overlap r1 r2) ->
  applyEdits ops recordTrimAutoWhitespace computeUndoEdits b = Throw Error.
Proof.
  intros Hb Hops (i & j & r1 & r2 & Hij & Hi & Hj & Ho). unfold applyEdits. do 3 erewrite bbind_run by reflexivity.
  set (f := mkFlags (_mightContainRTL b) _ _ true). destruct (validateOps_ok b d ops rs Hb Hops 0 f) as (vs & H1 & H2 & H3 & H4 & _).
  erewrite bbind_run by exact H1. cbv iota beta. apply bbind_throw. destruct (sortAscending_ok d vs H2 H4) as [Hso Hrep]. rewrite H3 in Hrep.
  apply (touchingRanges_throws b d _ 0); [apply Hso | | apply zlen_nonneg |].
  - intros v Hv. pose proof (so_ok _ _ Hso) as Hok. destruct (js_sort _sortOpsAscending vs) as [| w ws]; [done |]. injection Hv as ->.
    apply Forall_inv, vop_inside in Hok as [? ?]. lia.
  - rewrite Hrep. intros Hap%chain_sorted_apart. apply (apart_perm _ rs) in Hap; [| apply js_sort_perm]. by apply (Hap i j r1 r2).
Qed.

(** ** The theorems *)

(** C6: a batch of edits takes effect as simultaneous replacements.  Let a text
    buffer serve a document whose line breaks are normalized, and let the edits of a
    batch, in any order, ask for replacements between places of the document no two
    of which overlap (touching is allowed).  Then [applyEdits], whatever its two flags,
    ends without an exception; the text is then the old one with every range replaced
    by its new text (the line breaks of the new texts in the form of the document;
    edits at one place in the order of their ends, then starts, then of the batch);
    the text buffer serves that document, so the next batch can follow; the byte
    order mark and the line end stay, the change event has fired once, and the content
    changes it tells, made one after the other, lead from the old text to the new; the
    lines reported for trimming are lines of the new text with whitespace only. *)
Theorem applyEdits_replaces b d ops rs recordTrimAutoWhitespace computeUndoEdits :
  serves b d -> Forall2 (asks d) ops rs -> apart rs -> Doc.used d + zlen (Doc.content d) + needed rs + 8 < limit ->
  let str' := patch 0 (js_sort by_end rs) (Doc.content d) in
  exists result b' d',
    applyEdits ops recordTrimAutoWhitespace computeUndoEdits b = Ret (result, b') /\
    getLinesRawContent (_pieceTree b') = Ret (str', _pieceTree b') /\
    getLineCount (_pieceTree b') = Ret (1 + breaks str', _pieceTree b') /\
    serves b' d' /\ Doc.content d' = str' /\ Doc.eol d' = Doc.eol d /\ _BOM b' = _BOM b /\
    _onDidChangeContent b' = _onDidChangeContent b + 1 /\
    foldl splice (Doc.content d) (ApplyEditsResult.changes result) = str' /\
    (forall lines, ApplyEditsResult.trimAutoWhitespaceLineNumbers result = Some lines -> Forall (trailing str') lines).
Proof.
  intros Hb Hops Hap Hroom str'.
  destruct (applyEdits_ok b d ops rs recordTrimAutoWhitespace computeUndoEdits Hb Hops Hap Hroom) as (result & b' & d' & H1 & [H2 H3 H4 _ _ H6 H7 H8 _ _ _ H9] & _).
  fold str' in H3. rewrite H3 in *. exists result, b', d'. split; [done |].
  destruct (read_doc _ _ (st_doc (reachable_stands _ _ (sv_tree _ _ H2)))) as (R1 & _ & R3). rewrite H3 in R1, R3. done.
Qed.

(** The document "ab CR LF cd" with the last letters of its lines replaced, in two edits
    that touch, the later one first; its new text has a LF. *)
Definition sample_buffer : PieceTreeTextBuffer.t := PieceTreeTextBuffer.mk sample_store [] false false false 0.
Definition sample_doc : Doc.t := Doc.mk [97; 98; 13; 10; 99; 100] [CarriageReturn; LineFeed] true 0.
Definition sample_op (l1 c1 l2 c2 : Z) (text : option jsstring) : rawOp :=
  ValidAnnotatedEditOperation.mk None (Range.mk l1 c1 l2 c2) text false false false.
Definition sample_ops : list rawOp := [sample_op 2 1 2 2 (Some [120; 10; 121]); sample_op 1 2 2 1 None].
Definition sample_replacements : list replacement := [mkRep 4 5 [120; 13; 10; 121]; mkRep 1 4 []].

Lemma sample_serves : serves sample_buffer sample_doc.
Proof.
  constructor; [exact sample_reachable | reflexivity |]. intros _. split; [by right | by vm_compute].
Qed.

Lemma sample_asks op r l1 c1 l2 c2 :
  ValidAnnotatedEditOperation.range op = Range.mk l1 c1 l2 c2 -> from r <= to r ->
  bool_decide (place (Doc.content sample_doc) l1 c1 (from r)) = true -> bool_decide (place (Doc.content sample_doc) l2 c2 (to r)) = true ->
  new_text r = replace_eol (Doc.eol sample_doc) (default [] (ValidAnnotatedEditOperation.text op)) -> asks sample_doc op r.
Proof. intros Hr Hle H1%bool_decide_eq_true H2%bool_decide_eq_true Ht. constructor; [| done]. rewrite Hr. by constructor. Qed.

Lemma sample_asked : Forall2 (asks sample_doc) sample_ops sample_replacements.
Proof.
  constructor; [eapply sample_asks; [reflexivity | cbn; lia | by vm_compute | by vm_compute | reflexivity] |].
  constructor; [eapply sample_asks; [reflexivity | cbn; lia | by vm_compute | by vm_compute | reflexivity] | constructor].
Qed.

Lemma sample_apart : apart sample_replacements.
Proof. apply (apart_perm (js_sort by_end sample_replacements)); [apply js_sort_perm |]. apply (chain_sorted_apart 6). vm_compute. repeat split; discriminate. Qed.

Lemma applyEdits_replaces_witness :
  exists result b', applyEdits sample_ops false true sample_buffer = Ret (result, b') /\
    getLinesRawContent (_pieceTree b') = Ret ([97; 120; 13; 10; 121; 100], _pieceTree b').
Proof.
  destruct (applyEdits_replaces sample_buffer sample_doc sample_ops sample_replacements false true sample_serves sample_asked sample_apart)
    as (result & b' & d' & H1 & H2 & _); [reflexivity |].
  exists result, b'. split; [exact H1 | exact H2].
Defined.

(** C7: the inverse of a batch.  When [applyEdits] is asked for the inverse of a batch
    of edits that do not overlap, the text changes the undo stack makes of it lead from
    the old text to the new; and its operations are edits of the new document, at the
    ranges where the new texts now are: applied as a batch in turn they do not overlap
    and restore the old text. *)
Theorem applyEdits_inverse b d ops rs recordTrimAutoWhitespace :
  serves b d -> Forall2 (asks d) ops rs -> apart rs -> Doc.used d + 4 * (zlen (Doc.content d) + needed rs + 8) < limit ->
  exists result b' revs,
    applyEdits ops recordTrimAutoWhitespace true b = Ret (result, b') /\ ApplyEditsResult.reverseEdits result = Some revs /\
    edits 0 0 (textChangesOf revs) (Doc.content d) (patch 0 (js_sort by_end rs) (Doc.content d)) /\
    forall record compute, exists result2 b'',
      applyEdits (undo_op <$> revs) record compute b' = Ret (result2, b'') /\
      getLinesRawContent (_pieceTree b'') = Ret (Doc.content d, _pieceTree b'').
Proof.
  intros Hb Hops Hap Hroom. pose proof (needed_nonneg rs). pose proof (zlen_nonneg (Doc.content d)).
  destruct (applyEdits_ok b d ops rs recordTrimAutoWhitespace true Hb Hops Hap ltac:(lia)) as (result & b' & d' & H1 & [H2 H3 H4 Hz H5 _ _ _ _ _ _ _] & H6 & _).
  destruct (ApplyEditsResult.reverseEdits result) as [revs |] eqn:Hrev; [| done]. destruct H6 as (_ & [U1 U2 U3 U4] & Hneed).
  exists result, b', revs. rewrite H3 in U1. split_and!; [done | done | done |]. intros record compute.
  destruct (applyEdits_ok b' d' (undo_op <$> revs) (undo_rep <$> revs) record compute H2) as (result2 & b'' & d'' & K1 & [K2 K3 _ _ _ _ _ _ _ _ _ _] & _).
  - clear -U2. induction U2 as [| r revs Hr Hrevs IH]; [constructor |]. rewrite !fmap_cons. by constructor.
  - eapply apart_perm; [apply js_sort_perm |]. by eapply chain_sorted_apart.
  - lia.
  - exists result2, b''. split; [done |]. rewrite U3 in K3. rewrite <- K3.
    by destruct (read_doc _ _ (st_doc (reachable_stands _ _ (sv_tree _ _ K2)))) as (R1 & _ & _).
Qed.

Lemma applyEdits_inverse_witness :
  exists result b' revs, applyEdits sample_ops false true sample_buffer = Ret (result, b') /\
    ApplyEditsResult.reverseEdits result = Some revs /\
    exists result2 b'', applyEdits (undo_op <$> revs) false false b' = Ret (result2, b'') /\
      getLinesRawContent (_pieceTree b'') = Ret ([97; 98; 13; 10; 99; 100], _pieceTree b'').
Proof.
  destruct (applyEdits_inverse sample_buffer sample_doc sample_ops sample_replacements false sample_serves sample_asked sample_apart)
    as (result & b' & revs & H1 & H2 & _ & H3); [reflexivity |].
  exists result, b', revs. split; [exact H1 |]. split; [exact H2 |]. exact (H3 false false).
Defined.

(** C29: overlapping edits are refused.  When two edits of a batch overlap, [applyEdits]
    throws an error, whatever the other edits, their order and the flags. *)
Theorem applyEdits_refuses_overlaps b d ops rs recordTrimAutoWhitespace computeUndoEdits :
  serves b d -> Forall2 (asks d) ops rs ->
  (exists i j r1 r2, i <> j /\ rs !! i = Some r1 /\ rs !! j = Some r2 /\ overlap r1 r2) ->
  applyEdits ops recordTrimAutoWhitespace computeUndoEdits b = Throw Error.
Proof. apply overlaps_throw. Qed.

Lemma sample_overlap :
  Forall2 (asks sample_doc) [sample_op 1 2 2 1 None; sample_op 1 1 1 3 (Some [120])] [mkRep 1 4 []; mkRep 0 2 [120]].
Proof.
  constructor; [eapply sample_asks; [reflexivity | cbn; lia | by vm_compute | by vm_compute | reflexivity] |].
  constructor; [eapply sample_asks; [reflexivity | cbn; lia | by vm_compute | by vm_compute | reflexivity] | constructor].
Qed.

Lemma applyEdits_refuses_overlaps_witness :
  applyEdits [sample_op 1 2 2 1 None; sample_op 1 1 1 3 (Some [120])] true false sample_buffer = Throw Error.
Proof.
  apply (applyEdits_refuses_overlaps sample_buffer sample_doc _ _ true false sample_serves sample_overlap).
  exists 0%nat, 1%nat, (mkRep 1 4 []), (mkRep 0 2 [120]). split; [discriminate |]. split; [reflexivity |]. split; [reflexivity |].
  split; reflexivity.
Defined.
