(* ===== verification/TextBufferSession.v ===== *)
(** * Text buffers in use

    The text buffers a program obtains by loading a file with normalized line breaks,
    applying batches of edits, changing the line end and reading lines: each serves the
    document the same edits make of the file's text, and its ASCII flag is right. *)

From stdpp Require Import gmap.
From S2P Require Import Prelude Position Range Buffer TextChange RBTree RBTreeRep RBTreeOps RBTreeInsert RBTreeDelete RBTreeRemove.
From S2P Require Import PieceBuffers PieceTree PieceTreeEdit PieceTreeNodes PieceTreeRead PieceTreeList PieceTreeText.
From S2P Require Import PieceTreePieces PieceTreeChange PieceTreeSeal PieceTreeInsert PieceTreeDocument.
From S2P Require Import PieceTreeErase PieceTreeCreate PieceTreeChars PieceTreeLines PieceTreeRange PieceTreeContent PieceTreeSession.
From S2P Require Import Strings TextBuffer TextBufferBuilder TextBufferLoad TextBufferSort TextEdits TextBufferEdits TextBufferInverse TextBufferApply.
Import PieceTreeTextBuffer.
Module Builder := PieceTreeTextBufferBuilder.
Module Factory := PieceTreeTextBufferFactory.

(** ** Basic ASCII *)

Definition ascii_unit (c : Z) : Prop := c = Tab \/ c = LineFeed \/ c = CarriageReturn \/ 32 <= c <= 126.
Notation ascii := (Forall ascii_unit).

Lemma isBasicASCII_ok str : strings.isBasicASCII str = true <-> ascii str.
Proof.
  unfold strings.isBasicASCII. rewrite forallb_forall, List.Forall_forall. unfold ascii_unit.
  split; intros H c Hc; specialize (H c Hc); cbn beta in *; rewrite !orb_true_iff, !Z.eqb_eq, andb_true_iff, !Z.leb_le in *; tauto.
Qed.

Lemma ascii_replace eol str : eol = [LineFeed] \/ eol = [CarriageReturn; LineFeed] -> ascii str -> ascii (replace_eol eol str).
Proof.
  intros Heol. assert (ascii eol) as He by (destruct Heol as [-> | ->]; repeat constructor; unfold ascii_unit; auto).
  pattern str. apply text_ind.
  - done.
  - intros br k Hbr Hs IH [_ Hk]%Forall_app. rewrite replace_eol_app by done. apply Forall_app. split; [| by apply IH].
    destruct Hbr as [-> | [-> | ->]]; cbn; by rewrite ?app_nil_r.
  - intros c k H1 H2 IH [Hc Hk]%Forall_cons. rewrite replace_eol_cons, (proj2 (Z.eqb_neq _ _) H1), (proj2 (Z.eqb_neq _ _) H2).
    constructor; [done | by apply IH].
Qed.

Lemma ascii_slice str a b : ascii str -> ascii (slice str a b).
Proof. intros H. by apply Forall_drop, Forall_take. Qed.

Lemma ascii_patch rs str : ascii str -> Forall (fun r => ascii (new_text r)) rs -> forall o, ascii (patch o rs str).
Proof.
  intros Hs. induction 1 as [| r rs Hr Hrs IH]; intros o; cbn [patch]; [by apply Forall_drop |].
  apply Forall_app. split; [by apply ascii_slice |]. apply Forall_app. by split.
Qed.

(** The flags of a batch: when it stays off, every new text is basic ASCII. *)
Lemma flags_ascii ops : forall f, fNonASCII (foldl flagsOf f ops) = false ->
  fNonASCII f = false /\ Forall (fun op => ascii (default [] (ValidAnnotatedEditOperation.text op))) ops.
Proof.
  induction ops as [| op ops IH]; intros f; cbn [foldl]; [by split |]. intros [Hf Hops]%IH. unfold flagsOf in Hf.
  destruct (ValidAnnotatedEditOperation.text op) as [[| u text] |] eqn:Ht; cbn [truthy_text] in Hf.
  - split; [done |]. constructor; [by rewrite Ht | done].
  - destruct (fNonASCII f) eqn:Hff; cbn in Hf; [done |]. split; [done |]. constructor; [| done]. rewrite Ht.
    apply isBasicASCII_ok. by apply negb_false_iff in Hf.
  - split; [done |]. constructor; [by rewrite Ht | done].
Qed.

(** ** The ASCII flag of a loaded file *)

Definition noted (b : Builder.t) : Prop := Builder.isBasicASCII b = true -> ascii (chunks_text (Builder.chunks b)).

Lemma createLineStarts_ascii str : PieceBuffers.isBasicASCII (createLineStarts str) = true -> ascii str.
Proof.
  destruct (countLineStarts_loop_counts str 0 (mkLineStarts [0] 0 0 0 true)) as [_ Hasc]. unfold createLineStarts. cbn [PieceBuffers.isBasicASCII] in *.
  rewrite Hasc. intros [_ H]. exact H.
Qed.

Lemma acceptChunk2_noted k b : noted b -> noted (Builder._acceptChunk2 k b).
Proof.
  unfold noted, Builder._acceptChunk2. cbn [Builder.isBasicASCII Builder.chunks]. intros Hb Ha.
  destruct (PieceBuffers.isBasicASCII (createLineStarts k)) eqn:Hk; cbn [negb] in Ha; [| done].
  rewrite chunks_text_snoc. apply Forall_app. split; [by apply Hb |]. by apply createLineStarts_ascii.
Qed.

Lemma acceptChunk1_noted k flag b : noted b -> noted (Builder._acceptChunk1 k flag b).
Proof. intros Hb. unfold Builder._acceptChunk1. destruct (_ && _); [done |]. destruct (Builder._hasPreviousChar b); by apply acceptChunk2_noted. Qed.

Lemma acceptChunk_noted k b : noted b -> noted (Builder.acceptChunk k b).
Proof.
  intros Hb. unfold Builder.acceptChunk. destruct (_ === 0); [done |].
  assert (forall c, noted (fst (if (zlen (Builder.chunks b) === 0) && strings.startsWithUTF8BOM c then (Builder.set_BOM [strings.UTF8_BOM] b, js_substr_from c 1) else (b, c)))) as H
    by (intros c; by destruct (_ && _)).
  specialize (H k). destruct (if _ && _ then _ else _) as [b1 k1]. cbn [fst] in H.
  destruct (_ || _); exact (acceptChunk1_noted _ false b1 H).
Qed.

Lemma load_noted cs : noted (load cs).
Proof.
  unfold load. assert (noted Builder.new) as H by (intros _; constructor). revert H. generalize Builder.new.
  induction cs as [| c cs IH]; intros b Hb; cbn [foldl]; [done |]. by apply IH, acceptChunk_noted.
Qed.

Lemma finish_ascii b str :
  took b str -> Builder.chunks b <> [] \/ Builder._hasPreviousChar b = false -> noted b ->
  (forall c, last str = Some c -> strings.isHighSurrogate c = false) ->
  Builder.isBasicASCII (Builder._finish b) = true -> ascii str.
Proof.
  intros Ht Hor Hn Hlast. pose proof (tk_text _ _ Ht) as Hs. destruct (decide (Builder.chunks b = [])) as [Hnil | Hne].
  - destruct Hor as [? | Hno]; [done |]. unfold held in Hs. rewrite Hno, Hnil in Hs. intros _. rewrite <- Hs. constructor.
  - unfold Builder._finish. rewrite (proj2 (Z.eqb_neq (zlen (Builder.chunks b)) 0)) by (by intros ?%zlen_0).
    rewrite <- Hs, Forall_app. unfold held in *. destruct (Builder._hasPreviousChar b) eqn:Hhas; cbn [Builder.isBasicASCII]; intros Ha;
      (split; [by apply Hn |]); [| constructor]. constructor; [| constructor].
    pose proof (tk_held _ _ Ht Hhas) as Hk. unfold kept_back in Hk. apply orb_true_iff in Hk as [->%Z.eqb_eq | Hk]; [unfold ascii_unit; auto |].
    specialize (Hlast (Builder._previousChar b)). rewrite <- Hs, last_snoc in Hlast. unfold strings.isHighSurrogate in Hlast.
    rewrite Hlast in Hk by done. done.
Qed.

(** ** Text buffers in use *)

(** The document after a batch. *)
Definition after_batch (d : Doc.t) (rs : list replacement) : Doc.t :=
  Doc.mk (patch 0 (js_sort by_end rs) (Doc.content d)) (Doc.eol d) true (Doc.used d + zlen (Doc.content d) + needed rs + 8).

(** Each text buffer with the document it should serve ([Doc.used] bounds what its
    edits have taken of the change buffer). *)
Inductive opened : PieceTreeTextBuffer.t -> Doc.t -> Prop :=
  | opened_file cs defaultEOL tb f :
      let str := strip_bom (mjoin cs) in let eol := majority_eol (kinds_of str) defaultEOL in
      proper_split cs = true -> zlen (mjoin cs) < limit -> zlen (replace_eol eol str) < limit ->
      (forall c, last str = Some c -> strings.isHighSurrogate c = false) ->
      Factory.create (finish true (load cs)) defaultEOL = Ret (tb, f) ->
      opened tb (Doc.mk (replace_eol eol str) eol true 0)
  | opened_batch b d ops rs recordTrimAutoWhitespace computeUndoEdits result b' :
      opened b d -> Forall2 (asks d) ops rs -> apart rs -> Doc.used d + zlen (Doc.content d) + needed rs + 8 < limit ->
      applyEdits ops recordTrimAutoWhitespace computeUndoEdits b = Ret (result, b') -> opened b' (after_batch d rs)
  | opened_eol b d eol b' :
      opened b d -> eol = [LineFeed] \/ eol = [CarriageReturn; LineFeed] -> zlen (replace_eol eol (Doc.content d)) < limit ->
      TextBuffer.setEOL eol b = Ret (tt, b') -> opened b' (Doc.mk (replace_eol eol (Doc.content d)) eol true 0)
  | opened_line b d n value b' :
      opened b d -> 1 <= n <= 1 + breaks (Doc.content d) -> tree (getLineContent n) b = Ret (value, b') -> opened b' d.

(** What every such text buffer keeps. *)
Record in_order (b : PieceTreeTextBuffer.t) (d : Doc.t) : Prop := mkorder {
  od_serves : exists d0, serves b d0 /\ Doc.content d0 = Doc.content d /\ Doc.eol d0 = Doc.eol d /\ Doc.used d0 <= Doc.used d;
  od_ascii : _mightContainNonBasicASCII b = false -> ascii (Doc.content d)
}.

Lemma asks_same d d0 op r : Doc.content d0 = Doc.content d -> Doc.eol d0 = Doc.eol d -> asks d op r -> asks d0 op r.
Proof. intros Hc He [H1 H2]. constructor; [by rewrite Hc | by rewrite He]. Qed.

Lemma batch_in_order b d ops rs record compute result b' :
  in_order b d -> Forall2 (asks d) ops rs -> apart rs -> Doc.used d + zlen (Doc.content d) + needed rs + 8 < limit ->
  applyEdits ops record compute b = Ret (result, b') -> in_order b' (after_batch d rs).
Proof.
  intros [(d0 & Hs & Hc & He & Hu) Ha] Hops Hap Hroom Hrun.
  destruct (applyEdits_ok b d0 ops rs record compute Hs) as (result2 & b2 & d2 & H1 & [O1 O2 O3 _ O5 _ _ _ _ _ _ _] & _ & H3);
    [by eapply Forall2_impl; [exact Hops | intros; by eapply asks_same] | done | rewrite Hc; lia |].
  rewrite Hrun in H1. injection H1 as <- <-. constructor.
  - exists d2. rewrite Hc in O2. split_and!; [done | by rewrite O2 | by rewrite O3, He | cbn; rewrite Hc in O5; lia].
  - rewrite H3. intros [Hf Hasc]%flags_ascii. apply ascii_patch; [by apply Ha |]. rewrite js_sort_perm.
    pose proof (serves_eol _ _ Hs) as Heol. rewrite He in Heol. clear -Hops Hasc Heol.
    induction Hops as [| op r ops rs [_ Ht] Hops IH]; [constructor |]. apply Forall_cons in Hasc as [Ho Hos].
    constructor; [| by apply IH]. rewrite Ht. by apply ascii_replace.
Qed.

Lemma eol_in_order b d eol b' :
  in_order b d -> eol = [LineFeed] \/ eol = [CarriageReturn; LineFeed] -> zlen (replace_eol eol (Doc.content d)) < limit ->
  TextBuffer.setEOL eol b = Ret (tt, b') -> in_order b' (Doc.mk (replace_eol eol (Doc.content d)) eol true 0).
Proof.
  intros [(d0 & Hs & Hc & He & Hu) Ha] Heol Hlt Hrun. unfold limit in Hlt.
  set (d' := Doc.mk (replace_eol eol (Doc.content d)) eol true 0).
  destruct (perform_b b d0 (Doc.SetEOL eol) d' Hs) as (b2 & H1 & H2 & H3).
  - cbn [Doc.apply]. rewrite Hc, (proj2 (Z.ltb_lt _ _)) by done. destruct Heol as [-> | ->]; done.
  - done.
  - eapply promise_of; [done | done | done |]. by apply replace_eol_idem.
  - change (tree (perform (Doc.SetEOL eol)) b) with (TextBuffer.setEOL eol b) in H1. rewrite Hrun in H1. injection H1 as <-.
    constructor; [by exists d' |]. unfold only_tree in H3. rewrite H3. cbn. intros Hf. apply ascii_replace; [done | by apply Ha].
Qed.

Lemma opened_in_order b d : opened b d -> in_order b d.
Proof.
  induction 1 as [cs defaultEOL tb f str eol Hp Hlt Hlt2 Hlast Hcreate | b d ops rs record compute result b' _ IH Hops Hap Hroom Hrun
    | b d eol b' _ IH Heol Hlt Hrun | b d n value b' _ IH Hn Hrun].
  - destruct (load_ok cs true defaultEOL Hp Hlt Hlt2) as (tb2 & f2 & H1 & _ & _ & _ & _ & H2 & H3 & H4 & H5).
    rewrite Hcreate in H1. injection H1 as <- <-. fold str in H4, H2. fold eol in H2. pose proof (majority_eol_ok (kinds_of str) defaultEOL) as Heol. constructor.
    + eexists. split; [constructor; [exact H2 | done |] | done]. eapply promise_of; [done | done | done |]. by apply replace_eol_idem.
    + rewrite H3. intros Hb%negb_false_iff. apply ascii_replace; [done |]. by eapply finish_ascii; [| | apply load_noted | |].
  - by eapply batch_in_order.
  - by eapply eol_in_order.
  - destruct IH as [(d0 & Hs & Hc & He & Hu) Ha]. destruct (getLine_b b d0 n Hs) as (b2 & H1 & H2 & H3); [by rewrite Hc |].
    rewrite Hrun in H1. injection H1 as _ <-. constructor; [by exists d0 |]. unfold only_tree in H3. rewrite H3. done.
Qed.

(** ** The theorem *)

(** C17: the invariant of text buffers in use.  Every text buffer a program obtains by
    loading a file with normalized line breaks and then applying batches of edits that
    do not overlap, changing the line end and reading lines, in any order: reads as the
    document the same edits make of the text of the file, with its length, line count
    and line end; every line break of the text is that line end; a line reads as the
    text of the line; when [mightContainNonBasicASCII] says no, the text is basic
    ASCII (given that the file does not end in a lone high surrogate); and the next
    such batch does not throw. *)
Theorem text_buffers_in_order b d :
  opened b d -> let s := _pieceTree b in let str := Doc.content d in
  getLinesRawContent s = Ret (str, s) /\ getLength s = Ret (zlen str, s) /\ getLineCount s = Ret (1 + breaks str, s) /\
  getEOL s = Ret (Doc.eol d, s) /\ replace_eol (Doc.eol d) str = str /\
  (forall n, 1 <= n <= 1 + breaks str -> exists s', getLineContent n s = Ret (line_text str n, s')) /\
  (mightContainNonBasicASCII b = Ret (false, b) -> strings.isBasicASCII str = true) /\
  (forall ops rs record compute, Forall2 (asks d) ops rs -> apart rs -> Doc.used d + zlen str + needed rs + 8 < limit ->
     exists result b', applyEdits ops record compute b = Ret (result, b') /\ opened b' (after_batch d rs)).
Proof.
  intros Ho s str. destruct (opened_in_order b d Ho) as [(d0 & Hs & Hc & He & Hu) Ha].
  pose proof (reachable_stands _ _ (sv_tree _ _ Hs)) as Hst. destruct (read_doc _ _ (st_doc Hst)) as (R1 & R2 & R3). rewrite Hc in R1, R2, R3.
  split_and!; [done | done | done | | | | |].
  - unfold getEOL, gets, s. by rewrite (st_eol _ _ Hst), He.
  - pose proof (serves_normal _ _ Hs) as Hn. by rewrite He, Hc in Hn.
  - intros n Hn. destruct (read_line_ok _ _ n Hst (sv_promise _ _ Hs) ltac:(by rewrite Hc)) as (s' & H & _). rewrite Hc in H. by exists s'.
  - intros Hf. apply isBasicASCII_ok, Ha. by injection Hf.
  - intros ops rs record compute Hops Hap Hroom.
    destruct (applyEdits_ok b d0 ops rs record compute Hs) as (result & b' & d2 & H1 & _);
      [by eapply Forall2_impl; [exact Hops | intros; by eapply asks_same] | done | rewrite Hc; unfold str in Hroom; lia |].
    exists result, b'. split; [done |]. by eapply opened_batch.
Qed.

(** A file "a LF b"; then its first letter is replaced by "x CR y". *)
Definition sample_file : list jsstring := [[97; 10]; [98]].
Definition sample_text_buffer : PieceTreeTextBuffer.t :=
  match Factory.create (finish true (load sample_file)) DefaultCRLF with
  | Ret (tb, _) => tb
  | Throw _ => sample_buffer
  end.

Lemma sample_opened : opened sample_text_buffer (Doc.mk [97; 10; 98] [LineFeed] true 0).
Proof.
  assert (exists f, Factory.create (finish true (load sample_file)) DefaultCRLF = Ret (sample_text_buffer, f)) as [f Hf]
    by (eexists; by vm_compute).
  apply (opened_file sample_file DefaultCRLF sample_text_buffer f); [reflexivity | reflexivity | reflexivity | by intros ? [= <-] | exact Hf].
Qed.

Lemma text_buffers_in_order_witness :
  (exists s', getLineContent 2 (_pieceTree sample_text_buffer) = Ret ([98], s')) /\
  exists result b', applyEdits [sample_op 1 1 1 2 (Some [120; 13; 121])] false false sample_text_buffer = Ret (result, b') /\
    opened b' (after_batch (Doc.mk [97; 10; 98] [LineFeed] true 0) [mkRep 0 1 [120; 10; 121]]).
Proof.
  destruct (text_buffers_in_order _ _ sample_opened) as (_ & _ & _ & _ & _ & H1 & _ & H2).
  split; [apply (H1 2); split; [discriminate | discriminate] |].
  apply H2; [| | reflexivity].
  - constructor; [| constructor]. constructor; [| reflexivity].
    constructor; [apply (bool_decide_unpack _); vm_compute; exact I | apply (bool_decide_unpack _); vm_compute; exact I | discriminate].
  - apply (chain_sorted_apart 3). repeat split; discriminate.
Defined.
