(* ===== verification/TextLines.v ===== *)
(** * The lines of a text

    Texts as the lists of their lines: splitting after joining and joining after
    splitting, a text cut at a place, the places a text has, and the reads of one line of
    a text buffer ([getLineLength], [getLineCharCode]). *)

From stdpp Require Import gmap.
From S2P Require Import Prelude Position Range PrefixSum Buffer TextChange RBTree RBTreeRep RBTreeOps RBTreeInsert RBTreeDelete RBTreeRemove.
From S2P Require Import PieceBuffers PieceTree PieceTreeEdit PieceTreeNodes PieceTreeRead PieceTreeList PieceTreeText.
From S2P Require Import PieceTreePieces PieceTreeChange PieceTreeSeal PieceTreeInsert PieceTreeDocument.
From S2P Require Import PieceTreeErase PieceTreeCreate PieceTreeChars PieceTreeLines PieceTreeRange PieceTreeContent PieceTreeSession.
From S2P Require Import Strings TextBuffer TextBufferSort TextEdits TextBufferEdits TextBufferInverse TextBufferApply.
Import PieceTreeTextBuffer.

(** ** Texts as lines *)

(** [Array.prototype.join] *)
Fixpoint js_join (sep : jsstring) (lines : list jsstring) : jsstring :=
  match lines with
  | [] => []
  | [line] => line
  | line :: lines => line ++ sep ++ js_join sep lines
  end.

(** The lines of two texts one after the other: the last line of the first goes on
    with the first line of the second. *)
Fixpoint glue (la lb : list jsstring) : list jsstring :=
  match la with
  | [] => lb
  | [x] => match lb with [] => [x] | z :: lz => (x ++ z) :: lz end
  | x :: la => x :: glue la lb
  end.

Lemma split_lines_ne str : split_lines str <> [].
Proof.
  destruct str as [| c str]; [done |]. cbn [split_lines]. destruct (_ === _); [destruct str as [| d str]; [done | by destruct (_ === _)] |].
  destruct (_ === _); [done |]. by destruct (split_lines str).
Qed.

Lemma split_lines_plain c str : c <> CarriageReturn -> c <> LineFeed ->
  split_lines (c :: str) = match split_lines str with l :: ls => (c :: l) :: ls | [] => [[c]] end.
Proof. intros H1 H2. cbn [split_lines]. by rewrite (proj2 (Z.eqb_neq _ _) H1), (proj2 (Z.eqb_neq _ _) H2). Qed.

Lemma split_lines_app a b : seam a b -> split_lines (a ++ b) = glue (split_lines a) (split_lines b).
Proof.
  pattern a. apply text_ind.
  - intros _. cbn. by destruct (split_lines b) eqn:Hb; [apply split_lines_ne in Hb |].
  - intros br k Hbr Hs IH Hab. assert (seam br (k ++ b)) as Hs2 by (apply seam_app_r; [done |]; intros ->; by rewrite app_nil_r in Hab).
    rewrite <- app_assoc. destruct (split_lines_break br (k ++ b) Hbr Hs2) as [-> _]. destruct (split_lines_break br k Hbr Hs) as [-> _].
    rewrite IH by (by apply seam_of_app_l in Hab). cbn [glue]. destruct (split_lines k) eqn:Hk; [by apply split_lines_ne in Hk | done].
  - intros c k H1 H2 IH Hab. assert (seam k b) as Hkb.
    { destruct (decide (k = [])) as [-> | Hne]; [apply seam_nil_l |]. by apply (seam_of_app_l [c] k). }
    change ((c :: k) ++ b) with (c :: (k ++ b)). rewrite !split_lines_plain, IH by done.
    destruct (split_lines k) as [| l [| l2 ls]] eqn:Hk; [by apply split_lines_ne in Hk | | done].
    cbn [glue]. by destruct (split_lines b).
Qed.

Lemma glue_snoc la x z lz : glue (la ++ [x]) (z :: lz) = la ++ (x ++ z) :: lz.
Proof. induction la as [| y la IH]; [done |]. cbn [app glue]. destruct (la ++ [x]) eqn:He; [by destruct la | by rewrite IH]. Qed.

Lemma split_lines_last str : exists la x, split_lines str = la ++ [x] /\ zlen la = breaks str /\ zlen x = last_length str.
Proof.
  pattern str. apply text_ind.
  - by exists [], [].
  - intros br k Hbr Hs (la & x & H1 & H2 & H3). destruct (split_lines_break br k Hbr Hs) as (-> & Hb & _ & Hl). exists ([] :: la), x.
    rewrite H1, breaks_app, last_length_app, Hb, zlen_cons, H2 by done. split_and!; [done | done |].
    destruct (Z.eqb_spec (breaks k) 0) as [Hz |]; [| done]. rewrite H3, (last_length_plain k Hz).
    unfold last_length. rewrite Hb. change (1 - 1) with 0. lia.
  - intros c k H1 H2 (la & x & K1 & K2 & K3). rewrite split_lines_plain, K1 by done.
    assert (seam [c] k) as Hs by by apply plain_seam. change (breaks (c :: k)) with (breaks ([c] ++ k)).
    change (last_length (c :: k)) with (last_length ([c] ++ k)). rewrite breaks_app, last_length_app, breaks_plain by done.
    rewrite (last_length_plain [c]) by by apply breaks_plain. pose proof (breaks_nonneg k).
    destruct la as [| l la]; cbn [app].
    + exists [], (c :: x). change (zlen []) with 0 in K2. rewrite <- K2, zlen_cons. split_and!; [done | done |].
      cbn [Z.eqb]. rewrite K3, last_length_plain by lia. done.
    + exists ((c :: l) :: la), x. rewrite zlen_cons in K2 |- *. split_and!; [done | lia |]. pose proof (zlen_nonneg la).
      by rewrite (proj2 (Z.eqb_neq _ _)) by lia.
Qed.

Lemma split_lines_one str : breaks str = 0 -> split_lines str = [str].
Proof.
  pattern str. apply text_ind.
  - done.
  - intros br k Hbr Hs _. destruct (split_lines_break br k Hbr Hs) as (_ & Hb & _). rewrite breaks_app, Hb by done. pose proof (breaks_nonneg k). lia.
  - intros c k H1 H2 IH. change (breaks (c :: k)) with (breaks ([c] ++ k)). rewrite breaks_app, breaks_plain by (done || by apply plain_seam).
    intros Hk. by rewrite split_lines_plain, IH by done.
Qed.

Lemma join_split eol str : js_join eol (split_lines str) = replace_eol eol str.
Proof.
  assert (forall l ls, ls <> [] -> js_join eol (l :: ls) = l ++ eol ++ js_join eol ls) as Hj by (by intros l []).
  pattern str. apply text_ind.
  - done.
  - intros br k Hbr Hs IH. destruct (split_lines_break br k Hbr Hs) as [-> _]. rewrite Hj, IH, replace_eol_app by (done || apply split_lines_ne).
    cbn [app]. f_equal. destruct Hbr as [-> | [-> | ->]]; cbn; by rewrite ?app_nil_r.
  - intros c k H1 H2 IH. rewrite split_lines_plain by done. rewrite replace_eol_cons, (proj2 (Z.eqb_neq _ _) H1), (proj2 (Z.eqb_neq _ _) H2), <- IH.
    destruct (split_lines k) as [| l [| l2 ls]] eqn:Hk; [by apply split_lines_ne in Hk | done | done].
Qed.

Lemma lines_short str : Forall (fun l => zlen l <= zlen str) (split_lines str).
Proof.
  pattern str. apply text_ind.
  - by repeat constructor.
  - intros br k Hbr Hs IH. destruct (split_lines_break br k Hbr Hs) as [-> _]. rewrite zlen_app. pose proof (zlen_nonneg br). pose proof (zlen_nonneg k).
    constructor; [change (zlen []) with 0; lia |]. eapply Forall_impl; [exact IH |]. cbn. lia.
  - intros c k H1 H2 IH. rewrite split_lines_plain by done. rewrite zlen_cons. destruct (split_lines k) as [| l ls] eqn:Hk; [by apply split_lines_ne in Hk |].
    apply Forall_cons in IH as [Hl Hls]. constructor; [rewrite zlen_cons; lia |]. eapply Forall_impl; [exact Hls |]. cbn. lia.
Qed.

Lemma insert_mid {A} (la lz : list A) l v : <[Z.to_nat (zlen la) := v]> (la ++ l :: lz) = la ++ v :: lz.
Proof. unfold zlen. rewrite Nat2Z.id. rewrite <- (Nat.add_0_r (length la)). by rewrite insert_app_r. Qed.

(** Two cuts of one list. *)
Lemma cuts_same {A} (la lb ra rb : list A) a b : la ++ a :: ra = lb ++ b :: rb -> zlen la = zlen lb -> la = lb /\ a = b /\ ra = rb.
Proof. intros H Hl. apply app_inj_1 in H as [-> [= -> ->]]; [done | unfold zlen in Hl; lia]. Qed.

Lemma cuts_apart {A} (la lb ra rb : list A) a b :
  la ++ a :: ra = lb ++ b :: rb -> zlen la < zlen lb -> exists mid, lb = la ++ a :: mid /\ ra = mid ++ b :: rb.
Proof.
  revert lb. induction la as [| y la IH]; intros [| w lb] H Hl; cbn [app] in H.
  - change (zlen []) with 0 in Hl. lia.
  - injection H as -> ->. by exists lb.
  - rewrite zlen_cons in Hl. change (zlen []) with 0 in Hl. pose proof (zlen_nonneg la). lia.
  - injection H as -> H. rewrite !zlen_cons in Hl. destruct (IH lb H ltac:(lia)) as (mid & -> & ->). by exists mid.
Qed.

(** A text cut at a place, as lines. *)
Record cut_at (str : jsstring) (n c o : Z) (la : list jsstring) (x z : jsstring) (lz : list jsstring) : Prop := mkcut {
  ct_before : split_lines (ztake o str) = la ++ [x];
  ct_after : split_lines (zdrop o str) = z :: lz;
  ct_line : n = 1 + zlen la;
  ct_column : c = 1 + zlen x;
  ct_seam : seam (ztake o str) (zdrop o str)
}.

Lemma place_cut str n c o : place str n c o -> exists la x z lz, cut_at str n c o la x z lz.
Proof.
  intros [_ Hs Hn Hc]. destruct (split_lines_last (ztake o str)) as (la & x & H1 & H2 & H3).
  destruct (split_lines (zdrop o str)) as [| z lz] eqn:Hz; [by apply split_lines_ne in Hz |].
  exists la, x, z, lz. constructor; [done | done | lia | lia | done].
Qed.

Lemma cut_lines str n c o la x z lz : cut_at str n c o la x z lz -> split_lines str = la ++ (x ++ z) :: lz.
Proof. intros [H1 H2 _ _ Hs]. rewrite <- (ztake_zdrop o str), split_lines_app, H1, H2 by done. apply glue_snoc. Qed.

Lemma sum_short str la l lz : split_lines str = la ++ l :: lz -> zlen la <= zlen str /\ zlen l <= zlen str /\ zlen la + zlen lz <= zlen str.
Proof.
  intros H. pose proof (lines_short str) as Hs. rewrite H in Hs. apply Forall_app in Hs as [_ [Hl _]%Forall_cons].
  destruct (split_lines_ok str) as [Hn _]. rewrite H, zlen_app, zlen_cons in Hn. pose proof (breaks_le str). pose proof (zlen_nonneg la). pose proof (zlen_nonneg lz). lia.
Qed.

(** Another line end: the lines stay. *)
Lemma split_lines_replace eol str : eol = [LineFeed] \/ eol = [CarriageReturn; LineFeed] -> split_lines (replace_eol eol str) = split_lines str.
Proof.
  intros Heol.
  assert (forall k, seam eol k) as Hsm by (intros k; eapply normal_seam; [exact Heol |]; by destruct Heol as [-> | ->]).
  pattern str. apply text_ind.
  - done.
  - intros br k Hbr Hs IH. destruct (split_lines_break br k Hbr Hs) as [-> _]. rewrite replace_eol_app by done.
    assert (replace_eol eol br = eol) as -> by (destruct Hbr as [-> | [-> | ->]]; cbn; by rewrite ?app_nil_r).
    destruct (split_lines_break eol (replace_eol eol k)) as [-> _]; [by destruct Heol as [-> | ->]; auto | apply Hsm | by rewrite IH].
  - intros c k H1 H2 IH. rewrite replace_eol_cons, (proj2 (Z.eqb_neq _ _) H1), (proj2 (Z.eqb_neq _ _) H2).
    by rewrite !split_lines_plain, IH by done.
Qed.

(** ** The places of a text *)

Lemma line_text_at str la l lz n : split_lines str = la ++ l :: lz -> n = 1 + zlen la -> line_text str n = l.
Proof.
  intros H ->. destruct (split_lines_ok str) as [Hz Hn]. pose proof (zlen_nonneg la). pose proof (zlen_nonneg lz). rewrite H, zlen_app, zlen_cons in Hz.
  specialize (Hn (1 + zlen la) ltac:(lia)). rewrite H, (znth_mid la) in Hn by lia. by injection Hn.
Qed.

Lemma place_first str : place str 1 1 0.
Proof. constructor; [pose proof (zlen_nonneg str); lia | apply seam_nil_l | done | done]. Qed.

Lemma place_plain u k n c o :
  u <> CarriageReturn -> u <> LineFeed -> place k n c o -> place ([u] ++ k) n (if n === 1 then c + 1 else c) (1 + o).
Proof.
  intros H1 H2 [B S L K]. assert (seam [u] (ztake o k)) as Hs by by apply plain_seam.
  assert (ztake (1 + o) ([u] ++ k) = [u] ++ ztake o k) as Et.
  { change 1 with (zlen [u]). rewrite ztake_app_r by lia. by rewrite Z.add_simpl_l. }
  assert (zdrop (1 + o) ([u] ++ k) = zdrop o k) as Ed.
  { change 1 with (zlen [u]). rewrite zdrop_app_r by lia. by rewrite Z.add_simpl_l. }
  constructor.
  - rewrite zlen_app. change (zlen [u]) with 1. lia.
  - rewrite Et, Ed. destruct (decide (ztake o k = [])) as [He | Hne]; [rewrite He; by apply plain_seam | by apply seam_left].
  - rewrite Et, breaks_app, breaks_plain by done. lia.
  - rewrite Et, last_length_app by done. pose proof (breaks_nonneg (ztake o k)).
    destruct (Z.eqb_spec n 1), (Z.eqb_spec (breaks (ztake o k)) 0) as [Hz |]; try lia.
    rewrite (last_length_plain [u]) by (by apply breaks_plain). rewrite K, (last_length_plain _ Hz). change (zlen [u]) with 1. lia.
Qed.

Lemma place_exists str : forall n c, 1 <= n <= 1 + breaks str -> 1 <= c <= 1 + zlen (line_text str n) -> exists o, place str n c o.
Proof.
  pattern str. apply text_ind.
  - intros n c Hn. change (breaks []) with 0 in Hn. assert (n = 1) as -> by lia. change (line_text [] 1) with (@nil Z). change (zlen []) with 0.
    intros Hc. assert (c = 1) as -> by lia. exists 0. apply place_first.
  - intros br k Hbr Hs IH n c Hn Hc. destruct (split_lines_break br k Hbr Hs) as (_ & Hb & Ht & Hl).
    rewrite breaks_app, Hb in Hn by done. destruct (decide (n = 1)) as [-> |].
    + rewrite line_text_first in Hc by done. change (zlen []) with 0 in Hc. assert (c = 1) as -> by lia. exists 0. apply place_first.
    + rewrite line_text_break in Hc by (done || lia). destruct (IH (n - 1) c ltac:(lia) Hc) as [o [B S L K]].
      assert (seam br (ztake o k)) as Hs2. { intros [H1 H2]. apply Hs. split; [done |]. rewrite <- (ztake_zdrop o k). by destruct (ztake o k). }
      exists (zlen br + o). pose proof (zlen_nonneg br). constructor.
      * rewrite zlen_app. lia.
      * rewrite ztake_app_r, zdrop_app_r, !Z.add_simpl_l by lia. destruct (decide (ztake o k = [])) as [He | Hne]; [| by apply seam_left].
        rewrite He, app_nil_r. intros [H1 H2]. apply Hs. split; [done |]. rewrite <- (ztake_zdrop o k), He. done.
      * rewrite ztake_app_r, Z.add_simpl_l, breaks_app by (done || lia). lia.
      * rewrite ztake_app_r, Z.add_simpl_l, last_length_app by (done || lia). rewrite K.
        destruct (Z.eqb_spec (breaks (ztake o k)) 0) as [Hz |]; [| done]. rewrite (last_length_plain _ Hz). unfold last_length. rewrite Hb.
        change (1 - 1) with 0. lia.
  - intros u k H1 H2 IH n c Hn Hc. assert (seam [u] k) as Hs by by apply plain_seam. change (u :: k) with ([u] ++ k) in Hn |- *.
    rewrite breaks_app, breaks_plain in Hn by done. rewrite line_text_cons in Hc by (done || lia).
    destruct (Z.eqb_spec n 1) as [-> | Hn1].
    + destruct (decide (c = 1)) as [-> |]; [exists 0; apply place_first |]. rewrite zlen_cons in Hc.
      destruct (IH 1 (c - 1) Hn ltac:(lia)) as [o P]. exists (1 + o). replace c with (if 1 === 1 then c - 1 + 1 else c - 1) by (cbn; lia). by apply place_plain.
    + destruct (IH n c Hn Hc) as [o P]. exists (1 + o). replace c with (if n === 1 then c + 1 else c) by (by rewrite (proj2 (Z.eqb_neq _ _) Hn1)). by apply place_plain.
Qed.

Lemma place_in_line str n c o : place str n c o -> 1 <= n <= 1 + breaks str /\ 1 <= c <= 1 + zlen (line_text str n).
Proof.
  intros P. split; [by eapply at_line, place_at |]. destruct (place_cut _ _ _ _ P) as (la & x & z & lz & C).
  rewrite (line_text_at str la (x ++ z) lz n (cut_lines _ _ _ _ _ _ _ _ C) (ct_line _ _ _ _ _ _ _ _ C)), zlen_app.
  pose proof (ct_column _ _ _ _ _ _ _ _ C). pose proof (zlen_nonneg x). pose proof (zlen_nonneg z). lia.
Qed.

Lemma split_lines_head k u z lz : split_lines k = (u :: z) :: lz -> exists k', k = u :: k'.
Proof.
  destruct k as [| c k]; [done |]. cbn [split_lines]. destruct (_ === _); [destruct k as [| d k]; [done | by destruct (_ === _)] |].
  destruct (_ === _); [done |]. destruct (split_lines k); intros H; injection H; intros; subst; by eexists.
Qed.

(** The place before a unit of a line. *)
Lemma line_unit str n i u :
  1 <= n <= 1 + breaks str -> znth (line_text str n) i = Some u -> exists o, place str n (i + 1) o /\ znth str o = Some u.
Proof.
  intros Hn Hu. pose proof (znth_Some _ _ _ Hu) as Hi. destruct (place_exists str n (i + 1) Hn ltac:(lia)) as [o P]. exists o. split; [done |].
  destruct (place_cut _ _ _ _ P) as (la & x & z & lz & C). pose proof (ct_column _ _ _ _ _ _ _ _ C) as Hc.
  rewrite (line_text_at str la (x ++ z) lz n (cut_lines _ _ _ _ _ _ _ _ C) (ct_line _ _ _ _ _ _ _ _ C)), znth_app_r in Hu by lia.
  replace (i - zlen x) with 0 in Hu by lia. destruct z as [| u' z]; [done |]. injection Hu as ->.
  destruct (split_lines_head _ _ _ _ (ct_after _ _ _ _ _ _ _ _ C)) as [k' Hk].
  rewrite <- (ztake_zdrop o str), znth_app_r; rewrite zlen_ztake by apply P; [| lia]. by rewrite Z.sub_diag, Hk.
Qed.

(** ** Reading one line of a text buffer *)

Lemma getLineCharCode_b b d n i u :
  serves b d -> 1 <= n <= 1 + breaks (Doc.content d) -> znth (line_text (Doc.content d) n) i = Some u ->
  tree (getLineCharCode n i) b = Ret (u, b).
Proof.
  intros [Hr _ _] Hn Hu. apply tree_read. destruct (line_unit _ _ _ _ Hn Hu) as (o & P & Ho). pose proof (znth_Some _ _ _ Ho) as Hb.
  pose proof (st_doc (reachable_stands _ _ Hr)) as (F & L & Hd & Ht & _). set (s := _pieceTree b) in *. unfold getLineCharCode.
  assert (L <> []) as HL by (intros ->; rewrite text_nil in Ht; rewrite <- Ht in Hb; change (zlen []) with 0 in Hb; lia).
  pose proof (place_at _ _ _ _ P) as Hat. rewrite <- Ht in Hat. destruct (nodeAt2_ok F s L n (i + 1) o Hd HL Hat) as (pos & H1 & l1 & p & l2 & HL2 & H3 & H4).
  erewrite pbind_run by exact H1. erewrite pbind_run by done. rewrite HL2 in *. rewrite (getCharCode_at F s l1 (np_node pos) p l2 pos Hd eq_refl H4).
  pose proof (doc_pieces Hd) as [O1 [O2 _]%Forall_cons]%Forall_app.
  destruct (split_text (_buffers s) l1 (np_node pos) p l2 (np_remainder pos) O1 O2 H4) as [_ T2]. rewrite H3, Ht in T2.
  by rewrite <- T2, (zdrop_znth _ _ _ Ho).
Qed.

Lemma getLineCount_b b d : serves b d -> tree getLineCount b = Ret (1 + breaks (Doc.content d), b).
Proof. intros [Hr _ _]. apply tree_read. by destruct (read_doc _ _ (st_doc (reachable_stands _ _ Hr))) as (_ & _ & ->). Qed.

Lemma getLength_b b d : serves b d -> tree getLength b = Ret (zlen (Doc.content d), b).
Proof. intros [Hr _ _]. apply tree_read. by destruct (read_doc _ _ (st_doc (reachable_stands _ _ Hr))) as (_ & -> & _). Qed.

Lemma zlen_line eol str n : eol = [LineFeed] \/ eol = [CarriageReturn; LineFeed] -> normal eol str -> 1 <= n <= 1 + breaks str ->
  zlen (line_text str n) = (if n === 1 + breaks str then zlen str else lstart str (n - 1) - zlen eol) - lstart str (n - 2).
Proof.
  intros Heol Hnorm Hn. unfold line_text. pose proof (lstart_bounds str (n - 2)). destruct (Z.eqb_spec n (1 + breaks str)) as [-> | Hne].
  - unfold line_part. replace (1 + breaks str - 1) with (breaks str) by lia. pose proof (breaks_nonneg str). rewrite (lstart_high str (breaks str)) by lia. rewrite Z.sub_0_r, zlen_slice by lia. lia.
  - rewrite (normal_trim eol Heol str n Hnorm) by lia. destruct (normal_lines eol Heol str Hnorm (n - 1)) as [H1 _]; [lia |].
    replace (n - 1 - 1) with (n - 2) in H1 by lia. pose proof (lstart_bounds str (n - 1)). pose proof (zlen_nonneg eol). unfold line_part.
    rewrite zlen_slice by lia. lia.
Qed.

Lemma getLineLength_b b d n :
  serves b d -> 1 <= n <= 1 + breaks (Doc.content d) -> tree (getLineLength n) b = Ret (zlen (line_text (Doc.content d) n), b).
Proof.
  intros Hb Hn. pose proof Hb as [Hr _ _]. apply tree_read. pose proof (reachable_stands _ _ Hr) as Hst. pose proof (st_doc Hst) as Hdoc.
  destruct (read_doc _ _ Hdoc) as (_ & R2 & R3). unfold getLineLength. erewrite pbind_run by exact R3.
  rewrite (zlen_line (Doc.eol d) _ _ (serves_eol _ _ Hb) (serves_normal _ _ Hb) Hn). destruct (decide (Doc.content d = [])) as [He | Hne].
  { destruct (empty_positions _ ltac:(rewrite <- He; exact Hdoc)) as [E1 _]. rewrite He in *. change (breaks []) with 0 in *. assert (n = 1) as -> by lia.
    change (1 === 1 + 0) with true. cbv iota. erewrite pbind_run by apply E1. erewrite pbind_run by exact R2. done. }
  destruct (Z.eqb_spec n (1 + breaks (Doc.content d))) as [-> | Hlt].
  - erewrite pbind_run by (by apply getOffsetAt_ok). erewrite pbind_run by exact R2. unfold offset_in. rewrite (proj2 (Z.ltb_lt _ _)) by lia.
    unfold mret, P_ret. do 2 f_equal. lia.
  - erewrite pbind_run by (by apply getOffsetAt_ok). erewrite pbind_run by (by apply getOffsetAt_ok).
    erewrite pbind_run by reflexivity. unfold offset_in. rewrite !(proj2 (Z.ltb_lt _ _)) by lia.
    assert (_EOLLength (_pieceTree b) = zlen (Doc.eol d)) as -> by (by rewrite <- (st_eol _ _ Hst), (st_eolLength _ _ Hst)).
    unfold mret, P_ret. do 2 f_equal. replace (n + 1 - 2) with (n - 1) by lia. lia.
Qed.

(** ** The units around a place *)

Definition is_break (u : Z) : Prop := u = CarriageReturn \/ u = LineFeed.

Lemma last_length_zero str : last_length str = 0 -> str = [] \/ exists u, last str = Some u /\ is_break u.
Proof.
  pattern str. apply text_ind.
  - by left.
  - intros br k Hbr Hs IH Hl. right. destruct (decide (k = [])) as [-> | Hne].
    + rewrite app_nil_r. unfold is_break. destruct Hbr as [-> | [-> | ->]]; eexists; split; eauto; done.
    + destruct (split_lines_break br k Hbr Hs) as (_ & Hb & _ & Hbl). rewrite last_length_app in Hl by done.
      destruct (Z.eqb_spec (breaks k) 0) as [Hz | Hz].
      * unfold last_length in Hl. rewrite Hb in Hl. change (1 - 1) with 0 in Hl. assert (zlen k = 0) as ?%zlen_0 by lia. done.
      * rewrite last_app_ne by done. by destruct (IH Hl).
  - intros c k H1 H2 IH Hl. right. change (c :: k) with ([c] ++ k) in Hl |- *. pose proof (zlen_nonneg k). rewrite last_length_app in Hl by (by apply plain_seam).
    destruct (Z.eqb_spec (breaks k) 0) as [Hz | Hz].
    + rewrite last_length_plain in Hl by (by apply breaks_plain). change (zlen [c]) with 1 in Hl. lia.
    + destruct (IH Hl) as [-> | Hu]; [done |]. rewrite last_app_ne; [done |]. intros ->. done.
Qed.

Lemma split_lines_nil_head k lz : split_lines k = [] :: lz -> k = [] \/ exists u k', k = u :: k' /\ is_break u.
Proof.
  destruct k as [| c k]; [by left |]. intros H. right. exists c, k. split; [done |]. unfold is_break. cbn [split_lines] in H.
  destruct (Z.eqb_spec c CarriageReturn); [by left |]. destruct (Z.eqb_spec c LineFeed); [by right |]. by destruct (split_lines k).
Qed.

Lemma place_same_line str n c1 o1 c2 o2 : place str n c1 o1 -> place str n c2 o2 -> o2 - o1 = c2 - c1.
Proof. intros H1%place_at H2%place_at. pose proof (at_eq _ _ _ _ H1). pose proof (at_eq _ _ _ _ H2). lia. Qed.

(** Before a place: a unit of its line, or a line break. *)
Lemma place_before str n c o : place str n c o -> 1 < c ->
  exists u, znth (line_text str n) (c - 2) = Some u /\ znth str (o - 1) = Some u /\ place str n (c - 1) (o - 1).
Proof.
  intros P Hc. destruct (place_in_line _ _ _ _ P) as [Hn Hb]. destruct (znth_is_Some (line_text str n) (c - 2)) as [u Hu]; [lia |].
  destruct (line_unit str n (c - 2) u Hn Hu) as (o' & P' & Ho'). pose proof (place_same_line _ _ _ _ _ _ P P') as Hd.
  replace (c - 2 + 1) with (c - 1) in * by lia. assert (o' = o - 1) as -> by lia. by exists u.
Qed.

Lemma place_after str n c o : place str n c o -> c <= zlen (line_text str n) ->
  exists u, znth str o = Some u /\ place str n (c + 1) (o + 1).
Proof.
  intros P Hc. destruct (place_in_line _ _ _ _ P) as [Hn Hb]. destruct (znth_is_Some (line_text str n) (c - 1)) as [u Hu]; [lia |].
  destruct (line_unit str n (c - 1) u Hn Hu) as (o' & P' & Ho'). pose proof (place_same_line _ _ _ _ _ _ P P') as Hd.
  replace (c - 1 + 1) with c in * by lia. assert (o' = o) as -> by lia. exists u. split; [done |].
  destruct (place_exists str n (c + 1) Hn ltac:(lia)) as [o2 P2]. pose proof (place_same_line _ _ _ _ _ _ P P2) as Hd2.
  by replace (o + 1) with o2 by lia.
Qed.

Lemma line_start_before str n o u : place str n 1 o -> znth str (o - 1) = Some u -> is_break u.
Proof.
  intros [Hb _ _ Hl] Hu. pose proof (znth_Some _ _ _ Hu) as Ho. destruct (last_length_zero (ztake o str) ltac:(lia)) as [He | (v & Hv & Hbr)].
  - apply (f_equal zlen) in He. rewrite zlen_ztake in He by lia. change (zlen []) with 0 in He. lia.
  - assert (v = u) as ->; [| done]. rewrite <- (ztake_zdrop o str), znth_app_l in Hu by (rewrite zlen_ztake; lia).
    rewrite last_lookup in Hv. unfold znth in Hu. rewrite (proj2 (Z.ltb_ge _ _)) in Hu by lia.
    assert (zlen (ztake o str) = o) as Hz by (apply zlen_ztake; lia). unfold zlen in Hz.
    replace (pred (length (ztake o str))) with (Z.to_nat (o - 1)) in Hv by lia. congruence.
Qed.

Lemma line_end_after str n c o u : place str n c o -> c = 1 + zlen (line_text str n) -> znth str o = Some u -> is_break u.
Proof.
  intros P Hc Hu. destruct (place_cut _ _ _ _ P) as (la & x & z & lz & C). pose proof (ct_column _ _ _ _ _ _ _ _ C) as Hx.
  rewrite (line_text_at str la (x ++ z) lz n (cut_lines _ _ _ _ _ _ _ _ C) (ct_line _ _ _ _ _ _ _ _ C)), zlen_app in Hc.
  assert (zlen z = 0) as ->%zlen_0 by lia. pose proof (pl_bounds _ _ _ _ P) as Hb.
  rewrite <- (ztake_zdrop o str), znth_app_r in Hu by (rewrite zlen_ztake; lia). rewrite zlen_ztake, Z.sub_diag in Hu by lia.
  destruct (split_lines_nil_head _ _ (ct_after _ _ _ _ _ _ _ _ C)) as [He | (v & k' & He & Hbr)]; rewrite He in Hu; [done |]. by injection Hu as <-.
Qed.

Lemma place_end str : place str (1 + breaks str) (1 + zlen (line_text str (1 + breaks str))) (zlen str).
Proof.
  pose proof (zlen_nonneg str). destruct (split_lines_last str) as (la & x & H1 & H2 & H3).
  rewrite (line_text_at str la x [] (1 + breaks str)) by (done || lia). rewrite H3.
  constructor; rewrite ?ztake_all, ?zdrop_all by lia; [lia | apply seam_nil_r | done | done].
Qed.
