(* ===== verification/TextModelEvents.v ===== *)
(** * The events of a text model

    The data of [textModelEvents.ts] (raw changes of lines, content changed events and
    their merging, injected text), the [ArrayQueue] of [arrays.ts], and the emitter of
    [textModel.ts] that defers and merges content events. *)

From stdpp Require Import base.
From S2P Require Import Prelude Position Range Selection Buffer TextChange RBTree PieceBuffers PieceTree PieceTreeEdit Strings TextBuffer.

(** ** Queues over an array *)

Module ArrayQueue.
Section Queue.
Context {A : Type}.

Record t := mk { items : list A; firstIdx : Z; lastIdx : Z }.

Definition new (items : list A) : t := mk items 0 (zlen items - 1).
Definition length (this : t) : Z := lastIdx this - firstIdx this + 1.

(** how many leading elements satisfy the predicate: the rounds of the two loops *)
Fixpoint run (predicate : A -> bool) (l : list A) : Z :=
  match l with [] => 0 | x :: l => if predicate x then 1 + run predicate l else 0 end.

(** The loop ends at the end of the array, not at [lastIdx]. *)
Definition takeWhile (predicate : A -> bool) (this : t) : option (list A) * t :=
  let startIdx := firstIdx this + run predicate (zdrop (firstIdx this) (items this)) in
  (if startIdx === firstIdx this then None else Some (js_slice (items this) (firstIdx this) startIdx),
   mk (items this) startIdx (lastIdx this)).

(** The loop ends at the start of the array, not at [firstIdx]. *)
Definition takeFromEndWhile (predicate : A -> bool) (this : t) : option (list A) * t :=
  let endIdx := lastIdx this - run predicate (rev (ztake (lastIdx this + 1) (items this))) in
  (if endIdx === lastIdx this then None else Some (js_slice (items this) (endIdx + 1) (lastIdx this + 1)),
   mk (items this) (firstIdx this) endIdx).

Definition peek (this : t) : option A := if length this === 0 then None else znth (items this) (firstIdx this).
Definition peekLast (this : t) : option A := if length this === 0 then None else znth (items this) (lastIdx this).
Definition dequeue (this : t) : option A * t := (znth (items this) (firstIdx this), mk (items this) (firstIdx this + 1) (lastIdx this)).
Definition removeLast (this : t) : option A * t := (znth (items this) (lastIdx this), mk (items this) (firstIdx this) (lastIdx this - 1)).
Definition takeCount (count : Z) (this : t) : list A * t :=
  (js_slice (items this) (firstIdx this) (firstIdx this + count), mk (items this) (firstIdx this + count) (lastIdx this)).
End Queue.
Arguments t : clear implicits.
End ArrayQueue.

(** ** Injected text *)

(** A decoration, as far as [fromDecorations] reads it: the contents of
    [options.before] and [options.after]. *)
Module IModelDecoration.
Record t := mk { ownerId : Z; range : Range.t; before : option jsstring; after : option jsstring }.
End IModelDecoration.

Module LineInjectedText.
(** Of the options the content is kept. *)
Record t := mk { ownerId : Z; lineNumber : Z; column : Z; content : jsstring; order : Z }.

(** the loop; returns the text and the last offset *)
Fixpoint applyAll (lineText : jsstring) (injectedTexts : list t) (result : jsstring) (lastOriginalOffset : Z) : jsstring :=
  match injectedTexts with
  | [] => result ++ js_substring lineText lastOriginalOffset (zlen lineText)
  | injectedText :: injectedTexts =>
      applyAll lineText injectedTexts
        (result ++ js_substring lineText lastOriginalOffset (column injectedText - 1) ++ content injectedText)
        (column injectedText - 1)
  end.

Definition applyInjectedText (lineText : jsstring) (injectedTexts : option (list t)) : jsstring :=
  match injectedTexts with
  | None | Some [] => lineText
  | Some injectedTexts => applyAll lineText injectedTexts [] 0
  end.

Definition compare (a b : t) : Z :=
  if lineNumber a === lineNumber b then
    if column a === column b then order a - order b else column a - column b
  else lineNumber a - lineNumber b.

Definition ofDecoration (decoration : IModelDecoration.t) : list t :=
  let range := IModelDecoration.range decoration in
  match IModelDecoration.before decoration with
  | Some ((_ :: _) as content) => [mk (IModelDecoration.ownerId decoration) (Range.startLineNumber range) (Range.startColumn range) content 0]
  | _ => []
  end ++
  match IModelDecoration.after decoration with
  | Some ((_ :: _) as content) => [mk (IModelDecoration.ownerId decoration) (Range.endLineNumber range) (Range.endColumn range) content 1]
  | _ => []
  end.

Definition fromDecorations (decorations : list IModelDecoration.t) : list t :=
  js_sort compare (mjoin (ofDecoration <$> decorations)).

Definition withText (text : jsstring) (this : t) : t := mk (ownerId this) (lineNumber this) (column this) text (order this).
End LineInjectedText.

(** ** Changes of lines *)

Inductive ModelRawChange :=
  | ModelRawFlush
  | ModelRawLineChanged (lineNumber : Z) (detail : jsstring) (injectedText : option (list LineInjectedText.t))
  | ModelRawLinesDeleted (fromLineNumber toLineNumber : Z)
  | ModelRawLinesInserted (fromLineNumber toLineNumber : Z) (detail : list jsstring)
      (injectedTexts : list (option (list LineInjectedText.t)))
  | ModelRawEOLChanged.

Inductive RawContentChangedType := Flush | LineChanged | LinesDeleted | LinesInserted | EOLChanged.

#[global] Instance raw_type_eq_dec : EqDecision RawContentChangedType.
Proof. solve_decision. Defined.

Definition changeType (c : ModelRawChange) : RawContentChangedType :=
  match c with
  | ModelRawFlush => Flush
  | ModelRawLineChanged _ _ _ => LineChanged
  | ModelRawLinesDeleted _ _ => LinesDeleted
  | ModelRawLinesInserted _ _ _ _ => LinesInserted
  | ModelRawEOLChanged => EOLChanged
  end.

Module ModelRawContentChangedEvent.
Record t := mk {
  changes : list ModelRawChange;
  versionId : Z;
  isUndoing : bool;
  isRedoing : bool;
  resultingSelection : option (list Selection.t)
}.

Definition new (changes : list ModelRawChange) (versionId : Z) (isUndoing isRedoing : bool) : t :=
  mk changes versionId isUndoing isRedoing None.

Definition containsEvent (type : RawContentChangedType) (this : t) : bool :=
  existsb (fun change => bool_decide (changeType change = type)) (changes this).

Definition merge (a b : t) : t :=
  new (changes a ++ changes b) (versionId b) (isUndoing a || isUndoing b) (isRedoing a || isRedoing b).
End ModelRawContentChangedEvent.

(** ** Changes of content *)

(** The changes of a flush have no [forceMoveMarkers]: [false] here. *)
Module IModelContentChangedEvent.
Record t := mk {
  changes : list IInternalModelContentChange.t;
  eol : jsstring;
  versionId : Z;
  isUndoing : bool;
  isRedoing : bool;
  isFlush : bool;
  isEolChange : bool
}.
End IModelContentChangedEvent.

Module InternalModelContentChangeEvent.
Record t := mk {
  rawContentChangedEvent : ModelRawContentChangedEvent.t;
  contentChangedEvent : IModelContentChangedEvent.t
}.

Section Merge.
Import IModelContentChangedEvent.

Definition _mergeChangeEvents (a b : IModelContentChangedEvent.t) : IModelContentChangedEvent.t :=
  IModelContentChangedEvent.mk (changes a ++ changes b) (eol b) (versionId b) (isUndoing a || isUndoing b)
    (isRedoing a || isRedoing b) (isFlush a || isFlush b) (isEolChange a && isEolChange b).
End Merge.

Definition merge (this other : t) : t :=
  mk (ModelRawContentChangedEvent.merge (rawContentChangedEvent this) (rawContentChangedEvent other))
     (_mergeChangeEvents (contentChangedEvent this) (contentChangedEvent other)).
End InternalModelContentChangeEvent.

(** ** The emitter *)

(** Of the two emitters, which fire the same events, the model keeps the events they
    have fired. *)
Module DidChangeContentEmitter.
Import InternalModelContentChangeEvent.

Record t := mk {
  _deferredCnt : Z;
  _deferredEvent : option InternalModelContentChangeEvent.t;
  fired : list InternalModelContentChangeEvent.t
}.

Definition new : t := mk 0 None [].

Definition beginDeferredEmit (this : t) : t := mk (_deferredCnt this + 1) (_deferredEvent this) (fired this).

Definition with_selection (resultingSelection : option (list Selection.t)) (e : InternalModelContentChangeEvent.t) : InternalModelContentChangeEvent.t :=
  let raw := rawContentChangedEvent e in
  InternalModelContentChangeEvent.mk
    (ModelRawContentChangedEvent.mk (ModelRawContentChangedEvent.changes raw) (ModelRawContentChangedEvent.versionId raw)
       (ModelRawContentChangedEvent.isUndoing raw) (ModelRawContentChangedEvent.isRedoing raw) resultingSelection)
    (contentChangedEvent e).

Definition endDeferredEmit (resultingSelection : option (list Selection.t)) (this : t) : t :=
  let cnt := _deferredCnt this - 1 in
  match _deferredEvent this with
  | Some e => if cnt === 0 then mk cnt None (fired this ++ [with_selection resultingSelection e]) else mk cnt (Some e) (fired this)
  | None => mk cnt None (fired this)
  end.

Definition fire (e : InternalModelContentChangeEvent.t) (this : t) : t :=
  if 0 <? _deferredCnt this then
    mk (_deferredCnt this) (Some (match _deferredEvent this with Some d => merge d e | None => e end)) (fired this)
  else mk (_deferredCnt this) (_deferredEvent this) (fired this ++ [e]).
End DidChangeContentEmitter.
