(* ===== verification/TextModel.v ===== *)
(** * The text model

    [TextModel] of [textModel.ts], the front end of a text buffer: validation of
    positions and ranges, reads, versions, edits with their events, changes of the line
    end and of the whole value, undo and redo of text changes.  The decorations are an
    interface; tokens, brackets and the undo stack are left out. *)

From stdpp Require Import base.
From S2P Require Import Prelude Position Range Selection Buffer TextChange RBTree PieceBuffers PieceTree PieceTreeEdit Strings TextBuffer TextModelEvents.
Module Buf := PieceTreeTextBuffer.
Module Emitter := DidChangeContentEmitter.

Inductive StringOffsetValidationType := Relaxed | SurrogatePairs.
Inductive EndOfLineSequence := SeqLF | SeqCRLF.

#[global] Instance eol_sequence_eq_dec : EqDecision EndOfLineSequence.
Proof. solve_decision. Defined.

(** What the text model calls of its decorations: [acceptReplace] and
    [getInjectedTextInInterval] of [DecorationsTrees] (the latter with the text buffer
    and the version of the text model, and with the ranges it stores in the nodes), and
    the bodies of [_onBeforeEOLChange] and [_onAfterEOLChange]. *)
Class Decorations (D : Type) := {
  new_DecorationsTrees : D;
  acceptReplace : Z -> Z -> Z -> bool -> D -> D;
  getInjectedTextInInterval : Buf.t -> Z -> Z -> Z -> Z -> D -> list IModelDecoration.t * D;
  _onBeforeEOLChange : Buf.t -> Z -> D -> D;
  _onAfterEOLChange : Buf.t -> Z -> D -> D
}.

(** ** The object *)

(** The fields that matter to the text and its events; of [_options] the flag
    [trimAutoWhitespace]. *)
Module TextModel.
Section Object.
Context {D : Type}.

Record t := mk {
  _buffer : Buf.t;
  _isDisposed : bool;
  __isDisposing : bool;
  _versionId : Z;
  _alternativeVersionId : Z;
  _trimAutoWhitespace : bool;
  _isUndoing : bool;
  _isRedoing : bool;
  _trimAutoWhitespaceLines : option (list Z);
  _decorationsTree : D;
  _eventEmitter : Emitter.t
}.
End Object.
Arguments t : clear implicits.
End TextModel.
Import TextModel.

Section Model.
Context {D : Type} {DT : Decorations D}.
Notation model := (TextModel.t D).

Definition set_buffer (b : Buf.t) (m : model) : model :=
  mk b (_isDisposed m) (__isDisposing m) (_versionId m) (_alternativeVersionId m) (_trimAutoWhitespace m) (_isUndoing m) (_isRedoing m)
    (_trimAutoWhitespaceLines m) (_decorationsTree m) (_eventEmitter m).
Definition set_versions (v a : Z) (m : model) : model :=
  mk (_buffer m) (_isDisposed m) (__isDisposing m) v a (_trimAutoWhitespace m) (_isUndoing m) (_isRedoing m)
    (_trimAutoWhitespaceLines m) (_decorationsTree m) (_eventEmitter m).
Definition set_undoing (u r : bool) (m : model) : model :=
  mk (_buffer m) (_isDisposed m) (__isDisposing m) (_versionId m) (_alternativeVersionId m) (_trimAutoWhitespace m) u r
    (_trimAutoWhitespaceLines m) (_decorationsTree m) (_eventEmitter m).
Definition set_trimLines (l : option (list Z)) (m : model) : model :=
  mk (_buffer m) (_isDisposed m) (__isDisposing m) (_versionId m) (_alternativeVersionId m) (_trimAutoWhitespace m) (_isUndoing m) (_isRedoing m)
    l (_decorationsTree m) (_eventEmitter m).
Definition set_decorations (d : D) (m : model) : model :=
  mk (_buffer m) (_isDisposed m) (__isDisposing m) (_versionId m) (_alternativeVersionId m) (_trimAutoWhitespace m) (_isUndoing m) (_isRedoing m)
    (_trimAutoWhitespaceLines m) d (_eventEmitter m).
Definition set_emitter (e : Emitter.t) (m : model) : model :=
  mk (_buffer m) (_isDisposed m) (__isDisposing m) (_versionId m) (_alternativeVersionId m) (_trimAutoWhitespace m) (_isUndoing m) (_isRedoing m)
    (_trimAutoWhitespaceLines m) (_decorationsTree m) e.

(** The fields the constructor sets, around the text buffer it creates. *)
Definition new_TextModel (b : Buf.t) (trimAutoWhitespace : bool) : model :=
  mk b false false 1 1 trimAutoWhitespace false false None new_DecorationsTrees Emitter.new.

(** ** The monad *)

Definition T (A : Type) : Type := model -> res (A * model).

#[global] Instance T_ret : MRet T := fun A a m => Ret (a, m).
#[global] Instance T_bind : MBind T := fun X Y f c m =>
  match c m with Ret (a, m') => f a m' | Throw e => Throw e end.

Definition tthrow {A} (e : js_error) : T A := fun _ => Throw e.
Definition this {A} (f : model -> A) : T A := fun m => Ret (f m, m).
Definition update (f : model -> model) : T unit := fun m => Ret (tt, f m).

(** A call of [this._buffer]. *)
Definition buffer {A} (c : B A) : T A := fun m =>
  match c (_buffer m) with Ret (a, b) => Ret (a, set_buffer b m) | Throw e => Throw e end.

Definition _assertNotDisposed : T unit :=
  disposed ← this _isDisposed; if disposed : bool then tthrow Error else mret tt.

(** ** Versions *)

Definition getVersionId : T Z := _assertNotDisposed;; this _versionId.
Definition getAlternativeVersionId : T Z := _assertNotDisposed;; this _alternativeVersionId.
Definition _increaseVersionId : T unit := update (fun m => set_versions (_versionId m + 1) (_versionId m + 1) m).
Definition _overwriteVersionId (versionId : Z) : T unit := update (fun m => set_versions versionId (_alternativeVersionId m) m).
Definition _overwriteAlternativeVersionId (newAlternativeVersionId : Z) : T unit :=
  update (fun m => set_versions (_versionId m) newAlternativeVersionId m).

(** ** Lines *)

Definition getLineCount : T Z := _assertNotDisposed;; buffer (tree PieceTree.getLineCount).

(** the guard of the operations on a line *)
Definition checkLineNumber (lineNumber : Z) : T unit :=
  cnt ← getLineCount;
  if (lineNumber <? 1) || (cnt <? lineNumber) then tthrow BugIndicatingError else mret tt.

Definition getLineContent (lineNumber : Z) : T jsstring :=
  _assertNotDisposed;; checkLineNumber lineNumber;; buffer (tree (PieceTree.getLineContent lineNumber)).
Definition getLineLength (lineNumber : Z) : T Z :=
  _assertNotDisposed;; checkLineNumber lineNumber;; buffer (tree (PieceTree.getLineLength lineNumber)).
Definition getLinesContent : T (list jsstring) := _assertNotDisposed;; buffer (tree PieceTree.getLinesContent).
Definition getEOL : T jsstring := _assertNotDisposed;; buffer (tree PieceTree.getEOL).
Definition getEndOfLineSequence : T EndOfLineSequence :=
  _assertNotDisposed;;
  eol ← buffer (tree PieceTree.getEOL);
  mret (if bool_decide (eol = [LineFeed]) then SeqLF else SeqCRLF).
Definition getLineMinColumn (lineNumber : Z) : T Z := _assertNotDisposed;; mret 1.
Definition getLineMaxColumn (lineNumber : Z) : T Z :=
  _assertNotDisposed;; checkLineNumber lineNumber;;
  len ← buffer (tree (PieceTree.getLineLength lineNumber)); mret (len + 1).
Definition getLineFirstNonWhitespaceColumn (lineNumber : Z) : T Z :=
  _assertNotDisposed;; checkLineNumber lineNumber;; buffer (TextBuffer.getLineFirstNonWhitespaceColumn lineNumber).
Definition getLineLastNonWhitespaceColumn (lineNumber : Z) : T Z :=
  _assertNotDisposed;; checkLineNumber lineNumber;; buffer (TextBuffer.getLineLastNonWhitespaceColumn lineNumber).

(** ** Validation *)

(** Line numbers and columns are integers here: the tests for other values and the
    calls of [Math.floor] are the identity on them. *)

(** one end of [_validateRangeRelaxedNoAllocations] *)
Definition relaxedPosition (linesCount lineNumber column : Z) : T Position.t :=
  if lineNumber <? 1 then mret (Position.new 1 1)
  else if linesCount <? lineNumber then
    maxColumn ← getLineMaxColumn linesCount; mret (Position.new linesCount maxColumn)
  else if column <=? 1 then mret (Position.new lineNumber 1)
  else
    maxColumn ← getLineMaxColumn lineNumber;
    mret (Position.new lineNumber (if maxColumn <=? column then maxColumn else column)).

(** [isRange]: the argument is a [Range] and not a [Selection] *)
Definition _validateRangeRelaxedNoAllocations (isRange : bool) (range : Range.t) : T Range.t :=
  linesCount ← buffer (tree PieceTree.getLineCount);
  start ← relaxedPosition linesCount (Range.startLineNumber range) (Range.startColumn range);
  end_ ← relaxedPosition linesCount (Range.endLineNumber range) (Range.endColumn range);
  if (Range.startLineNumber range === Position.lineNumber start) && (Range.startColumn range === Position.column start) &&
     (Range.endLineNumber range === Position.lineNumber end_) && (Range.endColumn range === Position.column end_) && isRange
  then mret range
  else mret (Range.new (Position.lineNumber start) (Position.column start) (Position.lineNumber end_) (Position.column end_)).

Definition _isValidPosition (lineNumber column : Z) (validationType : StringOffsetValidationType) : T bool :=
  if (lineNumber <? 1) || (column <? 1) then mret false
  else if (int32 lineNumber !== lineNumber) || (int32 column !== column) then mret false
  else
    lineCount ← buffer (tree PieceTree.getLineCount);
    if lineCount <? lineNumber then mret false
    else if column === 1 then mret true
    else
      maxColumn ← getLineMaxColumn lineNumber;
      if maxColumn <? column then mret false
      else
        match validationType with
        | SurrogatePairs =>
            charCodeBefore ← buffer (tree (getLineCharCode lineNumber (column - 2)));
            mret (negb (strings.isHighSurrogate charCodeBefore))
        | Relaxed => mret true
        end.

Definition _validatePosition (lineNumber column : Z) (validationType : StringOffsetValidationType) : T Position.t :=
  lineCount ← buffer (tree PieceTree.getLineCount);
  if lineNumber <? 1 then mret (Position.new 1 1)
  else if lineCount <? lineNumber then
    maxColumn ← getLineMaxColumn lineCount; mret (Position.new lineCount maxColumn)
  else if column <=? 1 then mret (Position.new lineNumber 1)
  else
    maxColumn ← getLineMaxColumn lineNumber;
    if maxColumn <=? column then mret (Position.new lineNumber maxColumn)
    else
      match validationType with
      | SurrogatePairs =>
          charCodeBefore ← buffer (tree (getLineCharCode lineNumber (column - 2)));
          if strings.isHighSurrogate charCodeBefore then mret (Position.new lineNumber (column - 1))
          else mret (Position.new lineNumber column)
      | Relaxed => mret (Position.new lineNumber column)
      end.

(** [isPosition]: the argument is a [Position] *)
Definition validatePosition (isPosition : bool) (position : Position.t) : T Position.t :=
  _assertNotDisposed;;
  valid ← (if isPosition : bool then _isValidPosition (Position.lineNumber position) (Position.column position) SurrogatePairs
           else mret false);
  if valid : bool then mret position
  else _validatePosition (Position.lineNumber position) (Position.column position) SurrogatePairs.

(** whether the start and the end of a range lie inside of a surrogate pair *)
Definition insidePairs (startLineNumber startColumn endLineNumber endColumn : Z) : T (bool * bool) :=
  charCodeBeforeStart ← (if 1 <? startColumn then buffer (tree (getLineCharCode startLineNumber (startColumn - 2))) else mret 0);
  charCodeBeforeEnd ←
    (if 1 <? endColumn then
       len ← buffer (tree (PieceTree.getLineLength endLineNumber));
       if endColumn <=? len then buffer (tree (getLineCharCode endLineNumber (endColumn - 2))) else mret 0
     else mret 0);
  mret (strings.isHighSurrogate charCodeBeforeStart, strings.isHighSurrogate charCodeBeforeEnd).

(** with the type of its only caller, [SurrogatePairs] *)
Definition _isValidRange (range : Range.t) : T bool :=
  validStart ← _isValidPosition (Range.startLineNumber range) (Range.startColumn range) Relaxed;
  if negb validStart then mret false else
  validEnd ← _isValidPosition (Range.endLineNumber range) (Range.endColumn range) Relaxed;
  if negb validEnd then mret false else
  inside ← insidePairs (Range.startLineNumber range) (Range.startColumn range) (Range.endLineNumber range) (Range.endColumn range);
  mret (negb (fst inside) && negb (snd inside)).

Definition validateRange (isRange : bool) (_range : Range.t) : T Range.t :=
  _assertNotDisposed;;
  valid ← (if isRange : bool then _isValidRange _range else mret false);
  if valid : bool then mret _range else
  start ← _validatePosition (Range.startLineNumber _range) (Range.startColumn _range) Relaxed;
  end_ ← _validatePosition (Range.endLineNumber _range) (Range.endColumn _range) Relaxed;
  let startLineNumber := Position.lineNumber start in
  let startColumn := Position.column start in
  let endLineNumber := Position.lineNumber end_ in
  let endColumn := Position.column end_ in
  inside ← insidePairs startLineNumber startColumn endLineNumber endColumn;
  let '(startInsideSurrogatePair, endInsideSurrogatePair) := inside in
  if negb startInsideSurrogatePair && negb endInsideSurrogatePair then
    mret (Range.new startLineNumber startColumn endLineNumber endColumn)
  else if (startLineNumber === endLineNumber) && (startColumn === endColumn) then
    mret (Range.new startLineNumber (startColumn - 1) endLineNumber (endColumn - 1))
  else if startInsideSurrogatePair && endInsideSurrogatePair then
    mret (Range.new startLineNumber (startColumn - 1) endLineNumber (endColumn + 1))
  else if startInsideSurrogatePair then mret (Range.new startLineNumber (startColumn - 1) endLineNumber endColumn)
  else mret (Range.new startLineNumber startColumn endLineNumber (endColumn + 1)).

Definition getFullModelRange : T Range.t :=
  _assertNotDisposed;;
  lineCount ← getLineCount;
  maxColumn ← getLineMaxColumn lineCount;
  mret (Range.new 1 1 lineCount maxColumn).

(** ** Reads *)

Definition getOffsetAt (rawPosition : Position.t) : T Z :=
  _assertNotDisposed;;
  position ← _validatePosition (Position.lineNumber rawPosition) (Position.column rawPosition) Relaxed;
  buffer (tree (PieceTree.getOffsetAt (Position.lineNumber position) (Position.column position))).

Definition getPositionAt (rawOffset : Z) : T Position.t :=
  _assertNotDisposed;;
  len ← buffer (tree getLength);
  buffer (tree (PieceTree.getPositionAt (Z.min len (Z.max 0 rawOffset)))).

Definition modifyPosition (rawPosition : Position.t) (offset : Z) : T Position.t :=
  _assertNotDisposed;;
  o ← getOffsetAt rawPosition;
  let candidate := o + offset in
  len ← buffer (tree getLength);
  getPositionAt (Z.min len (Z.max 0 candidate)).

Definition getValueInRange (isRange : bool) (rawRange : Range.t) (eol : EndOfLinePreference) : T jsstring :=
  _assertNotDisposed;; range ← validateRange isRange rawRange; buffer (TextBuffer.getValueInRange range eol).
Definition getValueLengthInRange (isRange : bool) (rawRange : Range.t) (eol : EndOfLinePreference) : T Z :=
  _assertNotDisposed;; range ← validateRange isRange rawRange; buffer (TextBuffer.getValueLengthInRange range eol).
Definition getCharacterCountInRange (isRange : bool) (rawRange : Range.t) (eol : EndOfLinePreference) : T Z :=
  _assertNotDisposed;; range ← validateRange isRange rawRange; buffer (TextBuffer.getCharacterCountInRange range eol).

Definition getValue (eol : EndOfLinePreference) (preserveBOM : bool) : T jsstring :=
  _assertNotDisposed;;
  fullModelRange ← getFullModelRange;
  fullModelValue ← getValueInRange true fullModelRange eol;
  if preserveBOM then bom ← buffer getBOM; mret (bom ++ fullModelValue) else mret fullModelValue.

Definition getValueLength (eol : EndOfLinePreference) (preserveBOM : bool) : T Z :=
  _assertNotDisposed;;
  fullModelRange ← getFullModelRange;
  fullModelValue ← getValueLengthInRange true fullModelRange eol;
  if preserveBOM then bom ← buffer getBOM; mret (zlen bom + fullModelValue) else mret fullModelValue.

(** ** Events *)

(** The tokens and the brackets of the model, which get the change before the
    listeners, are not modelled. *)
Definition _emitContentChangedEvent (rawChange : ModelRawContentChangedEvent.t) (change : IModelContentChangedEvent.t) : T unit :=
  disposing ← this __isDisposing;
  if disposing : bool then mret tt
  else update (fun m => set_emitter (Emitter.fire (InternalModelContentChangeEvent.mk rawChange change) (_eventEmitter m)) m).

Definition _createContentChanged2 (range : Range.t) (rangeOffset rangeLength : Z) (text : jsstring)
    (isUndoing isRedoing isFlush isEolChange : bool) : T IModelContentChangedEvent.t :=
  eol ← buffer (tree PieceTree.getEOL);
  versionId ← getVersionId;
  mret (IModelContentChangedEvent.mk [IInternalModelContentChange.mk range rangeLength text rangeOffset false]
          eol versionId isUndoing isRedoing isFlush isEolChange).

(** ** The whole value *)

(** The undo stack, which is cleared here, is not part of the model. *)
Definition _setValueFromTextBuffer (textBuffer : Buf.t) : T unit :=
  _assertNotDisposed;;
  oldFullModelRange ← getFullModelRange;
  oldModelValueLength ← getValueLengthInRange true oldFullModelRange TextDefined;
  endLineNumber ← getLineCount;
  endColumn ← getLineMaxColumn endLineNumber;
  update (set_buffer textBuffer);;
  _increaseVersionId;;
  update (set_decorations new_DecorationsTrees);;
  update (set_trimLines None);;
  versionId ← this _versionId;
  value ← getValue TextDefined false;
  change ← _createContentChanged2 (Range.new 1 1 endLineNumber endColumn) 0 oldModelValueLength value false false true false;
  _emitContentChangedEvent (ModelRawContentChangedEvent.new [ModelRawFlush] versionId false false) change.

Definition setEOL (eol : EndOfLineSequence) : T unit :=
  _assertNotDisposed;;
  let newEOL := match eol with SeqCRLF => [CarriageReturn; LineFeed] | SeqLF => [LineFeed] end in
  currentEOL ← buffer (tree PieceTree.getEOL);
  if bool_decide (currentEOL = newEOL) then mret tt
  else
    oldFullModelRange ← getFullModelRange;
    oldModelValueLength ← getValueLengthInRange true oldFullModelRange TextDefined;
    endLineNumber ← getLineCount;
    endColumn ← getLineMaxColumn endLineNumber;
    update (fun m => set_decorations (_onBeforeEOLChange (_buffer m) (_versionId m) (_decorationsTree m)) m);;
    buffer (TextBuffer.setEOL newEOL);;
    _increaseVersionId;;
    update (fun m => set_decorations (_onAfterEOLChange (_buffer m) (_versionId m) (_decorationsTree m)) m);;
    versionId ← this _versionId;
    value ← getValue TextDefined false;
    change ← _createContentChanged2 (Range.new 1 1 endLineNumber endColumn) 0 oldModelValueLength value false false false true;
    _emitContentChangedEvent (ModelRawContentChangedEvent.new [ModelRawEOLChanged] versionId false false) change.

(** ** Edits *)

(** An edit operation: one that is validated already, or one with any range
    ([isRange] as for [validateRange]) and its other properties. *)
Inductive IIdentifiedSingleEditOperation :=
  | Validated (op : rawOp)
  | Raw (isRange : bool) (op : rawOp).

Definition _validateEditOperation (rawOperation : IIdentifiedSingleEditOperation) : T rawOp :=
  match rawOperation with
  | Validated op => mret op
  | Raw isRange op =>
      range ← validateRange isRange (ValidAnnotatedEditOperation.range op);
      mret (ValidAnnotatedEditOperation.mk (ValidAnnotatedEditOperation.identifier op) range (ValidAnnotatedEditOperation.text op)
              (ValidAnnotatedEditOperation.forceMoveMarkers op) (ValidAnnotatedEditOperation.isAutoWhitespaceEdit op)
              (ValidAnnotatedEditOperation._isTracked op))
  end.

Fixpoint _validateEditOperations (rawOperations : list IIdentifiedSingleEditOperation) : T (list rawOp) :=
  match rawOperations with
  | [] => mret []
  | op :: rawOperations => op ← _validateEditOperation op; ops ← _validateEditOperations rawOperations; mret (op :: ops)
  end.

(** the loop over the edited lines of a change, from the last to the first *)
Fixpoint editedLines (j : nat) (startLineNumber currentEditStartLineNumber : Z) (queue : ArrayQueue.t LineInjectedText.t)
    : T (list ModelRawChange) :=
  let editLineNumber := startLineNumber + Z.of_nat j in
  let currentEditLineNumber := currentEditStartLineNumber + Z.of_nat j in
  let queue := snd (ArrayQueue.takeFromEndWhile (fun r => currentEditLineNumber <? LineInjectedText.lineNumber r) queue) in
  let '(decorationsInCurrentLine, queue) :=
    ArrayQueue.takeFromEndWhile (fun r => LineInjectedText.lineNumber r === currentEditLineNumber) queue in
  content ← getLineContent currentEditLineNumber;
  rest ← (match j with
          | O => mret []
          | S j => editedLines j startLineNumber currentEditStartLineNumber queue
          end);
  mret (ModelRawLineChanged editLineNumber content decorationsInCurrentLine :: rest).

(** the loop over the inserted lines of a change *)
Fixpoint insertedLines (n : nat) (lineNumber : Z) (queue : ArrayQueue.t LineInjectedText.t)
    : T (list jsstring * list (option (list LineInjectedText.t))) :=
  match n with
  | O => mret ([], [])
  | S n =>
      content ← getLineContent lineNumber;
      let queue := snd (ArrayQueue.takeWhile (fun r => LineInjectedText.lineNumber r <? lineNumber) queue) in
      let '(injected, queue) := ArrayQueue.takeWhile (fun r => LineInjectedText.lineNumber r === lineNumber) queue in
      rest ← insertedLines n (lineNumber + 1) queue;
      mret (content :: fst rest, injected :: snd rest)
  end.

(** one round of the loop over the content changes: the changes of lines, and by how
    much the line count grows *)
Definition rawChangesOf (newLineCount lineCount : Z) (change : IInternalModelContentChange.t) : T (list ModelRawChange * Z) :=
  let '(eolCount, _, _, _) := eolCounter.countEOL (IInternalModelContentChange.text change) in
  let startLineNumber := Range.startLineNumber (IInternalModelContentChange.range change) in
  let endLineNumber := Range.endLineNumber (IInternalModelContentChange.range change) in
  let deletingLinesCnt := endLineNumber - startLineNumber in
  let insertingLinesCnt := eolCount in
  let editingLinesCnt := Z.min deletingLinesCnt insertingLinesCnt in
  let changeLineCountDelta := insertingLinesCnt - deletingLinesCnt in
  let currentEditStartLineNumber := newLineCount - lineCount - changeLineCountDelta + startLineNumber in
  let firstEditLineNumber := currentEditStartLineNumber in
  let lastInsertedLineNumber := currentEditStartLineNumber + insertingLinesCnt in
  from ← getOffsetAt (Position.new firstEditLineNumber 1);
  maxColumn ← getLineMaxColumn lastInsertedLineNumber;
  to ← getOffsetAt (Position.new lastInsertedLineNumber maxColumn);
  decorations ← (fun m =>
    let '(decorations, tree) := getInjectedTextInInterval (_buffer m) (_versionId m) from to 0 (_decorationsTree m) in
    Ret (decorations, set_decorations tree m));
  let injectedTextInEditedRange := LineInjectedText.fromDecorations decorations in
  edited ← editedLines (Z.to_nat editingLinesCnt) startLineNumber currentEditStartLineNumber (ArrayQueue.new injectedTextInEditedRange);
  let deleted :=
    if editingLinesCnt <? deletingLinesCnt then
      let spliceStartLineNumber := startLineNumber + editingLinesCnt in
      [ModelRawLinesDeleted (spliceStartLineNumber + 1) endLineNumber]
    else [] in
  inserted ←
    (if editingLinesCnt <? insertingLinesCnt then
       let spliceLineNumber := startLineNumber + editingLinesCnt in
       let cnt := insertingLinesCnt - editingLinesCnt in
       let fromLineNumber := newLineCount - lineCount - cnt + spliceLineNumber + 1 in
       r ← insertedLines (Z.to_nat cnt) fromLineNumber (ArrayQueue.new injectedTextInEditedRange);
       mret [ModelRawLinesInserted (spliceLineNumber + 1) (startLineNumber + insertingLinesCnt) (fst r) (snd r)]
     else mret []);
  mret (edited ++ deleted ++ inserted, changeLineCountDelta).

Fixpoint rawChangesOfAll (newLineCount lineCount : Z) (changes : list IInternalModelContentChange.t) : T (list ModelRawChange) :=
  match changes with
  | [] => mret []
  | change :: changes =>
      r ← rawChangesOf newLineCount lineCount change;
      rest ← rawChangesOfAll newLineCount (lineCount + snd r) changes;
      mret (fst r ++ rest)
  end.

(** the first pass over the content changes *)
Definition acceptChanges (changes : list IInternalModelContentChange.t) (tree : D) : D :=
  foldl (fun tree change =>
    acceptReplace (IInternalModelContentChange.rangeOffset change) (IInternalModelContentChange.rangeLength change)
      (zlen (IInternalModelContentChange.text change)) (IInternalModelContentChange.forceMoveMarkers change) tree) tree changes.

Definition _doApplyEdits (rawOperations : list rawOp) (computeUndoEdits : bool) : T (option (list reverseOp)) :=
  oldLineCount ← buffer (tree PieceTree.getLineCount);
  trim ← this _trimAutoWhitespace;
  result ← buffer (TextBuffer.applyEdits rawOperations trim computeUndoEdits);
  newLineCount ← buffer (tree PieceTree.getLineCount);
  let contentChanges := ApplyEditsResult.changes result in
  update (set_trimLines (ApplyEditsResult.trimAutoWhitespaceLineNumbers result));;
  (if negb (zlen contentChanges === 0) then
     update (fun m => set_decorations (acceptChanges contentChanges (_decorationsTree m)) m);;
     _increaseVersionId;;
     rawContentChanges ← rawChangesOfAll newLineCount oldLineCount contentChanges;
     versionId ← getVersionId;
     isUndoing ← this _isUndoing;
     isRedoing ← this _isRedoing;
     eol ← buffer (tree PieceTree.getEOL);
     _emitContentChangedEvent (ModelRawContentChangedEvent.new rawContentChanges versionId isUndoing isRedoing)
       (IModelContentChangedEvent.mk contentChanges eol versionId isUndoing isRedoing false false)
   else mret tt);;
  mret (ApplyEditsResult.reverseEdits result).

(** A body between [beginDeferredEmit] and [endDeferredEmit] of the emitter of
    contents. The call in [finally] is that of a body that returns: a [Throw] of the
    model carries no state. *)
Definition deferred {A} (resultingSelection : option (list Selection.t)) (c : T A) : T A :=
  update (fun m => set_emitter (Emitter.beginDeferredEmit (_eventEmitter m)) m);;
  a ← c;
  update (fun m => set_emitter (Emitter.endDeferredEmit resultingSelection (_eventEmitter m)) m);;
  mret a.

Definition applyEdits (rawOperations : list IIdentifiedSingleEditOperation) (computeUndoEdits : bool) : T (option (list reverseOp)) :=
  deferred None (operations ← _validateEditOperations rawOperations; _doApplyEdits operations computeUndoEdits).

(** ** Undo and redo *)

Definition _applyUndoRedoEdits (edits : list IIdentifiedSingleEditOperation) (eol : EndOfLineSequence) (isUndoing isRedoing : bool)
    (resultingAlternativeVersionId : Z) (resultingSelection : option (list Selection.t)) : T unit :=
  update (fun m => set_emitter (Emitter.beginDeferredEmit (_eventEmitter m)) m);;
  update (set_undoing isUndoing isRedoing);;
  applyEdits edits false;;
  setEOL eol;;
  _overwriteAlternativeVersionId resultingAlternativeVersionId;;
  update (set_undoing false false);;
  update (fun m => set_emitter (Emitter.endDeferredEmit resultingSelection (_eventEmitter m)) m).

(** an edit of the range between two offsets *)
Definition editBetween (from to : Z) (text : jsstring) : T IIdentifiedSingleEditOperation :=
  rangeStart ← getPositionAt from;
  rangeEnd ← getPositionAt to;
  mret (Raw true (ValidAnnotatedEditOperation.mk None
    (Range.new (Position.lineNumber rangeStart) (Position.column rangeStart) (Position.lineNumber rangeEnd) (Position.column rangeEnd))
    (Some text) false false false)).

Fixpoint mapM_T {X Y} (f : X -> T Y) (l : list X) : T (list Y) :=
  match l with [] => mret [] | x :: l => y ← f x; ys ← mapM_T f l; mret (y :: ys) end.

Definition _applyUndo (changes : list TextChange.t) (eol : EndOfLineSequence) (resultingAlternativeVersionId : Z)
    (resultingSelection : option (list Selection.t)) : T unit :=
  edits ← mapM_T (fun change => editBetween (TextChange.newPosition change) (TextChange.newEnd change) (TextChange.oldText change)) changes;
  _applyUndoRedoEdits edits eol true false resultingAlternativeVersionId resultingSelection.

Definition _applyRedo (changes : list TextChange.t) (eol : EndOfLineSequence) (resultingAlternativeVersionId : Z)
    (resultingSelection : option (list Selection.t)) : T unit :=
  edits ← mapM_T (fun change => editBetween (TextChange.oldPosition change) (TextChange.oldEnd change) (TextChange.newText change)) changes;
  _applyUndoRedoEdits edits eol false true resultingAlternativeVersionId resultingSelection.

(** ** Trimming whitespace *)

(** whether the line may be trimmed beside the incoming edits *)
Definition allowTrimLine (trimLineNumber maxLineColumn : Z) (incomingEdits : list (Range.t * option jsstring)) : bool :=
  forallb (fun '(editRange, editText) =>
    (trimLineNumber <? Range.startLineNumber editRange) || (Range.endLineNumber editRange <? trimLineNumber) ||
    ((trimLineNumber === Range.startLineNumber editRange) && (Range.startColumn editRange === maxLineColumn) && Range.isEmpty editRange &&
     match editText with Some (c :: _) => c === LineFeed | _ => false end) ||
    ((trimLineNumber === Range.startLineNumber editRange) && (Range.startColumn editRange === 1) && Range.isEmpty editRange &&
     match editText with Some text => bool_decide (last text = Some LineFeed) | None => false end)) incomingEdits.

Definition editsAreNearCursors (beforeCursorState : option (list Selection.t)) (incomingEdits : list (Range.t * option jsstring)) : bool :=
  match beforeCursorState with
  | None => true
  | Some sels =>
      forallb (fun sel => existsb (fun '(editRange, _) =>
        negb (Range.endLineNumber (Selection.range sel) <? Range.startLineNumber editRange) &&
        negb (Range.endLineNumber editRange <? Range.startLineNumber (Selection.range sel))) incomingEdits) sels
  end.

(** the loop over the lines to trim *)
Fixpoint trimEdits (trimAutoWhitespaceLines : list Z) (incomingEdits : list (Range.t * option jsstring)) : T (list rawOp) :=
  match trimAutoWhitespaceLines with
  | [] => mret []
  | trimLineNumber :: trimAutoWhitespaceLines =>
      maxLineColumn ← getLineMaxColumn trimLineNumber;
      rest ← trimEdits trimAutoWhitespaceLines incomingEdits;
      mret ((if allowTrimLine trimLineNumber maxLineColumn incomingEdits then
               [ValidAnnotatedEditOperation.mk None (Range.new trimLineNumber 1 trimLineNumber maxLineColumn) None false false false]
             else []) ++ rest)
  end.

(** The edits [_pushEditOperations] hands to the undo stack. *)
Definition withTrimEdits (beforeCursorState : option (list Selection.t)) (editOperations : list rawOp) : T (list rawOp) :=
  trim ← this _trimAutoWhitespace;
  lines ← this _trimAutoWhitespaceLines;
  match (if trim : bool then lines else None) with
  | Some lines =>
      incomingEdits ← mapM_T (fun op =>
        range ← validateRange true (ValidAnnotatedEditOperation.range op); mret (range, ValidAnnotatedEditOperation.text op)) editOperations;
      trims ← (if editsAreNearCursors beforeCursorState incomingEdits then trimEdits lines incomingEdits else mret []);
      update (set_trimLines None);;
      mret (editOperations ++ trims)
  | None => mret editOperations
  end.

End Model.
