(* ===== verification/TextModelReads.v ===== *)
(** * Reading and validating with a text model

    Positions and ranges a text model accepts: what [_validatePosition],
    [validatePosition] and [validateRange] make of any line numbers and columns, and the
    conversions between positions and offsets. *)

From stdpp Require Import gmap.
From S2P Require Import Prelude Position Range Selection Buffer TextChange RBTree RBTreeRep RBTreeOps RBTreeInsert RBTreeDelete RBTreeRemove.
From S2P Require Import PieceBuffers PieceTree PieceTreeEdit PieceTreeNodes PieceTreeRead PieceTreeList PieceTreeText.
From S2P Require Import PieceTreePieces PieceTreeChange PieceTreeSeal PieceTreeInsert PieceTreeDocument.
From S2P Require Import PieceTreeErase PieceTreeCreate PieceTreeChars PieceTreeLines PieceTreeRange PieceTreeContent PieceTreeSession.
From S2P Require Import Strings TextBuffer TextBufferSort TextEdits TextBufferEdits TextBufferInverse TextBufferApply TextLines TextModelEvents TextModel.
Import TextModel.

(** ** Running the monad *)

Section Runs.
Context {D : Type} {DT : Decorations D}.

Lemma tbind_run {X Y} (c : T X) (f : X -> T Y) (m m' : TextModel.t D) x : c m = Ret (x, m') -> (c ≫= f) m = f x m'.
Proof. intros H. unfold mbind, T_bind. by rewrite H. Qed.

Lemma buffer_run {X} (c : B X) (m : TextModel.t D) x b : c (_buffer m) = Ret (x, b) -> buffer c m = Ret (x, set_buffer b m).
Proof. intros H. unfold buffer. by rewrite H. Qed.

Lemma set_buffer_same (m : TextModel.t D) : set_buffer (_buffer m) m = m.
Proof. by destruct m. Qed.

Lemma buffer_read {X} (c : B X) (m : TextModel.t D) x : c (_buffer m) = Ret (x, _buffer m) -> buffer c m = Ret (x, m).
Proof. intros H. by rewrite (buffer_run _ _ _ _ H), set_buffer_same. Qed.

(** The text model is in use, and its text buffer serves the document. *)
Record models (m : TextModel.t D) (d : Doc.t) : Prop := mkmodels {
  md_alive : _isDisposed m = false;
  md_serves : serves (_buffer m) d
}.

Lemma assert_run m d : models m d -> _assertNotDisposed m = Ret (tt, m).
Proof. intros [H _]. unfold _assertNotDisposed. erewrite tbind_run by reflexivity. by rewrite H. Qed.
End Runs.

(** Runs the checks and reads at the head of a body. *)
Ltac asserted := erewrite tbind_run by (eapply assert_run; eassumption).

Section Reads.
Context {D : Type} {DT : Decorations D}.
Context (m : TextModel.t D) (d : Doc.t) (Hm : models m d).
Notation str := (Doc.content d).
Notation lines := (1 + breaks str).

Lemma lineCount_b : buffer (tree PieceTree.getLineCount) m = Ret (lines, m).
Proof. apply buffer_read, getLineCount_b, Hm. Qed.

Lemma getLineCount_run : getLineCount m = Ret (lines, m).
Proof. unfold getLineCount. asserted. apply lineCount_b. Qed.

Lemma checkLineNumber_run n : 1 <= n <= lines -> checkLineNumber n m = Ret (tt, m).
Proof.
  intros Hn. unfold checkLineNumber. erewrite tbind_run by apply getLineCount_run.
  by rewrite (proj2 (Z.ltb_ge n 1)), (proj2 (Z.ltb_ge lines n)) by lia.
Qed.

Lemma getLineMaxColumn_run n : 1 <= n <= lines -> getLineMaxColumn n m = Ret (1 + zlen (line_text str n), m).
Proof.
  intros Hn. unfold getLineMaxColumn. asserted. erewrite tbind_run by (by apply checkLineNumber_run).
  erewrite tbind_run by (apply buffer_read, (getLineLength_b _ d); [apply Hm | done]). by rewrite Z.add_comm.
Qed.

Lemma lineLength_b n : 1 <= n <= lines -> buffer (tree (PieceTree.getLineLength n)) m = Ret (zlen (line_text str n), m).
Proof. intros Hn. apply buffer_read, (getLineLength_b _ d); [apply Hm | done]. Qed.

Lemma charCode_b n i u : 1 <= n <= lines -> znth (line_text str n) i = Some u -> buffer (tree (getLineCharCode n i)) m = Ret (u, m).
Proof. intros Hn Hu. by apply buffer_read, (getLineCharCode_b _ d); [apply Hm | ..]. Qed.

(** ** Positions *)

(** The position of the document next to any line number and column. *)
Definition clamp_position (n c : Z) : Position.t :=
  if n <? 1 then Position.new 1 1
  else if lines <? n then Position.new lines (1 + zlen (line_text str lines))
  else Position.new n (Z.max 1 (Z.min c (1 + zlen (line_text str n)))).

Lemma clamp_place n c : exists o, place str (Position.lineNumber (clamp_position n c)) (Position.column (clamp_position n c)) o.
Proof.
  unfold clamp_position. pose proof (breaks_nonneg str). destruct (Z.ltb_spec n 1); [exists 0; apply place_first |].
  destruct (Z.ltb_spec lines n); cbn; apply place_exists; try lia.
  - pose proof (zlen_nonneg (line_text str lines)). lia.
  - pose proof (zlen_nonneg (line_text str n)). lia.
Qed.

Lemma clamp_id n c o : place str n c o -> clamp_position n c = Position.new n c.
Proof.
  intros P. destruct (place_in_line _ _ _ _ P) as [Hn Hc]. unfold clamp_position.
  rewrite (proj2 (Z.ltb_ge _ _)), (proj2 (Z.ltb_ge _ _)) by lia. f_equal. lia.
Qed.

Lemma validate_relaxed n c : _validatePosition n c Relaxed m = Ret (clamp_position n c, m).
Proof.
  unfold _validatePosition, clamp_position. pose proof (breaks_nonneg str). erewrite tbind_run by apply lineCount_b.
  destruct (Z.ltb_spec n 1); [done |]. destruct (Z.ltb_spec lines n).
  { by erewrite tbind_run by (apply getLineMaxColumn_run; lia). }
  pose proof (zlen_nonneg (line_text str n)). destruct (Z.leb_spec c 1).
  { unfold mret, T_ret. do 3 f_equal. lia. }
  erewrite tbind_run by (apply getLineMaxColumn_run; lia). destruct (Z.leb_spec (1 + zlen (line_text str n)) c); unfold mret, T_ret; do 3 f_equal; lia.
Qed.

(** A unit of a surrogate pair before the offset. *)
Definition high_before (o : Z) : bool := match znth str (o - 1) with Some u => strings.isHighSurrogate u | None => false end.

(** The offset lies between the units of a surrogate pair. *)
Definition splits_pair (o : Z) : Prop :=
  exists u v, znth str (o - 1) = Some u /\ znth str o = Some v /\ strings.isHighSurrogate u = true /\ strings.isLowSurrogate v = true.

Lemma break_not_high u : is_break u -> strings.isHighSurrogate u = false.
Proof. by intros [-> | ->]. Qed.

Lemma break_not_low u : is_break u -> strings.isLowSurrogate u = false.
Proof. by intros [-> | ->]. Qed.

Lemma high_not_low u : strings.isHighSurrogate u = true -> strings.isLowSurrogate u = false.
Proof. unfold strings.isHighSurrogate, strings.isLowSurrogate. rewrite andb_true_iff, !Z.leb_le. intros H. rewrite (proj2 (Z.leb_gt _ _)) by lia. done. Qed.

Lemma line_start_not_high n o : place str n 1 o -> high_before o = false.
Proof. intros P. unfold high_before. destruct (znth str (o - 1)) as [u |] eqn:Hu; [| done]. by eapply break_not_high, line_start_before. Qed.

Lemma not_high_not_split o : high_before o = false -> ~ splits_pair o.
Proof. unfold high_before. intros H (u & v & Hu & _ & Hh & _). rewrite Hu in H. congruence. Qed.

Lemma before_high_not_split o : high_before (o + 1) = true -> ~ splits_pair o.
Proof.
  unfold high_before. replace (o + 1 - 1) with o by lia. intros H (u & v & _ & Hv & _ & Hl). rewrite Hv in H. apply high_not_low in H. congruence.
Qed.

Lemma line_end_not_split n c o : place str n c o -> zlen (line_text str n) < c -> ~ splits_pair o.
Proof.
  intros P Hc (u & v & _ & Hv & _ & Hl). destruct (place_in_line _ _ _ _ P) as [_ Hb].
  pose proof (line_end_after _ _ _ _ _ P ltac:(lia) Hv) as Hbr%break_not_low. congruence.
Qed.

Lemma codeBefore_run n c o : place str n c o -> 1 < c ->
  exists u, buffer (tree (getLineCharCode n (c - 2))) m = Ret (u, m) /\ strings.isHighSurrogate u = high_before o.
Proof.
  intros P Hc. destruct (place_before _ _ _ _ P Hc) as (u & H1 & H2 & _). destruct (place_in_line _ _ _ _ P) as [Hn _].
  exists u. split; [by apply charCode_b |]. unfold high_before. by rewrite H2.
Qed.

Lemma isValid_ok n c type : exists valid, _isValidPosition n c type m = Ret (valid, m) /\
  (valid = true -> exists o, place str n c o /\ (type = SurrogatePairs -> high_before o = false)).
Proof.
  unfold _isValidPosition. destruct (Z.ltb_spec n 1); [by exists false |]. destruct (Z.ltb_spec c 1); [by exists false |]. cbn [orb].
  destruct (_ || _); [by exists false |]. erewrite tbind_run by apply lineCount_b. destruct (Z.ltb_spec lines n); [by exists false |].
  pose proof (zlen_nonneg (line_text str n)). destruct (Z.eqb_spec c 1) as [-> |].
  { exists true. split; [done |]. intros _. destruct (place_exists str n 1) as [o P]; [lia | lia |]. exists o. split; [done |].
    intros _. by eapply line_start_not_high. }
  erewrite tbind_run by (apply getLineMaxColumn_run; lia). destruct (Z.ltb_spec (1 + zlen (line_text str n)) c); [by exists false |].
  destruct (place_exists str n c) as [o P]; [lia | lia |]. destruct type; [exists true; split; [done |]; intros _; by exists o |].
  destruct (codeBefore_run n c o P ltac:(lia)) as (u & Hu & Hh). erewrite tbind_run by exact Hu. rewrite Hh.
  eexists. split; [done |]. intros Hn%negb_true_iff. eauto.
Qed.

(** The position [p], at the offset [o], is what validation makes of a position of the
    document at the offset [o']: that one, or the one before. *)
Record settled (p : Position.t) (o o' : Z) : Prop := mksettled {
  se_place : place str (Position.lineNumber p) (Position.column p) o;
  se_whole : ~ splits_pair o;
  se_near : o' - 1 <= o <= o';
  se_stays : high_before o' = false -> o = o'
}.

Lemma settled_same n c o : place str n c o -> high_before o = false \/ zlen (line_text str n) < c -> settled (Position.new n c) o o.
Proof.
  intros P Hh. constructor; cbn; [done | | lia | done]. destruct Hh as [Hh | Hc]; [by apply not_high_not_split | by eapply line_end_not_split].
Qed.

Lemma validate_pairs n c o' : place str (Position.lineNumber (clamp_position n c)) (Position.column (clamp_position n c)) o' ->
  exists p o, _validatePosition n c SurrogatePairs m = Ret (p, m) /\ settled p o o'.
Proof.
  unfold _validatePosition, clamp_position. pose proof (breaks_nonneg str). intros P. erewrite tbind_run by apply lineCount_b.
  destruct (Z.ltb_spec n 1).
  { exists (Position.new 1 1), o'. split; [done |]. apply settled_same; [done |]. left. by eapply line_start_not_high. }
  destruct (Z.ltb_spec lines n).
  { erewrite tbind_run by (apply getLineMaxColumn_run; lia). eexists _, o'. split; [done |]. apply settled_same; [done |]. right. lia. }
  pose proof (zlen_nonneg (line_text str n)). destruct (Z.leb_spec c 1).
  { replace (Z.max 1 _) with 1 in P by lia. eexists _, o'. split; [done |]. apply settled_same; [done |]. left. by eapply line_start_not_high. }
  erewrite tbind_run by (apply getLineMaxColumn_run; lia). destruct (Z.leb_spec (1 + zlen (line_text str n)) c).
  { replace (Z.max 1 _) with (1 + zlen (line_text str n)) in P by lia. eexists _, o'. split; [done |]. apply settled_same; [done |]. right. lia. }
  replace (Z.max 1 _) with c in P by lia. cbn in P. destruct (codeBefore_run n c o' P ltac:(lia)) as (u & Hu & Hh).
  erewrite tbind_run by exact Hu. rewrite Hh. destruct (high_before o') eqn:Ho.
  - destruct (place_before _ _ _ _ P ltac:(lia)) as (_ & _ & _ & P'). eexists _, (o' - 1). split; [done |].
    constructor; cbn; [done | | lia | congruence]. apply before_high_not_split. by replace (o' - 1 + 1) with o' by lia.
  - eexists _, o'. split; [done |]. apply settled_same; [done | by left].
Qed.

Lemma validatePosition_ok isPosition p o' :
  place str (Position.lineNumber (clamp_position (Position.lineNumber p) (Position.column p)))
    (Position.column (clamp_position (Position.lineNumber p) (Position.column p))) o' ->
  exists p' o, validatePosition isPosition p m = Ret (p', m) /\ settled p' o o'.
Proof.
  intros P. unfold validatePosition. asserted. destruct isPosition; [| by apply validate_pairs].
  destruct (isValid_ok (Position.lineNumber p) (Position.column p) SurrogatePairs) as (valid & Hv & Hp). erewrite tbind_run by exact Hv.
  destruct valid; [| by apply validate_pairs]. destruct (Hp eq_refl) as (o & Po & Hh). exists p, o. split; [done |].
  rewrite (clamp_id _ _ _ Po) in P. cbn in P. pose proof (place_same_line _ _ _ _ _ _ P Po). assert (o' = o) as -> by lia.
  destruct p. apply settled_same; [done | left; by apply Hh].
Qed.

(** ** Ranges *)

Lemma insidePairs_run n1 c1 o1 n2 c2 o2 : place str n1 c1 o1 -> place str n2 c2 o2 ->
  insidePairs n1 c1 n2 c2 m = Ret ((high_before o1, high_before o2 && (c2 <=? zlen (line_text str n2))), m).
Proof.
  intros P1 P2. unfold insidePairs. destruct (place_in_line _ _ _ _ P1) as [_ B1]. destruct (place_in_line _ _ _ _ P2) as [L2 B2].
  assert (exists u, (if 1 <? c1 then buffer (tree (getLineCharCode n1 (c1 - 2))) else mret 0) m = Ret (u, m) /\ strings.isHighSurrogate u = high_before o1)
    as (u & Hu & Eu).
  { destruct (Z.ltb_spec 1 c1); [by apply codeBefore_run |]. assert (c1 = 1) as -> by lia. exists 0. split; [done |]. by rewrite (line_start_not_high _ _ P1). }
  erewrite tbind_run by exact Hu.
  assert (exists v, (if 1 <? c2 then len ← buffer (tree (PieceTree.getLineLength n2));
      if c2 <=? len then buffer (tree (getLineCharCode n2 (c2 - 2))) else mret 0 else mret 0) m = Ret (v, m) /\
      strings.isHighSurrogate v = high_before o2 && (c2 <=? zlen (line_text str n2))) as (v & Hv & Ev).
  { destruct (Z.ltb_spec 1 c2).
    - erewrite tbind_run by (by apply lineLength_b). destruct (c2 <=? zlen (line_text str n2)); [rewrite andb_true_r; by apply codeBefore_run |].
      exists 0. by rewrite andb_false_r.
    - assert (c2 = 1) as -> by lia. exists 0. split; [done |]. by rewrite (line_start_not_high _ _ P2). }
  erewrite tbind_run by exact Hv. unfold mret, T_ret. by rewrite Eu, Ev.
Qed.

(** The range is a range of the document that splits no pair, and it is what validation
    makes of two positions at the offsets [o1] and [o2]: a collapsed range stays
    collapsed and moves at most one unit to the left; any other grows by at most a unit
    at each end; nothing moves when no high surrogate precedes an end. *)
Record settled_range (range : Range.t) (o1 o2 : Z) : Prop := mksr {
  sr_spans : exists q1 q2, spans str range q1 q2 /\
    ((forall o, high_before o = true -> high_before (o + 1) = false) -> ~ splits_pair q1 /\ ~ splits_pair q2) /\
    (o1 = o2 -> q1 = q2 /\ o1 - 1 <= q1 <= o1) /\
    (o1 < o2 -> o1 - 1 <= q1 <= o1 /\ o2 <= q2 <= o2 + 1) /\
    (high_before o1 = false -> high_before o2 = false -> q1 = Z.min o1 o2 /\ q2 = Z.max o1 o2)
}.

Lemma new_spans n1 c1 o1 n2 c2 o2 : place str n1 c1 o1 -> place str n2 c2 o2 ->
  spans str (Range.new n1 c1 n2 c2) (Z.min o1 o2) (Z.max o1 o2).
Proof.
  intros P1 P2. pose proof (place_lt _ _ _ _ _ _ _ P2 P1) as Hlt. unfold Position.lt in Hlt. cbn in Hlt. unfold Range.new.
  destruct ((n2 <? n1) || ((n1 === n2) && (c2 <? c1))) eqn:Hsw.
  - assert (o2 < o1) by (apply Hlt; apply orb_true_iff in Hsw as [?%Z.ltb_lt | [->%Z.eqb_eq ?%Z.ltb_lt]%andb_true_iff]; lia).
    rewrite Z.min_r, Z.max_l by lia. by constructor; cbn; [| | lia].
  - apply orb_false_iff in Hsw as [?%Z.ltb_ge Hsw]. assert (~ o2 < o1).
    { rewrite <- Hlt. intros [? | [? ?]]; [lia |]. subst. rewrite Z.eqb_refl in Hsw. apply Z.ltb_ge in Hsw. lia. }
    rewrite Z.min_l, Z.max_r by lia. by constructor; cbn; [| | lia].
Qed.

Notation well_paired := (forall o, high_before o = true -> high_before (o + 1) = false).

Lemma settle n1 c1 q1 n2 c2 q2 o1 o2 : place str n1 c1 q1 -> place str n2 c2 q2 ->
  (well_paired -> ~ splits_pair q1 /\ ~ splits_pair q2) -> (o1 = o2 -> q1 = q2) -> o1 - 1 <= q1 <= o1 ->
  (o1 <> o2 -> o2 <= q2 <= o2 + 1) -> (high_before o1 = false -> high_before o2 = false -> q1 = o1 /\ q2 = o2) ->
  settled_range (Range.new n1 c1 n2 c2) o1 o2.
Proof.
  intros P1 P2 Hw He Hq1 Hq2 Hs. constructor. exists (Z.min q1 q2), (Z.max q1 q2). split; [by apply new_spans |].
  split; [| split; [| split]].
  - intros Hwp%Hw. destruct (Z.min_spec q1 q2) as [[_ ->] | [_ ->]], (Z.max_spec q1 q2) as [[_ ->] | [_ ->]]; tauto.
  - intros ->. rewrite He by done. lia.
  - lia.
  - intros H1 H2. destruct (Hs H1 H2) as [-> ->]. done.
Qed.

Lemma not_inside_end n c o : place str n c o -> high_before o && (c <=? zlen (line_text str n)) = false -> ~ splits_pair o.
Proof.
  intros P [Hh | Hc%Z.leb_gt]%andb_false_iff; [by apply not_high_not_split | by eapply line_end_not_split].
Qed.

Lemma validateRange_ok isRange range o1 o2 :
  let start := clamp_position (Range.startLineNumber range) (Range.startColumn range) in
  let end_ := clamp_position (Range.endLineNumber range) (Range.endColumn range) in
  (isRange = true -> Range.new (Range.startLineNumber range) (Range.startColumn range) (Range.endLineNumber range) (Range.endColumn range) = range) ->
  place str (Position.lineNumber start) (Position.column start) o1 -> place str (Position.lineNumber end_) (Position.column end_) o2 ->
  exists range', validateRange isRange range m = Ret (range', m) /\ settled_range range' o1 o2.
Proof.
  intros start end_ Hord P1 P2. unfold validateRange. asserted.
  assert (exists valid, (if isRange then _isValidRange range else mret false) m = Ret (valid, m) /\
    (valid = true -> settled_range range o1 o2)) as (valid & Hv & Hset).
  { destruct isRange; [| by exists false]. unfold _isValidRange.
    destruct (isValid_ok (Range.startLineNumber range) (Range.startColumn range) Relaxed) as (v1 & V1 & Q1). erewrite tbind_run by exact V1.
    destruct v1; [| by exists false]. cbn [negb]. destruct (Q1 eq_refl) as (q1 & R1 & _).
    destruct (isValid_ok (Range.endLineNumber range) (Range.endColumn range) Relaxed) as (v2 & V2 & Q2). erewrite tbind_run by exact V2.
    destruct v2; [| by exists false]. destruct (Q2 eq_refl) as (q2 & R2 & _). cbn [negb]. unfold start, end_ in *.
    rewrite (clamp_id _ _ _ R1) in P1. rewrite (clamp_id _ _ _ R2) in P2. cbn in P1, P2. clear q1 q2 R1 R2 Q1 Q2.
    erewrite tbind_run by (by apply insidePairs_run). eexists. split; [done |]. cbn [fst snd]. intros [H1%negb_true_iff H2%negb_true_iff]%andb_true_iff.
    rewrite <- (Hord eq_refl). apply (settle _ _ o1 _ _ o2); [done | done | | done | lia | lia | done].
    intros _. split; [by apply not_high_not_split | by eapply not_inside_end]. }
  erewrite tbind_run by exact Hv. destruct valid; [exists range; split; [done | by apply Hset] |]. clear Hv Hset.
  erewrite tbind_run by apply validate_relaxed. erewrite tbind_run by apply validate_relaxed. fold start end_.
  set (n1 := Position.lineNumber start) in *. set (c1 := Position.column start) in *. set (n2 := Position.lineNumber end_) in *. set (c2 := Position.column end_) in *.
  erewrite tbind_run by (by apply insidePairs_run).
  assert (high_before o1 = true -> place str n1 (c1 - 1) (o1 - 1) /\ ~ splits_pair (o1 - 1)) as Hleft.
  { intros Hh. split; [| apply before_high_not_split; by replace (o1 - 1 + 1) with o1 by lia].
    destruct (place_in_line _ _ _ _ P1) as [_ B1]. destruct (decide (c1 = 1)) as [E1 |]; [rewrite E1 in P1; by rewrite (line_start_not_high _ _ P1) in Hh |].
    by destruct (place_before _ _ _ _ P1 ltac:(lia)) as (_ & _ & _ & P). }
  assert (high_before o2 && (c2 <=? zlen (line_text str n2)) = true -> place str n2 (c2 + 1) (o2 + 1) /\ (well_paired -> ~ splits_pair (o2 + 1))) as Hright.
  { intros [Hh Hc%Z.leb_le]%andb_true_iff. destruct (place_after _ _ _ _ P2 Hc) as (u & _ & P). split; [done |].
    intros Hwp. by apply not_high_not_split, Hwp. }
  pose proof (not_inside_end _ _ _ P2) as Hend. pose proof (place_eq _ _ _ _ _ _ _ P1 P2) as Heq.
  destruct (high_before o1) eqn:H1, (high_before o2 && _) eqn:H2; cbn [negb andb].
  - destruct (Hleft eq_refl) as [L1 L2]. destruct (Hright eq_refl) as [R1 R2]. destruct ((n1 === n2) && (c1 === c2)) eqn:Hcol.
    + apply andb_true_iff in Hcol as [E1%Z.eqb_eq E2%Z.eqb_eq]. assert (o1 = o2) as He by tauto. rewrite <- E1, <- E2.
      eexists. split; [done |]. apply (settle _ _ (o1 - 1) _ _ (o1 - 1)); done || lia || congruence.
    + assert (o1 <> o2) by (intros [E1 E2]%Heq; rewrite E1, E2, !Z.eqb_refl in Hcol; done).
      eexists. split; [done |]. apply (settle _ _ (o1 - 1) _ _ (o2 + 1)); try done; try lia; try congruence. intros Hwp. split; [done | by apply R2].
  - destruct (Hleft eq_refl) as [L1 L2]. destruct ((n1 === n2) && (c1 === c2)) eqn:Hcol.
    + apply andb_true_iff in Hcol as [E1%Z.eqb_eq E2%Z.eqb_eq]. assert (o1 = o2) as He by tauto. rewrite <- E1, <- E2.
      eexists. split; [done |]. apply (settle _ _ (o1 - 1) _ _ (o1 - 1)); done || lia || congruence.
    + assert (o1 <> o2) by (intros [E1 E2]%Heq; rewrite E1, E2, !Z.eqb_refl in Hcol; done).
      eexists. split; [done |]. apply (settle _ _ (o1 - 1) _ _ o2); try done; try lia; try congruence. intros _. split; [done | by apply Hend].
  - destruct (Hright eq_refl) as [R1 R2]. destruct ((n1 === n2) && (c1 === c2)) eqn:Hcol.
    + apply andb_true_iff in Hcol as [E1%Z.eqb_eq E2%Z.eqb_eq]. assert (o1 = o2) as He by tauto. apply andb_true_iff in H2 as [H2 _]. congruence.
    + assert (o1 <> o2) by (intros [E1 E2]%Heq; rewrite E1, E2, !Z.eqb_refl in Hcol; done).
      eexists. split; [done |]. apply (settle _ _ o1 _ _ (o2 + 1)); try done; try lia.
      * intros Hwp. split; [by apply not_high_not_split | by apply R2].
      * intros _ Hh. rewrite Hh in H2. done.
  - eexists. split; [done |]. apply (settle _ _ o1 _ _ o2); try done; try lia. intros _. split; [by apply not_high_not_split | by apply Hend].
Qed.

(** A range of the document with its ends in order that splits no pair stays. *)
Lemma validateRange_stays isRange range o1 o2 :
  spans str range o1 o2 -> high_before o1 = false -> high_before o2 && (Range.endColumn range <=? zlen (line_text str (Range.endLineNumber range))) = false ->
  validateRange isRange range m = Ret (range, m).
Proof.
  intros Hs H1 H2. pose proof (range_new_spans _ _ _ _ Hs) as Hord. destruct Hs as [P1 P2 Hle]. unfold validateRange. asserted.
  assert (exists valid, (if isRange then _isValidRange range else mret false) m = Ret (valid, m)) as [valid Hv].
  { destruct isRange; [| by exists false]. unfold _isValidRange.
    destruct (isValid_ok (Range.startLineNumber range) (Range.startColumn range) Relaxed) as (v1 & V1 & _). erewrite tbind_run by exact V1.
    destruct v1; [| by exists false]. cbn [negb].
    destruct (isValid_ok (Range.endLineNumber range) (Range.endColumn range) Relaxed) as (v2 & V2 & _). erewrite tbind_run by exact V2.
    destruct v2; [| by exists false]. cbn [negb]. erewrite tbind_run by (by apply insidePairs_run). by eexists. }
  erewrite tbind_run by exact Hv. destruct valid; [done |]. do 2 erewrite tbind_run by apply validate_relaxed.
  rewrite (clamp_id _ _ _ P1), (clamp_id _ _ _ P2). cbn [Position.lineNumber Position.column]. erewrite tbind_run by (by apply insidePairs_run).
  rewrite H1, H2. cbn [negb andb]. by rewrite Hord.
Qed.

(** ** The whole value *)

Definition full_range : Range.t := Range.new 1 1 lines (1 + zlen (line_text str lines)).

Lemma full_spans : spans str full_range 0 (zlen str).
Proof.
  pose proof (zlen_nonneg str). pose proof (new_spans _ _ _ _ _ _ (place_first str) (place_end str)) as Hs. by rewrite Z.min_l, Z.max_r in Hs by lia.
Qed.

Lemma full_validated isRange : validateRange isRange full_range m = Ret (full_range, m).
Proof.
  apply (validateRange_stays _ _ 0 (zlen str)); [apply full_spans | eapply line_start_not_high, place_first |].
  pose proof (range_new_spans _ _ _ _ full_spans) as Hr. unfold full_range, Range.new.
  pose proof (breaks_nonneg str). pose proof (zlen_nonneg (line_text str lines)).
  rewrite (proj2 (Z.ltb_ge lines 1)) by lia. destruct (Z.eqb_spec 1 lines) as [He |]; cbn [orb andb];
    [rewrite (proj2 (Z.ltb_ge _ 1)) by lia |]; cbn; rewrite (proj2 (Z.leb_gt _ _)) by lia; apply andb_false_r.
Qed.

Lemma getFullModelRange_run : getFullModelRange m = Ret (full_range, m).
Proof.
  unfold getFullModelRange. asserted. erewrite tbind_run by apply getLineCount_run. pose proof (breaks_nonneg str).
  by erewrite tbind_run by (apply getLineMaxColumn_run; lia).
Qed.

Lemma getValue_run : getValue TextDefined false m = Ret (str, m).
Proof.
  unfold getValue. asserted. erewrite tbind_run by apply getFullModelRange_run. unfold getValueInRange.
  erewrite tbind_run; [reflexivity |]. asserted. erewrite tbind_run by apply full_validated.
  apply buffer_read. rewrite (getValueInRange_b _ d full_range 0 (zlen str) (md_serves _ _ Hm) full_spans).
  unfold slice. by rewrite zdrop_0, ztake_all by lia.
Qed.

Lemma getValueLength_run : getValueLengthInRange true full_range TextDefined m = Ret (zlen str, m).
Proof.
  unfold getValueLengthInRange. asserted. erewrite tbind_run by apply full_validated.
  apply buffer_read. rewrite (getValueLengthInRange_b _ d full_range 0 (zlen str) (md_serves _ _ Hm) full_spans). by rewrite Z.sub_0_r.
Qed.

(** ** Offsets *)

Lemma position_at n c o : place str n c o -> buffer (tree (PieceTree.getPositionAt o)) m = Ret (Position.new n c, m).
Proof.
  intros P. apply buffer_read, tree_read. pose proof (reachable_stands _ _ (sv_tree _ _ (md_serves _ _ Hm))) as Hst. pose proof (st_doc Hst) as Hdoc.
  pose proof (pl_bounds _ _ _ _ P) as Hb. destruct (decide (str = [])) as [He | Hne].
  - rewrite He in Hdoc. destruct (empty_positions _ Hdoc) as [_ ->]. destruct (place_in_line _ _ _ _ P) as [Hn Hc]. rewrite He in Hn, Hc.
    change (breaks []) with 0 in Hn. assert (n = 1) as -> by lia. change (zlen (line_text [] 1)) with 0 in Hc. by assert (c = 1) as -> by lia.
  - rewrite (getPositionAt_ok _ _ _ Hdoc Hne), Z.max_r, Z.min_l by lia. destruct (place_at _ _ _ _ P) as [A1 A2 A3 A4 A5]. unfold pos_of.
    pose proof (lstart_bounds str (n - 2)). rewrite (line_of_start str n o) by (done || lia).
    replace (n - 1 - 1) with (n - 2) by lia. do 3 f_equal; lia.
Qed.

Lemma offset_at n c o : place str n c o -> buffer (tree (PieceTree.getOffsetAt n c)) m = Ret (o, m).
Proof. intros P. apply buffer_read. by eapply getOffsetAt_place; [apply Hm |]. Qed.

Lemma getOffsetAt_run p o :
  place str (Position.lineNumber (clamp_position (Position.lineNumber p) (Position.column p)))
    (Position.column (clamp_position (Position.lineNumber p) (Position.column p))) o -> getOffsetAt p m = Ret (o, m).
Proof. intros P. unfold getOffsetAt. asserted. erewrite tbind_run by apply validate_relaxed. by apply offset_at. Qed.

Lemma length_b : buffer (tree getLength) m = Ret (zlen str, m).
Proof. apply buffer_read, getLength_b, Hm. Qed.

Lemma getPositionAt_run n c o raw : place str n c o -> o = Z.min (zlen str) (Z.max 0 raw) -> getPositionAt raw m = Ret (Position.new n c, m).
Proof. intros P ->. unfold getPositionAt. asserted. erewrite tbind_run by apply length_b. by apply position_at. Qed.

Lemma place_here o : 0 <= o <= zlen str -> seam (ztake o str) (zdrop o str) ->
  place str (1 + breaks (ztake o str)) (1 + last_length (ztake o str)) o.
Proof. by constructor. Qed.

End Reads.

(** ** The theorems *)

(** A text model without decorations. *)
#[global] Instance no_decorations : Decorations unit := {
  new_DecorationsTrees := tt;
  acceptReplace _ _ _ _ d := d;
  getInjectedTextInInterval _ _ _ _ _ d := ([], d);
  _onBeforeEOLChange _ _ d := d;
  _onAfterEOLChange _ _ d := d
}.

(** C27: positions are validated.  For a text model in use and any line number and
    column, [validatePosition] returns without an exception a position of the document
    that does not lie between the two units of a surrogate pair; with the position of
    the document next to the one given (the first, the last, or the start or the end of
    the line), it is that one or, when a high surrogate precedes that one, at most one
    unit to the left.  [getOffsetAt] of the position given and [getPositionAt] of that
    offset lead to the same position of the document, and [getPositionAt] and
    [getOffsetAt] back to any offset that is not between CR and LF; offsets outside of
    the text are clamped. *)
Theorem positions_validated {D} {DT : Decorations D} (m : TextModel.t D) d isPosition p :
  models m d -> let str := Doc.content d in
  let nearest := clamp_position d (Position.lineNumber p) (Position.column p) in
  (exists p' o o', validatePosition isPosition p m = Ret (p', m) /\
     place str (Position.lineNumber p') (Position.column p') o /\ place str (Position.lineNumber nearest) (Position.column nearest) o' /\
     ~ splits_pair d o /\ o' - 1 <= o <= o' /\ (high_before d o' = false -> p' = nearest) /\
     getOffsetAt p m = Ret (o', m) /\ getPositionAt o' m = Ret (nearest, m)) /\
  (forall raw, let o := Z.min (zlen str) (Z.max 0 raw) in seam (ztake o str) (zdrop o str) ->
     exists q, getPositionAt raw m = Ret (q, m) /\ getOffsetAt q m = Ret (o, m)).
Proof.
  intros Hm str nearest. split.
  - destruct (clamp_place d (Position.lineNumber p) (Position.column p)) as [o' P]. fold str nearest in P.
    destruct (validatePosition_ok m d Hm isPosition p o' P) as (p' & o & H1 & [S1 S2 S3 S4]). pose proof (pl_bounds _ _ _ _ P) as Hb.
    exists p', o, o'. split_and!; try done.
    + lia.
    + lia.
    + intros Hh. rewrite (S4 Hh) in S1. destruct (proj2 (place_eq _ _ _ _ _ _ _ S1 P) eq_refl). destruct p', nearest. cbn in *. congruence.
    + by apply (getOffsetAt_run m d Hm).
    + destruct nearest. apply (getPositionAt_run m d Hm _ _ o'); [done | fold str; lia].
  - intros raw o Hs. pose proof (zlen_nonneg str). pose proof (place_here d o ltac:(fold str; lia) Hs) as P. eexists. split.
    + by eapply (getPositionAt_run m d Hm _ _ o).
    + apply (getOffsetAt_run m d Hm). cbn. by rewrite (clamp_id d _ _ _ P).
Qed.

(** The document "a", a surrogate pair, CR LF, "b". *)
Definition paired_chunks : list StringBuffer.t := [StringBuffer.mk [97; 0xD83D; 0xDE00; 13; 10; 98] [0; 5]].
Definition paired_store : state :=
  match new_PieceTreeBase paired_chunks [CarriageReturn; LineFeed] true with Ret s => s | Throw _ => blank end.
Definition paired_doc : Doc.t := Doc.mk [97; 0xD83D; 0xDE00; 13; 10; 98] [CarriageReturn; LineFeed] true 0.
Definition paired_model : TextModel.t unit := new_TextModel (PieceTreeTextBuffer.mk paired_store [] false false true 0) true.

Lemma paired_models : models paired_model paired_doc.
Proof.
  constructor; [reflexivity |]. constructor; [| reflexivity | intros _; split; [by right | by vm_compute]].
  apply (reach_new paired_chunks); [| by vm_compute].
  constructor; [| done]. exists paired_chunks, []. split; [done |]. split_and!; [| done | split; [by intros [? _] | done]].
  repeat constructor; done.
Qed.

Lemma positions_validated_witness :
  (exists p' o, validatePosition true (Position.new 1 3) paired_model = Ret (p', paired_model) /\
     place (Doc.content paired_doc) (Position.lineNumber p') (Position.column p') o /\ ~ splits_pair paired_doc o) /\
  exists q, getPositionAt 99 paired_model = Ret (q, paired_model) /\ getOffsetAt q paired_model = Ret (6, paired_model).
Proof.
  destruct (positions_validated paired_model paired_doc true (Position.new 1 3) paired_models) as [(p' & o & o' & H1 & H2 & _ & H3 & _) H4].
  split; [exists p', o; split; [exact H1 |]; split; [exact H2 | exact H3] |].
  apply (H4 99). vm_compute. intros [? ?]. discriminate.
Defined.

(** C26: ranges are validated.  For a text model in use and any line numbers and columns
    (a [Range] object has its ends in order), [validateRange] returns without an
    exception a range of the document.  With the positions of the document next to the
    two ends given: a collapsed range stays collapsed and moves at most one unit to the
    left, any other range in order grows by at most one unit at each end, and nothing
    moves when no high surrogate precedes an end.  In a text where no high surrogate
    follows another, neither end of the result splits a surrogate pair. *)
Theorem ranges_validated {D} {DT : Decorations D} (m : TextModel.t D) d isRange range :
  models m d ->
  (isRange = true -> Range.new (Range.startLineNumber range) (Range.startColumn range) (Range.endLineNumber range) (Range.endColumn range) = range) ->
  let start := clamp_position d (Range.startLineNumber range) (Range.startColumn range) in
  let end_ := clamp_position d (Range.endLineNumber range) (Range.endColumn range) in
  exists range' o1 o2 q1 q2, validateRange isRange range m = Ret (range', m) /\
    place (Doc.content d) (Position.lineNumber start) (Position.column start) o1 /\
    place (Doc.content d) (Position.lineNumber end_) (Position.column end_) o2 /\
    spans (Doc.content d) range' q1 q2 /\
    (o1 = o2 -> q1 = q2 /\ o1 - 1 <= q1 <= o1) /\
    (o1 < o2 -> o1 - 1 <= q1 <= o1 /\ o2 <= q2 <= o2 + 1) /\
    (high_before d o1 = false -> high_before d o2 = false -> q1 = Z.min o1 o2 /\ q2 = Z.max o1 o2) /\
    ((forall o, high_before d o = true -> high_before d (o + 1) = false) -> ~ splits_pair d q1 /\ ~ splits_pair d q2).
Proof.
  intros Hm Hord start end_. destruct (clamp_place d (Range.startLineNumber range) (Range.startColumn range)) as [o1 P1].
  destruct (clamp_place d (Range.endLineNumber range) (Range.endColumn range)) as [o2 P2].
  destruct (validateRange_ok m d Hm isRange range o1 o2 Hord P1 P2) as (range' & H1 & [(q1 & q2 & H2 & H3 & H4 & H5 & H6)]).
  exists range', o1, o2, q1, q2. done.
Qed.

Lemma ranges_validated_witness :
  exists range' q1 q2, validateRange false (Range.mk 1 3 9 9) paired_model = Ret (range', paired_model) /\
    spans (Doc.content paired_doc) range' q1 q2.
Proof.
  destruct (ranges_validated paired_model paired_doc false (Range.mk 1 3 9 9) paired_models) as (range' & o1 & o2 & q1 & q2 & H1 & _ & _ & H2 & _);
    [discriminate |].
  exists range', q1, q2. split; [exact H1 | exact H2].
Defined.

(** What the two answers are: the position and the start of the range move before the
    pair. *)
Example paired_answers :
  validatePosition true (Position.new 1 3) paired_model = Ret (Position.new 1 2, paired_model) /\
  validateRange false (Range.mk 1 3 9 9) paired_model = Ret (Range.mk 1 2 2 2, paired_model) /\
  validateRange false (Range.mk 1 1 1 3) paired_model = Ret (Range.mk 1 1 1 4, paired_model).
Proof. by vm_compute. Qed.

(** Texts with unpaired high surrogates: two of them before a low one, and one at the end
    of a line. *)
Definition unpaired_model (str : jsstring) : TextModel.t unit :=
  new_TextModel (PieceTreeTextBuffer.mk
    (match new_PieceTreeBase [StringBuffer.mk str [0]] [LineFeed] true with Ret s => s | Throw _ => blank end) [] false false true 0) true.

(** The end of the range moves into the pair; the collapsed range moves although the
    position stays. *)
Example unpaired_answers :
  (fst <$> (match validateRange false (Range.mk 1 1 1 2) (unpaired_model [0xD800; 0xD801; 0xDC00]) with Ret r => Some r | Throw _ => None end)) =
    Some (Range.mk 1 1 1 3) /\
  (fst <$> (match validatePosition false (Position.new 1 3) (unpaired_model [97; 0xD800]) with Ret r => Some r | Throw _ => None end)) =
    Some (Position.new 1 3) /\
  (fst <$> (match validateRange false (Range.mk 1 3 1 3) (unpaired_model [97; 0xD800]) with Ret r => Some r | Throw _ => None end)) =
    Some (Range.mk 1 2 1 2).
Proof. by vm_compute. Qed.
