(* ===== verification/TextModelRaw.v ===== *)
(** * The changes of lines a text model tells

    [_doApplyEdits] of [TextModel] turns content changes into changes of lines, with the
    contents of lines of the new document.  Replayed on the lines of the old document
    they give the lines of the new one. *)

From stdpp Require Import gmap.
From S2P Require Import Prelude Position Range Selection Buffer TextChange RBTree RBTreeRep RBTreeOps RBTreeInsert RBTreeDelete RBTreeRemove.
From S2P Require Import PieceBuffers PieceTree PieceTreeEdit PieceTreeNodes PieceTreeRead PieceTreeList PieceTreeText.
From S2P Require Import PieceTreePieces PieceTreeChange PieceTreeSeal PieceTreeInsert PieceTreeDocument.
From S2P Require Import PieceTreeErase PieceTreeCreate PieceTreeChars PieceTreeLines PieceTreeRange PieceTreeContent PieceTreeSession.
From S2P Require Import Strings TextBuffer TextBufferSort TextEdits TextBufferEdits TextBufferInverse TextBufferApply TextLines TextModelEvents TextModel TextModelReads.
Import TextModel.

(** ** Replaying *)

(** An array of lines with a change made. *)
Definition replay (lines : list jsstring) (c : ModelRawChange) : list jsstring :=
  match c with
  | ModelRawFlush | ModelRawEOLChanged => lines
  | ModelRawLineChanged n detail _ => <[Z.to_nat (n - 1) := detail]> lines
  | ModelRawLinesDeleted from to => ztake (from - 1) lines ++ zdrop to lines
  | ModelRawLinesInserted from _ detail _ => ztake (from - 1) lines ++ detail ++ zdrop (from - 1) lines
  end.

(** Nothing but the text buffer and the decorations has changed. *)
Definition quiet {D} (m m' : TextModel.t D) : Prop := m' = set_buffer (_buffer m') (set_decorations (_decorationsTree m') m).

Lemma quiet_refl {D} (m : TextModel.t D) : quiet m m.
Proof. unfold quiet. by destruct m. Qed.

Lemma quiet_trans {D} (m1 m2 m3 : TextModel.t D) : quiet m1 m2 -> quiet m2 m3 -> quiet m1 m3.
Proof. unfold quiet. intros -> H. rewrite H. done. Qed.

Section Loops.
Context {D : Type} {DT : Decorations D} (d : Doc.t).
Notation fin := (Doc.content d).

Lemma getLineContent_run (m : TextModel.t D) n l lf lz : models m d -> split_lines fin = lf ++ l :: lz -> n = 1 + zlen lf ->
  exists m', getLineContent n m = Ret (l, m') /\ models m' d /\ quiet m m'.
Proof.
  intros Hm Hs Hn. destruct (split_lines_ok fin) as [Hz _]. rewrite Hs, zlen_app, zlen_cons in Hz. pose proof (zlen_nonneg lf). pose proof (zlen_nonneg lz).
  unfold getLineContent. asserted. erewrite tbind_run by (apply (checkLineNumber_run m d Hm); lia).
  destruct (getLine_b (_buffer m) d n (md_serves _ _ Hm) ltac:(lia)) as (b' & H1 & H2 & H3). rewrite (line_text_at _ _ _ _ _ Hs Hn) in H1.
  exists (set_buffer b' m). split; [by apply buffer_run |]. split; [constructor; [apply Hm | done] |]. unfold quiet. by destruct m.
Qed.

(** The last line of a block first. *)
Lemma editedLines_ok j : forall (m : TextModel.t D) a cur queue lf T R, models m d ->
  split_lines fin = lf ++ T ++ R -> zlen T = Z.of_nat j + 1 -> cur = 1 + zlen lf ->
  exists raws m', editedLines j a cur queue m = Ret (raws, m') /\ models m' d /\ quiet m m' /\
    forall A K C, zlen A = a - 1 -> zlen K = Z.of_nat j + 1 -> foldl replay (A ++ K ++ C) raws = A ++ T ++ C.
Proof.
  induction j as [| j IH]; intros m a cur queue lf T R Hm Hs HT Hcur.
  - destruct T as [| l [| l2 T]]; [change (zlen []) with 0 in HT; lia | | rewrite !zlen_cons in HT; pose proof (zlen_nonneg T); lia].
    destruct (getLineContent_run m (cur + Z.of_nat 0) l lf R Hm Hs ltac:(lia)) as (m' & H1 & H2 & H3).
    cbn [editedLines]. destruct (ArrayQueue.takeFromEndWhile _ _) as [inj queue']. erewrite tbind_run by exact H1. erewrite tbind_run by reflexivity.
    eexists _, m'. split; [reflexivity |]. split_and!; [done | done |]. intros A K C HA HK.
    destruct K as [| k [| k2 K]]; [change (zlen []) with 0 in HK; lia | | rewrite !zlen_cons in HK; pose proof (zlen_nonneg K); lia].
    cbn [foldl replay app]. replace (Z.to_nat (a + Z.of_nat 0 - 1)) with (Z.to_nat (zlen A)) by lia. apply insert_mid.
  - destruct (decide (T = [])) as [-> | Hne]; [change (zlen []) with 0 in HT; lia |].
    destruct (exists_last Hne) as (T' & l & ->). rewrite zlen_app in HT. change (zlen [l]) with 1 in HT.
    rewrite <- app_assoc in Hs. cbn [app] in Hs.
    assert (split_lines fin = (lf ++ T') ++ l :: R) as Hs2 by (by rewrite <- app_assoc).
    destruct (getLineContent_run m (cur + Z.of_nat (S j)) l (lf ++ T') R Hm Hs2 ltac:(rewrite zlen_app; lia)) as (m1 & H1 & H2 & H3).
    cbn [editedLines]. destruct (ArrayQueue.takeFromEndWhile _ (snd _)) as [inj queue']. erewrite tbind_run by exact H1.
    destruct (IH m1 a cur queue' lf T' (l :: R) H2 Hs ltac:(lia) Hcur) as (raws & m2 & K1 & K2 & K3 & K4). erewrite tbind_run by exact K1.
    eexists _, m2. split; [reflexivity |]. split_and!; [done | by eapply quiet_trans |]. intros A K C HA HK.
    destruct (decide (K = [])) as [-> | HneK]; [change (zlen []) with 0 in HK; lia |]. destruct (exists_last HneK) as (K' & k & ->).
    rewrite zlen_app in HK. change (zlen [k]) with 1 in HK. cbn [foldl replay].
    assert (<[Z.to_nat (a + Z.of_nat (S j) - 1) := l]> (A ++ (K' ++ [k]) ++ C) = A ++ K' ++ l :: C) as ->.
    { replace (A ++ (K' ++ [k]) ++ C) with ((A ++ K') ++ k :: C) by (by rewrite <- !app_assoc).
      replace (Z.to_nat (a + Z.of_nat (S j) - 1)) with (Z.to_nat (zlen (A ++ K'))) by (rewrite zlen_app; lia). rewrite insert_mid. by rewrite <- app_assoc. }
    rewrite K4 by lia. by rewrite <- !app_assoc.
Qed.

Lemma insertedLines_ok n : forall (m : TextModel.t D) k queue lf T R, models m d ->
  split_lines fin = lf ++ T ++ R -> zlen T = Z.of_nat n -> k = 1 + zlen lf ->
  exists inj m', insertedLines n k queue m = Ret ((T, inj), m') /\ models m' d /\ quiet m m'.
Proof.
  induction n as [| n IH]; intros m k queue lf T R Hm Hs HT Hk.
  - apply zlen_0 in HT as ->. exists [], m. split_and!; [done | done | apply quiet_refl].
  - destruct T as [| l T]; [change (zlen []) with 0 in HT; lia |]. rewrite zlen_cons in HT. cbn [app] in Hs.
    destruct (getLineContent_run m k l lf (T ++ R) Hm Hs Hk) as (m1 & H1 & H2 & H3). cbn [insertedLines]. erewrite tbind_run by exact H1.
    destruct (ArrayQueue.takeWhile _ (snd _)) as [inj queue'].
    destruct (IH m1 (k + 1) queue' (lf ++ [l]) T R H2 ltac:(by rewrite <- app_assoc) ltac:(lia) ltac:(rewrite zlen_app; change (zlen [l]) with 1; lia)) as (injs & m2 & K1 & K2 & K3).
    erewrite tbind_run by exact K1. eexists _, m2. split_and!; [reflexivity | done | by eapply quiet_trans].
Qed.

(** One change: [K] are the lines of its range, [F] and [T] the lines of the new text
    where its text now is. *)
Lemma rawChangesOf_ok (m : TextModel.t D) lineCount c lf F T R : models m d ->
  split_lines fin = lf ++ F :: T ++ R -> zlen T = breaks (IInternalModelContentChange.text c) ->
  let del := Range.endLineNumber (IInternalModelContentChange.range c) - Range.startLineNumber (IInternalModelContentChange.range c) in
  0 <= del -> 1 + breaks fin - lineCount - (zlen T - del) + Range.startLineNumber (IInternalModelContentChange.range c) = 1 + zlen lf ->
  exists raws m', rawChangesOf (1 + breaks fin) lineCount c m = Ret ((raws, zlen T - del), m') /\ models m' d /\ quiet m m' /\
    forall A K, zlen A = Range.startLineNumber (IInternalModelContentChange.range c) - 1 -> zlen K = del + 1 ->
      foldl replay (A ++ K ++ R) raws = A ++ F :: T ++ R.
Proof.
  intros Hm Hs HT del Hdel Hcur. unfold rawChangesOf. destruct (countEOL_ok (IInternalModelContentChange.text c)) as (first & bits & -> & _).
  rewrite <- HT. set (a := Range.startLineNumber (IInternalModelContentChange.range c)) in *.
  set (b := Range.endLineNumber (IInternalModelContentChange.range c)) in *. fold del. rewrite Hcur. set (e := Z.min del (zlen T)).
  pose proof (zlen_nonneg T). pose proof (zlen_nonneg R). pose proof (zlen_nonneg lf).
  assert (1 + breaks fin = zlen lf + 1 + zlen T + zlen R) as Hcount.
  { rewrite <- (proj1 (split_lines_ok fin)), Hs, zlen_app, zlen_cons, zlen_app. lia. }
  destruct (clamp_place d (1 + zlen lf) 1) as [o1 P1]. erewrite tbind_run by (apply (getOffsetAt_run m d Hm (Position.new (1 + zlen lf) 1) o1); exact P1).
  erewrite tbind_run by (apply (getLineMaxColumn_run m d Hm); lia).
  set (mc := 1 + zlen (line_text fin (1 + zlen lf + zlen T))). destruct (clamp_place d (1 + zlen lf + zlen T) mc) as [o2 P2].
  erewrite tbind_run by (apply (getOffsetAt_run m d Hm (Position.new (1 + zlen lf + zlen T) mc) o2); exact P2).
  destruct (getInjectedTextInInterval (_buffer m) (_versionId m) o1 o2 0 (_decorationsTree m)) as [decs tree] eqn:Hdec.
  set (m1 := set_decorations tree m). assert (models m1 d) as Hm1 by (constructor; apply Hm).
  assert (quiet m m1) as Hq1 by (unfold quiet, m1; by destruct m).
  erewrite (tbind_run _ _ m m1) by (by rewrite Hdec). set (queue := ArrayQueue.new (LineInjectedText.fromDecorations decs)).
  set (T1 := ztake e T). set (T2 := zdrop e T). assert (T = T1 ++ T2) as HTT by (symmetry; apply ztake_zdrop).
  assert (zlen T1 = e) as HT1 by (apply zlen_ztake; lia). assert (zlen T2 = zlen T - e) as HT2 by (apply zlen_zdrop; lia).
  destruct (editedLines_ok (Z.to_nat e) m1 a (1 + zlen lf) queue lf (F :: T1) (T2 ++ R) Hm1) as (raws & m2 & E1 & E2 & E3 & E4).
  { rewrite Hs, HTT. cbn [app]. by rewrite <- app_assoc. }
  { rewrite zlen_cons. lia. }
  { done. }
  erewrite tbind_run by exact E1.
  assert (forall A K, zlen A = a - 1 -> zlen K = del + 1 -> foldl replay (A ++ K ++ R) raws = A ++ (F :: T1) ++ zdrop (e + 1) K ++ R) as Hedit.
  { intros A K HA HK. rewrite <- (E4 A (ztake (e + 1) K)) by (rewrite ?zlen_ztake; lia). by rewrite (app_assoc (ztake _ _)), ztake_zdrop. }
  assert (zlen (F :: T1) = e + 1) as HF by (rewrite zlen_cons; lia).
  destruct (Z.ltb_spec e del) as [Hd | Hd]; destruct (Z.ltb_spec e (zlen T)) as [Hi | Hi]; try lia.
  - erewrite tbind_run by reflexivity. eexists _, m2. split; [reflexivity |]. split_and!; [done | exact (quiet_trans _ _ _ Hq1 E3) |]. intros A K HA HK.
    rewrite app_nil_r, foldl_app, Hedit by done. cbn [foldl replay]. assert (T2 = []) as HTn by (apply zlen_0; lia). rewrite HTn, app_nil_r in HTT.
    rewrite <- HTT. replace (A ++ (F :: T) ++ zdrop (e + 1) K ++ R) with ((A ++ (F :: T)) ++ zdrop (e + 1) K ++ R) by (by rewrite <- app_assoc).
    assert (zlen (A ++ F :: T) = a + e) as Hz by (rewrite zlen_app, zlen_cons; lia).
    rewrite ztake_app_l, ztake_all by lia. rewrite zdrop_app_r by lia. rewrite zdrop_app_r by (rewrite zlen_zdrop; lia).
    rewrite zlen_zdrop by lia. replace (b - zlen (A ++ F :: T) - _) with 0 by lia. rewrite zdrop_0. by rewrite <- app_assoc.
  - destruct (insertedLines_ok (Z.to_nat (zlen T - e)) m2 (1 + zlen lf + e + 1) queue (lf ++ F :: T1) T2 R E2) as (inj & m3 & I1 & I2 & I3).
    { rewrite Hs, HTT. by rewrite <- !app_assoc. }
    { lia. }
    { rewrite zlen_app. lia. }
    replace (1 + breaks fin - lineCount - (zlen T - e) + (a + e) + 1) with (1 + zlen lf + e + 1) by lia.
    erewrite tbind_run by (erewrite tbind_run by exact I1; reflexivity). eexists _, m3. split; [reflexivity |].
    split_and!; [done | exact (quiet_trans _ _ _ Hq1 (quiet_trans _ _ _ E3 I3)) |]. intros A K HA HK.
    cbn [app]. rewrite foldl_app, Hedit by done. cbn [foldl replay fst]. rewrite zdrop_all by lia. cbn [app].
    replace (A ++ F :: T1 ++ R) with ((A ++ (F :: T1)) ++ R) by (by rewrite <- app_assoc).
    assert (zlen (A ++ F :: T1) = a + e) as Hz by (rewrite zlen_app; lia). replace (a + e + 1 - 1) with (zlen (A ++ F :: T1)) by lia.
    rewrite ztake_app_l, ztake_all by lia. rewrite zdrop_app_r, Z.sub_diag, zdrop_0 by lia. rewrite HTT. by rewrite <- !app_assoc.
  - erewrite tbind_run by reflexivity. eexists _, m2. split; [reflexivity |]. split_and!; [done | exact (quiet_trans _ _ _ Hq1 E3) |]. intros A K HA HK.
    cbn [app]. rewrite app_nil_r, Hedit, zdrop_all by (done || lia). assert (T2 = []) as HTn by (apply zlen_0; lia). rewrite HTn, app_nil_r in HTT. by rewrite <- HTT.
Qed.
End Loops.

(** ** All changes *)

Section All.
Context {D : Type} {DT : Decorations D} (d : Doc.t) (eol : jsstring) (Heol : eol = [LineFeed] \/ eol = [CarriageReturn; LineFeed]).
Notation fin := (Doc.content d).
Notation start c := (IInternalModelContentChange.rangeOffset c).

Lemma splice_ok str c o1 o2 : normal eol str -> spans str (IInternalModelContentChange.range c) o1 o2 ->
  o1 = start c -> o2 = start c + IInternalModelContentChange.rangeLength c -> normal eol (IInternalModelContentChange.text c) ->
  splice str c = ztake o1 str ++ IInternalModelContentChange.text c ++ zdrop o2 str /\ normal eol (splice str c) /\
  place (splice str c) (Range.startLineNumber (IInternalModelContentChange.range c)) (Range.startColumn (IInternalModelContentChange.range c)) o1 /\
  zdrop o1 (splice str c) = IInternalModelContentChange.text c ++ zdrop o2 str.
Proof.
  intros Hn [P1 P2 Hle] -> -> Hnt. set (o1 := start c) in *. set (o2 := o1 + IInternalModelContentChange.rangeLength c) in *.
  pose proof (pl_bounds _ _ _ _ P1) as B1. destruct (normal_take _ _ _ Heol Hn (pl_seam _ _ _ _ P1)) as [N1 _].
  destruct (normal_take _ _ _ Heol Hn (pl_seam _ _ _ _ P2)) as [_ N2]. split; [done |]. unfold splice. fold o1 o2. split_and!.
  - apply normal_together; [by eapply normal_seam | done |]. apply normal_together; [by eapply normal_seam | done | done].
  - apply place_front; [done | lia | by eapply normal_seam].
  - by rewrite zdrop_app_r, zlen_ztake, Z.sub_diag, zdrop_0 by (rewrite ?zlen_ztake; lia).
Qed.

(** What lies behind the changes stays. *)
Lemma stable cs : forall str n c o, follow eol str cs -> normal eol str -> descending o cs -> place str n c o ->
  exists P, foldl splice str cs = P ++ zdrop o str /\ normal eol P.
Proof.
  induction cs as [| x cs IH]; intros str n c o Hf Hn Hd P; cbn [foldl].
  - exists (ztake o str). rewrite ztake_zdrop. split; [done |]. by apply normal_take; [| | apply P].
  - destruct Hf as (Hs & Hnt & Hf). destruct Hd as [Hle Hd]. set (o1 := start x) in *. set (o2 := o1 + IInternalModelContentChange.rangeLength x) in *.
    destruct (splice_ok str x o1 o2 Hn Hs eq_refl eq_refl Hnt) as (_ & N & Pl & E1).
    destruct (IH _ _ _ o1 Hf N Hd Pl) as (Q & HQ & NQ). rewrite HQ, E1. destruct Hs as [P1 P2 _]. pose proof (pl_bounds _ _ _ _ P1). pose proof (pl_bounds _ _ _ _ P2).
    pose proof (pl_bounds _ _ _ _ P). exists (Q ++ IInternalModelContentChange.text x ++ slice str o2 o). split.
    + rewrite <- (slice_drop str o2 o) by lia. by rewrite <- !app_assoc.
    + assert (normal eol (slice str o2 o)) as Nsl by (apply normal_slice; [done | done | lia | lia | apply P2 | apply P]).
      apply normal_together; [by eapply normal_seam | done |]. by apply normal_together; [eapply normal_seam | ..].
Qed.

(** In lines. *)
Lemma stable_lines cs str n c o la x z lz : follow eol str cs -> normal eol str -> descending o cs -> place str n c o ->
  cut_at str n c o la x z lz -> exists (lf : list jsstring) (x' : jsstring), split_lines (foldl splice str cs) = lf ++ (x' ++ z) :: lz.
Proof.
  intros Hf Hn Hd P C. destruct (stable cs str n c o Hf Hn Hd P) as (Q & -> & NQ). destruct (split_lines_last Q) as (lf & x' & HQ & _).
  exists lf, x'. rewrite split_lines_app, HQ, (ct_after _ _ _ _ _ _ _ _ C) by (by eapply normal_seam). apply glue_snoc.
Qed.

(** The array of lines between two changes, the last of which began at [hi]: the lines
    of the text, but for the line of [hi], which is as in the new text. *)
Definition between (str : jsstring) (hi : Z) (L : list jsstring) : Prop :=
  L = split_lines str \/
  exists n c (la : list jsstring) (l : jsstring) (lz : list jsstring) (F : jsstring) (lf : list jsstring), place str n c hi /\ n = 1 + zlen la /\ split_lines str = la ++ l :: lz /\ L = la ++ F :: lz /\ split_lines fin = lf ++ F :: lz.

Lemma tails_same {A} (la lb ra rb : list A) a b : la ++ a :: ra = lb ++ b :: rb -> zlen ra = zlen rb -> la = lb /\ a = b /\ ra = rb.
Proof. intros H Hl. apply app_inj_2 in H as [-> [= -> ->]]; [done | unfold zlen in Hl; cbn; lia]. Qed.

Lemma between_line str hi L cs n c o la x z lz : between str hi L -> o <= hi -> follow eol str cs -> normal eol str -> descending o cs -> foldl splice str cs = fin ->
  place str n c o -> cut_at str n c o la x z lz -> exists G, L = la ++ G :: lz.
Proof.
  intros HB Ho Hf Hn Hd Hfin P C. pose proof (cut_lines _ _ _ _ _ _ _ _ C) as Hl. pose proof (ct_line _ _ _ _ _ _ _ _ C) as HL.
  destruct HB as [-> | (n2 & c2 & la2 & l2 & lz2 & F & lf & P2 & Hn2 & Hs & -> & Hf2)]; [by exists (x ++ z) |].
  assert (n <= n2) as Hnn.
  { destruct (decide (n2 < n)); [| lia]. pose proof (at_offset_line _ _ _ _ _ _ _ (place_at _ _ _ _ P2) (place_at _ _ _ _ P)). lia. }
  rewrite Hl in Hs. destruct (decide (n = n2)) as [-> |].
  - destruct (cuts_same _ _ _ _ _ _ Hs ltac:(lia)) as (-> & _ & ->). by exists F.
  - destruct (cuts_apart _ _ _ _ _ _ Hs ltac:(lia)) as (mid & -> & ->). exists (x ++ z).
    destruct (stable_lines cs str n c o la x z _ Hf Hn Hd P C) as (lf2 & x' & Hs2). rewrite Hfin, Hf2 in Hs2.
    replace (lf2 ++ (x' ++ z) :: mid ++ l2 :: lz2) with ((lf2 ++ (x' ++ z) :: mid) ++ l2 :: lz2) in Hs2 by (by rewrite <- app_assoc).
    destruct (tails_same _ _ _ _ _ _ Hs2 eq_refl) as (_ & -> & _). by rewrite <- app_assoc.
Qed.

(** The lines of a text in front of another. *)
Lemma glue_front t z lz : exists (h : jsstring) (T : list jsstring), glue (split_lines t) (z :: lz) = h :: T ++ lz /\ zlen T = breaks t.
Proof.
  destruct (split_lines_last t) as (ta & e & Ht & Hb & _). rewrite Ht, glue_snoc. destruct ta as [| h ta].
  - by exists (e ++ z), [].
  - exists h, (ta ++ [e ++ z]). rewrite <- app_assoc. split; [done |]. rewrite zlen_cons in Hb. rewrite zlen_app. change (zlen [e ++ z]) with 1. lia.
Qed.

Lemma rawChangesOfAll_ok cs : forall (m : TextModel.t D) str hi L, models m d ->
  follow eol str cs -> normal eol str -> descending hi cs -> foldl splice str cs = fin -> between str hi L ->
  exists raws m', rawChangesOfAll (1 + breaks fin) (1 + breaks str) cs m = Ret (raws, m') /\ models m' d /\ quiet m m' /\
    foldl replay L raws = split_lines fin.
Proof.
  induction cs as [| c cs IH]; intros m str hi L Hm Hf Hn Hd Hfin HB; cbn [rawChangesOfAll].
  - exists [], m. split_and!; [done | done | apply quiet_refl |]. cbn [foldl] in *. rewrite <- Hfin in *.
    destruct HB as [-> | (n & k & la & l & lz & F & lf & _ & _ & H1 & -> & H2)]; [done |].
    rewrite <- Hfin, H1 in H2. destruct (tails_same _ _ _ _ _ _ H2 eq_refl) as (-> & -> & _). done.
  - pose proof Hf as (Hs & Hnt & Hf'). pose proof Hd as [Hle Hd']. set (o1 := start c) in *. set (o2 := o1 + IInternalModelContentChange.rangeLength c) in *.
    set (a := Range.startLineNumber (IInternalModelContentChange.range c)) in *. set (b := Range.endLineNumber (IInternalModelContentChange.range c)) in *.
    set (t := IInternalModelContentChange.text c) in *.
    destruct (splice_ok str c o1 o2 Hn Hs eq_refl eq_refl Hnt) as (E0 & N & Pl & E1). fold a t in E0, Pl, E1.
    destruct Hs as [P1 P2 Ho]. destruct (place_cut _ _ _ _ P1) as (la1 & x1 & z1 & lz1 & C1). destruct (place_cut _ _ _ _ P2) as (la2 & x2 & z2 & lz2 & C2).
    assert (descending o2 (c :: cs)) as Hd2 by (by split; [reflexivity |]).
    destruct (between_line str hi L (c :: cs) _ _ o2 la2 x2 z2 lz2 HB Hle Hf Hn Hd2 Hfin P2 C2) as [G ->].
    destruct (glue_front t z2 lz2) as (h & T & Hg & HT).
    assert (cut_at (splice str c) a (Range.startColumn (IInternalModelContentChange.range c)) o1 la1 x1 h (T ++ lz2)) as C3.
    { assert (ztake o1 (splice str c) = ztake o1 str) as Et.
      { rewrite E0. pose proof (pl_bounds _ _ _ _ P1). by rewrite ztake_app_l, ztake_all by (rewrite zlen_ztake; lia). }
      constructor; rewrite ?Et; [apply C1 | | apply C1 | apply C1 | rewrite <- Et; apply Pl].
      rewrite E1, split_lines_app, (ct_after _ _ _ _ _ _ _ _ C2) by (by eapply normal_seam). exact Hg. }
    cbn [foldl] in Hfin. destruct (stable_lines cs (splice str c) _ _ o1 la1 x1 h (T ++ lz2) Hf' N Hd' Pl C3) as (lf & x' & Hlf). rewrite Hfin in Hlf.
    pose proof (ct_line _ _ _ _ _ _ _ _ C1) as L1. pose proof (ct_line _ _ _ _ _ _ _ _ C2) as L2. fold a in L1. fold b in L2.
    pose proof (cut_lines _ _ _ _ _ _ _ _ C1) as Hl1. pose proof (cut_lines _ _ _ _ _ _ _ _ C2) as Hl2. pose proof (cut_lines _ _ _ _ _ _ _ _ C3) as Hl3.
    assert (1 + breaks str = zlen la2 + 1 + zlen lz2 /\ 1 + breaks fin = zlen lf + 1 + zlen T + zlen lz2 /\
      1 + breaks (splice str c) = zlen la1 + 1 + zlen T + zlen lz2) as (N1 & N2 & N3).
    { rewrite <- (proj1 (split_lines_ok str)), <- (proj1 (split_lines_ok fin)), <- (proj1 (split_lines_ok (splice str c))), Hl2, Hl3, Hlf.
      rewrite !zlen_app, !zlen_cons, !zlen_app. lia. }
    assert (exists K, la2 ++ G :: lz2 = la1 ++ K ++ lz2 /\ zlen K = b - a + 1) as (K & -> & HK).
    { assert (a <= b) as Hab.
      { destruct (decide (b < a)); [| lia]. pose proof (at_offset_line _ _ _ _ _ _ _ (place_at _ _ _ _ P2) (place_at _ _ _ _ P1)). lia. }
      rewrite Hl2 in Hl1. destruct (decide (a = b)) as [Heq |].
      - destruct (cuts_same _ _ _ _ _ _ Hl1 ltac:(lia)) as (-> & _). exists [G]. split; [done |]. change (zlen [G]) with 1. lia.
      - symmetry in Hl1. destruct (cuts_apart _ _ _ _ _ _ Hl1 ltac:(lia)) as (mid & -> & _). exists ((x1 ++ z1) :: mid ++ [G]). split; [by rewrite <- !app_assoc; cbn [app]; rewrite <- app_assoc |].
        rewrite zlen_app, zlen_cons in L2. rewrite zlen_cons, zlen_app. change (zlen [G]) with 1. lia. }
    destruct (rawChangesOf_ok d m (1 + breaks str) c lf (x' ++ h) T lz2 Hm Hlf HT) as (raws & m1 & R1 & R2 & R3 & R4); fold a b.
    { pose proof (zlen_nonneg K). pose proof (at_line _ _ _ _ (place_at _ _ _ _ P1)).
      destruct (decide (b < a)); [| lia]. pose proof (at_offset_line _ _ _ _ _ _ _ (place_at _ _ _ _ P2) (place_at _ _ _ _ P1)). lia. }
    { lia. }
    fold a b in R1, R4. erewrite tbind_run by exact R1. cbn [fst snd].
    destruct (IH m1 (splice str c) o1 (la1 ++ (x' ++ h) :: T ++ lz2) R2 Hf' N Hd' Hfin) as (raws2 & m2 & S1 & S2 & S3 & S4).
    { right. exists a, (Range.startColumn (IInternalModelContentChange.range c)), la1, (x1 ++ h), (T ++ lz2), (x' ++ h), lf. done. }
    replace (1 + breaks str + (zlen T - (b - a))) with (1 + breaks (splice str c)) by lia. erewrite tbind_run by exact S1.
    eexists _, m2. split; [reflexivity |]. split_and!; [done | exact (quiet_trans _ _ _ R3 S3) |].
    rewrite foldl_app, R4 by lia. done.
Qed.
End All.
