(* ===== verification/TextModelEdits.v ===== *)
(** * Editing with a text model

    [applyEdits], [setEOL], the change of the whole value, undo and redo of [TextModel]:
    what they make of the document and of the versions, and what their events tell. *)

From stdpp Require Import gmap.
From S2P Require Import Prelude Position Range Selection Buffer TextChange RBTree RBTreeRep RBTreeOps RBTreeInsert RBTreeDelete RBTreeRemove.
From S2P Require Import PieceBuffers PieceTree PieceTreeEdit PieceTreeNodes PieceTreeRead PieceTreeList PieceTreeText.
From S2P Require Import PieceTreePieces PieceTreeChange PieceTreeSeal PieceTreeInsert PieceTreeDocument.
From S2P Require Import PieceTreeErase PieceTreeCreate PieceTreeChars PieceTreeLines PieceTreeRange PieceTreeContent PieceTreeSession.
From S2P Require Import Strings TextBuffer TextBufferSort TextEdits TextBufferEdits TextBufferInverse TextBufferApply TextBufferLoad TextBufferSession.
From S2P Require Import TextLines TextModelEvents TextModel TextModelReads TextModelRaw.
Import TextModel.

(** ** Validating edits *)

(** A text model can take the edit: it is valid already, or its range, when it is a
    [Range] object, has its ends in order. *)
Definition acceptable (d : Doc.t) (op : IIdentifiedSingleEditOperation) : Prop :=
  match op with
  | Validated op => exists r, asks d op r
  | Raw isRange op =>
      let range := ValidAnnotatedEditOperation.range op in
      isRange = true -> Range.new (Range.startLineNumber range) (Range.startColumn range) (Range.endLineNumber range) (Range.endColumn range) = range
  end.

(** The replacement an edit requests: that of a valid one, or the range of the document
    validation makes of the one given. *)
Definition requests (d : Doc.t) (op : IIdentifiedSingleEditOperation) (r : replacement) : Prop :=
  match op with
  | Validated op => asks d op r
  | Raw _ op =>
      let range := ValidAnnotatedEditOperation.range op in
      let start := clamp_position d (Range.startLineNumber range) (Range.startColumn range) in
      let end_ := clamp_position d (Range.endLineNumber range) (Range.endColumn range) in
      new_text r = replace_eol (Doc.eol d) (default [] (ValidAnnotatedEditOperation.text op)) /\
      exists o1 o2, place (Doc.content d) (Position.lineNumber start) (Position.column start) o1 /\
        place (Doc.content d) (Position.lineNumber end_) (Position.column end_) o2 /\
        (o1 = o2 -> from r = to r /\ o1 - 1 <= from r <= o1) /\
        (o1 < o2 -> o1 - 1 <= from r <= o1 /\ o2 <= to r <= o2 + 1) /\
        (high_before d o1 = false -> high_before d o2 = false -> from r = Z.min o1 o2 /\ to r = Z.max o1 o2)
  end.

Section Edits.
Context {D : Type} {DT : Decorations D}.
Implicit Type m : TextModel.t D.

Lemma validateEdits_ok m d rops : models m d -> Forall (acceptable d) rops ->
  exists ops rs, _validateEditOperations rops m = Ret (ops, m) /\ Forall2 (asks d) ops rs /\ Forall2 (requests d) rops rs.
Proof.
  intros Hm. induction 1 as [| rop rops Hr Hrops (ops & rs & H1 & H2 & H3)]; cbn [_validateEditOperations]; [by exists [], [] |].
  assert (exists op r, _validateEditOperation rop m = Ret (op, m) /\ asks d op r /\ requests d rop r) as (op & r & K1 & K2 & K3).
  { destruct rop as [op | isRange op]; cbn [acceptable _validateEditOperation requests] in *; [destruct Hr as [r Hr]; by exists op, r |].
    set (range := ValidAnnotatedEditOperation.range op) in *.
    destruct (clamp_place d (Range.startLineNumber range) (Range.startColumn range)) as [o1 P1].
    destruct (clamp_place d (Range.endLineNumber range) (Range.endColumn range)) as [o2 P2].
    destruct (validateRange_ok m d Hm isRange range o1 o2 Hr P1 P2) as (range' & V1 & [(q1 & q2 & V2 & _ & V3 & V4 & V5)]).
    erewrite tbind_run by exact V1. eexists _, (mkRep q1 q2 (replace_eol (Doc.eol d) (default [] (ValidAnnotatedEditOperation.text op)))).
    split; [reflexivity |]. split; [by constructor |]. split; [done |]. exists o1, o2. done. }
  exists (op :: ops), (r :: rs). erewrite tbind_run by exact K1. erewrite tbind_run by exact H1. split_and!; [done | by constructor | by constructor].
Qed.

(** ** One batch *)

(** What an event tells of the step from one document to the next: the changes of lines
    lead from the old lines to the new ones, the changes of content from the old text to
    the new. *)
Record tells (d d' : Doc.t) (versionId : Z) (e : InternalModelContentChangeEvent.t) : Prop := mktells {
  tl_lines : foldl replay (split_lines (Doc.content d)) (ModelRawContentChangedEvent.changes (InternalModelContentChangeEvent.rawContentChangedEvent e)) =
    split_lines (Doc.content d');
  tl_changes : foldl splice (Doc.content d) (IModelContentChangedEvent.changes (InternalModelContentChangeEvent.contentChangedEvent e)) = Doc.content d';
  tl_follow : follow (Doc.eol d) (Doc.content d) (IModelContentChangedEvent.changes (InternalModelContentChangeEvent.contentChangedEvent e));
  tl_eol : IModelContentChangedEvent.eol (InternalModelContentChangeEvent.contentChangedEvent e) = Doc.eol d';
  tl_version : IModelContentChangedEvent.versionId (InternalModelContentChangeEvent.contentChangedEvent e) = versionId
}.

Lemma doApplyEdits_ok m d ops rs compute :
  models m d -> __isDisposing m = false -> Forall2 (asks d) ops rs -> apart rs ->
  Doc.used d + zlen (Doc.content d) + needed rs + 8 < limit ->
  exists result m' d' b', TextBuffer.applyEdits ops (_trimAutoWhitespace m) compute (_buffer m) = Ret (result, b') /\
    outcome (_buffer m) d rs result b' d' /\
    match ApplyEditsResult.reverseEdits result with Some revs => compute = true /\ undoes d d' revs | None => compute = false end /\
    _doApplyEdits ops compute m = Ret (ApplyEditsResult.reverseEdits result, m') /\ models m' d' /\
    _trimAutoWhitespaceLines m' = ApplyEditsResult.trimAutoWhitespaceLineNumbers result /\
    _trimAutoWhitespace m' = _trimAutoWhitespace m /\ __isDisposing m' = false /\ _isUndoing m' = _isUndoing m /\ _isRedoing m' = _isRedoing m /\
    if zlen (ApplyEditsResult.changes result) === 0 then
      Doc.content d' = Doc.content d /\ _versionId m' = _versionId m /\ _alternativeVersionId m' = _alternativeVersionId m /\ _eventEmitter m' = _eventEmitter m
    else
      _versionId m' = _versionId m + 1 /\ _alternativeVersionId m' = _versionId m + 1 /\
      exists e, tells d d' (_versionId m + 1) e /\ _eventEmitter m' = Emitter.fire e (_eventEmitter m) /\
        IModelContentChangedEvent.changes (InternalModelContentChangeEvent.contentChangedEvent e) = ApplyEditsResult.changes result.
Proof.
  intros Hm Hdis Hops Hap Hroom. pose proof (md_serves _ _ Hm) as Hb. unfold _doApplyEdits.
  erewrite tbind_run by (apply (lineCount_b m d Hm)). erewrite tbind_run by reflexivity.
  destruct (applyEdits_ok (_buffer m) d ops rs (_trimAutoWhitespace m) compute Hb Hops Hap Hroom) as (result & b' & d' & H1 & Hout & Hrev & _).
  assert (match ApplyEditsResult.reverseEdits result with Some revs => compute = true /\ undoes d d' revs | None => compute = false end) as Hundo
    by (destruct (ApplyEditsResult.reverseEdits result); tauto). clear Hrev.
  erewrite tbind_run by (by apply buffer_run). set (m1 := set_buffer b' m).
  assert (models m1 d') as Hm1 by (constructor; [apply Hm | apply Hout]). erewrite tbind_run by (apply (lineCount_b m1 d' Hm1)).
  erewrite tbind_run by reflexivity. set (m2 := set_trimLines _ m1). assert (models m2 d') as Hm2 by (constructor; apply Hm1).
  exists result. destruct (Z.eqb_spec (zlen (ApplyEditsResult.changes result)) 0) as [Hz | Hz]; cbn [negb].
  - erewrite tbind_run by reflexivity. exists m2, d', b'. split_and!; try done. rewrite <- (oc_changes _ _ _ _ _ _ Hout). apply zlen_0 in Hz. by rewrite Hz.
  - set (m3 := set_versions (_versionId m2 + 1) (_versionId m2 + 1) (set_decorations (acceptChanges (ApplyEditsResult.changes result) (_decorationsTree m2)) m2)).
    assert (models m3 d') as Hm3 by (constructor; apply Hm2).
    destruct (rawChangesOfAll_ok d' (Doc.eol d) (serves_eol _ _ Hb) (ApplyEditsResult.changes result) m3 (Doc.content d) (zlen (Doc.content d))
      (split_lines (Doc.content d)) Hm3) as (raws & m4 & R1 & R2 & R3 & R4);
      [apply Hout | by eapply serves_normal | apply Hout | apply Hout | by left |].
    erewrite (tbind_run _ _ m2). 2: { erewrite tbind_run by reflexivity. erewrite (tbind_run _ _ _ m3) by reflexivity. erewrite tbind_run by exact R1.
      unfold getVersionId. erewrite tbind_run by (by erewrite tbind_run by (eapply assert_run; exact R2)).
      do 2 erewrite tbind_run by reflexivity. erewrite tbind_run by (apply buffer_read, (getEOL_b _ d'), R2).
      unfold _emitContentChangedEvent. erewrite tbind_run by reflexivity. assert (__isDisposing m4 = false) as -> by (rewrite R3; exact Hdis). reflexivity. }
    assert (_eventEmitter m4 = _eventEmitter m /\ _versionId m4 = _versionId m + 1 /\ _alternativeVersionId m4 = _versionId m + 1) as (QE & QV & QA)
      by (unfold quiet in R3; rewrite R3; done).
    eexists _, d', b'. split; [done |]. split; [done |]. split; [done |]. split; [reflexivity |]. split; [constructor; apply R2 |].
    split_and!; try (cbn; unfold quiet in R3; rewrite R3; done). eexists. split; [| split; [cbn; rewrite QE; reflexivity | reflexivity]].
    constructor; cbn; [done | apply Hout | apply Hout | done | done].
Qed.

(** ** The whole text *)

(** The event of a step that replaces the whole text. *)
Record tells_all (d d' : Doc.t) (raw : ModelRawChange) (versionId : Z) (isFlush isEolChange : bool) (e : InternalModelContentChangeEvent.t) : Prop := mktells_all {
  ta_raw : InternalModelContentChangeEvent.rawContentChangedEvent e = ModelRawContentChangedEvent.new [raw] versionId false false;
  ta_content : InternalModelContentChangeEvent.contentChangedEvent e = IModelContentChangedEvent.mk
    [IInternalModelContentChange.mk (full_range d) (zlen (Doc.content d)) (Doc.content d') 0 false] (Doc.eol d') versionId false false isFlush isEolChange
}.

Definition eol_text (eol : EndOfLineSequence) : jsstring := match eol with SeqCRLF => [CarriageReturn; LineFeed] | SeqLF => [LineFeed] end.

Lemma eol_text_ok eol : eol_text eol = [LineFeed] \/ eol_text eol = [CarriageReturn; LineFeed].
Proof. destruct eol; [by left | by right]. Qed.

Definition with_eol_of (eol : jsstring) (d : Doc.t) : Doc.t := Doc.mk (replace_eol eol (Doc.content d)) eol true 0.

(** All fields but those of the text, the versions, the decorations and the events. *)
Definition same_flags m m' : Prop :=
  _isDisposed m' = _isDisposed m /\ __isDisposing m' = __isDisposing m /\ _trimAutoWhitespace m' = _trimAutoWhitespace m /\
  _isUndoing m' = _isUndoing m /\ _isRedoing m' = _isRedoing m.

(** The end of both operations: the value of the new text is told. *)
Lemma tell_all_run m d d' raw isFlush isEolChange : models m d' -> __isDisposing m = false ->
  exists e, tells_all d d' raw (_versionId m) isFlush isEolChange e /\
    (versionId ← this _versionId; value ← getValue TextDefined false;
     change ← _createContentChanged2 (full_range d) 0 (zlen (Doc.content d)) value false false isFlush isEolChange;
     _emitContentChangedEvent (ModelRawContentChangedEvent.new [raw] versionId false false) change) m =
    Ret (tt, set_emitter (Emitter.fire e (_eventEmitter m)) m).
Proof.
  intros Hm Hdis. erewrite tbind_run by reflexivity. erewrite tbind_run by (apply (getValue_run m d' Hm)). unfold _createContentChanged2.
  eexists. split; [| erewrite tbind_run by (erewrite tbind_run by (apply buffer_read, (getEOL_b _ d'), Hm);
    unfold getVersionId; erewrite tbind_run by (by erewrite tbind_run by (eapply assert_run; exact Hm)); reflexivity);
    unfold _emitContentChangedEvent; erewrite tbind_run by reflexivity; rewrite Hdis; reflexivity].
  by constructor.
Qed.

Lemma setEOL_model m d eol : models m d -> __isDisposing m = false -> zlen (replace_eol (eol_text eol) (Doc.content d)) < limit ->
  if bool_decide (Doc.eol d = eol_text eol) then setEOL eol m = Ret (tt, m)
  else exists m' e, setEOL eol m = Ret (tt, m') /\ models m' (with_eol_of (eol_text eol) d) /\ same_flags m m' /\
    _versionId m' = _versionId m + 1 /\ _alternativeVersionId m' = _versionId m + 1 /\ _trimAutoWhitespaceLines m' = _trimAutoWhitespaceLines m /\
    tells_all d (with_eol_of (eol_text eol) d) ModelRawEOLChanged (_versionId m + 1) false true e /\ _eventEmitter m' = Emitter.fire e (_eventEmitter m).
Proof.
  intros Hm Hdis Hlt. unfold setEOL. asserted. change (match eol with SeqLF => _ | SeqCRLF => _ end) with (eol_text eol).
  erewrite tbind_run by (apply buffer_read, (getEOL_b _ d), Hm). cbv zeta beta.
  destruct (decide (Doc.eol d = eol_text eol)) as [He | He]; [by rewrite !bool_decide_eq_true_2 by done | rewrite !bool_decide_eq_false_2 by done].
  pose proof (breaks_nonneg (Doc.content d)).
  erewrite tbind_run by (by apply getFullModelRange_run). erewrite tbind_run by (by apply getValueLength_run).
  erewrite tbind_run by (by apply getLineCount_run). erewrite tbind_run by (apply (getLineMaxColumn_run m d Hm); lia). fold (full_range d).
  erewrite tbind_run by reflexivity. set (m1 := set_decorations _ m).
  destruct (perform_b (_buffer m1) d (Doc.SetEOL (eol_text eol)) (with_eol_of (eol_text eol) d) (md_serves _ _ Hm)) as (b2 & B1 & B2 & _).
  { cbn [Doc.apply]. rewrite (proj2 (Z.ltb_lt _ _)) by exact Hlt. by destruct eol. }
  { done. }
  { eapply promise_of; [done | done | apply eol_text_ok |]. apply replace_eol_idem, eol_text_ok. }
  erewrite tbind_run by (by apply buffer_run). erewrite tbind_run by reflexivity. set (m2 := set_versions _ _ _). erewrite tbind_run by reflexivity.
  set (m3 := set_decorations _ m2). assert (models m3 (with_eol_of (eol_text eol) d)) as Hm3 by (constructor; [apply Hm | exact B2]).
  destruct (tell_all_run m3 d (with_eol_of (eol_text eol) d) ModelRawEOLChanged false true Hm3 Hdis) as (e & T1 & T2).
  exists (set_emitter (Emitter.fire e (_eventEmitter m3)) m3), e. split; [exact T2 |]. split; [constructor; apply Hm3 |]. split; [by unfold same_flags |]. done.
Qed.

Lemma setValue_model m d tb d' : models m d -> __isDisposing m = false -> serves tb d' ->
  exists m' e, _setValueFromTextBuffer tb m = Ret (tt, m') /\ models m' d' /\ same_flags m m' /\
    _versionId m' = _versionId m + 1 /\ _alternativeVersionId m' = _versionId m + 1 /\ _trimAutoWhitespaceLines m' = None /\
    tells_all d d' ModelRawFlush (_versionId m + 1) true false e /\ _eventEmitter m' = Emitter.fire e (_eventEmitter m).
Proof.
  intros Hm Hdis Htb. unfold _setValueFromTextBuffer. asserted. pose proof (breaks_nonneg (Doc.content d)).
  erewrite tbind_run by (by apply getFullModelRange_run). erewrite tbind_run by (by apply getValueLength_run).
  erewrite tbind_run by (by apply getLineCount_run). erewrite tbind_run by (apply (getLineMaxColumn_run m d Hm); lia). fold (full_range d).
  do 4 erewrite tbind_run by reflexivity. set (m3 := set_trimLines None _). assert (models m3 d') as Hm3 by (constructor; [apply Hm | exact Htb]).
  destruct (tell_all_run m3 d d' ModelRawFlush true false Hm3 Hdis) as (e & T1 & T2).
  exists (set_emitter (Emitter.fire e (_eventEmitter m3)) m3), e. split; [exact T2 |]. split; [constructor; apply Hm3 |]. split; [by unfold same_flags |]. done.
Qed.

(** ** A batch with its events *)

Definition ending m : Emitter.t := Emitter.endDeferredEmit None (Emitter.beginDeferredEmit (_eventEmitter m)).
Definition ending_with (e : InternalModelContentChangeEvent.t) m : Emitter.t :=
  Emitter.endDeferredEmit None (Emitter.fire e (Emitter.beginDeferredEmit (_eventEmitter m))).

(** What a batch leaves behind. *)
Record edited_to (d : Doc.t) (rs : list replacement) m m' (d' : Doc.t) (compute : bool) (reverse : option (list reverseOp)) : Prop := mkedited {
  et_models : models m' d';
  et_content : Doc.content d' = patch 0 (js_sort by_end rs) (Doc.content d);
  et_eol : Doc.eol d' = Doc.eol d;
  et_used : Doc.used d' <= Doc.used d + zlen (Doc.content d) + needed rs + 8;
  et_flags : same_flags m m';
  et_reverse : match reverse with Some revs => compute = true /\ undoes d d' revs | None => compute = false end;
  et_told :
    (Doc.content d' = Doc.content d /\ _versionId m' = _versionId m /\ _alternativeVersionId m' = _alternativeVersionId m /\ _eventEmitter m' = ending m) \/
    (_versionId m' = _versionId m + 1 /\ _alternativeVersionId m' = _versionId m + 1 /\
     exists e, tells d d' (_versionId m + 1) e /\
       added (IModelContentChangedEvent.changes (InternalModelContentChangeEvent.contentChangedEvent e)) <= zlen (Doc.content d) + needed rs + 8 /\
       _eventEmitter m' = ending_with e m)
}.

Lemma applyEdits_model m d rops compute : models m d -> __isDisposing m = false -> Forall (acceptable d) rops ->
  exists rs, Forall2 (requests d) rops rs /\
    (apart rs -> Doc.used d + zlen (Doc.content d) + needed rs + 8 < limit ->
       exists reverse m' d', applyEdits rops compute m = Ret (reverse, m') /\ edited_to d rs m m' d' compute reverse) /\
    ((exists i j r1 r2, i <> j /\ rs !! i = Some r1 /\ rs !! j = Some r2 /\ overlap r1 r2) -> applyEdits rops compute m = Throw Error).
Proof.
  intros Hm Hdis Hacc. set (m0 := set_emitter (Emitter.beginDeferredEmit (_eventEmitter m)) m). assert (models m0 d) as Hm0 by (constructor; apply Hm).
  destruct (validateEdits_ok m0 d rops Hm0 Hacc) as (ops & rs & V1 & V2 & V3). exists rs. split; [done |]. unfold applyEdits, deferred. split.
  - intros Hap Hroom. destruct (doApplyEdits_ok m0 d ops rs compute Hm0 Hdis V2 Hap Hroom) as (result & m1 & d' & b' & _ & Hout & Hrev & D1 & D2 & _ & D4 & D5 & D6 & D7 & D8).
    erewrite tbind_run by reflexivity. erewrite tbind_run by (erewrite tbind_run by exact V1; exact D1). erewrite tbind_run by reflexivity.
    eexists _, _, d'. split; [reflexivity |]. constructor; [by constructor; apply D2 | apply Hout | apply Hout | apply Hout | | exact Hrev |].
    + unfold same_flags. cbn. rewrite (md_alive _ _ D2), (md_alive _ _ Hm), D5, Hdis. done.
    + cbn. unfold ending, ending_with. destruct (_ === 0).
      * left. destruct D8 as (? & ? & ? & ->). done.
      * right. destruct D8 as (? & ? & e & E1 & -> & E3). split_and!; try done. exists e. split_and!; try done. rewrite E3. apply Hout.
  - intros Hover. erewrite tbind_run by reflexivity. unfold mbind at 1, T_bind at 1. erewrite tbind_run by exact V1. unfold _doApplyEdits.
    erewrite tbind_run by (apply (lineCount_b m0 d Hm0)). erewrite tbind_run by reflexivity. unfold mbind at 1, T_bind at 1. unfold buffer at 1.
    by rewrite (overlaps_throw (_buffer m0) d ops rs _ compute (md_serves _ _ Hm0) V2 Hover).
Qed.

(** No emission is deferred. *)
Definition idle m : Prop := _eventEmitter m = Emitter.mk 0 None (Emitter.fired (_eventEmitter m)).

Lemma idle_ending m : idle m -> ending m = _eventEmitter m.
Proof. unfold idle, ending. intros ->. done. Qed.

Lemma idle_ending_with m e : idle m -> ending_with e m = Emitter.mk 0 None (Emitter.fired (_eventEmitter m) ++ [Emitter.with_selection None e]).
Proof. unfold idle, ending_with. intros ->. done. Qed.

Lemma idle_fire m e : idle m -> Emitter.fire e (_eventEmitter m) = Emitter.mk 0 None (Emitter.fired (_eventEmitter m) ++ [e]).
Proof. unfold idle. intros ->. done. Qed.

(** ** Undo and redo *)

(** An offset an edit may start or end at: not between CR and LF, and not behind a high
    surrogate. *)
Definition whole (d : Doc.t) (o : Z) : Prop :=
  seam (ztake o (Doc.content d)) (zdrop o (Doc.content d)) /\ high_before d o = false.

Lemma editBetween_ok m d q1 q2 text : models m d -> 0 <= q1 <= q2 -> q2 <= zlen (Doc.content d) -> whole d q1 -> whole d q2 -> normal (Doc.eol d) text ->
  exists op, editBetween q1 q2 text m = Ret (Raw true op, m) /\ acceptable d (Raw true op) /\ forall r, requests d (Raw true op) r -> r = mkRep q1 q2 text.
Proof.
  intros Hm H1 H2 [S1 W1] [S2 W2] Hn. pose proof (place_here d q1 ltac:(lia) S1) as P1. pose proof (place_here d q2 ltac:(lia) S2) as P2.
  unfold editBetween. erewrite tbind_run by (eapply (getPositionAt_run m d Hm _ _ q1); [exact P1 | lia]).
  erewrite tbind_run by (eapply (getPositionAt_run m d Hm _ _ q2); [exact P2 | lia]). cbn [Position.lineNumber Position.column].
  pose proof (new_spans d _ _ _ _ _ _ P1 P2) as Hs. rewrite Z.min_l, Z.max_r in Hs by lia. set (range := Range.new _ _ _ _) in *.
  eexists. split; [reflexivity |]. split; [intros _; by apply range_new_spans in Hs |]. intros r (Ht & o1 & o2 & Q1 & Q2 & _ & _ & Hst). cbn in Ht, Q1, Q2.
  destruct Hs as [R1 R2 _]. rewrite (clamp_id d _ _ _ R1) in Q1. rewrite (clamp_id d _ _ _ R2) in Q2. cbn in Q1, Q2.
  pose proof (place_same_line _ _ _ _ _ _ Q1 R1). pose proof (place_same_line _ _ _ _ _ _ Q2 R2). assert (o1 = q1) as -> by lia. assert (o2 = q2) as -> by lia.
  destruct (Hst W1 W2) as [F1 F2]. rewrite Hn in Ht. destruct r. cbn in *. f_equal; lia || done.
Qed.

Lemma editsBetween_ok m d (f : TextChange.t -> Z * Z * jsstring) cs : models m d ->
  Forall (fun c => let '(q1, q2, text) := f c in 0 <= q1 <= q2 /\ q2 <= zlen (Doc.content d) /\ whole d q1 /\ whole d q2 /\ normal (Doc.eol d) text) cs ->
  exists rops, mapM_T (fun c => let '(q1, q2, text) := f c in editBetween q1 q2 text) cs m = Ret (rops, m) /\ Forall (acceptable d) rops /\
    forall rs, Forall2 (requests d) rops rs -> rs = (fun c => let '(q1, q2, text) := f c in mkRep q1 q2 text) <$> cs.
Proof.
  intros Hm. induction 1 as [| c cs Hc Hcs (rops & R1 & R2 & R3)]; cbn [mapM_T].
  - exists []. split_and!; [done | done |]. intros rs Hrs. by inversion Hrs.
  - rewrite fmap_cons. destruct (f c) as [[q1 q2] text]. destruct Hc as (H1 & H2 & H3 & H4 & H5).
    destruct (editBetween_ok m d q1 q2 text Hm H1 H2 H3 H4 H5) as (op & E1 & E2 & E3). erewrite tbind_run by exact E1. erewrite tbind_run by exact R1.
    eexists. split; [reflexivity |]. split; [by constructor |]. intros rs Hrs. inversion Hrs as [| ? r ? rs' K1 K2]; subst. f_equal; [by apply E3 | by apply R3].
Qed.

Lemma used_nonneg b d : serves b d -> 0 <= Doc.used d.
Proof. intros [Hr _ _]. pose proof (st_used _ _ (reachable_stands _ _ Hr)). pose proof (blen_nonneg (_buffers (PieceTreeTextBuffer._pieceTree b))). lia. Qed.

(** The edits of changes that lead from the document to another text, and then any line
    end. *)
Lemma applyUndoRedo_any m d cs other rops eol undo redo alt sel :
  models m d -> __isDisposing m = false -> Edits.edits 0 0 cs (Doc.content d) other -> Forall (acceptable d) rops ->
  (forall rs, Forall2 (requests d) rops rs -> rs = rep_of <$> cs) ->
  Doc.used d + zlen (Doc.content d) + needed (rep_of <$> cs) + 8 < limit ->
  (normal (Doc.eol d) other -> zlen (replace_eol (eol_text eol) other) < limit) ->
  exists m' d', _applyUndoRedoEdits rops eol undo redo alt sel m = Ret (tt, m') /\ models m' d' /\ __isDisposing m' = false /\
    Doc.content d' = replace_eol (eol_text eol) other /\ Doc.eol d' = eol_text eol /\
    Doc.used d' <= Doc.used d + zlen (Doc.content d) + needed (rep_of <$> cs) + 8 /\ normal (Doc.eol d) other /\
    _alternativeVersionId m' = alt /\ _isUndoing m' = false /\ _isRedoing m' = false.
Proof.
  intros Hm Hdis He Hacc Hreq Hroom Hlen. destruct (patch_of_edits _ _ _ _ _ He ltac:(lia) [] eq_refl) as [Hp Hc]. cbn [app] in Hp, Hc.
  unfold _applyUndoRedoEdits. do 2 erewrite tbind_run by reflexivity. set (m1 := set_undoing _ _ _). assert (models m1 d) as Hm1 by (constructor; apply Hm).
  destruct (applyEdits_model m1 d rops false Hm1 Hdis Hacc) as (rs & R1 & R2 & _). rewrite (Hreq rs R1) in R2.
  destruct (R2 (chain_sorted_apart _ _ Hc) Hroom) as (reverse & m2 & d' & A1 & [B1 B2 B3 B4 (F1 & F2 & _) _ _]). erewrite tbind_run by exact A1.
  rewrite (js_sort_sorted_id _ _ (chain_by_end _ _ _ Hc)), Hp in B2. assert (__isDisposing m2 = false) as Hdis2 by (rewrite F2; exact Hdis).
  pose proof (serves_normal _ _ (md_serves _ _ B1)) as Hnorm.
  assert (normal (Doc.eol d) other) as Hother by (unfold normal; by rewrite <- B3, <- B2).
  pose proof (setEOL_model m2 d' eol B1 Hdis2 ltac:(rewrite B2; by apply Hlen)) as Hset. destruct (decide (Doc.eol d' = eol_text eol)) as [E | E].
  - rewrite bool_decide_eq_true_2 in Hset by done. erewrite tbind_run by exact Hset. do 2 erewrite tbind_run by reflexivity.
    eexists _, d'. split; [reflexivity |]. split; [constructor; apply B1 |]. split; [done |]. rewrite <- E, <- B2, Hnorm. by rewrite B2.
  - rewrite bool_decide_eq_false_2 in Hset by done. destruct Hset as (m3 & e & S1 & S2 & (_ & S3 & _) & _). erewrite tbind_run by exact S1.
    do 2 erewrite tbind_run by reflexivity. eexists _, (with_eol_of (eol_text eol) d'). split; [reflexivity |]. split; [constructor; apply S2 |].
    split; [cbn; congruence |]. split; [cbn; by rewrite B2 |]. split; [done |].
    pose proof (used_nonneg _ _ (md_serves _ _ Hm)). pose proof (needed_nonneg (rep_of <$> cs)). pose proof (zlen_nonneg (Doc.content d)). split; [cbn; lia | done].
Qed.

(** The line end the document has already. *)
Lemma applyUndoRedo_ok m d cs other rops eol undo redo alt sel :
  models m d -> __isDisposing m = false -> Edits.edits 0 0 cs (Doc.content d) other -> Forall (acceptable d) rops ->
  (forall rs, Forall2 (requests d) rops rs -> rs = rep_of <$> cs) -> eol_text eol = Doc.eol d ->
  Doc.used d + zlen (Doc.content d) + needed (rep_of <$> cs) + 8 < limit -> zlen other < limit ->
  exists m' d', _applyUndoRedoEdits rops eol undo redo alt sel m = Ret (tt, m') /\ models m' d' /\ __isDisposing m' = false /\
    Doc.content d' = other /\ Doc.eol d' = Doc.eol d /\ Doc.used d' <= Doc.used d + zlen (Doc.content d) + needed (rep_of <$> cs) + 8 /\
    _alternativeVersionId m' = alt /\ _isUndoing m' = false /\ _isRedoing m' = false.
Proof.
  intros Hm Hdis He Hacc Hreq Heol Hroom Hlen.
  destruct (applyUndoRedo_any m d cs other rops eol undo redo alt sel Hm Hdis He Hacc Hreq Hroom) as (m' & d' & A1 & A2 & A3 & A4 & A5 & A6 & A7 & A8);
    [intros Hn; by rewrite Heol, Hn |].
  exists m', d'. rewrite Heol, A7 in A4. rewrite Heol in A5. done.
Qed.
End Edits.

(** ** The theorems *)

(** C2: a text model carries out edits.  For a text model in use, with no emission
    deferred, and any edits (validated ones, or ones with any line numbers and columns;
    a [Range] object has its ends in order), validation makes of each a replacement
    between places of the document.  When two of them overlap, [applyEdits] throws an
    error.  When none do, it ends without an exception: the value of the text model is
    then the old one with every range replaced (the line breaks of the new texts in the
    form of the document), the line end stays, and the text model is in use again.  At
    most one event has fired.  None has only when the text is as it was, and then the
    versions stay too; otherwise both versions are the old version plus one, the event
    tells that version, and its content changes, made one after the other, lead from
    the old text to the new. *)
Theorem model_edits {D} {DT : Decorations D} (m : TextModel.t D) d rops compute :
  models m d -> __isDisposing m = false -> idle m -> Forall (acceptable d) rops ->
  exists rs, Forall2 (requests d) rops rs /\
    ((exists i j r1 r2, i <> j /\ rs !! i = Some r1 /\ rs !! j = Some r2 /\ overlap r1 r2) -> applyEdits rops compute m = Throw Error) /\
    (apart rs -> Doc.used d + zlen (Doc.content d) + needed rs + 8 < limit ->
       exists reverse m' d' es, applyEdits rops compute m = Ret (reverse, m') /\
         getValue TextDefined false m' = Ret (patch 0 (js_sort by_end rs) (Doc.content d), m') /\
         getEOL m' = Ret (Doc.eol d, m') /\ models m' d' /\ idle m' /\
         Emitter.fired (_eventEmitter m') = Emitter.fired (_eventEmitter m) ++ es /\ _versionId m' = _versionId m + zlen es /\
         (es = [] /\ Doc.content d' = Doc.content d /\ _alternativeVersionId m' = _alternativeVersionId m \/
          exists e, es = [e] /\ _alternativeVersionId m' = _versionId m' /\
            IModelContentChangedEvent.versionId (InternalModelContentChangeEvent.contentChangedEvent e) = _versionId m' /\
            foldl splice (Doc.content d) (IModelContentChangedEvent.changes (InternalModelContentChangeEvent.contentChangedEvent e)) = Doc.content d')).
Proof.
  intros Hm Hdis Hidle Hacc. destruct (applyEdits_model m d rops compute Hm Hdis Hacc) as (rs & R1 & R2 & R3). exists rs. split_and!; [done | done |].
  intros Hap Hroom. destruct (R2 Hap Hroom) as (reverse & m' & d' & A1 & [B1 B2 B3 _ _ _ B7]).
  assert (getValue TextDefined false m' = Ret (patch 0 (js_sort by_end rs) (Doc.content d), m')) as Hval by (rewrite <- B2; by apply getValue_run).
  assert (getEOL m' = Ret (Doc.eol d, m')) as Heol.
  { unfold getEOL. erewrite tbind_run by (by eapply assert_run). rewrite <- B3. apply buffer_read, getEOL_b, B1. }
  destruct B7 as [(T1 & T2 & T3 & T4) | (T1 & T2 & e & [_ L2 _ _ L5] & _ & T5)].
  - exists reverse, m', d', []. rewrite idle_ending in T4 by done. split_and!; [done | done | done | done | unfold idle; by rewrite T4 | by rewrite T4, app_nil_r | change (zlen []) with 0; lia |].
    by left.
  - exists reverse, m', d', [Emitter.with_selection None e]. rewrite idle_ending_with in T5 by done.
    split_and!; [done | done | done | done | unfold idle; by rewrite T5 | by rewrite T5 | done |].
    right. eexists. split; [reflexivity |]. cbn. rewrite T1, T2. done.
Qed.

Lemma model_edits_witness :
  exists rs, Forall2 (requests paired_doc) [Raw false (ValidAnnotatedEditOperation.mk None (Range.mk 1 3 9 9) (Some [120; 10]) false false false)] rs.
Proof.
  destruct (model_edits paired_model paired_doc [Raw false (ValidAnnotatedEditOperation.mk None (Range.mk 1 3 9 9) (Some [120; 10]) false false false)] true paired_models)
    as (rs & H & _); [reflexivity | reflexivity | constructor; [discriminate | constructor] |].
  exists rs. exact H.
Defined.

(** What happens: the range grows to the start of the pair, and "x CR LF" replaces it. *)
Example paired_edit :
  match applyEdits [Raw false (ValidAnnotatedEditOperation.mk None (Range.mk 1 3 9 9) (Some [120; 10]) false false false)] true paired_model with
  | Ret (_, m) => fst <$> (match getValue TextDefined false m with Ret r => Some r | Throw _ => None end) = Some [97; 120; 13; 10] /\ _versionId m = 2
  | Throw _ => False
  end.
Proof. by vm_compute. Qed.

(** C9: the changes of lines are right.  For valid edits that do not overlap, the event
    [_doApplyEdits] fires, when it fires one, carries changes of lines (lines changed,
    lines deleted, lines inserted, with the contents of lines of the new text) that,
    made one after the other on the lines of the old text, give the lines of the new
    text; whatever the number of edits and how many of them share a line.  The line
    numbers it reads from the new text all exist. *)
Theorem lines_replayed {D} {DT : Decorations D} (m : TextModel.t D) d ops rs compute :
  models m d -> __isDisposing m = false -> idle m -> Forall2 (asks d) ops rs -> apart rs ->
  Doc.used d + zlen (Doc.content d) + needed rs + 8 < limit ->
  exists reverse m' es, _doApplyEdits ops compute m = Ret (reverse, m') /\
    Emitter.fired (_eventEmitter m') = Emitter.fired (_eventEmitter m) ++ es /\ zlen es <= 1 /\
    foldl (fun lines e => foldl replay lines (ModelRawContentChangedEvent.changes (InternalModelContentChangeEvent.rawContentChangedEvent e)))
      (split_lines (Doc.content d)) es = split_lines (patch 0 (js_sort by_end rs) (Doc.content d)).
Proof.
  intros Hm Hdis Hidle Hops Hap Hroom.
  destruct (doApplyEdits_ok m d ops rs compute Hm Hdis Hops Hap Hroom) as (result & m' & d' & b' & _ & Hout & _ & D1 & _ & _ & _ & _ & _ & _ & D8).
  rewrite <- (oc_content _ _ _ _ _ _ Hout). destruct (_ === 0).
  - destruct D8 as (E1 & _ & _ & E2). exists (ApplyEditsResult.reverseEdits result), m', []. rewrite E2, app_nil_r, E1. done.
  - destruct D8 as (_ & _ & e & [L1 _ _ _ _] & E2 & _). exists (ApplyEditsResult.reverseEdits result), m', [e]. rewrite E2, idle_fire by done. done.
Qed.

Lemma lines_replayed_witness :
  exists reverse m' es, _doApplyEdits [sample_op 2 1 2 2 (Some [120; 10; 121]); sample_op 1 2 2 1 None] true (new_TextModel (D := unit) sample_buffer false) = Ret (reverse, m') /\
    Emitter.fired (_eventEmitter m') = es /\
    foldl (fun lines e => foldl replay lines (ModelRawContentChangedEvent.changes (InternalModelContentChangeEvent.rawContentChangedEvent e)))
      [[97; 98]; [99; 100]] es = [[97; 120]; [121; 100]].
Proof.
  destruct (lines_replayed (new_TextModel (D := unit) sample_buffer false) sample_doc sample_ops sample_replacements true) as (reverse & m' & es & H1 & H2 & _ & H3);
    [constructor; [reflexivity | exact sample_serves] | reflexivity | reflexivity | exact sample_asked | exact sample_apart | reflexivity |].
  exists reverse, m', es. split; [exact H1 |]. split; [exact H2 | exact H3].
Defined.

(** Undo and redo end in the text the changes lead to, with the line end given. *)
Lemma undo_any {D} {DT : Decorations D} (m : TextModel.t D) d cs u eol version sel :
  models m d -> __isDisposing m = false -> Edits.edits 0 0 cs u (Doc.content d) ->
  Forall (fun c => whole d (TextChange.newPosition c) /\ whole d (TextChange.newEnd c) /\ normal (Doc.eol d) (TextChange.oldText c)) cs ->
  Doc.used d + zlen (Doc.content d) + needed (rep_of <$> (Edits.inverse <$> cs)) + 8 < limit ->
  (normal (Doc.eol d) u -> zlen (replace_eol (eol_text eol) u) < limit) ->
  exists m' d', _applyUndo cs eol version sel m = Ret (tt, m') /\ models m' d' /\ __isDisposing m' = false /\
    Doc.content d' = replace_eol (eol_text eol) u /\ Doc.eol d' = eol_text eol /\ normal (Doc.eol d) u /\
    Doc.used d' <= Doc.used d + zlen (Doc.content d) + needed (rep_of <$> (Edits.inverse <$> cs)) + 8 /\ _alternativeVersionId m' = version.
Proof.
  intros Hm Hdis He Hnew Hroom Hlen. pose proof (Edits.edits_inverse _ _ _ _ _ He) as Hi.
  destruct (patch_of_edits _ _ _ _ _ Hi ltac:(lia) [] eq_refl) as [_ [_ Hci]%chain_bounds]. cbn [app] in Hci. rewrite !Forall_fmap in Hci.
  destruct (editsBetween_ok m d (fun c => (TextChange.newPosition c, TextChange.newEnd c, TextChange.oldText c)) cs Hm) as (rops & R1 & R2 & R3).
  { apply Forall_forall. intros c Hc. rewrite Forall_forall in Hnew. rewrite Forall_forall in Hci. specialize (Hnew c Hc). specialize (Hci c Hc).
    cbn in Hci. unfold TextChange.newEnd, TextChange.oldEnd in *. cbn in Hci. destruct Hnew as (? & ? & ?). split_and!; done || lia. }
  destruct (applyUndoRedo_any m d (Edits.inverse <$> cs) u rops eol true false version sel Hm Hdis Hi R2) as (m' & d' & A1 & A2 & A3 & A4 & A5 & A6 & A7 & A8 & _);
    [intros rs Hrs; rewrite (R3 rs Hrs), <- list_fmap_compose; done | done | done |].
  exists m', d'. unfold _applyUndo. erewrite tbind_run by exact R1. done.
Qed.

Lemma redo_any {D} {DT : Decorations D} (m : TextModel.t D) d cs other eol version sel :
  models m d -> __isDisposing m = false -> Edits.edits 0 0 cs (Doc.content d) other ->
  Forall (fun c => whole d (TextChange.oldPosition c) /\ whole d (TextChange.oldEnd c) /\ normal (Doc.eol d) (TextChange.newText c)) cs ->
  Doc.used d + zlen (Doc.content d) + needed (rep_of <$> cs) + 8 < limit -> (normal (Doc.eol d) other -> zlen (replace_eol (eol_text eol) other) < limit) ->
  exists m' d', _applyRedo cs eol version sel m = Ret (tt, m') /\ models m' d' /\
    Doc.content d' = replace_eol (eol_text eol) other /\ Doc.eol d' = eol_text eol /\ normal (Doc.eol d) other /\ _alternativeVersionId m' = version.
Proof.
  intros Hm Hdis He Hold Hroom Hlen. destruct (patch_of_edits _ _ _ _ _ He ltac:(lia) [] eq_refl) as [_ [_ Hce]%chain_bounds]. cbn [app] in Hce. rewrite Forall_fmap in Hce.
  destruct (editsBetween_ok m d (fun c => (TextChange.oldPosition c, TextChange.oldEnd c, TextChange.newText c)) cs Hm) as (rops & S1 & S2 & S3).
  { apply Forall_forall. intros c Hc. rewrite Forall_forall in Hold. rewrite Forall_forall in Hce. specialize (Hold c Hc). specialize (Hce c Hc).
    cbn in Hce. destruct Hold as (? & ? & ?). split_and!; done || lia. }
  destruct (applyUndoRedo_any m d cs other rops eol false true version sel Hm Hdis He S2) as (m' & d' & B1 & B2 & _ & B4 & B5 & _ & B7 & B8 & _);
    [intros rs Hrs; rewrite (S3 rs Hrs); done | done | done |].
  exists m', d'. unfold _applyRedo. erewrite tbind_run by exact S1. done.
Qed.

(** C8: undo and redo.  Let text changes lead from an old text to the text of a text
    model, all of whose offsets are places of the two texts (not between CR and LF, not
    behind a high surrogate), and let the line end not have changed.  Then [_applyUndo]
    with the changes ends without an exception, the value of the text model is the old
    text and its alternative version the one given; and [_applyRedo] with the same
    changes then brings the new text back. *)
Theorem undo_redo_restores {D} {DT : Decorations D} (m : TextModel.t D) d cs old eol version version' sel sel' :
  models m d -> __isDisposing m = false -> Edits.edits 0 0 cs old (Doc.content d) -> eol_text eol = Doc.eol d ->
  let undo := rep_of <$> (Edits.inverse <$> cs) in let redo := rep_of <$> cs in let d0 := Doc.mk old (Doc.eol d) true 0 in
  Forall (fun c => whole d (TextChange.newPosition c) /\ whole d (TextChange.newEnd c) /\ normal (Doc.eol d) (TextChange.oldText c)) cs ->
  Forall (fun c => whole d0 (TextChange.oldPosition c) /\ whole d0 (TextChange.oldEnd c) /\ normal (Doc.eol d) (TextChange.newText c)) cs ->
  Doc.used d + zlen (Doc.content d) + zlen old + needed undo + needed redo + 16 < limit ->
  exists m' m'', _applyUndo cs eol version sel m = Ret (tt, m') /\ getValue TextDefined false m' = Ret (old, m') /\ _alternativeVersionId m' = version /\
    _applyRedo cs eol version' sel' m' = Ret (tt, m'') /\ getValue TextDefined false m'' = Ret (Doc.content d, m'') /\ _alternativeVersionId m'' = version'.
Proof.
  intros Hm Hdis He Heol undo redo d0 Hnew Hold Hroom. pose proof (used_nonneg _ _ (md_serves _ _ Hm)).
  pose proof (needed_nonneg undo). pose proof (needed_nonneg redo). pose proof (zlen_nonneg (Doc.content d)). pose proof (zlen_nonneg old).
  destruct (undo_any m d cs old eol version sel Hm Hdis He Hnew) as (m' & d' & A1 & A2 & A3 & A4 & A5 & A6 & A7 & A8);
    [fold undo; lia | intros Hn; rewrite Heol, Hn; lia |]. rewrite Heol in A4, A5. rewrite A6 in A4.
  rewrite <- A4 in He. destruct (redo_any m' d' cs (Doc.content d) eol version' sel' A2 A3 He) as (m'' & d'' & B1 & B2 & B3 & B4 & B5 & B6).
  { unfold whole, high_before in *. by rewrite A4, A5. }
  { fold redo. fold undo in A7. rewrite A4. lia. }
  { intros Hn. rewrite Heol, <- A5, Hn. lia. }
  exists m', m''. split; [done |]. split; [rewrite <- A4; by apply getValue_run |]. split; [done |]. split; [done |]. split; [| done].
  rewrite Heol, <- A5, B5 in B3. rewrite <- B3. by apply getValue_run.
Qed.

(** "x" was replaced by the surrogate pair. *)
Definition paired_change : TextChange.t := TextChange.mk 1 [120] 1 [0xD83D; 0xDE00].

Lemma undo_redo_restores_witness :
  exists m' m'', _applyUndo [paired_change] SeqCRLF 7 None paired_model = Ret (tt, m') /\
    getValue TextDefined false m' = Ret ([97; 120; 13; 10; 98], m') /\
    _applyRedo [paired_change] SeqCRLF 8 None m' = Ret (tt, m'') /\
    getValue TextDefined false m'' = Ret ([97; 0xD83D; 0xDE00; 13; 10; 98], m'').
Proof.
  destruct (undo_redo_restores paired_model paired_doc [paired_change] [97; 120; 13; 10; 98] SeqCRLF 7 8 None None paired_models)
    as (m' & m'' & H1 & H2 & _ & H3 & H4 & _).
  - reflexivity.
  - apply (Edits.edits_cons 0 0 [97] paired_change [] [13; 10; 98] [13; 10; 98]); [reflexivity | reflexivity | apply Edits.edits_nil].
  - reflexivity.
  - constructor; [| constructor]. split; [split; [vm_compute; intros [? ?]; discriminate | reflexivity] |].
    split; [split; [vm_compute; intros [? ?]; discriminate | reflexivity] | reflexivity].
  - constructor; [| constructor]. split; [split; [vm_compute; intros [? ?]; discriminate | reflexivity] |].
    split; [split; [vm_compute; intros [? ?]; discriminate | reflexivity] | reflexivity].
  - reflexivity.
  - exists m', m''. split; [exact H1 |]. split; [exact H2 |]. split; [exact H3 | exact H4].
Defined.

(** ** Undo and redo with another line end *)

Lemma replace_eol_over eol eol' str : eol' = [LineFeed] \/ eol' = [CarriageReturn; LineFeed] -> replace_eol eol (replace_eol eol' str) = replace_eol eol str.
Proof. intros He. by rewrite <- (join_split eol (replace_eol eol' str)), <- (join_split eol str), split_lines_replace. Qed.

Lemma nocr_seam a b : CarriageReturn ∉ a -> seam a b.
Proof. intros Ha [H _]. apply Ha. apply last_Some in H as [a' ->]. set_solver. Qed.

Lemma replace_eol_plain eol str : CarriageReturn ∉ str -> LineFeed ∉ str -> replace_eol eol str = str.
Proof.
  induction str as [| c str IH]; [done |]. intros [Hc Hs]%not_elem_of_cons [Hl Ht]%not_elem_of_cons. rewrite replace_eol_cons, IH by done.
  by rewrite !(proj2 (Z.eqb_neq c _)) by done.
Qed.

(** A text without CR grows by one character for every line break. *)
Lemma replace_crlf_len str : CarriageReturn ∉ str -> zlen (replace_eol [CarriageReturn; LineFeed] str) = zlen str + breaks str.
Proof.
  induction str as [| c str IH]; [done |]. intros [Hc Hs]%not_elem_of_cons. specialize (IH Hs).
  rewrite replace_eol_cons, (proj2 (Z.eqb_neq c CarriageReturn)) by done. destruct (Z.eqb_spec c LineFeed) as [-> | Hl].
  - rewrite zlen_app, breaks_cons_lf, IH, !zlen_cons. change (zlen []) with 0. lia.
  - change (breaks (c :: str)) with (breaks ([c] ++ str)). rewrite breaks_app, breaks_plain by (done || by apply plain_seam). rewrite !zlen_cons. lia.
Qed.

(** C35: undo brings the old line end back.  Let a text model have taken another line end
    than the text [old] had, and let text changes then lead from the text with its line
    breaks replaced to the text the model has now (an element of the undo stack with a
    change of the line end and edits behind it).  The offsets of the changes are places of
    that text (not between CR and LF, not behind a high surrogate).  Then [_applyUndo] with
    the changes and the old line end ends without an exception, and the text model has the
    old value, line end and alternative version. *)
Theorem undo_restores_eol {D} {DT : Decorations D} (m : TextModel.t D) d cs old eol version sel :
  models m d -> __isDisposing m = false -> normal (eol_text eol) old -> Edits.edits 0 0 cs (replace_eol (Doc.eol d) old) (Doc.content d) ->
  Forall (fun c => whole d (TextChange.newPosition c) /\ whole d (TextChange.newEnd c) /\ normal (Doc.eol d) (TextChange.oldText c)) cs ->
  Doc.used d + zlen (Doc.content d) + needed (rep_of <$> (Edits.inverse <$> cs)) + 8 < limit -> zlen old < limit ->
  exists m', _applyUndo cs eol version sel m = Ret (tt, m') /\ getValue TextDefined false m' = Ret (old, m') /\
    getEOL m' = Ret (eol_text eol, m') /\ _alternativeVersionId m' = version.
Proof.
  intros Hm Hdis Hn He Hnew Hroom Hlen.
  assert (replace_eol (eol_text eol) (replace_eol (Doc.eol d) old) = old) as Hback by (rewrite replace_eol_over; [exact Hn | eapply serves_eol, Hm]).
  destruct (undo_any m d cs _ eol version sel Hm Hdis He Hnew Hroom) as (m' & d' & A1 & A2 & A3 & A4 & A5 & _ & _ & A8); [by rewrite Hback |].
  rewrite Hback in A4. exists m'. split; [done |]. split; [rewrite <- A4; by apply getValue_run |]. split; [| done].
  unfold getEOL. erewrite tbind_run by (by eapply assert_run). rewrite <- A5. apply buffer_read, getEOL_b, A2.
Qed.

(** C37: redo does not, in general, bring such a text back.  [_applyUndoRedoEdits] applies the
    edits before it sets the line end, so redo takes the offsets of the changes, which count
    CR LF, for offsets of the text with LF.  For a document that was taken from LF to CR LF
    and in which [x] was then inserted at the offset [p], undo gives the old text, but redo
    puts [x] behind the offset [p] plus the number of the line breaks among the first [p]
    characters of the old text, in place of the offset [p]. *)
Theorem redo_after_eol_change {D} {DT : Decorations D} (m : TextModel.t D) d old p x version version' sel sel' :
  let u := replace_eol [CarriageReturn; LineFeed] old in let c := TextChange.mk p [] p x in let k := breaks (ztake p old) in
  models m d -> __isDisposing m = false -> Doc.eol d = [CarriageReturn; LineFeed] -> normal [LineFeed] old ->
  0 <= p <= zlen old -> CarriageReturn ∉ x -> LineFeed ∉ x -> Doc.content d = ztake p u ++ x ++ zdrop p u ->
  whole d p -> whole d (p + zlen x) -> high_before (Doc.mk old [LineFeed] true 0) p = false ->
  Doc.used d + 2 * zlen (Doc.content d) + 32 < limit ->
  exists m' m'', _applyUndo [c] SeqLF version sel m = Ret (tt, m') /\ getValue TextDefined false m' = Ret (old, m') /\
    _applyRedo [c] SeqCRLF version' sel' m' = Ret (tt, m'') /\
    getValue TextDefined false m'' = Ret (ztake (p + k) u ++ x ++ zdrop (p + k) u, m'').
Proof.
  intros u c k Hm Hdis Hcrlf Hn Hp Hxr Hxl Hcont Hw1 Hw2 Hhigh Hroom.
  assert (CarriageReturn ∉ old) as Hcr by (rewrite <- Hn; apply (replace_eol_nocr [LineFeed]); by left || done).
  assert (CarriageReturn ∉ ztake p old) as Hcr1. { intros H. apply Hcr. rewrite <- (ztake_zdrop p old). set_solver. }
  pose proof (nocr_seam _ (zdrop p old) Hcr1) as Hs. assert (zlen (ztake p old) = p) as Hzp by (apply zlen_ztake; lia).
  pose proof (used_nonneg _ _ (md_serves _ _ Hm)). pose proof (breaks_nonneg old). assert (zlen old <= zlen u) as Hou by (unfold u; rewrite replace_crlf_len by done; lia).
  pose proof (zlen_nonneg x). pose proof (breaks_nonneg (ztake p old)).
  assert (replace_eol [LineFeed] u = old) as Hback by (unfold u; rewrite replace_eol_over; [exact Hn | by right]).
  assert (zlen (Doc.content d) = zlen u + zlen x) as Hzd. { rewrite <- (ztake_zdrop p u), Hcont, !zlen_app. lia. }
  assert (replace_eol [CarriageReturn; LineFeed] (ztake p old ++ x ++ zdrop p old) = ztake (p + k) u ++ x ++ zdrop (p + k) u) as Hredo.
  { pose proof (replace_crlf_len _ Hcr1) as Hz. rewrite Hzp in Hz. rewrite !replace_eol_app, (replace_eol_plain _ x) by (done || by apply nocr_seam).
    assert (u = replace_eol [CarriageReturn; LineFeed] (ztake p old) ++ replace_eol [CarriageReturn; LineFeed] (zdrop p old)) as ->.
    { rewrite <- replace_eol_app by done. by rewrite ztake_zdrop. }
    unfold k. rewrite <- Hz, ztake_app_l, zdrop_app_l, (ztake_all (zlen (replace_eol _ _))), (zdrop_all (zlen (replace_eol _ _))) by lia. done. }
  destruct (undo_any m d [c] u SeqLF version sel Hm Hdis) as (m' & d' & A1 & A2 & A3 & A4 & A5 & _ & A7 & _).
  { rewrite <- (ztake_zdrop p u) at 1. rewrite Hcont. apply (Edits.edits_cons 0 0 (ztake p u) c [] (zdrop p u) (zdrop p u)); [| | apply Edits.edits_nil]; cbn; rewrite zlen_ztake; lia. }
  { constructor; [| constructor]. split_and!; [done | done |]. by rewrite Hcrlf. }
  { cbn. change (zlen []) with 0. lia. }
  { intros _. cbn [eol_text]. rewrite Hback. lia. }
  cbn [eol_text] in A4, A5. rewrite Hback in A4. cbn in A7. change (zlen []) with 0 in A7.
  destruct (redo_any m' d' [c] (ztake p old ++ x ++ zdrop p old) SeqCRLF version' sel' A2 A3) as (m'' & d'' & B1 & B2 & B3 & _).
  { rewrite A4. rewrite <- (ztake_zdrop p old) at 1. apply (Edits.edits_cons 0 0 (ztake p old) c [] (zdrop p old) (zdrop p old)); [cbn; lia | cbn; lia | apply Edits.edits_nil]. }
  { constructor; [| constructor]. unfold whole, TextChange.oldEnd. cbn. change (zlen []) with 0. rewrite Z.add_0_r. unfold high_before in *. rewrite A4, A5.
    split_and!; [done | done | done | done | by apply replace_eol_plain]. }
  { rewrite A4. cbn. lia. }
  { intros _. cbn [eol_text]. rewrite Hredo, !zlen_app, Z.add_comm, <- Z.add_assoc, (Z.add_comm (zlen (zdrop _ _))), <- zlen_app, ztake_zdrop. lia. }
  cbn [eol_text] in B3. rewrite Hredo in B3. exists m', m''. split; [done |]. split; [rewrite <- A4; by apply getValue_run |]. split; [done |]. rewrite <- B3. by apply getValue_run.
Qed.

(** The document "a CR LF x b": "a LF b" with its line end changed and "x" inserted at the
    start of the second line. *)
Definition crlf_chunks : list StringBuffer.t := [StringBuffer.mk [97; 13; 10; 120; 98] [0; 3]].
Definition crlf_store : state :=
  match new_PieceTreeBase crlf_chunks [CarriageReturn; LineFeed] true with Ret s => s | Throw _ => blank end.
Definition crlf_doc : Doc.t := Doc.mk [97; 13; 10; 120; 98] [CarriageReturn; LineFeed] true 0.
Definition crlf_model : TextModel.t unit := new_TextModel (PieceTreeTextBuffer.mk crlf_store [] false false false 0) false.

Lemma crlf_models : models crlf_model crlf_doc.
Proof.
  constructor; [reflexivity |]. constructor; [| reflexivity | intros _; split; [by right | by vm_compute]].
  apply (reach_new crlf_chunks); [| by vm_compute].
  constructor; [| done]. exists crlf_chunks, []. split; [done |]. split_and!; [| done | split; [by intros [? _] | done]].
  repeat constructor; done.
Qed.

Lemma undo_restores_eol_witness :
  exists m', _applyUndo [TextChange.mk 3 [] 3 [120]] SeqLF 1 None crlf_model = Ret (tt, m') /\
    getValue TextDefined false m' = Ret ([97; 10; 98], m') /\ getEOL m' = Ret ([LineFeed], m').
Proof.
  destruct (undo_restores_eol crlf_model crlf_doc [TextChange.mk 3 [] 3 [120]] [97; 10; 98] SeqLF 1 None crlf_models) as (m' & H1 & H2 & H3 & _).
  - reflexivity.
  - reflexivity.
  - apply (Edits.edits_cons 0 0 [97; 13; 10] (TextChange.mk 3 [] 3 [120]) [] [98] [98]); [reflexivity | reflexivity | apply Edits.edits_nil].
  - constructor; [| constructor]. split; [split; [vm_compute; intros [? ?]; discriminate | reflexivity] |].
    split; [split; [vm_compute; intros [? ?]; discriminate | reflexivity] | reflexivity].
  - reflexivity.
  - reflexivity.
  - exists m'. split; [exact H1 |]. split; [exact H2 | exact H3].
Defined.

(** The "x" was at the start of the second line; redo puts it at the end of that line. *)
Lemma redo_after_eol_change_witness :
  exists m' m'', _applyUndo [TextChange.mk 3 [] 3 [120]] SeqLF 1 None crlf_model = Ret (tt, m') /\
    getValue TextDefined false m' = Ret ([97; 10; 98], m') /\
    _applyRedo [TextChange.mk 3 [] 3 [120]] SeqCRLF 3 None m' = Ret (tt, m'') /\
    getValue TextDefined false m'' = Ret ([97; 13; 10; 98; 120], m'').
Proof.
  apply (redo_after_eol_change crlf_model crlf_doc [97; 10; 98] 3 [120] 1 3 None None).
  - exact crlf_models.
  - reflexivity.
  - reflexivity.
  - reflexivity.
  - change (0 <= 3 <= 3). lia.
  - by apply (bool_decide_unpack _).
  - by apply (bool_decide_unpack _).
  - reflexivity.
  - split; [vm_compute; intros [? ?]; discriminate | reflexivity].
  - split; [vm_compute; intros [? ?]; discriminate | reflexivity].
  - reflexivity.
  - reflexivity.
Defined.

(** The document "a LF b". *)
Definition lf_store : state :=
  match new_PieceTreeBase [StringBuffer.mk [97; 10; 98] [0; 2]] [LineFeed] true with Ret s => s | Throw _ => blank end.
Definition lf_model : TextModel.t unit := new_TextModel (PieceTreeTextBuffer.mk lf_store [] false false false 0) false.

(** One element of the undo stack with a change of the line end and then an edit, as
    [pushEOL] followed by [pushEditOperations] makes it: the line end becomes CR LF, "x" is
    inserted at the start of the second line; undo; redo.  The values after each. *)
Definition eol_and_edit : T (jsstring * jsstring * jsstring) :=
  setEOL SeqCRLF;;
  reverse ← applyEdits [Raw true (ValidAnnotatedEditOperation.mk None (Range.mk 2 1 2 1) (Some [120]) false false false)] true;
  let changes := textChangesOf (default [] reverse) in
  edited ← getValue TextDefined false;
  _applyUndo changes SeqLF 1 None;;
  undone ← getValue TextDefined false;
  _applyRedo changes SeqCRLF 3 None;;
  redone ← getValue TextDefined false;
  mret (edited, undone, redone).

(** The edit makes the change of the theorem, and redo misplaces it. *)
Example eol_and_edit_redone :
  match eol_and_edit lf_model with
  | Ret (edited, undone, redone, _) =>
      edited = [97; 13; 10; 120; 98] /\ undone = [97; 10; 98] /\ redone = [97; 13; 10; 98; 120]
  | Throw _ => False
  end.
Proof. by vm_compute. Qed.
