(* ===== verification/MirrorTextModel.v ===== *)
(** * The mirror of a text model

    [MirrorTextModel] of [mirrorTextModel.ts]: the copy of a document another process
    keeps as an array of lines, updated by the content changes the text model tells, with
    the prefix sums of the line lengths. *)

From stdpp Require Import gmap.
From S2P Require Import Prelude Position Range PrefixSum Buffer TextChange RBTree RBTreeRep RBTreeOps RBTreeInsert RBTreeDelete RBTreeRemove.
From S2P Require Import PieceBuffers PieceTree PieceTreeEdit PieceTreeNodes PieceTreeRead PieceTreeList PieceTreeText.
From S2P Require Import PieceTreePieces PieceTreeChange PieceTreeSeal PieceTreeInsert PieceTreeDocument.
From S2P Require Import PieceTreeErase PieceTreeCreate PieceTreeChars PieceTreeLines PieceTreeRange PieceTreeContent PieceTreeSession.
From S2P Require Import Strings TextBuffer TextBufferSort TextEdits TextBufferEdits TextBufferInverse TextBufferApply TextLines.

Module MirrorTextModel.
Import PrefixSumComputer.

(** ** The object *)

(** The resource identifier is left out: it is only stored. *)
Record t := mk {
  _lines : list jsstring;
  _eol : jsstring;
  _versionId : Z;
  _lineStarts : option PrefixSumComputer.t;
  _cachedTextValue : option jsstring
}.

(** [IModelChangedEvent], as far as [onEvents] reads it *)
Record IModelChangedEvent := mkEvent { changes : list IInternalModelContentChange.t; eol : jsstring; versionId : Z }.

Definition new (lines : list jsstring) (eol : jsstring) (versionId : Z) : t := mk lines eol versionId None None.

Definition set_lines (lines : list jsstring) (starts : option PrefixSumComputer.t) (this : t) : t :=
  mk lines (_eol this) (_versionId this) starts (_cachedTextValue this).

Definition dispose (this : t) : t := set_lines [] (_lineStarts this) this.

Definition version (this : t) : Z := _versionId this.

Definition getText (this : t) : jsstring * t :=
  match _cachedTextValue this with
  | Some text => (text, this)
  | None =>
      let text := js_join (_eol this) (_lines this) in
      (text, mk (_lines this) (_eol this) (_versionId this) (_lineStarts this) (Some text))
  end.

(** A [Uint32Array] of the lengths of lines with their line ends. *)
Definition lengths (eol : jsstring) (lines : list jsstring) : list Z := (fun line => uint32 (zlen line + zlen eol)) <$> lines.

Definition _ensureLineStarts (this : t) : t :=
  match _lineStarts this with
  | Some _ => this
  | None => set_lines (_lines this) (Some (PrefixSumComputer.new (lengths (_eol this) (_lines this)))) this
  end.

Definition _setLineText (lineIndex : Z) (newValue : jsstring) (this : t) : res t :=
  let* lines := js_store (_lines this) lineIndex newValue in
  Ret (set_lines lines
         (match _lineStarts this with
          | Some starts => Some (snd (setValue starts lineIndex (zlen newValue + zlen (_eol this))))
          | None => None
          end) this).

(** [line.substring(from)] *)
Definition js_substring_from (line : jsstring) (from : Z) : jsstring := js_substring line from (zlen line).

Definition _acceptDeleteRange (range : Range.t) (this : t) : res t :=
  let startLineNumber := Range.startLineNumber range in
  let endLineNumber := Range.endLineNumber range in
  if startLineNumber === endLineNumber then
    if Range.startColumn range === Range.endColumn range then Ret this
    else
      let* line := js_get (znth (_lines this) (startLineNumber - 1)) in
      _setLineText (startLineNumber - 1)
        (js_substring line 0 (Range.startColumn range - 1) ++ js_substring_from line (Range.endColumn range - 1)) this
  else
    let* first := js_get (znth (_lines this) (startLineNumber - 1)) in
    let* last := js_get (znth (_lines this) (endLineNumber - 1)) in
    let* this := _setLineText (startLineNumber - 1)
      (js_substring first 0 (Range.startColumn range - 1) ++ js_substring_from last (Range.endColumn range - 1)) this in
    let lines := js_splice (_lines this) startLineNumber (endLineNumber - startLineNumber) [] in
    match _lineStarts this with
    | Some starts =>
        let* r := removeValues starts startLineNumber (endLineNumber - startLineNumber) in
        Ret (set_lines lines (Some (snd r)) this)
    | None => Ret (set_lines lines None this)
    end.

(** the loop that inserts the lines one by one *)
Fixpoint insertAll (lines : list jsstring) (index : Z) (insertLines : list jsstring) : list jsstring :=
  match insertLines with
  | [] => lines
  | line :: insertLines => insertAll (js_splice lines index 0 [line]) (index + 1) insertLines
  end.

Definition _acceptInsertText (position : Position.t) (insertText : jsstring) (this : t) : res t :=
  if zlen insertText === 0 then Ret this
  else
    let lineNumber := Position.lineNumber position in
    let column := Position.column position in
    let insertLines := split_lines insertText in
    match insertLines with
    | [insertLine] =>
        let* line := js_get (znth (_lines this) (lineNumber - 1)) in
        _setLineText (lineNumber - 1) (js_substring line 0 (column - 1) ++ insertLine ++ js_substring_from line (column - 1)) this
    | _ =>
        let* line := js_get (znth (_lines this) (lineNumber - 1)) in
        let insertLines := removelast insertLines ++ [default [] (last insertLines) ++ js_substring_from line (column - 1)] in
        let* this := _setLineText (lineNumber - 1) (js_substring line 0 (column - 1) ++ hd [] insertLines) this in
        let lines := insertAll (_lines this) lineNumber (tail insertLines) in
        let newLengths := lengths (_eol this) (tail insertLines) in
        match _lineStarts this with
        | Some starts =>
            let* r := insertValues starts lineNumber newLengths in
            Ret (set_lines lines (Some (snd r)) this)
        | None => Ret (set_lines lines None this)
        end
    end.

(** the loop over the changes *)
Fixpoint acceptChanges (cs : list IInternalModelContentChange.t) (this : t) : res t :=
  match cs with
  | [] => Ret this
  | change :: cs =>
      let range := IInternalModelContentChange.range change in
      let* this := _acceptDeleteRange range this in
      let* this := _acceptInsertText (Position.new (Range.startLineNumber range) (Range.startColumn range))
                     (IInternalModelContentChange.text change) this in
      acceptChanges cs this
  end.

Definition onEvents (e : IModelChangedEvent) (this : t) : res t :=
  let this :=
    if bool_decide (eol e <> []) && bool_decide (eol e <> _eol this) then
      mk (_lines this) (eol e) (_versionId this) None (_cachedTextValue this)
    else this in
  let* this := acceptChanges (changes e) this in
  Ret (mk (_lines this) (_eol this) (versionId e) (_lineStarts this) None).

End MirrorTextModel.
