(* ===== verification/MirrorSync.v ===== *)
(** * A mirror stays in sync

    The mirror of a text model follows the content changes of [applyEdits]: after every
    batch its lines are the lines of the new text, and its prefix sums are right. *)

From stdpp Require Import gmap.
From S2P Require Import Prelude Position Range PrefixSum Buffer TextChange RBTree RBTreeRep RBTreeOps RBTreeInsert RBTreeDelete RBTreeRemove.
From S2P Require Import PieceBuffers PieceTree PieceTreeEdit PieceTreeNodes PieceTreeRead PieceTreeList PieceTreeText.
From S2P Require Import PieceTreePieces PieceTreeChange PieceTreeSeal PieceTreeInsert PieceTreeDocument.
From S2P Require Import PieceTreeErase PieceTreeCreate PieceTreeChars PieceTreeLines PieceTreeRange PieceTreeContent PieceTreeSession.
From S2P Require Import Strings TextBuffer TextBufferSort TextEdits TextBufferEdits TextBufferInverse TextBufferApply.
From S2P Require Import TextLines TextModelEvents TextModel TextModelReads TextModelRaw TextModelEdits MirrorTextModel.
Module Mirror := MirrorTextModel.
Module Psc := PrefixSumComputer.
Import TextModel.

(** ** The mirror of a text *)

Definition starts_ok (eol : jsstring) (lines : list jsstring) (starts : option Psc.t) : Prop :=
  match starts with Some s => Psc.wf s /\ Psc.values s = Mirror.lengths eol lines | None => True end.

(** The lines and the prefix sums are those of the text. *)
Record tracks (m : Mirror.t) (str eol : jsstring) : Prop := mktracks {
  tr_lines : Mirror._lines m = split_lines str;
  tr_eol : Mirror._eol m = eol;
  tr_starts : starts_ok eol (Mirror._lines m) (Mirror._lineStarts m)
}.

(** ** Bounds *)

Lemma lengths_id (eol : jsstring) n (ls : list jsstring) : Forall (fun l => zlen l <= n) ls -> n + zlen eol < 2 ^ 31 ->
  Mirror.lengths eol ls = (fun l => zlen l + zlen eol) <$> ls /\ Forall in_uint32 (Mirror.lengths eol ls).
Proof.
  intros Hk Hlt. unfold Mirror.lengths. induction Hk as [| l k Hl Hk [IH1 IH2]]; [done |]. rewrite !fmap_cons.
  pose proof (zlen_nonneg l). pose proof (zlen_nonneg eol). assert (in_uint32 (zlen l + zlen eol)) as Hin by (unfold in_uint32; lia).
  rewrite uint32_id by done. split; [by rewrite IH1 | by constructor].
Qed.

(** ** Substrings *)

Lemma substring_head (x k : jsstring) : js_substring (x ++ k) 0 (zlen x) = x.
Proof.
  pose proof (zlen_nonneg x). pose proof (zlen_nonneg k). rewrite js_substring_eq by (rewrite ?zlen_app; lia).
  by rewrite Z.sub_0_r, zdrop_0, ztake_app_l, ztake_all by lia.
Qed.

Lemma substring_tail (x k : jsstring) o : o = zlen x -> Mirror.js_substring_from (x ++ k) o = k.
Proof.
  intros ->. pose proof (zlen_nonneg x). pose proof (zlen_nonneg k). unfold Mirror.js_substring_from.
  rewrite js_substring_eq by (rewrite ?zlen_app; lia). rewrite zdrop_app_r, Z.sub_diag, zdrop_0 by lia.
  by rewrite ztake_all by (rewrite zlen_app; lia).
Qed.

(** ** Setting a line *)

Lemma store_mid {A} (la lz : list A) l v i : i = zlen la -> js_store (la ++ l :: lz) i v = Ret (la ++ v :: lz).
Proof.
  intros ->. unfold js_store. pose proof (zlen_nonneg la). pose proof (zlen_nonneg lz). rewrite zlen_app, zlen_cons.
  rewrite (proj2 (Z.ltb_ge _ _)), (proj2 (Z.ltb_ge _ _)), (proj2 (Z.eqb_neq _ _)) by lia. cbn [orb]. by rewrite insert_mid.
Qed.

Lemma setLineText_ok m la l lz eol v i :
  Mirror._lines m = la ++ l :: lz -> Mirror._eol m = eol -> starts_ok eol (Mirror._lines m) (Mirror._lineStarts m) ->
  i = zlen la -> zlen la < 2 ^ 31 -> zlen v + zlen eol < 2 ^ 31 ->
  exists m', Mirror._setLineText i v m = Ret m' /\ Mirror._lines m' = la ++ v :: lz /\ Mirror._eol m' = eol /\
    starts_ok eol (Mirror._lines m') (Mirror._lineStarts m').
Proof.
  intros Hl He Hs -> Hla Hv. unfold Mirror._setLineText. rewrite Hl, (store_mid la lz l v) by done. cbn [res_bind].
  eexists. split; [reflexivity |]. cbn. split_and!; [done | done |]. rewrite Hl in Hs. destruct (Mirror._lineStarts m) as [s |]; [| done].
  destruct Hs as [Hw Hval]. pose proof (zlen_nonneg la). pose proof (zlen_nonneg v). pose proof (zlen_nonneg eol). rewrite He.
  destruct (Psc.setValue_spec s (zlen la) (zlen v + zlen eol) Hw ltac:(lia) ltac:(lia)) as (_ & Hw2 & Hval2). split; [done |].
  rewrite Hval2, Hval. unfold Mirror.lengths. rewrite !fmap_app, !fmap_cons.
  replace (zlen la) with (zlen ((fun line => uint32 (zlen line + zlen eol)) <$> la)) by (unfold zlen; by rewrite length_fmap).
  rewrite insert_mid, uint32_id by (unfold in_uint32; lia). done.
Qed.

(** ** One change *)

Section Change.
Context (eol : jsstring) (Heol : eol = [LineFeed] \/ eol = [CarriageReturn; LineFeed]).

Lemma splice_out {A} (la mid lz : list A) l i n : i = zlen la + 1 -> n = zlen mid -> js_splice (la ++ l :: mid ++ lz) i n [] = la ++ l :: lz.
Proof.
  intros -> ->. pose proof (zlen_nonneg la). pose proof (zlen_nonneg mid). pose proof (zlen_nonneg lz). unfold js_splice, js_index.
  rewrite (proj2 (Z.ltb_ge (zlen la + 1) 0)) by lia. rewrite !zlen_app, zlen_cons, !zlen_app. rewrite (Z.min_l (zlen la + 1)) by lia.
  rewrite (Z.max_l (zlen mid)), Z.min_l by lia. replace (la ++ l :: mid ++ lz) with ((la ++ [l]) ++ mid ++ lz) by (by rewrite <- app_assoc).
  assert (zlen (la ++ [l]) = zlen la + 1) as Hz by (by rewrite zlen_app). rewrite ztake_app_l, ztake_all by lia.
  rewrite zdrop_app_r by lia. rewrite zdrop_app_r by lia. replace (_ - zlen mid) with 0 by lia. rewrite zdrop_0. cbn [app]. by rewrite <- app_assoc.
Qed.

Lemma acceptDelete_ok m str range o1 o2 :
  tracks m str eol -> normal eol str -> spans str range o1 o2 -> zlen str + zlen eol < 2 ^ 31 - 2 ->
  exists m', Mirror._acceptDeleteRange range m = Ret m' /\ tracks m' (ztake o1 str ++ zdrop o2 str) eol.
Proof.
  intros Ht Hn Hsp Hlt. pose proof (spans_empty _ _ _ _ Hsp) as Hemp. destruct Hsp as [P1 P2 Hle]. pose proof (pl_bounds _ _ _ _ P1) as B1. pose proof (pl_bounds _ _ _ _ P2) as B2.
  destruct (place_cut _ _ _ _ P1) as (la & x & z1 & lz1 & C1). destruct (place_cut _ _ _ _ P2) as (la2 & x2 & z & lz & C2).
  pose proof (cut_lines _ _ _ _ _ _ _ _ C1) as Hl1. pose proof (cut_lines _ _ _ _ _ _ _ _ C2) as Hl2.
  assert (normal eol (ztake o1 str)) as N1 by (apply normal_take; [done | done | apply P1]).
  assert (split_lines (ztake o1 str ++ zdrop o2 str) = la ++ (x ++ z) :: lz) as Hres.
  { rewrite split_lines_app, (ct_before _ _ _ _ _ _ _ _ C1), (ct_after _ _ _ _ _ _ _ _ C2) by (by eapply normal_seam). apply glue_snoc. }
  destruct (sum_short _ _ _ _ Hl1) as (S1 & S2 & _). destruct (sum_short _ _ _ _ Hl2) as (S3 & S4 & S5). rewrite zlen_app in S2, S4.
  pose proof (zlen_nonneg x). pose proof (zlen_nonneg z). pose proof (zlen_nonneg z1). pose proof (zlen_nonneg x2). pose proof (zlen_nonneg la). pose proof (zlen_nonneg eol).
  assert (zlen (ztake o1 str ++ zdrop o2 str) <= zlen str) as Hshort by (rewrite zlen_app, zlen_ztake, zlen_zdrop by lia; lia).
  destruct (sum_short _ _ _ _ Hres) as (_ & S6 & _).
  destruct Ht as [T1 T2 T3]. unfold Mirror._acceptDeleteRange. rewrite T1.
  pose proof (ct_line _ _ _ _ _ _ _ _ C1) as L1. pose proof (ct_column _ _ _ _ _ _ _ _ C1) as K1.
  pose proof (ct_line _ _ _ _ _ _ _ _ C2) as L2. pose proof (ct_column _ _ _ _ _ _ _ _ C2) as K2.
  destruct (Z.eqb_spec (Range.startLineNumber range) (Range.endLineNumber range)) as [Hsame | Hdiff].
  - assert (zlen la = zlen la2) as Hll by lia. pose proof Hl1 as Hcuts. rewrite Hl2 in Hcuts. symmetry in Hcuts.
    destruct (cuts_same _ _ _ _ _ _ Hcuts Hll) as (<- & Hxz & <-).
    destruct (Z.eqb_spec (Range.startColumn range) (Range.endColumn range)) as [Hcol | Hcol].
    + exists m. split; [done |]. assert (zlen x = zlen x2) as Hx by lia.
      assert (x = x2 /\ z1 = z) as [<- <-] by (apply app_inj_1; [unfold zlen in Hx; lia | done]).
      constructor; [by rewrite T1, Hres | done | done].
    + rewrite Hl1. rewrite (znth_mid la) by lia. cbn [js_get res_bind].
      rewrite K1. replace (1 + zlen x - 1) with (zlen x) by lia. rewrite substring_head, Hxz, substring_tail by lia.
      destruct (setLineText_ok m la (x ++ z1) lz1 eol (x ++ z) (Range.startLineNumber range - 1)) as (m' & Q1 & Q2 & Q3 & Q4);
        [by rewrite T1, Hl1 | done | done | lia | lia | lia |].
      exists m'. split; [done |]. constructor; [by rewrite Q2, Hres | done | done].
  - assert (zlen la < zlen la2) as Hll.
    { pose proof (at_offset_line _ _ _ _ _ _ _ (place_at _ _ _ _ P2) (place_at _ _ _ _ P1)). lia. }
    pose proof Hl1 as Hcuts. rewrite Hl2 in Hcuts. symmetry in Hcuts.
    destruct (cuts_apart _ _ _ _ _ _ Hcuts Hll) as (mid & -> & ->). rewrite zlen_app, zlen_cons in L2, S3, Hll.
    assert (znth (split_lines str) (Range.startLineNumber range - 1) = Some (x ++ z1)) as -> by (rewrite Hl1; apply znth_mid; lia).
    assert (znth (split_lines str) (Range.endLineNumber range - 1) = Some (x2 ++ z)) as ->
      by (rewrite Hl2; apply znth_mid; rewrite zlen_app, zlen_cons; lia). cbn [js_get res_bind].
    rewrite K1. replace (1 + zlen x - 1) with (zlen x) by lia. rewrite substring_head, substring_tail by lia.
    destruct (setLineText_ok m la (x ++ z1) (mid ++ (x2 ++ z) :: lz) eol (x ++ z) (Range.startLineNumber range - 1)) as (m' & Q1 & Q2 & Q3 & Q4);
      [by rewrite T1, Hl1 | done | done | lia | lia | lia |].
    rewrite Q1. cbn [res_bind]. rewrite Q2.
    assert (js_splice (la ++ (x ++ z) :: mid ++ (x2 ++ z) :: lz) (Range.startLineNumber range) (Range.endLineNumber range - Range.startLineNumber range) [] =
      la ++ (x ++ z) :: lz) as ->.
    { replace (mid ++ (x2 ++ z) :: lz) with ((mid ++ [x2 ++ z]) ++ lz) by (by rewrite <- app_assoc).
      apply splice_out; [lia | rewrite zlen_app; change (zlen [x2 ++ z]) with 1; lia]. }
    rewrite Q2 in Q4. destruct (Mirror._lineStarts m') as [s |].
    + destruct Q4 as [W1 W2]. pose proof (zlen_nonneg mid).
      destruct (Psc.removeValues_spec s (Range.startLineNumber range) (Range.endLineNumber range - Range.startLineNumber range) W1) as (s' & -> & W3 & W4);
        [lia | lia |]. cbn [res_bind]. eexists. split; [reflexivity |]. constructor; cbn; [by rewrite Hres | done |]. split; [done |].
      rewrite W4, W2. unfold Psc.spec_remove, Mirror.lengths. rewrite !fmap_app, !fmap_cons, fmap_app, fmap_cons.
      set (f := fun line : jsstring => uint32 (zlen line + zlen eol)).
      assert (forall k : list jsstring, zlen (f <$> k) = zlen k) as Hf by (intros k; unfold zlen; by rewrite length_fmap).
      replace ((f <$> la) ++ f (x ++ z) :: (f <$> mid) ++ f (x2 ++ z) :: (f <$> lz)) with (((f <$> la) ++ [f (x ++ z)]) ++ ((f <$> mid) ++ [f (x2 ++ z)]) ++ (f <$> lz))
        by (by rewrite <- !app_assoc).
      assert (zlen ((f <$> la) ++ [f (x ++ z)]) = zlen la + 1 /\ zlen ((f <$> mid) ++ [f (x2 ++ z)]) = zlen mid + 1) as [E1 E2] by (by rewrite !zlen_app, !Hf).
      rewrite ztake_app_l, ztake_all by lia. rewrite zdrop_app_r by lia. rewrite zdrop_app_r by lia.
      replace (_ - _ - _) with 0 by lia. rewrite zdrop_0. by rewrite <- app_assoc.
    + eexists. split; [reflexivity |]. constructor; cbn; [by rewrite Hres | done | done].
Qed.

Lemma splice_in {A} (p k : list A) x i : i = zlen p -> js_splice (p ++ k) i 0 [x] = (p ++ [x]) ++ k.
Proof.
  intros ->. pose proof (zlen_nonneg p). pose proof (zlen_nonneg k). unfold js_splice, js_index. rewrite (proj2 (Z.ltb_ge (zlen p) 0)) by lia.
  rewrite zlen_app, (Z.min_l (zlen p)), (Z.min_l (Z.max 0 0)) by lia. rewrite Z.add_0_r, ztake_app_l, ztake_all by lia.
  rewrite zdrop_app_r, Z.sub_diag, zdrop_0 by lia. by rewrite <- app_assoc.
Qed.

Lemma insertAll_ok ins : forall p k i, i = zlen p -> Mirror.insertAll (p ++ k) i ins = p ++ ins ++ k.
Proof.
  induction ins as [| x ins IH]; intros p k i Hi; cbn [Mirror.insertAll]; [done |].
  rewrite splice_in, IH by (done || rewrite zlen_app; by subst). by rewrite <- app_assoc.
Qed.

(** The lengths of the lines, with new ones after the first. *)
Lemma lengths_insert la l ins lz i : i = zlen la + 1 ->
  Psc.spec_insert (Mirror.lengths eol (la ++ l :: lz)) i (Mirror.lengths eol ins) = Mirror.lengths eol (la ++ l :: ins ++ lz).
Proof.
  intros ->. unfold Psc.spec_insert, Mirror.lengths. rewrite !fmap_app, !fmap_cons, fmap_app.
  set (f := fun line : jsstring => uint32 (zlen line + zlen eol)).
  assert (zlen ((f <$> la) ++ [f l]) = zlen la + 1) as Hz by (rewrite zlen_app; unfold zlen; by rewrite length_fmap).
  replace ((f <$> la) ++ f l :: (f <$> lz)) with (((f <$> la) ++ [f l]) ++ (f <$> lz)) by (by rewrite <- app_assoc).
  rewrite ztake_app_l, ztake_all by lia. rewrite zdrop_app_r, Hz, Z.sub_diag, zdrop_0 by lia. by rewrite <- app_assoc.
Qed.

Lemma acceptInsert_ok m str n c o t :
  tracks m str eol -> normal eol str -> normal eol t -> place str n c o -> zlen str + zlen t + zlen eol < 2 ^ 31 - 2 ->
  exists m', Mirror._acceptInsertText (Position.new n c) t m = Ret m' /\ tracks m' (ztake o str ++ t ++ zdrop o str) eol.
Proof.
  intros Ht Hn Hnt P Hlt. unfold Mirror._acceptInsertText. destruct (Z.eqb_spec (zlen t) 0) as [Hz | Hz].
  { apply zlen_0 in Hz as ->. cbn [app]. rewrite ztake_zdrop. by exists m. }
  destruct (place_cut _ _ _ _ P) as (la & x & z & lz & C). pose proof (cut_lines _ _ _ _ _ _ _ _ C) as Hl.
  assert (normal eol (ztake o str)) as N1 by (apply normal_take; [done | done | apply P]).
  assert (split_lines (ztake o str ++ t ++ zdrop o str) = glue (la ++ [x]) (glue (split_lines t) (z :: lz))) as Hres.
  { rewrite split_lines_app, split_lines_app, (ct_before _ _ _ _ _ _ _ _ C), (ct_after _ _ _ _ _ _ _ _ C) by (by eapply normal_seam). done. }
  assert (zlen (ztake o str ++ t ++ zdrop o str) = zlen str + zlen t) as Hlen.
  { rewrite !zlen_app. rewrite <- (ztake_zdrop o str) at 3. rewrite zlen_app. lia. }
  pose proof (ct_line _ _ _ _ _ _ _ _ C) as L. pose proof (ct_column _ _ _ _ _ _ _ _ C) as K. destruct (sum_short _ _ _ _ Hl) as (S1 & _ & S3).
  pose proof (zlen_nonneg x). pose proof (zlen_nonneg la). pose proof (zlen_nonneg eol). pose proof (zlen_nonneg t). pose proof (zlen_nonneg lz).
  cbn [Position.lineNumber Position.column]. destruct Ht as [T1 T2 T3]. rewrite T1.
  assert (znth (split_lines str) (n - 1) = Some (x ++ z)) as -> by (rewrite Hl; apply znth_mid; lia). cbn [js_get res_bind].
  rewrite K. replace (1 + zlen x - 1) with (zlen x) by lia. rewrite substring_head, substring_tail by done.
  destruct (split_lines_last t) as (ta & e & Hta & _). rewrite Hta in Hres |- *. destruct ta as [| h ta].
  - cbn [app glue] in Hres |- *. rewrite glue_snoc in Hres. destruct (sum_short _ _ _ _ Hres) as (_ & S4 & _).
    destruct (setLineText_ok m la (x ++ z) lz eol (x ++ e ++ z) (n - 1)) as (m' & Q1 & Q2 & Q3 & Q4); [by rewrite T1, Hl | done | done | lia | lia | lia |].
    exists m'. split; [done |]. constructor; [by rewrite Q2, Hres | done | done].
  - rewrite glue_snoc in Hres. cbn [app] in Hres. rewrite glue_snoc in Hres. destruct (sum_short _ _ _ _ Hres) as (_ & S4 & S5).
    set (ins := ta ++ [e ++ z]). pose proof (lines_short (ztake o str ++ t ++ zdrop o str)) as Hsh. rewrite Hres in Hsh.
    replace (ta ++ (e ++ z) :: lz) with (ins ++ lz) in * by (unfold ins; by rewrite <- app_assoc).
    apply Forall_app in Hsh as [_ [_ [Hsh _]%Forall_app]%Forall_cons]. rewrite zlen_app in S5.
    destruct (lengths_id eol _ ins Hsh ltac:(lia)) as [_ Hu].
    assert (removelast ((h :: ta) ++ [e]) ++ [default [] (last ((h :: ta) ++ [e])) ++ z] = h :: ins) as Hins by (by rewrite removelast_last, last_snoc).
    rewrite Hins. cbn [app hd tail]. destruct (ta ++ [e]) eqn:Hne; [by destruct ta |]. clear Hne.
    destruct (setLineText_ok m la (x ++ z) lz eol (x ++ h) (n - 1)) as (m' & Q1 & Q2 & Q3 & Q4); [by rewrite T1, Hl | done | done | lia | lia | lia |].
    rewrite Q1. cbn [res_bind]. rewrite Q2, Q3.
    assert (Mirror.insertAll (la ++ (x ++ h) :: lz) n ins = la ++ (x ++ h) :: ins ++ lz) as ->.
    { replace (la ++ (x ++ h) :: lz) with ((la ++ [x ++ h]) ++ lz) by (by rewrite <- app_assoc).
      rewrite insertAll_ok by (rewrite zlen_app; change (zlen [x ++ h]) with 1; lia). by rewrite <- app_assoc. }
    rewrite Q2 in Q4. destruct (Mirror._lineStarts m') as [s |].
    + destruct Q4 as [W1 W2].
      assert (zlen (Psc.values s) = zlen la + 1 + zlen lz) as Hvs by (rewrite W2; unfold Mirror.lengths, zlen; rewrite length_fmap, length_app; cbn; lia).
      assert (zlen (Mirror.lengths eol ins) = zlen ins) as Hli by (unfold Mirror.lengths, zlen; by rewrite length_fmap).
      assert (1 <= zlen ins) as Hpos by (unfold ins; rewrite zlen_app; change (zlen [e ++ z]) with 1; pose proof (zlen_nonneg ta); lia).
      destruct (Psc.insertValues_spec s n (Mirror.lengths eol ins) W1 Hu) as (s' & -> & W3 & W4);
        [intros He; rewrite He in Hli; change (0 = zlen ins) in Hli; lia | lia | lia |].
      cbn [res_bind]. eexists. split; [reflexivity |]. constructor; cbn; [by rewrite Hres | done |]. split; [done |].
      rewrite W4, W2. apply lengths_insert. lia.
    + eexists. split; [reflexivity |]. constructor; cbn; [by rewrite Hres | done | done].
Qed.

(** One change: the range is deleted, then the text inserted at its start. *)
Lemma acceptChange_ok m str range o1 o2 t :
  tracks m str eol -> normal eol str -> spans str range o1 o2 -> normal eol t -> zlen str + zlen t + zlen eol < 2 ^ 31 - 2 ->
  exists m1 m', Mirror._acceptDeleteRange range m = Ret m1 /\
    Mirror._acceptInsertText (Position.new (Range.startLineNumber range) (Range.startColumn range)) t m1 = Ret m' /\
    tracks m' (ztake o1 str ++ t ++ zdrop o2 str) eol /\ normal eol (ztake o1 str ++ t ++ zdrop o2 str).
Proof.
  intros Ht Hn Hs Hnt Hlt. pose proof (zlen_nonneg t). destruct (acceptDelete_ok m str range o1 o2 Ht Hn Hs ltac:(lia)) as (m1 & H1 & H2).
  destruct Hs as [P1 P2 Hle]. pose proof (pl_bounds _ _ _ _ P1) as B1. pose proof (pl_bounds _ _ _ _ P2) as B2.
  destruct (normal_take _ _ _ Heol Hn (pl_seam _ _ _ _ P1)) as [N1 _]. destruct (normal_take _ _ _ Heol Hn (pl_seam _ _ _ _ P2)) as [_ N2].
  assert (zlen (ztake o1 str) = o1) as Hz by (apply zlen_ztake; lia). set (mid := ztake o1 str ++ zdrop o2 str) in *.
  assert (ztake o1 mid = ztake o1 str /\ zdrop o1 mid = zdrop o2 str) as [E1 E2].
  { unfold mid. split; [by rewrite ztake_app_l, ztake_all by lia | by rewrite zdrop_app_r, Hz, Z.sub_diag, zdrop_0 by lia]. }
  destruct (acceptInsert_ok m1 mid (Range.startLineNumber range) (Range.startColumn range) o1 t) as (m' & H3 & H4); [done | | done | | |].
  - apply normal_together; [by eapply normal_seam | done | done].
  - apply place_front; [done | lia | by eapply normal_seam].
  - unfold mid. rewrite zlen_app, Hz, zlen_zdrop by lia. lia.
  - rewrite E1, E2 in H4. exists m1, m'. split_and!; [done | done | done |].
    apply normal_together; [by eapply normal_seam | done |]. apply normal_together; [by eapply normal_seam | done | done].
Qed.

Lemma acceptChanges_ok cs : forall m str,
  tracks m str eol -> normal eol str -> follow eol str cs -> zlen str + added cs + zlen eol < 2 ^ 31 - 2 ->
  exists m', Mirror.acceptChanges cs m = Ret m' /\ tracks m' (foldl splice str cs) eol.
Proof.
  induction cs as [| c cs IH]; intros m str Ht Hn Hf Hlt; cbn [Mirror.acceptChanges foldl]; [by exists m |].
  destruct Hf as (Hs & Hnt & Hf). set (t := IInternalModelContentChange.text c) in *.
  rewrite added_cons in Hlt. fold t in Hlt. pose proof (added_nonneg cs). destruct (acceptChange_ok m str _ _ _ t Ht Hn Hs Hnt ltac:(lia)) as (m1 & m2 & -> & H2 & H3 & H4). cbn [res_bind].
  fold t. rewrite H2. cbn [res_bind]. apply IH; [done | done | done |].
  destruct Hs as [P1 P2 Hle]. pose proof (pl_bounds _ _ _ _ P1). pose proof (pl_bounds _ _ _ _ P2). unfold splice. fold t.
  rewrite !zlen_app, zlen_ztake, zlen_zdrop by lia. lia.
Qed.

(** The mirror with the line end of an event. *)
Lemma switch_ok m str eol0 : tracks m str eol0 ->
  tracks (if bool_decide (eol <> []) && bool_decide (eol <> Mirror._eol m) then
      Mirror.mk (Mirror._lines m) eol (Mirror._versionId m) None (Mirror._cachedTextValue m) else m) (replace_eol eol str) eol.
Proof.
  intros [T1 T2 T3]. rewrite bool_decide_eq_true_2 by (by destruct Heol as [-> | ->]). cbn [andb]. destruct (bool_decide_reflect (eol <> Mirror._eol m)) as [Hne | He].
  - constructor; cbn; [by rewrite (split_lines_replace _ _ Heol) | done | done].
  - apply dec_stable in He. rewrite T2 in He. constructor; [by rewrite (split_lines_replace _ _ Heol) | congruence | by rewrite He].
Qed.

Lemma onEvents_ok m str eol0 cs v :
  tracks m str eol0 -> follow eol (replace_eol eol str) cs -> zlen (replace_eol eol str) + added cs + zlen eol < 2 ^ 31 - 2 ->
  exists m', Mirror.onEvents (Mirror.mkEvent cs eol v) m = Ret m' /\ tracks m' (foldl splice (replace_eol eol str) cs) eol /\
    Mirror._versionId m' = v /\ Mirror._cachedTextValue m' = None.
Proof.
  intros Ht Hf Hlt. unfold Mirror.onEvents. cbn [Mirror.eol Mirror.changes Mirror.versionId].
  destruct (acceptChanges_ok cs _ _ (switch_ok m str eol0 Ht) ltac:(by apply replace_eol_idem) Hf Hlt) as (m' & -> & [T1 T2 T3]). cbn [res_bind].
  eexists. split; [reflexivity |]. split; [by constructor | done].
Qed.

(** An event that replaces the whole text, as for a new value or another line end. *)
Lemma onFlush_ok m str eol0 c v :
  tracks m str eol0 -> normal eol (IInternalModelContentChange.text c) ->
  spans (replace_eol eol str) (IInternalModelContentChange.range c) 0 (zlen (replace_eol eol str)) ->
  zlen (replace_eol eol str) + zlen (IInternalModelContentChange.text c) + zlen eol < 2 ^ 31 - 2 ->
  exists m', Mirror.onEvents (Mirror.mkEvent [c] eol v) m = Ret m' /\ tracks m' (IInternalModelContentChange.text c) eol /\
    Mirror._versionId m' = v /\ Mirror._cachedTextValue m' = None.
Proof.
  intros Ht Hn Hs Hlt. unfold Mirror.onEvents. cbn [Mirror.eol Mirror.changes Mirror.versionId Mirror.acceptChanges].
  destruct (acceptChange_ok _ _ _ _ _ _ (switch_ok m str eol0 Ht) ltac:(by apply replace_eol_idem) Hs Hn Hlt) as (m1 & m' & -> & H2 & [T1 T2 T3] & _).
  cbn [res_bind]. rewrite H2. cbn [res_bind]. rewrite zdrop_all, app_nil_r in T1 by lia. change (ztake 0 _) with (@nil Z) in T1.
  eexists. split; [reflexivity |]. split; [by constructor | done].
Qed.
End Change.

Lemma tracks_new str eol v : tracks (Mirror.new (split_lines str) eol v) str eol.
Proof. by constructor. Qed.

(** ** A text model and its mirror *)

(** The mirror gets the events in turn. *)
Fixpoint feed (es : list InternalModelContentChangeEvent.t) (w : Mirror.t) : res Mirror.t :=
  match es with
  | [] => Ret w
  | e :: es =>
      let c := InternalModelContentChangeEvent.contentChangedEvent e in
      let* w := Mirror.onEvents (Mirror.mkEvent (IModelContentChangedEvent.changes c) (IModelContentChangedEvent.eol c) (IModelContentChangedEvent.versionId c)) w in
      feed es w
  end.

(** The mirror shows the text: its lines and prefix sums are right, and the text it
    may have cached. *)
Record shows (w : Mirror.t) (str eol : jsstring) : Prop := mkshows {
  sh_tracks : tracks w str eol;
  sh_cached : forall text, Mirror._cachedTextValue w = Some text -> text = str
}.

Section Sync.
Context {D : Type} {DT : Decorations D}.
Implicit Type m : TextModel.t D.

(** There is room for a batch in the change buffer, and for the texts in between. *)
Definition room (d : Doc.t) (rs : list replacement) : Prop :=
  Doc.used d + zlen (Doc.content d) + needed rs + 8 < limit /\ 2 * (zlen (Doc.content d) + needed rs + 8) < limit.

(** A text model with a mirror that got its events: the mirror starts with the lines of
    the text model; then batches of edits that do not overlap, other line ends and other
    values, with reads of the mirror in between. *)
Inductive mirrored : TextModel.t D -> Doc.t -> Mirror.t -> Prop :=
  | mirrored_new m d : models m d -> idle m -> __isDisposing m = false ->
      mirrored m d (Mirror.new (split_lines (Doc.content d)) (Doc.eol d) (_versionId m))
  | mirrored_edits m d w rops compute rs reverse m' d' es w' :
      mirrored m d w -> Forall (acceptable d) rops -> Forall2 (requests d) rops rs -> apart rs -> room d rs ->
      applyEdits rops compute m = Ret (reverse, m') -> edited_to d rs m m' d' compute reverse ->
      Emitter.fired (_eventEmitter m') = Emitter.fired (_eventEmitter m) ++ es -> feed es w = Ret w' -> mirrored m' d' w'
  | mirrored_eol m d w eol m' es w' :
      mirrored m d w -> 2 * zlen (replace_eol (eol_text eol) (Doc.content d)) + 4 < limit ->
      Doc.eol d <> eol_text eol -> setEOL eol m = Ret (tt, m') ->
      Emitter.fired (_eventEmitter m') = Emitter.fired (_eventEmitter m) ++ es -> feed es w = Ret w' ->
      mirrored m' (with_eol_of (eol_text eol) d) w'
  | mirrored_value m d w tb d' m' es w' :
      mirrored m d w -> serves tb d' -> zlen (replace_eol (Doc.eol d') (Doc.content d)) + zlen (Doc.content d') + 4 < limit ->
      _setValueFromTextBuffer tb m = Ret (tt, m') ->
      Emitter.fired (_eventEmitter m') = Emitter.fired (_eventEmitter m) ++ es -> feed es w = Ret w' -> mirrored m' d' w'
  | mirrored_text m d w : mirrored m d w -> mirrored m d (snd (Mirror.getText w))
  | mirrored_starts m d w : mirrored m d w -> breaks (Doc.content d) < limit -> mirrored m d (Mirror._ensureLineStarts w).

Record synced m (d : Doc.t) (w : Mirror.t) : Prop := mksynced {
  sy_models : models m d;
  sy_idle : idle m;
  sy_alive : __isDisposing m = false;
  sy_shows : shows w (Doc.content d) (Doc.eol d);
  sy_version : Mirror._versionId w = _versionId m
}.

Lemma eol_short eol : eol = [LineFeed] \/ eol = [CarriageReturn; LineFeed] -> 0 < zlen eol <= 2.
Proof. by intros [-> | ->]. Qed.

Lemma edits_synced m d w m' d' rs compute reverse :
  synced m d w -> room d rs -> edited_to d rs m m' d' compute reverse ->
  exists es w', Emitter.fired (_eventEmitter m') = Emitter.fired (_eventEmitter m) ++ es /\ feed es w = Ret w' /\ synced m' d' w'.
Proof.
  intros [S1 S2 S3 S4 S5] [Hr1 Hr2] [E1 E2 E3 E4 (F1 & F2 & _) E6 E7]. pose proof (md_serves _ _ S1) as Hb.
  assert (__isDisposing m' = false) as Hdis by congruence. destruct E7 as [(T1 & T2 & T3 & T4) | (T1 & T2 & e & T3 & T4 & T5)].
  - exists [], w. rewrite T4, idle_ending, app_nil_r by done. split_and!; [done | done |].
    constructor; [done | unfold idle; by rewrite T4, idle_ending | done | by rewrite T1, E3 | congruence].
  - rewrite idle_ending_with in T5 by done. exists [Emitter.with_selection None e]. rewrite T5. cbn [Emitter.fired feed]. cbn [Emitter.with_selection InternalModelContentChangeEvent.contentChangedEvent].
    set (c := InternalModelContentChangeEvent.contentChangedEvent e) in *. destruct T3 as [_ L2 L3 L4 L5]. fold c in L2, L3, L4, L5.
    pose proof (serves_normal _ _ Hb) as Hn. pose proof (eol_short _ (serves_eol _ _ Hb)). unfold limit in *. pose proof (needed_nonneg rs).
    destruct (onEvents_ok (Doc.eol d) (serves_eol _ _ Hb) w (Doc.content d) (Doc.eol d) (IModelContentChangedEvent.changes c) (IModelContentChangedEvent.versionId c))
      as (w' & W1 & W2 & W3 & W4); [apply S4 | by rewrite Hn | rewrite Hn; lia |].
    exists w'. rewrite L4, E3, W1. cbn [res_bind]. split_and!; [done | done |]. rewrite Hn, L2 in W2.
    constructor; [done | unfold idle; by rewrite T5 | done | | congruence]. rewrite E3. constructor; [done | by rewrite W4].
Qed.

Lemma all_synced m d w m' d' raw isFlush isEolChange e :
  synced m d w -> models m' d' -> __isDisposing m' = false -> zlen (replace_eol (Doc.eol d') (Doc.content d)) + zlen (Doc.content d') + 4 < limit ->
  tells_all d d' raw (_versionId m + 1) isFlush isEolChange e -> _versionId m' = _versionId m + 1 -> _eventEmitter m' = Emitter.fire e (_eventEmitter m) ->
  exists es w', Emitter.fired (_eventEmitter m') = Emitter.fired (_eventEmitter m) ++ es /\ feed es w = Ret w' /\ synced m' d' w'.
Proof.
  intros [S1 S2 S3 S4 S5] Hm' Hdis Hlt [_ Hc] Hv Hem. rewrite idle_fire in Hem by done. exists [e]. rewrite Hem. cbn [feed Emitter.fired]. rewrite Hc.
  cbn [IModelContentChangedEvent.changes IModelContentChangedEvent.eol IModelContentChangedEvent.versionId]. set (c := IInternalModelContentChange.mk _ _ _ _ _).
  pose proof (serves_eol _ _ (md_serves _ _ Hm')) as Heol. pose proof (eol_short _ Heol).
  destruct (onFlush_ok (Doc.eol d') Heol w (Doc.content d) (Doc.eol d) c (_versionId m + 1)) as (w' & W1 & W2 & W3 & W4); [apply S4 | | | unfold limit in Hlt; cbn; lia |].
  - cbn. by eapply serves_normal, Hm'.
  - cbn. assert (full_range d = full_range (Doc.mk (replace_eol (Doc.eol d') (Doc.content d)) (Doc.eol d') true 0)) as ->.
    { unfold full_range. cbn. destruct (replace_eol_idem _ Heol (Doc.content d)) as [_ ->]. do 2 f_equal.
      destruct (split_lines_ok (Doc.content d)) as [_ H1]. destruct (split_lines_ok (replace_eol (Doc.eol d') (Doc.content d))) as [_ H2].
      rewrite (split_lines_replace _ _ Heol) in H2. destruct (replace_eol_idem _ Heol (Doc.content d)) as [_ Hbr]. rewrite Hbr in H2. pose proof (breaks_nonneg (Doc.content d)).
      specialize (H1 (1 + breaks (Doc.content d)) ltac:(lia)). specialize (H2 (1 + breaks (Doc.content d)) ltac:(lia)). congruence. }
    apply (full_spans (Doc.mk (replace_eol (Doc.eol d') (Doc.content d)) (Doc.eol d') true 0)).
  - exists w'. rewrite W1. cbn [res_bind]. split_and!; [done | done |]. constructor; [done | unfold idle; by rewrite Hem | done | | congruence].
    constructor; [exact W2 | by rewrite W4].
Qed.

Lemma read_synced m d w : synced m d w ->
  synced m d (snd (Mirror.getText w)) /\ fst (Mirror.getText w) = Doc.content d /\
  (breaks (Doc.content d) < limit -> synced m d (Mirror._ensureLineStarts w)).
Proof.
  intros [S1 S2 S3 [[T1 T2 T3] S4] S5]. pose proof (serves_normal _ _ (md_serves _ _ S1)) as Hn.
  assert (js_join (Mirror._eol w) (Mirror._lines w) = Doc.content d) as Hj by (by rewrite T1, T2, join_split).
  split_and!.
  - constructor; [done | done | done | | by rewrite <- S5; unfold Mirror.getText; destruct (Mirror._cachedTextValue w)].
    unfold Mirror.getText. destruct (Mirror._cachedTextValue w) as [text |] eqn:Hc; cbn [snd].
    + constructor; [by constructor | by rewrite Hc].
    + constructor; [by constructor |]. cbn. intros text [= <-]. done.
  - unfold Mirror.getText. destruct (Mirror._cachedTextValue w) as [text |]; cbn [fst]; [by apply S4 | done].
  - intros Hlt. constructor; [done | done | done | | by rewrite <- S5; unfold Mirror._ensureLineStarts; destruct (Mirror._lineStarts w)].
    unfold Mirror._ensureLineStarts. destruct (Mirror._lineStarts w) as [starts |] eqn:Hs; [constructor; [constructor; [done | done | by rewrite Hs] | done] |].
    constructor; [| done]. constructor; cbn; [done | done |]. rewrite T2. split; [| done].
    apply Psc.psc_new_wf.
    + unfold Mirror.lengths. apply Forall_fmap, Forall_forall. intros l _. apply uint32_range.
    + unfold Mirror.lengths. rewrite T1. destruct (split_lines_ok (Doc.content d)) as [Hz _]. unfold limit in Hlt. assert (forall (f : jsstring -> Z) k, zlen (f <$> k) = zlen k) as Hlen by (intros; unfold zlen; by rewrite length_fmap).
      rewrite Hlen, Hz. lia.
Qed.

Lemma mirrored_synced m d w : mirrored m d w -> synced m d w.
Proof.
  induction 1 as [m d Hm Hi Ha | m d w rops compute rs reverse m' d' es w' _ IH _ _ _ Hr _ He Hf Hw | m d w eol m' es w' _ IH Hlt Hne Hrun Hf Hw
    | m d w tb d' m' es w' _ IH Htb Hlt Hrun Hf Hw | m d w _ IH | m d w _ IH Hlt].
  - constructor; [done | done | done | | done]. constructor; [apply tracks_new | done].
  - destruct (edits_synced m d w m' d' rs compute reverse IH Hr He) as (es0 & w0 & E1 & E2 & E3). rewrite E1 in Hf. apply app_inv_head in Hf as <-. congruence.
  - pose proof (zlen_nonneg (replace_eol (eol_text eol) (Doc.content d))). pose proof (setEOL_model m d eol (sy_models _ _ _ IH) (sy_alive _ _ _ IH) ltac:(lia)) as Hs.
    rewrite bool_decide_eq_false_2 in Hs by done. destruct Hs as (m1 & e & R1 & R2 & (_ & R3 & _) & R4 & _ & _ & R5 & R6). rewrite Hrun in R1. injection R1 as <-.
    destruct (all_synced m d w m' _ ModelRawEOLChanged false true e IH R2) as (es0 & w0 & E1 & E2 & E3); [rewrite R3; apply IH | cbn; lia | exact R5 | done | done |].
    rewrite E1 in Hf. apply app_inv_head in Hf as <-. congruence.
  - destruct (setValue_model m d tb d' (sy_models _ _ _ IH) (sy_alive _ _ _ IH) Htb) as (m1 & e & R1 & R2 & (_ & R3 & _) & R4 & _ & _ & R5 & R6).
    rewrite Hrun in R1. injection R1 as <-.
    destruct (all_synced m d w m' _ ModelRawFlush true false e IH R2) as (es0 & w0 & E1 & E2 & E3); [rewrite R3; apply IH | done | exact R5 | done | done |].
    rewrite E1 in Hf. apply app_inv_head in Hf as <-. congruence.
  - apply read_synced, IH.
  - by apply read_synced.
Qed.
End Sync.

(** ** The theorem *)

(** C3: mirrors stay in sync.  Let a mirror start with the lines of a text model and get
    the content events the text model fires, while the text model takes batches of edits
    that do not overlap, other line ends and other values, and the mirror is read in
    between.  Then at any time the mirror's text is the value of the text model, its
    lines are the lines of the text, its version is the text model's; its prefix sums
    are in order and over the lengths of the lines with their line ends; and the next
    batch of edits runs without an exception in both, after which they are in sync
    again. *)
Theorem mirrors_in_sync {D} {DT : Decorations D} (m : TextModel.t D) d w :
  mirrored m d w -> let str := Doc.content d in
  fst (Mirror.getText w) = str /\ getValue TextDefined false m = Ret (str, m) /\ Mirror._lines w = split_lines str /\
  Mirror._versionId w = _versionId m /\
  (breaks str < limit -> exists starts, Mirror._lineStarts (Mirror._ensureLineStarts w) = Some starts /\ Psc.wf starts /\
     Psc.values starts = Mirror.lengths (Doc.eol d) (split_lines str)) /\
  (forall rops compute, Forall (acceptable d) rops -> exists rs, Forall2 (requests d) rops rs /\
     (apart rs -> room d rs -> exists reverse m' d' es w',
        applyEdits rops compute m = Ret (reverse, m') /\ Doc.content d' = patch 0 (js_sort by_end rs) str /\
        Emitter.fired (_eventEmitter m') = Emitter.fired (_eventEmitter m) ++ es /\ feed es w = Ret w' /\ mirrored m' d' w')).
Proof.
  intros Hmw str. pose proof (mirrored_synced m d w Hmw) as Hs. destruct (read_synced m d w Hs) as (_ & Hread & Hens). pose proof Hs as [S1 S2 S3 S4 S5].
  split_and!; [done | by apply getValue_run | apply S4 | done | |].
  - intros Hlt. destruct (Hens Hlt) as [_ _ _ [[T1 _ T3] _] _]. rewrite T1 in T3. unfold Mirror._ensureLineStarts in *.
    destruct (Mirror._lineStarts w) as [starts |] eqn:Hst; [rewrite Hst in *; by exists starts |]. cbn in *. by eexists.
  - intros rops compute Hacc. destruct (applyEdits_model m d rops compute S1 S3 Hacc) as (rs & R1 & R2 & _). exists rs. split; [done |].
    intros Hap Hroom. destruct (R2 Hap (proj1 Hroom)) as (reverse & m' & d' & H1 & H2).
    destruct (edits_synced m d w m' d' rs compute reverse Hs Hroom H2) as (es & w' & E1 & E2 & _).
    exists reverse, m', d', es, w'. split_and!; [done | apply H2 | done | done |]. by eapply mirrored_edits.
Qed.

Lemma mirrors_in_sync_witness :
  let w := Mirror.new (split_lines (Doc.content paired_doc)) (Doc.eol paired_doc) 1 in
  fst (Mirror.getText w) = Doc.content paired_doc /\
  exists rs, Forall2 (requests paired_doc) [Raw false (ValidAnnotatedEditOperation.mk None (Range.mk 1 2 9 9) (Some [120; 10]) false false false)] rs.
Proof.
  assert (mirrored paired_model paired_doc (Mirror.new (split_lines (Doc.content paired_doc)) (Doc.eol paired_doc) 1)) as H
    by (apply mirrored_new; [exact paired_models | reflexivity | reflexivity]).
  destruct (mirrors_in_sync _ _ _ H) as (H1 & _ & _ & _ & _ & H2). split; [exact H1 |].
  destruct (H2 [Raw false (ValidAnnotatedEditOperation.mk None (Range.mk 1 2 9 9) (Some [120; 10]) false false false)] true) as (rs & H3 & _).
  - constructor; [discriminate | constructor].
  - exists rs. exact H3.
Defined.

(** The same run: the pair and the rest are replaced, and the mirror follows. *)
Example mirror_follows :
  let w := Mirror._ensureLineStarts (Mirror.new (split_lines (Doc.content paired_doc)) (Doc.eol paired_doc) 1) in
  match applyEdits [Raw false (ValidAnnotatedEditOperation.mk None (Range.mk 1 3 9 9) (Some [120; 10]) false false false)] false paired_model with
  | Ret (_, m) => match feed (Emitter.fired (_eventEmitter m)) w with
                  | Ret w => Mirror._lines w = [[97; 120]; []] /\ Mirror._versionId w = 2
                  | Throw _ => False
                  end
  | Throw _ => False
  end.
Proof. by vm_compute. Qed.
