(* ===== verification/Diff.v ===== *)
(** * Diff algorithms

    [src/src/vs/editor/common/diff/algorithms]: the differences of two sequences
    ([diffAlgorithm.ts]), the table-driven algorithm ([dynamicProgrammingDiffing.ts]), the
    algorithm of Myers ([myersDiffAlgorithm.ts]), and the functions that join and shift
    differences ([joinSequenceDiffs.ts]). *)

From stdpp Require Import gmap.
From S2P Require Import Prelude Intervals OffsetRange.

(** ** Differences and sequences *)

Module SequenceDiff.
Record t : Type := mk { seq1Range : OffsetRange.t; seq2Range : OffsetRange.t }.

#[global] Instance t_eq_dec : EqDecision t.
Proof. solve_decision. Defined.

Definition reverse (this : t) : t := mk (seq2Range this) (seq1Range this).

Definition join (this other : t) : res t :=
  let* r1 := OffsetRange.join (seq1Range this) (seq1Range other) in
  let* r2 := OffsetRange.join (seq2Range this) (seq2Range other) in
  Ret (mk r1 r2).

Definition delta (this : t) (offset : Z) : res t :=
  if offset === 0 then Ret this
  else
    let* r1 := OffsetRange.delta (seq1Range this) offset in
    let* r2 := OffsetRange.delta (seq2Range this) offset in
    Ret (mk r1 r2).

(** [new SequenceDiff(new OffsetRange(a, b), new OffsetRange(c, d))] *)
Definition ofOffsets (a b c d : Z) : res t :=
  let* r1 := OffsetRange.new a b in
  let* r2 := OffsetRange.new c d in
  Ret (mk r1 r2).

(** The four offsets, and whether one of the two ranges is empty. *)
Definition start1 (d : t) : Z := OffsetRange.start (seq1Range d).
Definition end1 (d : t) : Z := OffsetRange.endExclusive (seq1Range d).
Definition start2 (d : t) : Z := OffsetRange.start (seq2Range d).
Definition end2 (d : t) : Z := OffsetRange.endExclusive (seq2Range d).
Definition oneSided (d : t) : bool := OffsetRange.isEmpty (seq1Range d) || OffsetRange.isEmpty (seq2Range d).
End SequenceDiff.
Export SequenceDiff (start1, end1, start2, end2, oneSided).

(** [ISequence]: both classes that implement it read [getElement] from an array of
    numbers; [getBoundaryScore] is optional. *)
Module ISequence.
Record t : Type := mk {
  elements : list Z;
  getBoundaryScore : option (Z -> Z);
  isStronglyEqual : Z -> Z -> bool
}.

Definition length (this : t) : Z := zlen (elements this).

(** [None] is [undefined] *)
Definition getElement (this : t) (offset : Z) : option Z := znth (elements this) offset.

(** [this.getElement(o) === that.getElement(o')] *)
Definition sameElement (this : t) (o : Z) (that : t) (o' : Z) : bool := bool_decide (getElement this o = getElement that o').
End ISequence.

(** [ITimeout]: the answer of the n-th call of [isValid] *)
Definition ITimeout : Type := nat -> bool.
Definition InfiniteTimeout : ITimeout := fun _ => true.

Module DiffAlgorithmResult.
Record t : Type := mk { diffs : list SequenceDiff.t; hitTimeout : bool }.

Definition whole (seq1 seq2 : ISequence.t) (hitTimeout : bool) : res t :=
  let* d := SequenceDiff.ofOffsets 0 (ISequence.length seq1) 0 (ISequence.length seq2) in
  Ret (mk [d] hitTimeout).

Definition trivial (seq1 seq2 : ISequence.t) : res t := whole seq1 seq2 false.
Definition trivialTimedOut (seq1 seq2 : ISequence.t) : res t := whole seq1 seq2 true.
End DiffAlgorithmResult.

(** ** Dynamic programming *)

(** A number read from an array; the model stops where it would be [undefined]. *)
Definition js_num {A} (o : option A) : res A := match o with Some a => Ret a | None => Throw NotANumber end.

Module Array2D.
Record t (A : Type) : Type := mk { width : Z; height : Z; array : list (option A) }.
Arguments mk {A}.
Arguments width {A}.
Arguments height {A}.
Arguments array {A}.

Definition new {A} (width height : Z) : t A := mk width height (replicate (Z.to_nat (width * height)) None).

(** [None] is [undefined] *)
Definition get {A} (this : t A) (x y : Z) : option A := mjoin (znth (array this) (x + y * width this)).

(** The model stops at a store outside of the array. *)
Definition set {A} (this : t A) (x y : Z) (value : A) : res (t A) :=
  let i := x + y * width this in
  if (0 <=? i) && (i <? zlen (array this)) then
    Ret (mk (width this) (height this) (<[Z.to_nat i := Some value]> (array this)))
  else Throw SparseArray.
End Array2D.

(** The numbers of the scores: the callers pass fractional ones, so the algorithm is
    written over any type that has the operations the code uses. *)
Class Score (S : Type) := {
  num : Z -> S;
  add : S -> S -> S;
  max : S -> S -> S;
  eqb : S -> S -> bool
}.

#[global] Instance Z_Score : Score Z := {| num := id; add := Z.add; max := Z.max; eqb := Z.eqb |}.

Module DynamicProgrammingDiffing.
Section Compute.
Context {S : Type} `{!Score S}.
Variables (sequence1 sequence2 : ISequence.t) (timeout : ITimeout) (equalityScore : option (Z -> Z -> S)).

Record tables := mkTables { lcsLengths : Array2D.t S; directions : Array2D.t Z; lengths : Array2D.t Z }.

(** one cell *)
Definition cell (s1 s2 : Z) (t : tables) : res tables :=
  let* horizontalLen := (if s1 === 0 then Ret (num 0) else js_num (Array2D.get (lcsLengths t) (s1 - 1) s2)) in
  let* verticalLen := (if s2 === 0 then Ret (num 0) else js_num (Array2D.get (lcsLengths t) s1 (s2 - 1))) in
  let* extendedSeqScore :=
    (if ISequence.sameElement sequence1 s1 sequence2 s2 then
       let* diagonal := (if (s1 === 0) || (s2 === 0) then Ret (num 0) else js_num (Array2D.get (lcsLengths t) (s1 - 1) (s2 - 1))) in
       let* bonus :=
         (if (0 <? s1) && (0 <? s2) && bool_decide (Array2D.get (directions t) (s1 - 1) (s2 - 1) = Some 3) then
            let* len := js_num (Array2D.get (lengths t) (s1 - 1) (s2 - 1)) in
            Ret (add diagonal (num len))
          else Ret diagonal) in
       Ret (add bonus (match equalityScore with Some f => f s1 s2 | None => num 1 end))
     else Ret (num (-1))) in
  let newValue := max (max horizontalLen verticalLen) extendedSeqScore in
  let set2 (len direction : Z) :=
    let* lengths' := Array2D.set (lengths t) s1 s2 len in
    let* directions' := Array2D.set (directions t) s1 s2 direction in
    Ret (directions', lengths') in
  let* p :=
    (if eqb newValue extendedSeqScore then
       let* prevLen := (if (0 <? s1) && (0 <? s2) then js_num (Array2D.get (lengths t) (s1 - 1) (s2 - 1)) else Ret 0) in
       set2 (prevLen + 1) 3
     else if eqb newValue horizontalLen then set2 0 1
     else if eqb newValue verticalLen then set2 0 2
     else Ret (directions t, lengths t)) in
  let* lcsLengths' := Array2D.set (lcsLengths t) s1 s2 newValue in
  Ret (mkTables lcsLengths' (fst p) (snd p)).

(** The two loops that fill the tables, [n] cells from [(s1, s2)] on; [calls] counts the
    calls of [isValid], and [None] tells that one of them answered false. *)
Fixpoint fill (n : nat) (s1 s2 : Z) (calls : nat) (t : tables) : res (option tables) :=
  match n with
  | O => Ret (Some t)
  | Datatypes.S n =>
      if negb (timeout calls) then Ret None
      else
        let* t := cell s1 s2 t in
        if s2 + 1 <? ISequence.length sequence2 then fill n s1 (s2 + 1) (Datatypes.S calls) t
        else fill n (s1 + 1) 0 (Datatypes.S calls) t
  end.

(** The variables of the backtracking loop, and [reportDecreasingAligningPositions]. *)
Record trace := mkTrace { result : list SequenceDiff.t; lastAligningPosS1 : Z; lastAligningPosS2 : Z }.

Definition reportDecreasingAligningPositions (s1 s2 : Z) (r : trace) : res trace :=
  if (s1 + 1 !== lastAligningPosS1 r) || (s2 + 1 !== lastAligningPosS2 r) then
    let* d := SequenceDiff.ofOffsets (s1 + 1) (lastAligningPosS1 r) (s2 + 1) (lastAligningPosS2 r) in
    Ret (mkTrace (result r ++ [d]) s1 s2)
  else Ret (mkTrace (result r) s1 s2).

Fixpoint backtrack (fuel : nat) (dirs : Array2D.t Z) (s1 s2 : Z) (r : trace) : res trace :=
  if (0 <=? s1) && (0 <=? s2) then
    match fuel with
    | O => Throw OutOfFuel
    | Datatypes.S fuel =>
        if bool_decide (Array2D.get dirs s1 s2 = Some 3) then
          let* r := reportDecreasingAligningPositions s1 s2 r in backtrack fuel dirs (s1 - 1) (s2 - 1) r
        else if bool_decide (Array2D.get dirs s1 s2 = Some 1) then backtrack fuel dirs (s1 - 1) s2 r
        else backtrack fuel dirs s1 (s2 - 1) r
    end
  else Ret r.

Definition compute : res DiffAlgorithmResult.t :=
  let n1 := ISequence.length sequence1 in
  let n2 := ISequence.length sequence2 in
  if (n1 === 0) || (n2 === 0) then DiffAlgorithmResult.trivial sequence1 sequence2
  else
    let* t := fill (Z.to_nat (n1 * n2)) 0 0 0 (mkTables (Array2D.new n1 n2) (Array2D.new n1 n2) (Array2D.new n1 n2)) in
    match t with
    | None => DiffAlgorithmResult.trivialTimedOut sequence1 sequence2
    | Some t =>
        let* r := backtrack (Z.to_nat (n1 + n2)) (directions t) (n1 - 1) (n2 - 1) (mkTrace [] n1 n2) in
        let* r := reportDecreasingAligningPositions (-1) (-1) r in
        Ret (DiffAlgorithmResult.mk (reverse (result r)) false)
    end.
End Compute.
End DynamicProgrammingDiffing.

(** ** The algorithm of Myers *)

Module FastInt32Array.
Record t : Type := mk { positiveArr : list Z; negativeArr : list Z }.

Definition new : t := mk (replicate 10 0) (replicate 10 0).

(** [None] is [undefined], which is NaN in arithmetic. *)
Definition get (this : t) (idx : Z) : option Z :=
  if idx <? 0 then znth (negativeArr this) (- idx - 1) else znth (positiveArr this) idx.

(** A store into an [Int32Array] that is doubled when the index is at or beyond its end;
    NaN is stored as 0, a store that is still out of range is lost. *)
Definition store (arr : list Z) (idx : Z) (value : option Z) : list Z :=
  let arr := if zlen arr <=? idx then arr ++ replicate (length arr) 0 else arr in
  ta_write int32 arr idx (default 0 value).

Definition set (this : t) (idx : Z) (value : option Z) : t :=
  if idx <? 0 then mk (positiveArr this) (store (negativeArr this) (- idx - 1) value)
  else mk (store (positiveArr this) idx value) (negativeArr this).
End FastInt32Array.

(** [SnakePath | null]. The numbers can be NaN, [None]. *)
Inductive SnakePath :=
| null
| Snake (prev : SnakePath) (x y length : option Z).

(** The two arrays are sparse: a store past the end of a JavaScript array leaves holes.
    A hole reads as [undefined], which the code treats like [null]. *)
Module FastArrayNegativeIndices.
Record t : Type := mk { positiveArr : gmap Z SnakePath; negativeArr : gmap Z SnakePath }.

Definition new : t := mk ∅ ∅.

Definition get (this : t) (idx : Z) : SnakePath :=
  if idx <? 0 then default null (negativeArr this !! (- idx - 1)) else default null (positiveArr this !! idx).

Definition set (this : t) (idx : Z) (value : SnakePath) : t :=
  if idx <? 0 then mk (positiveArr this) (<[- idx - 1 := value]> (negativeArr this))
  else mk (<[idx := value]> (positiveArr this)) (negativeArr this).
End FastArrayNegativeIndices.

Module MyersDiffAlgorithm.
Module V := FastInt32Array.
Module Paths := FastArrayNegativeIndices.

Section Compute.
Variables (seq1 seq2 : ISequence.t) (timeout : ITimeout).
Notation n1 := (ISequence.length seq1).
Notation n2 := (ISequence.length seq2).

Fixpoint snake (fuel : nat) (x y : Z) : res Z :=
  if (x <? n1) && (y <? n2) && ISequence.sameElement seq1 x seq2 y then
    match fuel with
    | O => Throw OutOfFuel
    | S fuel => snake fuel (x + 1) (y + 1)
    end
  else Ret x.

(** With NaN every comparison is false. *)
Definition getXAfterSnake (x y : option Z) : res (option Z) :=
  match x, y with
  | Some x, Some y => let* x := snake (Z.to_nat n1) x y in Ret (Some x)
  | _, _ => Ret x
  end.

(** [Math.min] and [Math.max], [+] and [-] with NaN *)
Definition op2 (f : Z -> Z -> Z) (a b : option Z) : option Z :=
  match a, b with Some a, Some b => Some (f a b) | _, _ => None end.

(** [a === b] of numbers: NaN is different from everything. *)
Definition num_eqb (a b : option Z) : bool :=
  match a, b with Some a, Some b => a === b | _, _ => false end.

Definition num_gtb (a : option Z) (b : Z) : bool :=
  match a with Some a => b <? a | None => false end.

(** The body of the loop over the diagonals; the flag tells that the end of both
    sequences was reached. *)
Definition diagonal (lowerBound upperBound k : Z) (v : V.t) (paths : Paths.t) : res (V.t * Paths.t * bool) :=
  let maxXofDLineTop := if k === upperBound then Some (-1) else V.get v (k + 1) in
  let maxXofDLineLeft := if k === lowerBound then Some (-1) else op2 Z.add (V.get v (k - 1)) (Some 1) in
  let x := op2 Z.min (op2 Z.max maxXofDLineTop maxXofDLineLeft) (Some n1) in
  let y := op2 Z.sub x (Some k) in
  if num_gtb x n1 || num_gtb y n2 then Ret (v, paths, false)
  else
    let* newMaxX := getXAfterSnake x y in
    let v := V.set v k newMaxX in
    let lastPath := if num_eqb x maxXofDLineTop then Paths.get paths (k + 1) else Paths.get paths (k - 1) in
    let paths := Paths.set paths k (if negb (num_eqb newMaxX x) then Snake lastPath x y (op2 Z.sub newMaxX x) else lastPath) in
    Ret (v, paths, num_eqb (V.get v k) (Some n1) && num_eqb (op2 Z.sub (V.get v k) (Some k)) (Some n2)).

(** [for (k = lowerBound; k <= upperBound; k += 2)], [n] diagonals from [k] on, with the
    diagonal the loop was left at *)
Fixpoint diagonals (n : nat) (lowerBound upperBound k : Z) (v : V.t) (paths : Paths.t) : res (V.t * Paths.t * option Z) :=
  if k <=? upperBound then
    match n with
    | O => Throw OutOfFuel
    | S n =>
        let* r := diagonal lowerBound upperBound k v paths in
        if snd r then Ret (fst r, Some k) else diagonals n lowerBound upperBound (k + 2) (fst (fst r)) (snd (fst r))
    end
  else Ret (v, paths, None).

Definition lowerBoundOf (d : Z) : Z := - Z.min d (n2 + js_rem d 2).
Definition upperBoundOf (d : Z) : Z := Z.min d (n1 + js_rem d 2).

(** The outer loop; [None] tells that [isValid] answered false. *)
Fixpoint rounds (fuel : nat) (calls : nat) (d : Z) (v : V.t) (paths : Paths.t) : res (option SnakePath) :=
  match fuel with
  | O => Throw OutOfFuel
  | S fuel =>
      let d := d + 1 in
      if negb (timeout calls) then Ret None
      else
        let lowerBound := lowerBoundOf d in
        let upperBound := upperBoundOf d in
        let* r := diagonals (Z.to_nat (upperBound - lowerBound + 1)) lowerBound upperBound lowerBound v paths in
        match snd r with
        | Some k => Ret (Some (Paths.get (snd (fst r)) k))
        | None => rounds fuel (S calls) d (fst (fst r)) (snd (fst r))
        end
  end.

(** The loop that reads the path backwards, pushing the differences. The model stops at an
    offset that is not a number. *)
Fixpoint readPath (path : SnakePath) (lastAligningPosS1 lastAligningPosS2 : Z) (result : list SequenceDiff.t)
    : res (list SequenceDiff.t) :=
  let endX := match path with null => Some 0 | Snake _ x _ length => op2 Z.add x length end in
  let endY := match path with null => Some 0 | Snake _ _ y length => op2 Z.add y length end in
  let* endX := js_num endX in
  let* endY := js_num endY in
  let* result :=
    (if (endX !== lastAligningPosS1) || (endY !== lastAligningPosS2) then
       let* d := SequenceDiff.ofOffsets endX lastAligningPosS1 endY lastAligningPosS2 in
       Ret (result ++ [d])
     else Ret result) in
  match path with
  | null => Ret result
  | Snake prev x y _ =>
      let* x := js_num x in
      let* y := js_num y in
      readPath prev x y result
  end.

(** A bound on the number of rounds. *)
Definition maxRounds : nat := Z.to_nat (4 * n1 + 4 * n2 + 16).

Definition compute : res DiffAlgorithmResult.t :=
  if (n1 === 0) || (n2 === 0) then DiffAlgorithmResult.trivial seq1 seq2
  else
    let* x := getXAfterSnake (Some 0) (Some 0) in
    let v := V.set V.new 0 x in
    let paths := Paths.set Paths.new 0 (if num_eqb (V.get v 0) (Some 0) then null else Snake null (Some 0) (Some 0) (V.get v 0)) in
    let* path := rounds maxRounds 0 0 v paths in
    match path with
    | None => DiffAlgorithmResult.trivialTimedOut seq1 seq2
    | Some path =>
        let* result := readPath path n1 n2 [] in
        Ret (DiffAlgorithmResult.mk (reverse result) false)
    end.
End Compute.
End MyersDiffAlgorithm.

(** ** Joining and shifting differences *)

(** [for (d = from; p(d); d++) {}], at most [n] steps: the value of [d] after the loop *)
Fixpoint countWhile (p : Z -> bool) (n : nat) (d : Z) : Z :=
  match n with
  | O => d
  | S n => if p d then countWhile p n (d + 1) else d
  end.

Definition smoothenSequenceDiffs (sequenceDiffs : list SequenceDiff.t) : res (list SequenceDiff.t) :=
  (fix go (last : option SequenceDiff.t) (l : list SequenceDiff.t) : res (list SequenceDiff.t) :=
     match l, last with
     | [], None => Ret []
     | [], Some last => Ret [last]
     | s :: l, None => go (Some s) l
     | s :: l, Some last =>
         if (start1 s - end1 last <=? 2) || (start2 s - end2 last <=? 2) then
           let* s := SequenceDiff.join last s in go (Some s) l
         else
           let* rest := go (Some s) l in Ret (last :: rest)
     end) None sequenceDiffs.

Section Join.
Variables (sequence1 sequence2 : ISequence.t).
Import ISequence.

(** How far a difference can move to the left before the elements it steps over differ,
    [length] at most. *)
Definition leftShift (cur : SequenceDiff.t) (length : Z) : Z :=
  countWhile (fun d =>
    sameElement sequence1 (start1 cur - d) sequence1 (end1 cur - d) &&
    sameElement sequence2 (start2 cur - d) sequence2 (end2 cur - d)) (Z.to_nat length) 1 - 1.

(** The first loop; [prevResult] is the last element of [result]. *)
Fixpoint joinLeft (prevResult : SequenceDiff.t) (sequenceDiffs : list SequenceDiff.t) : res (list SequenceDiff.t) :=
  match sequenceDiffs with
  | [] => Ret [prevResult]
  | cur :: sequenceDiffs =>
      if oneSided cur then
        let length := start1 cur - end1 prevResult in
        let d := leftShift cur length in
        if d === length then
          let* merged := SequenceDiff.ofOffsets (start1 prevResult) (end1 cur - length) (start2 prevResult) (end2 cur - length) in
          joinLeft merged sequenceDiffs
        else
          let* cur := SequenceDiff.delta cur (- d) in
          let* rest := joinLeft cur sequenceDiffs in Ret (prevResult :: rest)
      else let* rest := joinLeft cur sequenceDiffs in Ret (prevResult :: rest)
  end.

Definition rightShift (cur : SequenceDiff.t) (length : Z) : Z :=
  countWhile (fun d =>
    sameElement sequence1 (start1 cur + d) sequence1 (end1 cur + d) &&
    sameElement sequence2 (start2 cur + d) sequence2 (end2 cur + d)) (Z.to_nat length) 0.

(** The second loop, on [cur] and the differences behind it. *)
Fixpoint joinRight (cur : SequenceDiff.t) (result : list SequenceDiff.t) : res (list SequenceDiff.t) :=
  match result with
  | [] => Ret [cur]
  | nextResult :: result =>
      if oneSided cur then
        let length := start1 nextResult - end1 cur in
        let d := rightShift cur length in
        if d === length then
          let* merged := SequenceDiff.ofOffsets (start1 cur + length) (end1 nextResult) (start2 cur + length) (end2 nextResult) in
          joinRight merged result
        else
          let* cur := (if 0 <? d then SequenceDiff.delta cur d else Ret cur) in
          let* rest := joinRight nextResult result in Ret (cur :: rest)
      else let* rest := joinRight nextResult result in Ret (cur :: rest)
  end.

Definition joinSequenceDiffs (sequenceDiffs : list SequenceDiff.t) : res (list SequenceDiff.t) :=
  match sequenceDiffs with
  | [] => Ret []
  | first :: sequenceDiffs =>
      let* result := joinLeft first sequenceDiffs in
      match result with
      | [] => Ret []
      | cur :: result => joinRight cur result
      end
  end.
End Join.

Definition shiftDiffToBetterPosition (diff : SequenceDiff.t) (sequence1 sequence2 : ISequence.t) (score1 score2 : Z -> Z)
    (seq1ValidRange seq2ValidRange : OffsetRange.t) : res SequenceDiff.t :=
  let maxShiftLimit := 100 in
  let deltaBefore := countWhile (fun deltaBefore =>
    (OffsetRange.start seq1ValidRange <=? start1 diff - deltaBefore) &&
    (OffsetRange.start seq2ValidRange <=? start2 diff - deltaBefore) &&
    ISequence.isStronglyEqual sequence2 (start2 diff - deltaBefore) (end2 diff - deltaBefore) &&
    (deltaBefore <? maxShiftLimit)) (Z.to_nat maxShiftLimit) 1 - 1 in
  let deltaAfter := countWhile (fun deltaAfter =>
    (start1 diff + deltaAfter <? OffsetRange.endExclusive seq1ValidRange) &&
    (end2 diff + deltaAfter <? OffsetRange.endExclusive seq2ValidRange) &&
    ISequence.isStronglyEqual sequence2 (start2 diff + deltaAfter) (end2 diff + deltaAfter) &&
    (deltaAfter <? maxShiftLimit)) (Z.to_nat maxShiftLimit) 0 in
  if (deltaBefore === 0) && (deltaAfter === 0) then Ret diff
  else
    let '(bestDelta, _) :=
      fold_left (fun '(bestDelta, bestScore) delta =>
        let score := score1 (start1 diff + delta) + score2 (start2 diff + delta) + score2 (end2 diff + delta) in
        if bestScore <? score then (delta, score) else (bestDelta, bestScore))
        (seqZ (- deltaBefore) (deltaBefore + deltaAfter + 1)) (0, -1) in
    SequenceDiff.delta diff bestDelta.

(** The loop stores each difference back, so the one before is already shifted. *)
Fixpoint shiftAll (sequence1 sequence2 : ISequence.t) (score1 score2 : Z -> Z) (prevDiff : option SequenceDiff.t)
    (sequenceDiffs : list SequenceDiff.t) : res (list SequenceDiff.t) :=
  match sequenceDiffs with
  | [] => Ret []
  | diff :: sequenceDiffs =>
      let nextDiff := head sequenceDiffs in
      let* seq1ValidRange := OffsetRange.new
        (match prevDiff with Some prevDiff => start1 prevDiff + 1 | None => 0 end)
        (match nextDiff with Some nextDiff => end1 nextDiff - 1 | None => ISequence.length sequence1 end) in
      let* seq2ValidRange := OffsetRange.new
        (match prevDiff with Some prevDiff => start2 prevDiff + 1 | None => 0 end)
        (match nextDiff with Some nextDiff => end2 nextDiff - 1 | None => ISequence.length sequence2 end) in
      let* diff :=
        (if OffsetRange.isEmpty (SequenceDiff.seq1Range diff) then
           shiftDiffToBetterPosition diff sequence1 sequence2 score1 score2 seq1ValidRange seq2ValidRange
         else if OffsetRange.isEmpty (SequenceDiff.seq2Range diff) then
           let* d := shiftDiffToBetterPosition (SequenceDiff.reverse diff) sequence2 sequence1 score2 score1 seq2ValidRange seq1ValidRange in
           Ret (SequenceDiff.reverse d)
         else Ret diff) in
      let* rest := shiftAll sequence1 sequence2 score1 score2 (Some diff) sequenceDiffs in
      Ret (diff :: rest)
  end.

Definition shiftSequenceDiffs (sequence1 sequence2 : ISequence.t) (sequenceDiffs : list SequenceDiff.t) : res (list SequenceDiff.t) :=
  match ISequence.getBoundaryScore sequence1, ISequence.getBoundaryScore sequence2 with
  | Some score1, Some score2 => shiftAll sequence1 sequence2 score1 score2 None sequenceDiffs
  | _, _ => Ret sequenceDiffs
  end.

Definition optimizeSequenceDiffs (sequence1 sequence2 : ISequence.t) (sequenceDiffs : list SequenceDiff.t) : res (list SequenceDiff.t) :=
  let* result := joinSequenceDiffs sequence1 sequence2 sequenceDiffs in
  shiftSequenceDiffs sequence1 sequence2 result.
