(* ===== verification/DiffAligned.v ===== *)
(** * Differences that turn one sequence into the other

    What a list of differences promises: outside of the ranges it names the two sequences
    are equal, element by element and in order, so that replacing the ranges of the first
    sequence by those of the second one gives the second sequence. The algorithm with
    tables keeps that promise. *)

From stdpp Require Import gmap.
From S2P Require Import Prelude Intervals OffsetRange Diff.

(** ** The promise *)

Section Aligned.
Variables (l1 l2 : list Z).

(** From [(i, j)] to [(i', j')] the sequences are equal. *)
Definition gap (i j i' j' : Z) : Prop :=
  i <= i' /\ i' - i = j' - j /\ forall t, i <= t < i' -> znth l1 t = znth l2 (t + (j - i)).

Fixpoint alignedFrom (i j : Z) (ds : list SequenceDiff.t) : Prop :=
  match ds with
  | [] => gap i j (zlen l1) (zlen l2)
  | d :: ds => gap i j (start1 d) (start2 d) /\ start1 d <= end1 d /\ start2 d <= end2 d /\ alignedFrom (end1 d) (end2 d) ds
  end.

Definition aligned : list SequenceDiff.t -> Prop := alignedFrom 0 0.

(** The first sequence from [i] on, with the ranges replaced. *)
Fixpoint patchFrom (i : Z) (ds : list SequenceDiff.t) : list Z :=
  match ds with
  | [] => zdrop i l1
  | d :: ds => ztake (start1 d - i) (zdrop i l1) ++ ztake (end2 d - start2 d) (zdrop (start2 d) l2) ++ patchFrom (end1 d) ds
  end.

Definition patch : list SequenceDiff.t -> list Z := patchFrom 0.
End Aligned.

Section AlignedLemmas.
Context {l1 l2 : list Z}.

Lemma gap_refl i j : gap l1 l2 i j i j.
Proof. split; [lia | split; [lia | intros t ?; lia]]. Qed.

Lemma gap_trans i j i' j' i'' j'' : gap l1 l2 i j i' j' -> gap l1 l2 i' j' i'' j'' -> gap l1 l2 i j i'' j''.
Proof.
  intros (H1 & H2 & H3) (G1 & G2 & G3). split; [lia | split; [lia |]]. intros t Ht.
  destruct (decide (t < i')); [by apply H3; lia |]. rewrite G3 by lia. f_equal; lia.
Qed.

Lemma gap_split i j i' j' k : gap l1 l2 i j i' j' -> i <= k <= i' -> gap l1 l2 i j k (k + (j - i)) /\ gap l1 l2 k (k + (j - i)) i' j'.
Proof.
  intros (H1 & H2 & H3) Hk. split; (split; [lia | split; [lia |]]); intros t Ht; rewrite H3 by lia; f_equal; lia.
Qed.

Lemma gap_one i j : znth l1 i = znth l2 j -> gap l1 l2 i j (i + 1) (j + 1).
Proof. intros H. split; [lia | split; [lia |]]. intros t ?. replace t with i by lia. rewrite H. f_equal; lia. Qed.

(** Equal texts, read off the gap. *)
Lemma gap_slices i j i' j' : gap l1 l2 i j i' j' -> 0 <= i -> 0 <= j -> i' <= zlen l1 -> j' <= zlen l2 ->
  ztake (i' - i) (zdrop i l1) = ztake (j' - j) (zdrop j l2).
Proof.
  intros (H1 & H2 & H3) Hi Hj Hi' Hj'. rewrite <- H2. unfold ztake, zdrop, znth, zlen in *.
  apply list_eq_same_length with (n := Z.to_nat (i' - i)).
  - rewrite length_take, length_drop; lia.
  - rewrite length_take, length_drop; lia.
  - intros k x y Hk Hx Hy. rewrite lookup_take_Some, lookup_drop in Hx, Hy.
    specialize (H3 (i + Z.of_nat k) ltac:(lia)).
    destruct (i + Z.of_nat k <? 0) eqn:?, (i + Z.of_nat k + (j - i) <? 0) eqn:?; try lia.
    replace (Z.to_nat (i + Z.of_nat k)) with (Z.to_nat i + k)%nat in H3 by lia.
    replace (Z.to_nat (i + Z.of_nat k + (j - i))) with (Z.to_nat j + k)%nat in H3 by lia.
    destruct Hx as [Hx _], Hy as [Hy _]. congruence.
Qed.

Lemma alignedFrom_bounds i j ds : alignedFrom l1 l2 i j ds -> i <= zlen l1 /\ j <= zlen l2.
Proof.
  revert i j. induction ds as [| d ds IH]; simpl; intros i j H; [destruct H as (? & ? & ?); lia |].
  destruct H as ((? & ? & ?) & ? & ? & H). apply IH in H. lia.
Qed.

Lemma patchFrom_aligned i j ds : 0 <= i -> 0 <= j -> alignedFrom l1 l2 i j ds -> patchFrom l1 l2 i ds = zdrop j l2.
Proof.
  revert i j. induction ds as [| d ds IH]; simpl; intros i j Hi Hj H.
  - pose proof (gap_slices _ _ _ _ H Hi Hj ltac:(lia) ltac:(lia)) as E. destruct H as (? & ? & ?).
    by rewrite (ztake_all (zlen l1 - i)), (ztake_all (zlen l2 - j)) in E by (rewrite zlen_zdrop; lia).
  - destruct H as (G & H1 & H2 & H). pose proof (alignedFrom_bounds _ _ _ H) as [B1 B2].
    pose proof G as (G1 & G2 & _).
    rewrite (gap_slices _ _ _ _ G Hi Hj ltac:(lia) ltac:(lia)), (IH (end1 d) (end2 d)) by (done || lia).
    rewrite <- (ztake_zdrop (start2 d - j) (zdrop j l2)) at 2. rewrite zdrop_zdrop by lia. f_equal.
    replace (j + (start2 d - j)) with (start2 d) by lia.
    rewrite <- (ztake_zdrop (end2 d - start2 d) (zdrop (start2 d) l2)) at 2. f_equal. rewrite zdrop_zdrop by lia. f_equal; lia.
Qed.

(** Aligned differences are a patch. *)
Lemma patch_aligned ds : aligned l1 l2 ds -> patch l1 l2 ds = l2.
Proof. intros H. unfold patch. by rewrite (patchFrom_aligned 0 0) by (done || lia). Qed.

(** A difference can start earlier in the gap, and the gap before it can be longer. *)
Lemma alignedFrom_back i j i' j' ds : gap l1 l2 i j i' j' -> alignedFrom l1 l2 i' j' ds -> alignedFrom l1 l2 i j ds.
Proof.
  intros G. destruct ds as [| d ds]; simpl.
  - by apply gap_trans.
  - intros (H & ?). split; [by eapply gap_trans | done].
Qed.
End AlignedLemmas.

(** The promise can be checked. *)
Lemma gap_check l1 l2 i j i' j' :
  gap l1 l2 i j i' j' <-> i <= i' /\ i' - i = j' - j /\ Forall (fun t => znth l1 t = znth l2 (t + (j - i))) (seqZ i (i' - i)).
Proof.
  unfold gap. rewrite Forall_forall. setoid_rewrite elem_of_seqZ.
  split; intros (? & ? & H); (split; [done | split; [done |]]); intros; apply H; lia.
Qed.

#[global] Instance gap_dec l1 l2 i j i' j' : Decision (gap l1 l2 i j i' j').
Proof.
  refine (cast_if (decide (i <= i' /\ i' - i = j' - j /\ Forall (fun t => znth l1 t = znth l2 (t + (j - i))) (seqZ i (i' - i))))); [by apply gap_check | by rewrite gap_check].
Defined.

#[global] Instance alignedFrom_dec l1 l2 i j ds : Decision (alignedFrom l1 l2 i j ds).
Proof. revert i j. induction ds as [| d ds IH]; intros i j; simpl; apply _. Defined.

#[global] Instance aligned_dec l1 l2 ds : Decision (aligned l1 l2 ds).
Proof. unfold aligned. apply _. Defined.

Lemma gap_swap l1 l2 i j i' j' : gap l1 l2 i j i' j' -> gap l2 l1 j i j' i'.
Proof.
  intros (? & ? & H). split; [lia | split; [lia |]]. intros t ?. rewrite H by lia. f_equal; lia.
Qed.

(** The whole sequences as one difference. *)
Lemma whole_aligned seq1 seq2 b : exists d,
  DiffAlgorithmResult.whole seq1 seq2 b = Ret (DiffAlgorithmResult.mk [d] b) /\
  aligned (ISequence.elements seq1) (ISequence.elements seq2) [d].
Proof.
  unfold DiffAlgorithmResult.whole, SequenceDiff.ofOffsets, ISequence.length.
  pose proof (zlen_nonneg (ISequence.elements seq1)). pose proof (zlen_nonneg (ISequence.elements seq2)).
  rewrite !OffsetRange.offsetRange_new_wf by lia. eexists. split; [done |].
  unfold aligned; simpl. unfold start1, end1, start2, end2; simpl. split; [apply gap_refl |]. do 2 (split; [lia |]). apply gap_refl.
Qed.
