(* ===== verification/DiffTables.v ===== *)
(** * The table-driven diff algorithm

    [DynamicProgrammingDiffing.compute] returns, for all sequences and scores, differences
    that turn the first sequence into the second one. *)

From stdpp Require Import gmap.
From S2P Require Import Prelude Intervals OffsetRange Diff DiffAligned.

(** ** What the scores promise

    The laws of JavaScript's numbers the algorithm needs, on the numbers that are not
    negative and not NaN. *)
Class ScoreLaws (S : Type) `{!Score S} := {
  nonneg : S -> Prop;
  nonneg_num n : 0 <= n -> nonneg (num n);
  nonneg_add a b : nonneg a -> nonneg b -> nonneg (add a b);
  nonneg_max a b : nonneg a -> nonneg b \/ b = num (-1) -> nonneg (max a b);
  max_cases a b : max a b = a \/ max a b = b;
  eqb_refl a : nonneg a -> eqb a a = true;
  eqb_negative a : nonneg a -> eqb a (num (-1)) = false
}.

#[global] Program Instance Z_ScoreLaws : ScoreLaws Z := {| nonneg := Z.le 0 |}.
Next Obligation. done. Qed.
Next Obligation. cbn; lia. Qed.
Next Obligation. cbn; lia. Qed.
Next Obligation. cbn; lia. Qed.
Next Obligation. cbn; lia. Qed.
Next Obligation. cbn; lia. Qed.

(** ** Two-dimensional arrays *)

Module Array2DFacts.
Import Array2D.

(** An array of the full size. *)
Definition sized {A} (w h : Z) (a : t A) : Prop := width a = w /\ zlen (array a) = w * h.

Lemma sized_new {A} w h : 0 <= w -> 0 <= h -> sized w h (new (A := A) w h).
Proof. intros. split; [done |]. unfold new, zlen; simpl. rewrite length_replicate. nia. Qed.

Lemma get_new {A} w h x y : get (new (A := A) w h) x y = None.
Proof.
  unfold get, new, znth; simpl. destruct (_ <? 0); [done |].
  destruct (replicate _ None !! _) eqn:E; [| done]. by apply lookup_replicate in E as [-> _].
Qed.

Lemma index_lt w h x y : 0 <= x < w -> 0 <= y < h -> 0 <= x + y * w < w * h.
Proof. nia. Qed.

Lemma index_inj w x y x' y' : 0 <= x < w -> 0 <= x' < w -> x + y * w = x' + y' * w -> x = x' /\ y = y'.
Proof. intros. assert (y = y') by nia. subst. lia. Qed.

(** A store returns, and is read back at its cell only. *)
Lemma set_spec {A} w h (a : t A) x y v : sized w h a -> 0 <= x < w -> 0 <= y < h ->
  exists a', set a x y v = Ret a' /\ sized w h a' /\ get a' x y = Some v /\
    forall x' y', 0 <= x' < w -> 0 <= y' < h -> (x', y') <> (x, y) -> get a' x' y' = get a x' y'.
Proof.
  intros [Hw Hl] Hx Hy. pose proof (index_lt w h x y Hx Hy). unfold set. rewrite Hw, Hl.
  destruct (0 <=? x + y * w) eqn:?, (x + y * w <? w * h) eqn:?; try lia. simpl. eexists. split; [done |].
  unfold sized, get, znth, zlen in *; simpl. split; [by rewrite length_insert | split].
  - destruct (_ <? 0) eqn:?; [lia |]. rewrite list_lookup_insert_eq; [done | lia].
  - intros x' y' Hx' Hy' Hne. rewrite Hw. destruct (_ <? 0) eqn:?; [done |].
    rewrite list_lookup_insert_ne; [done |]. intros E. apply Hne.
    pose proof (index_lt w h x' y' Hx' Hy'). destruct (index_inj w x y x' y'); [done | done | lia | congruence].
Qed.
End Array2DFacts.
Import Array2DFacts.

(** ** Filling the tables *)

Module DPD := DynamicProgrammingDiffing.

Section Tables.
Context {S : Type} `{!Score S, !ScoreLaws S}.
Variables (sequence1 sequence2 : ISequence.t) (timeout : ITimeout) (equalityScore : option (Z -> Z -> S)).
Hypothesis scores_nonneg : forall f, equalityScore = Some f -> forall a b, nonneg (f a b).
Notation n1 := (ISequence.length sequence1).
Notation n2 := (ISequence.length sequence2).

(** A diagonal step is recorded only where the elements are equal. *)
Definition steps_match (dirs : Array2D.t Z) : Prop :=
  forall x y, 0 <= x < n1 -> 0 <= y < n2 -> Array2D.get dirs x y = Some 3 -> ISequence.sameElement sequence1 x sequence2 y = true.

(** The cells before [(s1, s2)] hold numbers. *)
Definition filled (s1 s2 : Z) (t : DPD.tables (S := S)) : Prop :=
  forall x y, 0 <= x < n1 -> 0 <= y < n2 -> x < s1 \/ x = s1 /\ y < s2 ->
    (exists v, Array2D.get (DPD.lcsLengths t) x y = Some v /\ nonneg v) /\ (exists n, Array2D.get (DPD.lengths t) x y = Some n /\ 0 <= n).

Record table_inv (s1 s2 : Z) (t : DPD.tables (S := S)) : Prop := {
  ti_lcs : sized n1 n2 (DPD.lcsLengths t);
  ti_dirs : sized n1 n2 (DPD.directions t);
  ti_lens : sized n1 n2 (DPD.lengths t);
  ti_match : steps_match (DPD.directions t);
  ti_filled : filled s1 s2 t
}.

(** the value read from the table of scores, 0 outside *)
Lemma read_lcs s1 s2 t x y (b : bool) : table_inv s1 s2 t -> (b = false -> 0 <= x < n1 /\ 0 <= y < n2 /\ (x < s1 \/ x = s1 /\ y < s2)) ->
  exists v, (if b then Ret (num 0) else js_num (Array2D.get (DPD.lcsLengths t) x y)) = Ret v /\ nonneg v.
Proof.
  intros I H. destruct b; [exists (num 0); split; [done | by apply nonneg_num] |].
  destruct (H eq_refl) as (? & ? & ?). destruct (ti_filled _ _ _ I x y) as [(v & -> & ?) _]; eauto.
Qed.

Lemma read_len s1 s2 t x y : table_inv s1 s2 t -> 0 <= x < n1 -> 0 <= y < n2 -> x < s1 \/ x = s1 /\ y < s2 ->
  exists n, js_num (Array2D.get (DPD.lengths t) x y) = Ret n /\ 0 <= n.
Proof. intros I ? ? ?. destruct (ti_filled _ _ _ I x y) as [_ (n & -> & ?)]; eauto. Qed.

(** the score of the diagonal step *)
Lemma extended_score s1 s2 t : table_inv s1 s2 t -> 0 <= s1 < n1 -> 0 <= s2 < n2 ->
  exists e,
    (if ISequence.sameElement sequence1 s1 sequence2 s2 then
       let* diagonal := (if (s1 === 0) || (s2 === 0) then Ret (num 0) else js_num (Array2D.get (DPD.lcsLengths t) (s1 - 1) (s2 - 1))) in
       let* bonus :=
         (if (0 <? s1) && (0 <? s2) && bool_decide (Array2D.get (DPD.directions t) (s1 - 1) (s2 - 1) = Some 3) then
            let* len := js_num (Array2D.get (DPD.lengths t) (s1 - 1) (s2 - 1)) in
            Ret (add diagonal (num len))
          else Ret diagonal) in
       Ret (add bonus (match equalityScore with Some f => f s1 s2 | None => num 1 end))
     else Ret (num (-1))) = Ret e /\
    (if ISequence.sameElement sequence1 s1 sequence2 s2 then nonneg e else e = num (-1)).
Proof.
  intros I H1 H2. destruct (ISequence.sameElement _ _ _ _); [| eauto].
  destruct (read_lcs s1 s2 t (s1 - 1) (s2 - 1) ((s1 === 0) || (s2 === 0)) I) as (dg & -> & Hd); [intros; lia |]. simpl.
  assert (He : nonneg (match equalityScore with Some f => f s1 s2 | None => num 1 end)).
  { destruct equalityScore eqn:Ee; [by eapply scores_nonneg | by apply nonneg_num]. }
  destruct ((0 <? s1) && (0 <? s2) && _) eqn:Eb; simpl.
  - destruct (read_len s1 s2 t (s1 - 1) (s2 - 1) I) as (len & -> & Hlen); [lia.. |]. simpl.
    eexists. split; [done |]. apply nonneg_add; [apply nonneg_add; [done | by apply nonneg_num] | done].
  - eexists. split; [done |]. by apply nonneg_add.
Qed.

(** The store of a length and a direction. *)
Lemma set2_spec s1 s2 t len dir : table_inv s1 s2 t -> 0 <= s1 < n1 -> 0 <= s2 < n2 -> 0 <= len ->
  (dir = 3 -> ISequence.sameElement sequence1 s1 sequence2 s2 = true) ->
  exists p,
    (let* lengths' := Array2D.set (DPD.lengths t) s1 s2 len in
     let* directions' := Array2D.set (DPD.directions t) s1 s2 dir in Ret (directions', lengths')) = Ret p /\
    sized n1 n2 (fst p) /\ sized n1 n2 (snd p) /\ steps_match (fst p) /\ Array2D.get (snd p) s1 s2 = Some len /\
    forall x y, 0 <= x < n1 -> 0 <= y < n2 -> (x, y) <> (s1, s2) -> Array2D.get (snd p) x y = Array2D.get (DPD.lengths t) x y.
Proof.
  intros I H1 H2 Hlen Hdir.
  destruct (set_spec n1 n2 (DPD.lengths t) s1 s2 len (ti_lens _ _ _ I) H1 H2) as (L & -> & SL & GL & OL).
  destruct (set_spec n1 n2 (DPD.directions t) s1 s2 dir (ti_dirs _ _ _ I) H1 H2) as (D & -> & SD & GD & OD).
  simpl. eexists. split; [done |]. simpl. do 2 (split; [done |]). split; [| by split].
  intros x y Hx Hy G. destruct (decide ((x, y) = (s1, s2))) as [[= -> ->] | Hne].
  - apply Hdir. congruence.
  - rewrite OD in G by done. by apply (ti_match _ _ _ I).
Qed.

(** The case analysis on the best score. *)
Lemma choice_spec s1 s2 t h v e : table_inv s1 s2 t -> 0 <= s1 < n1 -> 0 <= s2 < n2 -> nonneg h -> nonneg v ->
  (if ISequence.sameElement sequence1 s1 sequence2 s2 then nonneg e else e = num (-1)) -> nonneg (max (max h v) e) ->
  exists p,
    (if eqb (max (max h v) e) e then
       let* prevLen := (if (0 <? s1) && (0 <? s2) then js_num (Array2D.get (DPD.lengths t) (s1 - 1) (s2 - 1)) else Ret 0) in
       let* lengths' := Array2D.set (DPD.lengths t) s1 s2 (prevLen + 1) in
       let* directions' := Array2D.set (DPD.directions t) s1 s2 3 in Ret (directions', lengths')
     else if eqb (max (max h v) e) h then
       let* lengths' := Array2D.set (DPD.lengths t) s1 s2 0 in
       let* directions' := Array2D.set (DPD.directions t) s1 s2 1 in Ret (directions', lengths')
     else if eqb (max (max h v) e) v then
       let* lengths' := Array2D.set (DPD.lengths t) s1 s2 0 in
       let* directions' := Array2D.set (DPD.directions t) s1 s2 2 in Ret (directions', lengths')
     else Ret (DPD.directions t, DPD.lengths t)) = Ret p /\
    sized n1 n2 (fst p) /\ sized n1 n2 (snd p) /\ steps_match (fst p) /\ (exists n, Array2D.get (snd p) s1 s2 = Some n /\ 0 <= n) /\
    forall x y, 0 <= x < n1 -> 0 <= y < n2 -> (x, y) <> (s1, s2) -> Array2D.get (snd p) x y = Array2D.get (DPD.lengths t) x y.
Proof.
  intros I H1 H2 Hh Hv He Hn. destruct (eqb (max (max h v) e) e) eqn:Ee.
    - assert (Hs : ISequence.sameElement sequence1 s1 sequence2 s2 = true).
      { destruct (ISequence.sameElement _ _ _ _); [done |]. subst e. by rewrite eqb_negative in Ee. }
      assert (Hp : exists n, (if (0 <? s1) && (0 <? s2) then js_num (Array2D.get (DPD.lengths t) (s1 - 1) (s2 - 1)) else Ret 0) = Ret n /\ 0 <= n).
      { destruct ((0 <? s1) && (0 <? s2)) eqn:?; [apply (read_len s1 s2); [done | lia..] | by exists 0]. }
      destruct Hp as (n & -> & Hn0). simpl.
      destruct (set2_spec s1 s2 t (n + 1) 3 I H1 H2 ltac:(lia) ltac:(done)) as (p & -> & ? & ? & ? & ? & ?).
      exists p. do 4 (split; [done |]). split; [eexists; split; [done | lia] | done].
    - destruct (eqb (max (max h v) e) h) eqn:Eh; [| destruct (eqb (max (max h v) e) v) eqn:Ev].
      + destruct (set2_spec s1 s2 t 0 1 I H1 H2 ltac:(lia) ltac:(done)) as (p & -> & ? & ? & ? & ? & ?).
        exists p. do 4 (split; [done |]). by split; [exists 0 |].
      + destruct (set2_spec s1 s2 t 0 2 I H1 H2 ltac:(lia) ltac:(done)) as (p & -> & ? & ? & ? & ? & ?).
        exists p. do 4 (split; [done |]). by split; [exists 0 |].
      + exfalso. destruct (max_cases (max h v) e) as [E | E]; [destruct (max_cases h v) as [E' | E'] |].
        * by rewrite E, E', eqb_refl in Eh.
        * by rewrite E, E', eqb_refl in Ev.
        * rewrite E in Ee, Hn. by rewrite eqb_refl in Ee.
Qed.

Lemma cell_spec s1 s2 t : table_inv s1 s2 t -> 0 <= s1 < n1 -> 0 <= s2 < n2 ->
  exists t', DPD.cell sequence1 sequence2 equalityScore s1 s2 t = Ret t' /\ table_inv s1 (s2 + 1) t'.
Proof.
  intros I H1 H2. unfold DPD.cell.
  destruct (read_lcs s1 s2 t (s1 - 1) s2 (s1 === 0) I) as (h & -> & Hh); [intros; lia |]. simpl.
  destruct (read_lcs s1 s2 t s1 (s2 - 1) (s2 === 0) I) as (v & -> & Hv); [intros; lia |]. simpl.
  destruct (extended_score s1 s2 t I H1 H2) as (e & -> & He). simpl.
  assert (Hm : nonneg (max h v)) by (apply nonneg_max; auto).
  assert (Hn : nonneg (max (max h v) e)).
  { apply nonneg_max; [done |]. destruct (ISequence.sameElement _ _ _ _); auto. }
  destruct (choice_spec s1 s2 t h v e I H1 H2 Hh Hv He Hn) as (p & -> & SD & SL & SM & GL & OL). simpl.
  destruct (set_spec n1 n2 (DPD.lcsLengths t) s1 s2 (max (max h v) e) (ti_lcs _ _ _ I) H1 H2) as (C & -> & SC & GC & OC).
  simpl. eexists. split; [done |]. split; simpl; [done.. |].
  intros x y Hx Hy Hxy. simpl. destruct (decide ((x, y) = (s1, s2))) as [[= -> ->] | Hne]; [eauto |].
  rewrite OL, OC by done. apply (ti_filled _ _ _ I); [done.. |].
  destruct (decide (x = s1)), (decide (y = s2)); subst; (done || lia).
Qed.

(** the next cell *)
Lemma table_inv_row s1 t : table_inv s1 n2 t -> table_inv (s1 + 1) 0 t.
Proof. intros [? ? ? ? F]. split; try done. intros x y Hx Hy ?. apply F; (done || lia). Qed.

Lemma fill_spec n s1 s2 calls t : table_inv s1 s2 t -> 0 <= s1 -> 0 <= s2 < n2 -> Z.of_nat n = (n1 - s1) * n2 - s2 ->
  (exists t', DPD.fill sequence1 sequence2 timeout equalityScore n s1 s2 calls t = Ret (Some t') /\ steps_match (DPD.directions t')) \/
  DPD.fill sequence1 sequence2 timeout equalityScore n s1 s2 calls t = Ret None /\ ~ (forall c, timeout c = true).
Proof.
  revert s1 s2 calls t. induction n as [| n IH]; intros s1 s2 calls t I H1 H2 Hn; simpl.
  { left. eexists. split; [done | apply I]. }
  destruct (timeout calls) eqn:Et; simpl; [| right; split; [done |]; intros Hc; by rewrite Hc in Et].
  destruct (cell_spec s1 s2 t I ltac:(nia) H2) as (t' & -> & I'). simpl.
  destruct (s2 + 1 <? n2) eqn:E; [apply IH; [done | lia..] |].
  apply IH; [| lia | lia | nia]. replace (s2 + 1) with n2 in I' by lia. by apply table_inv_row.
Qed.
End Tables.

(** ** Reading the tables *)

Section Trace.
Variables (sequence1 sequence2 : ISequence.t).
Notation l1 := (ISequence.elements sequence1).
Notation l2 := (ISequence.elements sequence2).

(** From the last aligning positions on the differences reported so far are right. *)
Definition traced (r : DPD.trace) : Prop :=
  alignedFrom l1 l2 (DPD.lastAligningPosS1 r) (DPD.lastAligningPosS2 r) (reverse (DPD.result r)).

Lemma report_spec s1 s2 r : traced r -> s1 < DPD.lastAligningPosS1 r -> s2 < DPD.lastAligningPosS2 r ->
  exists ds, DPD.reportDecreasingAligningPositions s1 s2 r = Ret (DPD.mkTrace ds s1 s2) /\ alignedFrom l1 l2 (s1 + 1) (s2 + 1) (reverse ds).
Proof.
  unfold traced, DPD.reportDecreasingAligningPositions, SequenceDiff.ofOffsets. intros H H1 H2. destruct (_ || _) eqn:E.
  - rewrite !OffsetRange.offsetRange_new_wf by lia. simpl. eexists. split; [done |]. rewrite reverse_app. simpl.
    unfold start1, end1, start2, end2; simpl. split; [apply gap_refl |]. by do 2 (split; [lia |]).
  - eexists. split; [done |].
    replace (s1 + 1) with (DPD.lastAligningPosS1 r) by lia. by replace (s2 + 1) with (DPD.lastAligningPosS2 r) by lia.
Qed.

Lemma backtrack_spec fuel dirs s1 s2 r :
  steps_match sequence1 sequence2 dirs -> s1 < ISequence.length sequence1 -> s2 < ISequence.length sequence2 ->
  traced r -> -1 <= s1 < DPD.lastAligningPosS1 r -> -1 <= s2 < DPD.lastAligningPosS2 r -> s1 + s2 + 2 <= Z.of_nat fuel ->
  exists r', DPD.backtrack fuel dirs s1 s2 r = Ret r' /\ traced r' /\ 0 <= DPD.lastAligningPosS1 r' /\ 0 <= DPD.lastAligningPosS2 r'.
Proof.
  intros M. revert s1 s2 r. induction fuel as [| fuel IH]; intros s1 s2 r B1 B2 T H1 H2 F; cbn [DPD.backtrack].
  { destruct (_ && _) eqn:E; [lia |]. exists r. repeat split; (done || lia). }
  destruct ((0 <=? s1) && (0 <=? s2)) eqn:E; [| exists r; repeat split; (done || lia)].
  case_bool_decide as D3; [| case_bool_decide; apply IH; (done || lia)].
  destruct (report_spec s1 s2 r T) as (ds & -> & A); [lia.. |]. cbn [res_bind].
  apply IH; cbn; try lia. unfold traced; cbn. apply (alignedFrom_back _ _ (s1 + 1) (s2 + 1)); [| done].
  apply gap_one. apply M in D3; [| lia..]. by apply bool_decide_eq_true in D3.
Qed.
End Trace.

(** C11: For all sequences, scores that are not negative and answers of the timeout,
    [DynamicProgrammingDiffing.compute] returns differences outside of which the sequences are
    equal, so that they turn the first sequence into the second; it reports a timeout only if
    one was met. *)
Theorem tables_diff {S} `{!Score S, !ScoreLaws S} sequence1 sequence2 timeout (equalityScore : option (Z -> Z -> S)) :
  (forall f, equalityScore = Some f -> forall a b, nonneg (f a b)) ->
  exists r, DPD.compute sequence1 sequence2 timeout equalityScore = Ret r /\
    aligned (ISequence.elements sequence1) (ISequence.elements sequence2) (DiffAlgorithmResult.diffs r) /\
    patch (ISequence.elements sequence1) (ISequence.elements sequence2) (DiffAlgorithmResult.diffs r) = ISequence.elements sequence2 /\
    ((forall c, timeout c = true) -> DiffAlgorithmResult.hitTimeout r = false).
Proof.
  intros Hs. cut (exists r, DPD.compute sequence1 sequence2 timeout equalityScore = Ret r /\
    aligned (ISequence.elements sequence1) (ISequence.elements sequence2) (DiffAlgorithmResult.diffs r) /\
    ((forall c, timeout c = true) -> DiffAlgorithmResult.hitTimeout r = false)).
  { intros (r & E & A & T). exists r. repeat split; try done. by apply patch_aligned. }
  unfold DPD.compute, DiffAlgorithmResult.trivial, DiffAlgorithmResult.trivialTimedOut.
  pose proof (zlen_nonneg (ISequence.elements sequence1)) as P1. pose proof (zlen_nonneg (ISequence.elements sequence2)) as P2.
  fold (ISequence.length sequence1) in P1. fold (ISequence.length sequence2) in P2.
  destruct (_ || _) eqn:E0. { destruct (whole_aligned sequence1 sequence2 false) as (d & -> & ?). by eexists. }
  set (n1 := ISequence.length sequence1) in *. set (n2 := ISequence.length sequence2) in *.
  assert (I : table_inv sequence1 sequence2 0 0 (DPD.mkTables (S := S) (Array2D.new n1 n2) (Array2D.new n1 n2) (Array2D.new n1 n2))).
  { split; simpl; [by apply sized_new.. | |]; [intros x y _ _ G; by rewrite get_new in G | intros x y; lia]. }
  destruct (fill_spec sequence1 sequence2 timeout equalityScore Hs (Z.to_nat (n1 * n2)) 0 0 0 _ I ltac:(lia) ltac:(lia) ltac:(nia))
    as [(t & -> & M) | [-> T]]; cbn [res_bind].
  - destruct (backtrack_spec sequence1 sequence2 (Z.to_nat (n1 + n2)) (DPD.directions t) (n1 - 1) (n2 - 1) (DPD.mkTrace [] n1 n2))
      as (r & -> & T & R1 & R2); try (done || cbn; lia); [apply gap_refl |].
    cbn [res_bind]. destruct (report_spec sequence1 sequence2 (-1) (-1) r T) as (ds & -> & A); [lia.. |]. by eexists.
  - destruct (whole_aligned sequence1 sequence2 true) as (d & -> & ?). eexists. split; [done | split; [done |]]. intros; contradiction.
Qed.

(** Two short texts, with fractional scores in tenths. *)
Lemma tables_diff_witness : exists r,
  DPD.compute (ISequence.mk [1; 2; 3; 4] None (fun _ _ => false)) (ISequence.mk [1; 3; 5; 4] None (fun _ _ => false))
    InfiniteTimeout (Some (fun a b : Z => if a === b then 10 else 9)) = Ret r /\
  patch [1; 2; 3; 4] [1; 3; 5; 4] (DiffAlgorithmResult.diffs r) = [1; 3; 5; 4] /\ zlen (DiffAlgorithmResult.diffs r) = 2.
Proof.
  destruct (tables_diff (ISequence.mk [1; 2; 3; 4] None (fun _ _ => false)) (ISequence.mk [1; 3; 5; 4] None (fun _ _ => false))
    InfiniteTimeout (Some (fun a b : Z => if a === b then 10 else 9))) as (r & E & _ & P & _).
  { intros f [= <-] a b. cbn. destruct (a === b); lia. }
  exists r. split; [exact E |]. split; [exact P |]. vm_compute in E. injection E as <-. reflexivity.
Defined.
