(* ===== verification/DiffJoin.v ===== *)
(** * Joining and shifting differences

    [joinSequenceDiffs.ts]: the functions that tidy up differences keep what the differences
    promise, and where one of them does not. *)

From stdpp Require Import gmap.
From S2P Require Import Prelude Intervals OffsetRange Diff DiffAligned.

(** ** Loops *)

(** A counting loop stops at or before its bound, and its condition held at every step. *)
Lemma countWhile_spec p n d : d <= countWhile p n d <= d + Z.of_nat n /\ forall x, d <= x < countWhile p n d -> p x = true.
Proof.
  revert d. induction n as [| n IH]; intros d; simpl; [split; [lia | intros; lia] |].
  destruct (p d) eqn:E; [| split; [lia | intros; lia]]. destruct (IH (d + 1)) as [H1 H2]. split; [lia |].
  intros x ?. destruct (decide (x = d)) as [-> |]; [done | apply H2; lia].
Qed.

(** The search for the best score answers an offset it tried, or its start. *)
Lemma best_in (f : Z -> Z) l b0 :
  let r := fold_left (fun '(b, s) x => if s <? f x then (x, f x) else (b, s)) l b0 in fst r = fst b0 \/ fst r ∈ l.
Proof.
  revert b0. induction l as [| x l IH]; intros [b s]; simpl; [by left |].
  destruct (s <? f x); simpl; [destruct (IH (x, f x)) as [-> | H] | destruct (IH (b, s)) as [-> | H]]; simpl; (set_solver || by left).
Qed.

(** The answer has the best score of all, the first such, or no score is over the start's. *)
Lemma best_first (f : Z -> Z) l b0 s0 : StronglySorted Z.lt l ->
  let r := fold_left (fun '(b, s) x => if s <? f x then (x, f x) else (b, s)) l (b0, s0) in
  r = (b0, s0) /\ (forall x, x ∈ l -> f x <= s0) \/
  snd r = f (fst r) /\ s0 < snd r /\ fst r ∈ l /\ forall x, x ∈ l -> f x <= f (fst r) /\ (x < fst r -> f x < f (fst r)).
Proof.
  intros Hl. revert b0 s0. induction Hl as [| x l Hl IH Hx]; intros b0 s0; cbn; [left; split; [done | set_solver] |].
  rewrite Forall_forall in Hx. destruct (Z.ltb_spec s0 (f x)) as [Hs | Hs].
  - right. destruct (IH x (f x)) as [[-> H] | (E & H1 & H2 & H3)]; cbn.
    + split_and!; [done | done | set_solver |]. intros y [-> | Hy]%elem_of_cons; [lia |]. specialize (H y Hy). specialize (Hx y Hy). lia.
    + set (r := fold_left _ _ _) in *. clearbody r. split_and!; [done | lia | set_solver |].
      intros y [-> | Hy]%elem_of_cons; [lia | by apply H3].
  - destruct (IH b0 s0) as [[-> H] | (E & H1 & H2 & H3)]; [left | right].
    + split; [done |]. intros y [-> | Hy]%elem_of_cons; [lia | by apply H].
    + set (r := fold_left _ _ _) in *. clearbody r. split_and!; [done | done | set_solver |].
      intros y [-> | Hy]%elem_of_cons; [lia | by apply H3].
Qed.

Lemma seqZ_sorted m n : StronglySorted Z.lt (seqZ m n).
Proof.
  destruct (decide (0 <= n)); [| rewrite seqZ_nil by lia; constructor]. rewrite <- (Z2Nat.id n) by lia. generalize (Z.to_nat n). clear n l. intros n.
  revert m. induction n as [| n IH]; intros m; [constructor |].
  rewrite seqZ_cons by lia. constructor; [rewrite Nat2Z.inj_succ, Z.pred_succ; apply IH |]. apply Forall_forall. intros x Hx%elem_of_seqZ. lia.
Qed.

(** A counting loop goes as far as its condition holds. *)
Lemma countWhile_stops p n d : countWhile p n d = d + Z.of_nat n \/ p (countWhile p n d) = false.
Proof.
  revert d. induction n as [| n IH]; intros d; cbn [countWhile]; [left; lia |]. destruct (p d) eqn:E; [| by right]. destruct (IH (d + 1)); [left; lia | by right].
Qed.

(** ** Moving a difference *)

Section Move.
Context {l1 l2 : list Z}.

(** To the left over [d] elements that repeat those at its end. *)
Lemma gap_left i j s1 s2 f1 f2 d : gap l1 l2 i j s1 s2 -> 0 <= d <= s1 - i ->
  (forall x, 1 <= x <= d -> znth l1 (s1 - x) = znth l1 (f1 - x) /\ znth l2 (s2 - x) = znth l2 (f2 - x)) ->
  gap l1 l2 i j (s1 - d) (s2 - d) /\ gap l1 l2 (f1 - d) (f2 - d) f1 f2.
Proof.
  intros G Hd H. destruct (gap_split _ _ _ _ (s1 - d) G) as [G1 G2]; [lia |]. pose proof G as (? & ? & E).
  replace (s1 - d + (j - i)) with (s2 - d) in * by lia. split; [done |].
  split; [lia | split; [lia |]]. intros t Ht. destruct (H (f1 - t)) as [E1 E2]; [lia |].
  replace (f1 - (f1 - t)) with t in E1 by lia. rewrite <- E1, E by lia.
  replace (s1 - (f1 - t) + (j - i)) with (s2 - (f1 - t)) by lia. rewrite E2. f_equal; lia.
Qed.

(** To the right over [d] elements that repeat those at its start. *)
Lemma gap_right s1 s2 f1 f2 i' j' d : gap l1 l2 f1 f2 i' j' -> 0 <= d <= i' - f1 ->
  (forall x, 0 <= x < d -> znth l1 (s1 + x) = znth l1 (f1 + x) /\ znth l2 (s2 + x) = znth l2 (f2 + x)) ->
  gap l1 l2 s1 s2 (s1 + d) (s2 + d) /\ gap l1 l2 (f1 + d) (f2 + d) i' j'.
Proof.
  intros G Hd H. destruct (gap_split _ _ _ _ (f1 + d) G) as [G1 G2]; [lia |]. pose proof G as (? & ? & E).
  replace (f1 + d + (f2 - f1)) with (f2 + d) in * by lia. split; [| done].
  split; [lia | split; [lia |]]. intros t Ht. destruct (H (t - s1)) as [E1 E2]; [lia |].
  replace (s1 + (t - s1)) with t in E1 by lia. rewrite E1, E by lia.
  replace (f1 + (t - s1) + (f2 - f1)) with (f2 + (t - s1)) by lia. rewrite <- E2. f_equal; lia.
Qed.
End Move.

Lemma ofOffsets_wf a b c d : a <= b -> c <= d ->
  SequenceDiff.ofOffsets a b c d = Ret (SequenceDiff.mk (OffsetRange.mk a b) (OffsetRange.mk c d)).
Proof. intros. unfold SequenceDiff.ofOffsets. by rewrite !OffsetRange.offsetRange_new_wf by lia. Qed.

(** the difference moved by [o] *)
Definition moved (d : SequenceDiff.t) (o : Z) : SequenceDiff.t :=
  SequenceDiff.mk (OffsetRange.mk (start1 d + o) (end1 d + o)) (OffsetRange.mk (start2 d + o) (end2 d + o)).

Lemma delta_wf d o : start1 d <= end1 d -> start2 d <= end2 d -> SequenceDiff.delta d o = Ret (moved d o).
Proof.
  intros H1 H2. unfold SequenceDiff.delta, OffsetRange.delta, moved. destruct d as [[a b] [c e]]; unfold start1, end1, start2, end2 in *; cbn in *.
  destruct (o === 0) eqn:E; [apply Z.eqb_eq in E as ->; by rewrite !Z.add_0_r |]. by rewrite !OffsetRange.offsetRange_new_wf by lia.
Qed.

(** How many elements the differences remove and add. *)
Definition removed (ds : list SequenceDiff.t) : Z := zsum ((fun d => end1 d - start1 d) <$> ds).
Definition inserted (ds : list SequenceDiff.t) : Z := zsum ((fun d => end2 d - start2 d) <$> ds).

Lemma removed_cons d ds : removed (d :: ds) = end1 d - start1 d + removed ds.
Proof. done. Qed.

Lemma inserted_cons d ds : inserted (d :: ds) = end2 d - start2 d + inserted ds.
Proof. done. Qed.

(** What tidying up keeps: the promise, the number of elements changed; and there are not
    more differences than before. *)
Definition tidied (l1 l2 : list Z) (i j : Z) (ds ds' : list SequenceDiff.t) : Prop :=
  alignedFrom l1 l2 i j ds' /\ removed ds' = removed ds /\ inserted ds' = inserted ds /\ (length ds' <= length ds)%nat.

Lemma tidied_refl l1 l2 i j ds : alignedFrom l1 l2 i j ds -> tidied l1 l2 i j ds ds.
Proof. unfold tidied. intros. split_and!; (done || lia). Qed.

Lemma tidied_cons l1 l2 i j d ds ds' :
  gap l1 l2 i j (start1 d) (start2 d) -> start1 d <= end1 d -> start2 d <= end2 d -> tidied l1 l2 (end1 d) (end2 d) ds ds' ->
  tidied l1 l2 i j (d :: ds) (d :: ds').
Proof. unfold tidied. rewrite !removed_cons, !inserted_cons. cbn [alignedFrom length]. intros ? ? ? (? & ? & ? & ?). split_and!; (done || lia). Qed.

(** [tidied] looks only at the sums and the length of its first list. *)
Lemma tidied_weaken l1 l2 i j ds ds0 ds' : removed ds0 = removed ds -> inserted ds0 = inserted ds -> (length ds0 <= length ds)%nat ->
  tidied l1 l2 i j ds0 ds' -> tidied l1 l2 i j ds ds'.
Proof. unfold tidied. intros ? ? ? (? & ? & ? & ?). split_and!; (done || lia). Qed.

(** ** [joinSequenceDiffs] *)

Section Join.
Variables (sequence1 sequence2 : ISequence.t).
Notation l1 := (ISequence.elements sequence1).
Notation l2 := (ISequence.elements sequence2).
Notation aligned_ := (alignedFrom l1 l2).

Lemma leftShift_spec cur len : 0 <= len -> let d := leftShift sequence1 sequence2 cur len in
  0 <= d <= len /\
  forall x, 1 <= x <= d -> znth l1 (start1 cur - x) = znth l1 (end1 cur - x) /\ znth l2 (start2 cur - x) = znth l2 (end2 cur - x).
Proof.
  intros Hl. unfold leftShift. cbn. destruct (countWhile_spec (fun d =>
    ISequence.sameElement sequence1 (start1 cur - d) sequence1 (end1 cur - d) &&
    ISequence.sameElement sequence2 (start2 cur - d) sequence2 (end2 cur - d)) (Z.to_nat len) 1) as [H1 H2].
  split; [lia |]. intros x Hx. specialize (H2 x ltac:(lia)). apply andb_true_iff in H2 as [A B].
  by apply bool_decide_eq_true in A, B.
Qed.

Lemma rightShift_spec cur len : 0 <= len -> let d := rightShift sequence1 sequence2 cur len in
  0 <= d <= len /\
  forall x, 0 <= x < d -> znth l1 (start1 cur + x) = znth l1 (end1 cur + x) /\ znth l2 (start2 cur + x) = znth l2 (end2 cur + x).
Proof.
  intros Hl. unfold rightShift. cbn. destruct (countWhile_spec (fun d =>
    ISequence.sameElement sequence1 (start1 cur + d) sequence1 (end1 cur + d) &&
    ISequence.sameElement sequence2 (start2 cur + d) sequence2 (end2 cur + d)) (Z.to_nat len) 0) as [H1 H2].
  split; [lia |]. intros x Hx. specialize (H2 x ltac:(lia)). apply andb_true_iff in H2 as [A B].
  by apply bool_decide_eq_true in A, B.
Qed.

Lemma joinLeft_spec ds i j p : aligned_ i j (p :: ds) ->
  exists ds', joinLeft sequence1 sequence2 p ds = Ret ds' /\ tidied l1 l2 i j (p :: ds) ds'.
Proof.
  revert i j p. induction ds as [| cur ds IH]; intros i j p H; cbn [joinLeft].
  { exists [p]. split; [done |]. by apply tidied_refl. }
  destruct H as (G & P1 & P2 & Gc & C1 & C2 & A).
  destruct (oneSided cur).
  2: { destruct (IH (end1 p) (end2 p) cur) as (ds' & -> & T); [done |]. cbn [res_bind]. eexists. split; [done |]. by apply tidied_cons. }
  pose proof Gc as (Hlen & Heq & _).
  destruct (leftShift_spec cur (start1 cur - end1 p) ltac:(lia)) as [B S]. set (d := leftShift _ _ _ _) in *.
  destruct (gap_left _ _ _ _ _ _ d Gc B S) as [Ga Gb]. destruct (d === start1 cur - end1 p) eqn:E.
  - rewrite ofOffsets_wf by lia. cbn [res_bind]. set (m := SequenceDiff.mk _ _).
    assert (Em : d = start1 cur - end1 p) by lia.
    destruct (IH i j m) as (ds' & -> & T); [| eexists; split; [done |]].
    + split; [done |]. unfold m, start1, end1, start2, end2; cbn -[alignedFrom]. fold (start1 cur) (end1 cur) (end2 cur) (start1 p) (start2 p) (end1 p).
      do 2 (split; [lia |]). rewrite <- Em. by eapply alignedFrom_back.
    + eapply tidied_weaken, T; rewrite ?removed_cons, ?inserted_cons; [| | cbn; lia];
        unfold m, start1, end1, start2, end2; cbn; fold (start1 cur) (end1 cur) (start2 cur) (end2 cur) (start1 p) (start2 p) (end1 p) (end2 p); lia.
  - rewrite delta_wf by done. cbn [res_bind].
    destruct (IH (end1 p) (end2 p) (moved cur (- d))) as (ds' & -> & T).
    { unfold moved; cbn -[alignedFrom]. split; [exact Ga |]. do 2 (split; [cbn; lia |]). by eapply alignedFrom_back. }
    cbn [res_bind]. eexists. split; [done |]. apply tidied_cons; [done.. |].
    eapply tidied_weaken, T; rewrite ?removed_cons, ?inserted_cons; cbn; [lia | lia | done].
Qed.

Lemma joinRight_spec ds i j cur : aligned_ i j (cur :: ds) ->
  exists ds', joinRight sequence1 sequence2 cur ds = Ret ds' /\ tidied l1 l2 i j (cur :: ds) ds'.
Proof.
  revert i j cur. induction ds as [| next ds IH]; intros i j cur H; cbn [joinRight].
  { exists [cur]. split; [done |]. by apply tidied_refl. }
  destruct H as (G & C1 & C2 & Gn & N1 & N2 & A).
  destruct (oneSided cur).
  2: { destruct (IH (end1 cur) (end2 cur) next) as (ds' & -> & T); [done |]. cbn [res_bind]. eexists. split; [done |]. by apply tidied_cons. }
  pose proof Gn as (Hlen & Heq & _).
  destruct (rightShift_spec cur (start1 next - end1 cur) ltac:(lia)) as [B S]. set (d := rightShift _ _ _ _) in *.
  destruct (gap_right _ _ _ _ _ _ d Gn B S) as [Ga Gb]. pose proof (gap_trans _ _ _ _ _ _ G Ga) as Gi.
  destruct (d === start1 next - end1 cur) eqn:E.
  - rewrite ofOffsets_wf by lia. cbn [res_bind]. set (m := SequenceDiff.mk _ _).
    assert (Em : d = start1 next - end1 cur) by lia.
    destruct (IH i j m) as (ds' & -> & T); [| eexists; split; [done |]].
    + split; [unfold m, start1, start2; cbn; fold (start1 cur) (start2 cur) (start1 next); by rewrite <- Em |].
      unfold m, start1, end1, start2, end2; cbn -[alignedFrom]. fold (start1 cur) (end1 cur) (start2 cur) (start1 next) (end1 next) (end2 next).
      by do 2 (split; [lia |]).
    + eapply tidied_weaken, T; rewrite ?removed_cons, ?inserted_cons; [| | cbn; lia];
        unfold m, start1, end1, start2, end2; cbn; fold (start1 cur) (end1 cur) (start2 cur) (end2 cur) (start1 next) (start2 next) (end1 next) (end2 next); lia.
  - assert (Ed : (if 0 <? d then SequenceDiff.delta cur d else Ret cur) = Ret (moved cur d)).
    { destruct (0 <? d) eqn:?; [by apply delta_wf |]. rewrite <- (delta_wf cur d) by done. unfold SequenceDiff.delta. by destruct (d === 0) eqn:?; [| lia]. }
    rewrite Ed. cbn [res_bind].
    destruct (IH (end1 cur + d) (end2 cur + d) next) as (ds' & -> & T); [done |]. cbn [res_bind]. eexists. split; [done |].
    eapply tidied_weaken, (tidied_cons _ _ _ _ (moved cur d)), T; rewrite ?removed_cons, ?inserted_cons; cbn; try lia. exact Gi.
Qed.
End Join.

(** C16: On differences that turn one sequence into the other, [joinSequenceDiffs] returns
    differences that do so too; they remove and insert as many elements as before and there are
    not more of them. *)
Theorem join_keeps_diff sequence1 sequence2 ds :
  aligned (ISequence.elements sequence1) (ISequence.elements sequence2) ds ->
  exists ds', joinSequenceDiffs sequence1 sequence2 ds = Ret ds' /\
    aligned (ISequence.elements sequence1) (ISequence.elements sequence2) ds' /\
    removed ds' = removed ds /\ inserted ds' = inserted ds /\ (length ds' <= length ds)%nat.
Proof.
  intros H. destruct ds as [| p ds]; [by exists [] |]. unfold joinSequenceDiffs.
  destruct (joinLeft_spec sequence1 sequence2 ds 0 0 p H) as (dl & -> & Al & Rl & Il & Ll). cbn [res_bind].
  destruct dl as [| c dl]; [by exists [] |].
  destruct (joinRight_spec sequence1 sequence2 dl 0 0 c Al) as (dr & -> & Ar & Rr & Ir & Lr).
  exists dr. split_and!; (done || lia).
Qed.

(** [smoothenSequenceDiffs] *)
Lemma smoothen_keeps_diff l1 l2 ds : aligned l1 l2 ds -> exists ds', smoothenSequenceDiffs ds = Ret ds' /\ aligned l1 l2 ds'.
Proof.
  unfold smoothenSequenceDiffs, aligned. set (go := fix go last l := match l with [] => _ | _ => _ end).
  assert (G : forall ds last i j, alignedFrom l1 l2 i j (last :: ds) -> exists ds', go (Some last) ds = Ret ds' /\ alignedFrom l1 l2 i j ds').
  { clear ds. induction ds as [| s ds IH]; intros last i j H; [by exists [last] |]. cbn [go].
    destruct H as (G & L1 & L2 & Gs & S1 & S2 & A). pose proof Gs as (? & ? & _).
    destruct (_ || _).
    - unfold SequenceDiff.join, OffsetRange.join.
      fold (start1 s) (start2 s) (end1 s) (end2 s) (start1 last) (start2 last) (end1 last) (end2 last).
      rewrite (Z.min_l (start1 last)), (Z.min_l (start2 last)), (Z.max_r (end1 last)), (Z.max_r (end2 last)) by lia.
      rewrite !OffsetRange.offsetRange_new_wf by lia. cbn [res_bind]. apply IH.
      split; [done |]. unfold end1, end2, start1, start2; cbn -[alignedFrom]. fold (start1 last) (start2 last) (end1 s) (end2 s).
      by do 2 (split; [lia |]).
    - destruct (IH s (end1 last) (end2 last)) as (ds' & -> & A'); [done |]. cbn [res_bind]. eexists. by split. }
  destruct ds as [| d ds]; [by exists [] |]. intros H. apply (G _ _ _ _ H).
Qed.

(** ** [shiftSequenceDiffs] *)

(** What [isStronglyEqual] promises. *)
Definition strong (s : ISequence.t) : Prop :=
  forall a b, ISequence.isStronglyEqual s a b = true -> znth (ISequence.elements s) a = znth (ISequence.elements s) b.

(** An insertion moves inside of the gaps around it, where the valid ranges do not reach into
    the neighbours. *)
Lemma better_spec diff sequence1 sequence2 score1 score2 v1 v2 i j i' j' :
  strong sequence2 -> start1 diff = end1 diff -> start2 diff <= end2 diff ->
  gap (ISequence.elements sequence1) (ISequence.elements sequence2) i j (start1 diff) (start2 diff) ->
  gap (ISequence.elements sequence1) (ISequence.elements sequence2) (end1 diff) (end2 diff) i' j' ->
  i <= OffsetRange.start v1 \/ j <= OffsetRange.start v2 -> OffsetRange.endExclusive v1 <= i' \/ OffsetRange.endExclusive v2 <= j' ->
  exists o, shiftDiffToBetterPosition diff sequence1 sequence2 score1 score2 v1 v2 = Ret (moved diff o) /\
    gap (ISequence.elements sequence1) (ISequence.elements sequence2) i j (start1 diff + o) (start2 diff + o) /\
    gap (ISequence.elements sequence1) (ISequence.elements sequence2) (end1 diff + o) (end2 diff + o) i' j' /\
    (o <= 0 \/ end1 diff + o <= OffsetRange.endExclusive v1 /\ end2 diff + o <= OffsetRange.endExclusive v2).
Proof.
  intros St E1 W2 Ga Gb Hlo Hhi. pose proof Ga as (? & ? & _). pose proof Gb as (? & ? & _). unfold shiftDiffToBetterPosition.
  match goal with |- context [countWhile ?p ?n 1 - 1] => destruct (countWhile_spec p n 1) as [B1 B2]; set (before := countWhile p n 1) in * end.
  match goal with |- context [countWhile ?p ?n 0] => destruct (countWhile_spec p n 0) as [A1 A2]; set (after := countWhile p n 0) in * end.
  assert (R : exists o, shiftDiffToBetterPosition diff sequence1 sequence2 score1 score2 v1 v2 = Ret (moved diff o) /\ - (before - 1) <= o <= after).
  { unfold shiftDiffToBetterPosition. fold before after. destruct (_ && _) eqn:E.
    - exists 0. split; [| lia]. by rewrite <- (delta_wf diff 0) by lia.
    - match goal with |- context [fold_left (fun '(b, s) x => if s <? @?f x then _ else _) ?l _] => pose proof (best_in f l (0, -1)) as Hb end.
      cbn in Hb. destruct (fold_left _ _ _) as [o sc]. exists o. rewrite delta_wf by lia. split; [done |].
      cbn in Hb. destruct Hb as [-> | Hb]; [lia |]. apply elem_of_seqZ in Hb. lia. }
  destruct R as (o & Ro & Bo). exists o. unfold shiftDiffToBetterPosition in Ro. fold before after in Ro. split; [exact Ro |].
  assert (SB : forall x, 1 <= x < before -> i <= start1 diff - x /\ znth (ISequence.elements sequence2) (start2 diff - x) = znth (ISequence.elements sequence2) (end2 diff - x)).
  { intros x Hx. specialize (B2 x Hx). rewrite !andb_true_iff in B2. destruct B2 as [[[? ?] ?%St] ?]. split; [lia | done]. }
  assert (SA : forall x, 0 <= x < after -> end1 diff + x < OffsetRange.endExclusive v1 /\ end2 diff + x < OffsetRange.endExclusive v2 /\
    znth (ISequence.elements sequence2) (start2 diff + x) = znth (ISequence.elements sequence2) (end2 diff + x)).
  { intros x Hx. specialize (A2 x Hx). rewrite !andb_true_iff in A2. destruct A2 as [[[? ?] ?%St] ?]. split_and!; (done || lia). }
  clear A2 B2 Ro. clearbody before after. destruct (decide (o < 0)).
  - destruct (gap_left i j (start1 diff) (start2 diff) (end1 diff) (end2 diff) (- o) Ga) as [G1 G2].
    { destruct (SB (- o)); lia. }
    { intros x Hx. destruct (SB x); [lia |]. split; [f_equal; lia | done]. }
    rewrite !Z.sub_opp_r in *. split; [done |]. split; [by eapply gap_trans | left; lia].
  - destruct (gap_right (start1 diff) (start2 diff) (end1 diff) (end2 diff) i' j' o Gb) as [G1 G2].
    { destruct (decide (o = 0)); [lia |]. destruct (SA (o - 1)) as (? & ? & ?); lia. }
    { intros x Hx. destruct (SA x) as (? & ? & ?); [lia |]. split; [f_equal; lia | done]. }
    split; [by eapply gap_trans |]. split; [done |]. destruct (decide (o = 0)); [left; lia |]. destruct (SA (o - 1)) as (? & ? & ?); lia.
Qed.

Lemma alignedFrom_head_gap l1 l2 i j ds : alignedFrom l1 l2 i j ds ->
  gap l1 l2 i j (match head ds with Some n => start1 n | None => zlen l1 end) (match head ds with Some n => start2 n | None => zlen l2 end).
Proof. destruct ds; simpl; [done |]. by intros (? & ?). Qed.

(** A side of the difference has at most one element. *)
Definition narrow (d : SequenceDiff.t) : Prop := end1 d - start1 d <= 1 \/ end2 d - start2 d <= 1.

(** At least one element lies between neighbours. *)
Fixpoint apart (ds : list SequenceDiff.t) : Prop :=
  match ds with
  | d :: ds => match head ds with Some n => end1 d < start1 n | None => True end /\ apart ds
  | [] => True
  end.

(** The valid range before and behind. *)
Definition lowest (prev : option SequenceDiff.t) (start : SequenceDiff.t -> Z) : Z := match prev with Some p => start p + 1 | None => 0 end.
Definition prevEnd (prev : option SequenceDiff.t) (e : SequenceDiff.t -> Z) : Z := match prev with Some p => e p | None => 0 end.

Section Shift.
Variables (sequence1 sequence2 : ISequence.t) (score1 score2 : Z -> Z).
Notation l1 := (ISequence.elements sequence1).
Notation l2 := (ISequence.elements sequence2).
Hypotheses (strong1 : strong sequence1) (strong2 : strong sequence2).

(** One step of the loop: the difference moves between its neighbours. *)
Lemma shift_one diff v1 v2 i j i' j' :
  start1 diff <= end1 diff -> start2 diff <= end2 diff ->
  gap l1 l2 i j (start1 diff) (start2 diff) -> gap l1 l2 (end1 diff) (end2 diff) i' j' ->
  i <= OffsetRange.start v1 \/ j <= OffsetRange.start v2 -> OffsetRange.endExclusive v1 <= i' \/ OffsetRange.endExclusive v2 <= j' ->
  exists o,
    (if OffsetRange.isEmpty (SequenceDiff.seq1Range diff) then
       shiftDiffToBetterPosition diff sequence1 sequence2 score1 score2 v1 v2
     else if OffsetRange.isEmpty (SequenceDiff.seq2Range diff) then
       let* d := shiftDiffToBetterPosition (SequenceDiff.reverse diff) sequence2 sequence1 score2 score1 v2 v1 in Ret (SequenceDiff.reverse d)
     else Ret diff) = Ret (moved diff o) /\
    gap l1 l2 i j (start1 diff + o) (start2 diff + o) /\ gap l1 l2 (end1 diff + o) (end2 diff + o) i' j' /\
    (o <= 0 \/ end1 diff + o <= OffsetRange.endExclusive v1 /\ end2 diff + o <= OffsetRange.endExclusive v2).
Proof.
  intros W1 W2 Ga Gb Hlo Hhi. unfold OffsetRange.isEmpty. fold (start1 diff) (end1 diff) (start2 diff) (end2 diff).
  destruct (start1 diff === end1 diff) eqn:E1; [apply better_spec; (done || lia) |].
  destruct (start2 diff === end2 diff) eqn:E2.
  - destruct (better_spec (SequenceDiff.reverse diff) sequence2 sequence1 score2 score1 v2 v1 j i j' i') as (o & -> & H1 & H2 & H3);
      [done | by apply Z.eqb_eq in E2 | exact W1 | by apply gap_swap | by apply gap_swap | tauto | tauto |].
    exists o. cbn [res_bind]. split; [done |]. cbn in H3. split; [by apply gap_swap | split; [by apply gap_swap | tauto]].
  - exists 0. rewrite !Z.add_0_r. split_and!; try done; [| by left]. by rewrite <- (delta_wf diff 0) by done.
Qed.

Lemma shiftAll_spec ds prev :
  alignedFrom l1 l2 (prevEnd prev end1) (prevEnd prev end2) ds -> Forall narrow ds -> apart ds ->
  match prev with Some p => narrow p /\ start1 p <= end1 p /\ start2 p <= end2 p | None => True end ->
  match head ds with Some d => lowest prev start1 <= end1 d /\ lowest prev start2 <= end2 d | None => True end ->
  exists ds', shiftAll sequence1 sequence2 score1 score2 prev ds = Ret ds' /\ alignedFrom l1 l2 (prevEnd prev end1) (prevEnd prev end2) ds'.
Proof.
  revert prev. induction ds as [| d ds IH]; intros prev A N P Hp Hs; cbn [shiftAll]; [by exists [] |].
  cbn [head] in Hs. destruct Hs as [Hs1 Hs2]. destruct A as (Ga & W1 & W2 & A). inversion_clear N as [| ? ? Nd Nds].
  pose proof (alignedFrom_head_gap _ _ _ _ _ A) as Gb. pose proof (alignedFrom_bounds _ _ _ A) as [Z1 Z2].
  cbn in P. destruct P as [Pd P].
  fold (lowest prev start1). fold (lowest prev start2).
  set (hi1 := match head ds with Some n => end1 n - 1 | None => ISequence.length sequence1 end).
  set (hi2 := match head ds with Some n => end2 n - 1 | None => ISequence.length sequence2 end).
  assert (Hhi : end1 d <= hi1 /\ end2 d <= hi2).
  { pose proof Gb as (? & ? & _). unfold hi1, hi2. destruct ds as [| n ds]; cbn in *; [done |]. destruct A as (_ & ? & ? & _). lia. }
  rewrite !OffsetRange.offsetRange_new_wf by lia. cbn [res_bind].
  destruct (shift_one d (OffsetRange.mk (lowest prev start1) hi1) (OffsetRange.mk (lowest prev start2) hi2) _ _ _ _ W1 W2 Ga Gb)
    as (o & -> & G1 & G2 & G3); cbn [OffsetRange.start OffsetRange.endExclusive].
  { destruct prev as [p |]; cbn; [| by left]. destruct Hp as ([?|?] & ? & ?); [left | right]; lia. }
  { unfold hi1, hi2. destruct ds as [| n ds]; cbn; [by left |]. inversion_clear Nds as [| ? ? [?|?] _]; [left | right]; lia. }
  cbn [res_bind]. destruct (IH (Some (moved d o))) as (ds' & -> & A'); [| done | done | | |].
  - cbn. destruct ds as [| n ds]; cbn in *; [done |]. by destruct A as (_ & ?).
  - cbn. split; [| lia]. destruct Nd; [left | right]; cbn; lia.
  - cbn. cbn in G3. unfold hi1, hi2 in *. destruct ds as [| n ds]; cbn in *; [done |].
    pose proof Gb as (? & ? & _). destruct A as (_ & ? & ? & _). lia.
  - cbn [res_bind]. eexists. split; [done |]. split; [exact G1 |]. by do 2 (split; [cbn; lia |]).
Qed.
End Shift.

(** C32: [shiftSequenceDiffs] keeps differences that turn one sequence into the other, if
    strongly equal elements are equal, neighbours do not touch, and every difference has a side
    with at most one element. *)
Theorem shift_keeps_diff sequence1 sequence2 ds :
  strong sequence1 -> strong sequence2 -> apart ds -> Forall narrow ds ->
  aligned (ISequence.elements sequence1) (ISequence.elements sequence2) ds ->
  exists ds', shiftSequenceDiffs sequence1 sequence2 ds = Ret ds' /\
    aligned (ISequence.elements sequence1) (ISequence.elements sequence2) ds'.
Proof.
  intros S1 S2 P N A. unfold shiftSequenceDiffs.
  destruct (ISequence.getBoundaryScore sequence1) as [sc1 |]; [| by exists ds].
  destruct (ISequence.getBoundaryScore sequence2) as [sc2 |]; [| by exists ds].
  destruct (shiftAll_spec sequence1 sequence2 sc1 sc2 S1 S2 ds None) as (ds' & -> & A'); try done; [| by exists ds'].
  destruct ds as [| d ds]; [done |]. cbn. destruct A as ((? & ? & ?) & ? & ? & ?). lia.
Qed.

(** ** Where an insertion goes *)

Section Best.
Variables (diff : SequenceDiff.t) (sequence1 sequence2 : ISequence.t) (score1 score2 : Z -> Z) (v1 v2 : OffsetRange.t).

(** The insertion may move by [o]: it stays inside of the valid ranges, every element it
    passes is strongly equal to the one that takes its place, and [o] is within the limit. *)
Definition reaches (o : Z) : Prop :=
  -100 < o <= 100 /\
  (forall x, 1 <= x <= - o -> OffsetRange.start v1 <= start1 diff - x /\ OffsetRange.start v2 <= start2 diff - x /\
     ISequence.isStronglyEqual sequence2 (start2 diff - x) (end2 diff - x) = true) /\
  (forall x, 0 <= x < o -> start1 diff + x < OffsetRange.endExclusive v1 /\ end2 diff + x < OffsetRange.endExclusive v2 /\
     ISequence.isStronglyEqual sequence2 (start2 diff + x) (end2 diff + x) = true).

(** The score of a position: of the boundary in the first sequence, and of both ends in the
    second. *)
Definition scoreAt (o : Z) : Z := score1 (start1 diff + o) + score2 (start2 diff + o) + score2 (end2 diff + o).

(** The better position: the first of those with the best score, unless all are negative. *)
Definition best (o : Z) : Prop :=
  reaches o /\
  ((exists o', reaches o' /\ 0 <= scoreAt o') -> forall o', reaches o' -> scoreAt o' <= scoreAt o /\ (o' < o -> scoreAt o' < scoreAt o)) /\
  ((forall o', reaches o' -> scoreAt o' < 0) -> o = 0).

(** The two loops find how far the insertion reaches. *)
Lemma reaches_counted o :
  let before := countWhile (fun deltaBefore =>
    (OffsetRange.start v1 <=? start1 diff - deltaBefore) && (OffsetRange.start v2 <=? start2 diff - deltaBefore) &&
    ISequence.isStronglyEqual sequence2 (start2 diff - deltaBefore) (end2 diff - deltaBefore) && (deltaBefore <? 100)) (Z.to_nat 100) 1 - 1 in
  let after := countWhile (fun deltaAfter =>
    (start1 diff + deltaAfter <? OffsetRange.endExclusive v1) && (end2 diff + deltaAfter <? OffsetRange.endExclusive v2) &&
    ISequence.isStronglyEqual sequence2 (start2 diff + deltaAfter) (end2 diff + deltaAfter) && (deltaAfter <? 100)) (Z.to_nat 100) 0 in
  reaches o <-> - before <= o <= after.
Proof.
  intros before after. subst before after.
  match goal with |- context [countWhile ?p ?n 1 - 1] => destruct (countWhile_spec p n 1) as [B1 B2]; pose proof (countWhile_stops p n 1) as B3; set (before := countWhile p n 1) in * end.
  match goal with |- context [countWhile ?p ?n 0] => destruct (countWhile_spec p n 0) as [A1 A2]; pose proof (countWhile_stops p n 0) as A3; set (after := countWhile p n 0) in * end.
  clearbody before after. split.
  - intros (H1 & H2 & H3). split.
    + destruct B3 as [? | B3]; [lia |]. destruct (decide (before <= - o)); [| lia]. destruct (H2 before ltac:(lia)) as (? & ? & H). rewrite H in B3. lia.
    + destruct A3 as [? | A3]; [lia |]. destruct (decide (after < o)); [| lia]. destruct (H3 after ltac:(lia)) as (? & ? & H). rewrite H in A3. lia.
  - intros [H1 H2]. split_and!.
    + destruct (decide (o < 0)); [| lia]. specialize (B2 (- o) ltac:(lia)). lia.
    + lia.
    + intros x Hx. specialize (B2 x ltac:(lia)). rewrite !andb_true_iff in B2. split_and!; [lia | lia | tauto].
    + intros x Hx. specialize (A2 x ltac:(lia)). rewrite !andb_true_iff in A2. split_and!; [lia | lia | tauto].
Qed.

Lemma better_best : start1 diff <= end1 diff -> start2 diff <= end2 diff ->
  exists o, shiftDiffToBetterPosition diff sequence1 sequence2 score1 score2 v1 v2 = Ret (moved diff o) /\ best o.
Proof.
  intros W1 W2. pose proof reaches_counted as R. cbv zeta in R. unfold shiftDiffToBetterPosition.
  match goal with |- context [countWhile ?p ?n 1 - 1] => destruct (countWhile_spec p n 1) as [B1 _]; set (before := countWhile p n 1) in * end.
  match goal with |- context [countWhile ?p ?n 0] => destruct (countWhile_spec p n 0) as [A1 _]; set (after := countWhile p n 0) in * end.
  clearbody before after. unfold best. setoid_rewrite R. destruct (_ && _) eqn:E.
  - exists 0. split; [by rewrite <- (delta_wf diff 0) by done |]. split; [lia |]. split; [| done].
    intros _ o' ?. assert (o' = 0) as -> by lia. lia.
  - pose proof (best_first scoreAt (seqZ (- (before - 1)) (before - 1 + after + 1)) 0 (-1) (seqZ_sorted _ _)) as Hb. cbv zeta in Hb.
    change (fold_left _ _ _) with (fold_left (fun '(b, s) x => if s <? scoreAt x then (x, scoreAt x) else (b, s)) (seqZ (- (before - 1)) (before - 1 + after + 1)) (0, -1)).
    destruct (fold_left _ _ _) as [o sc]. exists o. rewrite delta_wf by done. split; [done |]. cbn [fst snd] in Hb.
    destruct Hb as [[[= -> ->] H] | (Es & Hs & Ho & H)].
    + assert (forall o', - (before - 1) <= o' <= after -> scoreAt o' < 0) as Hn. { intros o' ?. specialize (H o' ltac:(apply elem_of_seqZ; lia)). lia. }
      split; [lia |]. split; [| done]. intros (o' & Ho' & ?). specialize (Hn o' Ho'). lia.
    + apply elem_of_seqZ in Ho. split; [lia |]. split; [intros _ o' ?; apply H, elem_of_seqZ; lia |]. intros Hn. specialize (Hn o ltac:(lia)). lia.
Qed.
End Best.

(** C36: [shiftDiffToBetterPosition] puts an insertion where its score is best.  Of all the
    offsets by which the insertion can move (inside of the valid ranges, over elements that
    are strongly equal to the ones that take their place, by less than 100 to the left and by
    at most 100 to the right) it takes the one with the greatest sum of boundary scores, and
    the leftmost of those with the same sum; when every sum is negative, it leaves the
    insertion where it is.  It never throws an error. *)
Theorem shift_takes_best diff sequence1 sequence2 score1 score2 v1 v2 :
  start1 diff = end1 diff -> start2 diff <= end2 diff ->
  let can o := reaches diff sequence2 v1 v2 o in let score o := scoreAt diff score1 score2 o in
  exists o, shiftDiffToBetterPosition diff sequence1 sequence2 score1 score2 v1 v2 = Ret (moved diff o) /\ can o /\
    ((exists o', can o' /\ 0 <= score o') -> forall o', can o' -> score o' <= score o /\ (o' < o -> score o' < score o)) /\
    ((forall o', can o' -> score o' < 0) -> o = 0).
Proof. intros E1 W2. exact (better_best diff sequence1 sequence2 score1 score2 v1 v2 ltac:(lia) W2). Qed.

(** C39: [shiftSequenceDiffs] can move a difference into the one before it.  The valid ranges
    begin one behind the start of the difference before, not at its end.  So, where every
    boundary has the same score, an insertion that follows a replacement and can move over
    [n] elements, with fewer than [n] between the two but more than [n] from the start of the
    replacement on, ends up overlapping the replacement: the differences turned one sequence
    into the other before, and do not afterwards. *)
Theorem shift_overlaps sequence1 sequence2 c d1 d2 n :
  ISequence.getBoundaryScore sequence1 = Some (fun _ => c) -> ISequence.getBoundaryScore sequence2 = Some (fun _ => c) -> 0 <= c ->
  aligned (ISequence.elements sequence1) (ISequence.elements sequence2) [d1; d2] ->
  start1 d1 < end1 d1 -> start2 d1 < end2 d1 -> start1 d2 = end1 d2 ->
  (forall x, 1 <= x <= n -> ISequence.isStronglyEqual sequence2 (start2 d2 - x) (end2 d2 - x) = true) ->
  start1 d2 - end1 d1 < n < 100 -> start1 d1 + n < start1 d2 -> start2 d1 + n < start2 d2 ->
  exists d2', shiftSequenceDiffs sequence1 sequence2 [d1; d2] = Ret [d1; d2'] /\
    start1 d2' < end1 d1 /\ ~ aligned (ISequence.elements sequence1) (ISequence.elements sequence2) [d1; d2'].
Proof.
  intros S1 S2 Hc Hal A1 A2 I1 Hrun [Hgap Hn] R1 R2. destruct Hal as ((? & ? & _) & _ & _ & (? & ? & _) & _ & ? & (? & ? & _)).
  unfold shiftSequenceDiffs. rewrite S1, S2. cbn [shiftAll head]. unfold ISequence.length in *.
  rewrite !OffsetRange.offsetRange_new_wf by lia. cbn [res_bind]. unfold OffsetRange.isEmpty. fold (start1 d1) (end1 d1) (start2 d1) (end2 d1).
  rewrite (proj2 (Z.eqb_neq (start1 d1) _)), (proj2 (Z.eqb_neq (start2 d1) _)) by lia. cbn [res_bind].
  rewrite !OffsetRange.offsetRange_new_wf by lia. cbn [res_bind]. fold (start1 d2) (end1 d2). rewrite (proj2 (Z.eqb_eq (start1 d2) _)) by lia.
  set (v1 := OffsetRange.mk _ (zlen (ISequence.elements sequence1))). set (v2 := OffsetRange.mk _ _).
  destruct (better_best d2 sequence1 sequence2 (fun _ => c) (fun _ => c) v1 v2) as (o & -> & Ho & Hbest & _); [lia | lia |].
  cbn [res_bind]. eexists. split; [reflexivity |].
  assert (reaches d2 sequence2 v1 v2 (- n)) as Hr.
  { split_and!; [lia | lia | |]; intros x Hx; [cbn; split_and!; [lia | lia | apply Hrun; lia] | lia]. }
  assert (o <= - n). { destruct (Hbest ltac:(exists (- n); split; [exact Hr | unfold scoreAt; lia]) (- n) Hr) as [_ Hlt]. unfold scoreAt in Hlt. lia. }
  assert (start1 (moved d2 o) < end1 d1) by (cbn; lia). split; [done |]. intros (_ & _ & _ & (? & _) & _). lia.
Qed.

(** ** Examples *)

(** A sequence with the same score at every offset, and equality for strong equality. *)
Definition plain (l : list Z) : ISequence.t := ISequence.mk l (Some (fun _ => 0)) (fun a b => bool_decide (znth l a = znth l b)).

Lemma plain_strong l : strong (plain l).
Proof. intros a b H. by apply bool_decide_eq_true in H. Qed.

Definition diffOf (a b c d : Z) : SequenceDiff.t := SequenceDiff.mk (OffsetRange.mk a b) (OffsetRange.mk c d).

(** The two differences of [a b c] and [x a b b c] next to each other are joined. *)
Lemma join_keeps_diff_witness : exists ds',
  joinSequenceDiffs (plain [1; 2; 3]) (plain [9; 1; 2; 2; 2; 3]) [diffOf 0 0 0 1; diffOf 1 1 2 3; diffOf 2 2 4 5] = Ret ds' /\
  aligned [1; 2; 3] [9; 1; 2; 2; 2; 3] ds' /\ (length ds' <= 3)%nat /\ length ds' = 2%nat.
Proof.
  destruct (join_keeps_diff (plain [1; 2; 3]) (plain [9; 1; 2; 2; 2; 3]) [diffOf 0 0 0 1; diffOf 1 1 2 3; diffOf 2 2 4 5]) as (ds' & E & A & _ & _ & L).
  { by apply (bool_decide_unpack _). }
  exists ds'. split; [exact E |]. split; [exact A |]. split; [exact L |]. vm_compute in E. injection E as <-. reflexivity.
Defined.

Lemma shift_keeps_diff_witness : exists ds',
  shiftSequenceDiffs (plain [1; 1; 1]) (plain [1; 1; 1; 1]) [diffOf 3 3 3 4] = Ret ds' /\
  aligned [1; 1; 1] [1; 1; 1; 1] ds' /\ ds' = [diffOf 0 0 0 1].
Proof.
  destruct (shift_keeps_diff (plain [1; 1; 1]) (plain [1; 1; 1; 1]) [diffOf 3 3 3 4]) as (ds' & E & A).
  - apply plain_strong.
  - apply plain_strong.
  - done.
  - constructor; [left; cbn; lia | constructor].
  - by apply (bool_decide_unpack _).
  - exists ds'. split; [exact E |]. split; [exact A |]. vm_compute in E. injection E as <-. reflexivity.
Defined.

(** [1 2] inserted behind [1 2], with the same score everywhere: it goes to the front. *)
Lemma shift_takes_best_witness : exists o,
  shiftDiffToBetterPosition (diffOf 2 2 2 4) (plain [1; 2]) (plain [1; 2; 1; 2]) (fun _ => 0) (fun _ => 0) (OffsetRange.mk 0 2) (OffsetRange.mk 0 4) =
    Ret (moved (diffOf 2 2 2 4) o) /\ reaches (diffOf 2 2 2 4) (plain [1; 2; 1; 2]) (OffsetRange.mk 0 2) (OffsetRange.mk 0 4) o /\ o = -2.
Proof.
  destruct (shift_takes_best (diffOf 2 2 2 4) (plain [1; 2]) (plain [1; 2; 1; 2]) (fun _ => 0) (fun _ => 0) (OffsetRange.mk 0 2) (OffsetRange.mk 0 4)) as (o & E & R & _);
    [reflexivity | cbn; lia |].
  exists o. split; [exact E |]. split; [exact R |].
  assert (Ret (diffOf 0 0 0 2) = Ret (moved (diffOf 2 2 2 4) o)) as F by (rewrite <- E; reflexivity). injection F. cbn. intros. lia.
Defined.

(** [2 2 1 1] and [0 0 1 0 1 1]: the first two elements are replaced, and [0 1] is inserted. *)
Lemma shift_overlaps_witness : exists d2',
  shiftSequenceDiffs (plain [2; 2; 1; 1]) (plain [0; 0; 1; 0; 1; 1]) [diffOf 0 2 0 2; diffOf 3 3 3 5] = Ret [diffOf 0 2 0 2; d2'] /\
  start1 d2' < 2 /\ ~ aligned [2; 2; 1; 1] [0; 0; 1; 0; 1; 1] [diffOf 0 2 0 2; d2'].
Proof.
  apply (shift_overlaps (plain [2; 2; 1; 1]) (plain [0; 0; 1; 0; 1; 1]) 0 (diffOf 0 2 0 2) (diffOf 3 3 3 5) 2); try (cbn; lia); [reflexivity | reflexivity | by apply (bool_decide_unpack _) |].
  intros x Hx. assert (x = 1 \/ x = 2) as [-> | ->] by lia; reflexivity.
Defined.

(** [optimizeSequenceDiffs] does not always keep differences that turn one sequence into
    the other: on the differences the algorithm of Myers finds for [2 2 1 1] and [0 0 1 0 1 1],
    with the same score everywhere, it returns differences that overlap. *)
Example optimize_overlaps : exists r ds,
  MyersDiffAlgorithm.compute (plain [2; 2; 1; 1]) (plain [0; 0; 1; 0; 1; 1]) InfiniteTimeout = Ret r /\
  patch [2; 2; 1; 1] [0; 0; 1; 0; 1; 1] (DiffAlgorithmResult.diffs r) = [0; 0; 1; 0; 1; 1] /\
  optimizeSequenceDiffs (plain [2; 2; 1; 1]) (plain [0; 0; 1; 0; 1; 1]) (DiffAlgorithmResult.diffs r) = Ret ds /\
  (exists d1 d2, ds = [d1; d2] /\ start1 d2 < end1 d1 /\ start2 d2 < end2 d1) /\
  ~ aligned [2; 2; 1; 1] [0; 0; 1; 0; 1; 1] ds.
Proof.
  exists (DiffAlgorithmResult.mk [diffOf 0 2 0 2; diffOf 3 3 3 4; diffOf 4 4 5 6] false), [diffOf 0 2 0 2; diffOf 1 1 1 3].
  split; [by vm_compute |]. split; [by vm_compute |]. split; [by vm_compute |]. split.
  - exists (diffOf 0 2 0 2), (diffOf 1 1 1 3). by split.
  - unfold aligned; cbn. unfold start1, start2, end1, end2; cbn. intros (_ & _ & _ & (? & _) & _). lia.
Qed.
