(* ===== verification/MyersSteps.v ===== *)
(** * The algorithm of Myers, one round

    What the body of the loop over the diagonals does: arrays that grow, a snake, one
    diagonal, and one round over the diagonals. *)

From stdpp Require Import gmap.
From S2P Require Import Prelude Intervals OffsetRange Diff DiffAligned.

(** ** The growing arrays *)

Module FastInt32ArrayFacts.
Import FastInt32Array.

(** a value after the array may have grown *)
Definition upd (o o' : option Z) : Prop := o' = o \/ o = None /\ o' = Some 0.

Lemma upd_refl o : upd o o.
Proof. by left. Qed.

Lemma upd_trans o o' o'' : upd o o' -> upd o' o'' -> upd o o''.
Proof. intros [-> | [-> ->]] [-> | [? ->]]; (by left) || (by right) || done. Qed.

Lemma upd_Some x o : upd (Some x) o -> o = Some x.
Proof. by intros [-> | [? ?]]. Qed.

Lemma store_spec arr idx o : 0 <= idx < 2 * zlen arr ->
  zlen arr <= zlen (store arr idx o) /\ idx < zlen (store arr idx o) /\ znth (store arr idx o) idx = Some (int32 (default 0 o)) /\
  forall i, i <> idx -> upd (znth arr i) (znth (store arr idx o) i).
Proof.
  intros H. unfold store, ta_write. destruct (idx <? 0) eqn:?; [lia |].
  set (arr' := if zlen arr <=? idx then _ else _).
  assert (L : zlen arr <= zlen arr' /\ idx < zlen arr').
  { unfold arr'. destruct (zlen arr <=? idx) eqn:?; [| lia]. rewrite zlen_app. unfold zlen in *. rewrite length_replicate. lia. }
  assert (G : forall i, upd (znth arr i) (znth arr' i)).
  { intros i. unfold arr'. destruct (zlen arr <=? idx) eqn:?; [| by left]. unfold znth. destruct (i <? 0) eqn:?; [by left |].
    destruct (decide (Z.to_nat i < length arr)%nat); [left; by rewrite lookup_app_l |].
    rewrite (lookup_ge_None_2 arr) by lia. rewrite lookup_app_r by lia.
    destruct (replicate _ _ !! _) eqn:E; [| by left]. apply lookup_replicate in E as [-> _]. by right. }
  clearbody arr'. unfold zlen, znth in *. rewrite length_insert. split_and!; [lia.. | |].
  - destruct (idx <? 0); [done |]. rewrite list_lookup_insert_eq by lia. done.
  - intros i Hi. specialize (G i). destruct (i <? 0) eqn:?; [done |]. rewrite list_lookup_insert_ne by lia. done.
Qed.

Definition plen (v : t) : Z := zlen (positiveArr v).
Definition nlen (v : t) : Z := zlen (negativeArr v).

(** An index that can be stored at. *)
Definition storable (v : t) (k : Z) : Prop := k < 2 * plen v /\ - k - 1 < 2 * nlen v.

Lemma get_defined v k : k < plen v -> - k <= nlen v -> is_Some (get v k).
Proof. intros. unfold get, plen, nlen in *. destruct (k <? 0) eqn:?; apply znth_is_Some; lia. Qed.

Lemma get_None v k : get v k = None -> plen v <= k \/ nlen v < - k.
Proof.
  intros H. destruct (decide (k < plen v)); [| by left; lia]. destruct (decide (- k <= nlen v)); [| right; lia].
  destruct (get_defined v k) as [x Hx]; [done.. |]. congruence.
Qed.

Lemma get_Some v k x : get v k = Some x -> k < plen v /\ - k <= nlen v.
Proof.
  unfold get, plen, nlen. intros H. pose proof (zlen_nonneg (positiveArr v)). pose proof (zlen_nonneg (negativeArr v)).
  destruct (k <? 0) eqn:?; apply znth_Some in H; lia.
Qed.

Lemma int32_set_spec v k o : storable v k ->
  get (set v k o) k = Some (int32 (default 0 o)) /\ (forall j, j <> k -> upd (get v j) (get (set v k o) j)) /\
  plen v <= plen (set v k o) /\ nlen v <= nlen (set v k o) /\ k < plen (set v k o) /\ - k <= nlen (set v k o).
Proof.
  intros [H1 H2]. unfold set, get, plen, nlen in *. pose proof (zlen_nonneg (positiveArr v)). pose proof (zlen_nonneg (negativeArr v)).
  destruct (k <? 0) eqn:?; simpl.
  - destruct (store_spec (negativeArr v) (- k - 1) o) as (L1 & L2 & G1 & G2); [lia |].
    split_and!; [done | | lia..]. intros j Hj. destruct (j <? 0) eqn:?; [apply G2; lia | by left].
  - destruct (store_spec (positiveArr v) k o) as (L1 & L2 & G1 & G2); [lia |].
    split_and!; [done | | lia..]. intros j Hj. destruct (j <? 0) eqn:?; [by left | by apply G2].
Qed.
End FastInt32ArrayFacts.
Import FastInt32ArrayFacts.

Lemma paths_get_set p k x j : FastArrayNegativeIndices.get (FastArrayNegativeIndices.set p k x) j =
  if decide (j = k) then x else FastArrayNegativeIndices.get p j.
Proof.
  unfold FastArrayNegativeIndices.get, FastArrayNegativeIndices.set.
  destruct (k <? 0) eqn:?, (j <? 0) eqn:?; simpl; case_decide; subst; try lia; try done.
  - by rewrite lookup_insert_eq.
  - rewrite lookup_insert_ne by lia. done.
  - by rewrite lookup_insert_eq.
  - rewrite lookup_insert_ne by lia. done.
Qed.

(** ** Diagonals *)

Module Myers := MyersDiffAlgorithm.

Section Steps.
Variables (seq1 seq2 : ISequence.t).
Notation l1 := (ISequence.elements seq1).
Notation l2 := (ISequence.elements seq2).
Notation n1 := (ISequence.length seq1).
Notation n2 := (ISequence.length seq2).
Hypothesis n1_int32 : n1 < 2 ^ 31.

(** The state of the loops, and what it holds for a diagonal. *)
Definition state : Type := Myers.V.t * Myers.Paths.t.
Definition val (s : state) (k : Z) : option Z := Myers.V.get (fst s) k.
Definition path (s : state) (k : Z) : SnakePath := Myers.Paths.get (snd s) k.

(** A snake stops in the grid; left of it there is none. *)
Lemma snake_spec fuel x y : 0 <= x <= n1 -> y <= n2 -> n1 - x <= Z.of_nat fuel ->
  exists x', Myers.snake seq1 seq2 fuel x y = Ret x' /\ x <= x' <= n1 /\ y + (x' - x) <= n2 /\ (y < 0 -> x' = x) /\
    gap l1 l2 x y x' (y + (x' - x)).
Proof.
  revert x y. induction fuel as [| fuel IH]; intros x y Hx Hy Hf; cbn [Myers.snake];
    destruct (_ && _) eqn:E; [lia | | |].
  1, 3: exists x; split_and!; try (done || lia); by replace (y + (x - x)) with y by lia; apply gap_refl.
  apply andb_true_iff in E as [E1 E2]. apply bool_decide_eq_true in E2.
  destruct (IH (x + 1) (y + 1)) as (x' & -> & B1 & B2 & B3 & G); [lia.. |].
  assert (0 <= y). { destruct (decide (0 <= y)); [done |]. unfold ISequence.getElement in E2.
    destruct (znth_is_Some l1 x) as [z Hz]; [unfold ISequence.length in *; lia |].
    rewrite Hz in E2. symmetry in E2. apply znth_Some in E2. lia. }
  exists x'. split_and!; try (done || lia). replace (y + (x' - x)) with (y + 1 + (x' - (x + 1))) by lia.
  eapply gap_trans; [by apply gap_one | done].
Qed.

(** What a diagonal holds afterwards, from the values of its neighbours: [t] and [tp] of
    the one above, [l] and [lp] of the one to the left. *)
Definition outcome (k : Z) (t l : option Z) (tp lp : SnakePath) (ov : option Z) (op : SnakePath) (nv : option Z) (np : SnakePath) : Prop :=
  match t, l with
  | Some a, Some b =>
      let x := Z.min (Z.max a b) n1 in
      let last := if x === a then tp else lp in
      n2 < x - k /\ nv = ov /\ np = op \/
      x - k <= n2 /\ exists x', nv = Some x' /\ x <= x' <= n1 /\ x' - k <= n2 /\ (x < k -> x' = x) /\
        gap l1 l2 x (x - k) x' (x' - k) /\ np = (if x' === x then last else Snake last (Some x) (Some (x - k)) (Some (x' - x)))
  | _, _ => nv = Some 0
  end.

(** The entries other than that of [k] stay, up to the growth of the array. *)
Definition frame (s s' : state) (j : Z) : Prop := upd (val s j) (val s' j) /\ path s' j = path s j.

Definition top (u : Z) (s : state) (k : Z) : option Z := if k === u then Some (-1) else val s (k + 1).
Definition left (l : Z) (s : state) (k : Z) : option Z := if k === l then Some (-1) else (Z.add 1) <$> val s (k - 1).

Definition in_grid (s : state) (k : Z) : Prop := forall x, val s k = Some x -> 0 <= x <= n1.

(** The state after the two stores. *)
Definition stored (s : state) (k : Z) (o : option Z) (q : SnakePath) : state := (Myers.V.set (fst s) k o, Myers.Paths.set (snd s) k q).

Lemma stored_spec s k o q : storable (fst s) k -> let s' := stored s k o q in
  val s' k = Some (int32 (default 0 o)) /\ path s' k = q /\ (forall j, j <> k -> frame s s' j) /\
  plen (fst s) <= plen (fst s') /\ nlen (fst s) <= nlen (fst s') /\ k < plen (fst s') /\ - k <= nlen (fst s').
Proof.
  intros H. destruct (int32_set_spec (fst s) k o H) as (G1 & G2 & P). unfold frame, val, path, stored; cbn.
  split; [done |]. split; [by rewrite paths_get_set, decide_True |]. split; [| done].
  intros j Hj. split; [by apply G2 |]. by rewrite paths_get_set, decide_False.
Qed.

(** The test for the end of both sequences. *)
Lemma at_end s k o q x : val (stored s k o q) k = Some x -> let v := Myers.V.set (fst s) k o in
  let b := Myers.num_eqb (Myers.V.get v k) (Some n1) && Myers.num_eqb (Myers.op2 Z.sub (Myers.V.get v k) (Some k)) (Some n2) in
  (b = true -> val (stored s k o q) k = Some n1 /\ n1 - k = n2) /\ (val (stored s k o q) k = Some n1 /\ n1 - k = n2 -> b = true).
Proof.
  intros H v b. rewrite H. unfold b. unfold val, stored in H; cbn in H. fold v in H. rewrite H. cbn. rewrite andb_true_iff, !Z.eqb_eq.
  split; [intros [-> ?]; by split | intros [[= ->] ?]; by split].
Qed.

(** The diagonal is passed over, its value would lie below the grid. *)
Definition skipped (k : Z) (t l : option Z) : Prop :=
  match t, l with Some a, Some b => n2 < Z.min (Z.max a b) n1 - k | _, _ => False end.

(** What a diagonal leaves: the state and whether the loop ends. *)
Definition stepped (lo up k : Z) (s s' : state) (b : bool) : Prop :=
  outcome k (top up s k) (left lo s k) (path s (k + 1)) (path s (k - 1)) (val s k) (path s k) (val s' k) (path s' k) /\
  (forall j, j <> k -> frame s s' j) /\ plen (fst s) <= plen (fst s') /\ nlen (fst s) <= nlen (fst s') /\
  (s' = s \/ k < plen (fst s') /\ - k <= nlen (fst s')) /\
  (b = true -> val s' k = Some n1 /\ n1 - k = n2) /\ (val s' k = Some n1 /\ n1 - k = n2 -> b = true \/ s' = s /\ skipped k (top up s k) (left lo s k)).

Lemma top_left_nonneg lo up k s a b : in_grid s (k + 1) -> in_grid s (k - 1) -> (k <> lo \/ k <> up) ->
  top up s k = Some a -> left lo s k = Some b -> 0 <= Z.max a b.
Proof.
  intros Ht Hl Hlu. unfold top, left. destruct (k === up) eqn:?, (k === lo) eqn:?; [lia | ..].
  - intros [= <-]. destruct (val s (k - 1)) eqn:E; [| done]. intros [= <-]. apply Hl in E. lia.
  - intros E [= <-]. apply Ht in E. lia.
  - intros E. apply Ht in E. lia.
Qed.

Lemma diagonal_spec lo up k s :
  0 <= n1 -> 0 <= n2 -> storable (fst s) k -> in_grid s (k + 1) -> in_grid s (k - 1) -> (k <> lo \/ k <> up) ->
  exists s' b, Myers.diagonal seq1 seq2 lo up k (fst s) (snd s) = Ret (s', b) /\ stepped lo up k s s' b.
Proof.
  intros N1 N2 Hst Ht Hl Hlu. unfold Myers.diagonal. fold (val s (k + 1)) (val s (k - 1)) (path s (k + 1)) (path s (k - 1)). fold (top up s k).
  replace (if k === lo then Some (-1) else Myers.op2 Z.add (val s (k - 1)) (Some 1)) with (left lo s k)
    by (unfold left; destruct (k === lo), (val s (k - 1)); try done; cbn; f_equal; lia).
  pose proof (fun a b => top_left_nonneg lo up k s a b Ht Hl Hlu) as B. unfold stepped, outcome.
  destruct (top up s k) as [a |] eqn:Ea, (left lo s k) as [b |] eqn:Eb.
  2, 3, 4: cbn [Myers.op2 Myers.num_gtb orb Myers.getXAfterSnake res_bind];
    match goal with |- context [(Myers.V.set _ _ ?o, Myers.Paths.set _ _ ?q)] => pose proof (stored_spec s k o q Hst) as (G1 & G2 & G3 & P1 & P2 & P3 & P4);
      exists (stored s k o q) end;
    eexists; (split; [reflexivity |]); pose proof (at_end _ _ _ _ _ G1) as [? ?]; split_and!; try done; [by right | intros; left; auto].
  specialize (B a b eq_refl eq_refl). cbn [Myers.op2 Myers.num_gtb]. set (x := Z.min (Z.max a b) n1).
  destruct (n1 <? x) eqn:?; [lia |]. destruct (n2 <? x - k) eqn:E; cbn [orb].
  { exists s, false. split; [by destruct s |]. split; [left; split_and!; (done || lia) |].
    split; [intros j _; split; [apply upd_refl | done] |]. do 2 (split; [lia |]). split; [by left |]. split; [done |]. intros _. right. split; [done |]. cbn. lia. }
  cbn [Myers.getXAfterSnake].
  destruct (snake_spec (Z.to_nat n1) x (x - k)) as (x' & -> & X1 & X2 & X3 & G); [lia.. |]. cbn [res_bind].
  match goal with |- context [(Myers.V.set _ _ ?o, Myers.Paths.set _ _ ?q)] => pose proof (stored_spec s k o q Hst) as (G1 & G2 & G3 & P1 & P2 & P3 & P4);
    exists (stored s k o q) end.
  eexists. split; [reflexivity |]. cbn [default from_option id] in G1. rewrite int32_id in G1 by (unfold in_int32; lia).
  pose proof (at_end _ _ _ _ _ G1) as [? ?]. cbn [Myers.op2] in *. split_and!; try done; [| by right | intros; left; auto].
  right. split; [lia |]. exists x'. replace (x' - k) with (x - k + (x' - x)) by lia.
  split_and!; try (done || lia). rewrite G2. cbn [Myers.num_eqb]. by destruct (x' === x).
Qed.

(** ** A round *)

Lemma frame_refl s j : frame s s j.
Proof. split; [apply upd_refl | done]. Qed.

Lemma frame_trans s s' s'' j : frame s s' j -> frame s' s'' j -> frame s s'' j.
Proof. intros [H1 H2] [G1 G2]. split; [by eapply upd_trans | congruence]. Qed.

(** Every value is an offset of the first sequence, and none lies below the grid. *)
Definition gridded (s : state) : Prop := forall j x, val s j = Some x -> 0 <= x <= n1 /\ (- n2 <= j -> x - j <= n2).

Lemma frame_gridded s s' j : 0 <= n1 -> gridded s -> frame s s' j -> forall x, val s' j = Some x -> 0 <= x <= n1 /\ (- n2 <= j -> x - j <= n2).
Proof. intros N1 G [[E | [E1 E2]] _] x H; [apply (G j); congruence |]. assert (x = 0) as -> by congruence. lia. Qed.

Lemma stepped_gridded lo up k s s' b : 0 <= n1 -> 0 <= n2 -> (k <> lo \/ k <> up) -> gridded s -> stepped lo up k s s' b -> gridded s'.
Proof.
  intros N1 N2 Hlu G (O & F & _) j x Hj. destruct (decide (j = k)) as [-> | Hne]; [| by eapply frame_gridded; eauto].
  assert (B : forall a b, top up s k = Some a -> left lo s k = Some b -> 0 <= Z.max a b).
  { intros ? ?. apply top_left_nonneg; [intros ? ?; by eapply G.. | done]. }
  unfold outcome in O. destruct (top up s k) as [a |], (left lo s k) as [c |]; try (assert (x = 0) as -> by congruence; lia).
  specialize (B _ _ eq_refl eq_refl). destruct O as [(_ & E & _) | (_ & x' & E & ? & ? & _)]; [apply G; congruence |].
  assert (x = x') as -> by congruence. lia.
Qed.

(** The diagonal [j] was stepped once, between other entries that only may have grown. *)
Definition via (b : bool) (lo up : Z) (s s' : state) (j : Z) : Prop :=
  exists s1 s2, frame s s1 (j - 1) /\ frame s s1 j /\ frame s s1 (j + 1) /\ stepped lo up j s1 s2 b /\ frame s2 s' j.

Lemma diagonals_spec n lo up k s :
  0 <= n1 -> 0 <= n2 -> lo < up -> gridded s -> (forall j, k <= j <= up -> storable (fst s) j) -> up - k < Z.of_nat n \/ up < k ->
  exists s' r, Myers.diagonals seq1 seq2 n lo up k (fst s) (snd s) = Ret (s', r) /\ gridded s' /\
    plen (fst s) <= plen (fst s') /\ nlen (fst s) <= nlen (fst s') /\
    match r with
    | Some e => k <= e <= up /\ (e - k) mod 2 = 0 /\ val s' e = Some n1 /\ n1 - e = n2 /\ via true lo up s s' e
    | None => forall j, if decide (k <= j <= up /\ (j - k) mod 2 = 0) then via false lo up s s' j else frame s s' j
    end.
Proof.
  intros N1 N2 Hlu. revert k s. induction n as [| n IH]; intros k s G St Hn; cbn [Myers.diagonals].
  { destruct (k <=? up) eqn:?; [lia |]. exists s, None. split; [by destruct s |]. split_and!; [done | lia | lia |].
    intros j. rewrite decide_False by lia. apply frame_refl. }
  destruct (k <=? up) eqn:Hk.
  2: { exists s, None. split; [by destruct s |]. split_and!; [done | lia | lia |]. intros j. rewrite decide_False by lia. apply frame_refl. }
  destruct (diagonal_spec lo up k s N1 N2) as (s1 & b & -> & St1); [apply St; lia | intros ? ?; by eapply G.. | lia |].
  cbn [res_bind fst snd]. assert (G1 : gridded s1) by (eapply (stepped_gridded lo up k); eauto; lia).
  pose proof St1 as (_ & F1 & P1 & P2 & _). destruct b.
  - exists s1, (Some k). split; [done |]. split; [done |]. do 2 (split; [lia |]). destruct (proj1 (proj2 (proj2 (proj2 (proj2 (proj2 St1))))) eq_refl).
    split; [lia |]. split; [by rewrite Z.sub_diag |]. split; [done |]. split; [done |]. exists s, s1. split_and!; try done; apply frame_refl.
  - destruct (IH (k + 2) s1 G1) as (s' & r & -> & G' & P1' & P2' & R).
    { intros j Hj. destruct (St j); [lia |]. split; lia. } { lia. }
    exists s', r. split; [done |]. split; [done |]. do 2 (split; [lia |]). destruct r as [e |].
    + destruct R as (? & ? & ? & ? & s2 & s3 & ? & ? & ? & ? & ?). split; [lia |]. split; [Z.to_euclidean_division_equations; lia |]. split; [done |]. split; [done |].
      exists s2, s3. split_and!; try done; (eapply frame_trans; [apply F1; lia | done]).
    + intros j. specialize (R j). destruct (decide (j = k)) as [-> | Hne].
      * rewrite decide_False in R by lia. rewrite decide_True by (split; [lia | by rewrite Z.sub_diag]).
        exists s, s1. split_and!; try done; apply frame_refl.
      * destruct (decide (k + 2 <= j <= up /\ (j - (k + 2)) mod 2 = 0)) as [[D1 D2] | D].
        -- rewrite decide_True by (split; [lia |]; Z.to_euclidean_division_equations; lia).
           destruct R as (s2 & s3 & R1 & R2 & R3 & R4 & R5). exists s2, s3.
           split_and!; try done; (eapply frame_trans; [apply F1; lia | done]).
        -- rewrite decide_False by (intros [? ?]; apply D; split; Z.to_euclidean_division_equations; lia).
           eapply frame_trans; [by apply F1 | done].
Qed.
End Steps.
