(* ===== verification/MyersBounds.v ===== *)
(** * The algorithm of Myers: which diagonals a round visits

    Arithmetic of the bounds of a round, which the code cuts off at the lengths of the
    sequences. *)

From S2P Require Import Prelude Intervals OffsetRange Diff.

Section Bounds.
Variables (n1 n2 : Z).
Hypotheses (n1_pos : 1 <= n1) (n2_pos : 1 <= n2).

Definition lowest (d : Z) : Z := - Z.min d (n2 + js_rem d 2).
Definition highest (d : Z) : Z := Z.min d (n1 + js_rem d 2).

(** The last diagonal of round [d]. *)
Definition topOf (d : Z) : Z := highest d - (highest d - lowest d) mod 2.

(** The two bounds by the parity of the round. *)
Lemma bounds_even e : 0 <= e -> lowest (2 * e) = - Z.min (2 * e) n2 /\ highest (2 * e) = Z.min (2 * e) n1.
Proof. intros. unfold lowest, highest, js_rem. rewrite <- (Z.rem_unique (2 * e) 2 e 0) by lia. lia. Qed.

Lemma bounds_odd e : 0 <= e -> lowest (2 * e + 1) = - Z.min (2 * e + 1) (n2 + 1) /\ highest (2 * e + 1) = Z.min (2 * e + 1) (n1 + 1).
Proof. intros. unfold lowest, highest, js_rem. rewrite <- (Z.rem_unique (2 * e + 1) 2 e 1) by lia. lia. Qed.

Lemma topOf_m1 : topOf (-1) = -1.
Proof. unfold topOf, lowest, highest, js_rem. replace (Z.rem (-1) 2) with (-1) by done. replace (Z.min (-1) (n1 + -1)) with (-1) by lia.
  replace (Z.min (-1) (n2 + -1)) with (-1) by lia. done. Qed.

Ltac parity x := let e := fresh "e" in let r := fresh "r" in
  destruct (Z.eq_dec (x mod 2) 0) as [r | r];
  [assert (exists e, x = 2 * e) as [e ->] by (exists (x / 2); Z.to_euclidean_division_equations; lia)
  | assert (exists e, x = 2 * e + 1) as [e ->] by (exists (x / 2); Z.to_euclidean_division_equations; lia)]; clear r.

(** The top by the parities of the round and of the second sequence. *)
Lemma topOf_shape d : 0 <= d ->
  topOf d <= highest d <= topOf d + 1 /\ (topOf d - lowest d) mod 2 = 0.
Proof. intros. unfold topOf. split; Z.to_euclidean_division_equations; lia. Qed.

Lemma round_bounds d : 0 <= d ->
  lowest (d + 1) < 0 < highest (d + 1) /\ (d + 1 <= n2 -> lowest (d + 1) = - (d + 1)) /\
  (n2 < d + 1 -> lowest (d + 1) = - n2 \/ lowest (d + 1) = - (n2 + 1)) /\ highest (d + 1) <= d + 1 /\ highest (d + 1) <= n1 + 1.
Proof.
  intros Hd. parity d.
  - destruct (bounds_odd e) as [-> ->]; lia.
  - replace (2 * e + 1 + 1) with (2 * (e + 1)) by lia. destruct (bounds_even (e + 1)) as [-> ->]; lia.
Qed.

Lemma topOf_0 : topOf 0 = 0.
Proof. unfold topOf. destruct (bounds_even 0) as [E1 E2]; [lia |]. change (2 * 0) with 0 in *. rewrite E1, E2. rewrite !Z.min_l by lia. done. Qed.

Lemma topOf_even e : 0 <= e -> topOf (2 * e) = Z.min (2 * e) n1 - (Z.min (2 * e) n1 + Z.min (2 * e) n2) mod 2.
Proof. intros. unfold topOf. destruct (bounds_even e) as [-> ->]; [done |]. do 3 f_equal. lia. Qed.

Lemma topOf_odd e : 0 <= e -> topOf (2 * e + 1) = Z.min (2 * e + 1) (n1 + 1) - (Z.min (2 * e + 1) (n1 + 1) + Z.min (2 * e + 1) (n2 + 1)) mod 2.
Proof. intros. unfold topOf. destruct (bounds_odd e) as [-> ->]; [done |]. do 3 f_equal. lia. Qed.

(** How far the rounds have come: when the second sequence has odd length, the bound on the
    diagonals below makes one round repeat the parity of the round before. *)
Definition reach (d : Z) : Z := if (n2 mod 2 === 1) && (n2 <? d) then d - 1 else d.

(** The state of the diagonals above: up to [g] they are good, up to [h] they were visited. *)
Definition phase (d g h : Z) : Prop :=
  reach d <= n1 /\ h = reach d /\ g = reach d - 2 \/ n1 < reach d /\ n1 <= h <= n1 + 1 /\ g = n1 - 1.

(** What a round whose last diagonal is [k'] does to that. *)
Definition advance (d g h g' h' k' : Z) : Prop :=
  phase (d + 1) g' h' /\ k' <= h' <= n1 + 1 /\ (h' = h \/ h' = h + 1 /\ k' = h') /\ 0 <= k' /\
  (forall j, (j - k') mod 2 = 0 -> g + 1 < j <= k' -> j = k' /\ (k' = highest (d + 1) \/ h < k' + 1)) /\
  (g' = g \/ g' = g + 1 /\ (g' - k') mod 2 = 0 /\ g' <= k' /\ g' + 1 <= h) /\
  Z.min (d + 1) (Z.min n2 (n1 - 1)) <= k'.

Lemma topOf_reach d : 0 <= d -> reach d <= n1 -> topOf d = reach d.
Proof.
  intros Hd. unfold reach. destruct (_ && _) eqn:E; parity d; [rewrite topOf_even by lia | rewrite topOf_odd by lia | rewrite topOf_even by lia | rewrite topOf_odd by lia];
    intros; Z.to_euclidean_division_equations; lia.
Qed.

(** Beyond the first sequence the tops alternate. *)
Lemma topOf_beyond d : 0 <= d -> n1 < reach d ->
  n1 - 1 <= topOf d <= n1 + 1 /\ (topOf d = n1 + 1 -> highest d = n1 + 1) /\ (reach d = n1 + 1 -> topOf d <> n1).
Proof.
  intros Hd. unfold reach. destruct ((n2 mod 2 === 1) && (n2 <? d)) eqn:E; parity d;
    [rewrite topOf_even by lia; destruct (bounds_even e) as [_ ->] | rewrite topOf_odd by lia; destruct (bounds_odd e) as [_ ->]
    | rewrite topOf_even by lia; destruct (bounds_even e) as [_ ->] | rewrite topOf_odd by lia; destruct (bounds_odd e) as [_ ->]]; try lia;
    intros; Z.to_euclidean_division_equations; lia.
Qed.

Lemma reach_step d : 0 <= d -> reach (d + 1) = reach d + 1 \/ reach (d + 1) = reach d /\ d = n2 /\ n2 mod 2 = 1.
Proof. intros. unfold reach. destruct (_ && _) eqn:?, ((n2 mod 2 === 1) && (n2 <? d)) eqn:?; Z.to_euclidean_division_equations; lia. Qed.

Lemma reach_le d : d - 1 <= reach d <= d.
Proof. unfold reach. destruct (_ && _); lia. Qed.

Lemma reach_early d : d <= n2 -> reach d = d.
Proof. intros. unfold reach. destruct (n2 <? d) eqn:?; [lia |]. by rewrite andb_false_r. Qed.

Lemma reach_nonneg d : 0 <= d -> 0 <= reach d.
Proof. intros. destruct (decide (d = 0)) as [-> |]; [rewrite reach_early; lia | pose proof (reach_le d); lia]. Qed.

Lemma phase_bounds d g h : 0 <= d -> phase d g h -> -2 <= g < h /\ h <= n1 + 1 /\ 0 <= h.
Proof. intros Hd Hp. pose proof (reach_nonneg d Hd). destruct Hp as [|]; lia. Qed.

Lemma advance_phase d g h : 0 <= d -> phase d g h -> exists g' h', advance d g h g' h' (topOf (d + 1)).
Proof.
  intros Hd Hp. pose proof (reach_le d). pose proof (reach_le (d + 1)). unfold advance.
  destruct (topOf_shape (d + 1)) as [Hs _]; [lia |]. pose proof (reach_early (d + 1)).
  pose proof (reach_nonneg (d + 1) ltac:(lia)).
  destruct (decide (reach (d + 1) <= n1)) as [Hr | Hr].
  - pose proof (topOf_reach (d + 1) ltac:(lia) Hr) as T. rewrite T in *.
    assert (Hg : g = reach d - 2 /\ h = reach d). { destruct (reach_step d Hd), Hp as [|]; lia. }
    exists (reach (d + 1) - 2), (reach (d + 1)). unfold phase.
    destruct (reach_step d Hd) as [E | (E & -> & ?)]; split_and!; try lia; intros; Z.to_euclidean_division_equations; lia.
  - destruct (topOf_beyond (d + 1)) as (T1 & T2 & T3); [lia.. |].
    destruct Hp as [(A1 & A2 & A3) | (A1 & A2 & A3)].
    + assert (reach d = n1) by (destruct (reach_step d Hd); lia). exists (n1 - 1), (Z.max n1 (topOf (d + 1))). unfold phase.
      assert (reach (d + 1) = n1 + 1) by (destruct (reach_step d Hd); lia).
      split_and!; try (Z.to_euclidean_division_equations; lia).
      intros j J1 J2. split; [| left]; Z.to_euclidean_division_equations; lia.
    + exists g, (Z.max h (topOf (d + 1))). unfold phase. split_and!; Z.to_euclidean_division_equations; lia.
Qed.
End Bounds.
