(* ===== verification/MyersPaths.v ===== *)
(** * The algorithm of Myers: paths

    When the path stored for a diagonal is one through the grid, and how a step extends it.
    A number that is not one (the arrays are read past their end) leaves a diagonal without a
    path; such diagonals are told apart by their values. *)

From stdpp Require Import gmap.
From S2P Require Import Prelude Intervals OffsetRange Diff DiffAligned MyersSteps.
Import FastInt32ArrayFacts.

Section Paths.
Variables (seq1 seq2 : ISequence.t).
Notation l1 := (ISequence.elements seq1).
Notation l2 := (ISequence.elements seq2).
Notation n1 := (ISequence.length seq1).
Notation n2 := (ISequence.length seq2).
Hypotheses (n1_pos : 1 <= n1) (n2_pos : 1 <= n2).

(** The snakes of the path are equal texts, one behind the other, and end before [(x, y)]. *)
Fixpoint reaches (p : SnakePath) (x y : Z) : Prop :=
  match p with
  | null => 0 <= x /\ 0 <= y
  | Snake prev px py len => exists a b n, px = Some a /\ py = Some b /\ len = Some n /\ 0 <= n /\ gap l1 l2 a b (a + n) (b + n) /\
      a + n <= x /\ b + n <= y /\ reaches prev a b
  end.

Lemma reaches_mono p x y x' y' : reaches p x y -> x <= x' -> y <= y' -> reaches p x' y'.
Proof.
  destruct p as [| prev px py len]; cbn [reaches]; [lia |]. intros (a & b & n & ? & ? & ? & ? & ? & ? & ? & ?) ? ?.
  exists a, b, n. split_and!; (done || lia).
Qed.

(** ** Reading a path *)

Lemma readPath_spec p x y ds : reaches p x y -> alignedFrom l1 l2 x y (reverse ds) ->
  exists ds', Myers.readPath p x y ds = Ret ds' /\ alignedFrom l1 l2 0 0 (reverse ds').
Proof.
  revert x y ds. induction p as [| prev IH px py len]; intros x y ds R A; cbn [Myers.readPath].
  - cbn [js_num res_bind]. destruct R. destruct (_ || _) eqn:E.
    + unfold SequenceDiff.ofOffsets. rewrite !OffsetRange.offsetRange_new_wf by lia. cbn [res_bind]. eexists. split; [done |].
      rewrite reverse_app. cbn. unfold start1, start2, end1, end2; cbn. split; [apply gap_refl |]. by do 2 (split; [lia |]).
    + cbn [res_bind]. eexists. split; [done |]. replace 0 with x at 1 by lia. by replace 0 with y by lia.
  - destruct R as (a & b & n & -> & -> & -> & Hn & G & Ha & Hb & R). cbn [Myers.op2 js_num res_bind].
    assert (E : (if (a + n !== x) || (b + n !== y) then let* d := SequenceDiff.ofOffsets (a + n) x (b + n) y in Ret (ds ++ [d]) else Ret ds) = Ret
      (if (a + n !== x) || (b + n !== y) then ds ++ [SequenceDiff.mk (OffsetRange.mk (a + n) x) (OffsetRange.mk (b + n) y)] else ds)).
    { destruct (_ || _); [| done]. unfold SequenceDiff.ofOffsets. by rewrite !OffsetRange.offsetRange_new_wf by lia. }
    rewrite E. cbn [res_bind]. apply IH; [done |]. eapply alignedFrom_back; [exact G |]. destruct (_ || _) eqn:Eb.
    + rewrite reverse_app. cbn. unfold start1, start2, end1, end2; cbn. split; [apply gap_refl |]. by do 2 (split; [lia |]).
    + replace (a + n) with x by lia. by replace (b + n) with y by lia.
Qed.

(** ** Good and poor entries *)

(** The value [x] of the diagonal [k] lies in the grid and the path leads there; at the right
    border only the end of both sequences is promised. *)
Definition good (k x : Z) (p : SnakePath) : Prop :=
  0 <= x <= n1 /\ 0 <= x - k <= n2 /\ (x < n1 -> reaches p x (x - k)) /\ reaches p n1 n2.

(** The value lies above the grid; nothing is known of the path unless it is one step above. *)
Definition poor (k x : Z) (p : SnakePath) : Prop :=
  0 <= x < k /\ (x = k - 1 -> (x < n1 -> reaches p x 0) /\ reaches p n1 n2).

(** A value above that cannot mislead a diagonal with a good one to its left. *)
Definition harmless (k a : Z) (p : SnakePath) : Prop := a <= 0 \/ good (k + 1) a p \/ poor (k + 1) a p.

(** The path behind a snake. *)
Lemma good_snake k x x' p : 0 <= x <= x' -> x' <= n1 -> 0 <= x - k -> x' - k <= n2 -> gap l1 l2 x (x - k) x' (x' - k) ->
  (x < n1 -> reaches p x (x - k)) -> reaches p n1 n2 ->
  good k x' (if x' === x then p else Snake p (Some x) (Some (x - k)) (Some (x' - x))).
Proof.
  intros H1 H2 H3 H4 G R RE. destruct (x' === x) eqn:E.
  - apply Z.eqb_eq in E as ->. split_and!; (done || lia).
  - assert (S : forall u v, x' <= u -> x' - k <= v -> reaches (Snake p (Some x) (Some (x - k)) (Some (x' - x))) u v).
    { intros u v ? ?. exists x, (x - k), (x' - x). split_and!; try (done || lia).
      - replace (x + (x' - x)) with x' by lia. by replace (x - k + (x' - x)) with (x' - k) by lia.
      - apply R. lia. }
    split_and!; try lia; [intros _ |]; apply S; lia.
Qed.

Section Outcome.
Context (k : Z) (tp lp op np : SnakePath) (ov nv : option Z).

(** From a good entry to the left. *)
Lemma outcome_good a vl : k <= n1 -> good (k - 1) vl lp -> harmless k a tp ->
  outcome seq1 seq2 k (Some a) (Some (1 + vl)) tp lp ov op nv np ->
  nv = ov /\ np = op /\ n2 < a - k \/ exists x, nv = Some x /\ good k x np /\ Z.min (Z.max a (1 + vl)) n1 <= x.
Proof.
  intros Hk (V1 & V2 & V3 & V4) Ht O. cbn in O. set (x := Z.min (Z.max a (1 + vl)) n1) in *.
  destruct O as [(E & -> & ->) | (E & x' & -> & X1 & X2 & X3 & G & ->)]; [left; split_and!; (done || lia) |].
  right. exists x'. split; [done |]. split; [| lia]. apply good_snake; try (done || lia).
  - intros Hx. destruct (x === a) eqn:Ea; [| apply (reaches_mono _ vl (vl - (k - 1))); [apply V3; lia | lia | lia]].
    destruct Ht as [? | [(T1 & T2 & T3 & T4) | (T1 & T2)]]; [lia | |].
    + apply (reaches_mono _ a (a - (k + 1))); [apply T3; lia | lia | lia].
    + destruct (T2 ltac:(lia)) as [T3 _]. apply (reaches_mono _ a 0); [apply T3; lia | lia | lia].
  - destruct (x === a) eqn:Ea; [| done]. destruct Ht as [? | [(_ & _ & _ & T4) | (T1 & T2)]]; [lia | done |]. apply T2. lia.
Qed.

(** The diagonal right of the grid. *)
Lemma outcome_edge a vl : k = n1 + 1 -> a <= 0 -> good (k - 1) vl lp ->
  outcome seq1 seq2 k (Some a) (Some (1 + vl)) tp lp ov op nv np -> exists x, nv = Some x /\ poor k x np.
Proof.
  intros Hk Ha (V1 & V2 & V3 & V4) O. cbn in O. assert (vl = n1) as -> by lia.
  replace (Z.min (Z.max a (1 + n1)) n1) with n1 in O by lia.
  destruct O as [(E & _) | (E & x' & -> & X1 & X2 & X3 & G & ->)]; [lia |]. assert (x' = n1) as -> by lia.
  exists n1. split; [done |]. rewrite Z.eqb_refl. destruct (n1 === a) eqn:?; [lia |]. split; [lia |]. intros _. split; [lia | done].
Qed.

(** From a poor entry to the left. *)
Lemma outcome_poor a vl : k <= n1 + 1 -> a <= 0 -> poor (k - 1) vl lp ->
  outcome seq1 seq2 k (Some a) (Some (1 + vl)) tp lp ov op nv np -> nv = Some (vl + 1) /\ poor k (vl + 1) np.
Proof.
  intros Hk Ha (V1 & V2) O. cbn in O. replace (Z.min (Z.max a (1 + vl)) n1) with (vl + 1) in O by lia.
  destruct O as [(E & _) | (E & x' & -> & X1 & X2 & X3 & G & ->)]; [lia |]. assert (x' = vl + 1) as -> by (apply X3; lia).
  rewrite Z.eqb_refl. destruct (vl + 1 === a) eqn:?; [lia |]. split; [done |]. split; [lia |].
  intros Hv. destruct (V2 ltac:(lia)) as [V3 V4]. split; [| done]. intros. apply (reaches_mono _ vl 0); [apply V3; lia | lia | lia].
Qed.

(** From a good entry above that is not behind the one to the left. *)
Lemma outcome_above a b : b <= a -> good (k + 1) a tp ->
  outcome seq1 seq2 k (Some a) (Some b) tp lp ov op nv np ->
  n2 < a - k /\ nv = ov /\ np = op \/ exists x, nv = Some x /\ good k x np /\ a <= x.
Proof.
  intros Hb (T1 & T2 & T3 & T4) O. cbn in O. replace (Z.min (Z.max a b) n1) with a in O by lia. rewrite Z.eqb_refl in O.
  destruct O as [(E & -> & ->) | (E & x' & -> & X1 & X2 & X3 & G & ->)]; [by left |]. right. exists x'. split; [done |]. split; [| lia].
  apply good_snake; try (done || lia). intros. apply (reaches_mono _ a (a - (k + 1))); [apply T3; lia | lia | lia].
Qed.
End Outcome.
End Paths.
