(* ===== verification/MyersRounds.v ===== *)
(** * The algorithm of Myers: rounds

    The invariant of the rounds. Above, the diagonals up to [g] have a path and those up to
    [h] were visited; below, the diagonals from [c] on are sound. *)

From stdpp Require Import gmap.
From S2P Require Import Prelude Intervals OffsetRange Diff DiffAligned MyersSteps MyersBounds MyersPaths.
Import FastInt32ArrayFacts.

Section Rounds.
Variables (seq1 seq2 : ISequence.t).
Notation l1 := (ISequence.elements seq1).
Notation l2 := (ISequence.elements seq2).
Notation n1 := (ISequence.length seq1).
Notation n2 := (ISequence.length seq2).
Hypotheses (n1_pos : 1 <= n1) (n2_pos : 1 <= n2) (n1_int32 : n1 < 2 ^ 31).

(** ** Entries *)

Definition Good (s : state) (k : Z) : Prop := exists x, val s k = Some x /\ good seq1 seq2 k x (path s k).
Definition Poor (s : state) (k : Z) : Prop := exists x, val s k = Some x /\ poor seq1 seq2 k x (path s k).
Definition Fresh (s : state) (k : Z) : Prop := val s k = None \/ val s k = Some 0.
Definition Weak (s : state) (k : Z) : Prop := Good s k \/ Poor s k.

(** The end of both sequences was not reached. *)
Definition unfinished (s : state) : Prop := val s (n1 - n2) <> Some n1.

Lemma Good_frame s s' k : frame s s' k -> Good s k -> Good s' k.
Proof. intros [U P] (x & E & G). exists x. rewrite P. split; [| done]. rewrite E in U. by apply upd_Some. Qed.

Lemma Poor_frame s s' k : frame s s' k -> Poor s k -> Poor s' k.
Proof. intros [U P] (x & E & G). exists x. rewrite P. split; [| done]. rewrite E in U. by apply upd_Some. Qed.

Lemma Weak_frame s s' k : frame s s' k -> Weak s k -> Weak s' k.
Proof. intros F [G | G]; [left; by eapply Good_frame | right; by eapply Poor_frame]. Qed.

Lemma Fresh_frame s s' k : frame s s' k -> Fresh s k -> Fresh s' k.
Proof. intros [[E | [E1 E2]] _] [? | ?]; unfold Fresh; rewrite ?E, ?E2; tauto. Qed.

Lemma Poor_not_Good s k : Poor s k -> Good s k -> False.
Proof. intros (x & E & P & _) (x' & E' & _ & G & _). assert (x = x') as -> by congruence. lia. Qed.

(** Below the main diagonal there are no poor entries. *)
Lemma Weak_low s k : k <= 0 -> Weak s k -> Good s k.
Proof. intros Hk [? | (x & _ & P & _)]; [done | lia]. Qed.

Lemma Weak_large s k x : Weak s k -> val s k = Some x -> k <= x -> Good s k.
Proof. intros [? | (x' & E & P & _)] E' ?; [done |]. assert (x = x') as -> by congruence. lia. Qed.

Lemma unfinished_frame s s' : frame s s' (n1 - n2) -> unfinished s -> unfinished s'.
Proof. unfold unfinished. intros [[E | [E1 E2]] _] U; congruence || (rewrite E2; intros [= ?]; lia). Qed.

Lemma unfinished_step lo up k s s' : stepped seq1 seq2 lo up k s s' false -> unfinished s -> unfinished s'.
Proof.
  intros (_ & F & _ & _ & _ & _ & H) U. destruct (decide (k = n1 - n2)) as [-> | Hne]; [| by eapply unfinished_frame; [apply F; lia |]].
  intros E. destruct H as [? | [-> _]]; [split; [done | lia] | done | done].
Qed.

Lemma unfinished_via lo up s s' j : via seq1 seq2 false lo up s s' j -> j = n1 - n2 -> unfinished s -> unfinished s'.
Proof. intros (s1 & s2 & _ & F & _ & S & F') -> U. eapply unfinished_frame, unfinished_step, unfinished_frame; eauto. Qed.

(** ** The invariant above *)

Record core (c g h : Z) (s : state) : Prop := {
  c_grid : gridded seq1 seq2 s;
  c_size : 10 <= plen (fst s) /\ 10 <= nlen (fst s);
  c_weak k : c <= k <= h -> Weak s k;
  c_good k : c <= k <= g -> Good s k;
  c_link : c <= g + 1 -> g + 2 <= h -> Poor s (g + 1) -> exists x, val s (g + 2) = Some x /\ x < g + 2;
  c_fresh k : h < k -> Fresh s k
}.

(** What a step of [j] read, when there was a value to its left. *)
Lemma via_inputs b lo up s s' j vl : via seq1 seq2 b lo up s s' j -> j <> lo -> val s (j - 1) = Some vl ->
  exists t ov nv, outcome seq1 seq2 j t (Some (1 + vl)) (path s (j + 1)) (path s (j - 1)) ov (path s j) nv (path s' j) /\
    upd (val s j) ov /\ upd nv (val s' j) /\ (if j === up then t = Some (-1) else upd (val s (j + 1)) t).
Proof.
  intros (s1 & s2 & [Fl Pl] & [Fj Pj] & [Ft Pt] & (O & _) & [F' P']) Hlo E. rewrite E in Fl. apply upd_Some in Fl.
  exists (top up s1 j), (val s1 j), (val s2 j). rewrite P', <- Pl, <- Pj, <- Pt. unfold left in O.
  destruct (j === lo) eqn:?; [lia |]. rewrite Fl in O. split_and!; [exact O | done | done |]. unfold top. by destruct (j === up).
Qed.

Section Step.
Context (d c g h g' h' : Z) (s s' : state).
Notation lo := (lowest n2 (d + 1)).
Notation up := (highest n1 (d + 1)).
Notation k' := (topOf n1 n2 (d + 1)).
Hypotheses (Hd : 0 <= d) (Hp : phase n1 n2 d g h) (Hc : core c g h s) (Ha : advance n1 n2 d g h g' h' k').

(** The value above a visited diagonal is harmless, or there is none. *)
Lemma top_cases j t : c <= j -> j <= k' -> (if j === up then t = Some (-1) else upd (val s (j + 1)) t) ->
  t = None /\ h < j + 1 /\ 9 <= j \/ exists a, t = Some a /\ harmless seq1 seq2 j a (path s (j + 1)) /\ (h < j + 1 \/ j = up -> a <= 0) /\
    (a <= 0 \/ val s (j + 1) = Some a).
Proof.
  intros Hj Hj' Ht. destruct (j === up) eqn:E.
  { right. exists (-1). subst t. split_and!; [done | left; lia | lia | left; lia]. }
  destruct (decide (h < j + 1)) as [Hh | Hh].
  - destruct (c_fresh _ _ _ _ Hc (j + 1) Hh) as [En | En]; rewrite En in Ht.
    + destruct Ht as [-> | [_ ->]]; [left | right; exists 0; split_and!; [done | left; lia | lia | left; lia]].
      split_and!; [done | done |]. apply get_None in En. destruct (c_size _ _ _ _ Hc).
      destruct Ha as (_ & ? & ? & ? & _). lia.
    + apply upd_Some in Ht as ->. right. exists 0. split_and!; [done | left; lia | lia | left; lia].
  - right. destruct (c_weak _ _ _ _ Hc (j + 1)) as [(a & Ea & Ga) | (a & Ea & Ga)]; [lia | |]; rewrite Ea in Ht; apply upd_Some in Ht as ->;
      exists a; (split; [done |]); (split; [unfold harmless; tauto |]); (split; [intros [? | ?]; lia |]); by right.
Qed.

(** A step from a good entry to the left: the diagonal is good afterwards, also when it is left
    alone. *)
Lemma step_good j a vl ov nv : c <= j - 1 -> j - 1 <= g -> j <= n1 -> -2 <= g < h ->
  val s (j - 1) = Some vl -> upd (val s j) ov -> upd nv (val s' j) -> harmless seq1 seq2 j a (path s (j + 1)) ->
  (h < j + 1 \/ j = up -> a <= 0) -> (a <= 0 \/ val s (j + 1) = Some a) ->
  outcome seq1 seq2 j (Some a) (Some (1 + vl)) (path s (j + 1)) (path s (j - 1)) ov (path s j) nv (path s' j) -> Good s' j.
Proof.
  intros Hcj Hg Hn Hgh El Uo Un Hh Hle Hval O.
  destruct (c_good _ _ _ _ Hc (j - 1)) as (vl' & El' & Gl); [lia |]. assert (vl' = vl) as -> by congruence.
  destruct (outcome_good seq1 seq2 n1_pos j _ _ _ _ _ _ a vl Hn Gl Hh O) as [(-> & Ep & Hs) | (x & -> & Gx & _)];
    [| exists x; split; [by apply upd_Some | done]].
  assert (Go : Good s j).
  { destruct (decide (j <= g)); [apply (c_good _ _ _ _ Hc); lia |]. assert (j = g + 1) as -> by lia.
    destruct Hval as [? | Hval]; [lia |]. replace (g + 1 + 1) with (g + 2) in Hval by lia.
    assert (g + 2 <= h) by (destruct (decide (h < g + 1 + 1)); lia).
    destruct (c_weak _ _ _ _ Hc (g + 1)) as [? | Pg]; [lia | done |].
    destruct (c_link _ _ _ _ Hc ltac:(lia) ltac:(lia) Pg) as (x & Ex & ?). assert (x = a) as -> by congruence. lia. }
  destruct Go as (x & Ex & Gx). rewrite Ex in Uo. apply upd_Some in Uo as ->. exists x. split; [by apply upd_Some |]. by rewrite Ep.
Qed.

(** A step with nothing above. *)
Lemma step_last j a vl ov nv : j <= n1 + 1 -> a <= 0 -> Weak s (j - 1) ->
  val s (j - 1) = Some vl -> upd nv (val s' j) ->
  outcome seq1 seq2 j (Some a) (Some (1 + vl)) (path s (j + 1)) (path s (j - 1)) ov (path s j) nv (path s' j) ->
  Weak s' j /\ (Poor s (j - 1) -> exists x, val s' j = Some x /\ x < j).
Proof.
  intros Hn Ha0 Hl El Un O. destruct Hl as [(vl' & El' & Gl) | (vl' & El' & Pl)]; assert (vl' = vl) as -> by congruence.
  - split; [| intros P; exfalso; eapply Poor_not_Good; [exact P | by exists vl]]. destruct (decide (j <= n1)).
    + destruct (outcome_good seq1 seq2 n1_pos j _ _ _ _ _ _ a vl ltac:(lia) Gl ltac:(by left) O) as [(_ & _ & ?) | (x & -> & Gx & _)].
      * destruct Gl as (? & ? & _). lia.
      * left. exists x. split; [by apply upd_Some | done].
    + destruct (outcome_edge seq1 seq2 n1_pos n2_pos j _ _ _ _ _ _ a vl ltac:(lia) Ha0 Gl O) as (x & -> & Px).
      right. exists x. split; [by apply upd_Some | done].
  - destruct (outcome_poor seq1 seq2 n2_pos j _ _ _ _ _ _ a vl Hn Ha0 Pl O) as [-> Px]. apply upd_Some in Un.
    split; [right; by eexists |]. intros _. eexists. split; [done |]. destruct Pl as [? _]. lia.
Qed.

(** A visited diagonal with a sound one to its left. *)
Lemma step_entry b j : via seq1 seq2 b lo up s s' j -> j <> lo -> c <= j - 1 -> j <= k' -> (j - k') mod 2 = 0 ->
  Weak s' j /\ (j <= g' -> Good s' j) /\ (g + 1 < j -> Poor s (j - 1) -> exists x, val s' j = Some x /\ x < j).
Proof.
  intros Hv Hlo Hcj Hj Hpar. destruct (phase_bounds n1 n2 n1_pos n2_pos d g h Hd Hp) as (Hgh & Hgh' & _). pose proof Ha as (Ph & A1 & A2 & A3 & A4 & A5 & A6).
  assert (Hl : Weak s (j - 1)). { apply (c_weak _ _ _ _ Hc). split; [done |]. lia. }
  assert (Hvl : exists vl, val s (j - 1) = Some vl) by (destruct Hl as [(x & E & _) | (x & E & _)]; eauto). destruct Hvl as [vl El].
  destruct (via_inputs _ _ _ _ _ _ _ Hv Hlo El) as (t & ov & nv & O & Uo & Un & Ht).
  destruct (top_cases j t ltac:(lia) Hj Ht) as [(-> & Hh & H9) | (a & -> & Hh & Hle & Hval)].
  { cbn in O. subst nv. apply upd_Some in Un. assert (Pj : Poor s' j) by (exists 0; split; [done |]; split; [lia | intros; lia]).
    split; [by right |]. split; [intros; lia |]. intros _ _. exists 0. split; [done | lia]. }
  destruct (decide (j - 1 <= g /\ j <= n1)) as [[Hg Hn] | Hg].
  - assert (Good s' j) by (eapply step_good; eauto; lia). split; [by left |]. split; [done |]. intros; lia.
  - assert (a <= 0).
    { apply Hle. destruct (decide (g + 1 < j)); [destruct (A4 j Hpar ltac:(lia)) as [-> [? | ?]]; lia |]. left. destruct Hp as [|]; lia. }
    destruct (step_last j a vl ov nv ltac:(lia) ltac:(lia) Hl El Un O) as [W P]. split; [done |]. split; [| done].
    intros. destruct Ph as [|]; lia.
Qed.

(** The invariant above after the round, from a state where only the first diagonal was visited. *)
Lemma rest_core k0 :
  (forall j, if decide (k0 <= j <= up /\ (j - k0) mod 2 = 0) then via seq1 seq2 false lo up s s' j else frame s s' j) ->
  (k0 - k') mod 2 = 0 -> lo < k0 <= k' -> k0 <= 1 -> gridded seq1 seq2 s' -> plen (fst s) <= plen (fst s') -> nlen (fst s) <= nlen (fst s') ->
  (forall j, k0 <= j <= k' -> (j - k') mod 2 = 0 -> c <= j -> c <= j - 1 \/ Good s' j) ->
  core c g' h' s'.
Proof.
  intros R Hk Hlo Hk1 G' L1 L2 Hshield. destruct (phase_bounds n1 n2 n1_pos n2_pos d g h Hd Hp) as (Hgh & Hgh' & Hh0). pose proof Ha as (Ph & A1 & A2 & A3 & A4 & A5 & A6).
  destruct (topOf_shape n1 n2 (d + 1)) as [Sh _]; [lia |].
  assert (V : forall j, k0 <= j <= k' -> (j - k') mod 2 = 0 -> via seq1 seq2 false lo up s s' j).
  { intros j ? ?. specialize (R j). rewrite decide_True in R; [done |]. Z.to_euclidean_division_equations; lia. }
  assert (F : forall j, ~ (k0 <= j <= k' /\ (j - k') mod 2 = 0) -> frame s s' j).
  { intros j Hj. specialize (R j). rewrite decide_False in R; [done |]. intros [? ?]. apply Hj. Z.to_euclidean_division_equations; lia. }
  assert (W : forall j, c <= j <= h' -> Weak s' j /\ (j <= g' -> Good s' j)).
  { intros j Hj. destruct (decide (k0 <= j <= k' /\ (j - k') mod 2 = 0)) as [[D1 D2] | D].
    - destruct (Hshield j D1 D2 ltac:(lia)) as [? | ?]; [| by split; [left |]].
      destruct (step_entry false j (V j D1 D2) ltac:(lia) ltac:(lia) ltac:(lia) D2) as (? & ? & _). done.
    - assert (j <= h). { destruct A2 as [| [? ?]]; [lia |]. destruct (decide (j = h')); [| lia]. exfalso. apply D. subst j.
        split; [lia |]. by replace (h' - k') with 0 by lia. }
      split; [eapply Weak_frame; [by apply F | apply (c_weak _ _ _ _ Hc); lia] |].
      intros Hg. eapply Good_frame; [by apply F |]. destruct (decide (j <= 0)); [apply Weak_low; [done |]; apply (c_weak _ _ _ _ Hc); lia |].
      apply (c_good _ _ _ _ Hc). destruct A5 as [| (E & ? & ? & ?)]; [lia |].
      destruct (decide (j = g')); [| lia]. exfalso. apply D. subst j. split; [lia | done]. }
  split.
  - done.
  - destruct (c_size _ _ _ _ Hc). lia.
  - intros j ?. by apply W.
  - intros j ?. apply W; [| lia]. destruct Ph as [|]; lia.
  - intros Hcg Hg2 Pg. assert (W2 : Weak s' (g' + 2)) by (apply W; lia).
    destruct Ph as [(Q1 & Q2 & Q3) | (Q1 & Q2 & Q3)].
    + pose proof (topOf_reach n1 n2 n2_pos (d + 1) ltac:(lia) Q1) as T.
      destruct (step_entry false (g' + 2)) as (_ & _ & L); [apply V; [lia |]; replace (g' + 2 - k') with 0 by lia; done | lia | lia | lia | replace (g' + 2 - k') with 0 by lia; done |].
      apply L; [lia |]. replace (g' + 2 - 1) with (g' + 1) by lia.
      destruct (c_weak _ _ _ _ Hc (g' + 1)) as [Gd | ?]; [lia | | done]. exfalso. eapply Poor_not_Good; [exact Pg |]. eapply Good_frame, Gd.
      apply F. intros [_ ?]. Z.to_euclidean_division_equations; lia.
    + destruct W2 as [(x & E & _) | (x & E & _)]; exists x; (split; [done |]); apply G' in E; lia.
  - intros j Hj. apply (Fresh_frame s); [apply F; lia |]. apply (c_fresh _ _ _ _ Hc). destruct A2; lia.
Qed.
End Step.

(** ** Moving the lower bound *)

Lemma core_raise c c' g h s : core c g h s -> c <= c' -> core c' g h s.
Proof.
  intros [? ? W Gd L F] H. split; try done; [intros; apply W; lia | intros; apply Gd; lia | intros; apply L; (done || lia)].
Qed.

Lemma core_extend c g h s : core c g h s -> Good s (c - 1) -> core (c - 1) g h s.
Proof.
  intros [? ? W Gd L F] H. split; try done.
  - intros k ?. destruct (decide (k = c - 1)) as [-> |]; [by left | apply W; lia].
  - intros k ?. destruct (decide (k = c - 1)) as [-> |]; [done | apply Gd; lia].
  - intros ? ? P. destruct (decide (c - 1 = g + 1)) as [E |]; [rewrite E in H; exfalso; by eapply Poor_not_Good | apply L; (done || lia)].
Qed.

Lemma core_frame c g h s s' : g + 1 <= h -> core c g h s -> (forall j, c <= j -> frame s s' j) -> (forall j, h < j -> frame s s' j) ->
  gridded seq1 seq2 s' -> plen (fst s) <= plen (fst s') -> nlen (fst s) <= nlen (fst s') -> core c g h s'.
Proof.
  intros Hgh [? ? W Gd L Fr] F F' G' L1 L2. split; [done | lia | | | |].
  - intros k ?. eapply Weak_frame; [apply F; lia | apply W; lia].
  - intros k ?. eapply Good_frame; [apply F; lia | apply Gd; lia].
  - intros ? ? P. destruct (W (g + 1)) as [Gg | Pg]; [lia | exfalso; eapply Poor_not_Good; [exact P | eapply Good_frame, Gg; apply F; lia] |].
    destruct L as (x & E & ?); [lia | lia | done |]. exists x. split; [| done]. destruct (F (g + 2) ltac:(lia)) as [U _]. rewrite E in U. by apply upd_Some.
  - intros k ?. eapply Fresh_frame; [by apply F' | by apply Fr].
Qed.

(** A value of 0 and no path below the main diagonal is as good as any. *)
Lemma Good_zero s k : - n2 <= k <= 0 -> val s k = Some 0 -> path s k = null -> Good s k.
Proof. intros Hk E P. exists 0. split; [done |]. rewrite P. split; [lia |]. split; [lia |]. cbn. split; [intros; lia | lia]. Qed.
End Rounds.
