(* ===== verification/MyersLow.v ===== *)
(** * The algorithm of Myers: the lower bound

    Below, a diagonal can be skipped because its neighbour already ends at the bottom of the
    grid; then the arrays are not extended, and the round after reads past their end. From
    there on the diagonals below are shielded by two neighbours close to the bottom. *)

From stdpp Require Import gmap.
From S2P Require Import Prelude Intervals OffsetRange Diff DiffAligned MyersSteps MyersBounds MyersPaths MyersRounds.
Import FastInt32ArrayFacts.

Section Low.
Variables (seq1 seq2 : ISequence.t).
Notation n1 := (ISequence.length seq1).
Notation n2 := (ISequence.length seq2).
Hypotheses (n1_pos : 1 <= n1) (n2_pos : 1 <= n2) (n1_int32 : n1 < 2 ^ 31).
Notation Good := (Good seq1 seq2).
Notation Weak := (Weak seq1 seq2).
Notation core := (core seq1 seq2).

(** All diagonals visited below are good; the last one may be missing. *)
Definition open_below (d c : Z) (s : state) : Prop :=
  (c = - Z.min d n2 \/ n2 <= d /\ c = - n2 + 1 /\ val s (- n2) = None /\ path s (- n2) = null) /\
  forall k, - n2 <= k < - Z.min d n2 -> path s k = null /\ Fresh s k.

(** At most one step from the bottom. *)
Definition near (s : state) (k : Z) : Prop := exists x, val s k = Some x /\ k + n2 - 1 <= x.

Definition shielded (d c : Z) (s : state) : Prop :=
  Z.max (- n2) (- d) + 1 <= c /\ c + 1 <= reach n2 d /\ c + 2 <= n2 /\ c + 2 <= n1 - n2 /\ near s c /\ near s (c + 1) /\
  (val s (c - 1) = None -> c - 1 = - d /\ d < n2).

Lemma near_frame s s' k : frame s s' k -> near s k -> near s' k.
Proof. intros [U _] (x & E & ?). exists x. split; [| done]. rewrite E in U. by apply upd_Some. Qed.

Section First.
Context (d g h : Z) (s s1 : state) (b : bool).
Notation lo := (lowest n2 (d + 1)).
Notation up := (highest n1 (d + 1)).
Hypotheses (Hd : 0 <= d) (Hp : phase n1 n2 d g h) (Hs : stepped seq1 seq2 lo up lo s s1 b) (Hg1 : gridded seq1 seq2 s1).

(** The first diagonal of a round reads only the one above. *)
Lemma first_outcome : outcome seq1 seq2 lo (val s (lo + 1)) (Some (-1)) (path s (lo + 1)) (path s (lo - 1)) (val s lo) (path s lo) (val s1 lo) (path s1 lo).
Proof.
  destruct Hs as (O & _). unfold top, left in O. destruct (round_bounds n1 n2 n1_pos n2_pos d Hd) as (B & _).
  destruct (lo === up) eqn:?; [lia |]. by rewrite Z.eqb_refl in O.
Qed.

Lemma first_good : Good s (lo + 1) ->
  val s1 lo = val s lo /\ path s1 lo = path s lo /\ val s (lo + 1) = Some (lo + 1 + n2) \/
  Good s1 lo /\ forall a, val s (lo + 1) = Some a -> exists x, val s1 lo = Some x /\ a <= x.
Proof.
  intros (a & E & G). pose proof first_outcome as O. rewrite E in O.
  destruct (outcome_above seq1 seq2 lo _ _ _ _ _ _ a (-1) ltac:(destruct G; lia) G O) as [(? & -> & ->) | (x & Ex & Gx & ?)].
  - left. split; [done |]. split; [done |]. rewrite E. destruct G as (_ & ? & _). f_equal. lia.
  - right. split; [by exists x |]. intros a' Ea. exists x. split; [done |]. assert (a' = a) by congruence. lia.
Qed.

(** The rest of the state is kept. *)
Lemma first_core c : core c g h s -> lo < c -> core c g h s1.
Proof.
  intros Hc Hlo. destruct (phase_bounds n1 n2 n1_pos n2_pos d g h Hd Hp) as (? & _ & ?). destruct Hs as (_ & F & L1 & L2 & _).
  destruct (round_bounds n1 n2 n1_pos n2_pos d Hd) as (B & _).
  apply (core_frame seq1 seq2 c g h s s1); (done || lia || (intros; apply F; lia)).
Qed.

(** A store at the first diagonal makes the ones above it defined. *)
Lemma first_defined k : val s (lo + 1) = None -> lo < k < 0 -> 10 <= plen (fst s) -> is_Some (val s1 k).
Proof.
  intros E Hk Hl. pose proof first_outcome as O. rewrite E in O. cbn in O. destruct Hs as (_ & _ & L1 & L2 & [-> | [_ L3]] & _).
  - apply get_Some in O as [? ?]. apply get_defined; lia.
  - apply get_defined; lia.
Qed.

Lemma first_open c : core c g h s -> open_below d c s ->
  exists c1, core c1 g h s1 /\
    (c1 = lo \/ c1 = lo + 1 /\ (lo = - n2 - 1 \/ val s1 lo = None /\ path s1 lo = null /\ val s (lo + 1) = Some (lo + 1 + n2))).
Proof.
  intros Hc [Hlow Hfr]. destruct (round_bounds n1 n2 n1_pos n2_pos d Hd) as (B & B1 & B2 & _).
  destruct (phase_bounds n1 n2 n1_pos n2_pos d g h Hd Hp) as (? & _ & ?).
  pose proof Hs as (_ & F & _).
  destruct (decide (lo = - n2 - 1)) as [Hlo | Hlo].
  - exists (lo + 1). split; [| right; split; [done | by left]]. assert (n2 <= d) by lia.
    destruct Hlow as [-> | (_ & -> & E & P)]; [replace (lo + 1) with (- Z.min d n2) by lia; apply first_core; [done | lia] |].
    replace (lo + 1) with (- n2 + 1 - 1) by lia. apply core_extend; [apply first_core; [done | lia] |].
    replace (- n2 + 1 - 1) with (- n2) by lia. destruct (F (- n2) ltac:(lia)) as [U P'].
    assert (D : is_Some (val s1 (- n2))). { apply first_defined; [by replace (lo + 1) with (- n2) by lia | lia | apply (c_size _ _ _ _ _ _ Hc)]. }
    rewrite E in U. destruct U as [U | [_ U]]; [rewrite U in D; by destruct D |].
    apply Good_zero; (done || lia || congruence).
  - assert (Hc1 : c = lo + 1 \/ c = lo) by lia.
    assert (Gu : Good s (lo + 1)) by (apply Weak_low; [lia | apply (c_weak _ _ _ _ _ _ Hc); lia]).
    assert (K : Good s1 lo -> exists c1, core c1 g h s1 /\ (c1 = lo \/ c1 = lo + 1 /\ (lo = - n2 - 1 \/ val s1 lo = None /\ path s1 lo = null /\ val s (lo + 1) = Some (lo + 1 + n2)))).
    { intros Gl. exists lo. split; [| by left]. replace lo with (lo + 1 - 1) by lia. apply core_extend; [| by replace (lo + 1 - 1) with lo by lia].
      apply first_core; [apply (core_raise seq1 seq2 c); [done | lia] | lia]. }
    destruct (first_good Gu) as [(Ev & Ep & Eb) | [Gl _]]; [| by apply K].
    destruct (decide (c = lo)) as [-> | Hne].
    { apply K. destruct (c_weak _ _ _ _ _ _ Hc lo ltac:(lia)) as [(x & E & G) | (x & E & P & _)]; [| lia]. exists x. rewrite Ev, Ep. done. }
    assert (Hold : path s lo = null /\ Fresh s lo).
    { destruct Hlow as [-> | (? & -> & E & P)]; [apply Hfr; lia |]. replace lo with (- n2) by lia. split; [done | by left]. }
    destruct Hold as [P [E | E]].
    + exists (lo + 1). split; [apply first_core; [apply (core_raise seq1 seq2 c); [done | lia] | lia] |].
      right. split; [done |]. right. split_and!; congruence.
    + apply K. apply Good_zero; (done || lia || congruence).
Qed.
End First.

Section Rest.
Context (d g h g' h' : Z) (s s' : state).
Notation lo := (lowest n2 (d + 1)).
Notation up := (highest n1 (d + 1)).
Notation k' := (topOf n1 n2 (d + 1)).
Hypotheses (Hd : 0 <= d) (Hp : phase n1 n2 d g h) (Ha : advance n1 n2 d g h g' h' k').
Hypotheses (Hg' : gridded seq1 seq2 s') (L1 : plen (fst s) <= plen (fst s')) (L2 : nlen (fst s) <= nlen (fst s')).
Hypothesis R : forall j, if decide (lo + 2 <= j <= up /\ (j - (lo + 2)) mod 2 = 0) then via seq1 seq2 false lo up s s' j else frame s s' j.

Lemma rest_shape : lo + 2 <= 1 /\ lo + 2 <= k' /\ (lo + 2 - k') mod 2 = 0 /\ k' <= up <= k' + 1.
Proof.
  destruct (round_bounds n1 n2 n1_pos n2_pos d Hd) as (B & _). destruct (topOf_shape n1 n2 (d + 1)) as [T1 T2]; [lia |].
  destruct Ha as (_ & _ & _ & ? & _). split_and!; Z.to_euclidean_division_equations; lia.
Qed.

Lemma rest_via j : lo + 2 <= j <= k' -> (j - lo) mod 2 = 0 -> via seq1 seq2 false lo up s s' j.
Proof.
  intros ? ?. pose proof rest_shape. specialize (R j). rewrite decide_True in R; [done |]. split; [lia |].
  replace (j - (lo + 2)) with (j - lo + -1 * 2) by lia. by rewrite Z.mod_add.
Qed.

Lemma rest_frame j : (j - lo) mod 2 <> 0 \/ j < lo + 2 \/ k' < j -> frame s s' j.
Proof.
  intros Hj. pose proof rest_shape. specialize (R j). rewrite decide_False in R; [done |]. intros [? ?].
  assert ((j - lo) mod 2 = 0). { replace (j - lo) with (j - (lo + 2) + 1 * 2) by lia. by rewrite Z.mod_add. }
  destruct Hj as [? | [? | ?]]; [done | lia |]. Z.to_euclidean_division_equations; lia.
Qed.

Lemma rest_unfinished : unfinished seq1 seq2 s -> unfinished seq1 seq2 s'.
Proof.
  intros U. specialize (R (n1 - n2)). destruct (decide _) in R; [by eapply unfinished_via | by eapply unfinished_frame].
Qed.

(** The round keeps what is sound, from [c] on. *)
Lemma rest_sound c : core c g h s ->
  (forall j, lo + 2 <= j <= k' -> (j - lo) mod 2 = 0 -> c <= j -> c <= j - 1 \/ Good s' j) -> core c g' h' s'.
Proof.
  intros Hc Hsh. pose proof rest_shape as (S1 & S2 & S3 & S4).
  eapply (rest_core seq1 seq2 n1_pos n2_pos d c g h g' h' s s' Hd Hp Hc Ha (lo + 2)); try done; [lia |].
  intros j ? ? ?. apply Hsh; [done | | done]. Z.to_euclidean_division_equations; lia.
Qed.

(** The values a visited diagonal reads, when both are there. *)
Lemma rest_read c j vl : core c g h s -> lo + 2 <= j <= k' -> (j - lo) mod 2 = 0 -> c <= j -> val s (j - 1) = Some vl -> j + 1 <= h \/ j = up ->
  exists a ov nv, outcome seq1 seq2 j (Some a) (Some (1 + vl)) (path s (j + 1)) (path s (j - 1)) ov (path s j) nv (path s' j) /\
    upd (val s j) ov /\ upd nv (val s' j) /\ harmless seq1 seq2 j a (path s (j + 1)) /\ (if j === up then a = -1 else val s (j + 1) = Some a).
Proof.
  intros Hc Hj Hpar Hcj El Ht. destruct (via_inputs seq1 seq2 false lo up s s' j vl (rest_via j Hj Hpar) ltac:(lia) El) as (t & ov & nv & O & Uo & Un & T).
  destruct (top_cases seq1 seq2 d c g h g' h' s Hc Ha j t Hcj ltac:(lia) T) as [(-> & ? & ?) | (a & -> & Hh & _ & _)].
  { destruct (j === up) eqn:?; [done | lia]. }
  exists a, ov, nv. split_and!; try done. destruct (j === up) eqn:?; [congruence |].
  destruct (c_weak _ _ _ _ _ _ Hc (j + 1)) as [(x & E & _) | (x & E & _)]; [lia | |]; rewrite E in *; apply upd_Some in T; congruence.
Qed.

(** The bounds of a shield. *)
Definition shield_bounds (c : Z) : Prop :=
  lo < c /\ - n2 + 1 <= c /\ c + 1 <= reach n2 d /\ c + 2 <= n2 /\ c + 2 <= n1 - n2.

Lemma shield_top c : shield_bounds c -> c + 1 <= h /\ c + 1 <= k' /\ ((c + 1 - lo) mod 2 = 0 -> c + 2 <= h).
Proof.
  intros (B1 & B2 & B3 & B4 & B5). pose proof rest_shape as (_ & _ & S3 & _). pose proof (reach_le n2 d).
  destruct Ha as (_ & _ & _ & _ & _ & _ & A6). split_and!; [destruct Hp as [|]; lia | lia |]. intros Hpar.
  destruct Hp as [(P1 & P2 & P3) | ?]; [| lia]. destruct (decide (c + 1 = reach n2 d)) as [E |]; [exfalso | lia].
  destruct (reach_step n2 d Hd) as [Er | (Er & -> & _)]; [| rewrite (reach_early n2 n2) in E; lia].
  pose proof (topOf_reach n1 n2 n2_pos (d + 1) ltac:(lia) ltac:(lia)) as T. rewrite T, Er in S3. Z.to_euclidean_division_equations; lia.
Qed.

Lemma near_Good c k : core c g h s -> c <= k <= h -> near s k -> exists x, val s k = Some x /\ k + n2 - 1 <= x /\ good seq1 seq2 k x (path s k).
Proof.
  intros Hc Hk (x & E & ?). exists x. split; [done |]. split; [done |].
  destruct (Weak_large seq1 seq2 s k x (c_weak _ _ _ _ _ _ Hc k Hk) E ltac:(lia)) as (x' & E' & G). by assert (x' = x) as -> by congruence.
Qed.

(** The lower diagonal of the shield: what comes from below is not farther than its neighbour. *)
Lemma shield_lower c vl : core c g h s -> shield_bounds c -> near s c -> near s (c + 1) -> val s (c - 1) = Some vl ->
  (c - lo) mod 2 = 0 -> Good s' c /\ near s' c.
Proof.
  intros Hc B N N1 El Hpar. destruct (shield_top c B) as (T1 & T2 & _). destruct B as (B1 & B2 & B3 & B4 & B5).
  assert (Hlo : lo + 2 <= c) by (Z.to_euclidean_division_equations; lia). pose proof rest_shape as (_ & _ & _ & S4).
  destruct (rest_read c c vl Hc ltac:(lia) Hpar ltac:(lia) El ltac:(lia)) as (a & ov & nv & O & Uo & Un & _ & Ea).
  destruct (c === up) eqn:?; [lia |].
  destruct (near_Good c (c + 1) Hc ltac:(lia) N1) as (a' & Ea' & Hna & Ga). assert (a' = a) as -> by congruence.
  assert (vl - (c - 1) <= n2) by (apply (c_grid _ _ _ _ _ _ Hc) in El; lia).
  destruct (outcome_above seq1 seq2 c _ _ _ _ _ _ a (1 + vl) ltac:(lia) Ga O) as [(_ & -> & Ep) | (x & -> & Gx & ?)].
  - destruct (near_Good c c Hc ltac:(lia) N) as (x & Ex & Hx & Gx). rewrite Ex in Uo. apply upd_Some in Uo as ->. apply upd_Some in Un.
    split; exists x; [by rewrite Ep | done].
  - apply upd_Some in Un. split; exists x; (split; [done |]); [done | lia].
Qed.

(** The upper one. *)
Lemma shield_upper c : core c g h s -> shield_bounds c -> near s c -> near s (c + 1) -> (c + 1 - lo) mod 2 = 0 -> near s' (c + 1).
Proof.
  intros Hc B N N1 Hpar. destruct (shield_top c B) as (T1 & T2 & T3). specialize (T3 Hpar). destruct B as (B1 & B2 & B3 & B4 & B5).
  destruct (near_Good c c Hc ltac:(lia) N) as (vl & El & Hvl & Gl).
  assert (Hlo : lo + 2 <= c + 1) by (Z.to_euclidean_division_equations; lia).
  destruct (rest_read c (c + 1) vl Hc ltac:(lia) Hpar ltac:(lia)) as (a & ov & nv & O & Uo & Un & Hh & _);
    [by replace (c + 1 - 1) with c by lia | lia |].
  replace (c + 1 - 1) with c in O by lia.
  destruct (outcome_good seq1 seq2 n1_pos (c + 1) _ _ _ _ _ _ a vl ltac:(lia) ltac:(by replace (c + 1 - 1) with c by lia) Hh O) as [(-> & _ & _) | (x & -> & _ & Hx)].
  - destruct N1 as (x & Ex & ?). rewrite Ex in Uo. apply upd_Some in Uo as ->. apply upd_Some in Un. by exists x.
  - apply upd_Some in Un. exists x. split; [done | lia].
Qed.

Lemma shield_kept c vl : core c g h s -> shield_bounds c -> near s c -> near s (c + 1) -> val s (c - 1) = Some vl ->
  core c g' h' s' /\ near s' c /\ near s' (c + 1).
Proof.
  intros Hc B N N1 El. split; [| split].
  - apply rest_sound; [done |]. intros j ? Hpar ?. destruct (decide (c = j)) as [-> |]; [right; by eapply shield_lower | left; lia].
  - destruct (decide ((c - lo) mod 2 = 0)); [by eapply shield_lower | eapply near_frame, N; apply rest_frame; tauto].
  - destruct (decide ((c + 1 - lo) mod 2 = 0)); [by eapply shield_upper | eapply near_frame, N1; apply rest_frame; tauto].
Qed.

(** The highest diagonal of a parity that ends at the bottom. *)
Lemma last_bottom k : gridded seq1 seq2 s -> val s k = Some (k + n2) ->
  exists b, k <= b /\ (b - k) mod 2 = 0 /\ val s b = Some (b + n2) /\ val s (b + 2) <> Some (b + 2 + n2).
Proof.
  intros G. remember (Z.to_nat (n1 - n2 - k)) as m eqn:Em. revert k Em.
  induction m as [m IH] using lt_wf_ind. intros k Em E. pose proof (G _ _ E) as [? _].
  destruct (decide (val s (k + 2) = Some (k + 2 + n2))) as [E2 | E2]; [| exists k; split_and!; (done || lia || by rewrite Z.sub_diag)].
  pose proof (G _ _ E2) as [? _]. destruct (IH (Z.to_nat (n1 - n2 - (k + 2))) ltac:(lia) (k + 2) eq_refl E2) as (b & ? & Hb & ? & ?).
  exists b. split_and!; try (done || lia). replace (b - k) with (b - (k + 2) + 1 * 2) by lia. by rewrite Z.mod_add.
Qed.

(** Right of a diagonal that ends at the bottom the next one does too. *)
Lemma bottom_moves c b : core c g h s -> d + 1 < n2 -> c <= b -> lo < b -> (b + 1 - lo) mod 2 = 0 -> b < n1 - n2 ->
  val s b = Some (b + n2) -> val s (b + 2) <> Some (b + 2 + n2) -> b + 1 <= d + 1 /\ b + 1 <= k' /\ val s' (b + 1) = Some (b + 1 + n2).
Proof.
  intros Hc Hdn Hcb Hlb Hpar Hbk Eb Eb2. pose proof rest_shape as (S1 & S2 & S3 & S4).
  destruct (round_bounds n1 n2 n1_pos n2_pos d Hd) as (B & B1 & _ & B3 & _). specialize (B1 ltac:(lia)).
  assert (Rd : reach n2 d = d) by (apply reach_early; lia). assert (Rd' : reach n2 (d + 1) = d + 1) by (apply reach_early; lia).
  assert (Hbh : b <= h).
  { destruct (decide (h < b)) as [Hb |]; [| lia]. destruct (c_fresh _ _ _ _ _ _ Hc b Hb) as [? | ?]; [congruence |]. assert (b + n2 = 0) by congruence. lia. }
  pose proof Ha as (_ & _ & _ & A3 & _ & _ & A6).
  assert (Hbd : b <= d /\ b + 1 <= k'). { destruct Hp as [(P1 & P2 & P3) | ?]; lia. }
  assert (Htop : b + 2 <= h \/ b + 1 = up).
  { destruct Hp as [(P1 & P2 & P3) | (P1 & ?)]; [| left; lia]. rewrite Rd in *. destruct (decide (b = d)) as [-> |].
    - right. assert (d + 1 <= n1) by lia. pose proof (topOf_reach n1 n2 n2_pos (d + 1) ltac:(lia) ltac:(lia)). lia.
    - left. Z.to_euclidean_division_equations; lia. }
  split; [lia |]. split; [lia |].
  destruct (rest_read c (b + 1) (b + n2) Hc ltac:(Z.to_euclidean_division_equations; lia) Hpar ltac:(lia)) as (a & ov & nv & O & Uo & Un & Hh & Ea);
    [by replace (b + 1 - 1) with b by lia | lia |].
  assert (Hal : a <= b + 1 + n2).
  { destruct (b + 1 === up) eqn:?; [lia |]. replace (b + 1 + 1) with (b + 2) in Ea by lia.
    assert (a <> b + 2 + n2) by congruence. apply (c_grid _ _ _ _ _ _ Hc) in Ea. lia. }
  cbn in O. replace (Z.min (Z.max a (1 + (b + n2))) n1) with (b + 1 + n2) in O by lia.
  destruct O as [(? & _) | (_ & x & -> & X1 & X2 & _)]; [lia |]. apply upd_Some in Un. rewrite Un. f_equal. lia.
Qed.

Lemma shield_created : core (lo + 1) g h s -> d + 1 < n2 -> val s (lo + 1) = Some (lo + 1 + n2) -> unfinished seq1 seq2 s ->
  exists b, core b g' h' s' /\ shielded (d + 1) b s'.
Proof.
  intros Hc Hdn Eb U. pose proof rest_shape as (S1 & S2 & S3 & S4).
  destruct (round_bounds n1 n2 n1_pos n2_pos d Hd) as (B & B1 & _ & _). specialize (B1 ltac:(lia)).
  destruct (last_bottom (lo + 1) (c_grid _ _ _ _ _ _ Hc) Eb) as (b & Hb & Hpar & Ebb & Eb2).
  assert (Hbk : b < n1 - n2).
  { pose proof (c_grid _ _ _ _ _ _ Hc _ _ Ebb) as [? _]. destruct (decide (b = n1 - n2)) as [-> |]; [| lia].
    exfalso. apply U. rewrite Ebb. f_equal; lia. }
  assert (Hpar' : (b + 1 - lo) mod 2 = 0) by (Z.to_euclidean_division_equations; lia).
  destruct (bottom_moves (lo + 1) b Hc Hdn ltac:(lia) ltac:(lia) Hpar' Hbk Ebb Eb2) as (Hbd & Hbk' & Eb1).
  assert (Hs : core (lo + 1) g' h' s') by (apply rest_sound; [done | intros; left; lia]).
  exists b. split; [by apply (core_raise seq1 seq2 (lo + 1)) |]. unfold shielded. rewrite (reach_early n2 (d + 1)) by lia.
  pose proof (rest_unfinished U) as U'.
  assert (b + 1 <> n1 - n2). { intros E. apply U'. rewrite <- E, Eb1. f_equal; lia. }
  split_and!; try lia.
  - exists (b + n2). split; [| lia]. assert (F : frame s s' b) by (apply rest_frame; left; Z.to_euclidean_division_equations; lia).
    destruct F as [F _]. rewrite Ebb in F. by apply upd_Some.
  - exists (b + 1 + n2). split; [done | lia].
  - intros EN. destruct (decide (b = lo + 1)); [lia |]. exfalso.
    destruct (c_weak _ _ _ _ _ _ Hs (b - 1)) as [(x & E & _) | (x & E & _)]; try congruence.
    destruct Ha as (_ & ? & _). Z.to_euclidean_division_equations; lia.
Qed.
End Rest.
End Low.
