(* ===== verification/MyersInvariant.v ===== *)
(** * The algorithm of Myers: the invariant of the rounds

    What a whole round of [MyersDiffAlgorithm.compute] does: it keeps the invariant, or ends
    with a path to the end of both sequences. *)

From stdpp Require Import gmap.
From S2P Require Import Prelude Intervals OffsetRange Diff DiffAligned MyersSteps MyersBounds MyersPaths MyersRounds MyersLow.
Import FastInt32ArrayFacts.

Section Myers.
Variables (seq1 seq2 : ISequence.t).
Notation n1 := (ISequence.length seq1).
Notation n2 := (ISequence.length seq2).
Hypotheses (n1_pos : 1 <= n1) (n2_pos : 1 <= n2) (n1_int32 : n1 < 2 ^ 31).
Notation Good := (Good seq1 seq2).
Notation core := (core seq1 seq2).
Notation unfinished := (unfinished seq1 seq2).
Notation open_below := (open_below seq2).
Notation shielded := (shielded seq1 seq2).
Notation near := (near seq2).

(** ** The invariant of the rounds *)

Record inv (d g h c : Z) (s : state) : Prop := {
  i_phase : phase n1 n2 d g h;
  i_core : core c g h s;
  i_unfinished : unfinished s;
  i_neg : Z.min d n2 <= nlen (fst s) + 1;
  i_low : open_below d c s \/ shielded d c s
}.

Section Round.
Context (d g h c : Z) (s : state).
Notation lo := (lowest n2 (d + 1)).
Notation up := (highest n1 (d + 1)).
Notation k' := (topOf n1 n2 (d + 1)).
Hypotheses (Hd : 0 <= d) (Hi : inv d g h c s).

(** ** The first diagonal of a round *)

(** What is sound after the first diagonal. *)
Definition after_first (c1 : Z) (s1 : state) : Prop :=
  core c1 g h s1 /\
  ((c1 = lo \/ c1 = lo + 1 /\ (lo = - n2 - 1 \/ val s1 lo = None /\ path s1 lo = null /\ val s (lo + 1) = Some (lo + 1 + n2))) /\
    open_below d c s /\ (- n2 <= lo -> c <= lo + 1) \/
   shield_bounds seq1 seq2 d c1 /\ near s1 c1 /\ near s1 (c1 + 1) /\ (exists vl, val s1 (c1 - 1) = Some vl) /\ - d + 1 <= c1).

Lemma first_after s1 b : stepped seq1 seq2 lo up lo s s1 b -> exists c1, after_first c1 s1.
Proof.
  intros Hs. destruct Hi as [Hp Hc U Hn Hl]. destruct (round_bounds n1 n2 n1_pos n2_pos d Hd) as (B & B1 & B2 & _).
  assert (Hg1 : gridded seq1 seq2 s1) by (eapply (stepped_gridded seq1 seq2 lo up lo); eauto; try lia; apply (c_grid _ _ _ _ _ _ Hc)).
  pose proof Hs as (_ & F & L1 & L2 & _). destruct Hl as [Ho | (C1 & C2 & C3 & C4 & N & N1 & Hdef)].
  - destruct (first_open seq1 seq2 n1_pos n2_pos d g h s s1 b Hd Hp Hs Hg1 c Hc Ho) as (c1 & Hc1 & K). exists c1. split; [done |]. left.
    split; [done |]. split; [done |]. destruct Ho as [[-> | (? & -> & _)] _]; lia.
  - assert (Hlo : lo < c) by lia. exists c. split; [by apply (first_core seq1 seq2 n1_pos n2_pos d g h s s1 b Hd Hp Hs Hg1) |]. right.
    split_and!; [| eapply near_frame, N; apply F; lia | eapply near_frame, N1; apply F; lia | | lia].
    { unfold shield_bounds. lia. }
    destruct (val s (c - 1)) as [vl |] eqn:E.
    + apply get_Some in E as [? ?]. apply (get_defined (fst s1)); lia.
    + destruct (Hdef eq_refl) as [Ec Hdn]. assert (El : lo = - (d + 1)) by (apply B1; lia).
      destruct (first_defined seq1 seq2 n1_pos n2_pos d s s1 b Hd Hs Hg1 (c - 1)) as [x Hx]; [by replace (lo + 1) with (c - 1) by lia | pose proof (reach_le n2 d); lia | apply (c_size _ _ _ _ _ _ Hc) |].
      by exists x.
Qed.

(** The loop ends at the first diagonal. *)
Lemma first_break s1 : stepped seq1 seq2 lo up lo s s1 true -> reaches seq1 seq2 (path s1 lo) n1 n2.
Proof.
  intros Hs. pose proof Hs as (_ & _ & _ & _ & _ & Hb & _). destruct (Hb eq_refl) as [Ev Ek]. destruct Hi as [Hp Hc U Hn Hl].
  destruct (round_bounds n1 n2 n1_pos n2_pos d Hd) as (B & B1 & B2 & _).
  assert (Hg1 : gridded seq1 seq2 s1) by (eapply (stepped_gridded seq1 seq2 lo up lo); eauto; try lia; apply (c_grid _ _ _ _ _ _ Hc)).
  destruct (phase_bounds n1 n2 n1_pos n2_pos d g h Hd Hp) as (? & _ & ?).
  assert (Gu : Good s (lo + 1)).
  { apply Weak_low; [lia | apply (c_weak _ _ _ _ _ _ Hc)]. destruct Hl as [[[-> | (? & -> & _)] _] | (? & ? & ? & ? & _)]; lia. }
  destruct (first_good seq1 seq2 n1_pos n2_pos d s s1 true Hd Hs Gu) as [(E & _) | [(x & Ex & Gx) _]].
  - exfalso. apply U. replace (n1 - n2) with lo by lia. congruence.
  - by destruct Gx as (_ & _ & _ & ?).
Qed.

(** ** The other diagonals *)

Section Rest.
Context (g' h' c1 : Z) (s1 s' : state) (b : bool).
Hypotheses (Ha : advance n1 n2 d g h g' h' k') (Hs : stepped seq1 seq2 lo up lo s s1 b) (Hf : after_first c1 s1).

(** The loop ends at another diagonal. *)
Lemma rest_break e : lo + 2 <= e <= up -> (e - (lo + 2)) mod 2 = 0 -> val s' e = Some n1 -> n1 - e = n2 -> via seq1 seq2 true lo up s1 s' e ->
  reaches seq1 seq2 (path s' e) n1 n2.
Proof.
  intros He Hpar Ev Ek Hv. destruct Hf as [Hc1 Hlow]. destruct Hi as [Hp Hc U Hn _].
  assert (Hce : c1 <= e - 1). { destruct Hlow as [[[? | [? _]] _] | [(? & ? & ? & ? & ?) _]]; lia. }
  pose proof Ha as (_ & _ & _ & A3 & _). destruct (topOf_shape n1 n2 (d + 1)) as [T1 T2]; [lia |].
  assert (Hpar' : (e - k') mod 2 = 0) by (Z.to_euclidean_division_equations; lia).
  destruct (step_entry seq1 seq2 n1_pos n2_pos d c1 g h g' h' s1 s' Hd Hp Hc1 Ha true e Hv ltac:(lia) Hce) as (W & _); [Z.to_euclidean_division_equations; lia | done |].
  destruct (Weak_large seq1 seq2 s' e n1 W Ev ltac:(lia)) as (x & _ & _ & _ & _ & ?). done.
Qed.

Hypotheses (Hg' : gridded seq1 seq2 s') (L1 : plen (fst s1) <= plen (fst s')) (L2 : nlen (fst s1) <= nlen (fst s')).
Hypothesis R : forall j, if decide (lo + 2 <= j <= up /\ (j - (lo + 2)) mod 2 = 0) then via seq1 seq2 false lo up s1 s' j else frame s1 s' j.

Lemma rest_neg : Z.min (d + 1) n2 <= nlen (fst s') + 1.
Proof.
  destruct Hi as [Hp Hc U Hn _]. destruct (round_bounds n1 n2 n1_pos n2_pos d Hd) as (B & B1 & B2 & _).
  destruct (decide (d + 1 <= n2)) as [Hdn |]; [| destruct Hs as (_ & _ & _ & ? & _); lia]. specialize (B1 Hdn).
  pose proof (first_outcome seq1 seq2 n1_pos n2_pos d s s1 b Hd Hs) as O. destruct Hs as (_ & _ & _ & ? & [E | [_ ?]] & _); [| lia].
  destruct (val s (lo + 1)) as [a |] eqn:Ea; [apply get_Some in Ea as [_ ?]; lia |].
  cbn in O. apply get_Some in O as [_ ?]. lia.
Qed.

Lemma rest_low : unfinished s1 -> exists c', core c' g' h' s' /\ (open_below (d + 1) c' s' \/ shielded (d + 1) c' s').
Proof.
  intros U1. destruct Hf as [Hc1 Hlow]. destruct Hi as [Hp Hc U Hn _]. destruct (round_bounds n1 n2 n1_pos n2_pos d Hd) as (B & B1 & B2 & _).
  pose proof Hs as (_ & F & _). destruct Hlow as [[Hlow [[_ Hfr] _]] | (SB & N & N1 & [vl El] & ?)].
  2: { destruct (shield_kept seq1 seq2 n1_pos n2_pos d g h g' h' s1 s' Hd Hp Ha Hg' L1 L2 R c1 vl Hc1 SB N N1 El) as (K1 & K2 & K3).
    exists c1. split; [done |]. right. destruct SB as (? & ? & ? & ? & ?). pose proof (reach_step n2 d Hd).
    unfold MyersLow.shielded. split_and!; try (done || lia). intros En. exfalso. apply get_Some in El as [? ?].
    destruct (get_defined (fst s') (c1 - 1)) as [x Hx]; [lia.. |]. unfold val in En. congruence. }
  assert (Hs' : core c1 g' h' s') by (eapply (rest_sound seq1 seq2 n1_pos n2_pos d g h g' h' s1 s' Hd Hp Ha Hg' L1 L2 R); [done | intros; left; lia]).
  assert (Ff : forall k, k < lo -> frame s s' k).
  { intros k ?. eapply frame_trans; [apply F; lia |]. apply (rest_frame seq1 seq2 n1_pos n2_pos d g h g' h' s1 s' Hd Ha R). lia. }
  assert (Op : forall c', c' = - Z.min (d + 1) n2 -> core c' g' h' s' -> exists c', core c' g' h' s' /\ (open_below (d + 1) c' s' \/ shielded (d + 1) c' s')).
  { intros c' -> K. exists (- Z.min (d + 1) n2). split; [done |]. left. split; [by left |]. intros k Hk.
    destruct (Hfr k ltac:(lia)) as [P Fr]. pose proof (Ff k ltac:(lia)) as Fk. split; [by rewrite (proj2 Fk) | by eapply Fresh_frame]. }
  destruct Hlow as [-> | [-> [Hlo | (En & Pn & Eb)]]].
  - destruct (decide (lo = - n2 - 1)); [apply (Op (- n2)); [lia | by apply (core_raise seq1 seq2 lo); [| lia]] | apply (Op lo); [lia | done]].
  - apply (Op (- n2)); [lia | by replace (- n2) with (lo + 1) by lia].
  - destruct (decide (d + 1 < n2)) as [Hdn | Hdn].
    { destruct (shield_created seq1 seq2 n1_pos n2_pos d g h g' h' s1 s' Hd Hp Ha Hg' L1 L2 R Hc1 Hdn) as (c' & ? & ?); [| done | by exists c'; split; [| right]].
      destruct (F (lo + 1) ltac:(lia)) as [Fv _]. rewrite Eb in Fv. by apply upd_Some. }
    assert (Hlo : lo = - n2 \/ lo = - n2 - 1) by lia. destruct Hlo as [Hlo | Hlo]; [| apply (Op (- n2)); [lia | by replace (- n2) with (lo + 1) by lia]].
    destruct (rest_frame seq1 seq2 n1_pos n2_pos d g h g' h' s1 s' Hd Ha R lo ltac:(lia)) as [Fv Fp].
    rewrite En in Fv. destruct Fv as [Fv | [_ Fv]].
    + exists (lo + 1). split; [done |]. left. split; [right; rewrite <- Hlo; split_and!; try (done || lia || congruence) | intros; lia].
    + apply (Op (- n2)); [lia |]. rewrite <- Hlo. replace lo with (lo + 1 - 1) at 1 by lia. apply core_extend; [done |].
      replace (lo + 1 - 1) with lo by lia. apply Good_zero; (done || lia || congruence).
Qed.

(** Once all diagonals are visited, the last one advances in two rounds. *)
Lemma late_round : n1 + n2 + 2 <= d -> n1 <= h /\ g = n1 - 1 /\ n1 - 1 <= k' /\ (lo = - n2 \/ lo = - n2 - 1).
Proof.
  intros Hl. pose proof (reach_le n2 d). pose proof (reach_le n2 (d + 1)). destruct (round_bounds n1 n2 n1_pos n2_pos d Hd) as (_ & _ & B2 & _).
  destruct (topOf_beyond n1 n2 n2_pos (d + 1)) as (T & _); [lia.. |]. destruct Hi as [[|] _ _ _ _]; lia.
Qed.

Lemma progress_right y : n1 + n2 + 2 <= d -> val s (n1 - n2 - 1) = Some y -> (n1 - n2 - lo) mod 2 = 0 ->
  exists x, val s' (n1 - n2) = Some x /\ y + 1 <= x.
Proof.
  intros Hl Ey Hpar. destruct (late_round Hl) as (Hh & Hg & Hk & Hlo). destruct Hi as [Hp Hc U Hn _]. destruct Hf as [Hc1 Hlow]. destruct Hs as (_ & F & _).
  assert (Hkt : lo + 2 <= n1 - n2) by (Z.to_euclidean_division_equations; lia).
  assert (Hc1k : c1 <= n1 - n2 - 1) by (destruct Hlow as [[[? | [? _]] _] | [(? & ? & ? & ? & ?) _]]; lia).
  destruct (F (n1 - n2 - 1) ltac:(lia)) as [Ey1 _]. rewrite Ey in Ey1. apply upd_Some in Ey1.
  destruct (rest_read seq1 seq2 n1_pos n2_pos d g h g' h' s1 s' Hd Ha R c1 (n1 - n2) y Hc1 ltac:(lia) Hpar ltac:(lia) Ey1 ltac:(lia))
    as (a & ov & nv & O & Uo & Un & Hh' & Ea).
  destruct (c_good _ _ _ _ _ _ Hc1 (n1 - n2 - 1) ltac:(lia)) as (y' & Ey' & Gy). assert (y' = y) as -> by congruence.
  destruct (outcome_good seq1 seq2 n1_pos (n1 - n2) _ _ _ _ _ _ a y ltac:(lia) Gy Hh' O) as [(_ & _ & Hskip) | (x & -> & _ & Hx)].
  - exfalso. destruct (_ === _); [lia |]. apply (c_grid _ _ _ _ _ _ Hc1) in Ea. lia.
  - apply upd_Some in Un. exists x. split; [done |]. destruct Gy as (? & ? & _). lia.
Qed.

Lemma progress_down x : n1 + n2 + 2 <= d -> val s (n1 - n2) = Some x -> (n1 - n2 - 1 - lo) mod 2 = 0 ->
  exists y, val s' (n1 - n2 - 1) = Some y /\ x <= y.
Proof.
  intros Hl Ex Hpar. destruct (late_round Hl) as (Hh & Hg & Hk & Hlo). pose proof Hi as [Hp Hc U Hn _]. destruct Hf as [Hc1 Hlow]. pose proof Hs as (_ & F & _).
  assert (Hx : x <> n1) by (intros ->; by apply U). pose proof (c_grid _ _ _ _ _ _ Hc _ _ Ex) as [Hx1 _].
  destruct (decide (n1 - n2 - 1 = lo)) as [El | El].
  - assert (Gu : Good s (lo + 1)).
    { apply (c_good _ _ _ _ _ _ Hc). destruct Hlow as [(_ & _ & ?) | [(? & ? & ? & ? & ?) _]]; lia. }
    destruct (first_good seq1 seq2 n1_pos n2_pos d s s1 b Hd Hs Gu) as [(_ & _ & E) | [_ K]].
    + replace (lo + 1) with (n1 - n2) in E by lia. assert (x = n1 - n2 + n2) by congruence. lia.
    + destruct (K x) as (y & Ey & ?); [by replace (lo + 1) with (n1 - n2) by lia |]. exists y. split; [| done]. rewrite El.
      destruct (rest_frame seq1 seq2 n1_pos n2_pos d g h g' h' s1 s' Hd Ha R lo ltac:(lia)) as [Fv _]. rewrite Ey in Fv. by apply upd_Some.
  - assert (Hkt : lo + 2 <= n1 - n2 - 1) by (Z.to_euclidean_division_equations; lia).
    assert (Hc1k : c1 <= n1 - n2 - 2) by (destruct Hlow as [[[? | [? _]] _] | [(? & ? & ? & ? & ?) _]]; lia).
    destruct (c_good _ _ _ _ _ _ Hc1 (n1 - n2 - 2) ltac:(lia)) as (vl & Evl & Gl).
    replace (n1 - n2 - 2) with (n1 - n2 - 1 - 1) in Evl, Gl by lia.
    destruct (rest_read seq1 seq2 n1_pos n2_pos d g h g' h' s1 s' Hd Ha R c1 (n1 - n2 - 1) vl Hc1 ltac:(lia) Hpar ltac:(lia) Evl ltac:(lia))
      as (a & ov & nv & O & Uo & Un & Hh' & Ea).
    replace (n1 - n2 - 1 + 1) with (n1 - n2) in * by lia.
    destruct (topOf_shape n1 n2 (d + 1)) as [T1 _]; [lia |]. destruct (n1 - n2 - 1 === up) eqn:?; [lia |].
    destruct (F (n1 - n2) ltac:(lia)) as [Ex1 _]. rewrite Ex in Ex1. apply upd_Some in Ex1. assert (a = x) as -> by congruence.
    destruct (outcome_good seq1 seq2 n1_pos (n1 - n2 - 1) _ _ _ _ _ _ x vl ltac:(lia) Gl Hh' O) as [(_ & _ & Hskip) | (y & -> & _ & Hy)]; [lia |].
    apply upd_Some in Un. exists y. split; [done | lia].
Qed.
End Rest.

(** ** A whole round *)

(** What a round that does not end the loop does to the last diagonals. *)
Definition progress (s' : state) : Prop := n1 + n2 + 2 <= d ->
  (forall y, val s (n1 - n2 - 1) = Some y -> (n1 - n2 - lo) mod 2 = 0 -> exists x, val s' (n1 - n2) = Some x /\ y + 1 <= x) /\
  (forall x, val s (n1 - n2) = Some x -> (n1 - n2 - 1 - lo) mod 2 = 0 -> exists y, val s' (n1 - n2 - 1) = Some y /\ x <= y).

Lemma round_storable (s1 : state) (j : Z) : plen (fst s) <= plen (fst s1) -> nlen (fst s) <= nlen (fst s1) -> lo <= j <= up -> storable (fst s1) j.
Proof.
  intros L1 L2 Hj. destruct Hi as [Hp Hc U Hn Hl]. destruct (round_bounds n1 n2 n1_pos n2_pos d Hd) as (B & B1 & B2 & _). destruct (c_size _ _ _ _ _ _ Hc).
  destruct (advance_phase n1 n2 n1_pos n2_pos d g h Hd Hp) as (g' & h' & Ph & A1 & A2 & A3 & _).
  destruct (phase_bounds n1 n2 n1_pos n2_pos d g h Hd Hp) as (? & _ & ?).
  destruct (topOf_shape n1 n2 (d + 1)) as [T1 _]; [lia |].
  assert (Hh : c <= h). { destruct Hl as [[[-> | (_ & -> & _)] _] | (C1 & C2 & C3 & C4 & _)]; [lia.. |]. destruct Hp as [|]; lia. }
  assert (h < plen (fst s)). { destruct (c_weak _ _ _ _ _ _ Hc h ltac:(lia)) as [(x & E & _) | (x & E & _)]; by apply get_Some in E as [? _]. }
  split; lia.
Qed.

Lemma round_spec : exists s' r,
  Myers.diagonals seq1 seq2 (Z.to_nat (up - lo + 1)) lo up lo (fst s) (snd s) = Ret (s', r) /\
  match r with
  | Some e => reaches seq1 seq2 (path s' e) n1 n2
  | None => (exists g' h' c', inv (d + 1) g' h' c' s') /\ progress s'
  end.
Proof.
  destruct (round_bounds n1 n2 n1_pos n2_pos d Hd) as (B & _). pose proof Hi as [Hp Hc U Hn Hl].
  destruct (advance_phase n1 n2 n1_pos n2_pos d g h Hd Hp) as (g' & h' & Ha).
  destruct (Z.to_nat (up - lo + 1)) as [| n] eqn:En; [lia |]. cbn [Myers.diagonals]. destruct (lo <=? up) eqn:?; [| lia].
  pose proof (c_grid _ _ _ _ _ _ Hc) as G.
  destruct (diagonal_spec seq1 seq2 n1_int32 lo up lo s ltac:(lia) ltac:(lia)) as (s1 & b & -> & Hs);
    [apply round_storable; lia | intros ? ?; by eapply G.. | lia |]. cbn [res_bind fst snd].
  assert (G1 : gridded seq1 seq2 s1) by (eapply (stepped_gridded seq1 seq2 lo up lo); eauto; lia).
  destruct b; [exists s1, (Some lo); split; [done | by apply first_break] |].
  destruct (first_after s1 false Hs) as [c1 Hf]. pose proof Hs as (_ & _ & K1 & K2 & _).
  destruct (diagonals_spec seq1 seq2 n1_int32 n lo up (lo + 2) s1 ltac:(lia) ltac:(lia) ltac:(lia) G1) as (s' & r & -> & G' & L1 & L2 & R);
    [intros j ?; apply round_storable; lia | lia |].
  exists s', r. split; [done |]. destruct r as [e |].
  { destruct R as (R1 & R2 & R3 & R4 & R5). by apply (rest_break g' h' c1 s1 s' Ha Hf e). }
  pose proof (unfinished_step seq1 seq2 n1_pos _ _ _ _ _ Hs U) as U1. split.
  - destruct (rest_low g' h' c1 s1 s' false Ha Hs Hf G' L1 L2 R U1) as (c' & Hc' & Hl'). exists g', h', c'. split; try done.
    + by destruct Ha.
    + by apply (rest_unfinished seq1 seq2 n1_pos d s1 s' R).
    + by apply (rest_neg s1 s' false Hs).
  - intros Hlate. split; intros ? ? ?; [by apply (progress_right g' h' c1 s1 s' false Ha Hs Hf R) | by apply (progress_down g' h' c1 s1 s' false Ha Hs Hf R)].
Qed.
End Round.
End Myers.
