(* ===== verification/MyersDiff.v ===== *)
(** * The algorithm of Myers

    [MyersDiffAlgorithm.compute] returns, for all sequences, differences that turn the first
    sequence into the second one. *)

From stdpp Require Import gmap.
From S2P Require Import Prelude Intervals OffsetRange Diff DiffAligned MyersSteps MyersBounds MyersPaths MyersRounds MyersLow MyersInvariant.
Import FastInt32ArrayFacts.

Section Compute.
Variables (seq1 seq2 : ISequence.t) (timeout : ITimeout).
Notation n1 := (ISequence.length seq1).
Notation n2 := (ISequence.length seq2).
Notation inv := (inv seq1 seq2).
Notation reaches := (reaches seq1 seq2).
Notation lo d := (lowest n2 (d + 1)).
Hypotheses (n1_pos : 1 <= n1) (n2_pos : 1 <= n2) (n1_int32 : n1 < 2 ^ 31).

(** ** The rounds *)

(** The rounds end with a path to the end of both sequences, or because of the timeout. *)
Definition finishes (fuel calls : nat) (d : Z) (s : state) : Prop :=
  exists o, Myers.rounds seq1 seq2 timeout fuel calls d (fst s) (snd s) = Ret o /\
    match o with Some p => reaches p n1 n2 | None => exists i, timeout i = false end.

Lemma finishes_round fuel calls d s s' r :
  Myers.diagonals seq1 seq2 (Z.to_nat (highest n1 (d + 1) - lo d + 1)) (lo d) (highest n1 (d + 1)) (lo d) (fst s) (snd s) = Ret (s', r) ->
  match r with Some e => reaches (path s' e) n1 n2 | None => finishes fuel (S calls) (d + 1) s' end -> finishes (S fuel) calls d s.
Proof.
  intros E K. unfold finishes. cbn [Myers.rounds]. change (Myers.lowerBoundOf seq2 (d + 1)) with (lo d). change (Myers.upperBoundOf seq1 (d + 1)) with (highest n1 (d + 1)).
  destruct (timeout calls) eqn:T; [| exists None; split; [done | by exists calls]]. cbn [negb]. rewrite E. cbn [res_bind].
  destruct r as [e |]; [by exists (Some (path s' e)) | done].
Qed.

Lemma rounds_step fuel calls d g h c s : 0 <= d -> inv d g h c s ->
  (forall s' g' h' c', inv (d + 1) g' h' c' s' -> progress seq1 seq2 d s s' -> finishes fuel (S calls) (d + 1) s') -> finishes (S fuel) calls d s.
Proof.
  intros Hd Hi K. destruct (round_spec seq1 seq2 n1_pos n2_pos n1_int32 d g h c s Hd Hi) as (s' & r & E & R).
  eapply finishes_round; [exact E |]. destruct r; [done |]. destruct R as [(g' & h' & c' & I) P]. by eapply K.
Qed.

(** Late rounds visit the two parities in turn. *)
Lemma late_parity d : n2 < d -> (lo (d + 1) - lo d) mod 2 = 1.
Proof. intros. unfold lowest, js_rem. Z.to_euclidean_division_equations; lia. Qed.

Lemma late_rounds fuel calls d g h c s : n1 + n2 + 2 <= d -> inv d g h c s ->
  ((n1 - n2 - lo d) mod 2 = 0 /\ (exists y, val s (n1 - n2 - 1) = Some y /\ 2 * (n1 - y) < Z.of_nat fuel) \/
   (n1 - n2 - 1 - lo d) mod 2 = 0 /\ (exists x, val s (n1 - n2) = Some x /\ 2 * (n1 - x) + 1 < Z.of_nat fuel)) -> finishes fuel calls d s.
Proof.
  revert calls d g h c s. induction fuel as [| fuel IH]; intros calls d g h c s Hd Hi Hm.
  { pose proof (c_grid _ _ _ _ _ _ (i_core _ _ _ _ _ _ _ Hi)) as G. destruct Hm as [(_ & y & E & ?) | (_ & x & E & ?)]; apply G in E; lia. }
  apply (rounds_step fuel calls d g h c s ltac:(lia) Hi). intros s' g' h' c' Hi' P. destruct (P Hd) as [PR PD]. pose proof (late_parity d ltac:(lia)).
  apply (IH _ _ g' h' c'); [lia | done |]. destruct Hm as [(Hp & y & E & Hf) | (Hp & x & E & Hf)].
  - right. destruct (PR y E Hp) as (x & Ex & ?). split; [Z.to_euclidean_division_equations; lia |]. exists x. split; [done | lia].
  - left. destruct (PD x E Hp) as (y & Ey & ?). split; [Z.to_euclidean_division_equations; lia |]. exists y. split; [done | lia].
Qed.

(** The last diagonal has a value by then. *)
Lemma late_value d g h c s : n1 + n2 + 2 <= d -> inv d g h c s -> exists x, val s (n1 - n2) = Some x.
Proof.
  intros Hd [Hp Hc _ _ Hl]. destruct (c_good _ _ _ _ _ _ Hc (n1 - n2)) as (x & E & _); [| by exists x].
  pose proof (reach_le n2 d). split; [destruct Hl as [[[-> | (_ & -> & _)] _] | (_ & _ & _ & ? & _)]; lia | destruct Hp as [|]; lia].
Qed.

Lemma all_rounds fuel calls d g h c s : 0 <= d -> inv d g h c s ->
  Z.max 0 (n1 + n2 + 2 - d) + 2 * n1 + 3 < Z.of_nat fuel -> finishes fuel calls d s.
Proof.
  revert calls d g h c s. induction fuel as [| fuel IH]; intros calls d g h c s Hd Hi Hf; [lia |].
  destruct (decide (n1 + n2 + 2 <= d /\ (n1 - n2 - 1 - lo d) mod 2 = 0)) as [[Hl Hp] | Hl].
  { destruct (late_value d g h c s Hl Hi) as [x Hx]. apply (late_rounds _ _ d g h c s Hl Hi). right. split; [done |].
    exists x. split; [done |]. apply (c_grid _ _ _ _ _ _ (i_core _ _ _ _ _ _ _ Hi)) in Hx. lia. }
  apply (rounds_step fuel calls d g h c s Hd Hi). intros s' g' h' c' Hi' _.
  destruct (decide (n1 + n2 + 2 <= d)) as [Hl' |]; [| apply (IH _ _ g' h' c'); (done || lia)].
  destruct (late_value (d + 1) g' h' c' s' ltac:(lia) Hi') as [x Hx]. apply (late_rounds _ _ (d + 1) g' h' c' s' ltac:(lia) Hi'). right.
  pose proof (late_parity d ltac:(lia)). split; [Z.to_euclidean_division_equations; lia |].
  exists x. split; [done |]. apply (c_grid _ _ _ _ _ _ (i_core _ _ _ _ _ _ _ Hi')) in Hx. lia.
Qed.

(** ** Equal sequences *)

(** The first snake reaches the end of both sequences. *)
Definition equal_state (s : state) : Prop :=
  n1 = n2 /\ val s 0 = Some n1 /\ reaches (path s 0) n1 n2 /\ val s (-1) = Some 0 /\ gridded seq1 seq2 s /\ 10 <= plen (fst s) /\ 10 <= nlen (fst s).

Lemma frame_val s s' j x : frame s s' j -> val s j = Some x -> val s' j = Some x /\ path s' j = path s j.
Proof. intros [U P] E. rewrite E in U. by apply upd_Some in U. Qed.

(** The diagonals next to the main one: the lower one is passed over. *)
Lemma equal_lower up s s' : 0 <= up -> equal_state s -> via seq1 seq2 false (-1) up s s' (-1) -> val s' (-1) = Some 0.
Proof.
  intros Hu (E & V0 & _ & V1 & _) (s1 & s2 & _ & F & F0 & (O & _) & F'). destruct (frame_val _ _ _ _ F V1) as [W1 _]. destruct (frame_val _ _ _ _ F0 V0) as [W0 _].
  unfold top, left in O. destruct (-1 === up) eqn:?; [lia |]. rewrite Z.eqb_refl in O. change (-1 + 1) with 0 in *. rewrite W0 in O. cbn beta iota zeta delta [outcome fmap option_fmap option_map] in O.
  replace (Z.min (Z.max n1 (-1)) n1) with n1 in O by lia. destruct O as [(_ & O & _) | (? & _)]; [| lia]. rewrite W1 in O. by apply (frame_val _ _ _ _ F').
Qed.

Lemma equal_upper lw s s' : lw < 1 -> equal_state s -> via seq1 seq2 false lw 1 s s' 1 -> val s' 1 = Some n1 /\ path s' 1 = path s 0.
Proof.
  intros Hu (E & V0 & _) (s1 & s2 & F0 & _ & _ & (O & _) & F'). destruct (frame_val _ _ _ _ F0 V0) as [W0 P0].
  unfold top, left in O. destruct (1 === lw) eqn:?; [lia |]. rewrite Z.eqb_refl in O. change (1 - 1) with 0 in *. rewrite W0 in O. cbn beta iota zeta delta [outcome fmap option_fmap option_map] in O.
  replace (Z.min (Z.max (-1) (1 + n1)) n1) with n1 in O by lia. destruct O as [(? & _) | (_ & x & W & ? & _ & _ & _ & P)]; [lia |].
  assert (x = n1) as -> by lia. rewrite Z.eqb_refl in P. destruct (n1 === -1) eqn:?; [lia |].
  destruct (frame_val _ _ _ _ F' W) as [? ->]. split; [done |]. change (1 + -1) with 0 in P. congruence.
Qed.

Lemma equal_odd s : equal_state s -> exists s' : state, Myers.diagonals seq1 seq2 3 (-1) 1 (-1) (fst s) (snd s) = Ret (s', None) /\
  equal_state s' /\ val s' 1 = Some n1 /\ reaches (path s' 1) n1 n2.
Proof.
  intros H. pose proof H as (E & V0 & R0 & V1 & G & L1 & L2).
  destruct (diagonals_spec seq1 seq2 n1_int32 3 (-1) 1 (-1) s ltac:(lia) ltac:(lia) ltac:(lia) G) as (s' & r & Er & G' & L1' & L2' & R);
    [intros j ?; unfold storable; lia | lia |].
  destruct r as [e |]; [destruct R as (? & ? & _ & ? & _); Z.to_euclidean_division_equations; lia |]. exists s'. split; [done |].
  pose proof (R (-1)) as R1. pose proof (R 1) as R2. specialize (R 0). rewrite decide_True in R1 by done. rewrite decide_True in R2 by done. rewrite decide_False in R by (intros [_ ?]; done).
  destruct (frame_val _ _ _ _ R V0) as [W0 P0]. destruct (equal_upper (-1) s s' ltac:(lia) H R2) as [W1 P1].
  split; [| split; [done | by rewrite P1]]. split_and!; try (done || lia); [by rewrite P0 |]. by apply (equal_lower 1 s).
Qed.

Lemma equal_even s : equal_state s -> val s 1 = Some n1 -> reaches (path s 1) n1 n2 ->
  exists (s' : state) (e : Z), Myers.diagonals seq1 seq2 5 (-2) 2 (-2) (fst s) (snd s) = Ret (s', Some e) /\ reaches (path s' e) n1 n2.
Proof.
  intros (E & V0 & R0 & V1 & G & L1 & L2) W1 Rc.
  assert (K : forall b s', via seq1 seq2 b (-2) 2 s s' 0 -> b = true /\ path s' 0 = path s 1).
  { intros b s' (s1 & s2 & F1 & F0 & F2 & (O & _ & _ & _ & _ & _ & Hb) & F'). destruct (frame_val _ _ _ _ F1 V1) as [X1 _]. destruct (frame_val _ _ _ _ F2 W1) as [X2 P2].
    unfold top, left in O, Hb. change (0 === 2) with false in *. change (0 === -2) with false in *. change (0 + 1) with 1 in *. change (0 - 1) with (-1) in *.
    rewrite X1, X2 in O, Hb. cbn beta iota zeta delta [outcome skipped fmap option_fmap option_map] in O, Hb. replace (Z.min (Z.max n1 (1 + 0)) n1) with n1 in O, Hb by lia.
    destruct O as [(? & _) | (_ & x & W & ? & _ & _ & _ & P)]; [lia |]. assert (x = n1) as -> by lia. rewrite !Z.eqb_refl in P.
    destruct (frame_val _ _ _ _ F' W) as [_ ->]. split; [| congruence]. destruct Hb as [? | [_ ?]]; [split; [done | lia] | done | lia]. }
  destruct (diagonals_spec seq1 seq2 n1_int32 5 (-2) 2 (-2) s ltac:(lia) ltac:(lia) ltac:(lia) G) as (s' & r & Er & G' & L1' & L2' & R);
    [intros j ?; unfold storable; lia | lia |].
  destruct r as [e |].
  - exists s', e. split; [done |]. destruct R as (_ & _ & _ & ? & R). assert (e = 0) as -> by lia. destruct (K _ _ R) as [_ ->]. done.
  - specialize (R 0). rewrite decide_True in R by done. by destruct (K _ _ R).
Qed.

Lemma equal_rounds fuel s : equal_state s -> finishes (S (S (S fuel))) 0 0 s.
Proof.
  intros H. pose proof H as (E & _). destruct (equal_odd s H) as (s1 & E1 & H1 & V1 & R1).
  eapply finishes_round; [unfold lowest, highest; change (js_rem (0 + 1) 2) with 1; rewrite !Z.min_l by lia; exact E1 |]. cbn beta iota.
  destruct (decide (n1 = 1)) as [N |].
  - destruct (equal_odd s1 H1) as (s2 & E2 & H2 & V2 & R2).
    eapply finishes_round; [unfold lowest, highest; change (js_rem (0 + 1 + 1) 2) with 0; rewrite !Z.min_r by lia; rewrite <- E, N; exact E2 |]. cbn beta iota.
    destruct (equal_even s2 H2 V2 R2) as (s3 & e & E3 & R3).
    eapply finishes_round; [unfold lowest, highest; change (js_rem (0 + 1 + 1 + 1) 2) with 1; rewrite !Z.min_r by lia; rewrite <- E, N; exact E3 | done].
  - destruct (equal_even s1 H1 V1 R1) as (s2 & e & E2 & R2).
    eapply finishes_round; [unfold lowest, highest; change (js_rem (0 + 1 + 1) 2) with 0; rewrite !Z.min_l by lia; exact E2 | done].
Qed.

(** ** The start *)

(** The main diagonal was followed; the other entries are as the arrays are created. *)
Definition started (x : Z) (s : state) : Prop :=
  val s 0 = Some x /\ good seq1 seq2 0 x (path s 0) /\ (forall j, j <> 0 -> path s j = null /\ Fresh s j) /\ 10 <= plen (fst s) /\ 10 <= nlen (fst s).

Lemma start_state : exists x s, Myers.snake seq1 seq2 (Z.to_nat n1) 0 0 = Ret x /\
  s = stored (Myers.V.new, Myers.Paths.new) 0 (Some x) (if x === 0 then null else Snake null (Some 0) (Some 0) (Some x)) /\ started x s.
Proof.
  destruct (snake_spec seq1 seq2 (Z.to_nat n1) 0 0) as (x & Es & X1 & X2 & _ & G); [lia.. |]. exists x. eexists. split; [exact Es |]. split; [done |].
  destruct (stored_spec (Myers.V.new, Myers.Paths.new) 0 (Some x) (if x === 0 then null else Snake null (Some 0) (Some 0) (Some x))) as (E & P & F & L1 & L2 & _);
    [by split |]. cbn [default from_option id] in E. rewrite int32_id in E by (unfold in_int32; lia).
  split; [done |]. rewrite P. replace (0 + (x - 0)) with (x - 0) in G by lia. split; [| split; [| split]].
  - pose proof (good_snake seq1 seq2 0 0 x null ltac:(lia) ltac:(lia) ltac:(lia) ltac:(lia) G) as K. cbn [MyersPaths.reaches] in K.
    replace (x - 0) with x in K by lia. apply K; lia.
  - intros j Hj. destruct (F j Hj) as [U ->]. split; [unfold path; cbn; unfold FastArrayNegativeIndices.get; by destruct (j <? 0) |].
    apply (Fresh_frame (Myers.V.new, Myers.Paths.new)); [by apply F |]. unfold Fresh, val. cbn.
    destruct (FastInt32Array.get FastInt32Array.new j) as [z |] eqn:Ez; [right | by left]. unfold FastInt32Array.get, znth in Ez. cbn [FastInt32Array.positiveArr FastInt32Array.negativeArr FastInt32Array.new] in Ez.
    repeat case_match; try done; apply lookup_replicate in Ez as [-> _]; done.
  - done.
  - done.
Qed.

Lemma started_gridded x s : started x s -> gridded seq1 seq2 s.
Proof.
  intros (E & (G1 & G2 & _) & F & _) j y Ej. destruct (decide (j = 0)) as [-> | Hj]; [assert (y = x) by congruence; lia |].
  destruct (F j Hj) as [_ [? | ?]]; [congruence |]. assert (y = 0) by congruence. lia.
Qed.

Lemma started_inv x s : started x s -> n1 <> n2 \/ x <> n1 -> inv 0 (-2) 0 0 s.
Proof.
  intros H Hx. pose proof (started_gridded x s H) as Gr. destruct H as (E & G & F & L1 & L2). split.
  - left. rewrite reach_early by lia. lia.
  - split; [done | lia | | intros; lia | intros; lia | intros k ?; by apply F; lia].
    intros k ?. replace k with 0 by lia. left. by exists x.
  - unfold unfinished. destruct (decide (n1 = n2)) as [En |].
    + replace (n1 - n2) with 0 by lia. rewrite E. intros [= ->]. lia.
    + destruct (F (n1 - n2) ltac:(lia)) as [_ [-> | ->]]; [done |]. intros [= ?]. lia.
  - lia.
  - left. split; [by left; lia |]. intros k ?. apply F. lia.
Qed.

Lemma started_finishes x s : started x s -> finishes (Myers.maxRounds seq1 seq2) 0 0 s.
Proof.
  intros H. unfold Myers.maxRounds. destruct (decide (n1 = n2 /\ x = n1)) as [[En ->] | Hx].
  - destruct (Z.to_nat (4 * n1 + 4 * n2 + 16)) as [| [| [| fuel]]] eqn:Ef; try lia. apply equal_rounds.
    pose proof (started_gridded n1 s H) as Gr. destruct H as (E & (_ & _ & _ & G) & F & L1 & L2). split_and!; try (done || lia).
    destruct (F (-1) ltac:(lia)) as [_ [Ev | Ev]]; [| done]. destruct (get_defined (fst s) (-1)) as [z Hz]; [lia.. |]. unfold val in Ev. congruence.
  - apply (all_rounds _ 0 0 (-2) 0 0 s); [done | apply (started_inv x s H); lia | lia].
Qed.
End Compute.

(** C10: For all sequences shorter than 2^31 and answers of the timeout, the algorithm of Myers
    returns, within a number of rounds linear in the lengths, differences outside of which the
    sequences are equal, so that they turn the first sequence into the second; it reports a
    timeout only if one was met. The arrays of numbers may be read past their end on the way,
    the result is right all the same. *)
Theorem myers_diff seq1 seq2 timeout : ISequence.length seq1 < 2 ^ 31 ->
  exists r, MyersDiffAlgorithm.compute seq1 seq2 timeout = Ret r /\
    aligned (ISequence.elements seq1) (ISequence.elements seq2) (DiffAlgorithmResult.diffs r) /\
    patch (ISequence.elements seq1) (ISequence.elements seq2) (DiffAlgorithmResult.diffs r) = ISequence.elements seq2 /\
    ((forall c, timeout c = true) -> DiffAlgorithmResult.hitTimeout r = false).
Proof.
  intros Hn. cut (exists r, MyersDiffAlgorithm.compute seq1 seq2 timeout = Ret r /\
    aligned (ISequence.elements seq1) (ISequence.elements seq2) (DiffAlgorithmResult.diffs r) /\
    ((forall c, timeout c = true) -> DiffAlgorithmResult.hitTimeout r = false)).
  { intros (r & E & A & T). exists r. split_and!; try done. by apply patch_aligned. }
  unfold Myers.compute, DiffAlgorithmResult.trivial, DiffAlgorithmResult.trivialTimedOut.
  pose proof (zlen_nonneg (ISequence.elements seq1)) as P1. pose proof (zlen_nonneg (ISequence.elements seq2)) as P2.
  fold (ISequence.length seq1) in P1. fold (ISequence.length seq2) in P2.
  destruct (_ || _) eqn:E0. { destruct (whole_aligned seq1 seq2 false) as (d & -> & ?). by eexists. }
  destruct (start_state seq1 seq2 ltac:(lia) ltac:(lia) Hn) as (x & s & Ex & Es & H). cbn [Myers.getXAfterSnake]. rewrite Ex. cbn [res_bind].
  pose proof H as (E & _). rewrite Es in E. unfold val, stored in E. cbn [fst] in E. rewrite E. cbn [Myers.num_eqb].
  destruct (started_finishes seq1 seq2 timeout ltac:(lia) ltac:(lia) Hn x s H) as (o & Eo & Ho). rewrite Es in Eo. unfold stored in Eo. cbn [fst snd] in Eo. rewrite Eo.
  cbn [res_bind]. destruct o as [p |].
  - destruct (readPath_spec seq1 seq2 p _ _ [] Ho) as (ds & -> & A); [apply gap_refl |]. by eexists.
  - destruct (whole_aligned seq1 seq2 true) as (d & -> & ?). eexists. split; [done | split; [done |]]. intros T. destruct Ho as [i Ho]. by rewrite T in Ho.
Qed.

(** Two short sequences, with a deletion and a change. *)
Lemma myers_diff_witness : exists r,
  MyersDiffAlgorithm.compute (ISequence.mk [1; 2; 3; 4; 5] None (fun _ _ => false)) (ISequence.mk [1; 3; 5; 6; 5] None (fun _ _ => false)) InfiniteTimeout = Ret r /\
  patch [1; 2; 3; 4; 5] [1; 3; 5; 6; 5] (DiffAlgorithmResult.diffs r) = [1; 3; 5; 6; 5] /\ DiffAlgorithmResult.hitTimeout r = false.
Proof.
  destruct (myers_diff (ISequence.mk [1; 2; 3; 4; 5] None (fun _ _ => false)) (ISequence.mk [1; 3; 5; 6; 5] None (fun _ _ => false)) InfiniteTimeout) as (r & E & _ & P & T).
  { vm_compute. reflexivity. }
  exists r. split; [exact E |]. split; [exact P |]. apply T. reflexivity.
Defined.

(** The differences are not always the least ones: ten elements before a common text of
    nine, which is a deletion of ten elements for the algorithm with tables, make the algorithm
    of Myers replace eleven elements by one, because a diagonal is read past the end of the
    array of numbers. *)
Example myers_not_least : let text := seqZ 0 9 in let more := seqZ 100 10 ++ text in
  let sequence elements := ISequence.mk elements None (fun _ _ => false) in
  MyersDiffAlgorithm.compute (sequence more) (sequence text) InfiniteTimeout =
    Ret (DiffAlgorithmResult.mk [SequenceDiff.mk (OffsetRange.mk 0 11) (OffsetRange.mk 0 1)] false) /\
  DynamicProgrammingDiffing.compute (sequence more) (sequence text) InfiniteTimeout (None (A := Z -> Z -> Z)) =
    Ret (DiffAlgorithmResult.mk [SequenceDiff.mk (OffsetRange.mk 0 10) (OffsetRange.mk 0 0)] false).
Proof. split; vm_compute; reflexivity. Qed.
