(* ===== verification/Linked.v ===== *)
(** * Doubly linked nodes

    What [LinkedList] and [LinkedMap] of [base/common] share: nodes in a heap that name the
    node before and the node behind them, and the lists of nodes such heaps hold. *)

From stdpp Require Import gmap.
From S2P Require Import Prelude.

Module Link.
(** A node object; [None] is the absence of one. *)
Definition ref : Type := nat.

(** A reference that is not in use. *)
Definition fresh_in {N} (h : gmap ref N) : ref := S (max_list (elements (dom h))).

(** What the node classes have in common. *)
Class Linked (N E : Type) := {
  prevOf : N -> option ref;
  nextOf : N -> option ref;
  elemOf : N -> E;
  withPrev : option ref -> N -> N;
  withNext : option ref -> N -> N
}.

Class LinkedLaws (N E : Type) `{!Linked N E} := {
  prev_withPrev o (n : N) : prevOf (withPrev o n) = o;
  next_withPrev o (n : N) : nextOf (withPrev o n) = nextOf n;
  elem_withPrev o (n : N) : elemOf (withPrev o n) = elemOf n;
  prev_withNext o (n : N) : prevOf (withNext o n) = prevOf n;
  next_withNext o (n : N) : nextOf (withNext o n) = o;
  elem_withNext o (n : N) : elemOf (withNext o n) = elemOf n
}.

Section Segments.
Context {N E : Type} `{!Linked N E, !LinkedLaws N E}.
Implicit Types (h : gmap ref N) (es : list (ref * E)) (p n : option ref).

(** The first and the last node of a list, or what stands there when it is empty. *)
Definition firstRef es n : option ref := match es with [] => n | (r, _) :: _ => Some r end.
Fixpoint lastRef p es : option ref := match es with [] => p | (r, _) :: es => lastRef (Some r) es end.

(** The nodes of the list follow each other, between [p] and [n]. *)
Fixpoint seg h p es n : Prop :=
  match es with
  | [] => True
  | (r, e) :: es => (exists x, h !! r = Some x /\ prevOf x = p /\ nextOf x = firstRef es n /\ elemOf x = e) /\ seg h (Some r) es n
  end.

(** The writes [o.previous = v] and [o.next = v] of a node that may be missing. *)
Definition setPrev (o v : option ref) h : gmap ref N := match o with Some r => alter (withPrev v) r h | None => h end.
Definition setNext (o v : option ref) h : gmap ref N := match o with Some r => alter (withNext v) r h | None => h end.

Lemma fresh_in_new h : h !! fresh_in h = None.
Proof.
  apply not_elem_of_dom. intros H. apply elem_of_elements in H. unfold fresh_in in H.
  assert (forall l x, x ∈ l -> (x <= max_list l)%nat) as K.
  { clear. induction l as [| y l IH]; intros x Hx; [set_solver |]. apply elem_of_cons in Hx as [-> | Hx]; cbn; [lia |]. specialize (IH x Hx). lia. }
  by apply K, Nat.nle_succ_diag_l in H.
Qed.

Lemma firstRef_app es es' n : firstRef (es ++ es') n = firstRef es (firstRef es' n).
Proof. by destruct es as [| [r e] es]. Qed.

Lemma lastRef_app p es es' : lastRef p (es ++ es') = lastRef (lastRef p es) es'.
Proof. revert p. induction es as [| [r e] es IH]; intros p; [done | apply IH]. Qed.

Lemma seg_app h p es es' n : seg h p (es ++ es') n <-> seg h p es (firstRef es' n) /\ seg h (lastRef p es) es' n.
Proof.
  revert p. induction es as [| [r e] es IH]; intros p; cbn [app seg lastRef]; [tauto |].
  rewrite IH, firstRef_app. tauto.
Qed.

Lemma seg_frame h h' p es n : (forall r, r ∈ es.*1 -> h' !! r = h !! r) -> seg h p es n -> seg h' p es n.
Proof.
  revert p. induction es as [| [r e] es IH]; intros p F; cbn [seg]; [done |]. intros [(x & L & ?) S].
  split; [exists x; rewrite F by (cbn; set_solver); done |]. apply IH; [| done]. intros r' Hr. apply F. cbn. set_solver.
Qed.

(** A node of a segment is in the heap. *)
Lemma seg_lookup h p es n r e : (r, e) ∈ es -> seg h p es n -> exists x, h !! r = Some x /\ elemOf x = e.
Proof.
  revert p. induction es as [| [r' e'] es IH]; intros p Hr; [set_solver |]. cbn [seg]. intros [(x & L & _ & _ & Ex) S].
  apply elem_of_cons in Hr as [[= -> ->] | Hr]; [by exists x | by eapply IH].
Qed.

(** A loop over a segment visits each node once. *)
Lemma seg_fuel h p es n : seg h p es n -> NoDup es.*1 -> (length es <= base.size h)%nat.
Proof.
  intros S D. rewrite <- size_dom, <- (length_fmap fst), <- (size_list_to_set (C := gset ref)) by done.
  apply subseteq_size. intros x Hx. apply elem_of_list_to_set, list_elem_of_fmap in Hx as ([x' e] & -> & Hx). cbn.
  destruct (seg_lookup _ _ _ _ _ _ Hx S) as (i & Li & _). apply elem_of_dom. by exists i.
Qed.

Lemma lookup_setPrev_ne o v h r : o <> Some r -> setPrev o v h !! r = h !! r.
Proof. destruct o; [| done]. intros. apply lookup_alter_ne. congruence. Qed.

Lemma lookup_setNext_ne o v h r : o <> Some r -> setNext o v h !! r = h !! r.
Proof. destruct o; [| done]. intros. apply lookup_alter_ne. congruence. Qed.

(** Writing the outer links of a segment. *)
Lemma seg_setPrev h p p' es n : NoDup es.*1 -> seg h p es n -> seg (setPrev (firstRef es None) p' h) p' es n.
Proof.
  destruct es as [| [r e] es]; [done |]. cbn [seg firstRef fmap list_fmap fst]. intros [Hr _]%NoDup_cons [(x & L & H1 & H2 & H3) S]. split.
  - exists (withPrev p' x). cbn [setPrev]. rewrite lookup_alter_eq, L. cbn. by rewrite prev_withPrev, next_withPrev, elem_withPrev.
  - eapply seg_frame, S. intros r' Hr'. apply lookup_setPrev_ne. intros [= ->]. done.
Qed.

Lemma lastRef_elem r0 es r : lastRef (Some r0) es = Some r -> r = r0 \/ r ∈ es.*1.
Proof. revert r0. induction es as [| [r' e] es IH]; intros r0; cbn; [intros [= ->]; by left |]. intros [-> | H]%IH; right; [left | by right]. Qed.

Lemma seg_setNext h p es n n' : NoDup es.*1 -> seg h p es n -> seg (setNext (lastRef None es) n' h) p es n'.
Proof.
  revert p. destruct (decide (es = [])) as [-> | Hne]; [done |]. destruct (exists_last Hne) as (es' & [r e] & ->). intros p.
  rewrite fmap_app, NoDup_app. intros (_ & Hr & _) [S [(x & L & H1 & H2 & H3) _]]%seg_app. rewrite lastRef_app. cbn [lastRef setNext]. apply seg_app. split.
  - cbn [firstRef] in *. eapply seg_frame, S. intros r' Hr'. apply lookup_alter_ne. intros ->. apply (Hr r' Hr'). cbn. set_solver.
  - cbn [seg firstRef] in *. split; [| done]. exists (withNext n' x). rewrite lookup_alter_eq, L. cbn.
    by rewrite prev_withNext, next_withNext, elem_withNext.
Qed.

Lemma lastRef_in es r : lastRef None es = Some r -> r ∈ es.*1.
Proof. destruct es as [| [r' e] es]; [done |]. cbn. intros [-> | H]%lastRef_elem; [left | by right]. Qed.

Lemma lastRef_Some r es : exists l, lastRef (Some r) es = Some l.
Proof. revert r. induction es as [| [r' e] es IH]; intros r; [by exists r | apply IH]. Qed.

(** The ends are missing together. *)
Lemma lastRef_None es : lastRef None es = None -> es = [].
Proof. destruct es as [| [r e] es]; [done |]. cbn. destruct (lastRef_Some r es) as [l ->]. done. Qed.

Lemma firstRef_None es : firstRef es None = None -> es = [].
Proof. by destruct es as [| [r e] es]. Qed.

Lemma firstRef_in es r : firstRef es None = Some r -> r ∈ es.*1.
Proof. destruct es as [| [r' e] es]; [done |]. intros [= ->]. left. Qed.

(** Two segments become one: the last node of the first is told its new neighbour and the
    other way round. *)
Lemma seg_join h p p' xs ys n n' : NoDup (xs ++ ys).*1 -> seg h p xs n' -> seg h p' ys n ->
  seg (setNext (lastRef None xs) (firstRef ys n) (setPrev (firstRef ys None) (lastRef p xs) h)) p (xs ++ ys) n.
Proof.
  rewrite fmap_app, NoDup_app. intros (N1 & D & N2) S1 S2. apply seg_app. split.
  - apply (seg_setNext _ _ _ n'); [done |]. eapply seg_frame, S1. intros r Hr. apply lookup_setPrev_ne. intros Er%firstRef_in. by apply (D r).
  - eapply seg_frame, (seg_setPrev h p' (lastRef p xs)); [| done..]. intros r Hr. apply lookup_setNext_ne. intros Er%lastRef_in. by apply (D r).
Qed.

(** The two writes can be done in either order. *)
Lemma set_comm h xs ys v w : NoDup (xs ++ ys).*1 ->
  setPrev (firstRef ys None) v (setNext (lastRef None xs) w h) = setNext (lastRef None xs) w (setPrev (firstRef ys None) v h).
Proof.
  rewrite fmap_app, NoDup_app. intros (_ & D & _). destruct (firstRef ys None) as [y |] eqn:Ey, (lastRef None xs) as [x |] eqn:Ex; try done.
  cbn [setPrev setNext]. apply alter_alter_ne. intros ->. apply (D x); [by apply lastRef_in | by apply firstRef_in].
Qed.

(** A node inside of a segment. *)
Lemma seg_middle h p xs r e ys n : seg h p (xs ++ (r, e) :: ys) n ->
  exists x, h !! r = Some x /\ prevOf x = lastRef p xs /\ nextOf x = firstRef ys n /\ elemOf x = e /\
    seg h p xs (Some r) /\ seg h (Some r) ys n.
Proof. intros [S1 [(x & ? & ? & ? & ?) S2]]%seg_app. exists x. split_and!; done. Qed.

(** Taking it out. *)
Lemma seg_unlink h xs r e ys : NoDup (xs ++ (r, e) :: ys).*1 -> seg h None (xs ++ (r, e) :: ys) None ->
  seg (setNext (lastRef None xs) (firstRef ys None) (setPrev (firstRef ys None) (lastRef None xs) h)) None (xs ++ ys) None.
Proof.
  intros D (x & _ & _ & _ & _ & S1 & S2)%seg_middle. eapply seg_join; [| exact S1 | exact S2].
  eapply sublist_NoDup; [exact D |]. apply fmap_sublist. apply sublist_app; [done |]. by apply sublist_cons.
Qed.

(** The node that was taken out keeps its fields. *)
Lemma unlink_keeps h xs r e ys v w : NoDup (xs ++ (r, e) :: ys).*1 ->
  setNext (lastRef None xs) v (setPrev (firstRef ys None) w h) !! r = h !! r.
Proof.
  rewrite fmap_app, NoDup_app. intros (_ & D1 & [D2 _]%NoDup_cons).
  rewrite lookup_setNext_ne, lookup_setPrev_ne; [done | |]; [intros Hr%firstRef_in; done | intros Hr%lastRef_in; apply (D1 _ Hr); left].
Qed.

(** A node becomes the last or the first one. *)
Lemma seg_snoc h zs r x : NoDup zs.*1 -> r ∉ zs.*1 -> seg h None zs None -> h !! r = Some x -> nextOf x = None ->
  seg (setNext (lastRef None zs) (Some r) (setPrev (Some r) (lastRef None zs) h)) None (zs ++ [(r, elemOf x)]) None.
Proof.
  intros D Hr S L Nx. apply (seg_join h None (prevOf x) zs [(r, elemOf x)] None None); [| done | split; [by exists x | done]].
  rewrite fmap_app. apply NoDup_app. split_and!; [done | set_solver | apply NoDup_singleton].
Qed.

Lemma seg_cons h zs r x : NoDup zs.*1 -> r ∉ zs.*1 -> seg h None zs None -> h !! r = Some x -> prevOf x = None ->
  seg (setPrev (firstRef zs None) (Some r) (setNext (Some r) (firstRef zs None) h)) None ((r, elemOf x) :: zs) None.
Proof.
  intros D Hr S L Px. assert (D' : NoDup ([(r, elemOf x)] ++ zs).*1) by (by constructor).
  rewrite (set_comm h [(r, elemOf x)] zs) by done. apply (seg_join h None None [(r, elemOf x)] zs None (nextOf x)); [done | | done].
  split; [by exists x | done].
Qed.
End Segments.

(** ** Lists of pairs with distinct keys *)

Lemma filter_keeps {A} (P : A -> Prop) `{!forall x, Decision (P x)} l : Forall P l -> filter P l = l.
Proof. induction 1 as [| x l Hx _ IH]; [done |]. rewrite filter_cons_True by done. by rewrite IH. Qed.

Lemma filter_key {K V} `{EqDecision K} (k : K) (v : V) xs ys : NoDup (xs ++ (k, v) :: ys).*1 ->
  filter (fun p => p.1 <> k) (xs ++ (k, v) :: ys) = xs ++ ys.
Proof.
  rewrite fmap_app, NoDup_app. intros (_ & D1 & [D2 _]%NoDup_cons). rewrite filter_app, filter_cons_False by (cbn; tauto).
  f_equal; apply filter_keeps, Forall_forall; intros q Hq%(list_elem_of_fmap_2 fst) E1; cbn in E1.
  - apply (D1 _ Hq). rewrite E1. left.
  - apply D2. by rewrite <- E1.
Qed.
End Link.
