(* ===== verification/LinkedList.v ===== *)
(** * Linked lists

    [src/src/vs/base/common/linkedList.ts]: class [LinkedList], whose [push] and [unshift]
    return a function that removes the new element again. *)

From stdpp Require Import gmap.
From S2P Require Import Prelude Linked.
Import Link.

Module LinkedList.
Section LinkedList.
Context {E : Type}.

(** Class [Node]; [None] is [Node.Undefined]. *)
Record Node : Type := mkNode { element : E; next : option ref; prev : option ref }.

#[global] Instance Node_linked : Linked Node E := {|
  prevOf := prev; nextOf := next; elemOf := element;
  withPrev o n := mkNode (element n) (next n) o;
  withNext o n := mkNode (element n) o (prev n)
|}.

#[global] Instance Node_laws : LinkedLaws Node E.
Proof. by split. Qed.

(** The list with the nodes it was given. [Node.Undefined] is a node too, and its links are
    [undefined] until they are written. All lists of the source share that node; the links kept
    here are those one list wrote, and they are read only by removing functions called after
    their node was taken. [didRemove] holds the nodes whose removing function was called. *)
Record t : Type := mk {
  _first : option ref;
  _last : option ref;
  _size : Z;
  nodes : gmap ref Node;
  undefinedPrev : option (option ref);
  undefinedNext : option (option ref);
  didRemove : gset ref
}.

Definition new : t := mk None None 0 ∅ None None ∅.

Definition set_nodes (f : gmap ref Node -> gmap ref Node) (this : t) : t :=
  mk (_first this) (_last this) (_size this) (f (nodes this)) (undefinedPrev this) (undefinedNext this) (didRemove this).
Definition set_ends (first last : option ref) (this : t) : t :=
  mk first last (_size this) (nodes this) (undefinedPrev this) (undefinedNext this) (didRemove this).
Definition add_size (d : Z) (this : t) : t :=
  mk (_first this) (_last this) (_size this + d) (nodes this) (undefinedPrev this) (undefinedNext this) (didRemove this).

(** [x.prev = v] and [x.next = v] *)
Definition write_prev (x v : option ref) (this : t) : t :=
  match x with
  | Some r => set_nodes (alter (withPrev v) r) this
  | None => mk (_first this) (_last this) (_size this) (nodes this) (Some v) (undefinedNext this) (didRemove this)
  end.
Definition write_next (x v : option ref) (this : t) : t :=
  match x with
  | Some r => set_nodes (alter (withNext v) r) this
  | None => mk (_first this) (_last this) (_size this) (nodes this) (undefinedPrev this) (Some v) (didRemove this)
  end.

(** [x.prev] and [x.next], where the value is used as a node at once *)
Definition read_prev (x : option ref) (this : t) : res (option ref) :=
  match x with Some r => let* n := js_get (nodes this !! r) in Ret (prev n) | None => js_get (undefinedPrev this) end.
Definition read_next (x : option ref) (this : t) : res (option ref) :=
  match x with Some r => let* n := js_get (nodes this !! r) in Ret (next n) | None => js_get (undefinedNext this) end.

(** ** Operations *)

Definition size (this : t) : Z := _size this.
Definition isEmpty (this : t) : bool := bool_decide (_first this = None).

(** The loop of [clear]. *)
Fixpoint clearFrom (fuel : nat) (node : option ref) (this : t) : res t :=
  match node with
  | None => Ret this
  | Some r =>
      match fuel with
      | O => Throw OutOfFuel
      | S fuel =>
          let* n := read_next node this in
          clearFrom fuel n (write_next node None (write_prev node None this))
      end
  end.

Definition clear (this : t) : res t :=
  let* this := clearFrom (base.size (nodes this)) (_first this) this in
  Ret (mk None None 0 (nodes this) (undefinedPrev this) (undefinedNext this) (didRemove this)).

(** The new node stands for the function that is returned. *)
Definition _insert (e : E) (atTheEnd : bool) (this : t) : ref * t :=
  let newNode := fresh_in (nodes this) in
  let this := set_nodes (insert newNode (mkNode e None None)) this in
  let this :=
    if bool_decide (_first this = None) then set_ends (Some newNode) (Some newNode) this
    else if atTheEnd then
      let oldLast := _last this in
      let this := set_ends (_first this) (Some newNode) this in
      let this := write_prev (Some newNode) oldLast this in
      write_next oldLast (Some newNode) this
    else
      let oldFirst := _first this in
      let this := set_ends (Some newNode) (_last this) this in
      let this := write_next (Some newNode) oldFirst this in
      write_prev oldFirst (Some newNode) this in
  (newNode, add_size 1 this).

Definition unshift (e : E) (this : t) : ref * t := _insert e false this.
Definition push (e : E) (this : t) : ref * t := _insert e true this.

Definition _remove (node : ref) (this : t) : res t :=
  let* n := js_get (nodes this !! node) in
  let* this :=
    (match prev n, next n with
     | Some _, Some _ =>
         let anchor := prev n in
         Ret (write_prev (next n) anchor (write_next anchor (next n) this))
     | None, None => Ret (set_ends None None this)
     | Some _, None =>
         let* l := read_prev (_last this) this in
         Ret (write_next l None (set_ends (_first this) l this))
     | None, Some _ =>
         let* f := read_next (_first this) this in
         Ret (write_prev f None (set_ends f (_last this) this))
     end) in
  Ret (add_size (-1) this).

(** The function [_insert] returned for the node. *)
Definition remover (node : ref) (this : t) : res t :=
  if bool_decide (node ∈ didRemove this) then Ret this
  else
    _remove node (mk (_first this) (_last this) (_size this) (nodes this) (undefinedPrev this) (undefinedNext this) ({[node]} ∪ didRemove this)).

Definition shift (this : t) : res (option E * t) :=
  match _first this with
  | None => Ret (None, this)
  | Some r =>
      let* n := js_get (nodes this !! r) in
      let* this := _remove r this in
      Ret (Some (element n), this)
  end.

Definition pop (this : t) : res (option E * t) :=
  match _last this with
  | None => Ret (None, this)
  | Some r =>
      let* n := js_get (nodes this !! r) in
      let* this := _remove r this in
      Ret (Some (element n), this)
  end.

(** The elements a loop over the list yields. *)
Fixpoint iterateFrom (fuel : nat) (node : option ref) (this : t) : res (list E) :=
  match node with
  | None => Ret []
  | Some r =>
      match fuel with
      | O => Throw OutOfFuel
      | S fuel =>
          let* n := js_get (nodes this !! r) in
          let* rest := iterateFrom fuel (next n) this in
          Ret (element n :: rest)
      end
  end.

Definition iterate (this : t) : res (list E) := iterateFrom (base.size (nodes this)) (_first this) this.
End LinkedList.
Arguments Node : clear implicits.
Arguments t : clear implicits.
End LinkedList.
