(* ===== verification/LinkedListOps.v ===== *)
(** * Linked lists: what the operations do

    The nodes of a [LinkedList] represent a list of elements, each with the function that
    removes it; every session that does not call such a function after its element was
    removed by other means behaves like the same session on plain lists. *)

From stdpp Require Import gmap.
From S2P Require Import Prelude Linked LinkedList.
Import Link LinkedList.

Section Ops.
Context {E : Type}.
Implicit Types (this : t E) (es xs ys : list (ref * E)) (r : ref) (e : E).

(** ** The list a state represents *)

Record repr this es : Prop := {
  r_seg : seg (nodes this) None es None;
  r_nodup : NoDup es.*1;
  r_first : _first this = firstRef es None;
  r_last : _last this = lastRef None es;
  r_size : _size this = zlen es
}.

Lemma repr_in this es r : repr this es -> r ∈ es.*1 -> is_Some (nodes this !! r).
Proof.
  intros H Hr. apply list_elem_of_fmap in Hr as ([r' e] & -> & Hr). cbn. destruct (seg_lookup _ _ _ _ _ _ Hr (r_seg _ _ H)) as (x & -> & _). by eexists.
Qed.

Lemma repr_new : repr new [].
Proof. split; try done. constructor. Qed.

Lemma firstRef_cons_None xs r e ys : firstRef (xs ++ (r, e) :: ys) None <> None.
Proof. by destruct xs as [| [r' e'] xs]. Qed.

Lemma lastRef_default p es : es <> [] -> lastRef p es = lastRef None es.
Proof. destruct es as [| [r e] es]; done. Qed.

(** *** Inserting *)

Lemma insert_spec this es e b r this' : repr this es -> _insert e b this = (r, this') ->
  r = fresh_in (nodes this) /\ repr this' (if b then es ++ [(r, e)] else (r, e) :: es) /\ dom (nodes this') = {[r]} ∪ dom (nodes this) /\ didRemove this' = didRemove this.
Proof.
  intros H. unfold _insert. set (r0 := fresh_in (nodes this)). set (x := mkNode e None None). intros [= <- <-]. split; [done |].
  destruct H as [S D F L Z]. assert (Hr : r0 ∉ es.*1).
  { intros Hr. destruct (repr_in this es r0) as [y Hy]; [done | done |]. unfold r0 in Hy. by rewrite fresh_in_new in Hy. }
  assert (S' : seg (<[r0 := x]> (nodes this)) None es None).
  { eapply seg_frame, S. intros r' Hr'. apply lookup_insert_ne. by intros ->. }
  assert (Sx : seg (<[r0 := x]> (nodes this)) None [(r0, e)] None).
  { split; [| done]. exists x. by rewrite lookup_insert_eq. }
  assert (Dx : forall l, l = es ++ [(r0, e)] \/ l = (r0, e) :: es -> NoDup l.*1 /\ zlen l = zlen es + 1).
  { intros l [-> | ->]; unfold zlen; rewrite ?fmap_app, ?length_app; cbn; (split; [| lia]).
    - apply NoDup_app. split_and!; [done | set_solver | apply NoDup_singleton].
    - by constructor. }
  cbn [_first set_nodes]. rewrite F, L. destruct es as [| [r1 e1] es].
  { rewrite bool_decide_true by done. cbn. split; [| split; [by rewrite dom_insert_L | done]].
    split; cbn; [destruct b; exact Sx | destruct b; apply NoDup_singleton | by destruct b | by destruct b | rewrite Z; by destruct b]. }
  rewrite bool_decide_false by done. destruct b.
  - destruct (Dx _ (or_introl eq_refl)) as [D1 D2]. remember ((r1, e1) :: es) as es' eqn:Ees.
    assert (exists l, lastRef None es' = Some l) as [l El] by (subst es'; apply lastRef_Some).
    rewrite El. cbn -[firstRef]. split; [| split; [by rewrite !dom_alter_L, dom_insert_L | done]].
    split; cbn -[firstRef]; try done; [| by subst es' | by rewrite lastRef_app | lia].
    pose proof (seg_join _ None None es' [(r0, e)] None None D1 S' Sx) as J. rewrite El in J. exact J.
  - destruct (Dx _ (or_intror eq_refl)) as [D1 D2]. cbn. split; [| split; [by rewrite !dom_alter_L, dom_insert_L | done]].
    split; cbn; try done; [| lia].
    pose proof (seg_join _ None None [(r0, e)] ((r1, e1) :: es) None None D1 Sx S') as J.
    rewrite <- (set_comm _ [(r0, e)] ((r1, e1) :: es)) in J by done. exact J.
Qed.

(** *** Removing *)

Lemma remove_spec this xs r e ys : repr this (xs ++ (r, e) :: ys) ->
  exists this', _remove r this = Ret this' /\ repr this' (xs ++ ys) /\ dom (nodes this') = dom (nodes this) /\ didRemove this' = didRemove this.
Proof.
  intros [S D F L Z]. pose proof (seg_unlink _ _ _ _ _ D S) as J. destruct (seg_middle _ _ _ _ _ _ _ S) as (x & Lx & Px & Nx & Ex & _). cbn in Px, Nx.
  assert (D' : NoDup (xs ++ ys).*1). { eapply sublist_NoDup; [exact D |]. apply fmap_sublist, sublist_app; [done | by apply sublist_cons]. }
  assert (Z' : _size this + -1 = zlen (xs ++ ys)). { rewrite Z. unfold zlen. rewrite !length_app. cbn. lia. }
  assert (L' : _last this = lastRef (Some r) ys) by (rewrite L, lastRef_app; done).
  unfold _remove. rewrite Lx. cbn [js_get res_bind]. rewrite Px, Nx, F, L'. rewrite firstRef_app in *. cbn [firstRef] in *.
  destruct (lastRef None xs) as [l |] eqn:El, (firstRef ys None) as [f |] eqn:Ef.
  - rewrite <- Ef, <- El in J. rewrite <- set_comm in J by done. rewrite Ef, El in J.
    cbn. eexists. split; [done |]. split; [| by cbn; rewrite !dom_alter_L].
    split; cbn; [exact J | done | | | done].
    + rewrite F, firstRef_app. destruct xs as [| [? ?] ?]; done.
    + rewrite L', lastRef_app. destruct ys as [| [? ?] ?]; done.
  - apply firstRef_None in Ef as ->. cbn [lastRef read_prev]. rewrite Lx. cbn [js_get res_bind]. rewrite Px. cbn.
    eexists. split; [done |]. split; [| by cbn; rewrite !dom_alter_L]. rewrite app_nil_r in *.
    split; cbn; [exact J | done | | done | done]. destruct xs as [| [? ?] ?]; done.
  - apply lastRef_None in El as ->.
    cbn [firstRef read_next]. rewrite Lx. cbn [js_get res_bind]. rewrite Nx. cbn.
    eexists. split; [done |]. split; [| by cbn; rewrite !dom_alter_L].
    split; cbn; [exact J | done | done | | done]. destruct ys as [| [? ?] ?]; done.
  - apply firstRef_None in Ef as ->.
    apply lastRef_None in El as ->.
    cbn. eexists. split; [done |]. split; [| done]. split; cbn; done.
Qed.

Lemma shift_spec this es : repr this es ->
  exists this', shift this = Ret (snd <$> head es, this') /\ repr this' (tail es) /\ dom (nodes this') = dom (nodes this) /\ didRemove this' = didRemove this.
Proof.
  intros H. unfold shift. pose proof (r_first _ _ H) as F. pose proof (r_seg _ _ H) as S. destruct es as [| [r e] es]; rewrite F; cbn [firstRef]; [by exists this |].
  destruct (seg_middle _ _ [] r e es _ S) as (x & -> & _ & _ & Ex & _). cbn [js_get res_bind].
  destruct (remove_spec this [] r e es H) as (this' & -> & ? & ? & ?). exists this'. cbn in *. by subst e.
Qed.

Lemma pop_spec this es : repr this es ->
  exists this', pop this = Ret (snd <$> last es, this') /\ repr this' (removelast es) /\ dom (nodes this') = dom (nodes this) /\ didRemove this' = didRemove this.
Proof.
  intros H. unfold pop. pose proof (r_last _ _ H) as L. pose proof (r_seg _ _ H) as S. destruct (decide (es = [])) as [-> | Hne]; [rewrite L; by exists this |].
  destruct (exists_last Hne) as (es' & [r e] & ->). rewrite L, lastRef_app. cbn [lastRef].
  destruct (seg_middle _ _ es' r e [] _ S) as (x & -> & _ & _ & Ex & _). cbn [js_get res_bind].
  destruct (remove_spec this es' r e [] H) as (this' & -> & H' & ? & ?). exists this'. rewrite app_nil_r in H'.
  rewrite last_snoc, removelast_last. cbn in *. by subst e.
Qed.

(** *** Loops over the nodes *)

Lemma repr_fuel this es : repr this es -> (length es <= base.size (nodes this))%nat.
Proof. intros [S D _ _ _]. by eapply seg_fuel. Qed.

Lemma iterateFrom_spec this p es fuel : seg (nodes this) p es None -> (length es <= fuel)%nat -> iterateFrom fuel (firstRef es None) this = Ret es.*2.
Proof.
  revert p fuel. induction es as [| [r e] es IH]; intros p fuel; [by destruct fuel |]. intros [(x & L & _ & Nx & Ex) S] Hf. destruct fuel as [| fuel]; [cbn in Hf; lia |].
  cbn [firstRef iterateFrom]. rewrite L. cbn [js_get res_bind]. cbn in Nx, Ex. rewrite Nx. rewrite (IH (Some r)) by (done || (cbn in Hf; lia)). cbn. by subst e.
Qed.

Lemma iterate_spec this es : repr this es -> iterate this = Ret es.*2.
Proof. intros H. unfold iterate. rewrite (r_first _ _ H). eapply iterateFrom_spec; [apply (r_seg _ _ H) | by apply repr_fuel]. Qed.

Lemma clearFrom_spec this p es fuel : NoDup es.*1 -> seg (nodes this) p es None -> (length es <= fuel)%nat ->
  exists this', clearFrom fuel (firstRef es None) this = Ret this' /\ dom (nodes this') = dom (nodes this) /\ didRemove this' = didRemove this.
Proof.
  revert this p fuel. induction es as [| [r e] es IH]; intros this p fuel; [intros; exists this; by destruct fuel |].
  cbn [fmap list_fmap fst]. intros [Hr D]%NoDup_cons [(x & L & _ & Nx & _) S] Hf. destruct fuel as [| fuel]; [cbn in Hf; lia |].
  cbn [firstRef clearFrom read_next]. rewrite L. cbn [js_get res_bind]. cbn in Nx. rewrite Nx.
  edestruct (IH (write_next (Some r) None (write_prev (Some r) None this)) (Some r) fuel D) as (this' & -> & Hd & ?); [| cbn in Hf; lia |].
  - cbn. eapply seg_frame, S. intros r' Hr'. rewrite !lookup_alter_ne by (by intros ->). done.
  - exists this'. split; [done |]. rewrite Hd. cbn. by rewrite !dom_alter_L.
Qed.

Lemma clear_spec this es : repr this es ->
  exists this', clear this = Ret this' /\ repr this' [] /\ dom (nodes this') = dom (nodes this) /\ didRemove this' = didRemove this.
Proof.
  intros H. unfold clear. rewrite (r_first _ _ H).
  destruct (clearFrom_spec this None es _ (r_nodup _ _ H) (r_seg _ _ H) (repr_fuel _ _ H)) as (this' & -> & ? & ?). cbn.
  eexists. split; [done |]. split; [| by split]. split; try done. constructor.
Qed.
End Ops.

(** ** Sessions *)

Section Sessions.
Context {E : Type}.

(** The calls of a client; [Remove i] calls the function the [i]-th insertion returned. *)
Inductive op : Type := Push (e : E) | Unshift (e : E) | Remove (i : nat) | Shift | Pop | Clear.

(** A list with the functions its insertions returned. *)
Definition call (o : op) (s : t E * list ref) : res (option E * (t E * list ref)) :=
  let '(this, removers) := s in
  match o with
  | Push e => let '(r, this) := push e this in Ret (None, (this, removers ++ [r]))
  | Unshift e => let '(r, this) := unshift e this in Ret (None, (this, removers ++ [r]))
  | Remove i => let* r := js_get (removers !! i) in let* this := remover r this in Ret (None, (this, removers))
  | Shift => let* r := shift this in Ret (fst r, (snd r, removers))
  | Pop => let* r := pop this in Ret (fst r, (snd r, removers))
  | Clear => let* this := clear this in Ret (None, (this, removers))
  end.

Fixpoint calls (os : list op) (s : t E * list ref) : res (list (option E) * (t E * list ref)) :=
  match os with
  | [] => Ret ([], s)
  | o :: os => let* r := call o s in let* rest := calls os (snd r) in Ret (fst r :: fst rest, snd rest)
  end.

(** The same on a plain list: the elements with the number of their insertion, the number of
    insertions, and the insertions whose function was called. [None]: a function is called
    whose element left the list by other means. *)
Record plain : Type := mkPlain { entries : list (nat * E); count : nat; called : gset nat }.

Definition act (o : op) (a : plain) : option (option E * plain) :=
  match o with
  | Push e => Some (None, mkPlain (entries a ++ [(count a, e)]) (S (count a)) (called a))
  | Unshift e => Some (None, mkPlain ((count a, e) :: entries a) (S (count a)) (called a))
  | Remove i =>
      if decide (i ∈ called a) then Some (None, a)
      else if decide (i ∈ (entries a).*1) then Some (None, mkPlain (filter (fun p => p.1 <> i) (entries a)) (count a) ({[i]} ∪ called a))
      else None
  | Shift => Some (snd <$> head (entries a), mkPlain (tail (entries a)) (count a) (called a))
  | Pop => Some (snd <$> last (entries a), mkPlain (removelast (entries a)) (count a) (called a))
  | Clear => Some (None, mkPlain [] (count a) (called a))
  end.

Fixpoint acts (os : list op) (a : plain) : option (list (option E) * plain) :=
  match os with
  | [] => Some ([], a)
  | o :: os => '(x, a) ← act o a; '(xs, a) ← acts os a; Some (x :: xs, a)
  end.

Definition entry_rel (removers : list ref) (p : ref * E) (q : nat * E) : Prop := removers !! q.1 = Some p.1 /\ p.2 = q.2.

Record rel (s : t E * list ref) (a : plain) : Prop := {
  s_list : exists es, repr (fst s) es /\ Forall2 (entry_rel (snd s)) es (entries a);
  s_count : length (snd s) = count a;
  s_nodup : NoDup (snd s);
  s_dom r : r ∈ snd s -> r ∈ dom (nodes (fst s));
  s_called i r : snd s !! i = Some r -> r ∈ didRemove (fst s) <-> i ∈ called a;
  s_live : Forall (fun p => p.1 ∉ called a) (entries a);
  s_old i : i ∈ called a -> (i < count a)%nat;
  s_removed r : r ∈ didRemove (fst s) -> r ∈ dom (nodes (fst s))
}.

Lemma rel_new : rel (new, []) (mkPlain [] 0 ∅).
Proof. split; cbn; [exists []; split; [apply repr_new | by apply Forall2_nil] | done | by apply NoDup_nil | set_solver | done | by apply Forall_nil | set_solver | set_solver]. Qed.

Lemma entry_rel_mono rm r p q : entry_rel rm p q -> entry_rel (rm ++ [r]) p q.
Proof. intros [H ?]. split; [by apply lookup_app_l_Some | done]. Qed.

Lemma entries_nodup rm es ens : Forall2 (entry_rel rm) es ens -> NoDup es.*1 -> NoDup ens.*1.
Proof.
  induction 1 as [| [r e] [i e'] es ens [H He] F IH]; cbn; [constructor |]. intros [Hr D]%NoDup_cons. constructor; [| by apply IH].
  intros ([j e2] & -> & Hj)%list_elem_of_fmap. apply Hr. cbn in *. destruct (list_elem_of_lookup_1 _ _ Hj) as [k Hk].
  destruct (Forall2_lookup_r _ _ _ _ _ F Hk) as ([r' e3] & Hk' & Hr' & _). cbn in Hr'. assert (r' = r) as -> by congruence.
  apply list_elem_of_fmap. exists (r, e3). split; [done | by eapply list_elem_of_lookup_2].
Qed.

Lemma insertion_spec s a e b : rel s a ->
  exists s', (let '(r, this) := _insert e b (fst s) in Ret (None (A := E), (this, snd s ++ [r]))) = Ret (None, s') /\
    rel s' (mkPlain (if b then entries a ++ [(count a, e)] else (count a, e) :: entries a) (S (count a)) (called a)).
Proof.
  destruct s as [this rm]. intros [(es & H & F) Hc Hn Hd Hca Hl Ho Hr]. cbn [fst snd] in *. destruct (_insert e b this) as [r this'] eqn:Ei.
  destruct (insert_spec _ _ _ _ _ _ H Ei) as (Er & H' & Ed & Em). eexists. split; [done |]. assert (Hf : r ∉ dom (nodes this)).
  { rewrite Er. apply not_elem_of_dom, fresh_in_new. }
  split; cbn; try (rewrite Em || rewrite Ed).
  - eexists. split; [exact H' |]. assert (F' : Forall2 (entry_rel (rm ++ [r])) es (entries a)) by (eapply Forall2_impl; [exact F | intros; by apply entry_rel_mono]).
    assert (K : entry_rel (rm ++ [r]) (r, e) (count a, e)) by (split; [by apply lookup_snoc_Some; right | done]).
    destruct b; [apply Forall2_app; [done | by constructor] | by constructor].
  - rewrite length_app. cbn. lia.
  - apply NoDup_app. split_and!; [done | | apply NoDup_singleton]. intros r' Hr' ->%list_elem_of_singleton. by apply Hf, Hd.
  - intros r' [Hr' | ->%list_elem_of_singleton]%elem_of_app; [apply Hd in Hr'; set_solver | set_solver].
  - intros i r' [[_ Hi] | [-> <-]]%lookup_snoc_Some; [by apply Hca |]. split; intros Hx; [exfalso; by apply Hf, Hr | apply Ho in Hx; lia].
  - assert (count a ∉ called a) by (intros Hx%Ho; lia). destruct b; [apply Forall_app; split; [done | by constructor] | by constructor].
  - intros i Hi%Ho. lia.
  - intros r' Hr'%Hr. set_solver.
Qed.

(** A change that takes elements out of the list. *)
Lemma rel_shrink this this' rm es' ens' a : rel (this, rm) a -> repr this' es' -> Forall2 (entry_rel rm) es' ens' -> (forall p, p ∈ ens' -> p ∈ entries a) ->
  dom (nodes this') = dom (nodes this) -> didRemove this' = didRemove this -> rel (this', rm) (mkPlain ens' (count a) (called a)).
Proof.
  intros [_ Hc Hn Hd Hca Hl Ho Hr] H' F' Hs Ed Em. split; cbn in *; rewrite ?Ed, ?Em; try done; [by exists es' |].
  apply Forall_forall. intros p Hp%Hs. by eapply Forall_forall in Hl.
Qed.

Lemma remover_call this rm a i r : rel (this, rm) a -> rm !! i = Some r -> (i ∈ called a \/ i ∈ (entries a).*1) ->
  exists this', remover r this = Ret this' /\
    rel (this', rm) (if decide (i ∈ called a) then a else mkPlain (filter (fun p => p.1 <> i) (entries a)) (count a) ({[i]} ∪ called a)).
Proof.
  intros H Hi Hin. pose proof H as [(es & R & F) Hc Hn Hd Hca Hl Ho Hr]. cbn in *. unfold remover. specialize (Hca i r Hi) as Hir. case_decide as Hci.
  { rewrite bool_decide_true by tauto. by exists this. }
  rewrite bool_decide_false by tauto. destruct Hin as [? | Hin]; [done |].
  apply list_elem_of_fmap in Hin as ([i' e] & -> & Hin). cbn in *. apply list_elem_of_split in Hin as (xs & ys & Ee).
  pose proof (entries_nodup _ _ _ F (r_nodup _ _ R)) as D. rewrite Ee in *.
  apply Forall2_app_inv_r in F as (es1 & es2 & F1 & F2 & ->). apply Forall2_cons_inv_r in F2 as ([r' e'] & es3 & [Hr' He'] & F3 & ->). cbn in Hr', He'.
  assert (r' = r) as -> by congruence.
  set (this0 := mk _ _ _ _ _ _ _). assert (R0 : repr this0 (es1 ++ (r, e') :: es3)) by (destruct R; by split).
  destruct (remove_spec this0 es1 r e' es3 R0) as (this' & -> & R' & Ed & Em). exists this'. split; [done |].
  assert (Ef : filter (fun p : nat * E => p.1 <> i') (xs ++ (i', e) :: ys) = xs ++ ys).
  { by apply filter_key. }
  rewrite Ef. split; cbn; rewrite ?Em, ?Ed; cbn; try done.
  - exists (es1 ++ es3). split; [done | by apply Forall2_app].
  - intros j q Hj. rewrite !elem_of_union, !elem_of_singleton, (Hca j q Hj). split; (intros [-> |]; [left | by right]); [exact (NoDup_lookup rm j i' _ Hn Hj Hi) | congruence].
  - rewrite fmap_app, NoDup_app in D. destruct D as (_ & D1 & [D2 _]%NoDup_cons). apply Forall_app in Hl as [Hl1 [_ Hl2]%Forall_cons].
    apply Forall_app. split; apply Forall_forall; intros q Hq; pose proof (list_elem_of_fmap_2 fst _ _ Hq) as Hq'; cbn in Hq'; rewrite elem_of_union, elem_of_singleton; intros [E1 | Hx].
    + apply (D1 _ Hq'). rewrite E1. left.
    + by eapply Forall_forall in Hl1; [apply Hl1 |].
    + apply D2. by rewrite <- E1.
    + by eapply Forall_forall in Hl2; [apply Hl2 |].
  - intros j [->%elem_of_singleton | Hj]%elem_of_union; [| by apply Ho]. apply lookup_lt_Some in Hi. lia.
  - intros q [->%elem_of_singleton | Hq]%elem_of_union; [| by apply Hr]. apply Hd. by eapply list_elem_of_lookup_2.
Qed.

Lemma call_spec o s a x a' : rel s a -> act o a = Some (x, a') -> exists s', call o s = Ret (x, s') /\ rel s' a'.
Proof.
  intros H. destruct s as [this rm]. pose proof H as [(es & R & F) Hc _]. destruct o as [e | e | i | | |]; cbn [act call].
  - intros [= <- <-]. apply (insertion_spec (this, rm) a e true H).
  - intros [= <- <-]. apply (insertion_spec (this, rm) a e false H).
  - intros Ha. assert (Hin : i ∈ called a \/ i ∈ (entries a).*1) by (repeat case_decide; [by left | by right | done]).
    assert (exists r, rm !! i = Some r) as [r Er].
    { destruct Hin as [Hi%(s_old _ _ H) | Hi]; [cbn in Hc; apply lookup_lt_is_Some; lia |].
      apply list_elem_of_fmap in Hi as (q & -> & [k Hk]%list_elem_of_lookup_1). destruct (Forall2_lookup_r _ _ _ _ _ F Hk) as (p & _ & Hp & _). by exists p.1. }
    destruct (remover_call this rm a i r H Er Hin) as (this' & E1 & R'). rewrite Er. cbn [js_get res_bind]. rewrite E1. cbn [res_bind].
    exists (this', rm). repeat case_decide; simplify_eq; done.
  - intros [= <- <-]. destruct (shift_spec this es R) as (this' & -> & R' & Ed & Em). cbn [res_bind fst snd]. exists (this', rm).
    split; [destruct F as [| [? ?] [? ?] ? ? [_ ?]]; cbn in *; by subst |].
    eapply rel_shrink; [exact H | exact R' | destruct F; done | intros p; destruct (entries a); set_solver | done | done].
  - intros [= <- <-]. destruct (pop_spec this es R) as (this' & -> & R' & Ed & Em). cbn [res_bind fst snd]. exists (this', rm).
    destruct (decide (es = [])) as [-> | Hne].
    { apply Forall2_nil_inv_l in F as E0. rewrite E0. split; [done |]. eapply rel_shrink; [exact H | exact R' | by apply Forall2_nil | intros p; set_solver | done | done]. }
    destruct (exists_last Hne) as (es' & [r e] & ->). apply Forall2_app_inv_l in F as (ens & l & F1 & F2 & E0).
    apply Forall2_cons_inv_l in F2 as ([i e'] & l' & [_ He] & F3 & ->). inversion F3; subst l'. rewrite E0, !last_snoc, !removelast_last in *. cbn in He. subst e'.
    split; [done |]. eapply rel_shrink; [exact H | exact R' | done | intros p; rewrite E0; set_solver | done | done].
  - intros [= <- <-]. destruct (clear_spec this es R) as (this' & -> & R' & Ed & Em). cbn [res_bind]. exists (this', rm). split; [done |].
    eapply rel_shrink; [exact H | exact R' | by apply Forall2_nil | intros p; set_solver | done | done].
Qed.

Lemma calls_spec os s a xs a' : rel s a -> acts os a = Some (xs, a') -> exists s', calls os s = Ret (xs, s') /\ rel s' a'.
Proof.
  revert s a xs a'. induction os as [| o os IH]; intros s a xs a' H; cbn [acts calls]; [intros [= <- <-]; by exists s |].
  destruct (act o a) as [[x a1] |] eqn:E1; [| done]. cbn. destruct (acts os a1) as [[ys a2] |] eqn:E2; [| done]. intros [= <- <-].
  destruct (call_spec o s a x a1 H E1) as (s1 & -> & H1). cbn. destruct (IH s1 a1 ys a2 H1 E2) as (s2 & -> & H2). by exists s2.
Qed.
End Sessions.

(** C14: Every session on a linked list in which the function of an insertion is not called
    after its element left the list by other means behaves like the session on a plain list:
    nothing is thrown, [shift] and [pop] return what the plain list has there, and the loop over
    the list, its size and [isEmpty] show the elements left. *)
Theorem linked_list_sessions {E} (os : list (op (E := E))) xs a :
  acts os (mkPlain [] 0 ∅) = Some (xs, a) ->
  exists this rm, calls os (LinkedList.new, []) = Ret (xs, (this, rm)) /\
    LinkedList.iterate this = Ret (entries a).*2 /\ LinkedList.size this = zlen (entries a) /\ LinkedList.isEmpty this = bool_decide (entries a = []).
Proof.
  intros H. destruct (calls_spec os _ _ xs a rel_new H) as ([this rm] & -> & [(es & R & F) _]). exists this, rm. split; [done |]. cbn in *.
  pose proof (Forall2_length _ _ _ F) as L. split_and!.
  - rewrite (iterate_spec _ _ R). f_equal. clear -F. induction F as [| [? ?] [? ?] ? ? [_ He]]; [done |]. cbn in *. by f_equal.
  - unfold LinkedList.size. rewrite (r_size _ _ R). unfold zlen. by rewrite L.
  - unfold LinkedList.isEmpty. rewrite (r_first _ _ R). apply bool_decide_ext. by destruct F as [| [? ?] ? ? ? _].
Qed.

(** Insertions at both ends, removals by their functions, from the ends, and twice. *)
Lemma linked_list_sessions_witness : exists this rm,
  calls [Push 1; Push 2; Unshift 3; Push 4; Remove 1; Remove 1; Pop; Shift] (LinkedList.new, []) =
    Ret ([None; None; None; None; None; None; Some 4; Some 3], (this, rm)) /\
  LinkedList.iterate this = Ret [1] /\ LinkedList.size this = 1.
Proof.
  edestruct (linked_list_sessions [Push 1; Push 2; Unshift 3; Push 4; Remove 1; Remove 1; Pop; Shift]) as (this & rm & H & I & S & _); [vm_compute; reflexivity |].
  exists this, rm. split; [exact H |]. split; [exact I | exact S].
Defined.

(** ** Functions called late *)

Section Late.
Context {E : Type}.
Implicit Types (this : t E) (es : list (ref * E)).

(** Taking the first of at least two elements leaves its links. *)
Lemma shift_links this r e r' e' es : repr this ((r, e) :: (r', e') :: es) ->
  exists this' n, shift this = Ret (Some e, this') /\ repr this' ((r', e') :: es) /\ didRemove this' = didRemove this /\
    nodes this' !! r = Some n /\ prev n = None /\ next n = Some r'.
Proof.
  intros H. pose proof H as [S D F L _]. destruct (seg_middle _ _ [] r e _ _ S) as (n & Ln & Pn & Nn & En & _). cbn in Pn, Nn, En.
  destruct (shift_spec this _ H) as (this' & Es & R & _ & Em). exists this', n. split; [exact Es |]. split; [exact R |]. split; [done |]. split; [| done].
  revert Es. unfold shift, _remove. rewrite F. cbn [firstRef]. rewrite Ln. cbn [js_get res_bind]. rewrite Pn, Nn, ?F. cbn [firstRef read_next]. rewrite Ln. cbn [js_get res_bind]. rewrite Nn.
  intros [= _ <-]. cbn. rewrite lookup_alter_ne; [done |]. intros ->. apply NoDup_cons in D as [D _]. apply D. left.
Qed.

(** The function of a node that is gone but has a link to the right takes the first element. *)
Lemma late_first this r n r' e es : repr this ((r', e) :: es) -> r ∉ didRemove this -> nodes this !! r = Some n -> prev n = None -> is_Some (next n) ->
  exists this', remover r this = Ret this' /\ iterate this' = Ret es.*2 /\ _size this' = zlen es.
Proof.
  intros H Hr Ln Pn [q Nn]. pose proof H as [S D F L Z]. destruct (seg_middle _ _ [] r' e es _ S) as (n' & Ln' & _ & Nn' & _ & _ & S'). cbn in Nn'.
  unfold remover, _remove. rewrite bool_decide_false by done. cbn [nodes]. rewrite Ln. cbn [js_get res_bind]. rewrite Pn, Nn. cbn [_first]. rewrite F.
  cbn [firstRef read_next nodes]. rewrite Ln'. cbn [js_get res_bind]. rewrite Nn'. eexists. split; [done |]. split.
  2: { unfold zlen in *. destruct (firstRef es None); cbn in *; lia. }
  apply NoDup_cons in D as [_ D]. assert (Hlen : (length es <= base.size (nodes this))%nat) by (apply repr_fuel in H; cbn in H; lia).
  destruct es as [| [f e2] es]; [unfold iterate; cbn; by destruct (base.size (nodes this)) |].
  pose proof (seg_setPrev (nodes this) (Some r') None ((f, e2) :: es) None D S') as J. cbn [firstRef setPrev] in J. unfold iterate. cbn -[iterateFrom].
  eapply (iterateFrom_spec _ None ((f, e2) :: es)); [exact J |]. by rewrite <- size_dom, dom_alter_L, size_dom.
Qed.

(** Pushing does not touch a node that is not in the list. *)
Lemma push_keeps this es e r n this' r0 : repr this es -> r0 ∉ es.*1 -> nodes this !! r0 = Some n -> push e this = (r, this') ->
  nodes this' !! r0 = Some n /\ r0 ∉ (es ++ [(r, e)]).*1.
Proof.
  intros H Hr Ln Ep. destruct (insert_spec _ _ _ true _ _ H Ep) as (Er & _). assert (Hne : r0 <> r) by (intros ->; rewrite Er, fresh_in_new in Ln; done).
  split; [| rewrite fmap_app; set_solver]. revert Ep. unfold push, _insert. rewrite <- Er. cbn [_first set_nodes]. rewrite (r_first _ _ H).
  destruct es as [| [r1 e1] es]; [rewrite bool_decide_true by done | rewrite bool_decide_false by done]; intros [= <-]; cbn; [by rewrite lookup_insert_ne |].
  rewrite (r_last _ _ H). cbn [lastRef]. destruct (lastRef_Some r1 es) as [l El]. rewrite El. cbn. rewrite !lookup_alter_ne; [by rewrite lookup_insert_ne | done |].
  intros ->. apply Hr. exact (lastRef_in ((r1, e1) :: es) _ El).
Qed.

Lemma pushes_keep xs this rm es r0 n : repr this es -> r0 ∉ es.*1 -> nodes this !! r0 = Some n ->
  exists this' rm' es', calls (Push <$> xs) (this, rm) = Ret (replicate (length xs) None, (this', rm ++ rm')) /\ repr this' es' /\ es'.*2 = es.*2 ++ xs /\
    nodes this' !! r0 = Some n /\ didRemove this' = didRemove this.
Proof.
  revert this rm es. induction xs as [| e xs IH]; intros this rm es H Hr Ln; [exists this, [], es; by rewrite !app_nil_r |]. cbn [fmap list_fmap calls call].
  destruct (push e this) as [r this1] eqn:Ep. destruct (push_keeps _ _ _ _ _ _ _ H Hr Ln Ep) as [L1 R1]. destruct (insert_spec _ _ _ true _ _ H Ep) as (_ & H1 & _ & Em).
  cbn [res_bind fst snd]. destruct (IH this1 (rm ++ [r]) _ H1 R1 L1) as (this' & rm' & es' & -> & H' & Ee & L' & Em'). exists this', (r :: rm'), es'.
  split; [cbn; by rewrite <- app_assoc |]. split; [done |]. rewrite Ee, fmap_app, <- app_assoc. split; [done |]. split; [done | congruence].
Qed.

(** [clear] resets the links of all nodes of the list. *)
Lemma clearFrom_links this p es fuel r : NoDup es.*1 -> seg (nodes this) p es None -> (length es <= fuel)%nat ->
  (r ∈ es.*1 \/ exists n, nodes this !! r = Some n /\ prev n = None /\ next n = None) -> forall this', clearFrom fuel (firstRef es None) this = Ret this' ->
  exists n, nodes this' !! r = Some n /\ prev n = None /\ next n = None.
Proof.
  revert this p fuel. induction es as [| [r1 e1] es IH]; intros this p fuel D S Hf Hr this'; [destruct Hr as [?%elem_of_nil | Hr]; [done |]; by destruct fuel; intros [= <-] |].
  cbn [fmap list_fmap fst] in D. apply NoDup_cons in D as [Hr1 D]. destruct S as [(x & L & _ & Nx & _) S]. destruct fuel as [| fuel]; [cbn in Hf; lia |].
  cbn [firstRef clearFrom read_next]. rewrite L. cbn [js_get res_bind]. cbn in Nx. rewrite Nx. apply (IH _ (Some r1)); [done | | cbn in Hf; lia |].
  - cbn. eapply seg_frame, S. intros r' Hr'. rewrite !lookup_alter_ne by (by intros ->). done.
  - cbn in Hr |- *. destruct (decide (r = r1)) as [-> | Hne]; [right; rewrite !lookup_alter_eq, L; by eexists |].
    rewrite !lookup_alter_ne by done. destruct Hr as [[-> | ?]%elem_of_cons | ?]; [done | by left | by right].
Qed.

Lemma clear_links this es r this' : repr this es -> r ∈ es.*1 -> clear this = Ret this' -> exists n, nodes this' !! r = Some n /\ prev n = None /\ next n = None.
Proof.
  intros H Hr. unfold clear. rewrite (r_first _ _ H). destruct (clearFrom _ _ _) as [t1 |] eqn:Ec; [| done]. intros [= <-]. cbn.
  eapply clearFrom_links; [apply (r_nodup _ _ H) | apply (r_seg _ _ H) | by apply repr_fuel | by left | exact Ec].
Qed.

(** The function of a node without links drops the whole list. *)
Lemma late_all this es r n : repr this es -> r ∉ didRemove this -> nodes this !! r = Some n -> prev n = None -> next n = None ->
  exists this', remover r this = Ret this' /\ iterate this' = Ret [] /\ _size this' = zlen es - 1.
Proof.
  intros [S D F L Z] Hr Ln Pn Nn. unfold remover, _remove. rewrite bool_decide_false by done. cbn [nodes]. rewrite Ln. cbn [js_get res_bind]. rewrite Pn, Nn.
  eexists. split; [done |]. split; [unfold iterate; cbn; by destruct (base.size _) | cbn; lia].
Qed.
End Late.

(** Where the function of an entry stands. *)
Lemma entry_node {E} (this : t E) rm a i e : rel (this, rm) a -> (i, e) ∈ entries a ->
  exists r, rm !! i = Some r /\ r ∉ didRemove this /\ forall es, repr this es -> Forall2 (entry_rel rm) es (entries a) -> r ∈ es.*1.
Proof.
  intros H Hi. pose proof H as [(es0 & R0 & F0) _ _ _ Hca Hl _ _]. cbn in *. destruct (list_elem_of_lookup_1 _ _ Hi) as [k Hk].
  destruct (Forall2_lookup_r _ _ _ _ _ F0 Hk) as ([r e'] & _ & Hr & _). cbn in Hr. exists r. split; [done |]. split.
  - rewrite (Hca i r Hr). rewrite Forall_forall in Hl. exact (Hl _ Hi).
  - intros es R F. destruct (Forall2_lookup_r _ _ _ _ _ F Hk) as ([r2 e2] & Hk2 & Hr2 & _). cbn in Hr2. assert (r2 = r) as -> by congruence.
    exact (list_elem_of_fmap_2 fst _ _ (list_elem_of_lookup_2 _ _ _ Hk2)).
Qed.

Lemma calls_app {E} (os os' : list (op (E := E))) s xs s' : calls os s = Ret (xs, s') ->
  calls (os ++ os') s = let* r := calls os' s' in Ret (xs ++ fst r, snd r).
Proof.
  revert s xs. induction os as [| o os IH]; intros s xs; cbn [calls app]; [intros [= <- <-]; by destruct (calls os' s) as [[? ?] |] |].
  destruct (call o s) as [[x s1] |]; [| done]. cbn. destruct (calls os s1) as [[ys s2] |] eqn:E1; [| done]. cbn. intros [= <- <-].
  rewrite (IH s1 ys E1). by destruct (calls os' s2) as [[? ?] |].
Qed.

(** C38: Functions called after their element left the list by other means damage the list. After
    any session that leaves at least two elements, [shift] followed by the function of the element
    it took removes the element behind it too; and after any session, [clear], any insertions and
    the function of an element that was cleared leave an empty list, whose size counts one less
    than the elements that were inserted. *)
Theorem late_removers {E} (os : list (op (E := E))) xs a :
  acts os (mkPlain [] 0 ∅) = Some (xs, a) ->
  (forall i e q rest, entries a = (i, e) :: q :: rest ->
    exists this rm, calls (os ++ [Shift; Remove i]) (LinkedList.new, []) = Ret (xs ++ [Some e; None], (this, rm)) /\
      LinkedList.iterate this = Ret rest.*2 /\ LinkedList.size this = zlen rest) /\
  (forall i e ys, (i, e) ∈ entries a ->
    exists this rm answers, calls (os ++ Clear :: (Push <$> ys) ++ [Remove i]) (LinkedList.new, []) = Ret (answers, (this, rm)) /\
      LinkedList.iterate this = Ret [] /\ LinkedList.size this = zlen ys - 1).
Proof.
  intros H. destruct (calls_spec os _ _ xs a rel_new H) as ([this rm] & Ec & R). pose proof R as [(es & Re & F) _ _ _ _ _ _ _]. cbn [fst snd] in *. split.
  - intros i e q rest Ea. destruct (entry_node this rm a i e R) as (r & Er & Hr & Hin); [rewrite Ea; left |].
    rewrite Ea in F. apply Forall2_cons_inv_r in F as ([r0 e0] & es1 & [Hr0 He0] & F & ->). apply Forall2_cons_inv_r in F as ([r1 e1] & es2 & _ & F & ->).
    cbn in Hr0, He0. subst e0. assert (r0 = r) as -> by congruence.
    destruct (shift_links this r e r1 e1 es2 Re) as (this1 & n & Es & R1 & Em & Ln & Pn & Nn).
    destruct (late_first this1 r n r1 e1 es2 R1) as (this2 & E2 & I2 & Z2); [by rewrite Em | done | done | by rewrite Nn |].
    exists this2, rm. rewrite (calls_app os _ _ xs (this, rm) Ec). cbn [calls call]. rewrite Es. cbn [res_bind fst snd calls call]. rewrite Er. cbn [js_get res_bind]. rewrite E2.
    cbn [res_bind fst snd calls]. split; [done |]. assert (Ee : es2.*2 = rest.*2) by (clear -F; induction F as [| [? ?] [? ?] ? ? [_ He]]; [done |]; cbn in *; by f_equal).
    split; [by rewrite I2, Ee |]. unfold LinkedList.size. rewrite Z2. unfold zlen. by rewrite (Forall2_length _ _ _ F).
  - intros i e ys Hi. destruct (entry_node this rm a i e R Hi) as (r & Er & Hr & Hin). specialize (Hin es Re F).
    destruct (clear_spec this es Re) as (this1 & E1 & R1 & _ & Em1). destruct (clear_links this es r this1 Re Hin E1) as (n & Ln & Pn & Nn).
    destruct (pushes_keep ys this1 rm [] r n R1) as (this2 & rm' & es' & E2 & R2 & Ee & L2 & Em2); [cbn; set_solver | done |].
    destruct (late_all this2 es' r n R2) as (this3 & E3 & I3 & Z3); [by rewrite Em2, Em1 | done | done | done |].
    exists this3, (rm ++ rm'). eexists. rewrite (calls_app os _ _ xs (this, rm) Ec). cbn [calls call]. rewrite E1. cbn [res_bind fst snd].
    rewrite (calls_app (Push <$> ys) _ _ _ _ E2). cbn [calls call]. rewrite lookup_app_l by (by eapply lookup_lt_Some). rewrite Er. cbn [js_get res_bind]. rewrite E3. cbn [res_bind fst snd calls].
    split; [reflexivity |]. split; [done |]. unfold LinkedList.size. rewrite Z3. unfold zlen. rewrite <- (length_fmap snd es'), Ee. done.
Qed.

(** Three elements; the function of the first one is called after [shift], and after [clear] and two
    insertions. *)
Lemma late_removers_witness :
  (exists this rm, calls [Push 1; Push 2; Push 3; Shift; Remove 0] (LinkedList.new, []) = Ret ([None; None; None; Some 1; None], (this, rm)) /\
    LinkedList.iterate this = Ret [3]) /\
  (exists this rm answers, calls [Push 1; Push 2; Push 3; Clear; Push 4; Push 5; Remove 0] (LinkedList.new, []) = Ret (answers, (this, rm)) /\
    LinkedList.iterate this = Ret [] /\ LinkedList.size this = 1).
Proof.
  destruct (late_removers [Push 1; Push 2; Push 3] [None; None; None] (mkPlain [(0%nat, 1); (1%nat, 2); (2%nat, 3)] 3 ∅)) as [H1 H2]; [vm_compute; reflexivity |]. split.
  - destruct (H1 0%nat 1 (1%nat, 2) [(2%nat, 3)] eq_refl) as (this & rm & C & I & _). exists this, rm. split; [exact C | exact I].
  - apply (H2 0%nat 1 [4; 5]). left.
Defined.
