(* ===== verification/LinkedMap.v ===== *)
(** * Linked maps and caches

    [src/src/vs/base/common/map.ts]: class [LinkedMap], a map that remembers an order of its
    keys, and class [LRUCache], which drops the oldest keys when there are too many. *)

From stdpp Require Import gmap.
From S2P Require Import Prelude Linked.
Import Link.

(** [Touch] *)
Inductive Touch : Type := NoTouch | AsOld | AsNew.

#[global] Instance Touch_eq_dec : EqDecision Touch.
Proof. solve_decision. Defined.

Module LinkedMap.
Section LinkedMap.
Context {K V : Type} `{Countable K}.

Record Item : Type := mkItem { previous : option ref; next : option ref; key : K; value : V }.

#[global] Instance Item_linked : Linked Item (K * V) := {|
  prevOf := previous; nextOf := next; elemOf i := (key i, value i);
  withPrev o i := mkItem o (next i) (key i) (value i);
  withNext o i := mkItem (previous i) o (key i) (value i)
|}.

#[global] Instance Item_laws : LinkedLaws Item (K * V).
Proof. by split. Qed.

(** The map with the item objects it made. *)
Record t : Type := mk {
  _map : gmap K ref;
  _head : option ref;
  _tail : option ref;
  _size : Z;
  _state : Z;
  items : gmap ref Item
}.

Definition new : t := mk ∅ None None 0 0 ∅.

Definition set_map (f : gmap K ref -> gmap K ref) (this : t) : t := mk (f (_map this)) (_head this) (_tail this) (_size this) (_state this) (items this).
Definition set_head (o : option ref) (this : t) : t := mk (_map this) o (_tail this) (_size this) (_state this) (items this).
Definition set_tail (o : option ref) (this : t) : t := mk (_map this) (_head this) o (_size this) (_state this) (items this).
Definition set_size (n : Z) (this : t) : t := mk (_map this) (_head this) (_tail this) n (_state this) (items this).
Definition bump (this : t) : t := mk (_map this) (_head this) (_tail this) (_size this) (_state this + 1) (items this).
Definition set_items (f : gmap ref Item -> gmap ref Item) (this : t) : t := mk (_map this) (_head this) (_tail this) (_size this) (_state this) (f (items this)).

(** [x!.f], [x!.previous = v] and [x!.next = v] *)
Definition item (x : option ref) (this : t) : res Item := let* r := js_get x in js_get (items this !! r).
Definition put_previous (x v : option ref) (this : t) : res t := let* r := js_get x in Ret (set_items (alter (withPrev v) r) this).
Definition put_next (x v : option ref) (this : t) : res t := let* r := js_get x in Ret (set_items (alter (withNext v) r) this).

Definition missing (o : option ref) : bool := bool_decide (o = None).

(** ** Reading *)

Definition isEmpty (this : t) : bool := missing (_head this) && missing (_tail this).
Definition size (this : t) : Z := _size this.
Definition valueAt (o : option ref) (this : t) : option V := r ← o; i ← items this !! r; Some (value i).
Definition first (this : t) : option V := valueAt (_head this) this.
Definition last (this : t) : option V := valueAt (_tail this) this.
Definition has (k : K) (this : t) : bool := bool_decide (is_Some (_map this !! k)).

(** ** The list of items *)

Definition clear (this : t) : t := mk ∅ None None 0 (_state this + 1) (items this).

Definition addItemFirst (x : ref) (this : t) : res t :=
  let* this :=
    (if missing (_head this) && missing (_tail this) then Ret (set_tail (Some x) this)
     else if missing (_head this) then Throw Error
     else
       let* this := put_next (Some x) (_head this) this in
       put_previous (_head this) (Some x) this) in
  Ret (bump (set_head (Some x) this)).

Definition addItemLast (x : ref) (this : t) : res t :=
  let* this :=
    (if missing (_head this) && missing (_tail this) then Ret (set_head (Some x) this)
     else if missing (_tail this) then Throw Error
     else
       let* this := put_previous (Some x) (_tail this) this in
       put_next (_tail this) (Some x) this) in
  Ret (bump (set_tail (Some x) this)).

Definition removeItem (x : ref) (this : t) : res t :=
  let* i := item (Some x) this in
  let isHead := bool_decide (_head this = Some x) in
  let isTail := bool_decide (_tail this = Some x) in
  let* this :=
    (if isHead && isTail then Ret (set_tail None (set_head None this))
     else if isHead then
       if missing (next i) then Throw Error
       else let* this := put_previous (next i) None this in Ret (set_head (next i) this)
     else if isTail then
       if missing (previous i) then Throw Error
       else let* this := put_next (previous i) None this in Ret (set_tail (previous i) this)
     else if missing (next i) || missing (previous i) then Throw Error
     else
       let* this := put_previous (next i) (previous i) this in
       put_next (previous i) (next i) this) in
  let* this := put_next (Some x) None this in
  let* this := put_previous (Some x) None this in
  Ret (bump this).

(** The method [touch]. *)
Definition touch (x : ref) (how : Touch) (this : t) : res t :=
  if missing (_head this) || missing (_tail this) then Throw Error
  else
    match how with
    | NoTouch => Ret this
    | AsOld =>
        if bool_decide (_head this = Some x) then Ret this
        else
          let* i := item (Some x) this in
          let* this :=
            (if bool_decide (_tail this = Some x) then
               let* this := put_next (previous i) None this in Ret (set_tail (previous i) this)
             else
               let* this := put_previous (next i) (previous i) this in
               put_next (previous i) (next i) this) in
          let* this := put_previous (Some x) None this in
          let* this := put_next (Some x) (_head this) this in
          let* this := put_previous (_head this) (Some x) this in
          Ret (bump (set_head (Some x) this))
    | AsNew =>
        if bool_decide (_tail this = Some x) then Ret this
        else
          let* i := item (Some x) this in
          let* this :=
            (if bool_decide (_head this = Some x) then
               let* this := put_previous (next i) None this in Ret (set_head (next i) this)
             else
               let* this := put_previous (next i) (previous i) this in
               put_next (previous i) (next i) this) in
          let* this := put_next (Some x) None this in
          let* this := put_previous (Some x) (_tail this) this in
          let* this := put_next (_tail this) (Some x) this in
          Ret (bump (set_tail (Some x) this))
    end.

(** ** The operations of a map *)

Definition get (k : K) (how : Touch) (this : t) : res (option V * t) :=
  match _map this !! k with
  | None => Ret (None, this)
  | Some x =>
      let* this := (if bool_decide (how = NoTouch) then Ret this else touch x how this) in
      let* i := item (Some x) this in
      Ret (Some (value i), this)
  end.

Definition set (k : K) (v : V) (how : Touch) (this : t) : res t :=
  match _map this !! k with
  | Some x =>
      let this := set_items (alter (fun i => mkItem (previous i) (next i) (key i) v) x) this in
      if bool_decide (how = NoTouch) then Ret this else touch x how this
  | None =>
      let x := fresh_in (items this) in
      let this := set_items (insert x (mkItem None None k v)) this in
      let* this := (match how with AsOld => addItemFirst x this | _ => addItemLast x this end) in
      Ret (set_size (_size this + 1) (set_map (insert k x) this))
  end.

Definition remove (k : K) (this : t) : res (option V * t) :=
  match _map this !! k with
  | None => Ret (None, this)
  | Some x =>
      let* this := removeItem x (set_map (base.delete k) this) in
      let this := set_size (_size this - 1) this in
      let* i := item (Some x) this in
      Ret (Some (value i), this)
  end.

(** [!!this.remove(key)], where [truthy] tells which values JavaScript takes for true *)
Definition delete (truthy : V -> bool) (k : K) (this : t) : res (bool * t) :=
  let* r := remove k this in
  Ret (match fst r with Some v => truthy v | None => false end, snd r).

Definition shift (this : t) : res (option V * t) :=
  if missing (_head this) && missing (_tail this) then Ret (None, this)
  else if missing (_head this) || missing (_tail this) then Throw Error
  else
    let* x := js_get (_head this) in
    let* i := item (Some x) this in
    let* this := removeItem x (set_map (base.delete (key i)) this) in
    Ret (Some (value i), set_size (_size this - 1) this).

(** The loop of [trimOld]. *)
Fixpoint trimFrom (fuel : nat) (current : option ref) (currentSize newSize : Z) (this : t) : res (option ref * Z * t) :=
  match current with
  | None => Ret (None, currentSize, this)
  | Some x =>
      if newSize <? currentSize then
        match fuel with
        | O => Throw OutOfFuel
        | S fuel =>
            let* i := item current this in
            trimFrom fuel (next i) (currentSize - 1) newSize (set_map (base.delete (key i)) this)
        end
      else Ret (current, currentSize, this)
  end.

Definition trimOld (newSize : Z) (this : t) : res t :=
  if size this <=? newSize then Ret this
  else if newSize === 0 then Ret (clear this)
  else
    let* r := trimFrom (base.size (items this)) (_head this) (size this) newSize this in
    let '(current, currentSize, this) := r in
    let this := set_size currentSize (set_head current this) in
    let* this := (if missing current then Ret this else put_previous current None this) in
    Ret (bump this).

(** ** Loops *)

(** [forEach]; the callback changes the map and a state of its own. *)
Fixpoint forEachFrom {W} (fuel : nat) (callbackfn : V -> K -> t -> W -> res (t * W)) (state : Z) (current : option ref) (this : t) (w : W) : res (t * W) :=
  match current with
  | None => Ret (this, w)
  | Some x =>
      match fuel with
      | O => Throw OutOfFuel
      | S fuel =>
          let* i := item current this in
          let* r := callbackfn (value i) (key i) this w in
          if _state (fst r) !== state then Throw Error
          else
            let* i := item current (fst r) in
            forEachFrom fuel callbackfn state (next i) (fst r) (snd r)
      end
  end.

Definition forEach {W} (callbackfn : V -> K -> t -> W -> res (t * W)) (this : t) (w : W) : res (t * W) :=
  forEachFrom (base.size (items this)) callbackfn (_state this) (_head this) this w.

(** The iterators of [keys], [values] and [entries]: they differ in what they show of an item. *)
Record iterator : Type := mkIterator { state : Z; current : option ref }.

Definition iterate (this : t) : iterator := mkIterator (_state this) (_head this).

Definition nextOf {A} (show : Item -> A) (it : iterator) (this : t) : res (option A * iterator) :=
  if _state this !== state it then Throw Error
  else
    match current it with
    | Some x => let* i := item (Some x) this in Ret (Some (show i), mkIterator (state it) (next i))
    | None => Ret (None, it)
    end.

Definition keys : iterator -> t -> res (option K * iterator) := nextOf key.
Definition values : iterator -> t -> res (option V * iterator) := nextOf value.
Definition entries : iterator -> t -> res (option (K * V) * iterator) := nextOf (fun i => (key i, value i)).

Definition toJSON (this : t) : res (list (K * V)) :=
  let* r := forEach (fun v k this data => Ret (this, data ++ [(k, v)])) this [] in
  Ret (snd r).

(** The loop of [fromJSON]. *)
Fixpoint setAll (data : list (K * V)) (this : t) : res t :=
  match data with
  | [] => Ret this
  | (k, v) :: data => let* this := set k v NoTouch this in setAll data this
  end.

Definition fromJSON (data : list (K * V)) (this : t) : res t :=
  setAll data (clear this).
End LinkedMap.
Arguments t K V {_ _}.
Arguments Item : clear implicits.
End LinkedMap.

(** ** Numbers of a ratio

    A finite number is [mantissa / 2 ^ exponent]. *)
Module Num.
Record t : Type := mk { mantissa : Z; exponent : Z }.

Definition zero : t := mk 0 0.
Definition one : t := mk 1 0.

(** [Math.min(Math.max(0, ratio), 1)] *)
Definition clamp (x : t) : t :=
  if mantissa x <? 0 then zero else if 2 ^ exponent x <? mantissa x then one else x.

(** A quotient by a power of two, to the nearest integer, to the even one of two. *)
Definition nearest (a s : Z) : Z :=
  let q := a / 2 ^ s in
  let r := a mod 2 ^ s in
  if (2 ^ s <? 2 * r) || ((2 * r === 2 ^ s) && Z.odd q) then q + 1 else q.

(** [Math.round(limit * ratio)]: the product is rounded to 53 bits, then to the nearest integer,
    a half upwards. *)
Definition roundedProduct (limit : Z) (ratio : t) : Z :=
  let a := limit * mantissa ratio in
  let s := Z.max 0 (Z.log2 (Z.abs a) + 1 - 53) in
  let p := nearest a s * 2 ^ s in
  (2 * p + 2 ^ exponent ratio) / 2 ^ (exponent ratio + 1).
End Num.

Module LRUCache.
Section LRUCache.
Context {K V : Type} `{Countable K}.

(** A limit is an integer here; the source takes any number. *)
Record t : Type := mk { super : LinkedMap.t K V; _limit : Z; _ratio : Num.t }.

Definition new (limit : Z) (ratio : Num.t) : t := mk LinkedMap.new limit (Num.clamp ratio).

Definition limit (this : t) : Z := _limit this.
Definition ratio (this : t) : Num.t := _ratio this.

Definition checkTrim (this : t) : res t :=
  if _limit this <? LinkedMap.size (super this) then
    let* m := LinkedMap.trimOld (Num.roundedProduct (_limit this) (_ratio this)) (super this) in
    Ret (mk m (_limit this) (_ratio this))
  else Ret this.

Definition set_limit (n : Z) (this : t) : res t := checkTrim (mk (super this) n (_ratio this)).
Definition set_ratio (x : Num.t) (this : t) : res t := checkTrim (mk (super this) (_limit this) (Num.clamp x)).

Definition get (k : K) (how : Touch) (this : t) : res (option V * t) :=
  let* r := LinkedMap.get k how (super this) in
  Ret (fst r, mk (snd r) (_limit this) (_ratio this)).

Definition peek (k : K) (this : t) : res (option V) :=
  let* r := LinkedMap.get k NoTouch (super this) in Ret (fst r).

Definition set (k : K) (v : V) (this : t) : res t :=
  let* m := LinkedMap.set k v AsNew (super this) in
  checkTrim (mk m (_limit this) (_ratio this)).

(** [fromJSON] calls [set] of the cache. *)
Fixpoint setAll (data : list (K * V)) (this : t) : res t :=
  match data with
  | [] => Ret this
  | (k, v) :: data => let* this := set k v this in setAll data this
  end.

Definition fromJSON (data : list (K * V)) (this : t) : res t :=
  setAll data (mk (LinkedMap.clear (super this)) (_limit this) (_ratio this)).
End LRUCache.
Arguments t K V {_ _}.
End LRUCache.
