(* ===== verification/LinkedMapOps.v ===== *)
(** * Linked maps: what the operations do

    The items of a [LinkedMap] represent a list of pairs with distinct keys; every operation
    does to that list what it promises, and none finds the list invalid. *)

From stdpp Require Import gmap.
From S2P Require Import Prelude Linked LinkedMap.
Import Link LinkedMap.

Section Ops.
Context {K V : Type} `{Countable K}.
Implicit Types (this : t K V) (es xs ys : list (ref * (K * V))) (x : ref) (e : K * V) (k : K) (v : V).

(** ** The list of items *)

Record linked this es : Prop := {
  l_seg : seg (items this) None es None;
  l_nodup : NoDup es.*1;
  l_head : _head this = firstRef es None;
  l_tail : _tail this = lastRef None es
}.

(** What the operations on the list leave alone, and that they count. *)
Definition counted this this' : Prop := _map this' = _map this /\ _size this' = _size this /\ _state this' = _state this + 1.

Lemma linked_ends this es : linked this es -> missing (_head this) = bool_decide (es = []) /\ missing (_tail this) = bool_decide (es = []).
Proof.
  intros [_ _ F L]. unfold missing. rewrite F, L. destruct es as [| [x e] es]; [done |]. cbn. destruct (lastRef_Some x es) as [l ->]. done.
Qed.

Lemma linked_sub xs x e ys : NoDup (xs ++ (x, e) :: ys).*1 -> NoDup (xs ++ ys).*1 /\ x ∉ (xs ++ ys).*1.
Proof.
  intros D. split; [eapply sublist_NoDup; [exact D |]; apply fmap_sublist, sublist_app; [done | by apply sublist_cons] |].
  rewrite fmap_app in *. apply NoDup_app in D as (_ & D1 & [D2 _]%NoDup_cons). rewrite elem_of_app. intros [Hx | Hx]; [apply (D1 _ Hx); left | done].
Qed.

(** An item is the head only if nothing is before it, and the tail only if nothing is behind. *)
Lemma head_iff this xs x e ys : linked this (xs ++ (x, e) :: ys) -> bool_decide (_head this = Some x) = bool_decide (xs = []).
Proof.
  intros [_ D F _]. apply bool_decide_ext. rewrite F. destruct xs as [| [x' e'] xs]; [done |]. split; [| done]. cbn. intros [= ->].
  exfalso. rewrite fmap_app in D. apply NoDup_app in D as (_ & D & _). apply (D x); left.
Qed.

Lemma tail_iff this xs x e ys : linked this (xs ++ (x, e) :: ys) -> bool_decide (_tail this = Some x) = bool_decide (ys = []).
Proof.
  intros [_ D _ L]. apply bool_decide_ext. rewrite L, lastRef_app. destruct ys as [| [y e'] ys]; [done |]. split; [| done]. cbn. intros Hx.
  exfalso. rewrite fmap_app in D. apply NoDup_app in D as (_ & _ & [D _]%NoDup_cons). apply D. exact (lastRef_in ((y, e') :: ys) x Hx).
Qed.

(** A fresh item goes to one of the ends. *)
Lemma addItemLast_spec this es x k v : linked this es -> x ∉ es.*1 -> items this !! x = Some (mkItem None None k v) ->
  exists this', addItemLast x this = Ret this' /\ linked this' (es ++ [(x, (k, v))]) /\ counted this this'.
Proof.
  intros Hl Hx Li. destruct (linked_ends _ _ Hl) as [E1 E2]. destruct Hl as [S D F L]. unfold addItemLast. rewrite E1, E2.
  pose proof (seg_snoc _ _ _ _ D Hx S Li eq_refl) as J.
  assert (D' : NoDup (es ++ [(x, (k, v))]).*1). { rewrite fmap_app. apply NoDup_app. split_and!; [done | set_solver | apply NoDup_singleton]. }
  destruct (decide (es = [])) as [-> | Hne]; [rewrite bool_decide_true by done | rewrite bool_decide_false by done]; cbn [andb].
  - cbn. eexists. split; [done |]. split; [| done]. split; cbn; try done. split; [| done]. by eexists.
  - rewrite L. destruct (lastRef None es) as [l |] eqn:El; [| by apply lastRef_None in El]. cbn.
    rewrite ?L, ?El. cbn. eexists. split; [done |]. split; [| done]. split; cbn; try done; [rewrite F | by rewrite lastRef_app].
    by destruct es as [| [? ?] ?].
Qed.

Lemma addItemFirst_spec this es x k v : linked this es -> x ∉ es.*1 -> items this !! x = Some (mkItem None None k v) ->
  exists this', addItemFirst x this = Ret this' /\ linked this' ((x, (k, v)) :: es) /\ counted this this'.
Proof.
  intros Hl Hx Li. destruct (linked_ends _ _ Hl) as [E1 E2]. destruct Hl as [S D F L]. unfold addItemFirst. rewrite E1, E2.
  pose proof (seg_cons _ _ _ _ D Hx S Li eq_refl) as J.
  assert (D' : NoDup ((x, (k, v)) :: es).*1) by (by constructor).
  destruct (decide (es = [])) as [-> | Hne]; [rewrite bool_decide_true by done | rewrite bool_decide_false by done]; cbn [andb].
  - cbn. eexists. split; [done |]. split; [| done]. split; cbn; try done. split; [| done]. by eexists.
  - rewrite F. destruct (firstRef es None) as [f |] eqn:Ef; [| by apply firstRef_None in Ef]. cbn.
    rewrite ?F, ?Ef. cbn. eexists. split; [done |]. split; [| done]. split; cbn; try done. rewrite L. by destruct es as [| [? ?] ?].
Qed.

(** *** Taking an item out *)

(** The state after the item at [x] was unlinked from its neighbours. *)
Definition unlinked this xs ys : t K V :=
  mk (_map this) (firstRef (xs ++ ys) None) (lastRef None (xs ++ ys)) (_size this) (_state this)
    (setNext (lastRef None xs) (firstRef ys None) (setPrev (firstRef ys None) (lastRef None xs) (items this))).

Lemma unlinked_linked this xs x e ys : linked this (xs ++ (x, e) :: ys) ->
  linked (unlinked this xs ys) (xs ++ ys) /\ exists i, items (unlinked this xs ys) !! x = Some i /\ elemOf i = e.
Proof.
  intros [S D F L]. destruct (linked_sub _ _ _ _ D) as [D' _]. split; [split; cbn; try done; by eapply seg_unlink |].
  destruct (seg_middle _ _ _ _ _ _ _ S) as (i & Li & _ & _ & Ei & _). exists i. split; [| done]. cbn. by rewrite (unlink_keeps _ _ _ _ _ _ _ D).
Qed.

(** A write to an item that is not in the list. *)
Lemma linked_outside this es f x : linked this es -> x ∉ es.*1 -> linked (set_items (alter f x) this) es.
Proof.
  intros [S D F L] Hx. split; try done. cbn. eapply seg_frame, S. intros y Hy. apply lookup_alter_ne. by intros ->.
Qed.

(** The writes that unlink the only, the first, the last, or another item. *)
Lemma unlink_only this xs ys : xs = [] -> ys = [] -> set_tail None (set_head None this) = unlinked this xs ys.
Proof. intros -> ->. reflexivity. Qed.

Lemma unlink_first this xs x e ys (i : Item K V) : linked this (xs ++ (x, e) :: ys) -> LinkedMap.next i = firstRef ys None -> xs = [] -> ys <> [] -> (let* this := put_previous (LinkedMap.next i) None this in Ret (set_head (LinkedMap.next i) this)) = Ret (unlinked this xs ys).
Proof.
  intros [_ _ F L] Ni -> Hne. rewrite Ni. destruct (firstRef ys None) as [f |] eqn:Ef; [| by apply firstRef_None in Ef].
  cbn. unfold unlinked. cbn. rewrite Ef. f_equal. unfold set_head, set_items. cbn. rewrite L. cbn. by destruct ys as [| [? ?] ?].
Qed.

Lemma unlink_last this xs x e ys (i : Item K V) : linked this (xs ++ (x, e) :: ys) -> LinkedMap.previous i = lastRef None xs -> xs <> [] -> ys = [] -> (let* this := put_next (LinkedMap.previous i) None this in Ret (set_tail (LinkedMap.previous i) this)) = Ret (unlinked this xs ys).
Proof.
  intros [_ _ F L] Pi Hne ->. rewrite Pi. destruct (lastRef None xs) as [l |] eqn:El; [| by apply lastRef_None in El].
  cbn. unfold unlinked. rewrite app_nil_r, El. cbn. f_equal. unfold set_tail, set_items. cbn. rewrite F. by destruct xs as [| [? ?] ?].
Qed.

Lemma unlink_middle this xs x e ys (i : Item K V) : linked this (xs ++ (x, e) :: ys) -> LinkedMap.previous i = lastRef None xs -> LinkedMap.next i = firstRef ys None -> xs <> [] -> ys <> [] ->
  (let* this := put_previous (LinkedMap.next i) (LinkedMap.previous i) this in put_next (LinkedMap.previous i) (LinkedMap.next i) this) = Ret (unlinked this xs ys).
Proof.
  intros [_ _ F L] Pi Ni Hx Hy. rewrite Pi, Ni. destruct (lastRef None xs) as [l |] eqn:El; [| by apply lastRef_None in El].
  destruct (firstRef ys None) as [f |] eqn:Ef; [| by apply firstRef_None in Ef]. cbn. unfold unlinked, set_items. rewrite El, Ef. cbn. rewrite F, L. do 2 f_equal.
  - by destruct xs as [| [? ?] ?].
  - rewrite !lastRef_app. by destruct ys as [| [? ?] ?].
Qed.

Lemma middle_item this xs x e ys : linked this (xs ++ (x, e) :: ys) ->
  exists i, items this !! x = Some i /\ LinkedMap.previous i = lastRef None xs /\ LinkedMap.next i = firstRef ys None.
Proof. intros [S _ _ _]. destruct (seg_middle _ _ _ _ _ _ _ S) as (i & ? & ? & ? & _). by exists i. Qed.

Lemma missing_first ys : missing (firstRef ys None) = bool_decide (ys = []).
Proof. unfold missing. by destruct ys as [| [? ?] ?]. Qed.

Lemma missing_last xs : missing (lastRef None xs) = bool_decide (xs = []).
Proof. unfold missing. destruct xs as [| [x e] xs]; [done |]. cbn. destruct (lastRef_Some x xs) as [l ->]. done. Qed.

Lemma removeItem_spec this xs x e ys : linked this (xs ++ (x, e) :: ys) ->
  exists this' i, removeItem x this = Ret this' /\ linked this' (xs ++ ys) /\ counted this this' /\ items this' !! x = Some i /\ elemOf i = e.
Proof.
  intros Hl. destruct (middle_item _ _ _ _ _ Hl) as (i & Li & Pi & Ni). unfold removeItem, item. cbn [js_get res_bind]. rewrite Li. cbn [js_get res_bind].
  rewrite (head_iff _ _ _ _ _ Hl), (tail_iff _ _ _ _ _ Hl). destruct (unlinked_linked _ _ _ _ _ Hl) as [Hu (j & Lj & Ej)].
  match goal with |- context [res_bind ?c _] => assert (c = Ret (unlinked this xs ys)) as -> end.
  { rewrite Pi, Ni, missing_first, missing_last. rewrite <- Pi, <- Ni. do 2 case_bool_decide; cbn [andb orb]; f_equal; eauto using unlink_only, unlink_first, unlink_last, unlink_middle. }
  destruct (linked_sub _ _ _ _ (l_nodup _ _ Hl)) as [_ Hx]. cbn [res_bind put_next put_previous js_get].
  eexists _, _. split; [done |]. split; [| split; [done |]].
  - pose proof (linked_outside _ _ (withPrev None) x (linked_outside _ _ (withNext None) x Hu Hx) Hx) as [S' D' F' L']. by split.
  - cbn. rewrite !lookup_alter_eq. cbn in Lj. rewrite Lj. done.
Qed.

(** *** Moving an item *)

Definition moved (how : Touch) xs p ys : list (ref * (K * V)) :=
  match how with NoTouch => xs ++ p :: ys | AsOld => p :: xs ++ ys | AsNew => xs ++ ys ++ [p] end.

Lemma touch_spec this xs x e ys how : linked this (xs ++ (x, e) :: ys) ->
  exists this', touch x how this = Ret this' /\ linked this' (moved how xs (x, e) ys) /\ _map this' = _map this /\ _size this' = _size this /\
    (this' = this /\ moved how xs (x, e) ys = xs ++ (x, e) :: ys \/ _state this' = _state this + 1).
Proof.
  intros Hl. destruct (middle_item _ _ _ _ _ Hl) as (i & Li & Pi & Ni). unfold touch, item. destruct (linked_ends _ _ Hl) as [-> ->].
  rewrite bool_decide_false by (by destruct xs). cbn [orb js_get res_bind]. rewrite Li. cbn [js_get res_bind].
  rewrite (head_iff _ _ _ _ _ Hl), (tail_iff _ _ _ _ _ Hl). destruct (unlinked_linked _ _ _ _ _ Hl) as [Hu (j & Lj & Ej)].
  destruct (linked_sub _ _ _ _ (l_nodup _ _ Hl)) as [Dz Hx]. pose proof Hu as [Su _ _ _]. destruct how; cbn [moved].
  - exists this. split_and!; try done. by left.
  - case_bool_decide as Hxs; [subst xs; exists this; split_and!; try done; by left |].
    match goal with |- context [res_bind ?c _] => assert (c = Ret (unlinked this xs ys)) as -> end.
    { case_bool_decide; eauto using unlink_last, unlink_middle. }
    assert (Hne : xs ++ ys <> []) by (by destruct xs).
    destruct (firstRef (xs ++ ys) None) as [f |] eqn:Ef; [| by apply firstRef_None in Ef].
    cbn [res_bind put_next put_previous js_get]. cbn -[unlinked]. cbn [_head unlinked]. rewrite Ef. cbn -[unlinked].
    eexists. split; [done |]. split; [| split; [done |]; split; [done | by right]].
    pose proof (linked_outside _ _ (withPrev None) x Hu Hx) as [S' _ _ _].
    assert (Lj' : items (set_items (alter (withPrev None) x) (unlinked this xs ys)) !! x = Some (withPrev None j)) by (cbn -[unlinked]; by rewrite lookup_alter_eq, Lj).
    pose proof (seg_cons _ _ x _ Dz Hx S' Lj' eq_refl) as J. cbn in J, Ej.
    rewrite Ej, Ef in J. split; cbn; [rewrite Ef; exact J | by constructor | done |]. by destruct (xs ++ ys) as [| [? ?] ?].
  - case_bool_decide as Hys; [subst ys; exists this; split_and!; try done; by left |].
    match goal with |- context [res_bind ?c _] => assert (c = Ret (unlinked this xs ys)) as -> end.
    { case_bool_decide; eauto using unlink_first, unlink_middle. }
    assert (Hne : xs ++ ys <> []) by (destruct xs; [by destruct ys | done]).
    destruct (lastRef None (xs ++ ys)) as [l |] eqn:El; [| by apply lastRef_None in El].
    cbn [res_bind put_next put_previous js_get]. cbn -[unlinked]. cbn [_tail unlinked]. rewrite El. cbn -[unlinked].
    eexists. split; [done |]. split; [| split; [done |]; split; [done | by right]].
    pose proof (linked_outside _ _ (withNext None) x Hu Hx) as [S' _ _ _].
    assert (Lj' : items (set_items (alter (withNext None) x) (unlinked this xs ys)) !! x = Some (withNext None j)) by (cbn -[unlinked]; by rewrite lookup_alter_eq, Lj).
    pose proof (seg_snoc _ _ x _ Dz Hx S' Lj' eq_refl) as J. cbn in J, Ej.
    rewrite Ej, El in J. rewrite app_assoc. split; cbn; [exact J | | | by rewrite lastRef_app].
    + rewrite fmap_app. apply NoDup_app. split_and!; [done | set_solver | apply NoDup_singleton].
    + by destruct (xs ++ ys) as [| [? ?] ?].
Qed.

(** ** Pairs with distinct keys *)

Implicit Types l : list (K * V).

Fixpoint assoc k l : option V :=
  match l with [] => None | (k', v) :: l => if decide (k' = k) then Some v else assoc k l end.

Definition drop_key k l : list (K * V) := filter (fun p => p.1 <> k) l.
Definition update k v l : list (K * V) := (fun p => if decide (p.1 = k) then (k, v) else p) <$> l.

(** What [touch], [get] and [set] do to the order. *)
Definition touched (how : Touch) k l : list (K * V) :=
  match assoc k l, how with
  | Some v, AsOld => (k, v) :: drop_key k l
  | Some v, AsNew => drop_key k l ++ [(k, v)]
  | _, _ => l
  end.

Definition put k v (how : Touch) l : list (K * V) :=
  match assoc k l, how with
  | Some _, _ => touched how k (update k v l)
  | None, AsOld => (k, v) :: l
  | None, _ => l ++ [(k, v)]
  end.

Lemma assoc_None k l : k ∉ l.*1 -> assoc k l = None.
Proof. induction l as [| [k' v] l IH]; cbn; [done |]. intros [? ?]%not_elem_of_cons. rewrite decide_False by congruence. by apply IH. Qed.

Lemma assoc_middle k v l1 l2 : k ∉ l1.*1 -> assoc k (l1 ++ (k, v) :: l2) = Some v.
Proof. induction l1 as [| [k' v'] l1 IH]; cbn; [by rewrite decide_True |]. intros [? ?]%not_elem_of_cons. rewrite decide_False by congruence. by apply IH. Qed.

Lemma update_other k v l : k ∉ l.*1 -> update k v l = l.
Proof. induction l as [| [k' v'] l IH]; cbn; [done |]. intros [? ?]%not_elem_of_cons. rewrite decide_False by congruence. f_equal. by apply IH. Qed.

(** The parts around a key. *)
Lemma around k v l1 l2 : NoDup (l1 ++ (k, v) :: l2).*1 -> k ∉ l1.*1 /\ k ∉ l2.*1.
Proof. rewrite fmap_app, NoDup_app. intros (_ & D1 & [D2 _]%NoDup_cons). split; [| done]. intros Hk. apply (D1 _ Hk). left. Qed.

Lemma update_middle k v v' l1 l2 : NoDup (l1 ++ (k, v) :: l2).*1 -> update k v' (l1 ++ (k, v) :: l2) = l1 ++ (k, v') :: l2.
Proof.
  intros [D1 D2]%around. unfold update. rewrite fmap_app. cbn. rewrite decide_True by done. f_equal; [by apply update_other | f_equal; by apply update_other].
Qed.

Lemma touched_middle how k v l1 l2 : NoDup (l1 ++ (k, v) :: l2).*1 ->
  touched how k (l1 ++ (k, v) :: l2) = match how with NoTouch => l1 ++ (k, v) :: l2 | AsOld => (k, v) :: l1 ++ l2 | AsNew => l1 ++ l2 ++ [(k, v)] end.
Proof.
  intros D. unfold touched, drop_key. rewrite assoc_middle by (by apply around in D as [? _]). rewrite filter_key by done. destruct how; [done.. |]. by rewrite app_assoc.
Qed.

Lemma touched_NoTouch k l : touched NoTouch k l = l.
Proof. unfold touched. by destruct (assoc k l). Qed.

(** ** The pairs a map holds *)

Record mrep this es : Prop := {
  m_linked : linked this es;
  m_keys : NoDup (es.*2).*1;
  m_map k x : _map this !! k = Some x <-> exists v, (x, (k, v)) ∈ es;
  m_size : _size this = zlen es
}.

Definition shows this l : Prop := exists es, mrep this es /\ es.*2 = l.

(** The counter grows whenever the keys or their order change. *)
Definition later this l this' l' : Prop := _state this <= _state this' /\ (l.*1 <> l'.*1 -> _state this < _state this').

Lemma m_absent this es k : mrep this es -> _map this !! k = None -> k ∉ (es.*2).*1.
Proof.
  intros Hm E. rewrite <- list_fmap_compose. intros ([x [k' v]] & -> & Hx)%list_elem_of_fmap. cbn in E.
  assert (_map this !! k' = Some x) by (apply (m_map _ _ Hm); by exists v). congruence.
Qed.

(** The key of a pair of the list. *)
Lemma in_keys es x k v : (x, (k, v)) ∈ es -> k ∈ (es.*2).*1.
Proof. intros Hx%(list_elem_of_fmap_2 snd). exact (list_elem_of_fmap_2 fst _ _ Hx). Qed.

Lemma m_present this es k x : mrep this es -> _map this !! k = Some x -> exists xs v ys, es = xs ++ (x, (k, v)) :: ys.
Proof. intros Hm [v Hv]%(m_map _ _ Hm). apply list_elem_of_split in Hv as (xs & ys & ->). by exists xs, v, ys. Qed.

Lemma mrep_new : mrep LinkedMap.new [].
Proof.
  split; [by split; [| constructor | |] | constructor | | done]. intros k x. cbn. rewrite lookup_empty. split; [done |]. intros [v Hv]. set_solver.
Qed.

(** The items of a map in another order. *)
Lemma mrep_reorder this this' es es' : mrep this es -> linked this' es' -> es ≡ₚ es' -> _map this' = _map this -> _size this' = _size this -> mrep this' es'.
Proof.
  intros [Hl D M Z] Hl' P Em Ez. split; [done | by rewrite <- P | | unfold zlen; rewrite <- P, Ez; exact Z].
  intros k x. rewrite Em, M. by setoid_rewrite P.
Qed.

Lemma moved_perm how xs (p : ref * (K * V)) ys : xs ++ p :: ys ≡ₚ moved how xs p ys.
Proof. destruct how; cbn [moved]; [done | by rewrite Permutation_middle |]. rewrite <- (Permutation_middle xs ys p), app_assoc. by rewrite (Permutation_app_comm (xs ++ ys) [p]). Qed.

Lemma moved_snd how xs x k v ys : NoDup (((xs ++ (x, (k, v)) :: ys).*2)).*1 ->
  (moved how xs (x, (k, v)) ys).*2 = touched how k (xs ++ (x, (k, v)) :: ys).*2.
Proof.
  rewrite fmap_app. cbn. intros D. rewrite touched_middle by done. destruct how; cbn [moved]; rewrite ?fmap_cons, ?fmap_app; done.
Qed.

(** *** Reading and touching *)

Lemma touch_shows this xs x k v ys how : mrep this (xs ++ (x, (k, v)) :: ys) ->
  exists this', touch x how this = Ret this' /\ mrep this' (moved how xs (x, (k, v)) ys) /\
    later this ((xs ++ (x, (k, v)) :: ys).*2) this' (touched how k (xs ++ (x, (k, v)) :: ys).*2).
Proof.
  intros Hm. destruct (touch_spec _ _ _ _ _ how (m_linked _ _ Hm)) as (this' & E & Hl & Em & Ez & St). exists this'. split; [done |].
  split; [eapply mrep_reorder; [exact Hm | done | apply moved_perm | done | done] |]. rewrite <- moved_snd by apply (m_keys _ _ Hm).
  unfold later. destruct St as [[-> ->] | ->]; (split; [lia |]); [congruence | intros; lia].
Qed.

Lemma get_shows this l k how : shows this l ->
  exists this', LinkedMap.get k how this = Ret (assoc k l, this') /\ shows this' (touched how k l) /\ later this l this' (touched how k l).
Proof.
  intros (es & Hm & <-). unfold LinkedMap.get. destruct (_map this !! k) as [x |] eqn:Ek.
  2: { pose proof (m_absent _ _ _ Hm Ek) as Hk. unfold touched. rewrite assoc_None by done. exists this. split; [done |]. split; [by exists es | split; [lia | done]]. }
  destruct (m_present _ _ _ _ Hm Ek) as (xs & v & ys & ->). pose proof (m_keys _ _ Hm) as D.
  assert (Hsub : exists this', (if bool_decide (how = NoTouch) then Ret this else touch x how this) = Ret this' /\ mrep this' (moved how xs (x, (k, v)) ys) /\
    later this ((xs ++ (x, (k, v)) :: ys).*2) this' (touched how k (xs ++ (x, (k, v)) :: ys).*2)).
  { case_bool_decide as Hh; [| by apply touch_shows]. subst how. exists this. split; [done |]. split; [done |]. rewrite touched_NoTouch. split; [lia | done]. }
  destruct Hsub as (this' & -> & Hm' & Hs). cbn [res_bind]. exists this'.
  assert (Hin : (x, (k, v)) ∈ moved how xs (x, (k, v)) ys) by (destruct how; cbn [moved]; set_solver).
  destruct (seg_lookup _ _ _ _ _ _ Hin (l_seg _ _ (m_linked _ _ Hm'))) as (i & Li & Ei). cbn in Ei.
  unfold item. cbn [js_get res_bind]. rewrite Li. cbn. split.
  - do 2 f_equal. rewrite fmap_app. cbn. rewrite assoc_middle; [congruence |]. rewrite fmap_app in D. by apply around in D as [? _].
  - split; [| done]. exists (moved how xs (x, (k, v)) ys). split; [done |]. by apply moved_snd.
Qed.
End Ops.
