(* ===== verification/LinkedMapShows.v ===== *)
(** * Linked maps: the operations on the pairs

    [set], [remove], [shift], [clear], [trimOld], the loops and the iterators, each told as a
    change of the list of pairs a map holds. *)

From stdpp Require Import gmap.
From S2P Require Import Prelude Linked LinkedMap LinkedMapOps.
Import Link LinkedMap.

Section Shows.
Context {K V : Type} `{Countable K}.
Implicit Types (this : t K V) (es xs ys : list (ref * (K * V))) (x : ref) (e : K * V) (k : K) (v : V) (l : list (K * V)).

(** ** [set] *)

(** Another value for an item. *)
Lemma linked_value this xs x k v v' ys : linked this (xs ++ (x, (k, v)) :: ys) ->
  linked (set_items (alter (fun i => mkItem (LinkedMap.previous i) (LinkedMap.next i) (key i) v') x) this) (xs ++ (x, (k, v')) :: ys).
Proof.
  intros [S D F L]. destruct (seg_middle _ _ _ _ _ _ _ S) as (i & Li & Pi & Ni & Ei & S1 & S2). destruct (linked_sub _ _ _ _ D) as [_ Hx]. rewrite fmap_app in Hx.
  split; cbn.
  - apply seg_app. split; [eapply seg_frame, S1; intros y Hy; apply lookup_alter_ne; set_solver |]. split.
    + rewrite lookup_alter_eq, Li. cbn. eexists. split; [done |]. cbn in *. split_and!; [done | done | congruence].
    + eapply seg_frame, S2. intros y Hy. apply lookup_alter_ne. set_solver.
  - rewrite fmap_app in *. exact D.
  - rewrite F, !firstRef_app. done.
  - rewrite L, !lastRef_app. done.
Qed.

Lemma mrep_value this xs x k v v' ys : mrep this (xs ++ (x, (k, v)) :: ys) ->
  mrep (set_items (alter (fun i => mkItem (LinkedMap.previous i) (LinkedMap.next i) (key i) v') x) this) (xs ++ (x, (k, v')) :: ys).
Proof.
  intros [Hl D M Z]. split; [by eapply linked_value | rewrite !fmap_app in *; exact D | | unfold zlen in *; rewrite length_app in *; exact Z].
  intros k0 x0. cbn. rewrite M. split; intros [w [Hw | [Hw | Hw]%elem_of_cons]%elem_of_app]; try (exists w; set_solver); [exists v' | exists v]; simplify_eq; set_solver.
Qed.

(** A new item at one of the ends. *)
Lemma mrep_insert this this1 this' es es' x k v : mrep this es -> _map this !! k = None -> x ∉ es.*1 ->
  _map this1 = _map this -> _size this1 = _size this ->
  linked this' es' -> es' ≡ₚ (x, (k, v)) :: es -> counted this1 this' -> mrep (set_size (_size this' + 1) (set_map (insert k x) this')) es'.
Proof.
  intros Hm Ek Hx E1 E2 Hl' P (C1 & C2 & _). pose proof (m_absent _ _ _ Hm Ek) as Hk. destruct Hm as [Hl D M Z]. split.
  - destruct Hl'. by split.
  - rewrite P. by constructor.
  - intros k0 x0. cbn. setoid_rewrite P. rewrite C1, E1. destruct (decide (k0 = k)) as [-> | Hne].
    + rewrite lookup_insert_eq. split; [intros [= <-]; exists v; left |]. intros [w [Hw | Hw]%elem_of_cons]; [congruence |].
      exfalso. apply Hk. exact (in_keys _ _ _ _ Hw).
    + rewrite lookup_insert_ne by done. rewrite M. split; intros [w Hw]; exists w; [by right |]. apply elem_of_cons in Hw as [? | ?]; [congruence | done].
  - cbn. unfold zlen in *. rewrite P. cbn. lia.
Qed.

Lemma set_shows this l k v how : shows this l ->
  exists this', LinkedMap.set k v how this = Ret this' /\ shows this' (put k v how l) /\ later this l this' (put k v how l).
Proof.
  intros (es & Hm & <-). unfold LinkedMap.set, put. destruct (_map this !! k) as [x |] eqn:Ek.
  - destruct (m_present _ _ _ _ Hm Ek) as (xs & v0 & ys & ->). pose proof (m_keys _ _ Hm) as D. pose proof (mrep_value _ _ _ _ _ v _ Hm) as Hm1.
    assert (D2 : NoDup (xs.*2 ++ (k, v0) :: ys.*2).*1) by (rewrite (fmap_app snd) in D; exact D).
    assert (El : (xs ++ (x, (k, v)) :: ys).*2 = update k v (xs ++ (x, (k, v0)) :: ys).*2).
    { rewrite !(fmap_app snd). symmetry. by apply update_middle. }
    assert (Ea : assoc k (xs ++ (x, (k, v0)) :: ys).*2 = Some v0). { rewrite (fmap_app snd). apply assoc_middle. by apply around in D2 as [? _]. }
    assert (Ek1 : ((xs ++ (x, (k, v)) :: ys).*2).*1 = ((xs ++ (x, (k, v0)) :: ys).*2).*1) by (by rewrite !fmap_app).
    rewrite Ea, <- El. case_bool_decide as Hh.
    + subst how. rewrite touched_NoTouch. eexists. split; [done |]. split; [eexists; split; [exact Hm1 | done] |]. split; [cbn; lia | intros Hne; congruence].
    + destruct (touch_shows _ _ _ _ _ _ how Hm1) as (this' & -> & Hm' & [L1 L2]). exists this'. split; [done |].
      split; [eexists; split; [exact Hm' | by apply moved_snd, (m_keys _ _ Hm1)] |]. split; [exact L1 |]. rewrite <- Ek1. exact L2.
  - pose proof (m_absent _ _ _ Hm Ek) as Hk. rewrite assoc_None by done. set (x := fresh_in (items this)). set (this1 := set_items _ this).
    assert (Hx : x ∉ es.*1).
    { intros ([x' e] & Ex & Hx)%list_elem_of_fmap. destruct (seg_lookup _ _ _ _ _ _ Hx (l_seg _ _ (m_linked _ _ Hm))) as (i & Li & _). cbn in Ex. subst x'.
      unfold x in Li. by rewrite fresh_in_new in Li. }
    assert (Hl1 : linked this1 es).
    { destruct (m_linked _ _ Hm) as [S D F L]. split; try done. cbn. eapply seg_frame, S. intros y Hy. apply lookup_insert_ne. by intros <-. }
    assert (Li : items this1 !! x = Some (mkItem None None k v)) by (cbn; by rewrite lookup_insert_eq).
    assert (Nk : forall l', (k, v) ∈ l' -> (es.*2).*1 <> l'.*1) by (intros l' Hl' Eq; apply Hk; rewrite Eq; by apply (list_elem_of_fmap_2 fst l' (k, v))).
    destruct how.
    1, 3: destruct (addItemLast_spec _ _ _ _ _ Hl1 Hx Li) as (this' & -> & Hl' & C); cbn [res_bind]; eexists; (split; [done |]); split;
      [eexists; split; [exact (mrep_insert this this1 this' es _ x k v Hm Ek Hx eq_refl eq_refl Hl' (Permutation_app_comm _ _) C) | by rewrite fmap_app] | destruct C as (_ & _ & C); split; cbn in *; lia].
    destruct (addItemFirst_spec _ _ _ _ _ Hl1 Hx Li) as (this' & -> & Hl' & C); cbn [res_bind]. eexists. split; [done |].
    split; [eexists; split; [exact (mrep_insert this this1 this' es _ x k v Hm Ek Hx eq_refl eq_refl Hl' (Permutation_refl _) C) | done] | destruct C as (_ & _ & C); split; cbn in *; lia].
Qed.

(** ** [remove], [shift] and [clear] *)

Lemma mrep_delete this this' xs x k v ys : mrep this (xs ++ (x, (k, v)) :: ys) -> linked this' (xs ++ ys) ->
  _map this' = base.delete k (_map this) -> _size this' = _size this -> mrep (set_size (_size this' - 1) this') (xs ++ ys).
Proof.
  intros [Hl D M Z] Hl' E1 E2. pose proof D as D'. rewrite fmap_app in D'. apply around in D' as [A1 A2]. split.
  - destruct Hl'. by split.
  - eapply sublist_NoDup; [exact D |]. do 2 apply fmap_sublist. apply sublist_app; [done | by apply sublist_cons].
  - intros k0 x0. cbn. rewrite E1. destruct (decide (k0 = k)) as [-> | Hne].
    + rewrite lookup_delete_eq. split; [done |]. intros [w [Hw | Hw]%elem_of_app]; exfalso; [apply A1 | apply A2]; exact (in_keys _ _ _ _ Hw).
    + rewrite lookup_delete_ne by done. rewrite M. split; intros [w Hw]; exists w; [| set_solver]. apply elem_of_app in Hw as [? | [? | ?]%elem_of_cons]; [set_solver | congruence | set_solver].
  - cbn. unfold zlen in *. rewrite length_app in *. cbn in Z. lia.
Qed.

(** The part [remove] and [shift] share. *)
Lemma removal this xs x k v ys : mrep this (xs ++ (x, (k, v)) :: ys) ->
  exists this' i, removeItem x (set_map (base.delete k) this) = Ret this' /\ items this' !! x = Some i /\ value i = v /\
    shows (set_size (_size this' - 1) this') ((xs ++ ys).*2) /\ _state this' = _state this + 1.
Proof.
  intros Hm. assert (Hl : linked (set_map (base.delete k) this) (xs ++ (x, (k, v)) :: ys)) by (destruct (m_linked _ _ Hm); by split).
  destruct (removeItem_spec _ _ _ _ _ Hl) as (this' & i & -> & Hl' & (C1 & C2 & C3) & Li & Ei). exists this', i. cbn in *. split_and!; try done; [congruence |].
  exists (xs ++ ys). split; [| done]. by eapply mrep_delete.
Qed.

Lemma drop_key_middle xs x k v ys : NoDup ((xs ++ (x, (k, v)) :: ys).*2).*1 -> drop_key k (xs ++ (x, (k, v)) :: ys).*2 = (xs ++ ys).*2.
Proof. rewrite !(fmap_app snd). cbn. intros D. by apply filter_key. Qed.

Lemma remove_shows this l k : shows this l ->
  exists this', LinkedMap.remove k this = Ret (assoc k l, this') /\ shows this' (drop_key k l) /\ later this l this' (drop_key k l).
Proof.
  intros (es & Hm & <-). unfold LinkedMap.remove. destruct (_map this !! k) as [x |] eqn:Ek.
  2: { pose proof (m_absent _ _ _ Hm Ek) as Hk. rewrite assoc_None by done. exists this. split; [done |].
    assert (drop_key k es.*2 = es.*2) as ->; [| split; [by exists es | split; [lia | done]]].
    apply filter_keeps, Forall_forall. intros p Hp%(list_elem_of_fmap_2 fst) Eq. apply Hk. by rewrite <- Eq. }
  destruct (m_present _ _ _ _ Hm Ek) as (xs & v & ys & ->). pose proof (m_keys _ _ Hm) as D.
  destruct (removal _ _ _ _ _ _ Hm) as (this' & i & -> & Li & Vi & Hs & St). cbn [res_bind]. unfold item. cbn [js_get res_bind items set_size]. rewrite Li. cbn [js_get res_bind].
  rewrite drop_key_middle by done. eexists. split; [| split; [exact Hs | split; cbn; lia]].
  do 2 f_equal. rewrite (fmap_app snd) in *. rewrite <- Vi. symmetry. apply assoc_middle. by apply around in D as [? _].
Qed.

Lemma shift_shows this l : shows this l ->
  exists this', LinkedMap.shift this = Ret (snd <$> head l, this') /\ shows this' (tail l) /\ later this l this' (tail l).
Proof.
  intros (es & Hm & <-). unfold LinkedMap.shift. destruct (linked_ends _ _ (m_linked _ _ Hm)) as [-> ->]. destruct es as [| [x [k v]] es].
  { exists this. split; [done |]. split; [by exists [] | split; [lia | done]]. }
  cbn [andb orb bool_decide]. rewrite (l_head _ _ (m_linked _ _ Hm)). cbn [firstRef js_get res_bind].
  destruct (seg_lookup _ _ _ _ x (k, v) ltac:(left) (l_seg _ _ (m_linked _ _ Hm))) as (i & Li & Ei). cbn in Ei. injection Ei as Ek Ev.
  unfold item. cbn [js_get res_bind]. rewrite Li. cbn [js_get res_bind]. rewrite Ek, Ev.
  destruct (removal _ [] _ _ _ _ Hm) as (this' & j & -> & _ & _ & Hs & St). cbn [res_bind]. eexists. split; [done |]. split; [exact Hs | split; cbn; lia].
Qed.

Lemma clear_shows this l : shows (LinkedMap.clear this) [] /\ later this l (LinkedMap.clear this) [].
Proof.
  split; [| split; cbn; lia]. exists []. split; [| done]. split; [by split; [| constructor | |] | constructor | | done].
  intros k x. cbn. rewrite lookup_empty. split; [done |]. intros [v Hv]. set_solver.
Qed.

(** ** [trimOld] *)

Definition deleteAll (ks : list K) (m : gmap K ref) : gmap K ref := fold_left (fun m k => base.delete k m) ks m.

Lemma lookup_deleteAll ks m k : deleteAll ks m !! k = if decide (k ∈ ks) then None else m !! k.
Proof.
  revert m. induction ks as [| k' ks IH]; intros m; cbn; [by rewrite decide_False by set_solver |]. unfold deleteAll in IH. rewrite IH.
  destruct (decide (k ∈ ks)); [by rewrite decide_True by set_solver |]. destruct (decide (k = k')) as [-> | Hne].
  - rewrite decide_True by set_solver. by rewrite lookup_delete_eq.
  - rewrite decide_False by set_solver. by rewrite lookup_delete_ne.
Qed.

Lemma trimFrom_spec fuel this p es n : seg (items this) p es None -> (length es <= fuel)%nat -> 0 <= n <= zlen es ->
  let d := Z.to_nat (zlen es - n) in
  trimFrom fuel (firstRef es None) (zlen es) n this = Ret (firstRef (drop d es) None, n, set_map (deleteAll (((take d es).*2).*1)) this).
Proof.
  revert fuel this p. induction es as [| [x [k v]] es IH]; intros fuel this p Sg Hf Hn d.
  - unfold zlen in *. cbn in *. assert (n = 0) as -> by lia. destruct fuel; cbn; by destruct this.
  - destruct fuel as [| fuel]; [cbn in Hf; lia |]. destruct Sg as [(i & Li & _ & Ni & Ei) Sg]. cbn [firstRef trimFrom]. destruct (n <? zlen ((x, (k, v)) :: es)) eqn:Hlt.
    + unfold item. cbn [js_get res_bind]. rewrite Li. cbn [js_get res_bind]. cbn in Ni, Ei. injection Ei as -> _. rewrite Ni.
      assert (Hz : zlen ((x, (k, v)) :: es) - 1 = zlen es) by (unfold zlen; cbn; lia). rewrite Hz.
      rewrite (IH fuel (set_map (base.delete k) this) (Some x)) by (done || (cbn in Hf; lia) || lia).
      assert (d = S (Z.to_nat (zlen es - n))) as -> by lia. done.
    + assert (d = 0%nat) as -> by lia. cbn. replace n with (zlen ((x, (k, v)) :: es)) by lia. by destruct this.
Qed.

Lemma lastRef_drop d es : (d < length es)%nat -> lastRef None (drop d es) = lastRef None es.
Proof.
  intros Hd. rewrite <- (take_drop d es) at 2. rewrite lastRef_app. destruct (drop d es) as [| [? ?] ?] eqn:Ed; [| done].
  apply (f_equal length) in Ed. rewrite length_drop in Ed. cbn in Ed. lia.
Qed.

Lemma keys_drop es d k : NoDup ((es.*2).*1) -> k ∈ ((take d es).*2).*1 -> k ∈ ((drop d es).*2).*1 -> False.
Proof. rewrite <- (take_drop d es) at 1. rewrite (fmap_app snd), fmap_app, NoDup_app. intros (_ & D & _) H1 H2. by apply (D k). Qed.

(** The oldest pairs go, [n] stay. *)
Definition newest (n : Z) l : list (K * V) := drop (length l - Z.to_nat n) l.

Lemma trimOld_shows this l n : 0 <= n -> shows this l ->
  exists this', trimOld n this = Ret this' /\ shows this' (newest n l) /\ later this l this' (newest n l).
Proof.
  intros Hn (es & Hm & <-). unfold trimOld, LinkedMap.size, newest. rewrite (m_size _ _ Hm), length_fmap. destruct (zlen es <=? n) eqn:Hle.
  { exists this. replace (length es - Z.to_nat n)%nat with 0%nat by (unfold zlen in *; lia). split; [done |]. split; [by exists es | split; [lia | done]]. }
  destruct (n === 0) eqn:H0.
  { eexists. split; [done |]. rewrite drop_ge by (rewrite length_fmap; lia). apply clear_shows. }
  destruct Hm as [[S D F L] Dk M Z]. rewrite F.
  rewrite (trimFrom_spec _ _ None es n S) by ((unfold zlen in *; lia) || by eapply seg_fuel).
  assert (Ed : Z.to_nat (zlen es - n) = (length es - Z.to_nat n)%nat) by (unfold zlen in *; lia). rewrite Ed. set (d := (length es - Z.to_nat n)%nat) in *.
  assert (Hd : (d < length es)%nat) by (unfold zlen in *; lia). cbn [res_bind].
  destruct (firstRef (drop d es) None) as [f |] eqn:Ef; [| apply firstRef_None, (f_equal length) in Ef; rewrite length_drop in Ef; cbn in Ef; lia]. cbn.
  eexists. split; [done |]. split; [| split; cbn; lia]. exists (drop d es). split; [| by rewrite fmap_drop].
  assert (Dd : NoDup (drop d es).*1) by (eapply sublist_NoDup; [exact D | apply fmap_sublist, sublist_drop]).
  rewrite <- (take_drop d es) in S. apply seg_app in S as [_ S]. split.
  - split; cbn; [| done | done | rewrite L; by rewrite lastRef_drop]. pose proof (seg_setPrev _ _ None _ _ Dd S) as J. rewrite Ef in J. exact J.
  - eapply sublist_NoDup; [exact Dk |]. do 2 apply fmap_sublist. apply sublist_drop.
  - intros k x. cbn. rewrite lookup_deleteAll. split.
    + case_decide as Hk; [done |]. intros [v Hv]%M. exists v. rewrite <- (take_drop d es) in Hv. apply elem_of_app in Hv as [Hv | Hv]; [| done].
      exfalso. apply Hk. exact (in_keys _ _ _ _ Hv).
    + intros [v Hv]. rewrite decide_False; [apply M; exists v; rewrite <- (take_drop d es); set_solver |].
      intros Hk. eapply keys_drop; [exact Dk | exact Hk | exact (in_keys _ _ _ _ Hv)].
  - cbn. unfold zlen in *. rewrite length_drop. lia.
Qed.
End Shows.
