(* ===== verification/LinkedMapSession.v ===== *)
(** * Linked maps and caches in use

    Loops and iterators over a [LinkedMap], and sessions of calls on a [LinkedMap] and on a
    [LRUCache] compared with the same calls on lists of pairs. *)

From stdpp Require Import gmap.
From S2P Require Import Prelude Linked LinkedMap LinkedMapOps LinkedMapShows.
Import Link LinkedMap.

Section Sessions.
Context {K V : Type} `{Countable K}.
Implicit Types (this : t K V) (es : list (ref * (K * V))) (x : ref) (k : K) (v : V) (l : list (K * V)).

(** ** Loops and iterators *)

Lemma forEach_collects fuel this p es data : seg (items this) p es None -> (length es <= fuel)%nat ->
  forEachFrom fuel (fun v k this data => Ret (this, data ++ [(k, v)])) (_state this) (firstRef es None) this data = Ret (this, data ++ es.*2).
Proof.
  revert fuel p data. induction es as [| [x [k v]] es IH]; intros fuel p data; [destruct fuel; cbn; by rewrite app_nil_r |].
  intros [(i & Li & _ & Ni & Ei) Sg] Hf. destruct fuel as [| fuel]; [cbn in Hf; lia |]. cbn [firstRef forEachFrom]. unfold item. cbn [js_get res_bind fst snd].
  rewrite Li. cbn [js_get res_bind fst snd]. rewrite Z.eqb_refl. cbn [negb]. rewrite ?Li. cbn [js_get res_bind]. cbn in Ni, Ei. injection Ei as -> ->. rewrite Ni.
  rewrite (IH fuel (Some x)) by (done || (cbn in Hf; lia)). by rewrite <- app_assoc.
Qed.

Lemma toJSON_shows this l : shows this l -> toJSON this = Ret l.
Proof.
  intros (es & [[S D F L] _ _ _] & <-). unfold toJSON, forEach. rewrite F, (forEach_collects _ _ None es) by (done || by eapply seg_fuel). done.
Qed.

(** All that an iterator of [entries] still yields. *)
Fixpoint drain (fuel : nat) (it : iterator) this : res (list (K * V)) :=
  let* r := entries it this in
  match fst r, fuel with
  | None, _ => Ret []
  | Some p, O => Throw OutOfFuel
  | Some p, S fuel => let* rest := drain fuel (snd r) this in Ret (p :: rest)
  end.

Lemma drain_spec this p es fuel : seg (items this) p es None -> (length es <= fuel)%nat -> drain fuel (mkIterator (_state this) (firstRef es None)) this = Ret es.*2.
Proof.
  revert p fuel. induction es as [| [x [k v]] es IH]; intros p fuel; [intros; destruct fuel; cbn; unfold entries, nextOf; cbn; by rewrite Z.eqb_refl |].
  intros [(i & Li & _ & Ni & Ei) Sg] Hf. destruct fuel as [| fuel]; [cbn in Hf; lia |]. cbn [drain firstRef]. unfold entries, nextOf, item. cbn [state current js_get res_bind].
  rewrite Z.eqb_refl, Li. cbn [negb js_get res_bind fst snd]. cbn in Ni, Ei. rewrite Ni, Ei. rewrite (IH (Some x)) by (done || (cbn in Hf; lia)). done.
Qed.

Lemma drain_shows this l : shows this l -> drain (length l) (iterate this) this = Ret l.
Proof.
  intros (es & [[S _ F _] _ _ _] & <-). unfold iterate. rewrite F. eapply drain_spec; [exact S |]. by rewrite length_fmap.
Qed.

(** ** What a map shows *)

Lemma has_shows this l k : shows this l -> has k this = bool_decide (k ∈ l.*1).
Proof.
  intros (es & Hm & <-). unfold has. apply bool_decide_ext. split.
  - intros [x Hx]. destruct (m_present _ _ _ _ Hm Hx) as (xs & v & ys & ->). apply (in_keys _ x k v). set_solver.
  - intros Hk. destruct (_map this !! k) eqn:E; [by eexists |]. by apply (m_absent _ _ _ Hm) in E.
Qed.

Lemma ends_show this l : shows this l ->
  LinkedMap.size this = zlen l /\ isEmpty this = bool_decide (l = []) /\ first this = snd <$> head l /\ LinkedMap.last this = snd <$> list.last l.
Proof.
  intros (es & Hm & <-). pose proof (linked_ends _ _ (m_linked _ _ Hm)) as [E1 E2]. destruct Hm as [[S D F L] _ _ Z].
  unfold LinkedMap.size, isEmpty, first, LinkedMap.last, valueAt, zlen. rewrite E1, E2, F, L, length_fmap. split_and!.
  - exact Z.
  - by destruct es.
  - destruct es as [| [x [k v]] es]; [done |]. cbn. destruct S as [(i & -> & _ & _ & Ei) _]. cbn in *. congruence.
  - destruct (decide (es = [])) as [-> | Hne]; [done |]. destruct (exists_last Hne) as (es' & [x [k v]] & ->). rewrite lastRef_app, fmap_app. cbn. rewrite last_snoc.
    apply seg_app in S as [_ [(i & -> & _ & _ & Ei) _]]. cbn in *. congruence.
Qed.

(** ** Sessions on a map *)

Inductive mop : Type :=
| Get (k : K) (how : Touch) | Set_ (k : K) (v : V) (how : Touch) | Delete (k : K) | Remove (k : K) | Shift | Clear | FromJSON (data : list (K * V)).

(** The answers: a value or none, or a boolean. *)
Definition answer : Type := option V + bool.

Variable truthy : V -> bool.

Definition mcall (o : mop) this : res (answer * t K V) :=
  match o with
  | Get k how => let* r := LinkedMap.get k how this in Ret (inl (fst r), snd r)
  | Set_ k v how => let* this := LinkedMap.set k v how this in Ret (inl None, this)
  | Delete k => let* r := LinkedMap.delete truthy k this in Ret (inr (fst r), snd r)
  | Remove k => let* r := LinkedMap.remove k this in Ret (inl (fst r), snd r)
  | Shift => let* r := LinkedMap.shift this in Ret (inl (fst r), snd r)
  | Clear => Ret (inl None, LinkedMap.clear this)
  | FromJSON data => let* this := LinkedMap.fromJSON data this in Ret (inl None, this)
  end.

Fixpoint mcalls (os : list mop) this : res (list answer * t K V) :=
  match os with
  | [] => Ret ([], this)
  | o :: os => let* r := mcall o this in let* rest := mcalls os (snd r) in Ret (fst r :: fst rest, snd rest)
  end.

(** The same on a list of pairs, the oldest first. *)
Definition putAll l (data : list (K * V)) : list (K * V) := fold_left (fun l p => put p.1 p.2 NoTouch l) data l.

Definition mact (o : mop) l : answer * list (K * V) :=
  match o with
  | Get k how => (inl (assoc k l), touched how k l)
  | Set_ k v how => (inl None, put k v how l)
  | Delete k => (inr (match assoc k l with Some v => truthy v | None => false end), drop_key k l)
  | Remove k => (inl (assoc k l), drop_key k l)
  | Shift => (inl (snd <$> head l), tail l)
  | Clear => (inl None, [])
  | FromJSON data => (inl None, putAll [] data)
  end.

Fixpoint macts (os : list mop) l : list answer * list (K * V) :=
  match os with
  | [] => ([], l)
  | o :: os => let '(a, l) := mact o l in let '(rest, l) := macts os l in (a :: rest, l)
  end.

Lemma later_trans this l this' l' this'' l'' : later this l this' l' -> later this' l' this'' l'' -> later this l this'' l''.
Proof.
  intros [A1 A2] [B1 B2]. split; [lia |]. intros Hne. destruct (decide (l.*1 = l'.*1)) as [E |]; [rewrite E in Hne; specialize (B2 Hne); lia |].
  specialize (A2 ltac:(done)). lia.
Qed.

Lemma setAll_shows this l data : shows this l -> exists this', setAll data this = Ret this' /\ shows this' (putAll l data) /\ later this l this' (putAll l data).
Proof.
  revert this l. induction data as [| [k v] data IH]; intros this l Hs; cbn; [exists this; split; [done |]; split; [done | split; [lia | done]] |].
  destruct (set_shows this l k v NoTouch Hs) as (this1 & -> & H1 & L1). cbn. destruct (IH this1 _ H1) as (this' & -> & H' & L').
  exists this'. split; [done |]. split; [done |]. by eapply later_trans.
Qed.

Lemma mcall_spec this l o : shows this l -> exists this', mcall o this = Ret (fst (mact o l), this') /\ shows this' (snd (mact o l)) /\ later this l this' (snd (mact o l)).
Proof.
  intros Hs. destruct o as [k how | k v how | k | k | | | data]; cbn [mcall mact fst snd].
  - destruct (get_shows this l k how Hs) as (this' & -> & ? & ?). by exists this'.
  - destruct (set_shows this l k v how Hs) as (this' & -> & ? & ?). by exists this'.
  - unfold LinkedMap.delete. destruct (remove_shows this l k Hs) as (this' & -> & ? & ?). by exists this'.
  - destruct (remove_shows this l k Hs) as (this' & -> & ? & ?). by exists this'.
  - destruct (shift_shows this l Hs) as (this' & -> & ? & ?). by exists this'.
  - eexists. split; [done |]. apply clear_shows.
  - unfold LinkedMap.fromJSON. destruct (clear_shows this l) as [H0 L0]. destruct (setAll_shows _ _ data H0) as (this' & -> & ? & L'). exists this'.
    split; [done |]. split; [done |]. by eapply later_trans.
Qed.

Lemma mcalls_spec this l os : shows this l ->
  exists this', mcalls os this = Ret (fst (macts os l), this') /\ shows this' (snd (macts os l)) /\ later this l this' (snd (macts os l)).
Proof.
  revert this l. induction os as [| o os IH]; intros this l Hs; cbn; [exists this; split; [done |]; split; [done | split; [lia | done]] |].
  destruct (mcall_spec this l o Hs) as (this1 & -> & H1 & L1). cbn. destruct (mact o l) as [a l1]. cbn in *.
  destruct (IH this1 l1 H1) as (this' & -> & H' & L'). exists this'. destruct (macts os l1). split; [done |]. split; [done |]. by eapply later_trans.
Qed.
End Sessions.
Arguments mop : clear implicits.
