(* ===== verification/LRUSession.v ===== *)
(** * Caches in use

    [LRUCache]: how many pairs a trim leaves, sessions of calls on a cache, and the claims on
    linked maps and caches. *)

From stdpp Require Import gmap.
From S2P Require Import Prelude Linked LinkedMap LinkedMapOps LinkedMapShows LinkedMapSession.
Import Link.

(** ** The share that is kept *)

Lemma nearest_bounds a s b : 0 <= s -> 0 <= a <= b * 2 ^ s -> 0 <= Num.nearest a s <= b.
Proof.
  intros Hs Ha. unfold Num.nearest. pose proof (Z.pow_pos_nonneg 2 s ltac:(lia) Hs).
  pose proof (Z.div_mod a (2 ^ s) ltac:(lia)). pose proof (Z.mod_pos_bound a (2 ^ s) ltac:(lia)).
  assert (0 <= a / 2 ^ s) by (apply Z.div_pos; lia). destruct (_ || _) eqn:E; [| nia].
  assert (0 < a mod 2 ^ s) by lia. nia.
Qed.

Section Share.
Context (limit : Z) (x : Num.t).
Hypotheses (Hl : 0 <= limit < 2 ^ 53) (He : 0 <= Num.exponent x) (Hm : 0 <= Num.mantissa x <= 2 ^ Num.exponent x).

(** The bits that are rounded off are below the point. *)
Lemma shift_small : Z.max 0 (Z.log2 (Z.abs (limit * Num.mantissa x)) + 1 - 53) <= Num.exponent x.
Proof.
  apply Z.max_lub; [done |]. rewrite Z.abs_eq by nia. destruct (decide (limit * Num.mantissa x <= 0)) as [Hz |]; [assert (limit * Num.mantissa x = 0) as -> by nia; cbn; lia |].
  assert (Z.log2 (limit * Num.mantissa x) < 53 + Num.exponent x); [| lia]. apply Z.log2_lt_pow2; [lia |]. rewrite Z.pow_add_r by lia. nia.
Qed.

Lemma share_bounds : 0 <= Num.roundedProduct limit x <= limit.
Proof.
  unfold Num.roundedProduct. pose proof shift_small as Hs. set (s := Z.max 0 _) in *. set (e := Num.exponent x) in *. assert (0 <= s) by lia.
  assert (E : 2 ^ e = 2 ^ (e - s) * 2 ^ s) by (rewrite <- Z.pow_add_r by lia; f_equal; lia). assert (0 < 2 ^ s /\ 0 < 2 ^ (e - s)) as [? ?] by (split; apply Z.pow_pos_nonneg; lia).
  destruct (nearest_bounds (limit * Num.mantissa x) s (limit * 2 ^ (e - s))) as [N1 N2]; [done | rewrite <- Z.mul_assoc, <- E; split; [apply Z.mul_nonneg_nonneg; lia | apply Z.mul_le_mono_nonneg_l; [lia | exact (proj2 Hm)]] |].
  set (n := Num.nearest _ _) in *. replace (2 ^ (e + 1)) with (2 * 2 ^ e) by (rewrite Z.pow_add_r by lia; lia).
  assert (0 < 2 ^ e) by (apply Z.pow_pos_nonneg; lia). assert (0 <= n * 2 ^ s <= limit * 2 ^ e).
  { split; [apply Z.mul_nonneg_nonneg; lia |]. rewrite E, Z.mul_assoc. apply Z.mul_le_mono_nonneg_r; lia. }
  split; [apply Z.div_pos; lia |]. apply Z.lt_succ_r, Z.div_lt_upper_bound; lia.
Qed.
End Share.

Lemma clamp_ok x : 0 <= Num.exponent x -> 0 <= Num.exponent (Num.clamp x) /\ 0 <= Num.mantissa (Num.clamp x) <= 2 ^ Num.exponent (Num.clamp x).
Proof.
  intros He. unfold Num.clamp. destruct (Num.mantissa x <? 0) eqn:H1; [done |]. destruct (2 ^ Num.exponent x <? Num.mantissa x) eqn:H2; [done |].
  apply Z.ltb_ge in H1, H2. done.
Qed.

Section Sessions.
Context {K V : Type} `{Countable K}.
Implicit Types (this : LRUCache.t K V) (k : K) (v : V) (l : list (K * V)).

(** ** Sessions on a cache *)

Inductive lop : Type :=
| LGet (k : K) (how : Touch) | LPeek (k : K) | LSet (k : K) (v : V) | LLimit (n : Z) | LRatio (x : Num.t)
| LDelete (k : K) | LRemove (k : K) | LShift | LClear | LFromJSON (data : list (K * V)).

Variable truthy : V -> bool.

(** A call of the class [LinkedMap]. *)
Definition inherited (o : mop K V) this : res (answer (V := V) * LRUCache.t K V) :=
  let* r := mcall truthy o (LRUCache.super this) in
  Ret (fst r, LRUCache.mk (snd r) (LRUCache._limit this) (LRUCache._ratio this)).

Definition lcall (o : lop) this : res (answer (V := V) * LRUCache.t K V) :=
  match o with
  | LGet k how => let* r := LRUCache.get k how this in Ret (inl (fst r), snd r)
  | LPeek k => let* r := LRUCache.peek k this in Ret (inl r, this)
  | LSet k v => let* this := LRUCache.set k v this in Ret (inl None, this)
  | LLimit n => let* this := LRUCache.set_limit n this in Ret (inl None, this)
  | LRatio x => let* this := LRUCache.set_ratio x this in Ret (inl None, this)
  | LDelete k => inherited (Delete k) this
  | LRemove k => inherited (Remove k) this
  | LShift => inherited Shift this
  | LClear => inherited Clear this
  | LFromJSON data => let* this := LRUCache.fromJSON data this in Ret (inl None, this)
  end.

Fixpoint lcalls (os : list lop) this : res (list (answer (V := V)) * LRUCache.t K V) :=
  match os with
  | [] => Ret ([], this)
  | o :: os => let* r := lcall o this in let* rest := lcalls os (snd r) in Ret (fst r :: fst rest, snd rest)
  end.

(** The same on a list of pairs, the least recently used first. *)
Record cache : Type := mkCache { pairs : list (K * V); maximum : Z; share : Num.t }.

Definition trimmed (c : cache) : cache :=
  if maximum c <? zlen (pairs c) then mkCache (newest (Num.roundedProduct (maximum c) (share c)) (pairs c)) (maximum c) (share c) else c.

Definition cacheSet (k : K) (v : V) (c : cache) : cache := trimmed (mkCache (put k v AsNew (pairs c)) (maximum c) (share c)).

Definition onPairs (o : mop K V) (c : cache) : answer (V := V) * cache :=
  let '(a, l) := mact truthy o (pairs c) in (a, mkCache l (maximum c) (share c)).

Definition lact (o : lop) (c : cache) : answer (V := V) * cache :=
  match o with
  | LGet k how => onPairs (Get k how) c
  | LPeek k => (inl (assoc k (pairs c)), c)
  | LSet k v => (inl None, cacheSet k v c)
  | LLimit n => (inl None, trimmed (mkCache (pairs c) n (share c)))
  | LRatio x => (inl None, trimmed (mkCache (pairs c) (maximum c) (Num.clamp x)))
  | LDelete k => onPairs (Delete k) c
  | LRemove k => onPairs (Remove k) c
  | LShift => onPairs Shift c
  | LClear => onPairs Clear c
  | LFromJSON data => (inl None, fold_left (fun c p => cacheSet p.1 p.2 c) data (mkCache [] (maximum c) (share c)))
  end.

Fixpoint lacts (os : list lop) (c : cache) : list (answer (V := V)) * cache :=
  match os with
  | [] => ([], c)
  | o :: os => let '(a, c) := lact o c in let '(rest, c) := lacts os c in (a :: rest, c)
  end.

(** Limits are not negative, numbers are finite. *)
Definition lop_ok (o : lop) : Prop :=
  match o with LLimit n => 0 <= n < 2 ^ 53 | LRatio x => 0 <= Num.exponent x | _ => True end.

Record caches this (c : cache) : Prop := {
  k_shows : shows (LRUCache.super this) (pairs c);
  k_limit : LRUCache._limit this = maximum c;
  k_ratio : LRUCache._ratio this = share c;
  k_range : 0 <= maximum c < 2 ^ 53;
  k_share : 0 <= Num.exponent (share c) /\ 0 <= Num.mantissa (share c) <= 2 ^ Num.exponent (share c)
}.

Definition within (c : cache) : Prop := zlen (pairs c) <= maximum c.

Lemma trimmed_within this c : caches this c -> within (trimmed c).
Proof.
  intros [_ _ _ R [S1 S2]]. unfold within, trimmed. destruct (_ <? _) eqn:E; [| lia]. cbn. pose proof (share_bounds _ _ R S1 S2).
  unfold newest, zlen in *. rewrite length_drop. lia.
Qed.

Lemma checkTrim_caches this c : caches this c -> exists this', LRUCache.checkTrim this = Ret this' /\ caches this' (trimmed c).
Proof.
  intros [Sh L R Rg [S1 S2]]. unfold LRUCache.checkTrim, trimmed. destruct (ends_show _ _ Sh) as (-> & _). rewrite L, R. destruct (_ <? _) eqn:E; [| exists this; by split].
  pose proof (share_bounds _ _ Rg S1 S2). destruct (trimOld_shows _ _ (Num.roundedProduct (maximum c) (share c)) ltac:(lia) Sh) as (m & -> & Sh' & _). cbn [res_bind].
  eexists. split; [done |]. by split.
Qed.

Lemma set_caches this c k v : caches this c -> exists this', LRUCache.set k v this = Ret this' /\ caches this' (cacheSet k v c) /\ within (cacheSet k v c).
Proof.
  intros [Sh L R Rg Sr]. unfold LRUCache.set. destruct (set_shows _ _ k v AsNew Sh) as (m & -> & Sh' & _). cbn [res_bind].
  assert (C : caches (LRUCache.mk m (LRUCache._limit this) (LRUCache._ratio this)) (mkCache (put k v AsNew (pairs c)) (maximum c) (share c))) by (by split).
  destruct (checkTrim_caches _ _ C) as (this' & -> & C'). exists this'. split; [done |]. split; [done |]. by eapply trimmed_within.
Qed.

Lemma setAll_caches data this c : caches this c -> within c -> exists this', LRUCache.setAll data this = Ret this' /\
  caches this' (fold_left (fun c p => cacheSet p.1 p.2 c) data c) /\ within (fold_left (fun c p => cacheSet p.1 p.2 c) data c).
Proof.
  revert this c. induction data as [| [k v] data IH]; intros this c C W; cbn; [by exists this |].
  destruct (set_caches this c k v C) as (this1 & -> & C1 & W1). cbn. by apply IH.
Qed.

Lemma drop_key_length k l : (length (drop_key k l) <= length l)%nat.
Proof. unfold drop_key. induction l as [| p l IH]; [done |]. rewrite filter_cons. case_decide; cbn; lia. Qed.

(** Calls of [LinkedMap] that add no key keep the cache within its limit. *)
Lemma onPairs_caches this c (o : mop K V) : caches this c -> within c -> (length (snd (mact truthy o (pairs c))) <= length (pairs c))%nat ->
  exists this', inherited o this = Ret (fst (onPairs o c), this') /\ caches this' (snd (onPairs o c)) /\ within (snd (onPairs o c)).
Proof.
  intros [Sh L R Rg Sr] W Hlen. unfold inherited, onPairs. destruct (mcall_spec truthy _ _ o Sh) as (m & -> & Sh' & _). cbn [res_bind].
  destruct (mact truthy o (pairs c)) as [a l]. cbn in *. eexists. split; [done |]. split; [by split |]. unfold within, zlen in *. cbn. lia.
Qed.

Lemma touched_length how k l : NoDup l.*1 -> length (touched how k l) = length l.
Proof.
  intros D. destruct (assoc k l) as [v |] eqn:Ea; [| unfold touched; by rewrite Ea].
  assert (exists l1 v l2, l = l1 ++ (k, v) :: l2) as (l1 & v' & l2 & ->).
  { clear D. revert Ea. induction l as [| [k' w] l IH]; cbn; [done |]. destruct (decide (k' = k)) as [-> |]; [by exists [], w, l |].
    intros (l1 & v' & l2 & ->)%IH. by exists ((k', w) :: l1), v', l2. }
  rewrite touched_middle by done. destruct how; rewrite ?length_cons, ?length_app, ?length_cons; cbn; lia.
Qed.

Lemma shows_keys (m : LinkedMap.t K V) l : shows m l -> NoDup l.*1.
Proof. intros (es & Hm & <-). apply (m_keys _ _ Hm). Qed.

Lemma lcall_spec this c o : caches this c -> within c -> lop_ok o ->
  exists this', lcall o this = Ret (fst (lact o c), this') /\ caches this' (snd (lact o c)) /\ within (snd (lact o c)).
Proof.
  intros C W Ho. pose proof C as [Sh L R Rg Sr]. destruct o as [k how | k | k v | n | x | k | k | | | data]; cbn [lcall lact].
  - assert (E : forall r, LRUCache.get k how this = Ret r -> inherited (Get k how) this = Ret (inl (fst r), snd r)).
    { unfold LRUCache.get, inherited. cbn [mcall]. intros r. by destruct (LinkedMap.get k how _) as [[? ?] |]; [intros [= <-] |]. }
    destruct (onPairs_caches this c (Get k how) C W) as (this' & E' & C' & W'); [cbn; rewrite touched_length; [done | by eapply shows_keys] |].
    unfold LRUCache.get in *. destruct (get_shows _ _ k how Sh) as (m & Em & _). rewrite Em in *. cbn [res_bind fst snd] in *. specialize (E _ eq_refl). rewrite E in E'.
    exists this'. split; [exact E' |]. by split.
  - unfold LRUCache.peek. destruct (get_shows _ _ k NoTouch Sh) as (m & -> & _). by exists this.
  - destruct (set_caches this c k v C) as (this' & -> & ? & ?). by exists this'.
  - assert (C1 : caches (LRUCache.mk (LRUCache.super this) n (LRUCache._ratio this)) (mkCache (pairs c) n (share c))) by (by split).
    unfold LRUCache.set_limit. destruct (checkTrim_caches _ _ C1) as (this' & -> & C'). exists this'. split; [done |]. split; [done | by eapply trimmed_within].
  - assert (C1 : caches (LRUCache.mk (LRUCache.super this) (LRUCache._limit this) (Num.clamp x)) (mkCache (pairs c) (maximum c) (Num.clamp x))) by (split; try done; by apply clamp_ok).
    unfold LRUCache.set_ratio. destruct (checkTrim_caches _ _ C1) as (this' & -> & C'). exists this'. split; [done |]. split; [done | by eapply trimmed_within].
  - apply onPairs_caches; [done.. |]. apply drop_key_length.
  - apply onPairs_caches; [done.. |]. apply drop_key_length.
  - apply onPairs_caches; [done.. |]. cbn. destruct (pairs c); cbn; lia.
  - apply onPairs_caches; [done.. |]. cbn. lia.
  - unfold LRUCache.fromJSON. assert (C1 : caches (LRUCache.mk (LinkedMap.clear (LRUCache.super this)) (LRUCache._limit this) (LRUCache._ratio this)) (mkCache [] (maximum c) (share c))).
    { split; try done. cbn. apply (clear_shows _ []). }
    destruct (setAll_caches data _ _ C1) as (this' & -> & C' & W'); [unfold within; cbn; unfold zlen; cbn; lia |]. exists this'. by split_and!.
Qed.

Lemma lcalls_spec os this c : caches this c -> within c -> Forall lop_ok os ->
  exists this', lcalls os this = Ret (fst (lacts os c), this') /\ caches this' (snd (lacts os c)) /\ within (snd (lacts os c)).
Proof.
  revert this c. induction os as [| o os IH]; intros this c C W; cbn; [by exists this |]. intros [Ho Hos]%Forall_cons.
  destruct (lcall_spec this c o C W Ho) as (this1 & -> & C1 & W1). cbn. destruct (lact o c) as [a c1]. cbn in *.
  destruct (IH this1 c1 C1 W1 Hos) as (this' & -> & C' & W'). exists this'. by destruct (lacts os c1).
Qed.

(** The pair just set is the newest one. *)
Lemma put_newest k v l : NoDup l.*1 -> exists l', put k v AsNew l = l' ++ [(k, v)].
Proof.
  intros D. unfold put. destruct (assoc k l) as [v0 |] eqn:Ea; [| by exists l]. unfold touched.
  assert (assoc k (update k v l) = Some v) as ->; [| by eexists]. clear D. revert Ea. unfold update. induction l as [| [k' w] l IH]; cbn; [done |].
  destruct (decide (k' = k)); [by rewrite decide_True |]. intros E. rewrite decide_False by done. by apply IH.
Qed.

Lemma newest_keeps_last n l p : 1 <= n -> newest n (l ++ [p]) = newest (n - 1) l ++ [p].
Proof.
  intros Hn. unfold newest. rewrite length_app. cbn. rewrite drop_app_le by lia. do 2 f_equal. lia.
Qed.

Lemma cacheSet_keeps this c k v : caches this c -> 1 <= Num.roundedProduct (maximum c) (share c) -> exists l, pairs (cacheSet k v c) = l ++ [(k, v)].
Proof.
  intros [Sh _ _ _ _] Hr. unfold cacheSet, trimmed. cbn [pairs maximum share]. destruct (put_newest k v (pairs c)) as [l E]; [by eapply shows_keys |]. rewrite E.
  destruct (_ <? _); cbn [pairs]; [rewrite newest_keeps_last by lia; by eexists | by eexists].
Qed.
End Sessions.
Arguments lop : clear implicits.
Arguments cache : clear implicits.

(** ** Claims *)

(** C12: Every session of calls on a linked map runs without an exception, and in particular never
    finds the list of items invalid; the answers are those of the calls on a list of pairs with
    distinct keys, and afterwards the size, the ends, [has], [toJSON] and the iterators show that
    list, in its order. An iterator that was made before the keys or their order changed throws. *)
Theorem linked_map_sessions {K V} `{Countable K} (truthy : V -> bool) (os os' : list (mop K V)) :
  let '(answers, l) := macts truthy os [] in let '(_, l') := macts truthy os' l in
  exists this this', mcalls truthy os LinkedMap.new = Ret (answers, this) /\ snd <$> (match mcalls truthy os' this with Ret r => Some r | Throw _ => None end) = Some this' /\
    NoDup l.*1 /\ LinkedMap.size this = zlen l /\ LinkedMap.isEmpty this = bool_decide (l = []) /\
    LinkedMap.first this = snd <$> head l /\ LinkedMap.last this = snd <$> last l /\ (forall k, LinkedMap.has k this = bool_decide (k ∈ l.*1)) /\
    LinkedMap.toJSON this = Ret l /\ drain (length l) (LinkedMap.iterate this) this = Ret l /\
    (l.*1 <> l'.*1 -> LinkedMap.entries (LinkedMap.iterate this) this' = Throw Error).
Proof.
  assert (S0 : shows (LinkedMap.new (K := K) (V := V)) []) by (exists []; split; [apply mrep_new | done]).
  destruct (mcalls_spec truthy _ _ os S0) as (this & E & Sh & _). destruct (macts truthy os []) as [answers l]. cbn [fst snd] in *.
  destruct (mcalls_spec truthy _ _ os' Sh) as (this' & E' & _ & [_ La]). destruct (macts truthy os' l) as [answers' l']. cbn [fst snd] in *.
  exists this, this'. rewrite E'. destruct (ends_show _ _ Sh) as (Z1 & Z2 & Z3 & Z4). split_and!; try done.
  - by eapply shows_keys.
  - intros k. by apply has_shows.
  - by apply toJSON_shows.
  - by apply drain_shows.
  - intros Hne%La. unfold LinkedMap.entries, LinkedMap.nextOf, LinkedMap.iterate. cbn [LinkedMap.state]. destruct (_ === _) eqn:?; [lia | done].
Qed.

(** C31: [fromJSON] of what [toJSON] returned makes a map with the same pairs in the same order. *)
Theorem json_roundtrip {K V} `{Countable K} (truthy : V -> bool) (os os' : list (mop K V)) : exists r r' data m,
  mcalls truthy os LinkedMap.new = Ret r /\ mcalls truthy os' LinkedMap.new = Ret r' /\
  LinkedMap.toJSON (snd r) = Ret data /\ LinkedMap.fromJSON data (snd r') = Ret m /\ LinkedMap.toJSON m = Ret data.
Proof.
  assert (S0 : shows (LinkedMap.new (K := K) (V := V)) []) by (exists []; split; [apply mrep_new | done]).
  destruct (mcalls_spec truthy _ _ os S0) as (this & E & Sh & _). destruct (mcalls_spec truthy _ _ os' S0) as (this' & E' & _ & _).
  set (l := snd (macts truthy os [])) in *. destruct (setAll_shows (LinkedMap.clear this') [] l) as (m & Em & Sm & _); [apply (clear_shows _ []) |].
  assert (El : putAll [] l = l).
  { pose proof (shows_keys _ _ Sh) as D. clear -D. cut (forall l0, NoDup (l0 ++ l).*1 -> putAll l0 l = l0 ++ l); [intros Hc; by apply Hc |]. clear D.
    induction l as [| [k v] l IH]; intros l0 D; [by rewrite app_nil_r |]. change (putAll (put k v NoTouch l0) l = l0 ++ (k, v) :: l). assert (put k v NoTouch l0 = l0 ++ [(k, v)]) as ->.
    { unfold put. rewrite assoc_None; [done |]. by apply around in D as [? _]. }
    rewrite (IH (l0 ++ [(k, v)])); [by rewrite <- app_assoc | by rewrite <- app_assoc]. }
  rewrite El in Sm. exists (fst (macts truthy os []), this), (fst (macts truthy os' []), this'), l, m. split_and!; try done; by apply toJSON_shows.
Qed.

(** C13: In every session on a cache whose limits are not negative all calls answer like those on a
    list of pairs ordered by their last use; the cache never holds more pairs than its limit, and
    the pair set last is in it when the share of the limit that a trim keeps is at least one. *)
Theorem lru_sessions {K V} `{Countable K} (truthy : V -> bool) limit ratio (os : list (lop K V)) :
  0 <= limit < 2 ^ 53 -> 0 <= Num.exponent ratio -> Forall lop_ok os ->
  let '(answers, c) := lacts truthy os (mkCache [] limit (Num.clamp ratio)) in
  exists this, lcalls truthy os (LRUCache.new limit ratio) = Ret (answers, this) /\
    LinkedMap.toJSON (LRUCache.super this) = Ret (pairs c) /\ LRUCache.limit this = maximum c /\ LinkedMap.size (LRUCache.super this) <= LRUCache.limit this /\
    forall k v, exists this', LRUCache.set k v this = Ret this' /\
      (1 <= Num.roundedProduct (LRUCache.limit this) (LRUCache.ratio this) -> LRUCache.peek k this' = Ret (Some v) /\ LinkedMap.last (LRUCache.super this') = Some v).
Proof.
  intros Hl He Ho. assert (C0 : caches (LRUCache.new limit ratio) (mkCache (K := K) (V := V) [] limit (Num.clamp ratio))).
  { split; try done; [exists []; split; [apply mrep_new | done] | by apply clamp_ok]. }
  destruct (lcalls_spec truthy os _ _ C0) as (this & E & C & W); [unfold within; cbn; unfold zlen; cbn; lia | done |].
  destruct (lacts _ _ _) as [answers c]. cbn [fst snd] in *. exists this. split; [done |]. destruct (ends_show _ _ (k_shows _ _ C)) as (Z1 & _).
  split; [by apply toJSON_shows, k_shows |]. unfold LRUCache.limit, LRUCache.ratio. rewrite (k_limit _ _ C), (k_ratio _ _ C), Z1. split; [done |]. split; [exact W |].
  intros k v. destruct (set_caches this c k v C) as (this' & Es & C' & _). exists this'. split; [done |]. intros Hr.
  destruct (cacheSet_keeps this c k v C Hr) as [l El]. pose proof (k_shows _ _ C') as Sh'. rewrite El in Sh'. split.
  - unfold LRUCache.peek. destruct (get_shows _ _ k NoTouch Sh') as (m & -> & _). cbn. do 2 f_equal. apply assoc_middle.
    apply shows_keys, (around k v l []) in Sh' as [? _]. done.
  - destruct (ends_show _ _ Sh') as (_ & _ & _ & ->). by rewrite last_snoc.
Qed.

(** A cache of three pairs that keeps two thirds of them, as a fraction of 2^53. *)
Lemma lru_sessions_witness : exists this,
  lcalls (fun v => v !== 0) [LSet 1 10; LSet 2 20; LSet 3 30; LGet 1 AsNew; LSet 4 40; LPeek 2; LPeek 1] (LRUCache.new 3 (Num.mk 6004799503160661 53)) =
    Ret ([inl None; inl None; inl None; inl (Some 10); inl None; inl None; inl (Some 10)], this) /\
  LinkedMap.toJSON (LRUCache.super this) = Ret [(1, 10); (4, 40)] /\ LinkedMap.size (LRUCache.super this) <= 3.
Proof.
  pose proof (lru_sessions (fun v => v !== 0) 3 (Num.mk 6004799503160661 53) [LSet 1 10; LSet 2 20; LSet 3 30; LGet 1 AsNew; LSet 4 40; LPeek 2; LPeek 1]
    ltac:(split; [lia | reflexivity]) ltac:(cbn; lia) ltac:(repeat constructor)) as T.
  vm_compute lacts in T. destruct T as (this & E & J & L & S & _). exists this. split; [exact E |]. split; [exact J |]. rewrite L in S. exact S.
Defined.
